(* ===== verification/_CoqProject ===== *)
-Q . S2P
Prelude.v
Bytes.v
Core.v
SessionManager.v
SessionConcurrency.v
PluginChain.v
Gateway.v
PeerAddr.v
Quota.v
Acceptor.v
Duration.v
Shared.v
Pool.v
RateLimit.v
AutoBan.v
NetIP.v
Blacklist.v
Stream.v
TcpFramer.v
TcpSession.v
UdpServer.v
GrpcFraming.v
ProxyProto.v
CoapMessage.v
CoapBlock.v
CoapRetransmit.v
CoapObserve.v
CoapServer.v
Lwm2mTlv.v
Breaker.v
Cache.v
Lwm2mServer.v
Config.v
Reload.v
Store.v
MemoryStore.v
BoltStore.v
MessageLog.v
SessionStore.v
Persistence.v
Lifecycle.v
Heartbeat.v
PubSub.v
Cluster.v
TcpOptions.v
TcpServer.v
TcpClient.v
CertWatch.v
App.v
Admin.v
Dtls.v
SessionTable.v
HttpServer.v
GrpcWebServer.v
WsSession.v
QuicSession.v
Metrics.v
Mqtt.v
DatagramStop.v
WebStop.v
TcpPipeline.v
OptionTools.v
WsOptions.v
GrpcWebOptions.v
HttpOptions.v
QuicOptions.v
CoapOptions.v
ServerOptions.v
ProxyListener.v
GatewayConfig.v
ServerLifecycle.v
Lwm2mClient.v
LoadGen.v
LoadMetrics.v
BenchGate.v
WsPipeline.v
GatewayServers.v
TestScripts.v
Command.v
PoolBaseline.v
