(* ===== verification/Prelude.v ===== *)
(** * shark-socket: verification development

    shark-socket is a gateway that serves eight transports (TCP, UDP, HTTP,
    WebSocket, QUIC, CoAP, gRPC-Web and LwM2M over CoAP) from one process.  A
    gateway starts and stops the servers; each server admits connections
    through shared admission control, turns bytes into messages with a framer
    or codec, passes them through a chain of plugins and hands them to the user
    handler, inline or on a worker pool; a sharded session manager holds the
    live sessions for broadcast and shutdown.  An application puts a gateway
    together from a configuration, which it can reload while running.

    ** Reading guide

    A file models one component.  A comment [go: file:first-last (symbol)]
    stands before every definition that translates code; definitions keep the
    source's names, with an underscore added where the name is taken.

    Runtime ([internal/core], [internal/runtime]):
    - [Core]: [internal/core]: errors with [errors.Is] and [errors.Join],
      protocols, session states, reference-counted frames, metric labels.
    - [SessionManager]: [session_manager.go] and [session_metrics.go]: the 64
      shards, registration under a cap, snapshots, broadcast, close-all and the
      metrics decorator.  The sharded table refines a single map (the main
      theorem), a broadcast reaches each session once when two or more share a
      frame, and twice otherwise for those that cannot.
    - [SessionConcurrency]: the same [Register] and [Unregister] at the grain
      of their atomic operations: any number of threads, any interleaving.
    - [PluginChain]: [plugin_chain.go]: ordering, start and stop, accept,
      message and close, with the panic isolation of each call; the rollback
      theorems for start and accept, over traces that hold what every plugin
      answered.
    - [Gateway], [GatewayConfig]: [gateway.go] and the options: registry, start
      all or nothing with the error it reports, staged stop, and the runtime
      injected into the servers.
    - [Admin]: [admin.go]: no request is answered without the token, and what
      the session report holds.

    Shared transport code ([internal/transport/shared]):
    - [PeerAddr], [Quota], [Acceptor]: peer identity, the quota per peer and in
      total, the token bucket on binary64 and the gate listener: what is active
      is exactly what was admitted and not yet closed.
    - [Shared]: backoff, classification of accept errors, handler calls, and
      the accept and read loops of the servers that use them.
    - [Pool]: worker pools as steps of submitters, workers, scaling and [Stop]:
      every accepted task is handled exactly once, [Stop] terminates under any
      scheduler, and the elastic pool's bounds and hold.
    - [ProxyProto], [ProxyListener]: which inputs start with a PROXY protocol v1
      or v2 header and where it ends, and what waiting for it costs the
      connections behind.
    - [Dtls]: the TLS configuration and client check of the DTLS transports.

    Transports ([internal/transport]):
    - [Stream], [TcpFramer]: readers over a byte stream and the four TCP
      framers, behind the interface [FramerLaw]: what is written is read back,
      for length prefixes as long as the cap fits 32 bits.
    - [TcpSession], [TcpServer], [TcpClient]: the write queue with the write
      loop and close; connections from admission to removal; the client's
      ownership of its connections - each under every interleaving.
    - [TcpPipeline]: framer, plugin chain and pool put together: messages are
      handled once and, with one worker, in the order of the bytes.
    - [UdpServer]: the table of peers, its quota and its sweep, with the read
      loop cut at every call that leaves it; a sweep that overtakes the read loop
      is the counterexample [stale_sweep_orphans].
    - [GrpcFraming], [GrpcWebServer]: gRPC-Web frames, and a call over HTTP
      from admission to trailers.
    - [HttpServer]: a request over HTTP, its session and CORS.
    - [WsSession], [QuicSession]: writes, pings and closes of the WebSocket and
      QUIC sessions; [SessionTable]: how their servers store and release them;
      [WsPipeline]: their read loops, from a frame to the handler's answer.
    - [CoapMessage], [CoapBlock], [CoapRetransmit], [CoapObserve],
      [CoapServer]: the CoAP codec, block-wise transfer with the sizes a client
      may change to, the schedule of a confirmable notification, the observe
      registry (refining a list of relations) and the server's message handling
      with deduplication (until the table is cleared), notification and
      retransmission.
    - [TcpOptions], [OptionTools], [WsOptions], [GrpcWebOptions],
      [HttpOptions], [QuicOptions], [CoapOptions], [ServerOptions]: what every
      option sets and refuses, and the fields of each server that no option can
      take out of their range.
    - [ServerLifecycle], [DatagramStop], [WebStop]: starting and stopping: the
      flags, sockets and results of every server, the panics of [HandleFunc] as
      the laws of [ServeMux], and the wait for goroutines, where a step that
      needs a peer, the network or a deadline is told from one that does not;
      [GatewayServers]: a gateway with these servers, all started or none.

    Plugins ([internal/plugin]):
    - [RateLimit], [AutoBan]: the sharded sliding window refines a history of
      accepted messages under changing limits, less what was forgotten under a
      shorter window; the ban threshold is exact and a ban lasts.
    - [NetIP], [Blacklist]: IP addresses, and what is blocked.
    - [Persistence]: what is recorded of sessions and messages.
    - [Lifecycle], [Heartbeat], [Cluster]: background goroutines under restart,
      the idle sweep and the report of slow messages, forwarding between nodes.

    Infrastructure ([internal/infra]) and LwM2M ([internal/protocol/lwm2m]):
    - [Store] (an interface with its laws), [MemoryStore] and [BoltStore]
      (which discharge it), [MessageLog] and [SessionStore] (proved over it).
    - [Breaker], [Cache], [PubSub], [Mqtt]: the circuit breaker, the cache with
      expiry, the in-process bus, the adapter of the MQTT client.
    - [Metrics]: the Prometheus registry refines its history of operations.
    - [CertWatch]: certificates reloaded while serving.
    - [Lwm2mTlv], [Lwm2mServer], [Lwm2mClient]: the TLV codec and model, the
      registry with its bounds, the text commands of the CoAP responder, and
      how a client stays registered.

    Application ([internal/app]) and scripts ([scripts]):
    - [Duration], [Config], [Reload], [App]: durations, the configuration with
      its defaults, environment and validation, reload, and the assembly.
    - [Command]: the program and its log, with the certificate watchers and the
      endpoints at work: it keeps serving through reloads, a refused one leaves
      what was in force, and no SIGHUP is lost, under every interleaving.
    - [BenchGate]: the verdict of the benchmark gate, and which
      benchmark groups are run under which conditions.
    - [LoadGen], [LoadMetrics]: the load generators, the exchanges they make in
      each protocol, and what their latency samples and counts mean.
    - [TestScripts]: the stress scenarios with their verdict, the counts of
      the test report, and the modes of the test runner.
    - [PoolBaseline]: the drops of a worker pool, read back from what [Metrics]
      exports.

    [Prelude] (this file) has machine integers, outcomes of calls, lists,
    ranging over maps, step relations and the automation; [Bytes] has
    Go byte slices and strings.

    ** Conventions

    State is a record passed explicitly.  A component used by many goroutines is
    modelled at the grain of its critical sections: where one mutex guards an
    operation, a run is a sequence of operations; where the code synchronises
    with atomics and channels ([SessionConcurrency], [Pool], [TcpSession],
    [TcpServer], [QuicSession], the stops) a step relation has one step per
    synchronisation, and theorems hold for every interleaving.
    Time is read by the caller and passed in nanoseconds.  User code (handlers,
    plugins, sessions) is a parameter, a function on a world that may panic;
    theorems about the calls made run it on a world that records them.  Ranging
    over a Go map takes its order as an instance of [MapRange], and holds for
    every lawful one.  Integers are [Z], with [u8], [u32], [i64] and the like
    written where the code's type wraps; float64 is binary64 of [SpecFloat].
    Libraries (bbolt, JSON, gorilla, DTLS, QUIC, MQTT, X.509) are parameters
    with their documented behaviour as laws, or the free outcomes of their
    calls.

    Fuel appears in the option loop of [CoapMessage], the frame parser of
    [GrpcFraming], the TLV parser, the buffered line reader, the block transfer
    of [CoapBlock], the close-all loop of [SessionManager], the parsers of
    [Duration], [NetIP] and [Bytes], the label pairs of [Metrics], the rounding
    of [CoapOptions], the read loop of [TcpPipeline] and the reader of
    [LoadMetrics].  It is the length of
    the input (or more) where a round consumes input, and twenty where it
    counts the digits of a 64-bit number; theorems say that it is enough: the
    result is that of more fuel, or the exhausted case is not met.

    ** Not modelled

    Sockets, goroutine scheduling and timers around the modelled operations;
    the inside of [net/http], the QUIC, DTLS, MQTT and WebSocket libraries;
    what a log line looks like and the OpenTelemetry adapter, which pass values
    on; the re-exports of [api] and the accessors of fields; [examples] and the
    load server; of the scripts, what runs other programs, dials, prints or
    writes files, and the measurement of goroutine footprints. *)
From stdpp Require Export base gmap strings list sorting pretty.
From Stdlib Require Export ZArith Lia.
#[export] Set Default Goal Selector "!".
Local Open Scope Z_scope.

(** ** Machine integers *)

(** Unsigned wrap-around at width [w]: the value of a Go [uintw] expression. *)
Definition uwrap (w z : Z) : Z := z mod 2 ^ w.

(** Signed wrap-around at width [w]: the value of a Go [intw] expression. *)
Definition swrap (w z : Z) : Z := (z + 2 ^ (w - 1)) mod 2 ^ w - 2 ^ (w - 1).

Abbreviation u8 := (uwrap 8).
Abbreviation u16 := (uwrap 16).
Abbreviation u32 := (uwrap 32).
Abbreviation u64 := (uwrap 64).
Abbreviation i64 := (swrap 64).

Definition max_int64 : Z := 2 ^ 63 - 1.
Definition min_int64 : Z := - 2 ^ 63.

(** The range predicates of the fixed-width types. *)
Definition in_u (w z : Z) : Prop := 0 <= z < 2 ^ w.
Definition in_i64 (z : Z) : Prop := min_int64 <= z <= max_int64.

Lemma uwrap_small w z : 0 <= z < 2 ^ w -> uwrap w z = z.
Proof. apply Z.mod_small. Qed.

Lemma uwrap_range w z : 0 <= w -> in_u w (uwrap w z).
Proof. intros. apply Z.mod_pos_bound. lia. Qed.

Lemma uwrap_idemp w z : 0 <= w -> uwrap w (uwrap w z) = uwrap w z.
Proof. intros. apply uwrap_small. by apply uwrap_range. Qed.

Lemma swrap_small w z : 0 < w -> - 2 ^ (w - 1) <= z < 2 ^ (w - 1) -> swrap w z = z.
Proof.
  intros Hw Hz. unfold swrap.
  assert (2 ^ w = 2 * 2 ^ (w - 1)) as E
    by (rewrite <- Z.pow_succ_r by lia; f_equal; lia).
  rewrite Z.mod_small; lia.
Qed.

Lemma i64_small z : in_i64 z -> i64 z = z.
Proof. unfold in_i64, min_int64, max_int64. intros. apply swrap_small; lia. Qed.

(** ** Bit fields *)

Lemma land_shiftl_disjoint a b k :
  0 <= k -> 0 <= b < 2 ^ k -> Z.land (Z.shiftl a k) b = 0.
Proof.
  intros Hk Hb. apply Z.bits_inj'. intros i Hi.
  rewrite Z.land_spec, Z.bits_0, Z.shiftl_spec by done.
  destruct (Z.lt_ge_cases i k) as [H|H].
  - rewrite Z.testbit_neg_r by lia. done.
  - assert (Z.testbit b i = false) as ->; [|apply andb_false_r].
    rewrite <- (Z.mod_small b (2 ^ k)) by lia. by apply Z.mod_pow2_bits_high.
Qed.

(** Packing a field below a shifted one with "or" is addition. *)
Lemma lor_shiftl_add a b k :
  0 <= k -> 0 <= b < 2 ^ k -> Z.lor (Z.shiftl a k) b = a * 2 ^ k + b.
Proof.
  intros Hk Hb. rewrite <- Z.shiftl_mul_pow2, <- Z.add_lor_land by done.
  rewrite land_shiftl_disjoint; lia.
Qed.

(** Masking with [2^k - 1] is the remainder. *)
Lemma land_ones_mod a k : 0 <= k -> Z.land a (2 ^ k - 1) = a mod 2 ^ k.
Proof. intros. rewrite <- Z.land_ones by done. f_equal. rewrite Z.ones_equiv. lia. Qed.

(** ** Results of Go calls *)

(** A call to code outside the program (a user callback) returns or panics. *)
Inductive outcome (A : Type) : Type :=
| Returned (a : A)
| Panicked.
Arguments Returned {A} a.
Arguments Panicked {A}.

(** A Go [(T, error)] pair whose value is meaningful only without an error. *)
Inductive result (E A : Type) : Type :=
| Ok (a : A)
| Err (e : E).
Arguments Ok {E A} a.
Arguments Err {E A} e.

#[export] Instance result_eq_dec {E A} `{EqDecision E, EqDecision A} :
  EqDecision (result E A).
Proof. solve_decision. Defined.
#[export] Instance outcome_eq_dec {A} `{EqDecision A} : EqDecision (outcome A).
Proof. solve_decision. Defined.

Definition is_ok {E A} (r : result E A) : bool :=
  match r with Ok _ => true | Err _ => false end.

Declare Scope shark_scope.
Delimit Scope shark_scope with shark.

(** Early return on an error, as [if err != nil { return err }]. *)
Notation "'let?' x ':=' c1 'in' c2" :=
  (match c1 with Ok x => c2 | Err e => Err e end)
  (at level 10, x pattern, c1 at level 200, c2 at level 200) : shark_scope.

(** ** Lists *)

Lemma fmap_bind_list {A B C} (f : B -> C) (g : A -> list B) (l : list A) :
  f <$> (l ≫= g) = l ≫= (fun x => f <$> g x).
Proof. induction l as [|x l IH]; csimpl; [done|]. by rewrite fmap_app, IH. Qed.

Lemma filter_none {A} (P : A -> Prop) `{forall x, Decision (P x)} l :
  (forall x, ~ P x) -> filter P l = [].
Proof. intros HP. induction l as [|x l IH]; [done|]. by rewrite filter_cons_False. Qed.

Lemma filter_all {A} (P : A -> Prop) `{forall x, Decision (P x)} l :
  Forall P l -> filter P l = l.
Proof. induction 1 as [|x l Hx _ IH]; [done|]. rewrite filter_cons_True by done. by f_equal. Qed.

(** Filters that agree on the elements of a list. *)
Lemma list_filter_iff_elem {A} (P Q : A -> Prop) `{forall x, Decision (P x), forall x, Decision (Q x)} (l : list A) :
  (forall x, x ∈ l -> P x <-> Q x) -> filter P l = filter Q l.
Proof.
  induction l as [|x l IH]; intros HPQ; [done|].
  assert (filter P l = filter Q l) as E by (apply IH; intros y Hy; apply HPQ; by right).
  destruct (decide (P x)) as [HP|HP].
  - rewrite !filter_cons_True; [by rewrite E| |done]. apply HPQ; [by left|done].
  - rewrite !filter_cons_False; [done| |done]. by rewrite <- HPQ by left.
Qed.

(** How often an element occurs. *)
Definition occurs {A} `{!EqDecision A} (x : A) (l : list A) : nat := length (filter (fun y => y = x) l).

#[global] Arguments occurs : simpl never.

Lemma occurs_snoc {A} `{!EqDecision A} (x y : A) l :
  occurs x (l ++ [y]) = (occurs x l + if decide (y = x) then 1 else 0)%nat.
Proof.
  unfold occurs. rewrite filter_app, length_app. f_equal.
  destruct (decide (y = x)); [by rewrite filter_cons_True|by rewrite filter_cons_False].
Qed.

(** Replacing one element changes a sum by the difference. *)
Lemma sum_insert {A} (f : A -> nat) (l : list A) i x y :
  l !! i = Some x ->
  (list_sum (map f (<[i := y]> l)) + f x = list_sum (map f l) + f y)%nat.
Proof.
  revert i. induction l as [|a l IH]; intros [|i] Hi; simplify_eq/=; [lia|].
  specialize (IH i Hi). lia.
Qed.

Lemma sum_lookup_le {A} (f : A -> nat) (l : list A) i x :
  l !! i = Some x -> (f x <= list_sum (map f l))%nat.
Proof.
  revert i. induction l as [|a l IH]; intros [|i] Hi; simplify_eq/=; [lia|].
  specialize (IH i Hi). lia.
Qed.

Lemma sublist_same_length {A} (l k : list A) :
  l `sublist_of` k -> length l = length k -> l = k.
Proof.
  induction 1 as [|x l k _ IH|x l k Hs _]; [done|intros [= E]; by f_equal; apply IH|].
  intros E. apply sublist_length in Hs. cbn in E. lia.
Qed.

(** Replacing one element replaces what it contributes to a concatenation. *)
Lemma bind_insert {A B} (f : A -> list B) (l : list A) i x y :
  l !! i = Some x ->
  exists rest, l ≫= f ≡ₚ f x ++ rest /\ <[i := y]> l ≫= f ≡ₚ f y ++ rest.
Proof.
  intros Hi. exists ((take i l ≫= f) ++ (drop (S i) l ≫= f)).
  assert (i < length l)%nat as Hl by (by eapply lookup_lt_Some).
  split.
  - rewrite <- (take_drop_middle l i x Hi) at 1. rewrite bind_app. csimpl.
    rewrite !app_assoc. apply Permutation_app_tail, Permutation_app_comm.
  - rewrite insert_take_drop by done. rewrite bind_app. csimpl.
    rewrite !app_assoc. apply Permutation_app_tail, Permutation_app_comm.
Qed.

(** ** Ranging over a Go map

    Go visits the entries of a map once each in an unspecified order.  A
    development that ranges over a map takes the order as an instance, and its
    theorems hold for every lawful one. *)
Class MapRange (K : Type) `{Countable K} := {
  map_range : forall {A}, gmap K A -> list (K * A);
  map_range_perm : forall {A} (m : gmap K A), map_range m ≡ₚ map_to_list m
}.

Lemma elem_of_map_range `{MapRange K} {A} (m : gmap K A) k x :
  (k, x) ∈ map_range m <-> m !! k = Some x.
Proof. by rewrite map_range_perm, elem_of_map_to_list. Qed.

Lemma NoDup_map_range `{MapRange K} {A} (m : gmap K A) : NoDup (map_range m).
Proof. rewrite map_range_perm. apply NoDup_map_to_list. Qed.

Lemma NoDup_fst_map_range `{MapRange K} {A} (m : gmap K A) : NoDup (map_range m).*1.
Proof. rewrite map_range_perm. apply NoDup_fst_map_to_list. Qed.

(** One lawful order, for evaluation. *)
Definition map_range_std {K} `{Countable K} : MapRange K :=
  {| map_range A := map_to_list; map_range_perm A m := Permutation_refl _ |}.

(** ** Automation *)

Create HintDb shark.
Create Rewrite HintDb shark.

(** Case analysis on the first [if] or [match] of the goal. *)
Ltac split_match :=
  match goal with
  | |- context [match ?x with _ => _ end] =>
      lazymatch x with
      | context [match _ with _ => _ end] => fail
      | _ => destruct x eqn:?
      end
  end.

(** The boolean comparisons of [Z] as propositions. *)
Ltac breflect :=
  repeat match goal with
  | H : (_ <? _) = true |- _ => apply Z.ltb_lt in H
  | H : (_ <? _) = false |- _ => apply Z.ltb_ge in H
  | H : (_ <=? _) = true |- _ => apply Z.leb_le in H
  | H : (_ <=? _) = false |- _ => apply Z.leb_gt in H
  | H : (_ =? _) = true |- _ => apply Z.eqb_eq in H
  | H : (_ =? _) = false |- _ => apply Z.eqb_neq in H
  | H : (_ >? _) = _ |- _ => rewrite Z.gtb_ltb in H
  | H : (_ >=? _) = _ |- _ => rewrite Z.geb_leb in H
  | H : _ && _ = true |- _ => apply andb_true_iff in H as [??]
  | H : _ || _ = false |- _ => apply orb_false_iff in H as [??]
  | H : negb _ = true |- _ => apply negb_true_iff in H
  | H : negb _ = false |- _ => apply negb_false_iff in H
  end.

(** A closed decidable proposition, by evaluation. *)
Ltac decide_now := refine (bool_decide_unpack _ _); vm_compute; exact I.

(** ** Relations: finite sequences of steps and invariants *)

Inductive star {S} (R : S -> S -> Prop) : S -> S -> Prop :=
| star_refl s : star R s s
| star_step s1 s2 s3 : R s1 s2 -> star R s2 s3 -> star R s1 s3.

Lemma star_invariant {S} (R : S -> S -> Prop) (I : S -> Prop) :
  (forall s s', I s -> R s s' -> I s') ->
  forall s s', star R s s' -> I s -> I s'.
Proof. intros Hstep s s'. induction 1; eauto. Qed.

Lemma star_trans {S} (R : S -> S -> Prop) s1 s2 s3 :
  star R s1 s2 -> star R s2 s3 -> star R s1 s3.
Proof. induction 1; eauto using star. Qed.

Lemma star_one {S} (R : S -> S -> Prop) s1 s2 : R s1 s2 -> star R s1 s2.
Proof. eauto using star. Qed.

#[export] Hint Resolve star_refl star_one : shark.
