(* ===== verification/Bytes.v ===== *)
(** * Bytes: byte strings, big-endian integers and Go strings

    Go's [byte] is an integer in [0, 256) and [[]byte] a list of them.  The
    functions below are the parts of Go's [encoding/binary] the program uses
    ([binary.BigEndian]), with their round-trip laws; then, on the same lists,
    the parts of [strconv] and [strings] it uses. *)
From S2P Require Import Prelude.
Local Open Scope Z_scope.
Local Open Scope list_scope.

Abbreviation bytes := (list Z).

Definition is_byte (b : Z) : Prop := 0 <= b < 256.
Definition bytes_ok (l : bytes) : Prop := Forall is_byte l.

#[export] Instance is_byte_dec b : Decision (is_byte b).
Proof. unfold is_byte. apply _. Defined.
#[export] Instance bytes_ok_dec l : Decision (bytes_ok l).
Proof. unfold bytes_ok. apply _. Defined.

(** [len(b)] *)
Definition len {A} (l : list A) : Z := Z.of_nat (length l).

(** [b[i]] for an index the caller has checked; out of range Go panics, and
    every use below is guarded by a length check. *)
Definition byte_at (l : bytes) (i : nat) : Z := nth i l 0.

(** [binary.BigEndian.UintN] on a slice of N/8 bytes. *)
Definition be_get (l : bytes) : Z := fold_left (fun acc b => acc * 256 + b) l 0.

(** [binary.BigEndian.PutUintN] into a slice of [n] bytes. *)
Fixpoint be_put (n : nat) (v : Z) : bytes :=
  match n with
  | O => []
  | S n' => (Z.shiftr v (8 * Z.of_nat n')) mod 256 :: be_put n' v
  end.

Lemma len_nonneg {A} (l : list A) : 0 <= len l.
Proof. unfold len. lia. Qed.

Lemma len_app {A} (l k : list A) : len (l ++ k) = len l + len k.
Proof. unfold len. rewrite length_app. lia. Qed.

Lemma len_cons {A} (x : A) l : len (x :: l) = 1 + len l.
Proof. unfold len. simpl. lia. Qed.

#[export] Hint Rewrite @len_app @len_cons : shark.
#[export] Hint Resolve len_nonneg : shark.

Lemma bytes_ok_app l k : bytes_ok (l ++ k) <-> bytes_ok l /\ bytes_ok k.
Proof. apply Forall_app. Qed.

Lemma bytes_ok_cons b l : bytes_ok (b :: l) <-> is_byte b /\ bytes_ok l.
Proof. apply Forall_cons. Qed.

Lemma bytes_ok_take n l : bytes_ok l -> bytes_ok (take n l).
Proof. apply Forall_take. Qed.

Lemma bytes_ok_drop n l : bytes_ok l -> bytes_ok (drop n l).
Proof. apply Forall_drop. Qed.

#[export] Hint Resolve bytes_ok_take bytes_ok_drop : shark.

Lemma length_be_put n v : length (be_put n v) = n.
Proof. induction n; simpl; auto. Qed.

Lemma take_be_put n v l : take n (be_put n v ++ l) = be_put n v.
Proof. apply take_app_length'. by rewrite length_be_put. Qed.

Lemma drop_be_put n v l : drop n (be_put n v ++ l) = l.
Proof. apply drop_app_length'. by rewrite length_be_put. Qed.

Lemma len_be_put n v : len (be_put n v) = Z.of_nat n.
Proof. unfold len. by rewrite length_be_put. Qed.

#[export] Hint Rewrite take_be_put drop_be_put len_be_put : shark.

Lemma be_put_ok n v : bytes_ok (be_put n v).
Proof.
  induction n; simpl; constructor; auto. apply Z.mod_pos_bound. lia.
Qed.

#[export] Hint Resolve be_put_ok : shark.

Lemma be_get_snoc l b : be_get (l ++ [b]) = be_get l * 256 + b.
Proof. unfold be_get. by rewrite fold_left_app. Qed.

Lemma fold_be_acc l acc :
  fold_left (fun acc b => acc * 256 + b) l acc = acc * 256 ^ len l + be_get l.
Proof.
  unfold be_get. induction l as [|b l IH] using rev_ind.
  - unfold len. simpl. lia.
  - rewrite fold_left_app. simpl. rewrite fold_left_app. simpl. rewrite IH, len_app.
    rewrite Z.pow_add_r by apply len_nonneg. change (256 ^ len [b]) with 256. lia.
Qed.

Lemma be_get_cons b l : be_get (b :: l) = b * 256 ^ len l + be_get l.
Proof. unfold be_get at 1. simpl. by rewrite fold_be_acc. Qed.

Lemma be_get_app l k : be_get (l ++ k) = be_get l * 256 ^ len k + be_get k.
Proof. unfold be_get at 1. rewrite fold_left_app. by rewrite fold_be_acc. Qed.

Lemma be_get_bound l : bytes_ok l -> 0 <= be_get l < 256 ^ len l.
Proof.
  induction 1 as [|b l Hb Hl IH].
  - unfold be_get, len. simpl. lia.
  - rewrite be_get_cons, len_cons, Z.pow_add_r by (pose proof (len_nonneg l); lia).
    unfold is_byte in Hb. nia.
Qed.

(** Reading back what was written gives the value modulo the width. *)
Lemma be_get_put n v : be_get (be_put n v) = v mod 256 ^ Z.of_nat n.
Proof.
  induction n as [|n IH]; simpl be_put.
  - simpl. by rewrite Z.mod_1_r.
  - rewrite be_get_cons, IH. unfold len. rewrite length_be_put.
    replace (256 ^ Z.of_nat (S n)) with (256 ^ Z.of_nat n * 256)
      by (rewrite Nat2Z.inj_succ, Z.pow_succ_r by lia; lia).
    rewrite Z.rem_mul_r by lia.
    rewrite Z.shiftr_div_pow2 by lia. rewrite Z.pow_mul_r by lia.
    change (2 ^ 8) with 256. lia.
Qed.

Lemma be_get_put_small n v :
  0 <= v < 256 ^ Z.of_nat n -> be_get (be_put n v) = v.
Proof. intros. rewrite be_get_put. by apply Z.mod_small. Qed.

(** Writing back what was read gives the bytes. *)
Lemma be_put_get l : bytes_ok l -> be_put (length l) (be_get l) = l.
Proof.
  induction 1 as [|b l Hb Hl IH]; [done|]. simpl. f_equal.
  - rewrite be_get_cons, Z.shiftr_div_pow2, Z.pow_mul_r by lia.
    change (2 ^ 8) with 256. pose proof (be_get_bound l Hl) as Hl'. unfold len in *.
    rewrite Z.div_add_l, (Z.div_small (be_get l)), Z.add_0_r by lia.
    by apply Z.mod_small.
  - rewrite be_get_cons. transitivity (be_put (length l) (be_get l)); [|done].
    enough (forall n x y, (n <= length l)%nat ->
              be_put n (x * 256 ^ len l + y) = be_put n y) as E by (by apply E).
    intros n x y. induction n as [|n IHn]; [done|]. intros Hn. simpl. f_equal; [|apply IHn; lia].
    rewrite !Z.shiftr_div_pow2, Z.pow_mul_r by lia. change (2 ^ 8) with 256.
    unfold len. replace (Z.of_nat (length l)) with
      (Z.of_nat n + 1 + (Z.of_nat (length l) - Z.of_nat n - 1)) by lia.
    rewrite !Z.pow_add_r by lia.
    replace (x * (256 ^ Z.of_nat n * 256 ^ 1 * 256 ^ (Z.of_nat (length l) - Z.of_nat n - 1)) + y)
      with (x * 256 ^ (Z.of_nat (length l) - Z.of_nat n - 1) * 256 * 256 ^ Z.of_nat n + y) by lia.
    rewrite Z.div_add_l by lia. rewrite Z.add_comm. by apply Z.mod_add.
Qed.

(** Big-endian values are faithful: equal lengths and values, equal bytes. *)
Lemma be_get_inj l k :
  bytes_ok l -> bytes_ok k -> length l = length k -> be_get l = be_get k -> l = k.
Proof.
  intros Hl Hk E Hv. rewrite <- (be_put_get l), <- (be_put_get k) by done. by rewrite E, Hv.
Qed.

(** A boolean property of bytes, checked on all 256 of them. *)
Lemma byte_forall (P : Z -> bool) :
  forallb (fun n => P (Z.of_nat n)) (seq 0 256) = true -> forall b, is_byte b -> P b = true.
Proof.
  intros H b Hb. rewrite forallb_forall in H. unfold is_byte in Hb.
  specialize (H (Z.to_nat b)). rewrite Z2Nat.id in H by lia. apply H. apply in_seq. lia.
Qed.

(** * Go strings as byte strings *)

(** The bytes of a string literal. *)
Definition bytes_of_string (s : string) : bytes :=
  (fun c => Z.of_N (Ascii.N_of_ascii c)) <$> String.list_ascii_of_string s.

Definition is_digit (c : Z) : bool := (48 <=? c) && (c <=? 57).

(** [strconv.Atoi] on a 64-bit int. *)
Fixpoint digits (acc : Z) (s : bytes) : option Z :=
  match s with
  | [] => Some acc
  | c :: s' => if is_digit c then digits (acc * 10 + (c - 48)) s' else None
  end.

Definition Atoi (s : bytes) : option Z :=
  let '(neg, s) :=
    match s with
    | c :: s' => if c =? 45 then (true, s') else if c =? 43 then (false, s') else (false, s)
    | [] => (false, [])
    end in
  match s with
  | [] => None
  | _ =>
      match digits 0 s with
      | None => None
      | Some n =>
          let n := if neg then - n else n in
          if (min_int64 <=? n) && (n <=? max_int64) then Some n else None
      end
  end.

(** The decimal digits of a number below [10^fuel], before [tail]. *)
Fixpoint decimal (fuel : nat) (n : Z) (tail : bytes) : bytes :=
  match fuel with
  | O => tail
  | S fuel' =>
      let tail := 48 + n mod 10 :: tail in
      if n / 10 =? 0 then tail else decimal fuel' (n / 10) tail
  end.

(** [%d] of a non-negative 64-bit int. *)
Definition itoa (n : Z) : bytes := decimal 19 n [].

(** [strings.Split(s, sep)] for a one-byte separator. *)
Fixpoint split_on (sep : Z) (cur s : bytes) : list bytes :=
  match s with
  | [] => [cur]
  | c :: s' => if c =? sep then cur :: split_on sep [] s' else split_on sep (cur ++ [c]) s'
  end.

(** [strings.Trim(s, cut)] for a one-byte cutset. *)
Fixpoint trim_left (cut : Z) (s : bytes) : bytes :=
  match s with
  | [] => []
  | c :: s' => if c =? cut then trim_left cut s' else s
  end.
Definition trim (cut : Z) (s : bytes) : bytes := rev (trim_left cut (rev (trim_left cut s))).

Definition has_prefix (p s : bytes) : bool := bool_decide (take (length p) s = p).

(** ** Decimal numbers read back *)

Lemma is_digit_mod n : is_digit (48 + n mod 10) = true.
Proof.
  assert (0 <= n mod 10 < 10) by (apply Z.mod_pos_bound; lia).
  unfold is_digit. apply andb_true_iff. split; apply Z.leb_le; lia.
Qed.

Lemma decimal_digits fuel n tail :
  0 <= n < 10 ^ Z.of_nat fuel -> (0 < fuel)%nat -> digits 0 (decimal fuel n tail) = digits n tail.
Proof.
  revert n tail. induction fuel as [|fuel IH]; intros n tail Hn Hf; [lia|]. cbn [decimal].
  assert (n = n / 10 * 10 + n mod 10) as En by (pose proof (Z.div_mod n 10); lia).
  assert (0 <= n mod 10 < 10) by (apply Z.mod_pos_bound; lia).
  destruct (Z.eqb_spec (n / 10) 0) as [E|E].
  - cbn [digits]. rewrite is_digit_mod. f_equal. lia.
  - rewrite Nat2Z.inj_succ, Z.pow_succ_r in Hn by lia.
    assert (0 <= n / 10 < 10 ^ Z.of_nat fuel) as Hq
      by (split; [apply Z.div_pos; lia|apply Z.div_lt_upper_bound; lia]).
    rewrite IH; [|done|destruct fuel; [cbn in Hq; lia|lia]].
    cbn [digits]. rewrite is_digit_mod. f_equal. lia.
Qed.

Lemma decimal_all fuel n tail :
  Forall (fun c => is_digit c = true) tail -> Forall (fun c => is_digit c = true) (decimal fuel n tail).
Proof.
  revert n tail. induction fuel as [|fuel IH]; intros n tail Ht; [done|]. cbn [decimal].
  assert (Forall (fun c => is_digit c = true) (48 + n mod 10 :: tail)) by (constructor; [apply is_digit_mod|done]).
  destruct (_ =? _); auto.
Qed.

Lemma decimal_nonempty fuel n tail : (0 < fuel)%nat \/ tail <> [] -> decimal fuel n tail <> [].
Proof.
  revert n tail. induction fuel as [|fuel IH]; intros n tail H; [by destruct H; [lia|]|]. cbn [decimal].
  destruct (_ =? _); [done|]. apply IH. by right.
Qed.

Lemma itoa_digits n : Forall (fun c => is_digit c = true) (itoa n).
Proof. apply decimal_all. constructor. Qed.

Lemma itoa_nonempty n : itoa n <> [].
Proof. apply decimal_nonempty. left. lia. Qed.

Lemma Atoi_itoa n : 0 <= n <= max_int64 -> Atoi (itoa n) = Some n.
Proof.
  unfold max_int64. intros Hn. unfold Atoi. pose proof (itoa_digits n) as Hd. pose proof (itoa_nonempty n) as Hne.
  destruct (itoa n) as [|c s] eqn:E; [done|]. inversion Hd as [|? ? Hc _]; subst.
  unfold is_digit in Hc. apply andb_true_iff in Hc as [Hc1%Z.leb_le Hc2%Z.leb_le].
  rewrite (proj2 (Z.eqb_neq c 45)), (proj2 (Z.eqb_neq c 43)) by lia.
  assert (digits 0 (c :: s) = Some n) as ->.
  { rewrite <- E. unfold itoa. rewrite decimal_digits by lia. done. }
  unfold min_int64, max_int64. rewrite (proj2 (Z.leb_le _ n)), (proj2 (Z.leb_le n _)) by lia. done.
Qed.

(** ** Splitting joined parts *)

Lemma split_on_free sep cur s : sep ∉ s -> split_on sep cur s = [cur ++ s].
Proof.
  revert cur. induction s as [|c s IH]; intros cur H; cbn [split_on]; [by rewrite app_nil_r|].
  rewrite not_elem_of_cons in H. destruct H as [Hc Hs].
  rewrite (proj2 (Z.eqb_neq c sep)), IH by done. by rewrite <- app_assoc.
Qed.

Lemma split_on_sep sep cur s rest :
  sep ∉ s -> split_on sep cur (s ++ sep :: rest) = (cur ++ s) :: split_on sep [] rest.
Proof.
  revert cur. induction s as [|c s IH]; intros cur H; cbn [app split_on].
  - by rewrite Z.eqb_refl, app_nil_r.
  - rewrite not_elem_of_cons in H. destruct H as [Hc Hs].
    rewrite (proj2 (Z.eqb_neq c sep)), IH by done. by rewrite <- app_assoc.
Qed.

Lemma trim_left_free cut s : head s <> Some cut -> trim_left cut s = s.
Proof. destruct s as [|c s]; [done|]. cbn. intros H. by rewrite (proj2 (Z.eqb_neq c cut)) by congruence. Qed.

(** ** [net.SplitHostPort], the host part *)

(** [strings.IndexByte] and [strings.LastIndexByte]. *)
Fixpoint IndexByte (c : Z) (s : bytes) : option nat :=
  match s with
  | [] => None
  | x :: s' => if x =? c then Some 0%nat else S <$> IndexByte c s'
  end.
Definition LastIndexByte (c : Z) (s : bytes) : option nat :=
  match IndexByte c (rev s) with Some i => Some (length s - 1 - i)%nat | None => None end.

Definition has_byte (c : Z) (s : bytes) : bool :=
  match IndexByte c s with Some _ => true | None => false end.

(** The host, or None for the error: the port follows the last colon; a host
    with colons is in brackets, which appear nowhere else. *)
Definition SplitHost (hostport : bytes) : option bytes :=
  match LastIndexByte 58 hostport with
  | None => None
  | Some i =>
      if bool_decide (head hostport = Some 91) then
        match IndexByte 93 hostport with
        | None => None
        | Some e =>
            if bool_decide (S e = i) then
              if has_byte 91 (drop 1 hostport) || has_byte 93 (drop (S e) hostport) then None
              else Some (take (e - 1) (drop 1 hostport))
            else None
        end
      else
        let host := take i hostport in
        if has_byte 58 host || has_byte 91 hostport || has_byte 93 hostport then None else Some host
  end.

Example SplitHost_examples :
  SplitHost (bytes_of_string "10.0.0.7:1234") = Some (bytes_of_string "10.0.0.7") /\
  SplitHost (bytes_of_string "[::1]:80") = Some (bytes_of_string "::1") /\
  SplitHost (bytes_of_string "::1:80") = None /\
  SplitHost (bytes_of_string "10.0.0.7") = None /\
  SplitHost (bytes_of_string ":80") = Some [].
Proof. by vm_compute. Qed.

(** ** [strings.Fields], [strings.Join] and command words *)

(** The length of the white space character a text begins with, or 0: the ASCII
    ones, and the UTF-8 forms of those of Unicode. *)
Definition space_len (s : bytes) : nat :=
  match s with
  | [] => 0%nat
  | c :: s' =>
      if (c =? 32) || (9 <=? c) && (c <=? 13) then 1%nat
      else if c =? 194 then match s' with d :: _ => if (d =? 133) || (d =? 160) then 2%nat else 0%nat | _ => 0%nat end
      else if c =? 225 then match s' with 154 :: 128 :: _ => 3%nat | _ => 0%nat end
      else if c =? 226 then
        match s' with
        | 128 :: d :: _ => if (128 <=? d) && (d <=? 138) || (d =? 168) || (d =? 169) || (d =? 175) then 3%nat else 0%nat
        | 129 :: 159 :: _ => 3%nat
        | _ => 0%nat
        end
      else if c =? 227 then match s' with 128 :: 128 :: _ => 3%nat | _ => 0%nat end
      else 0%nat
  end.

Definition push_field (cur : bytes) (rest : list bytes) : list bytes :=
  match cur with [] => rest | _ => cur :: rest end.

(** [skip] bytes of a white space character are still to be passed over. *)
Fixpoint fields_from (skip : nat) (cur s : bytes) : list bytes :=
  match s with
  | [] => push_field cur []
  | c :: s' =>
      match skip with
      | S k => fields_from k cur s'
      | O =>
          match space_len s with
          | O => fields_from 0 (cur ++ [c]) s'
          | S k => push_field cur (fields_from k [] s')
          end
      end
  end.
Definition Fields (s : bytes) : list bytes := fields_from 0 [] s.

Fixpoint Join (sep : bytes) (l : list bytes) : bytes :=
  match l with
  | [] => []
  | [x] => x
  | x :: l' => x ++ sep ++ Join sep l'
  end.

(** [strings.ToLower] as far as comparison with an ASCII word goes: besides
    A-Z, two characters have an ASCII lower case, U+0130 and U+212A. *)
Fixpoint ToLower (s : bytes) : bytes :=
  match s with
  | 196 :: 176 :: s' => 105 :: ToLower s'
  | 226 :: 132 :: 170 :: s' => 107 :: ToLower s'
  | c :: s' => (if (65 <=? c) && (c <=? 90) then c + 32 else c) :: ToLower s'
  | [] => []
  end.

Example Fields_examples :
  Fields (bytes_of_string "  read  ep	/3/0/1 ") = bytes_of_string <$> ["read"; "ep"; "/3/0/1"]%string /\
  Fields [97; 194; 160; 98; 226; 128; 131; 99; 194; 161] = [[97]; [98]; [99; 194; 161]] /\
  ToLower (bytes_of_string "ReGister") = bytes_of_string "register".
Proof. by vm_compute. Qed.

(** A word of printable ASCII. *)
Definition word (w : bytes) : Prop := w <> [] /\ Forall (fun c => 33 <= c <= 126) w.

Lemma space_len_printable c s : 33 <= c <= 126 -> space_len (c :: s) = 0%nat.
Proof.
  intros Hc. unfold space_len. rewrite (proj2 (Z.eqb_neq c 32)) by lia.
  rewrite (proj2 (Z.leb_gt c 13)) by lia. rewrite andb_false_r. cbn [orb].
  by rewrite !(proj2 (Z.eqb_neq c _)) by lia.
Qed.

Lemma fields_word w cur s :
  Forall (fun c => 33 <= c <= 126) w -> fields_from 0 cur (w ++ s) = fields_from 0 (cur ++ w) s.
Proof.
  intros Hw. revert cur. induction Hw as [|c w Hc Hw IH]; intros cur; [by rewrite app_nil_r|].
  cbn [app fields_from]. rewrite space_len_printable by done. rewrite IH. by rewrite <- app_assoc.
Qed.

(** Words joined by single spaces are read back as fields. *)
Lemma Fields_Join ws : Forall word ws -> Fields (Join [32] ws) = ws.
Proof.
  unfold Fields. induction 1 as [|w ws [Hne Hw] Hws IH]; [done|]. destruct ws as [|w' ws].
  - cbn [Join]. rewrite <- (app_nil_r w) at 1. rewrite fields_word by done. by destruct w.
  - change (Join [32] (w :: w' :: ws)) with (w ++ [32] ++ Join [32] (w' :: ws)).
    rewrite fields_word by done. rewrite app_nil_l.
    change (fields_from 0 w ([32] ++ Join [32] (w' :: ws))) with (push_field w (fields_from 0 [] (Join [32] (w' :: ws)))).
    rewrite IH. by destruct w.
Qed.
