(* ===== verification/Core.v ===== *)
(** * Core: the contracts of [internal/core]

    Errors and the [errors] package operations the program uses on them, the
    protocol names and their metric labels, session states, reference-counted
    frames, and the typed-handler adapter. *)
From S2P Require Import Prelude Bytes.
Local Open Scope string_scope.
Local Open Scope Z_scope.
Local Open Scope list_scope.

(** ** Errors *)

(** The sentinel errors of the program, the wrappers built by [fmt.Errorf] with
    [%w] and by [errors.Join], and errors that user code returns. *)
(* go: internal/core/errors.go:5-19 (errors) *)
#[warning="-register-all"]
Inductive error : Type :=
| ErrClosed
| ErrDuplicateProtocol
| ErrDuplicateSession
| ErrInvalidArgument
| ErrNoServers
| ErrPluginPanic
| ErrSessionCapacity
| ErrSessionClosed
| ErrServerClosed
| ErrWriteQueueFull
| ErrFrameTooLarge
| ErrUnsupportedFeature
| ErrHandlerPanic
| ErrPluginDrop
| ErrPluginBlock
| ErrMsg (msg : string)
| ErrWrap (msg : string) (e : error)
| ErrJoin (es : list error).

Fixpoint error_size (e : error) : nat :=
  match e with
  | ErrWrap _ e => S (error_size e)
  | ErrJoin es => S (list_sum (map error_size es))
  | _ => 1%nat
  end.

#[export] Instance error_eq_dec : EqDecision error.
Proof.
  unfold EqDecision, Decision. fix go 1. intros a b.
  destruct a, b; try (right; discriminate); try (left; reflexivity).
  - destruct (decide (msg = msg0)) as [->|]; [by left|right; congruence].
  - destruct (decide (msg = msg0)) as [->|]; [|right; congruence].
    destruct (go a b) as [->|]; [by left|right; congruence].
  - destruct (@list_eq_dec _ go es es0) as [->|]; [by left|right; congruence].
Defined.

(** [errors.Join]: nil errors are dropped; nil when none remains. *)
Definition errors_Join (es : list (option error)) : option error :=
  match omap id es with
  | [] => None
  | l => Some (ErrJoin l)
  end.

(** [errors.Is]: the target is found anywhere in the wrapping tree. *)
Fixpoint errors_Is (e target : error) : bool :=
  bool_decide (e = target) ||
  match e with
  | ErrWrap _ e' => errors_Is e' target
  | ErrJoin es => existsb (fun e' => errors_Is e' target) es
  | _ => false
  end.

Definition is_err (o : option error) : bool :=
  match o with Some _ => true | None => false end.

(** [if err != nil && firstErr == nil { firstErr = err }] *)
Definition keep_first (firstErr err : option error) : option error :=
  match firstErr with Some _ => firstErr | None => err end.

Lemma errors_Join_None es : errors_Join es = None <-> Forall (eq None) es.
Proof.
  unfold errors_Join. induction es as [|[e|] es IH]; simpl.
  - done.
  - split; [done|]. intros H. by inversion H.
  - rewrite IH. split; [by constructor|]. intros H. by inversion H.
Qed.

Lemma errors_Is_Join es e target :
  errors_Join es = Some e -> Some target ∈ es -> errors_Is target target = true ->
  errors_Is e target = true.
Proof.
  unfold errors_Join. intros He Hin Ht.
  assert (target ∈ omap id es) as Hin' by (apply list_elem_of_omap; eauto).
  destruct (omap id es) as [|e1 l]; [by inversion Hin'|].
  injection He as <-. apply orb_true_iff. right. simpl.
  apply (existsb_exists (fun e' => errors_Is e' target) (e1 :: l)).
  exists target. split; [by apply list_elem_of_In|done].
Qed.

Lemma errors_Is_refl e : errors_Is e e = true.
Proof.
  assert (bool_decide (e = e) = true) as E by (by apply bool_decide_eq_true_2).
  destruct e; cbn [errors_Is]; by rewrite E.
Qed.

(** ** Protocols *)

(* go: internal/core/types.go:5-17 (Protocol) *)
Abbreviation Protocol := string.
Definition ProtocolTCP : Protocol := "tcp".
Definition ProtocolUDP : Protocol := "udp".
Definition ProtocolHTTP : Protocol := "http".
Definition ProtocolWS : Protocol := "websocket".
Definition ProtocolCoAP : Protocol := "coap".
Definition ProtocolQUIC : Protocol := "quic".
Definition ProtocolGRPCWeb : Protocol := "grpc-web".
Definition ProtocolCustom : Protocol := "custom".

(** The pre-built label pairs. *)
(* go: internal/core/metric_labels.go:36-45 (protocolLabel) *)
Definition protocolLabelPairs : list (Protocol * list string) :=
  [ (ProtocolTCP, ["protocol"; ProtocolTCP]);
    (ProtocolUDP, ["protocol"; ProtocolUDP]);
    (ProtocolHTTP, ["protocol"; ProtocolHTTP]);
    (ProtocolWS, ["protocol"; ProtocolWS]);
    (ProtocolCoAP, ["protocol"; ProtocolCoAP]);
    (ProtocolQUIC, ["protocol"; ProtocolQUIC]);
    (ProtocolGRPCWeb, ["protocol"; ProtocolGRPCWeb]);
    (ProtocolCustom, ["protocol"; ProtocolCustom]) ].

(* go: internal/core/metric_labels.go:13-34 (ProtocolLabel) *)
Definition ProtocolLabel (p : Protocol) : list string :=
  match find (fun kv => String.eqb kv.1 p) protocolLabelPairs with
  | Some (_, label) => label
  | None => ["protocol"; p]
  end.

(** Pre-building the labels changes no label: every protocol, in the enum or
    not, gets the same pair a fresh construction would give. *)
Lemma ProtocolLabel_spec p : ProtocolLabel p = ["protocol"; p].
Proof.
  unfold ProtocolLabel, protocolLabelPairs. cbn [find fst].
  repeat match goal with
  | |- context [String.eqb ?x p] =>
      destruct (String.eqb_spec x p) as [<-|_]; [done|]
  end.
  done.
Qed.

(** ** Session states *)

(* go: internal/core/types.go:19-27 (SessionState) *)
Definition StateConnecting : Z := 0.
Definition StateActive : Z := 1.
Definition StateDraining : Z := 2.
Definition StateClosed : Z := 3.

(* go: internal/core/types.go:29-42 (SessionState.String) *)
Definition SessionState_String (s : Z) : string :=
  if s =? StateConnecting then "connecting"
  else if s =? StateActive then "active"
  else if s =? StateDraining then "draining"
  else if s =? StateClosed then "closed"
  else "unknown(" +:+ pretty s +:+ ")".

(** ** Shared frames *)

(* go: internal/core/frame.go:16-19 (SharedFrame) *)
Record SharedFrame : Type := mkSharedFrame {
  frame_data : bytes;
  frame_refs : Z
}.

(* go: internal/core/frame.go:21-30 (NewSharedFrame) *)
Definition NewSharedFrame (data : bytes) (refs : Z) : SharedFrame :=
  let refs := if refs <? 1 then 1 else refs in
  mkSharedFrame data (i64 refs).

(* go: internal/core/frame.go:35-36 (SharedFrame.Release) *)
Definition frame_Release (f : SharedFrame) : SharedFrame :=
  mkSharedFrame (frame_data f) (i64 (frame_refs f - 1)).

(* go: internal/core/frame.go:32-33 (SharedFrame.Payload) *)
Definition frame_Payload (f : SharedFrame) : bytes := frame_data f.

(* go: internal/core/frame.go:38-40 (SharedFrame.Refs) *)
Definition frame_Refs (f : SharedFrame) : Z := frame_refs f.

Fixpoint release_n (n : nat) (f : SharedFrame) : SharedFrame :=
  match n with O => f | S n' => release_n n' (frame_Release f) end.

Lemma release_n_refs n f :
  Z.of_nat n <= frame_refs f <= max_int64 ->
  frame_refs (release_n n f) = frame_refs f - Z.of_nat n /\
  frame_data (release_n n f) = frame_data f.
Proof.
  revert f. induction n as [|n IH]; simpl; intros f Hf; [split; [lia|done]|].
  assert (frame_refs (frame_Release f) = frame_refs f - 1) as E.
  { unfold frame_Release. simpl. apply i64_small.
    unfold in_i64, min_int64, max_int64 in *. lia. }
  destruct (IH (frame_Release f)) as [-> ->]; [rewrite E; lia|].
  rewrite E. split; [lia|done].
Qed.

(** ** Messages and typed handlers *)

(* go: internal/core/message.go:3-9 (Message) *)
Record Message : Type := mkMessage {
  msg_SessionID : Z;
  msg_Protocol : Protocol;
  msg_Payload : bytes;
  msg_Meta : gmap string string
}.

Section typed.
(** A codec and a typed handler are supplied by the embedding program. *)
Context {M Sess : Type}.
Variable Decode : bytes -> result error M.
Variable h : Sess -> M -> option error.

(* go: internal/core/message.go:23-32 (AdaptTyped) *)
Definition AdaptTyped (sess : Sess) (msg : Message) : option error :=
  match Decode (msg_Payload msg) with
  | Err err => Some err
  | Ok decoded => h sess decoded
  end.
End typed.

(** ** Metrics *)

(** The calls a component makes on the metrics backend, as a log. *)
(* go: internal/core/observability.go:127-133 (Metrics) *)
Inductive metric_call : Type :=
| IncCounter (name : string) (labels : list string)
| SetGauge (name : string) (value : Z)
| ObserveHistogram (name : string) (labels : list string).

#[export] Instance metric_call_eq_dec : EqDecision metric_call.
Proof. solve_decision. Defined.

(** The value of a counter: the increments logged under its name. *)
Definition counter (name : string) (log : list metric_call) : Z :=
  len (List.filter
    (fun c => match c with IncCounter n _ => String.eqb n name | _ => false end) log).

(** The value of a gauge: the last one set. *)
Definition gauge (name : string) (log : list metric_call) : option Z :=
  fold_left (fun acc c => match c with
    | SetGauge n v => if String.eqb n name then Some v else acc
    | _ => acc end) log None.

Lemma counter_app name l k : counter name (l ++ k) = counter name l + counter name k.
Proof. unfold counter. by rewrite List.filter_app, len_app. Qed.

Lemma gauge_snoc name l c :
  gauge name (l ++ [c]) = match c with
    | SetGauge n v => if String.eqb n name then Some v else gauge name l
    | _ => gauge name l end.
Proof. unfold gauge. rewrite fold_left_app. by destruct c. Qed.
