(* ===== verification/SessionManager.v ===== *)
(** * SessionManager: [internal/runtime/session_manager.go] and [session_metrics.go]

    The sharded session index: the table of 64 shards and its operations, the
    single-table manager it is indistinguishable from, the operations that call
    back into sessions (Broadcast, CloseAll), and the metrics decorator.  The
    interleavings of Register and Unregister are in [SessionConcurrency]. *)
From S2P Require Import Prelude Bytes Core.
Local Open Scope string_scope.
Local Open Scope Z_scope.
Local Open Scope list_scope.

(** A registered session is a handle: the manager only reads its ID and tests
    whether it implements [core.SharedSender]; its behaviour is user code. *)
(* go: internal/core/session.go:9-24 (Session) *)
Record Session : Type := mkSession {
  ID : Z;
  isSharedSender : bool
}.

#[export] Instance Session_eq_dec : EqDecision Session.
Proof. solve_decision. Defined.

(* go: internal/runtime/session_manager.go:11-36 (SessionManager) *)
Definition sessionShards : Z := 64.

Record SessionManager : Type := mkSessionManager {
  nextID : Z;
  count : Z;
  max : Z;
  shards : list (gmap Z Session)
}.

(* go: internal/runtime/session_manager.go:38-41 (shard) *)
Definition shard_index (id : Z) : nat := Z.to_nat (id mod sessionShards).

Definition get_shard (m : SessionManager) (i : nat) : gmap Z Session :=
  nth i (shards m) ∅.

Definition set_shard (m : SessionManager) (i : nat) (sh : gmap Z Session) : SessionManager :=
  mkSessionManager (nextID m) (count m) (max m) (<[i := sh]> (shards m)).

Definition set_count (m : SessionManager) (c : Z) : SessionManager :=
  mkSessionManager (nextID m) c (max m) (shards m).

(* go: internal/runtime/session_manager.go:45-49 (WithMaxSessions) *)
Definition WithMaxSessions (mx : Z) (m : SessionManager) : SessionManager :=
  mkSessionManager (nextID m) (count m) mx (shards m).

(* go: internal/runtime/session_manager.go:51-60 (NewSessionManager) *)
Definition NewSessionManager (opts : list (SessionManager -> SessionManager)) : SessionManager :=
  fold_left (fun m opt => opt m) opts
    (mkSessionManager 0 0 1000000 (replicate (Z.to_nat sessionShards) ∅)).

(* go: internal/runtime/session_manager.go:62-64 (NextID) *)
Definition NextID (m : SessionManager) : Z * SessionManager :=
  let n := u64 (nextID m + 1) in
  (n, mkSessionManager n (count m) (max m) (shards m)).

(* go: internal/runtime/session_manager.go:66-95 (Register) *)
Definition Register (sess : option Session) (m : SessionManager) : option error * SessionManager :=
  match sess with
  | None => (Some ErrInvalidArgument, m)
  | Some s =>
      let i := shard_index (ID s) in
      let sh := get_shard m i in
      match sh !! ID s with
      | Some _ => (Some ErrDuplicateSession, m)
      | None =>
          let cur := count m in
          if (0 <? max m) && (max m <=? cur) then (Some ErrSessionCapacity, m)
          else (None, set_shard (set_count m (i64 (cur + 1))) i (<[ID s := s]> sh))
      end
  end.

(* go: internal/runtime/session_manager.go:97-107 (Unregister) *)
Definition Unregister (id : Z) (m : SessionManager) : bool * SessionManager :=
  let i := shard_index id in
  let sh := get_shard m i in
  let ok := bool_decide (is_Some (sh !! id)) in
  let m1 := set_shard m i (delete id sh) in
  (ok, if ok then set_count m1 (i64 (count m1 - 1)) else m1).

(* go: internal/runtime/session_manager.go:109-115 (Get) *)
Definition Get (id : Z) (m : SessionManager) : option Session :=
  get_shard m (shard_index id) !! id.

(* go: internal/runtime/session_manager.go:117-119 (Count) *)
Definition Count (m : SessionManager) : Z := count m.

(* go: internal/runtime/session_manager.go:121-129 (Capacity) *)
Definition Capacity (m : SessionManager) : Z := if max m <? 0 then 0 else max m.

Section snapshot.
Context `{!MapRange Z}.

(* go: internal/runtime/session_manager.go:131-148 (Snapshot) *)
Definition Snapshot (m : SessionManager) : list Session :=
  seq 0 (Z.to_nat sessionShards) ≫= fun i => (map_range (get_shard m i)).*2.

(** [Range] stops at the first session for which [fn] answers false. *)
(* go: internal/runtime/session_manager.go:150-167 (Range) *)
Definition Range {W} (fn : Session -> W -> bool * W) (m : SessionManager) (w : W) : W :=
  (fix go (l : list Session) (w : W) : W :=
     match l with
     | [] => w
     | s :: l' => let (continue, w') := fn s w in if continue then go l' w' else w'
     end) (Snapshot m) w.
End snapshot.

(** ** The single-table manager *)

(** What a manager with one table and one lock promises: the reference the
    sharded manager refines. *)
Record Table : Type := mkTable { t_max : Z; t_sessions : gmap Z Session }.

Definition Table_Register (sess : option Session) (t : Table) : option error * Table :=
  match sess with
  | None => (Some ErrInvalidArgument, t)
  | Some s =>
      if decide (is_Some (t_sessions t !! ID s)) then (Some ErrDuplicateSession, t)
      else if (0 <? t_max t) && (t_max t <=? Z.of_nat (size (t_sessions t)))
      then (Some ErrSessionCapacity, t)
      else (None, mkTable (t_max t) (<[ID s := s]> (t_sessions t)))
  end.

Definition Table_Unregister (id : Z) (t : Table) : bool * Table :=
  (bool_decide (is_Some (t_sessions t !! id)), mkTable (t_max t) (delete id (t_sessions t))).

(** The simulation relation: every session of the table sits in the shard its
    ID selects and nowhere else, and the counter is the size of the table. *)
Record refines (m : SessionManager) (t : Table) : Prop := {
  ref_shards : length (shards m) = Z.to_nat sessionShards;
  ref_lookup : forall i id,
    (i < Z.to_nat sessionShards)%nat ->
    get_shard m i !! id = if decide (i = shard_index id) then t_sessions t !! id else None;
  ref_ids : map_Forall (fun id s => ID s = id) (t_sessions t);
  ref_count : count m = Z.of_nat (size (t_sessions t));
  ref_max : max m = t_max t
}.

Lemma shard_index_lt id : (shard_index id < Z.to_nat sessionShards)%nat.
Proof.
  unfold shard_index. pose proof (Z.mod_pos_bound id sessionShards eq_refl).
  unfold sessionShards in *. lia.
Qed.
#[export] Hint Resolve shard_index_lt : shark.

Lemma get_set_shard m i sh j :
  length (shards m) = Z.to_nat sessionShards -> (i < Z.to_nat sessionShards)%nat ->
  get_shard (set_shard m i sh) j = if decide (j = i) then sh else get_shard m j.
Proof.
  intros Hl Hi. unfold get_shard, set_shard; simpl. rewrite !nth_lookup.
  destruct (decide (j = i)) as [->|Hne].
  - by rewrite list_lookup_insert_eq by lia.
  - by rewrite list_lookup_insert_ne by done.
Qed.

Lemma get_shard_set_count m c i : get_shard (set_count m c) i = get_shard m i.
Proof. done. Qed.

Lemma refines_get m t id : refines m t -> Get id m = t_sessions t !! id.
Proof.
  intros R. unfold Get. rewrite (ref_lookup _ _ R) by auto with shark.
  by rewrite decide_True.
Qed.

Lemma refines_new mx :
  refines (NewSessionManager [WithMaxSessions mx]) (mkTable mx ∅).
Proof.
  split; try done. intros i id Hi. unfold get_shard, NewSessionManager.
  cbn [fold_left WithMaxSessions shards t_sessions].
  rewrite nth_lookup, lookup_replicate_2 by done. simpl.
  rewrite !lookup_empty. by destruct (decide _).
Qed.

(** Replacing one shard entry in step with the table. *)
Lemma refines_upd m t id c (v : option Session) :
  refines m t ->
  (forall s, v = Some s -> ID s = id) ->
  let T' := partial_alter (fun _ => v) id (t_sessions t) in
  c = Z.of_nat (size T') ->
  refines (set_count (set_shard m (shard_index id)
     (partial_alter (fun _ => v) id (get_shard m (shard_index id)))) c)
     (mkTable (t_max t) T').
Proof.
  intros R Hv T' Hc. split; cbn [t_sessions t_max].
  - simpl. rewrite length_insert. apply R.
  - intros i id' Hi. rewrite get_shard_set_count.
    rewrite get_set_shard by (apply R || auto with shark).
    unfold T'. destruct (decide (i = shard_index id)) as [->|Hne].
    + destruct (decide (id' = id)) as [->|Hid].
      * rewrite !lookup_partial_alter_eq. by rewrite decide_True.
      * rewrite !lookup_partial_alter_ne by done. by apply R.
    + rewrite (ref_lookup _ _ R) by done.
      destruct (decide (i = shard_index id')) as [->|]; [|done].
      rewrite lookup_partial_alter_ne; congruence.
  - intros id' s. unfold T'. destruct (decide (id' = id)) as [->|Hid].
    + rewrite lookup_partial_alter_eq. intros ->. by apply Hv.
    + rewrite lookup_partial_alter_ne by done. apply R.
  - done.
  - apply R.
Qed.

Lemma Register_refines m t sess :
  refines m t -> count m < max_int64 ->
  (Register sess m).1 = (Table_Register sess t).1 /\
  refines (Register sess m).2 (Table_Register sess t).2.
Proof.
  intros R Hc. destruct sess as [s|]; [|done]. simpl.
  rewrite (ref_lookup _ _ R), (decide_True _ _ eq_refl) by auto with shark.
  destruct (t_sessions t !! ID s) eqn:E.
  { rewrite decide_True by done. done. }
  rewrite decide_False by (intros [? ?]; congruence).
  rewrite (ref_count _ _ R), (ref_max _ _ R). split_match; [done|]. split; [done|].
  apply (refines_upd m t (ID s) _ (Some s) R); [congruence|].
  change (partial_alter _ _ _) with (<[ID s := s]> (t_sessions t)).
  rewrite map_size_insert_None by done. pose proof (ref_count _ _ R) as Hcnt.
  rewrite i64_small; [simpl; lia|]. unfold in_i64, min_int64, max_int64 in *. lia.
Qed.

Lemma Unregister_refines m t id :
  refines m t -> count m <= max_int64 ->
  (Unregister id m).1 = (Table_Unregister id t).1 /\
  refines (Unregister id m).2 (Table_Unregister id t).2.
Proof.
  intros R Hc. unfold Unregister, Table_Unregister. cbn [fst snd].
  rewrite (ref_lookup _ _ R), (decide_True _ _ eq_refl) by auto with shark.
  split; [done|].
  assert (count m = Z.of_nat (size (t_sessions t))) as Hcnt by apply R.
  destruct (t_sessions t !! id) as [s|] eqn:E.
  - rewrite bool_decide_eq_true_2 by done.
    apply (refines_upd m t id _ None R); [done|].
    change (partial_alter _ _ _) with (delete id (t_sessions t)).
    assert (size (t_sessions t) = S (size (delete id (t_sessions t)))) as Es.
    { rewrite <- (map_size_insert_None id s) by (apply lookup_delete_eq).
      by rewrite insert_delete_id. }
    simpl. rewrite i64_small; [lia|]. unfold in_i64, min_int64, max_int64 in *. lia.
  - rewrite bool_decide_eq_false_2 by (intros [? ?]; congruence).
    pose proof (refines_upd m t id (count m) None R) as H. apply H; [done|].
    change (partial_alter _ _ _) with (delete id (t_sessions t)).
    by rewrite delete_id.
Qed.

(** Lookups after an operation, for a manager of which only the number of shards
    is known. *)
Lemma Get_Unregister m id id' :
  length (shards m) = Z.to_nat sessionShards ->
  Get id' (Unregister id m).2 = if decide (id' = id) then None else Get id' m.
Proof.
  intros Hl. unfold Unregister, Get. cbn [snd].
  transitivity (get_shard (set_shard m (shard_index id) (delete id (get_shard m (shard_index id)))) (shard_index id') !! id').
  { by destruct (bool_decide _). }
  rewrite get_set_shard by auto with shark. destruct (decide (id' = id)) as [->|Hne].
  - by rewrite decide_True, lookup_delete_eq.
  - destruct (decide (shard_index id' = shard_index id)) as [E|]; [|done]. by rewrite lookup_delete_ne, E.
Qed.

Lemma Get_Register m s id' :
  length (shards m) = Z.to_nat sessionShards -> (Register (Some s) m).1 = None ->
  Get id' (Register (Some s) m).2 = if decide (id' = ID s) then Some s else Get id' m.
Proof.
  intros Hl. unfold Register, Get. destruct (get_shard m (shard_index (ID s)) !! ID s); [done|].
  destruct (_ && _); [done|]. intros _. cbn [snd].
  rewrite get_set_shard by auto with shark. destruct (decide (id' = ID s)) as [->|Hne].
  - by rewrite decide_True, lookup_insert_eq.
  - destruct (decide (shard_index id' = shard_index (ID s))) as [E|]; [|done].
    by rewrite lookup_insert_ne, E.
Qed.

Lemma Register_shape s m :
  length (shards (Register s m).2) = length (shards m) /\ nextID (Register s m).2 = nextID m /\
  ((Register s m).1 <> None -> (Register s m).2 = m).
Proof.
  unfold Register. destruct s as [s|]; [|done]. destruct (_ !! _); [done|]. destruct (_ && _); [done|].
  cbn [snd fst]. split; [|done]. cbn. by rewrite length_insert.
Qed.

Lemma Unregister_shape id m :
  length (shards (Unregister id m).2) = length (shards m) /\ nextID (Unregister id m).2 = nextID m.
Proof. unfold Unregister. cbn [snd]. destruct (bool_decide _); cbn; by rewrite length_insert. Qed.

(** Snapshot lists exactly the registered sessions, once each, for every order
    in which Go may range over a shard. *)
Lemma Snapshot_refines `{!MapRange Z} m t :
  refines m t -> Snapshot m ≡ₚ (map_to_list (t_sessions t)).*2.
Proof.
  intros R. unfold Snapshot.
  assert (seq 0 (Z.to_nat sessionShards) ≫= (fun i => map_range (get_shard m i))
            ≡ₚ map_to_list (t_sessions t)) as <-.
  - apply NoDup_Permutation.
    + apply NoDup_bind.
      * intros i j [id s] Hi%elem_of_seq Hj%elem_of_seq.
        rewrite !elem_of_map_range, !(ref_lookup _ _ R) by lia.
        by repeat (case_decide; [|done]); subst.
      * intros i _. apply NoDup_map_range.
      * apply NoDup_seq.
    + apply NoDup_map_to_list.
    + intros [id s]. rewrite elem_of_map_to_list, list_elem_of_bind. split.
      * intros (i & Hin & Hi%elem_of_seq). revert Hin.
        rewrite elem_of_map_range, (ref_lookup _ _ R) by lia. by case_decide.
      * intros Hs. exists (shard_index id). rewrite elem_of_map_range.
        rewrite (ref_lookup _ _ R), decide_True by auto with shark.
        split; [done|]. apply elem_of_seq. pose proof (shard_index_lt id). lia.
  - by rewrite fmap_bind_list.
Qed.

Lemma NoDup_Snapshot_IDs `{!MapRange Z} m t : refines m t -> NoDup (map ID (Snapshot m)).
Proof.
  intros R. rewrite (Snapshot_refines m t R), map_map.
  assert (map (fun x => ID x.2) (map_to_list (t_sessions t)) = (map_to_list (t_sessions t)).*1)
    as ->; [|apply NoDup_fst_map_to_list].
  apply map_ext_in. intros [id s] Hin%list_elem_of_In%elem_of_map_to_list.
  simpl. by apply (ref_ids _ _ R).
Qed.

(** ** Operations that call back into sessions *)

(** A panic in a session implementation becomes an error. *)
(* go: internal/runtime/session_manager.go:236-245 (safeSessionCall) *)
Definition safeSessionCall {W} (fn : W -> outcome (option error) * W) (w : W) : option error * W :=
  match fn w with
  | (Returned err, w') => (err, w')
  | (Panicked, w') => (Some ErrHandlerPanic, w')
  end.

Section broadcast.
Context {W : Type} `{!MapRange Z}.
(** [Send] and [SendShared] of the session implementations; the latter may
    release references of the frame it is handed. *)
Variable Send : Session -> bytes -> W -> outcome (option error) * W.
Variable SendShared : Session -> SharedFrame * W -> outcome (option error) * (SharedFrame * W).

(** The loop over the sessions that share the frame. *)
(* go: internal/runtime/session_manager.go:190-201 (Broadcast) *)
Fixpoint broadcast_shared (l : list Session) (firstErr : option error)
    (st : SharedFrame * W) : option error * (SharedFrame * W) :=
  match l with
  | [] => (firstErr, st)
  | ss :: l' =>
      match safeSessionCall (SendShared ss) st with
      | (Some err, (frame, w)) =>
          broadcast_shared l' (keep_first firstErr (Some err)) (frame_Release frame, w)
      | (None, st') => broadcast_shared l' firstErr st'
      end
  end.

(** The loop over the sessions that receive their own copy. *)
(* go: internal/runtime/session_manager.go:205-209 (Broadcast) *)
Fixpoint broadcast_plain (data : bytes) (l : list Session) (firstErr : option error)
    (w : W) : option error * W :=
  match l with
  | [] => (firstErr, w)
  | sess :: l' =>
      let (err, w') := safeSessionCall (Send sess data) w in
      broadcast_plain data l' (keep_first firstErr err) w'
  end.

(** The frame, when one was built, is returned with the references left. *)
(* go: internal/runtime/session_manager.go:169-211 (Broadcast) *)
Definition Broadcast (data : bytes) (m : SessionManager) (w : W) :
    option error * option SharedFrame * W :=
  let sessions := Snapshot m in
  let shared := List.filter isSharedSender sessions in
  let plain := List.filter (fun s => negb (isSharedSender s)) sessions in
  if (1 <? length shared)%nat then
    let frame := NewSharedFrame data (len shared) in
    let '(firstErr, (frame', w')) := broadcast_shared shared None (frame, w) in
    let (firstErr', w'') := broadcast_plain data plain firstErr w' in
    (firstErr', Some frame', w'')
  else
    let plain := plain ++ sessions in
    let (firstErr, w') := broadcast_plain data plain None w in
    (firstErr, None, w').
End broadcast.

(** Sessions that log what they are handed: the deliveries of a broadcast. *)
Definition log_send (s : Session) (data : bytes) (w : list (Session * bytes)) :
  outcome (option error) * list (Session * bytes) := (Returned None, w ++ [(s, data)]).
Definition log_shared (s : Session) (st : SharedFrame * list (Session * bytes)) :
  outcome (option error) * (SharedFrame * list (Session * bytes)) :=
  (Returned None, (st.1, st.2 ++ [(s, frame_Payload st.1)])).

Lemma log_plain_spec data l e w :
  broadcast_plain log_send data l e w = (e, w ++ map (fun s => (s, data)) l).
Proof.
  revert e w. induction l as [|s l IH]; intros e w; simpl; [by rewrite app_nil_r|].
  rewrite IH. rewrite <- app_assoc. by destruct e.
Qed.

Lemma log_shared_spec l e f w :
  broadcast_shared log_shared l e (f, w) =
    (e, (f, w ++ map (fun s => (s, frame_Payload f)) l)).
Proof.
  revert w. induction l as [|s l IH]; intros w; simpl; [by rewrite app_nil_r|].
  rewrite IH. by rewrite <- app_assoc.
Qed.

Lemma filter_shared_perm (l : list Session) :
  List.filter isSharedSender l ++ List.filter (fun s => negb (isSharedSender s)) l ≡ₚ l.
Proof.
  induction l as [|s l IH]; simpl; [done|].
  destruct (isSharedSender s); simpl.
  - by constructor.
  - rewrite <- Permutation_middle. by constructor.
Qed.

(** The contract of [SendShared]: only a success consumes a reference, and the
    session gives its own back at most once, possibly before it returns. *)
Definition sendShared_contract {W}
    (SendShared : Session -> SharedFrame * W -> outcome (option error) * (SharedFrame * W)) : Prop :=
  forall s f w, match SendShared s (f, w) with
  | (Returned None, (f', _)) => f' = f \/ f' = frame_Release f
  | (_, (f', _)) => f' = f
  end.

(** How many of the loop's calls succeed and still hold their reference. *)
Fixpoint shared_pending {W}
    (SendShared : Session -> SharedFrame * W -> outcome (option error) * (SharedFrame * W))
    (l : list Session) (st : SharedFrame * W) : nat :=
  match l with
  | [] => 0
  | s :: l' =>
      match safeSessionCall (SendShared s) st with
      | (Some _, (f, w)) => shared_pending SendShared l' (frame_Release f, w)
      | (None, st') =>
          ((if (frame_refs st'.1 =? frame_refs st.1)%Z then 1 else 0)
            + shared_pending SendShared l' st')%nat
      end
  end.

Lemma frame_Release_refs f :
  0 < frame_refs f <= max_int64 -> frame_refs (frame_Release f) = frame_refs f - 1.
Proof.
  intros. unfold frame_Release. simpl. apply i64_small.
  unfold in_i64, min_int64, max_int64 in *. lia.
Qed.

Lemma broadcast_shared_refs {W} SendShared l e f (w : W) :
  sendShared_contract SendShared ->
  Z.of_nat (length l) <= frame_refs f <= max_int64 ->
  frame_refs (broadcast_shared SendShared l e (f, w)).2.1 =
    frame_refs f - Z.of_nat (length l) + Z.of_nat (shared_pending SendShared l (f, w)).
Proof.
  intros HC. revert e f w. induction l as [|s l IH]; intros e f w Hf; simpl in *; [lia|].
  pose proof (HC s f w) as Hs. unfold safeSessionCall.
  pose proof (frame_Release_refs f ltac:(lia)) as Er.
  destruct (SendShared s (f, w)) as [[[err|]|] [f' w']]; try subst f'; simpl.
  - rewrite IH; lia.
  - destruct Hs as [->| ->].
    + rewrite Z.eqb_refl, IH; lia.
    + rewrite Er, (proj2 (Z.eqb_neq _ _)), IH by lia. lia.
  - rewrite IH; lia.
Qed.

(** ** Closing every session *)

(** What CloseAll needs of a session index: a snapshot, and an Unregister that
    removes exactly the session it names. *)
Class SessionIndex (St : Type) := {
  si_snapshot : St -> list Session;
  si_unregister : Z -> St -> bool * St;
  si_inv : St -> Prop;
  si_unregister_inv : forall id st, si_inv st -> si_inv (si_unregister id st).2;
  si_unregister_ids : forall id id' st, si_inv st ->
    id' ∈ map ID (si_snapshot (si_unregister id st).2) <->
    id' ∈ map ID (si_snapshot st) /\ id' <> id
}.

Section closeAll.
Context {St : Type} `{!SessionIndex St}.
(** [sess.Close(ctx)]: user code that may re-enter the index. *)
Variable Close : Session -> St -> outcome (option error) * St.
(** [ctx.Err() != nil] *)
Variable ctxErr : St -> bool.

Fixpoint closeAll_pass (l : list Session) (firstErr : option error) (st : St) :
    option error * St :=
  match l with
  | [] => (firstErr, st)
  | sess :: l' =>
      let (err, st1) := safeSessionCall (Close sess) st in
      closeAll_pass l' (keep_first firstErr err) (si_unregister (ID sess) st1).2
  end.

Fixpoint closeAll_loop (fuel : nat) (firstErr : option error) (st : St) :
    option (option error * St) :=
  match fuel with
  | O => None
  | S fuel' =>
      if ctxErr st then Some (firstErr, st)
      else match si_snapshot st with
      | [] => Some (firstErr, st)
      | sessions =>
          let (firstErr', st') := closeAll_pass sessions firstErr st in
          closeAll_loop fuel' firstErr' st'
      end
  end.

(** A close that registers nothing new. *)
Definition close_shrinks : Prop := forall s st, si_inv st ->
  si_inv (Close s st).2 /\
  (forall id, id ∈ map ID (si_snapshot (Close s st).2) -> id ∈ map ID (si_snapshot st)).

Lemma closeAll_pass_ids l e st :
  close_shrinks -> si_inv st ->
  let st' := (closeAll_pass l e st).2 in
  si_inv st' /\
  forall id, id ∈ map ID (si_snapshot st') -> id ∈ map ID (si_snapshot st) /\ id ∉ map ID l.
Proof.
  intros HC. revert e st. induction l as [|s l IH]; intros e st Hi; simpl.
  { split; [done|]. intros id Hid. split; [done|]. inversion 1. }
  destruct (HC s st Hi) as [Hi1 Hs1]. unfold safeSessionCall.
  assert ((match Close s st with
           | (Returned err, w') => (err, w')
           | (Panicked, w') => (Some ErrHandlerPanic, w') end).2 = (Close s st).2) as E
    by (by destruct (Close s st) as [[?|] ?]).
  destruct (match Close s st with
           | (Returned err, w') => (err, w')
           | (Panicked, w') => (Some ErrHandlerPanic, w') end) as [err st1].
  simpl in E. subst st1.
  destruct (IH (keep_first e err) (si_unregister (ID s) (Close s st).2).2) as [Hi' Hs'];
    [by apply si_unregister_inv|].
  split; [done|]. intros id Hid. apply Hs' in Hid as [Hid Hl].
  apply si_unregister_ids in Hid as [Hid Hne]; [|done].
  split; [by apply Hs1|]. rewrite not_elem_of_cons. done.
Qed.

Lemma closeAll_loop_empties e st :
  close_shrinks -> (forall st, ctxErr st = false) -> si_inv st ->
  exists e' st', closeAll_loop 2 e st = Some (e', st') /\ si_snapshot st' = [] /\ si_inv st'.
Proof.
  intros HC Hctx Hi. cbn [closeAll_loop]. rewrite Hctx.
  destruct (si_snapshot st) as [|s l] eqn:Es; [eauto|].
  destruct (closeAll_pass_ids (s :: l) e st HC Hi) as [Hi' Hids].
  destruct (closeAll_pass (s :: l) e st) as [e' st']. rewrite Hctx.
  simpl in Hi', Hids. assert (si_snapshot st' = []) as Hnil.
  { destruct (si_snapshot st') as [|s' l'] eqn:Es'; [done|].
    destruct (Hids (ID s')) as [H1 H2]; [simpl; left|].
    rewrite Es in H1. done. }
  rewrite Hnil. eauto.
Qed.

Lemma closeAll_loop_exit fuel e st e' st' :
  closeAll_loop fuel e st = Some (e', st') -> si_snapshot st' = [] \/ ctxErr st' = true.
Proof.
  revert e st. induction fuel as [|fuel IH]; intros e st; cbn [closeAll_loop]; [done|].
  destruct (ctxErr st) eqn:Ec; [intros [= <- <-]; auto|].
  destruct (si_snapshot st) as [|s l] eqn:Es; [intros [= <- <-]; auto|].
  destruct (closeAll_pass (s :: l) e st) as [e1 st1]. apply IH.
Qed.
End closeAll.

Lemma Unregister_ids `{!MapRange Z} id id' m t :
  refines m t -> count m <= max_int64 ->
  id' ∈ map ID (Snapshot (Unregister id m).2) <-> id' ∈ map ID (Snapshot m) /\ id' <> id.
Proof.
  intros R Hc. destruct (Unregister_refines m t id R Hc) as [_ R'].
  rewrite (Snapshot_refines _ _ R'), (Snapshot_refines _ _ R).
  assert (forall (T : gmap Z Session) k, map_Forall (fun i s => ID s = i) T ->
    k ∈ map ID (map_to_list T).*2 <-> is_Some (T !! k)) as Hmem.
  { intros T k HT. rewrite map_map, list_elem_of_fmap. split.
    - intros ([i s] & -> & Hin%elem_of_map_to_list). simpl. rewrite (HT i s) by done. eauto.
    - intros [s Hs]. exists (k, s). rewrite elem_of_map_to_list. split; [|done].
      symmetry. by apply (HT k s). }
  rewrite !Hmem by (apply R' || apply R). simpl.
  destruct (decide (id' = id)) as [->|Hne].
  - rewrite lookup_delete_eq. split; [by intros [? ?]|tauto].
  - rewrite lookup_delete_ne by done. tauto.
Qed.

Definition manager_ok (m : SessionManager) : Prop :=
  exists t, refines m t /\ count m <= max_int64.

Lemma manager_ok_Unregister id m : manager_ok m -> manager_ok (Unregister id m).2.
Proof.
  intros (t & R & Hc). destruct (Unregister_refines m t id R Hc) as [_ R'].
  exists (Table_Unregister id t).2. split; [done|].
  rewrite (ref_count _ _ R'), (ref_count _ _ R) in *. simpl.
  pose proof (map_size_delete id (t_sessions t)) as Hs.
  destruct (t_sessions t !! id); cbv [Datatypes.id] in Hs; lia.
Qed.

(** The manager itself, beside whatever state its sessions keep. *)
#[export] Program Instance manager_index {W} `{!MapRange Z} : SessionIndex (SessionManager * W) := {|
  si_snapshot st := Snapshot st.1;
  si_unregister id st := let (b, m') := Unregister id st.1 in (b, (m', st.2));
  si_inv st := manager_ok st.1
|}.
Next Obligation.
  intros W ? id [m w] Hm. cbn -[Unregister Snapshot] in *. pose proof (manager_ok_Unregister id m Hm).
  by destruct (Unregister id m).
Qed.
Next Obligation.
  intros W ? id id' [m w] (t & R & Hc). cbn -[Unregister Snapshot] in *.
  pose proof (Unregister_ids id id' m t R Hc). by destruct (Unregister id m).
Qed.

(* go: internal/runtime/session_manager.go:213-234 (CloseAll) *)
Definition CloseAll {W} `{!MapRange Z} (Close : Session -> SessionManager * W ->
    outcome (option error) * (SessionManager * W)) (ctxErr : SessionManager * W -> bool)
    (fuel : nat) (st : SessionManager * W) : option (option error * (SessionManager * W)) :=
  closeAll_loop Close ctxErr fuel None st.

(** ** The metrics decorator *)

(** The wrapped manager and the calls made on the metrics backend. *)
(* go: internal/runtime/session_metrics.go:9-17 (metricSessionManager) *)
Record metricSessionManager : Type := mkMetric {
  mm_inner : SessionManager;
  mm_log : list metric_call
}.

(* go: internal/runtime/session_metrics.go:19-26 (metricSessionManager.Register) *)
Definition metric_Register (sess : option Session) (m : metricSessionManager) :
    option error * metricSessionManager :=
  match Register sess (mm_inner m) with
  | (Some err, inner) => (Some err, mkMetric inner (mm_log m))
  | (None, inner) =>
      (None, mkMetric inner (mm_log m ++
         [IncCounter "sessions_accepted_total" []; SetGauge "sessions_active" (Count inner)]))
  end.

(* go: internal/runtime/session_metrics.go:28-39 (metricSessionManager.Unregister) *)
Definition metric_Unregister (id : Z) (m : metricSessionManager) : bool * metricSessionManager :=
  match Unregister id (mm_inner m) with
  | (false, inner) => (false, mkMetric inner (mm_log m))
  | (true, inner) =>
      (true, mkMetric inner (mm_log m ++
         [IncCounter "sessions_closed_total" []; SetGauge "sessions_active" (Count inner)]))
  end.

Lemma metric_Unregister_inner id m :
  mm_inner (metric_Unregister id m).2 = (Unregister id (mm_inner m)).2.
Proof. unfold metric_Unregister. by destruct (Unregister id (mm_inner m)) as [[] ?]. Qed.

#[export] Program Instance metric_index {W} `{!MapRange Z} : SessionIndex (metricSessionManager * W) := {|
  si_snapshot st := Snapshot (mm_inner st.1);
  si_unregister id st := let (b, m') := metric_Unregister id st.1 in (b, (m', st.2));
  si_inv st := manager_ok (mm_inner st.1)
|}.
Next Obligation.
  intros W ? id [m w] Hm. cbn -[Unregister metric_Unregister Snapshot] in *.
  pose proof (metric_Unregister_inner id m) as E. destruct (metric_Unregister id m).
  cbn -[Unregister metric_Unregister Snapshot] in *. rewrite E. by apply manager_ok_Unregister.
Qed.
Next Obligation.
  intros W ? id id' [m w] (t & R & Hc). cbn -[Unregister metric_Unregister Snapshot] in *.
  pose proof (metric_Unregister_inner id m) as E. destruct (metric_Unregister id m).
  cbn -[Unregister metric_Unregister Snapshot] in *. rewrite E. by apply (Unregister_ids id id' _ t).
Qed.

(* go: internal/runtime/session_metrics.go:41-64 (metricSessionManager.CloseAll) *)
Definition metric_CloseAll {W} `{!MapRange Z} (Close : Session -> metricSessionManager * W ->
    outcome (option error) * (metricSessionManager * W))
    (ctxErr : metricSessionManager * W -> bool)
    (fuel : nat) (st : metricSessionManager * W) :
    option (option error * (metricSessionManager * W)) :=
  closeAll_loop Close ctxErr fuel None st.

(** The operations of a run, and the invariant of the metrics: accepted minus
    closed is the number of sessions, and the gauge follows it. *)
Inductive session_op : Type :=
| OpRegister (s : Session)
| OpUnregister (id : Z).

Definition metric_step (m : metricSessionManager) (op : session_op) : metricSessionManager :=
  match op with
  | OpRegister s => (metric_Register (Some s) m).2
  | OpUnregister id => (metric_Unregister id m).2
  end.

Definition metric_inv (m : metricSessionManager) : Prop :=
  (exists t, refines (mm_inner m) t /\ 0 < t_max t <= max_int64 /\
     Z.of_nat (size (t_sessions t)) <= t_max t) /\
  counter "sessions_accepted_total" (mm_log m) - counter "sessions_closed_total" (mm_log m)
    = count (mm_inner m) /\
  default 0 (gauge "sessions_active" (mm_log m)) = count (mm_inner m).

Lemma refines_count_lt m t :
  refines m t -> 0 < t_max t <= max_int64 -> Z.of_nat (size (t_sessions t)) <= t_max t ->
  count m <= max_int64.
Proof. intros R ? ?. rewrite (ref_count _ _ R). lia. Qed.

(** A registration that was not refused had room. *)
Lemma Register_room m t sess :
  refines m t -> 0 < t_max t <= max_int64 ->
  (0 <? t_max t) && (t_max t <=? Z.of_nat (size (t_sessions t))) = false ->
  count m < max_int64 /\ refines (Register (Some sess) m).2 (Table_Register (Some sess) t).2.
Proof.
  intros R Hmx Hroom. apply andb_false_iff in Hroom.
  assert (count m < max_int64) as Hc.
  { rewrite (ref_count _ _ R). destruct Hroom; breflect; lia. }
  split; [done|]. by apply (Register_refines m t (Some sess) R Hc).
Qed.

Lemma metric_inv_Register s m : metric_inv m -> metric_inv (metric_Register (Some s) m).2.
Proof.
  intros ((t & R & Hmx & Hsz) & Hacc & Hg). unfold metric_Register.
  destruct (Register (Some s) (mm_inner m)) as [[err|] inner] eqn:E.
  { assert (inner = mm_inner m) as ->.
    { revert E. cbn [Register]. repeat split_match; congruence. }
    by split; [eauto|]. }
  assert ((0 <? t_max t) && (t_max t <=? Z.of_nat (size (t_sessions t))) = false) as Hroom.
  { revert E. cbn [Register]. rewrite (ref_max _ _ R), (ref_count _ _ R).
    repeat split_match; congruence. }
  destruct (Register_room _ t s R Hmx Hroom) as [Hc R'].
  assert (count inner = count (mm_inner m) + 1 /\
          t_sessions t !! ID s = None) as [Hcnt Hnone].
  { revert E. cbn [Register]. rewrite (ref_lookup _ _ R), decide_True by auto with shark.
    destruct (t_sessions t !! ID s); [done|].
    rewrite (ref_max _ _ R), (ref_count _ _ R), Hroom. intros [= <-]. split; [|done].
    cbn [set_shard set_count count]. rewrite (ref_count _ _ R) in Hc.
    rewrite i64_small; [done|]. unfold in_i64, min_int64, max_int64 in *. lia. }
  rewrite E in R'. cbn [snd] in *.
  assert (Table_Register (Some s) t = (None, mkTable (t_max t) (<[ID s := s]> (t_sessions t)))) as Et.
  { cbn [Table_Register]. rewrite decide_False, Hroom by (intros [? ?]; congruence). done. }
  rewrite Et in R'. split; [|split].
  - exists (mkTable (t_max t) (<[ID s := s]> (t_sessions t))). split; [done|]. split; [done|].
    pose proof (ref_count _ _ R') as Hc'. cbn [t_sessions t_max snd] in *.
    rewrite <- Hc', Hcnt, (ref_count _ _ R). apply andb_false_iff in Hroom.
    destruct Hroom; breflect; lia.
  - cbn [mm_log mm_inner]. rewrite !counter_app.
    replace (counter "sessions_accepted_total" [_; _]) with 1 by reflexivity.
    replace (counter "sessions_closed_total" [_; _]) with 0 by reflexivity. lia.
  - cbn [mm_log mm_inner]. change (?l ++ [?a; ?b]) with (l ++ [a] ++ [b]).
    rewrite app_assoc, gauge_snoc. done.
Qed.

Lemma metric_inv_Unregister id m : metric_inv m -> metric_inv (metric_Unregister id m).2.
Proof.
  intros ((t & R & Hmx & Hsz) & Hacc & Hg).
  pose proof (refines_count_lt _ _ R Hmx Hsz) as Hc.
  destruct (Unregister_refines _ t id R Hc) as [Eb R'].
  assert (exists t', refines (Unregister id (mm_inner m)).2 t' /\ 0 < t_max t' <= max_int64 /\
            Z.of_nat (size (t_sessions t')) <= t_max t') as Ht'.
  { exists (Table_Unregister id t).2. split; [done|]. simpl. split; [done|].
    pose proof (map_size_delete id (t_sessions t)) as Hs.
    destruct (t_sessions t !! id); cbv [Datatypes.id] in Hs; lia. }
  unfold metric_Unregister. destruct (Unregister id (mm_inner m)) as [b inner] eqn:E.
  cbn [fst snd] in *.
  assert (count inner = count (mm_inner m) - if b then 1 else 0) as Hcnt.
  { rewrite (ref_count _ _ R'), (ref_count _ _ R), Eb. simpl.
    pose proof (map_size_delete id (t_sessions t)) as Hs.
    destruct (t_sessions t !! id) eqn:El; cbv [Datatypes.id] in Hs.
    - rewrite bool_decide_eq_true_2 by done. rewrite Hs.
      assert (size (t_sessions t) <> 0%nat); [|lia].
      intros H0%map_size_empty_inv. by rewrite H0, lookup_empty in El.
    - rewrite bool_decide_eq_false_2 by (intros [? ?]; done). lia. }
  destruct b; (split; [done|]); cbn [mm_log mm_inner snd].
  - split.
    + rewrite !counter_app.
      replace (counter "sessions_accepted_total" [_; _]) with 0 by reflexivity.
      replace (counter "sessions_closed_total" [_; _]) with 1 by reflexivity. lia.
    + change (?l ++ [?a; ?b]) with (l ++ [a] ++ [b]). rewrite app_assoc, gauge_snoc. done.
  - rewrite Hcnt, Z.sub_0_r. done.
Qed.

(** ** Properties *)

(** The observable answer of an operation. *)
Inductive op_result : Type :=
| ResRegister (err : option error)
| ResUnregister (present : bool).

#[export] Instance op_result_eq_dec : EqDecision op_result.
Proof. solve_decision. Defined.

Definition session_step (op : session_op) (m : SessionManager) : op_result * SessionManager :=
  match op with
  | OpRegister s => let (e, m') := Register (Some s) m in (ResRegister e, m')
  | OpUnregister id => let (b, m') := Unregister id m in (ResUnregister b, m')
  end.

Definition table_step (op : session_op) (t : Table) : op_result * Table :=
  match op with
  | OpRegister s => let (e, t') := Table_Register (Some s) t in (ResRegister e, t')
  | OpUnregister id => let (b, t') := Table_Unregister id t in (ResUnregister b, t')
  end.

Fixpoint run_ops {S} (step : session_op -> S -> op_result * S) (ops : list session_op) (s : S) :
    list op_result * S :=
  match ops with
  | [] => ([], s)
  | op :: ops' =>
      let (r, s1) := step op s in
      let (rs, s2) := run_ops step ops' s1 in (r :: rs, s2)
  end.

Definition table_ok (t : Table) : Prop :=
  0 < t_max t <= max_int64 /\ Z.of_nat (size (t_sessions t)) <= t_max t.

Lemma table_ok_empty mx : 0 < mx <= max_int64 -> table_ok (mkTable mx ∅).
Proof. intros. split; [done|]. simpl. rewrite map_size_empty. lia. Qed.

Lemma table_step_ok op t : table_ok t -> table_ok (table_step op t).2.
Proof.
  intros [Hmx Hsz]. destruct op as [s|id]; cbn [table_step Table_Register Table_Unregister].
  - destruct (decide _); [done|].
    destruct (_ && _) eqn:E; [done|]. split; [done|]. simpl.
    rewrite map_size_insert_None by (by apply eq_None_not_Some).
    apply andb_false_iff in E. destruct E; breflect; lia.
  - split; [done|]. simpl. pose proof (map_size_delete id (t_sessions t)) as Hs.
    destruct (t_sessions t !! id); cbv [Datatypes.id] in Hs; lia.
Qed.

Lemma step_refines op m t :
  refines m t -> table_ok t ->
  (session_step op m).1 = (table_step op t).1 /\ refines (session_step op m).2 (table_step op t).2.
Proof.
  intros R [Hmx Hsz]. pose proof (refines_count_lt _ _ R Hmx Hsz) as Hc.
  destruct op as [s|id]; cbn [session_step table_step].
  - destruct (decide (is_Some (t_sessions t !! ID s) \/
      (0 <? t_max t) && (t_max t <=? Z.of_nat (size (t_sessions t))) = true)) as [H|H].
    + assert (Register (Some s) m = ((Table_Register (Some s) t).1, m) /\
              (Table_Register (Some s) t).2 = t) as [-> Et].
      { cbn [Register Table_Register]. rewrite (ref_lookup _ _ R), decide_True by auto with shark.
        rewrite (ref_max _ _ R), (ref_count _ _ R).
        destruct (decide (is_Some _)) as [[s' ->]|Hn]; [done|].
        destruct H as [H|H]; [done|]. rewrite H.
        by rewrite (proj2 (eq_None_not_Some _) Hn). }
      destruct (Table_Register (Some s) t) as [e t']. simpl in *. by subst.
    + assert ((0 <? t_max t) && (t_max t <=? Z.of_nat (size (t_sessions t))) = false) as Hroom
        by (apply not_true_iff_false; tauto).
      destruct (Register_room m t s R Hmx Hroom) as [Hlt _].
      destruct (Register_refines m t (Some s) R Hlt) as [E1 E2].
      destruct (Register _ m), (Table_Register _ t). simpl in *. by subst.
  - destruct (Unregister_refines m t id R Hc) as [E1 E2].
    destruct (Unregister id m), (Table_Unregister id t). simpl in *. by subst.
Qed.

Lemma run_refines ops m t :
  refines m t -> table_ok t ->
  (run_ops session_step ops m).1 = (run_ops table_step ops t).1 /\
  refines (run_ops session_step ops m).2 (run_ops table_step ops t).2 /\
  table_ok (run_ops table_step ops t).2.
Proof.
  revert m t. induction ops as [|op ops IH]; intros m t R Hok; [done|]. cbn [run_ops].
  destruct (step_refines op m t R Hok) as [E R'].
  pose proof (table_step_ok op t Hok) as Hok'.
  destruct (session_step op m) as [r1 m1], (table_step op t) as [r2 t1]. simpl in *. subst.
  destruct (IH m1 t1 R' Hok') as (E' & R'' & Hok'').
  destruct (run_ops session_step ops m1), (run_ops table_step ops t1). simpl in *.
  by subst.
Qed.

Lemma run_table_max ops t : t_max (run_ops table_step ops t).2 = t_max t.
Proof.
  revert t. induction ops as [|op ops IH]; intros t; [done|]. cbn [run_ops].
  destruct (table_step op t) as [r t1] eqn:E. specialize (IH t1).
  destruct (run_ops table_step ops t1). simpl in *. rewrite IH.
  destruct op; cbn [table_step Table_Register Table_Unregister] in E;
    repeat case_decide; try destruct (_ && _); by simplify_eq.
Qed.

(** The manager reached from an empty one of capacity [mx]. *)
Definition reached (mx : Z) (ops : list session_op) : SessionManager :=
  (run_ops session_step ops (NewSessionManager [WithMaxSessions mx])).2.

Lemma reached_refines mx ops :
  0 < mx <= max_int64 -> exists t, refines (reached mx ops) t /\ table_ok t.
Proof.
  intros Hmx.
  destruct (run_refines ops _ _ (refines_new mx) (table_ok_empty mx Hmx)) as (_ & R & Hok).
  eauto.
Qed.

(** C1: The 64-shard session manager is indistinguishable from a manager with a
    single table: every sequence of Register and Unregister calls gets the same
    answers (duplicate before capacity, presence on unregister) from both, every
    Get agrees with the single table, the counter is the number of sessions and
    it never exceeds the configured maximum. *)
Theorem sharded_manager_refines_single_table mx ops :
  0 < mx <= max_int64 ->
  let m := NewSessionManager [WithMaxSessions mx] in
  let T := mkTable mx ∅ in
  (run_ops session_step ops m).1 = (run_ops table_step ops T).1 /\
  (forall id, Get id (run_ops session_step ops m).2
              = t_sessions (run_ops table_step ops T).2 !! id) /\
  Count (run_ops session_step ops m).2
    = Z.of_nat (size (t_sessions (run_ops table_step ops T).2)) /\
  Count (run_ops session_step ops m).2 <= mx.
Proof.
  intros Hmx m T.
  destruct (run_refines ops m T (refines_new mx) (table_ok_empty mx Hmx)) as (E & R & Hok).
  split; [done|]. split; [intros id; by apply refines_get|].
  unfold Count. rewrite (ref_count _ _ R). split; [done|].
  pose proof (run_table_max ops T) as Emx. destruct Hok as [_ Hsz]. simpl in Emx. lia.
Qed.

Lemma sharded_manager_refines_single_table_witness :
  0 < 2 <= max_int64 /\
  (run_ops session_step
     [OpRegister (mkSession 1 false); OpRegister (mkSession 65 false);
      OpRegister (mkSession 1 true); OpRegister (mkSession 7 true); OpUnregister 65]
     (NewSessionManager [WithMaxSessions 2])).1 =
  [ResRegister None; ResRegister None; ResRegister (Some ErrDuplicateSession);
   ResRegister (Some ErrSessionCapacity); ResUnregister true].
Proof.
  split; [by vm_compute|].
  rewrite (proj1 (sharded_manager_refines_single_table 2 _ ltac:(by vm_compute))).
  by vm_compute.
Defined.

(** Snapshot returns every registered session exactly once, whatever order
    Go ranges over the shards in: a session is in the snapshot iff Get finds it
    under its ID, and the snapshot has as many entries as Count reports. *)
Theorem snapshot_exact `{!MapRange Z} mx ops s :
  0 < mx <= max_int64 ->
  (s ∈ Snapshot (reached mx ops) <-> Get (ID s) (reached mx ops) = Some s) /\
  NoDup (map ID (Snapshot (reached mx ops))) /\
  len (Snapshot (reached mx ops)) = Count (reached mx ops).
Proof.
  intros Hmx. destruct (reached_refines mx ops Hmx) as (t & R & _).
  split; [|split].
  - rewrite (Snapshot_refines _ _ R), (refines_get _ _ _ R), list_elem_of_fmap. split.
    + intros ([id s'] & -> & Hin%elem_of_map_to_list). simpl.
      by rewrite (ref_ids _ _ R id s').
    + intros Hs. exists (ID s, s). by rewrite elem_of_map_to_list.
  - by apply (NoDup_Snapshot_IDs _ t).
  - unfold len, Count. rewrite (Snapshot_refines _ _ R), length_fmap, (ref_count _ _ R).
    by rewrite length_map_to_list.
Qed.

Lemma snapshot_exact_witness :
  0 < 5 <= max_int64 /\
  len (@Snapshot map_range_std (reached 5 [OpRegister (mkSession 3 true);
         OpRegister (mkSession 67 false); OpUnregister 3])) = 1.
Proof.
  split; [by vm_compute|].
  rewrite (proj2 (proj2 (@snapshot_exact map_range_std 5 _ (mkSession 3 true)
    ltac:(by vm_compute)))).
  by vm_compute.
Defined.

(** When at least two registered sessions can share a frame, a broadcast
    delivers the data to every registered session exactly once. *)
Theorem broadcast_exactly_once `{!MapRange Z} mx ops data :
  0 < mx <= max_int64 ->
  (1 < length (List.filter isSharedSender (Snapshot (reached mx ops))))%nat ->
  (Broadcast log_send log_shared data (reached mx ops) []).2
    ≡ₚ map (fun s => (s, data)) (Snapshot (reached mx ops)).
Proof.
  intros Hmx Hsh. unfold Broadcast. rewrite (proj2 (Nat.ltb_lt _ _) Hsh).
  rewrite log_shared_spec, log_plain_spec. cbn [snd app].
  change (frame_Payload _) with data. rewrite <- map_app.
  by rewrite filter_shared_perm.
Qed.

Lemma broadcast_exactly_once_witness :
  (@Broadcast _ map_range_std log_send log_shared [7] (reached 5
     [OpRegister (mkSession 1 true); OpRegister (mkSession 2 true);
      OpRegister (mkSession 3 false)]) []).2
  ≡ₚ map (fun s => (s, [7])) (@Snapshot map_range_std (reached 5
     [OpRegister (mkSession 1 true); OpRegister (mkSession 2 true);
      OpRegister (mkSession 3 false)])).
Proof.
  apply (@broadcast_exactly_once map_range_std 5); [by vm_compute|].
  apply Nat.ltb_lt. by vm_compute.
Defined.

(** When fewer than two registered sessions can share a frame, a broadcast
    delivers the data twice to every session that cannot share one, and once to
    the one that can: the fallback path appends every session to a list that
    already holds the sessions without [SendShared]. *)
Theorem broadcast_duplicates_plain `{!MapRange Z} mx ops data :
  0 < mx <= max_int64 ->
  (length (List.filter isSharedSender (Snapshot (reached mx ops))) <= 1)%nat ->
  (Broadcast log_send log_shared data (reached mx ops) []).2 =
    map (fun s => (s, data))
      (List.filter (fun s => negb (isSharedSender s)) (Snapshot (reached mx ops))
       ++ Snapshot (reached mx ops)).
Proof.
  intros Hmx Hsh. unfold Broadcast. rewrite (proj2 (Nat.ltb_ge _ _) Hsh).
  by rewrite log_plain_spec.
Qed.

Lemma broadcast_duplicates_plain_witness :
  (@Broadcast _ map_range_std log_send log_shared [7]
     (reached 5 [OpRegister (mkSession 1 false)]) []).2 =
  [(mkSession 1 false, [7]); (mkSession 1 false, [7])].
Proof.
  rewrite (@broadcast_duplicates_plain map_range_std 5);
    [by vm_compute|by vm_compute|apply Nat.leb_le; by vm_compute].
Defined.

(** After a broadcast over a shared frame, the frame holds exactly one
    reference per session that took it and has not written it yet: every
    failed SendShared, panics included, has had its reference dropped, so the
    payload is never pinned. *)
Theorem broadcast_frame_refs `{!MapRange Z} {W} Send
    (SendShared : Session -> SharedFrame * W -> outcome (option error) * (SharedFrame * W))
    data m w frame :
  sendShared_contract SendShared ->
  len (Snapshot m) <= max_int64 ->
  (Broadcast Send SendShared data m w).1.2 = Some frame ->
  let shared := List.filter isSharedSender (Snapshot m) in
  frame_Refs frame =
    Z.of_nat (shared_pending SendShared shared (NewSharedFrame data (len shared), w)).
Proof.
  intros HC Hlen HB shared. revert HB. unfold Broadcast. fold shared.
  assert (len shared <= len (Snapshot m)) as Hle.
  { unfold len, shared. pose proof (List.filter_length_le isSharedSender (Snapshot m)). lia. }
  destruct (1 <? length shared)%nat eqn:E; [|by destruct (broadcast_plain _ _ _ _ _)].
  apply Nat.ltb_lt in E.
  assert (frame_refs (NewSharedFrame data (len shared)) = len shared) as Hr.
  { unfold NewSharedFrame, len in *. rewrite (proj2 (Z.ltb_ge _ _)) by lia. simpl.
    apply i64_small. unfold in_i64, min_int64. lia. }
  pose proof (broadcast_shared_refs SendShared shared None
                (NewSharedFrame data (len shared)) w HC) as Hrefs.
  rewrite Hr in Hrefs. destruct (broadcast_shared _ _ _ _) as [e [f' w']].
  destruct (broadcast_plain _ _ _ _ _) as [e' w'']. cbn [fst snd] in *. intros [= <-].
  unfold frame_Refs. rewrite Hrefs; unfold len in *; lia.
Qed.

Lemma broadcast_frame_refs_witness :
  exists frame,
  (@Broadcast _ map_range_std log_send log_shared [7] (reached 5
     [OpRegister (mkSession 1 true); OpRegister (mkSession 2 true)]) []).1.2 = Some frame /\
  frame_Refs frame = 2.
Proof.
  eexists. split; [by vm_compute|].
  rewrite (@broadcast_frame_refs map_range_std _ log_send log_shared [7] (reached 5
     [OpRegister (mkSession 1 true); OpRegister (mkSession 2 true)]) []).
  - by vm_compute.
  - intros s f w. simpl. auto.
  - by vm_compute.
  - by vm_compute.
Defined.

(** CloseAll terminates and leaves no session registered: if closing a
    session registers nothing new and the context stays live, one pass over the
    sessions and one final check suffice, whether the sessions' Close calls
    return, fail, panic or unregister themselves. *)
Theorem closeAll_empties {W} `{!MapRange Z} Close ctxErr m (w : W) mx ops :
  0 < mx <= max_int64 -> m = reached mx ops ->
  close_shrinks Close -> (forall st, ctxErr st = false) ->
  exists err m' w', CloseAll Close ctxErr 2 (m, w) = Some (err, (m', w')) /\
    Snapshot m' = [] /\ Count m' = 0.
Proof.
  intros Hmx -> HC Hctx. destruct (reached_refines mx ops Hmx) as (t & R & [Ht1 Ht2]).
  destruct (closeAll_loop_empties Close ctxErr None (reached mx ops, w) HC Hctx)
    as (e & [m' w'] & Hrun & Hnil & (t' & R' & _)).
  { exists t. split; [done|]. by apply (refines_count_lt _ t). }
  exists e, m', w'. split; [done|]. simpl in Hnil, R'. split; [done|].
  unfold Count. rewrite (ref_count _ _ R'), <- length_map_to_list.
  pose proof (Permutation_length (Snapshot_refines _ _ R')) as Hl.
  rewrite length_fmap in Hl. rewrite <- Hl, Hnil. done.
Qed.

(** A session whose Close panics, for the witness. *)
Definition panicking_close (s : Session) (st : SessionManager * unit) :
  outcome (option error) * (SessionManager * unit) := (Panicked, st).

Lemma closeAll_empties_witness :
  exists err m' w', @CloseAll unit map_range_std panicking_close (fun _ => false) 2
    (reached 5 [OpRegister (mkSession 1 true); OpRegister (mkSession 2 false)], tt)
    = Some (err, (m', w')) /\ @Snapshot map_range_std m' = [] /\ Count m' = 0.
Proof.
  apply (@closeAll_empties unit map_range_std panicking_close (fun _ => false) _ tt 5
    [OpRegister (mkSession 1 true); OpRegister (mkSession 2 false)]);
    [by vm_compute|done| |done].
  intros s st Hst. split; [done|]. auto.
Defined.

(** The metrics decorator counts every real registration and removal once:
    after any run, sessions_accepted_total minus sessions_closed_total is the
    number of live sessions, and the sessions_active gauge shows it. *)
Theorem session_metrics_consistent mx ops :
  0 < mx <= max_int64 ->
  let m := fold_left metric_step ops (mkMetric (NewSessionManager [WithMaxSessions mx]) []) in
  counter "sessions_accepted_total" (mm_log m) - counter "sessions_closed_total" (mm_log m)
    = Count (mm_inner m) /\
  default 0 (gauge "sessions_active" (mm_log m)) = Count (mm_inner m).
Proof.
  intros Hmx. cbn zeta.
  enough (forall m, metric_inv m -> metric_inv (fold_left metric_step ops m)) as H.
  { apply H. split; [|done]. exists (mkTable mx ∅). split; [apply refines_new|].
    by apply table_ok_empty. }
  induction ops as [|op ops IH]; intros m Hm; [done|]. simpl. apply IH.
  destruct op; [by apply metric_inv_Register|by apply metric_inv_Unregister].
Qed.

Lemma session_metrics_consistent_witness :
  0 < 9 <= max_int64 /\
  gauge "sessions_active" (mm_log (fold_left metric_step
    [OpRegister (mkSession 1 true); OpRegister (mkSession 1 true); OpUnregister 4;
     OpRegister (mkSession 2 true); OpUnregister 1]
    (mkMetric (NewSessionManager [WithMaxSessions 9]) []))) = Some 1.
Proof.
  split; [by vm_compute|].
  pose proof (session_metrics_consistent 9
    [OpRegister (mkSession 1 true); OpRegister (mkSession 1 true); OpUnregister 4;
     OpRegister (mkSession 2 true); OpUnregister 1] ltac:(by vm_compute)) as [_ H].
  by vm_compute.
Defined.
