(* ===== verification/SessionConcurrency.v ===== *)
(** * SessionConcurrency: interleavings of Register and Unregister

    [internal/runtime/session_manager.go] takes one shard lock per call and
    claims the global counter with a compare-and-swap loop.  Here each call is
    a thread whose program counter names the next atomic action; a step of the
    system is one such action of any thread.  The table is one map from IDs
    (SessionManager proves the shards equal to it), and a thread holds the lock
    of its ID's shard exactly while its program counter says so. *)
From S2P Require Import Prelude Bytes Core SessionManager.
Local Open Scope Z_scope.

(** The atomic actions of one call. [R...] is Register, [U...] Unregister. *)
(* go: internal/runtime/session_manager.go:74-95 (Register) *)
Inductive pc : Type :=
| RStart (id : Z)              (* before sh.mu.Lock() *)
| RLocked (id : Z)             (* lock held, duplicate check next *)
| RLoop (id : Z)               (* top of the claim loop *)
| RLoaded (id cur : Z)         (* counter read into cur *)
| RClaimed (id : Z)            (* counter claimed, insertion next *)
| RDone (err : option error)
| UStart (id : Z)              (* before the locked lookup and delete *)
| UDec                         (* entry deleted, lock released, count.Add(-1) next *)
| UDone (present : bool).

(** The shard whose lock the thread holds. *)
Definition holds (p : pc) : option nat :=
  match p with
  | RLocked id | RLoop id | RLoaded id _ | RClaimed id => Some (shard_index id)
  | _ => None
  end.

Record cstate : Type := mkC {
  c_count : Z;
  c_tbl : gset Z;
  c_pcs : list pc
}.

(** No thread holds the lock of shard [sh]. *)
Definition lock_free (sh : nat) (pcs : list pc) : Prop :=
  Forall (fun p => holds p <> Some sh) pcs.

Definition goto (s : cstate) (i : nat) (p : pc) : cstate :=
  mkC (c_count s) (c_tbl s) (<[i := p]> (c_pcs s)).

Section steps.
Variable mx : Z.

(* go: internal/runtime/session_manager.go:84-107 (Register and Unregister) *)
Inductive cstep (s : cstate) : cstate -> Prop :=
| step_lock i id : c_pcs s !! i = Some (RStart id) -> lock_free (shard_index id) (c_pcs s) ->
    cstep s (goto s i (RLocked id))
| step_duplicate i id : c_pcs s !! i = Some (RLocked id) -> id ∈ c_tbl s ->
    cstep s (goto s i (RDone (Some ErrDuplicateSession)))
| step_fresh i id : c_pcs s !! i = Some (RLocked id) -> id ∉ c_tbl s ->
    cstep s (goto s i (RLoop id))
| step_load i id : c_pcs s !! i = Some (RLoop id) ->
    cstep s (goto s i (RLoaded id (c_count s)))
| step_full i id cur : c_pcs s !! i = Some (RLoaded id cur) ->
    (0 <? mx) && (mx <=? cur) = true ->
    cstep s (goto s i (RDone (Some ErrSessionCapacity)))
| step_cas i id cur : c_pcs s !! i = Some (RLoaded id cur) ->
    (0 <? mx) && (mx <=? cur) = false -> c_count s = cur ->
    cstep s (mkC (cur + 1) (c_tbl s) (<[i := RClaimed id]> (c_pcs s)))
| step_cas_fail i id cur : c_pcs s !! i = Some (RLoaded id cur) ->
    (0 <? mx) && (mx <=? cur) = false -> c_count s <> cur ->
    cstep s (goto s i (RLoop id))
| step_insert i id : c_pcs s !! i = Some (RClaimed id) ->
    cstep s (mkC (c_count s) ({[id]} ∪ c_tbl s) (<[i := RDone None]> (c_pcs s)))
| step_delete i id : c_pcs s !! i = Some (UStart id) -> id ∈ c_tbl s ->
    lock_free (shard_index id) (c_pcs s) ->
    cstep s (mkC (c_count s) (c_tbl s ∖ {[id]}) (<[i := UDec]> (c_pcs s)))
| step_absent i id : c_pcs s !! i = Some (UStart id) -> id ∉ c_tbl s ->
    lock_free (shard_index id) (c_pcs s) ->
    cstep s (goto s i (UDone false))
| step_decrement i : c_pcs s !! i = Some UDec ->
    cstep s (mkC (c_count s - 1) (c_tbl s) (<[i := UDone true]> (c_pcs s))).

(** A slot a thread has claimed and not yet filled, or emptied and not yet
    returned. *)
Definition in_flight (p : pc) : nat :=
  match p with RClaimed _ | UDec => 1 | _ => 0 end.

(** The ID a thread holding its shard lock has found absent. *)
Definition absent_id (p : pc) : option Z :=
  match p with
  | RLoop id | RLoaded id _ | RClaimed id => Some id
  | _ => None
  end.

Record cinv (s : cstate) : Prop := {
  inv_count : c_count s = Z.of_nat (size (c_tbl s) + list_sum (map in_flight (c_pcs s)));
  inv_cap : 0 < mx -> c_count s <= mx;
  inv_excl : forall i j p q sh, c_pcs s !! i = Some p -> c_pcs s !! j = Some q ->
    holds p = Some sh -> holds q = Some sh -> i = j;
  inv_absent : forall i p id, c_pcs s !! i = Some p -> absent_id p = Some id -> id ∉ c_tbl s
}.

Lemma absent_holds p id : absent_id p = Some id -> holds p = Some (shard_index id).
Proof. destruct p; simpl; congruence. Qed.

(** Mutual exclusion survives a move that takes no new lock, or a free one. *)
Lemma excl_update (pcs : list pc) (i : nat) p p' :
  (forall (i j : nat) p q sh, pcs !! i = Some p -> pcs !! j = Some q ->
     holds p = Some sh -> holds q = Some sh -> i = j) ->
  pcs !! i = Some p ->
  (forall sh, holds p' = Some sh -> holds p = Some sh \/ lock_free sh pcs) ->
  forall i1 i2 p1 p2 sh, <[i := p']> pcs !! i1 = Some p1 -> <[i := p']> pcs !! i2 = Some p2 ->
    holds p1 = Some sh -> holds p2 = Some sh -> i1 = i2.
Proof.
  intros Hex Hi Hp i1 i2 p1 p2 sh H1 H2 Hh1 Hh2.
  assert (forall j q, j <> i -> pcs !! j = Some q -> holds q = Some sh -> holds p' = Some sh -> False)
    as Hconf.
  { intros j q Hj Hq Hhq Hp'. destruct (Hp sh Hp') as [Hp1|Hfree].
    - by apply Hj, (Hex j i q p sh).
    - unfold lock_free in Hfree. rewrite Forall_lookup in Hfree. by apply (Hfree j q). }
  apply list_lookup_insert_Some in H1 as [(<- & <- & _)|(Hn1 & H1)];
    apply list_lookup_insert_Some in H2 as [(<- & <- & _)|(Hn2 & H2)]; try done.
  - exfalso. by apply (Hconf i2 p2).
  - exfalso. by apply (Hconf i1 p1).
  - by apply (Hex i1 i2 p1 p2 sh).
Qed.

Lemma absent_update (tbl : gset Z) (pcs : list pc) (i : nat) p p' :
  (forall (i : nat) p id, pcs !! i = Some p -> absent_id p = Some id -> id ∉ tbl) ->
  pcs !! i = Some p ->
  (forall id, absent_id p' = Some id -> absent_id p = Some id \/ id ∉ tbl) ->
  forall j q id, <[i := p']> pcs !! j = Some q -> absent_id q = Some id -> id ∉ tbl.
Proof.
  intros Hab Hi Hp j q id Hj Hq.
  apply list_lookup_insert_Some in Hj as [(<- & <- & _)|(Hn & Hj)]; [|by eapply Hab].
  destruct (Hp id Hq); [by eapply Hab|done].
Qed.

Lemma goto_inv s i p p' :
  cinv s -> c_pcs s !! i = Some p -> in_flight p = in_flight p' ->
  (forall sh, holds p' = Some sh -> holds p = Some sh \/ lock_free sh (c_pcs s)) ->
  (forall id, absent_id p' = Some id -> absent_id p = Some id \/ id ∉ c_tbl s) ->
  cinv (goto s i p').
Proof.
  intros [Hc Hcap Hex Hab] Hi Hf Hh Ha. split; simpl.
  - pose proof (sum_insert in_flight _ i p p' Hi). lia.
  - done.
  - by eapply excl_update.
  - by eapply absent_update.
Qed.

(** A thread that is inserting holds the lock, so no other thread has found
    its ID absent. *)
Lemma absent_other s i p j q id :
  cinv s -> c_pcs s !! i = Some p -> absent_id p = Some id ->
  c_pcs s !! j = Some q -> absent_id q = Some id -> i = j.
Proof.
  intros Hinv Hi Hp Hj Hq. apply (inv_excl s Hinv i j p q (shard_index id)); auto;
    by apply absent_holds.
Qed.

Lemma cstep_inv s s' : cinv s -> cstep s s' -> cinv s'.
Proof.
  intros Hinv Hstep. pose proof Hinv as [Hc Hcap Hex Hab].
  destruct Hstep as [i id Hi Hfree|i id Hi Hin|i id Hi Hin|i id Hi|i id cur Hi Hfull
    |i id cur Hi Hfull Hcur|i id cur Hi Hfull Hcur|i id Hi|i id Hi Hin Hfree
    |i id Hi Hin Hfree|i Hi];
  try (eapply goto_inv; [done|done|done|naive_solver|naive_solver]).
  - (* claim *)
    pose proof (sum_insert in_flight _ i _ (RClaimed id) Hi) as Hs.
    split; simpl in *.
    + lia.
    + intros Hmx. apply andb_false_iff in Hfull. destruct Hfull; breflect; lia.
    + eapply excl_update; [done|done|]. naive_solver.
    + eapply absent_update; [done|done|]. naive_solver.
  - (* insert *)
    pose proof (sum_insert in_flight _ i _ (RDone None) Hi) as Hs.
    assert (id ∉ c_tbl s) as Hnew by (eapply Hab; done).
    split; simpl in *.
    + rewrite size_union by set_solver. rewrite size_singleton. lia.
    + done.
    + eapply excl_update; [done|done|]. naive_solver.
    + intros j q id' Hj Hq.
      apply list_lookup_insert_Some in Hj as [(<- & <- & _)|(Hn & Hj)]; [done|].
      assert (id' ∉ c_tbl s) by (by eapply Hab).
      assert (id' <> id); [|set_solver].
      intros ->. apply Hn. by eapply (absent_other s i _ j q id).
  - (* delete *)
    pose proof (sum_insert in_flight _ i _ UDec Hi) as Hs.
    assert (size (c_tbl s) = S (size (c_tbl s ∖ {[id]}))) as Hsz.
    { rewrite size_difference, size_singleton by set_solver.
      assert (size (c_tbl s) <> 0%nat); [|lia].
      intros Hz%size_empty_inv. set_solver. }
    split; simpl in *.
    + lia.
    + done.
    + eapply excl_update; [done|done|]. naive_solver.
    + intros j q id' Hj Hq.
      apply list_lookup_insert_Some in Hj as [(<- & <- & _)|(Hn & Hj)]; [done|].
      assert (id' ∉ c_tbl s) by (by eapply Hab). set_solver.
  - (* decrement *)
    pose proof (sum_insert in_flight _ i _ (UDone true) Hi) as Hs.
    split; simpl in *.
    + lia.
    + lia.
    + eapply excl_update; [done|done|]. naive_solver.
    + eapply absent_update; [done|done|]. naive_solver.
Qed.
End steps.

(** A call that has not started yet. *)
Definition not_started (p : pc) : Prop :=
  match p with RStart _ | UStart _ => True | _ => False end.

(** A call that has returned. *)
Definition finished (p : pc) : bool :=
  match p with RDone _ | UDone _ => true | _ => false end.

Lemma cinv_init mx pcs : 0 <= mx -> Forall not_started pcs -> cinv mx (mkC 0 ∅ pcs).
Proof.
  intros Hmx Hpcs. rewrite Forall_lookup in Hpcs.
  split; simpl.
  - assert (list_sum (map in_flight pcs) = 0%nat) as ->; [|done].
    assert (Forall not_started pcs) as HF by (by apply Forall_lookup). clear Hpcs.
    induction HF as [|p l Hp _ IH]; [done|]. simpl. rewrite IH. by destruct p.
  - lia.
  - intros i j p q sh Hi _ Hp. specialize (Hpcs i p Hi). by destruct p.
  - set_solver.
Qed.

(** C2: Under every interleaving of concurrent Register and Unregister calls
    from an empty manager, the number of registered sessions never exceeds the
    configured maximum, the counter covers every registered session, and once
    all calls have returned the counter is exactly the number of sessions. *)
Theorem concurrent_capacity mx pcs s :
  0 <= mx -> Forall not_started pcs -> star (cstep mx) (mkC 0 ∅ pcs) s ->
  (0 < mx -> Z.of_nat (size (c_tbl s)) <= mx) /\
  Z.of_nat (size (c_tbl s)) <= c_count s /\
  (Forall (fun p => finished p = true) (c_pcs s) -> c_count s = Z.of_nat (size (c_tbl s))).
Proof.
  intros Hmx Hpcs Hstar.
  assert (cinv mx s) as [Hc Hcap _ _].
  { apply (star_invariant (cstep mx) (cinv mx) (cstep_inv mx) _ _ Hstar).
    by apply cinv_init. }
  split; [|split].
  - intros H. specialize (Hcap H). lia.
  - lia.
  - intros HF. rewrite Hc. enough (list_sum (map in_flight (c_pcs s)) = 0%nat) by lia.
    clear Hc Hcap Hstar. induction HF as [|p l Hp _ IH]; [done|]. simpl. rewrite IH.
    by destruct p.
Qed.

(** Two registrations race for the single slot; the second to reach the counter
    is refused. *)
Ltac solve_Forall := repeat first [apply Forall_nil_2 | apply Forall_cons_2; [done|]].

Definition race_start : cstate := mkC 0 ∅ [RStart 1; RStart 2].
Definition race_end : cstate :=
  mkC 1 {[1]} [RDone None; RDone (Some ErrSessionCapacity)].

Lemma race_run : star (cstep 1) race_start race_end.
Proof.
  unfold race_start.
  eapply star_step; [apply (step_lock 1 _ 0 1); [done|solve_Forall]|].
  eapply star_step; [apply (step_lock 1 _ 1 2); [done|solve_Forall]|].
  eapply star_step; [apply (step_fresh 1 _ 0 1); [done|set_solver]|].
  eapply star_step; [apply (step_fresh 1 _ 1 2); [done|set_solver]|].
  eapply star_step; [apply (step_load 1 _ 0 1); done|].
  eapply star_step; [apply (step_load 1 _ 1 2); done|].
  eapply star_step; [apply (step_cas 1 _ 0 1 0); done|].
  eapply star_step; [apply (step_cas_fail 1 _ 1 2 0); done|].
  eapply star_step; [apply (step_load 1 _ 1 2); done|].
  eapply star_step; [apply (step_insert 1 _ 0 1); done|].
  eapply star_step; [apply (step_full 1 _ 1 2 1); done|].
  cbn. rewrite (right_id_L ∅ (∪)). apply star_refl.
Qed.

Lemma concurrent_capacity_witness :
  c_count race_end = 1 /\ Z.of_nat (size (c_tbl race_end)) <= 1.
Proof.
  destruct (concurrent_capacity 1 [RStart 1; RStart 2] race_end) as (H1 & _ & H3).
  - done.
  - solve_Forall.
  - exact race_run.
  - split; [done|]. by apply H1.
Defined.
