(* ===== verification/PluginChain.v ===== *)
(** * PluginChain: [internal/runtime/plugin_chain.go]

    Plugins are user code: each callback may change the world [W] and may
    return or panic.  The chain's own code is the order of the calls, the
    rollbacks and the panic isolation, all of which the trace theorems at the
    end state over plugins that record the calls they receive. *)
From S2P Require Import Prelude Bytes Core.
Local Open Scope string_scope.
Local Open Scope Z_scope.
Local Open Scope list_scope.

Section chain.
Context {W Sess : Type}.

(** A plugin; [p_lifecycle] holds Start and Stop when it implements
    [core.LifecyclePlugin]. *)
(* go: internal/core/plugin.go:10-31 (Plugin) *)
Record Plugin : Type := mkPlugin {
  p_Name : string;
  p_Priority : Z;
  p_OnAccept : Sess -> W -> outcome (option error) * W;
  p_OnMessage : Sess -> bytes -> W -> outcome (bytes * option error) * W;
  p_OnClose : Sess -> W -> outcome unit * W;
  p_lifecycle : option ((W -> outcome (option error) * W) * (W -> outcome (option error) * W))
}.

(** [core.BasePlugin]: accepts everything, passes data through. *)
(* go: internal/core/plugin.go:33-40 (BasePlugin) *)
Definition BasePlugin : Plugin := {|
  p_Name := "base"; p_Priority := 1000;
  p_OnAccept _ w := (Returned None, w);
  p_OnMessage _ b w := (Returned (b, None), w);
  p_OnClose _ w := (Returned tt, w);
  p_lifecycle := None |}.

(** A logger receives the message and the plugin's name. *)
Abbreviation Logger := (string -> string -> W -> W).
Definition NopLogger : Logger := fun _ _ w => w.

(** One immutable generation of the chain; the chain is its current view. *)
(* go: internal/runtime/plugin_chain.go:13-28 (pluginView) *)
Record pluginView : Type := mkView {
  plugins : list Plugin;
  logger : Logger
}.

(** [slices.SortStableFunc]: insertion from the left; an element moves past
    its predecessors while it compares below them. [rp] is the sorted prefix,
    last element first. *)
Fixpoint insert_back (cmp : Plugin -> Plugin -> Z) (x : Plugin) (rp : list Plugin) : list Plugin :=
  match rp with
  | [] => [x]
  | y :: rp' => if cmp x y <? 0 then y :: insert_back cmp x rp' else x :: rp
  end.

Definition SortStableFunc (cmp : Plugin -> Plugin -> Z) (l : list Plugin) : list Plugin :=
  rev (fold_left (fun rp x => insert_back cmp x rp) l []).

(** [a.Priority() - b.Priority()] on Go's 64-bit int. *)
(* go: internal/runtime/plugin_chain.go:68-70 (Append) *)
Definition cmp_priority (a b : Plugin) : Z := i64 (p_Priority a - p_Priority b).

(* go: internal/runtime/plugin_chain.go:50-72 (Append) *)
Definition Append (ps : list (option Plugin)) (cur : pluginView) : pluginView :=
  let next := plugins cur ++ omap id ps in
  mkView (SortStableFunc cmp_priority next) (logger cur).

(* go: internal/runtime/plugin_chain.go:30-35 (NewPluginChain) *)
Definition NewPluginChain (ps : list (option Plugin)) : pluginView :=
  Append ps (mkView [] NopLogger).

(* go: internal/runtime/plugin_chain.go:37-48 (SetLogger) *)
Definition SetLogger (lg : option Logger) (cur : pluginView) : pluginView :=
  match lg with
  | None => cur
  | Some lg => mkView (plugins cur) lg
  end.

(* go: internal/runtime/plugin_chain.go:74-84 (PluginNames) *)
Definition PluginNames (v : pluginView) : list string := map p_Name (plugins v).

(* go: internal/runtime/plugin_chain.go:212-222 (safeClose) *)
Definition safeClose (p : Plugin) (lg : Logger) (sess : Sess) (w : W) : W :=
  match p_OnClose p sess w with
  | (Returned _, w') => w'
  | (Panicked, w') => lg "plugin close panic" (p_Name p) w'
  end.

(** The deferred recover turns the panic into the error result. *)
Definition recovered (lg : Logger) (msg : string) (p : Plugin)
    (r : outcome (option error) * W) : option error * W :=
  match r with
  | (Returned err, w') => (err, w')
  | (Panicked, w') => (Some ErrPluginPanic, lg msg (p_Name p) w')
  end.

(* go: internal/runtime/plugin_chain.go:224-233 (safeStart) *)
Definition safeStart (p : Plugin) (start : W -> outcome (option error) * W) (lg : Logger)
    (w : W) : option error * W := recovered lg "plugin start panic" p (start w).

(* go: internal/runtime/plugin_chain.go:235-244 (safeStop) *)
Definition safeStop (p : Plugin) (stop : W -> outcome (option error) * W) (lg : Logger)
    (w : W) : option error * W := recovered lg "plugin stop panic" p (stop w).

(** Closing a list of plugins, first to last. *)
Fixpoint close_list (ps : list Plugin) (lg : Logger) (sess : Sess) (w : W) : W :=
  match ps with
  | [] => w
  | p :: ps' => close_list ps' lg sess (safeClose p lg sess w)
  end.

(** Stopping the lifecycle plugins of a list, first to last, joining errors. *)
Fixpoint stop_list (ps : list Plugin) (lg : Logger) (err : option error) (w : W) :
    option error * W :=
  match ps with
  | [] => (err, w)
  | p :: ps' =>
      match p_lifecycle p with
      | None => stop_list ps' lg err w
      | Some (_, stop) =>
          let (e, w') := safeStop p stop lg w in
          stop_list ps' lg (errors_Join [err; e]) w'
      end
  end.

(** [started] is kept most recent first, the order of the rollback. *)
(* go: internal/runtime/plugin_chain.go:104-124 (StartAll) *)
Fixpoint start_loop (started rest : list Plugin) (lg : Logger) (w : W) : option error * W :=
  match rest with
  | [] => (None, w)
  | p :: rest' =>
      match p_lifecycle p with
      | None => start_loop started rest' lg w
      | Some (start, _) =>
          match safeStart p start lg w with
          | (Some err, w1) =>
              let (rollbackErr, w2) := stop_list started lg None w1 in
              (errors_Join [Some (ErrWrap (p_Name p) err); rollbackErr], w2)
          | (None, w1) => start_loop (p :: started) rest' lg w1
          end
      end
  end.

(* go: internal/runtime/plugin_chain.go:95-124 (StartAll) *)
Definition StartAll (v : pluginView) (w : W) : option error * W :=
  start_loop [] (plugins v) (logger v) w.

(* go: internal/runtime/plugin_chain.go:126-139 (StopAll) *)
Definition StopAll (v : pluginView) (w : W) : option error * W :=
  stop_list (rev (plugins v)) (logger v) None w.

(** [accepted] is kept most recent first, the order of the rollback. *)
(* go: internal/runtime/plugin_chain.go:150-173 (OnAccept) *)
Fixpoint accept_loop (accepted rest : list Plugin) (lg : Logger) (sess : Sess) (w : W) :
    option error * W :=
  match rest with
  | [] => (None, w)
  | p :: rest' =>
      match p_OnAccept p sess w with
      | (Returned None, w1) => accept_loop (p :: accepted) rest' lg sess w1
      | (Returned (Some err), w1) => (Some err, close_list accepted lg sess w1)
      | (Panicked, w1) =>
          (Some ErrPluginPanic,
           close_list accepted lg sess (lg "plugin accept panic" (p_Name p) w1))
      end
  end.

(* go: internal/runtime/plugin_chain.go:141-174 (OnAccept) *)
Definition OnAccept (v : pluginView) (sess : Sess) (w : W) : option error * W :=
  accept_loop [] (plugins v) (logger v) sess w.

(* go: internal/runtime/plugin_chain.go:194-202 (OnMessage) *)
Fixpoint message_loop (rest : list Plugin) (lg : Logger) (sess : Sess) (out : bytes) (w : W) :
    (bytes * option error) * W :=
  match rest with
  | [] => ((out, None), w)
  | p :: rest' =>
      match p_OnMessage p sess out w with
      | (Returned (out', None), w1) => message_loop rest' lg sess out' w1
      | (Returned (_, Some e), w1) => (([], Some e), w1)
      | (Panicked, w1) => (([], Some ErrPluginPanic), lg "plugin message panic" (p_Name p) w1)
      end
  end.

(* go: internal/runtime/plugin_chain.go:176-203 (OnMessage) *)
Definition OnMessage (v : pluginView) (sess : Sess) (data : bytes) (w : W) :
    (bytes * option error) * W :=
  message_loop (plugins v) (logger v) sess data w.

(* go: internal/runtime/plugin_chain.go:205-210 (OnClose) *)
Definition OnClose (v : pluginView) (sess : Sess) (w : W) : W :=
  close_list (rev (plugins v)) (logger v) sess w.

(** ** The order of the chain *)

(** Priorities whose differences fit in 64 bits. *)
Definition small_priority (p : Plugin) : Prop := - 2 ^ 62 <= p_Priority p < 2 ^ 62.

Lemma cmp_priority_lt a b :
  small_priority a -> small_priority b ->
  (cmp_priority a b <? 0) = (p_Priority a <? p_Priority b).
Proof.
  unfold small_priority, cmp_priority. intros Ha Hb.
  rewrite i64_small; [lia|]. unfold in_i64, min_int64, max_int64. lia.
Qed.

Lemma insert_back_perm cmp x rp : insert_back cmp x rp ≡ₚ x :: rp.
Proof.
  induction rp as [|y rp IH]; simpl; [done|]. destruct (_ <? 0); [|done].
  rewrite IH. apply Permutation_swap.
Qed.

Lemma sort_fold_perm cmp l rp :
  fold_left (fun rp x => insert_back cmp x rp) l rp ≡ₚ l ++ rp.
Proof.
  revert rp. induction l as [|x l IH]; intros rp; simpl; [done|].
  rewrite IH, insert_back_perm. by rewrite Permutation_middle.
Qed.

Lemma SortStableFunc_perm cmp l : SortStableFunc cmp l ≡ₚ l.
Proof. unfold SortStableFunc. by rewrite <- Permutation_rev, sort_fold_perm, app_nil_r. Qed.

(** Priorities descend along the reversed prefix. *)
Definition desc (rp : list Plugin) : Prop :=
  StronglySorted (fun a b => p_Priority b <= p_Priority a) rp.

Lemma insert_back_desc x rp :
  small_priority x -> Forall small_priority rp -> desc rp ->
  desc (insert_back cmp_priority x rp).
Proof.
  unfold desc. intros Hx Hrp. induction rp as [|y rp IH]; simpl; intros Hd.
  { by repeat constructor. }
  apply Forall_cons in Hrp as [Hy Hrp]. inversion Hd as [|? ? Hs Hall]; subst.
  rewrite cmp_priority_lt by done. destruct (_ <? _) eqn:E; breflect.
  - constructor; [by apply IH|]. rewrite insert_back_perm. constructor; [lia|done].
  - constructor; [done|]. constructor; [lia|].
    eapply Forall_impl; [exact Hall|]. simpl. lia.
Qed.

Lemma StronglySorted_rev_desc rp :
  desc rp -> StronglySorted (fun a b => p_Priority a <= p_Priority b) (rev rp).
Proof.
  unfold desc. induction 1 as [|x rp Hs IH Hall]; simpl; [constructor|].
  clear Hs. rewrite <- (app_nil_r (rev rp ++ [x])), <- app_assoc.
  assert (Forall (fun y => p_Priority y <= p_Priority x) (rev rp)) as Hr
    by (by apply Forall_rev).
  revert Hr IH. generalize (rev rp). intros l. induction l as [|y l IHl]; intros Hr Hs; simpl.
  { by repeat constructor. }
  apply Forall_cons in Hr as [Hy Hr]. inversion Hs; subst. constructor; [by apply IHl|].
  apply Forall_app. split; [done|]. by repeat constructor.
Qed.

Lemma sort_fold_desc l rp :
  Forall small_priority l -> Forall small_priority rp -> desc rp ->
  desc (fold_left (fun rp x => insert_back cmp_priority x rp) l rp).
Proof.
  revert rp. induction l as [|x l IH]; intros rp Hl Hrp Hd; simpl; [done|].
  apply Forall_cons in Hl as [Hx Hl]. apply IH; [done| |by apply insert_back_desc].
  rewrite insert_back_perm. by constructor.
Qed.

(** Elements of one priority keep their relative order. *)
Definition with_priority (k : Z) : list Plugin -> list Plugin :=
  List.filter (fun p => p_Priority p =? k).

Lemma insert_back_stable k x rp :
  small_priority x -> Forall small_priority rp -> desc rp ->
  with_priority k (insert_back cmp_priority x rp) = with_priority k (x :: rp).
Proof.
  unfold desc. intros Hx Hrp. induction rp as [|y rp IH]; intros Hd; [done|].
  apply Forall_cons in Hrp as [Hy Hrp]. inversion Hd as [|? ? Hs Hall]; subst.
  cbn [insert_back]. rewrite cmp_priority_lt by done.
  destruct (_ <? _) eqn:E; breflect; [|done].
  unfold with_priority in *. cbn [List.filter] in *. rewrite IH by done.
  destruct (p_Priority x =? k) eqn:Ex, (p_Priority y =? k) eqn:Ey; breflect; try done; lia.
Qed.

Lemma with_priority_app k l l' :
  with_priority k (l ++ l') = with_priority k l ++ with_priority k l'.
Proof. apply List.filter_app. Qed.

Lemma sort_fold_stable k l rp :
  Forall small_priority l -> Forall small_priority rp -> desc rp ->
  with_priority k (fold_left (fun rp x => insert_back cmp_priority x rp) l rp)
    = with_priority k (rev l ++ rp).
Proof.
  revert rp. induction l as [|x l IH]; intros rp Hl Hrp Hd; simpl; [done|].
  apply Forall_cons in Hl as [Hx Hl].
  assert (Forall small_priority (insert_back cmp_priority x rp))
    by (rewrite insert_back_perm; by constructor).
  rewrite IH; [|done|done|by apply insert_back_desc].
  rewrite <- app_assoc, 2!(with_priority_app _ (rev l)). f_equal.
  by apply insert_back_stable.
Qed.

Lemma with_priority_rev k l : with_priority k (rev l) = rev (with_priority k l).
Proof.
  induction l as [|x l IH]; [done|]. cbn [rev].
  rewrite with_priority_app, IH. unfold with_priority. simpl.
  destruct (_ =? _); simpl; [done|apply app_nil_r].
Qed.
End chain.

Arguments Plugin : clear implicits.
Arguments pluginView : clear implicits.

(** ** Plugins that record the calls they receive and what they answered *)

Inductive event : Type :=
| EvAccept (name : string) (answer : outcome (option error))
| EvMessage (name : string) (data : bytes) (answer : outcome (bytes * option error))
| EvClose (name : string) (answer : outcome unit)
| EvStart (name : string) (answer : outcome (option error))
| EvStop (name : string) (answer : outcome (option error)).

(** What an answer means to the chain: a panic counts as [ErrPluginPanic]. *)
Definition verdict (r : outcome (option error)) : option error :=
  match r with Returned e => e | Panicked => Some ErrPluginPanic end.

Section traces.
Context {W Sess : Type}.
Implicit Types (p : Plugin W Sess) (ps acc rest : list (Plugin W Sess)).

Definition recording {A} (ev : A -> event) (f : W -> A * W) (wt : W * list event) :
    A * (W * list event) :=
  let (a, w') := f wt.1 in (a, (w', wt.2 ++ [ev a])).

(** Any plugin, instrumented: same behaviour, plus a trace. *)
Definition traced p : Plugin (W * list event) Sess := {|
  p_Name := p_Name p;
  p_Priority := p_Priority p;
  p_OnAccept s := recording (EvAccept (p_Name p)) (p_OnAccept p s);
  p_OnMessage s b := recording (EvMessage (p_Name p) b) (p_OnMessage p s b);
  p_OnClose s := recording (EvClose (p_Name p)) (p_OnClose p s);
  p_lifecycle := match p_lifecycle p with
    | None => None
    | Some (start, stop) =>
        Some (recording (EvStart (p_Name p)) start, recording (EvStop (p_Name p)) stop)
    end |}.

(** A logger that does not call plugins. *)
Definition quiet (lg : string -> string -> W -> W) (msg name : string) (wt : W * list event) :
  W * list event := (lg msg name wt.1, wt.2).

Definition traced_view (ps : list (Plugin W Sess)) lg : pluginView (W * list event) Sess :=
  mkView (map traced ps) (quiet lg).

(** Calls to the plugins of a list, in order, that were all answered with nil. *)
Definition accepts ps := map (fun p => EvAccept (p_Name p) (Returned None)) ps.
Definition lifecycles ps := List.filter (fun p => match p_lifecycle p with Some _ => true | None => false end) ps.
Definition starts ps := map (fun p => EvStart (p_Name p) (Returned None)) (lifecycles ps).

(** One call per plugin of a list, in order, with its answer. *)
Definition closes ps (rs : list (outcome unit)) := zip_with (fun p => EvClose (p_Name p)) ps rs.
Definition stops ps (rs : list (outcome (option error))) :=
  zip_with (fun p => EvStop (p_Name p)) (lifecycles ps) rs.

(** The messages the plugins of a list exchange: each gets what the one before it returned. *)
Fixpoint passed ps (data : bytes) (outs : list bytes) : list event :=
  match ps, outs with
  | p :: ps, out :: outs => EvMessage (p_Name p) data (Returned (out, None)) :: passed ps out outs
  | _, _ => []
  end.

(** All failures of a list of stops, joined. *)
Definition join_all (e : option error) (rs : list (outcome (option error))) : option error :=
  fold_left (fun e r => errors_Join [e; verdict r]) rs e.

Lemma lifecycles_cons p ps start stop :
  p_lifecycle p = Some (start, stop) -> lifecycles (p :: ps) = p :: lifecycles ps.
Proof. intros E. unfold lifecycles. cbn [List.filter]. by rewrite E. Qed.

Lemma lifecycles_passive p ps : p_lifecycle p = None -> lifecycles (p :: ps) = lifecycles ps.
Proof. intros E. unfold lifecycles. cbn [List.filter]. by rewrite E. Qed.

Lemma lifecycles_app ps ps' : lifecycles (ps ++ ps') = lifecycles ps ++ lifecycles ps'.
Proof. apply List.filter_app. Qed.

Lemma close_list_trace ps lg s w t :
  exists rs, length rs = length ps /\
    (close_list (map traced ps) (quiet lg) s (w, t)).2 = t ++ closes ps rs.
Proof.
  revert w t. induction ps as [|p ps IH]; intros w t; simpl; [exists []; by rewrite app_nil_r|].
  unfold safeClose. simpl. unfold recording. simpl.
  destruct (p_OnClose p s w) as [r w1]; simpl.
  assert (forall w2, exists rs, length rs = S (length ps) /\
    (close_list (map traced ps) (quiet lg) s (w2, t ++ [EvClose (p_Name p) r])).2
    = t ++ closes (p :: ps) rs) as H.
  { intros w2. destruct (IH w2 (t ++ [EvClose (p_Name p) r])) as (rs & Hl & ->).
    exists (r :: rs). split; [by cbn; rewrite Hl|]. by rewrite <- app_assoc. }
  destruct r; apply H.
Qed.

(** The answer that ends an admission, and the answers to the closes it causes. *)
Definition accept_refused acc rest t err t' : Prop :=
  exists pre p post out rs, rest = pre ++ p :: post /\ verdict out = err /\ err <> None /\
    length rs = length (rev pre ++ acc) /\
    t' = t ++ accepts pre ++ [EvAccept (p_Name p) out] ++ closes (rev pre ++ acc) rs.

Lemma accept_loop_trace acc rest lg s w t err w' t' :
  accept_loop (map traced acc) (map traced rest) (quiet lg) s (w, t) = (err, (w', t')) ->
  (err = None /\ t' = t ++ accepts rest) \/ accept_refused acc rest t err t'.
Proof.
  revert acc w t. induction rest as [|p rest IH]; intros acc w t; simpl.
  { intros [= <- <- <-]. left. by rewrite app_nil_r. }
  unfold recording at 1. simpl.
  assert (forall w2 out, verdict out <> None ->
    (verdict out, close_list (map traced acc) (quiet lg) s (w2, t ++ [EvAccept (p_Name p) out])) = (err, (w', t')) ->
    accept_refused acc (p :: rest) t err t') as Href.
  { intros w2 out Hout [= <- E]. destruct (close_list_trace acc lg s w2 (t ++ [EvAccept (p_Name p) out])) as (rs & Hl & Ht).
    exists [], p, rest, out, rs. rewrite E in Ht. cbn [snd] in Ht. split_and!; [done..|]. by rewrite Ht, <- app_assoc. }
  destruct (p_OnAccept p s w) as [[[e|]|] w1]; simpl.
  - intros H. right. by apply (Href w1 (Returned (Some e))).
  - intros H. apply (IH (p :: acc)) in H as [[-> ->]|(pre & q & post & out & rs & -> & Hv & He & Hl & ->)].
    + left. by rewrite <- app_assoc.
    + right. exists (p :: pre), q, post, out, rs. cbn [rev]. rewrite <- !app_assoc. split_and!; done.
  - intros H. right. by apply (Href (lg "plugin accept panic" (p_Name p) w1) Panicked).
Qed.

Lemma List_last_cons {A} (b : A) outs d : List.last (b :: outs) d = List.last outs b.
Proof.
  revert b d. induction outs as [|o outs IH]; intros b d; [done|].
  change (List.last (b :: o :: outs) d) with (List.last (o :: outs) d). by rewrite !IH.
Qed.

Lemma message_loop_trace rest lg s data w t out err w' t' :
  message_loop (map traced rest) (quiet lg) s data (w, t) = ((out, err), (w', t')) ->
  (err = None /\ exists outs, length outs = length rest /\ out = List.last outs data /\
     t' = t ++ passed rest data outs) \/
  (exists pre p post outs ans, rest = pre ++ p :: post /\ length outs = length pre /\
     err = match ans with Returned (_, e) => e | Panicked => Some ErrPluginPanic end /\ err <> None /\ out = [] /\
     t' = t ++ passed pre data outs ++ [EvMessage (p_Name p) (List.last outs data) ans]).
Proof.
  revert data w t. induction rest as [|p rest IH]; intros data w t; simpl.
  { intros [= <- <- <- <-]. left. split; [done|]. exists []. by rewrite app_nil_r. }
  unfold recording at 1. simpl.
  destruct (p_OnMessage p s data w) as [[[b [e|]]|] w1]; simpl.
  - intros [= <- <- <- <-]. right. by exists [], p, rest, [], (Returned (b, Some e)).
  - pose proof (fun outs => List_last_cons b outs data) as Hlast.
    intros H. apply IH in H as [[-> (outs & Hl & -> & ->)]|(pre & q & post & outs & ans & -> & Hl & -> & He & -> & ->)].
    + left. split; [done|]. exists (b :: outs). rewrite Hlast. split; [by cbn; rewrite Hl|]. split; [done|]. by rewrite <- app_assoc.
    + right. exists (p :: pre), q, post, (b :: outs), ans. rewrite Hlast. split_and!; [done|by cbn; rewrite Hl|done..|]. by rewrite <- app_assoc.
  - intros [= <- <- <- <-]. right. by exists [], p, rest, [], Panicked.
Qed.

Lemma stop_list_trace ps lg e w t :
  exists rs, length rs = length (lifecycles ps) /\
    (stop_list (map traced ps) (quiet lg) e (w, t)).1 = join_all e rs /\
    (stop_list (map traced ps) (quiet lg) e (w, t)).2.2 = t ++ stops ps rs.
Proof.
  unfold stops. revert e w t.
  induction ps as [|p ps IH]; intros e w t; simpl; [exists []; by rewrite app_nil_r|].
  destruct (p_lifecycle p) as [[start stop]|]; [|by apply IH].
  unfold safeStop, recording. simpl. destruct (stop w) as [r w1].
  assert (forall w2, exists rs, length rs = S (length (lifecycles ps)) /\
    (stop_list (map traced ps) (quiet lg) (errors_Join [e; verdict r]) (w2, t ++ [EvStop (p_Name p) r])).1 = join_all e rs /\
    (stop_list (map traced ps) (quiet lg) (errors_Join [e; verdict r]) (w2, t ++ [EvStop (p_Name p) r])).2.2
    = t ++ zip_with (fun p => EvStop (p_Name p)) (p :: lifecycles ps) rs) as H.
  { intros w2. destruct (IH (errors_Join [e; verdict r]) w2 (t ++ [EvStop (p_Name p) r])) as (rs & Hl & -> & ->).
    exists (r :: rs). split; [by cbn; rewrite Hl|]. split; [done|]. by rewrite <- app_assoc. }
  destruct r; apply H.
Qed.

(** How a start fails: the plugins before the failing one had started and are stopped. *)
Definition start_failed acc rest t err t' : Prop :=
  exists pre p post out cause rs, rest = pre ++ p :: post /\ is_Some (p_lifecycle p) /\ verdict out = Some cause /\
    length rs = length (lifecycles (rev pre ++ acc)) /\
    t' = t ++ starts pre ++ [EvStart (p_Name p) out] ++ stops (rev pre ++ acc) rs /\
    err = errors_Join [Some (ErrWrap (p_Name p) cause); join_all None rs].

Lemma start_failed_passive acc rest p t err t' :
  p_lifecycle p = None -> start_failed acc rest t err t' -> start_failed acc (p :: rest) t err t'.
Proof.
  intros Ep (pre & q & post & out & cause & rs & -> & Hq & Hv & Hl & -> & ->).
  assert (lifecycles (rev (p :: pre) ++ acc) = lifecycles (rev pre ++ acc)) as El.
  { cbn [rev]. rewrite <- app_assoc, !lifecycles_app. cbn [app]. by rewrite lifecycles_passive. }
  exists (p :: pre), q, post, out, cause, rs. unfold starts, stops in *. rewrite El, lifecycles_passive by done. by split_and!.
Qed.

Lemma start_loop_trace acc rest lg w t err w' t' :
  start_loop (map traced acc) (map traced rest) (quiet lg) (w, t) = (err, (w', t')) ->
  (err = None /\ t' = t ++ starts rest) \/ start_failed acc rest t err t'.
Proof.
  revert acc w t. induction rest as [|p rest IH]; intros acc w t; simpl.
  { intros [= <- <- <-]. left. by rewrite app_nil_r. }
  destruct (p_lifecycle p) as [[start stop]|] eqn:Elc; simpl.
  2: { intros H. apply (IH acc) in H as [[-> ->]|H].
    - left. unfold starts. by rewrite lifecycles_passive.
    - right. by apply start_failed_passive. }
  unfold safeStart, recording. simpl. destruct (start w) as [out w1].
  assert (forall w2 cause, verdict out = Some cause ->
    (let (rollbackErr, w3) := stop_list (map traced acc) (quiet lg) None (w2, t ++ [EvStart (p_Name p) out]) in
     (errors_Join [Some (ErrWrap (p_Name p) cause); rollbackErr], w3)) = (err, (w', t')) ->
    start_failed acc (p :: rest) t err t') as Hfail.
  { intros w2 cause Hv. destruct (stop_list_trace acc lg None w2 (t ++ [EvStart (p_Name p) out])) as (rs & Hl & He & Ht).
    destruct (stop_list _ _ _ _) as [rb [w3 t3]]. cbn [fst snd] in *. intros [= <- <- <-].
    exists [], p, rest, out, cause, rs. split_and!; [done|by eexists|done|done| |by rewrite He]. by rewrite Ht, <- app_assoc. }
  destruct out as [[cause|]|]; simpl.
  - intros H. right. by apply (Hfail w1 cause).
  - intros H. apply (IH (p :: acc)) in H as [[-> ->]|(pre & q & post & out & cause & rs & -> & Hq & Hv & Hl & -> & ->)];
      unfold starts in *; rewrite (lifecycles_cons p _ start stop) by done.
    + left. by rewrite <- app_assoc.
    + right. exists (p :: pre), q, post, out, cause, rs. cbn [rev]. unfold starts. rewrite (lifecycles_cons p pre start stop) by done.
      rewrite <- !app_assoc. by split_and!.
  - intros H. right. by apply (Hfail (lg "plugin start panic" (p_Name p) w1) ErrPluginPanic).
Qed.
End traces.

(** ** Properties *)

(** Sample plugins for the witnesses: a world that counts callbacks. *)
Definition sample (name : string) (prio : Z) (accept : outcome (option error))
    (start : outcome (option error)) : Plugin nat unit := {|
  p_Name := name; p_Priority := prio;
  p_OnAccept _ w := (accept, S w);
  p_OnMessage _ b w := (Returned (b ++ [prio], None), S w);
  p_OnClose _ w := (Panicked, S w);
  p_lifecycle := Some (fun w => (start, S w), fun w => (Returned (Some ErrClosed), S w)) |}.

(** Append keeps the chain in priority order: the new chain is a
    permutation of the old plugins and the appended non-nil ones, priorities
    ascend along it, and plugins of equal priority stay in append order. *)
Theorem append_sorted_stable {W Sess} (ps : list (option (Plugin W Sess))) (cur : pluginView W Sess) :
  Forall small_priority (plugins cur ++ omap id ps) ->
  let next := plugins (Append ps cur) in
  next ≡ₚ plugins cur ++ omap id ps /\
  StronglySorted (fun a b => p_Priority a <= p_Priority b) next /\
  (forall k, with_priority k next = with_priority k (plugins cur ++ omap id ps)).
Proof.
  intros Hsm. cbn zeta. unfold Append. cbn [plugins]. split; [apply SortStableFunc_perm|].
  unfold SortStableFunc. split.
  - apply StronglySorted_rev_desc, sort_fold_desc; [done|done|constructor].
  - intros k. rewrite with_priority_rev, sort_fold_stable; [|done|done|constructor].
    by rewrite app_nil_r, with_priority_rev, rev_involutive.
Qed.

Lemma append_sorted_stable_witness :
  map p_Name (plugins (Append
    [Some (sample "c" 20 (Returned None) (Returned None)); None;
     Some (sample "a" 10 (Returned None) (Returned None));
     Some (sample "b" 20 (Returned None) (Returned None))] (NewPluginChain [])))
  ≡ₚ ["c"; "a"; "b"].
Proof.
  rewrite (proj1 (append_sorted_stable
    [Some (sample "c" 20 (Returned None) (Returned None)); None;
     Some (sample "a" 10 (Returned None) (Returned None));
     Some (sample "b" 20 (Returned None) (Returned None))] (NewPluginChain [])
    ltac:(repeat constructor; simpl; lia))).
  done.
Defined.

(** The comparison subtracts priorities in 64-bit arithmetic, so two
    priorities more than 2^63 apart are ordered backwards: a plugin with the
    largest priority runs before one with priority -2. *)
Theorem append_overflow_misorders {W Sess} (p q : Plugin W Sess) lg :
  p_Priority p = max_int64 -> p_Priority q = -2 ->
  plugins (Append [Some q; Some p] (mkView [] lg)) = [p; q].
Proof.
  intros Hp Hq. unfold Append, SortStableFunc. cbn [plugins app omap list_omap id fold_left].
  simpl. unfold cmp_priority. by rewrite Hp, Hq.
Qed.

Lemma append_overflow_misorders_witness :
  PluginNames (Append [Some (sample "q" (-2) (Returned None) (Returned None));
                       Some (sample "p" max_int64 (Returned None) (Returned None))]
                 (mkView [] NopLogger)) = ["p"; "q"].
Proof.
  unfold PluginNames. rewrite append_overflow_misorders by done. done.
Defined.

(** C3: OnAccept is all or nothing. Either it returns nil, and every plugin of
    the chain was asked once, in order, and answered nil; or it returns the error of
    the first plugin that refused, ErrPluginPanic for one that panicked: those before
    it had all accepted, no later plugin is asked, and exactly the plugins that had
    accepted are closed, once each in reverse order, whatever their OnClose does. *)
Theorem onAccept_rollback {W Sess} (ps : list (Plugin W Sess)) lg s w err w' t :
  OnAccept (traced_view ps lg) s (w, []) = (err, (w', t)) ->
  (err = None /\ t = accepts ps) \/
  (exists pre p post answer rs, ps = pre ++ p :: post /\
     verdict answer = err /\ err <> None /\ length rs = length pre /\
     t = accepts pre ++ [EvAccept (p_Name p) answer] ++ closes (rev pre) rs).
Proof.
  unfold OnAccept. intros H. apply (accept_loop_trace []) in H as [[-> ->]|H]; [by left|].
  right. destruct H as (pre & p & post & out & rs & -> & Hv & He & Hl & ->). exists pre, p, post, out, rs.
  rewrite app_nil_r in *. rewrite length_rev in Hl. by split_and!.
Qed.

Lemma onAccept_rollback_witness :
  exists pre p post answer rs,
    [sample "a" 1 (Returned None) (Returned None); sample "b" 2 (Returned (Some ErrClosed)) (Returned None);
     sample "c" 3 (Returned None) (Returned None)] = pre ++ p :: post /\ verdict answer = Some ErrClosed /\
    [EvAccept "a" (Returned None); EvAccept "b" (Returned (Some ErrClosed)); EvClose "a" Panicked]
    = accepts pre ++ [EvAccept (p_Name p) answer] ++ closes (rev pre) rs.
Proof.
  destruct (onAccept_rollback
    [sample "a" 1 (Returned None) (Returned None); sample "b" 2 (Returned (Some ErrClosed)) (Returned None);
     sample "c" 3 (Returned None) (Returned None)] NopLogger tt 0%nat
    (Some ErrClosed) 3%nat [EvAccept "a" (Returned None); EvAccept "b" (Returned (Some ErrClosed)); EvClose "a" Panicked]
    ltac:(by vm_compute)) as [[H _]|(pre & p & post & out & rs & H1 & H2 & _ & _ & H3)]; [done|by exists pre, p, post, out, rs].
Defined.

(** OnMessage passes the data through the plugins in order, each getting what the
    one before it returned, and returns what the last one did; it stops at the first
    error or panic, which it returns with no data, and no later plugin is called. *)
Theorem onMessage_short_circuit {W Sess} (ps : list (Plugin W Sess)) lg s data w out err w' t :
  OnMessage (traced_view ps lg) s data (w, []) = ((out, err), (w', t)) ->
  (err = None /\ exists outs, length outs = length ps /\ out = List.last outs data /\ t = passed ps data outs) \/
  (exists pre p post outs answer, ps = pre ++ p :: post /\ length outs = length pre /\
     err = match answer with Returned (_, e) => e | Panicked => Some ErrPluginPanic end /\ err <> None /\ out = [] /\
     t = passed pre data outs ++ [EvMessage (p_Name p) (List.last outs data) answer]).
Proof. intros H. by apply message_loop_trace in H. Qed.

Lemma onMessage_short_circuit_witness :
  exists outs, [9; 1; 2] = List.last outs [9] /\
    [EvMessage "a" [9] (Returned ([9; 1], None)); EvMessage "b" [9; 1] (Returned ([9; 1; 2], None))]
    = passed [sample "a" 1 (Returned None) (Returned None); sample "b" 2 Panicked (Returned None)] [9] outs.
Proof.
  destruct (onMessage_short_circuit
    [sample "a" 1 (Returned None) (Returned None); sample "b" 2 Panicked (Returned None)]
    NopLogger tt [9] 0%nat [9; 1; 2] None 2%nat
    [EvMessage "a" [9] (Returned ([9; 1], None)); EvMessage "b" [9; 1] (Returned ([9; 1; 2], None))]
    ltac:(by vm_compute)) as [[_ (outs & _ & H1 & H2)]|(? & ? & ? & ? & ? & _ & _ & _ & _ & H & _)]; [by exists outs|done].
Defined.

(** OnClose reaches every plugin exactly once, in reverse priority order,
    whatever panics on the way. *)
Theorem onClose_reaches_all {W Sess} (ps : list (Plugin W Sess)) lg s w :
  exists rs, length rs = length ps /\ (OnClose (traced_view ps lg) s (w, [])).2 = closes (rev ps) rs.
Proof.
  unfold OnClose, traced_view. cbn [plugins logger]. rewrite <- map_rev.
  destruct (close_list_trace (rev ps) lg s w []) as (rs & Hl & ->). exists rs. by rewrite length_rev in Hl.
Qed.

(** C4: StartAll is all or nothing. Either it returns nil, and every lifecycle
    plugin was started once, in the chain's order, and answered nil; or it returns
    the cause of the first that failed (ErrPluginPanic for a panic) wrapped in that
    plugin's name, joined with the failures of the rollback: those before it had all
    started and are stopped, once each in reverse order, whatever their Stop does,
    and neither the failing plugin nor any after it is. *)
Theorem startAll_rollback {W Sess} (ps : list (Plugin W Sess)) lg w err w' t :
  StartAll (traced_view ps lg) (w, []) = (err, (w', t)) ->
  (err = None /\ t = starts ps) \/
  (exists pre p post answer cause rs, ps = pre ++ p :: post /\ is_Some (p_lifecycle p) /\
     verdict answer = Some cause /\ length rs = length (lifecycles (rev pre)) /\
     t = starts pre ++ [EvStart (p_Name p) answer] ++ stops (rev pre) rs /\
     err = errors_Join [Some (ErrWrap (p_Name p) cause); join_all None rs]).
Proof.
  unfold StartAll. intros H. apply (start_loop_trace []) in H as [[-> ->]|H]; [by left|].
  right. destruct H as (pre & p & post & out & cause & rs & H). exists pre, p, post, out, cause, rs.
  by rewrite app_nil_r in H.
Qed.

Lemma startAll_rollback_witness :
  exists pre p post answer rs,
    [sample "a" 1 (Returned None) (Returned None); sample "b" 2 (Returned None) Panicked;
     sample "c" 3 (Returned None) (Returned None)] = pre ++ p :: post /\
    [EvStart "a" (Returned None); EvStart "b" Panicked; EvStop "a" (Returned (Some ErrClosed))]
    = starts pre ++ [EvStart (p_Name p) answer] ++ stops (rev pre) rs.
Proof.
  destruct (startAll_rollback
    [sample "a" 1 (Returned None) (Returned None); sample "b" 2 (Returned None) Panicked;
     sample "c" 3 (Returned None) (Returned None)] NopLogger 0%nat
    (Some (ErrJoin [ErrWrap "b" ErrPluginPanic; ErrJoin [ErrClosed]])) 3%nat
    [EvStart "a" (Returned None); EvStart "b" Panicked; EvStop "a" (Returned (Some ErrClosed))]
    ltac:(by vm_compute)) as [[H _]|(pre & p & post & out & c & rs & H1 & _ & _ & _ & H2 & _)]; [done|by exists pre, p, post, out, rs].
Defined.

Lemma join_all_None e rs : join_all e rs = None -> e = None /\ Forall (fun a => a = Returned None) rs.
Proof.
  revert e. induction rs as [|r rs IH]; intros e H; [done|]. apply IH in H as [H Hrs].
  apply errors_Join_None in H. apply Forall_cons in H as [<- [H _]%Forall_cons].
  split; [done|]. constructor; [by destruct r as [[?|]|]|done].
Qed.

(** StopAll stops every lifecycle plugin once, in reverse order of the chain,
    continuing past failures and panics, and returns all failures joined: nil only
    when every Stop returned nil. *)
Theorem stopAll_complete {W Sess} (ps : list (Plugin W Sess)) lg w :
  let r := StopAll (traced_view ps lg) (w, []) in
  exists rs, length rs = length (lifecycles (rev ps)) /\ r.2.2 = stops (rev ps) rs /\
    r.1 = join_all None rs /\ (r.1 = None -> Forall (fun a => a = Returned None) rs).
Proof.
  cbn zeta. unfold StopAll, traced_view. cbn [plugins logger]. rewrite <- map_rev.
  destruct (stop_list_trace (rev ps) lg None w []) as (rs & Hl & He & Ht). exists rs. split_and!; [done|done|done|].
  rewrite He. apply join_all_None.
Qed.
