(* ===== verification/Gateway.v ===== *)
(** * Gateway: [internal/runtime/gateway.go]

    The gateway owns the servers, starts them behind the plugin chain and shuts
    everything down in stages.  Servers, the admin listener and the clock are
    parameters; the plugin chain and the session manager enter through the
    [RuntimeOps] interface, which PluginChain's StartAll/StopAll and
    SessionManager's CloseAll provide. *)
From S2P Require Import Prelude Bytes Core.
Local Open Scope string_scope.
Local Open Scope Z_scope.
Local Open Scope list_scope.

(** A context carries its deadline (nanoseconds), when it has one. *)
Record Ctx : Type := mkCtx { deadline : option Z }.
Definition Background : Ctx := mkCtx None.

(** [context.WithTimeout]: never later than the parent's deadline. *)
Definition WithTimeout (parent : Ctx) (now timeout : Z) : Ctx :=
  let d := now + timeout in
  mkCtx (Some (match deadline parent with Some d' => Z.min d' d | None => d end)).

(* go: internal/core/observability.go:162-167 (StageTimeouts) *)
Record StageTimeouts : Type := mkTimeouts {
  to_StopAccept : Z;
  to_Drain : Z;
  to_CloseSessions : Z;
  to_Finalize : Z
}.

Section gateway.
Context {W : Type}.
(** The clock, read when a stage starts. *)
Variable now : W -> Z.

Abbreviation action := (W -> option error * W).
Abbreviation stage := (Ctx -> W -> option error * W).

(* go: internal/core/server.go:5-50 (Server) *)
Record Server : Type := mkServer {
  srv_Protocol : Protocol;
  srv_UseRuntime : option (W -> W);
  srv_Start : stage;
  srv_Stop : stage;
  srv_staged : option (stage * stage * stage)
}.

(** The runtime the gateway injects: the plugin chain's StartAll and StopAll
    and the session manager's CloseAll. *)
Record RuntimeOps : Type := mkRuntimeOps {
  rt_StartAll : action;
  rt_StopAll : action;
  rt_CloseAll : stage
}.

(** The admin listener, when an address is configured. *)
Record AdminOps : Type := mkAdminOps { admin_start : action; admin_stop : stage }.

(* go: internal/runtime/gateway.go:13-28 (Gateway) *)
Record Gateway : Type := mkGateway {
  servers : gmap Protocol Server;
  order : list Protocol;
  rt : RuntimeOps;
  timeouts : StageTimeouts;
  adminCfg : option AdminOps;
  admin : option AdminOps;
  startedAt : option Z;
  started : bool
}.

Definition set_started (b : bool) (g : Gateway) : Gateway :=
  mkGateway (servers g) (order g) (rt g) (timeouts g) (adminCfg g) (admin g) (startedAt g) b.
Definition set_startedAt (t : option Z) (g : Gateway) : Gateway :=
  mkGateway (servers g) (order g) (rt g) (timeouts g) (adminCfg g) (admin g) t (started g).
Definition set_admin (a : option AdminOps) (g : Gateway) : Gateway :=
  mkGateway (servers g) (order g) (rt g) (timeouts g) (adminCfg g) a (startedAt g) (started g).

(* go: internal/runtime/gateway.go:61-79 (Register) *)
Definition Register (server : option Server) (g : Gateway) : option error * Gateway :=
  match server with
  | None => (Some ErrNoServers, g)
  | Some srv =>
      if started g then (Some (ErrMsg "gateway: cannot register after Start"), g)
      else
        let proto := srv_Protocol srv in
        match servers g !! proto with
        | Some _ => (Some ErrDuplicateProtocol, g)
        | None =>
            (None, mkGateway (<[proto := srv]> (servers g)) (order g ++ [proto]) (rt g)
                     (timeouts g) (adminCfg g) (admin g) (startedAt g) (started g))
        end
  end.

(* go: internal/runtime/gateway.go:249-257 (snapshot) *)
Definition snapshot (g : Gateway) : list Server := omap (fun p => servers g !! p) (order g).

(* go: internal/runtime/gateway.go:243-247 (Protocols) *)
Definition Protocols (g : Gateway) : list Protocol := order g.

(* go: internal/runtime/gateway.go:239-241 (Ready) *)
Definition Ready (g : Gateway) : bool := started g.

(* go: internal/runtime/gateway.go:259-267 (runStage) *)
Definition runStage (parent : Ctx) (timeout : Z) (fn : stage) (w : W) : option error * W :=
  let ctx := if 0 <? timeout then WithTimeout parent (now w) timeout else parent in
  fn ctx w.

(** The servers of the list, first to last, stopped under one context. *)
Fixpoint stop_servers (ctx : Ctx) (l : list Server) (w : W) : W :=
  match l with
  | [] => w
  | srv :: l' => stop_servers ctx l' (srv_Stop srv ctx w).2
  end.

(** [started] is kept most recent first; stop errors are logged only. *)
(* go: internal/runtime/gateway.go:132-147 (rollbackStart) *)
Definition rollbackStart (g : Gateway) (started : list Server) (w : W) : W :=
  let ctx := WithTimeout Background (now w) (to_Finalize (timeouts g)) in
  (rt_StopAll (rt g) (stop_servers ctx started w)).2.

Fixpoint use_runtime (l : list Server) (w : W) : W :=
  match l with
  | [] => w
  | srv :: l' => use_runtime l' (match srv_UseRuntime srv with Some f => f w | None => w end)
  end.

(** Starts the servers in order; the servers started so far are returned,
    most recent first, with the first error. *)
(* go: internal/runtime/gateway.go:107-115 (Start) *)
Fixpoint start_servers (ctx : Ctx) (l started : list Server) (w : W) :
    option error * list Server * W :=
  match l with
  | [] => (None, started, w)
  | srv :: l' =>
      match srv_Start srv ctx w with
      | (Some err, w') => (Some err, started, w')
      | (None, w') => start_servers ctx l' (srv :: started) w'
      end
  end.

(* go: internal/runtime/gateway.go:85-130 (Start) *)
Definition Start (ctx : Ctx) (g : Gateway) (w : W) : option error * Gateway * W :=
  if started g then (Some (ErrMsg "gateway: already started"), g, w)
  else match snapshot g with
  | [] => (Some ErrNoServers, g, w)
  | srvs =>
      let w1 := use_runtime srvs w in
      match rt_StartAll (rt g) w1 with
      | (Some err, w2) => (Some err, g, w2)
      | (None, w2) =>
          match start_servers ctx srvs [] w2 with
          | (Some err, st, w3) => (Some err, g, rollbackStart g st w3)
          | (None, st, w3) =>
              match adminCfg g with
              | None => (None, set_started true (set_startedAt (Some (now w3)) g), w3)
              | Some adm =>
                  match admin_start adm w3 with
                  | (Some err, w4) => (Some err, g, rollbackStart g st w4)
                  | (None, w4) =>
                      (None, set_started true (set_startedAt (Some (now w4))
                               (set_admin (Some adm) g)), w4)
                  end
              end
          end
      end
  end.

(** One stage over every server of the list, keeping the first error. *)
Fixpoint stage_all (run : Server -> action) (l : list Server) (firstErr : option error) (w : W) :
    option error * W :=
  match l with
  | [] => (firstErr, w)
  | srv :: l' =>
      let (err, w') := run srv w in
      stage_all run l' (keep_first firstErr err) w'
  end.

(* go: internal/runtime/gateway.go:160-166 (Stop) *)
Definition run_stop_accept (g : Gateway) (ctx : Ctx) (srv : Server) : action := fun w =>
  match srv_staged srv with
  | Some (sa, _, _) => runStage ctx (to_StopAccept (timeouts g)) sa w
  | None => (None, w)
  end.

(* go: internal/runtime/gateway.go:167-173 (Stop) *)
Definition run_drain (g : Gateway) (ctx : Ctx) (srv : Server) : action := fun w =>
  match srv_staged srv with
  | Some (_, dr, _) => runStage ctx (to_Drain (timeouts g)) dr w
  | None => (None, w)
  end.

(* go: internal/runtime/gateway.go:174-189 (Stop) *)
Definition run_close (g : Gateway) (ctx : Ctx) (srv : Server) : action := fun w =>
  match srv_staged srv with
  | Some (_, _, cs) => runStage ctx (to_CloseSessions (timeouts g)) cs w
  | None => runStage ctx (to_CloseSessions (timeouts g)) (srv_Stop srv) w
  end.

(* go: internal/runtime/gateway.go:149-218 (Stop) *)
Definition Stop (ctx : Ctx) (g0 : Gateway) (w : W) : option error * Gateway * W :=
  let g := set_started false g0 in
  let srvs := snapshot g in
  let (e1, w1) := stage_all (run_stop_accept g ctx) srvs None w in
  let (e2, w2) := stage_all (run_drain g ctx) srvs e1 w1 in
  let (e3, w3) := stage_all (run_close g ctx) srvs e2 w2 in
  let (err4, w4) := runStage ctx (to_CloseSessions (timeouts g)) (rt_CloseAll (rt g)) w3 in
  let (err5, w5) := rt_StopAll (rt g) w4 in
  let e5 := keep_first (keep_first e3 err4) err5 in
  let g' := set_startedAt None g in
  match admin g' with
  | None => (e5, g', w5)
  | Some adm =>
      let (err6, w6) := admin_stop adm ctx w5 in
      (keep_first e5 err6, g', w6)
  end.

(** The health report: started flag and, while started, the start time. *)
(* go: internal/runtime/gateway.go:220-237 (Health) *)
Definition Health (g : Gateway) : bool * option Z * list Protocol :=
  (started g, if started g then startedAt g else None, Protocols g).

(** ** Well-formed gateways *)

(** The order lists each registered protocol once, and each server under the
    protocol it reports. *)
Definition gateway_ok (g : Gateway) : Prop :=
  NoDup (order g) /\
  (forall p, p ∈ order g <-> is_Some (servers g !! p)) /\
  map_Forall (fun p srv => srv_Protocol srv = p) (servers g).

Lemma Register_ok server g : gateway_ok g -> gateway_ok (Register server g).2.
Proof.
  intros (Hnd & Hdom & Hproto). destruct server as [srv|]; [|done]. simpl.
  destruct (started g); [done|].
  destruct (servers g !! srv_Protocol srv) eqn:E; [done|]. simpl. split; [|split].
  - apply NoDup_app. split; [done|]. split; [|apply NoDup_singleton].
    intros p Hp ->%list_elem_of_singleton. apply Hdom in Hp as [? ?]. congruence.
  - intros p. simpl. rewrite elem_of_app, list_elem_of_singleton, Hdom.
    destruct (decide (p = srv_Protocol srv)) as [->|Hne].
    + rewrite lookup_insert_eq. split; eauto.
    + rewrite lookup_insert_ne by done. split; [|auto]. by intros [?|?].
  - intros p s. simpl. destruct (decide (p = srv_Protocol srv)) as [->|Hne].
    + rewrite lookup_insert_eq. congruence.
    + rewrite lookup_insert_ne by done. apply Hproto.
Qed.

Lemma snapshot_protocols g : gateway_ok g -> map srv_Protocol (snapshot g) = order g.
Proof.
  intros (_ & Hdom & Hproto). unfold snapshot.
  assert (Forall (fun p => is_Some (servers g !! p)) (order g)) as HF
    by (apply Forall_forall; intros p Hp; by apply Hdom).
  clear Hdom. induction HF as [|p l [srv Hs] _ IH]; [done|]. simpl. rewrite Hs. simpl.
  f_equal; [by apply Hproto|exact IH].
Qed.
End gateway.

Arguments Server : clear implicits.
Arguments RuntimeOps : clear implicits.
Arguments AdminOps : clear implicits.
Arguments Gateway : clear implicits.

(** ** Recording what the gateway calls *)

Inductive gevent : Type :=
| GUseRuntime (p : Protocol)
| GStart (p : Protocol)
| GStop (p : Protocol)
| GStopAccept (p : Protocol)
| GDrain (p : Protocol)
| GCloseSessions (p : Protocol)
| GPluginsStart
| GPluginsStop
| GCloseAll
| GAdminStart
| GAdminStop.

#[export] Instance gevent_eq_dec : EqDecision gevent.
Proof. solve_decision. Defined.

(** A trace of calls with the error each returned. *)
Abbreviation gtrace := (list (gevent * option error)).

Definition first_error (l : list (option error)) : option error := fold_left keep_first l None.

Lemma first_error_acc l e : fold_left keep_first l e = keep_first e (first_error l).
Proof.
  unfold first_error. revert e. induction l as [|x l IH]; intros e; simpl; [by destruct e|].
  rewrite IH, (IH x). by destruct e, x.
Qed.

Lemma first_error_cons e l : first_error (e :: l) = keep_first e (first_error l).
Proof. unfold first_error at 1. simpl. by rewrite first_error_acc. Qed.

Lemma first_error_app l k :
  first_error (l ++ k) = keep_first (first_error l) (first_error k).
Proof. unfold first_error at 1. rewrite fold_left_app. by rewrite first_error_acc. Qed.

Section traces.
Context {W : Type} (now : W -> Z).
Implicit Types (g : Gateway W) (srv : Server W).

Definition recg (ev : gevent) (f : W -> option error * W) (wt : W * gtrace) :
    option error * (W * gtrace) :=
  let (r, w') := f wt.1 in (r, (w', wt.2 ++ [(ev, r)])).

Definition recs (ev : gevent) (f : Ctx -> W -> option error * W) (ctx : Ctx) :=
  recg ev (f ctx).

Definition traced_server srv : Server (W * gtrace) :=
  let p := srv_Protocol srv in {|
  srv_Protocol := p;
  srv_UseRuntime := match srv_UseRuntime srv with
    | Some f => Some (fun wt => (f wt.1, wt.2 ++ [(GUseRuntime p, None)]))
    | None => None end;
  srv_Start := recs (GStart p) (srv_Start srv);
  srv_Stop := recs (GStop p) (srv_Stop srv);
  srv_staged := match srv_staged srv with
    | Some (sa, dr, cs) =>
        Some (recs (GStopAccept p) sa, recs (GDrain p) dr, recs (GCloseSessions p) cs)
    | None => None end |}.

Definition traced_admin (a : AdminOps W) : AdminOps (W * gtrace) :=
  mkAdminOps (recg GAdminStart (admin_start a)) (recs GAdminStop (admin_stop a)).

Definition traced_gateway g : Gateway (W * gtrace) := {|
  servers := traced_server <$> servers g;
  order := order g;
  rt := mkRuntimeOps (recg GPluginsStart (rt_StartAll (rt g)))
          (recg GPluginsStop (rt_StopAll (rt g))) (recs GCloseAll (rt_CloseAll (rt g)));
  timeouts := timeouts g;
  adminCfg := traced_admin <$> adminCfg g;
  admin := traced_admin <$> admin g;
  startedAt := startedAt g;
  started := started g |}.

Definition nowt (wt : W * gtrace) : Z := now wt.1.

(** The calls expected of each phase. *)
Definition uses (l : list (Server W)) : list gevent :=
  omap (fun s => match srv_UseRuntime s with
                 | Some _ => Some (GUseRuntime (srv_Protocol s)) | None => None end) l.
Definition gstarts (l : list (Server W)) : list gevent := map (fun s => GStart (srv_Protocol s)) l.
Definition gstops (l : list (Server W)) : list gevent := map (fun s => GStop (srv_Protocol s)) l.
Definition staged_only (ev : Protocol -> gevent) (l : list (Server W)) : list gevent :=
  omap (fun s => match srv_staged s with
                 | Some _ => Some (ev (srv_Protocol s)) | None => None end) l.
Definition closings (l : list (Server W)) : list gevent :=
  map (fun s => match srv_staged s with
                | Some _ => GCloseSessions (srv_Protocol s)
                | None => GStop (srv_Protocol s) end) l.
Definition opt_event {A} (ev : gevent) (o : option A) : list gevent :=
  match o with Some _ => [ev] | None => [] end.

Lemma snapshot_traced g : snapshot (traced_gateway g) = map traced_server (snapshot g).
Proof.
  unfold snapshot, traced_gateway. cbn [servers order].
  induction (order g) as [|p l IH]; [done|]. simpl. rewrite lookup_fmap.
  destruct (servers g !! p); simpl; [by f_equal|done].
Qed.

(** Calls that all returned nil. *)
Definition ok (l : list gevent) : gtrace := map (fun e => (e, None)) l.

Lemma ok_app l l' : ok (l ++ l') = ok l ++ ok l'.
Proof. apply map_app. Qed.

Lemma use_runtime_trace l w t :
  (use_runtime (map traced_server l) (w, t)).2 = t ++ ok (uses l).
Proof.
  revert w t. induction l as [|s l IH]; intros w t; simpl; [by rewrite app_nil_r|].
  destruct (srv_UseRuntime s); rewrite IH; [|done]. by rewrite <- app_assoc.
Qed.

Lemma stop_servers_trace ctx l w t :
  exists rb, (stop_servers ctx (map traced_server l) (w, t)).2 = t ++ rb /\ rb.*1 = gstops l.
Proof.
  revert w t. induction l as [|s l IH]; intros w t; simpl; [exists []; by rewrite app_nil_r|].
  unfold recs, recg. simpl. destruct (srv_Stop s ctx w) as [r w1]. simpl.
  destruct (IH w1 (t ++ [(GStop (srv_Protocol s), r)])) as (rb & -> & E).
  exists ((GStop (srv_Protocol s), r) :: rb). rewrite <- app_assoc. split; [done|]. csimpl. by rewrite E.
Qed.

Lemma rollback_trace g l w t :
  exists rb, (rollbackStart nowt (traced_gateway g) (map traced_server l) (w, t)).2 = t ++ rb /\
    rb.*1 = gstops l ++ [GPluginsStop].
Proof.
  unfold rollbackStart. simpl. unfold recg. set (ctx := WithTimeout _ _ _).
  destruct (stop_servers_trace ctx l w t) as (rb & Ht & E).
  destruct (stop_servers _ _ _) as [w1 t1]. simpl in *. subst t1.
  destruct (rt_StopAll (rt g) w1) as [r w2]. simpl. exists (rb ++ [(GPluginsStop, r)]).
  rewrite <- app_assoc. split; [done|]. by rewrite fmap_app, E.
Qed.

Lemma start_servers_trace ctx l acc w t :
  match start_servers ctx (map traced_server l) (map traced_server acc) (w, t) with
  | (None, st, (w', t')) =>
      st = map traced_server (rev l ++ acc) /\ t' = t ++ ok (gstarts l)
  | (Some err, st, (w', t')) =>
      exists pre s post, l = pre ++ s :: post /\ st = map traced_server (rev pre ++ acc) /\
        t' = t ++ ok (gstarts pre) ++ [(GStart (srv_Protocol s), Some err)]
  end.
Proof.
  revert acc w t. induction l as [|s l IH]; intros acc w t; simpl; [by rewrite app_nil_r|].
  unfold recs, recg. simpl. destruct (srv_Start s ctx w) as [[err|] w1]; simpl; [by exists [], s, l|].
  specialize (IH (s :: acc) w1 (t ++ [(GStart (srv_Protocol s), None)])). simpl in IH.
  destruct (start_servers _ _ _ _) as [[[err|] st] [w' t']].
  - destruct IH as (pre & s' & post & -> & -> & ->). exists (s :: pre), s', post.
    cbn [rev]. rewrite <- !app_assoc. done.
  - destruct IH as [-> ->]. cbn [rev]. rewrite <- !app_assoc. done.
Qed.

(** A stage that makes at most one call per server. *)
Lemma stage_all_trace run (ev : Server W -> option gevent) l e w t :
  (forall s w t, exists w1 r, run (traced_server s) (w, t) =
     (match ev s with Some _ => r | None => None end,
      (w1, t ++ match ev s with Some x => [(x, r)] | None => [] end))) ->
  exists w' t', stage_all run (map traced_server l) e (w, t)
    = (keep_first e (first_error t'.*2), (w', t ++ t')) /\ t'.*1 = omap ev l.
Proof.
  intros Hrun. revert e w t. induction l as [|s l IH]; intros e w t; simpl.
  { exists w, []. rewrite app_nil_r. by destruct e. }
  destruct (Hrun s w t) as (w1 & r & ->).
  destruct (IH (keep_first e (match ev s with Some _ => r | None => None end)) w1
    (t ++ match ev s with Some x => [(x, r)] | None => [] end)) as (w' & t' & -> & Ht').
  destruct (ev s) as [x|] eqn:Ev; rewrite ?Ev; cbn [omap list_omap].
  - exists w', ((x, r) :: t'). rewrite <- app_assoc. split.
    + f_equal. cbn [fmap list_fmap map snd]. rewrite first_error_cons. by destruct e, r.
    + csimpl. by rewrite Ht'.
  - exists w', t'. rewrite app_nil_r. split; [by destruct e|]. done.
Qed.

Lemma run_stop_accept_traced g ctx s w t : exists w1 r,
  run_stop_accept nowt (traced_gateway g) ctx (traced_server s) (w, t) =
  (match (match srv_staged s with Some _ => Some (GStopAccept (srv_Protocol s)) | None => None end)
     with Some _ => r | None => None end,
   (w1, t ++ match (match srv_staged s with
              | Some _ => Some (GStopAccept (srv_Protocol s)) | None => None end)
     with Some x => [(x, r)] | None => [] end)).
Proof.
  unfold run_stop_accept, runStage. simpl.
  destruct (srv_staged s) as [[[sa dr] cs]|]; simpl; [|exists w, None; by rewrite app_nil_r].
  unfold recs, recg. simpl.
  match goal with |- context [sa ?c w] => destruct (sa c w) as [r w1] end. by exists w1, r.
Qed.

Lemma run_drain_traced g ctx s w t : exists w1 r,
  run_drain nowt (traced_gateway g) ctx (traced_server s) (w, t) =
  (match (match srv_staged s with Some _ => Some (GDrain (srv_Protocol s)) | None => None end)
     with Some _ => r | None => None end,
   (w1, t ++ match (match srv_staged s with
              | Some _ => Some (GDrain (srv_Protocol s)) | None => None end)
     with Some x => [(x, r)] | None => [] end)).
Proof.
  unfold run_drain, runStage. simpl.
  destruct (srv_staged s) as [[[sa dr] cs]|]; simpl; [|exists w, None; by rewrite app_nil_r].
  unfold recs, recg. simpl.
  match goal with |- context [dr ?c w] => destruct (dr c w) as [r w1] end. by exists w1, r.
Qed.

Lemma run_close_traced g ctx s w t : exists w1 r,
  run_close nowt (traced_gateway g) ctx (traced_server s) (w, t) =
  (r, (w1, t ++ [(match srv_staged s with
     | Some _ => GCloseSessions (srv_Protocol s) | None => GStop (srv_Protocol s) end, r)])).
Proof.
  unfold run_close, runStage. simpl.
  destruct (srv_staged s) as [[[sa dr] cs]|]; simpl.
  - unfold recs, recg. simpl.
    match goal with |- context [cs ?c w] => destruct (cs c w) as [r w1] end. by exists w1, r.
  - unfold recs, recg. simpl.
    match goal with |- context [srv_Stop s ?c w] => destruct (srv_Stop s c w) as [r w1] end.
    by exists w1, r.
Qed.
End traces.

(** ** Properties *)

(** C5: Start is all or nothing. Either it returns nil, the gateway is ready, and
    the calls were UseRuntime for each configurable server, the plugins, the servers
    in registration order and the admin listener last, all of which returned nil. Or
    it returns the error of the first call that failed, unchanged, and the gateway is
    as it was: a failure of the plugins ends it before any server; after one of a
    server or of the admin listener every server that had started is stopped once, in
    reverse order, and then the plugins are, whatever the stops return; the failing
    server and those after it are not touched. *)
Theorem start_all_or_nothing {W} (now : W -> Z) ctx (g : Gateway W) w err g' w' t :
  started g = false -> snapshot g <> [] ->
  Start (nowt now) ctx (traced_gateway g) (w, []) = (err, g', (w', t)) ->
  let srvs := snapshot g in
  let begun := uses srvs ++ [GPluginsStart] in
  (err = None /\ Ready g' = true /\ t = ok (begun ++ gstarts srvs ++ opt_event GAdminStart (adminCfg g))) \/
  (exists e, err = Some e /\ g' = traced_gateway g /\ Ready g' = false /\
   (t = ok (uses srvs) ++ [(GPluginsStart, Some e)] \/
    (exists pre s post stops, srvs = pre ++ s :: post /\
      t = ok (begun ++ gstarts pre) ++ [(GStart (srv_Protocol s), Some e)] ++ stops /\
      stops.*1 = gstops (rev pre) ++ [GPluginsStop]) \/
    (exists stops, is_Some (adminCfg g) /\
      t = ok (begun ++ gstarts srvs) ++ [(GAdminStart, Some e)] ++ stops /\
      stops.*1 = gstops (rev srvs) ++ [GPluginsStop]))).
Proof.
  intros Hst Hne. cbn zeta. rewrite !ok_app. unfold Start. cbn [traced_gateway started rt adminCfg]. rewrite Hst.
  rewrite snapshot_traced. pose proof (use_runtime_trace (snapshot g) w []) as Hu.
  destruct (map traced_server (snapshot g)) as [|ts tl] eqn:Emap.
  { by destruct (snapshot g). }
  rewrite <- Emap in *. clear ts tl Emap.
  destruct (use_runtime _ _) as [w1 t1]. cbn [snd app] in Hu. subst t1.
  cbn [rt_StartAll]. unfold recg at 1. cbn [fst snd].
  destruct (rt_StartAll (rt g) w1) as [[e|] w2].
  { intros [= <- <- <- <-]. right. exists e. split_and!; [done..|]. by left. }
  pose proof (start_servers_trace ctx (snapshot g) [] w2 (ok (uses (snapshot g)) ++ [(GPluginsStart, None)])) as Hs.
  cbn [map] in Hs. destruct (start_servers _ _ _ _) as [[[e|] st] [w3 t3]].
  - destruct Hs as (pre & s & post & Heq & -> & ->). rewrite app_nil_r. cbn [fst snd].
    match goal with |- context [rollbackStart _ _ _ (w3, ?t)] =>
      destruct (rollback_trace now g (rev pre) w3 t) as (rb & Hr & Hrb) end.
    destruct (rollbackStart _ _ _ _) as [w4 t4]. intros [= <- <- <- <-]. cbn [snd] in Hr. subst t4.
    right. exists e. split_and!; [done..|]. right; left. exists pre, s, post, rb.
    split_and!; [done| |done]. by rewrite ?ok_app, <- !app_assoc.
  - destruct Hs as [-> ->]. rewrite app_nil_r. destruct (adminCfg g) as [adm|]; simpl.
    2: { intros [= <- <- <- <-]. left. rewrite app_nil_r, <- !app_assoc. done. }
    unfold recg. simpl. destruct (admin_start adm w3) as [[e|] w4].
    + match goal with |- context [rollbackStart _ _ _ (w4, ?t)] =>
        destruct (rollback_trace now g (rev (snapshot g)) w4 t) as (rb & Hr & Hrb) end.
      destruct (rollbackStart _ _ _ _) as [w5 t5] eqn:E. intros [= <- <- <- <-].
      cbn [snd] in Hr. subst t5. right. exists e. split_and!; [done..|]. right; right. exists rb.
      split_and!; [by eexists| |done]. by rewrite ?ok_app, <- !app_assoc.
    + intros [= <- <- <- <-]. left. split_and!; [done..|]. by rewrite ?ok_app, <- !app_assoc.
Qed.

(** C7: Stop runs the shutdown in stages, whatever fails on the way: every
    staged server stops accepting before any drains, all drain before any
    session is closed, then the remaining sessions, the plugins and last the
    admin listener; each call is made exactly once, the returned error is the
    first one any of them reported, and the gateway is not ready afterwards. *)
Theorem stop_stages {W} (now : W -> Z) ctx (g : Gateway W) w :
  let '(err, g', (_, t)) := Stop (nowt now) ctx (traced_gateway g) (w, []) in
  let srvs := snapshot g in
  t.*1 = staged_only GStopAccept srvs ++ staged_only GDrain srvs ++ closings srvs
         ++ [GCloseAll; GPluginsStop] ++ opt_event GAdminStop (admin g) /\
  err = first_error t.*2 /\ Ready g' = false.
Proof.
  unfold Stop. change (set_started false (traced_gateway g)) with (traced_gateway (set_started false g)).
  rewrite snapshot_traced. change (snapshot (set_started false g)) with (snapshot g).
  set (tg := traced_gateway (set_started false g)).
  destruct (stage_all_trace (run_stop_accept (nowt now) tg ctx)
    (fun s => match srv_staged s with Some _ => Some (GStopAccept (srv_Protocol s)) | None => None end)
    (snapshot g) None w []) as (w1 & t1 & -> & Ht1).
  { apply run_stop_accept_traced. }
  destruct (stage_all_trace (run_drain (nowt now) tg ctx)
    (fun s => match srv_staged s with Some _ => Some (GDrain (srv_Protocol s)) | None => None end)
    (snapshot g) (keep_first None (first_error t1.*2)) w1 ([] ++ t1)) as (w2 & t2 & -> & Ht2).
  { apply run_drain_traced. }
  destruct (stage_all_trace (run_close (nowt now) tg ctx)
    (fun s => Some (match srv_staged s with
       | Some _ => GCloseSessions (srv_Protocol s) | None => GStop (srv_Protocol s) end))
    (snapshot g) (keep_first (keep_first None (first_error t1.*2)) (first_error t2.*2))
    w2 (([] ++ t1) ++ t2)) as (w3 & t3 & -> & Ht3).
  { apply run_close_traced. }
  unfold runStage, tg. cbn [traced_gateway set_started rt rt_CloseAll rt_StopAll set_startedAt admin].
  unfold recs, recg. cbn [fst snd].
  match goal with |- context [rt_CloseAll (rt g) ?c w3] =>
    destruct (rt_CloseAll (rt g) c w3) as [e4 w4] end.
  cbn [fst snd]. destruct (rt_StopAll (rt g) w4) as [e5 w5].
  assert (omap (fun s => Some (match srv_staged s with
       | Some _ => GCloseSessions (srv_Protocol s) | None => GStop (srv_Protocol s) end))
       (snapshot g) = closings (snapshot g)) as Hcl.
  { unfold closings. clear. induction (snapshot g) as [|s l IH]; [done|]. simpl. by f_equal. }
  rewrite Hcl in Ht3.
  destruct (admin g) as [adm|]; cbn [fmap option_fmap option_map traced_admin admin_stop].
  - unfold recs, recg. cbn [fst snd]. destruct (admin_stop adm ctx w5) as [e6 w6].
    cbn beta iota zeta.
    split; [|split; [|done]].
    + rewrite !fmap_app, Ht1, Ht2, Ht3. cbn [app]. by rewrite <- !app_assoc.
    + rewrite !fmap_app, !first_error_app. unfold first_error. simpl.
      by destruct (fold_left _ t1.*2 _), (fold_left _ t2.*2 _), (fold_left _ t3.*2 _), e4, e5.
  - cbn beta iota zeta. split; [|split; [|done]].
    + rewrite !fmap_app, Ht1, Ht2, Ht3. cbn [app]. by rewrite <- !app_assoc.
    + rewrite !fmap_app, !first_error_app. unfold first_error. simpl.
      by destruct (fold_left _ t1.*2 _), (fold_left _ t2.*2 _), (fold_left _ t3.*2 _), e4, e5.
Qed.

(** A stage never outlives its parent: the context a stage runs under
    expires no later than the caller's, and no later than the stage timeout. *)
Theorem stage_deadline {W} (now : W -> Z) parent timeout (fn : Ctx -> W -> option error * W) w :
  exists ctx, runStage now parent timeout fn w = fn ctx w /\
    (forall d, deadline parent = Some d -> exists d', deadline ctx = Some d' /\ d' <= d) /\
    (0 < timeout -> exists d', deadline ctx = Some d' /\ d' <= now w + timeout).
Proof.
  unfold runStage. eexists. split; [done|]. destruct (0 <? timeout) eqn:E; breflect.
  - unfold WithTimeout. destruct parent as [[d|]]; simpl; split; intros; simplify_eq/=;
      eexists; (split; [done|lia]).
  - split; [eauto with lia|lia].
Qed.

(** Registering a list of servers on a fresh gateway. *)
Definition register_all {W} (l : list (Server W)) (g : Gateway W) : Gateway W :=
  fold_left (fun g s => (Register (Some s) g).2) l g.

(** The registry holds one server per protocol in registration order: after
    any registrations on a well-formed gateway the protocols are duplicate-free,
    the snapshot a Start or Stop works on is exactly one server per listed
    protocol, and a second server for a taken protocol is refused. *)
Theorem registry_one_per_protocol {W} (l : list (Server W)) (g : Gateway W) :
  gateway_ok g -> started g = false ->
  let g' := register_all l g in
  NoDup (Protocols g') /\ map srv_Protocol (snapshot g') = Protocols g' /\
  (forall s, srv_Protocol s ∈ Protocols g' ->
     Register (Some s) g' = (Some ErrDuplicateProtocol, g')).
Proof.
  intros Hok Hst. cbn zeta.
  assert (gateway_ok (register_all l g) /\ started (register_all l g) = false) as [Hok' Hst'].
  { unfold register_all. revert g Hok Hst. induction l as [|s l IH]; intros g Hok Hst; [done|].
    apply IH; [by apply Register_ok|]. simpl. rewrite Hst. by destruct (servers g !! _). }
  split; [apply Hok'|]. split; [by apply snapshot_protocols|].
  intros s Hs. simpl. rewrite Hst'. apply Hok' in Hs as [s' ->]. done.
Qed.

(** ** Witnesses *)

Definition demo_server (p : Protocol) (start : option error) (staged : bool) : Server unit :=
  mkServer p (Some (fun w => w)) (fun _ w => (start, w)) (fun _ w => (Some ErrClosed, w))
    (if staged then Some ((fun _ w => (None, w)), (fun _ w => (Some ErrServerClosed, w)),
       (fun _ w => (None, w))) else None).

Definition demo_gateway : Gateway unit :=
  mkGateway ∅ [] (mkRuntimeOps (fun w => (None, w)) (fun w => (None, w)) (fun _ w => (None, w)))
    (mkTimeouts 1 1 1 1) None None None false.

Definition demo_failing : Gateway unit :=
  register_all [demo_server ProtocolTCP None true;
                demo_server ProtocolUDP (Some ErrInvalidArgument) false] demo_gateway.

Lemma demo_gateway_ok : gateway_ok demo_gateway.
Proof.
  split; [constructor|]. split; [|done]. intros p. simpl. rewrite lookup_empty.
  split; [inversion 1|by intros [? ?]].
Qed.

Lemma start_all_or_nothing_witness :
  exists pre s post stops, snapshot demo_failing = pre ++ s :: post /\
  (Start (nowt (fun _ => 0)) Background (traced_gateway demo_failing) (tt, [])).2.2
  = ok ((uses (snapshot demo_failing) ++ [GPluginsStart]) ++ gstarts pre)
    ++ [(GStart (srv_Protocol s), Some ErrInvalidArgument)] ++ stops /\
  stops.*1 = gstops (rev pre) ++ [GPluginsStop].
Proof.
  destruct (start_all_or_nothing (fun _ => 0) Background demo_failing tt
    (Some ErrInvalidArgument) _ tt _ eq_refl ltac:(done) eq_refl)
    as [(H & _)|(e & [= <-] & _ & _ & [H|[(pre & s & post & stops & H)|(stops & [? H] & _)]])];
    [done|by vm_compute in H|by exists pre, s, post, stops|by vm_compute in H].
Defined.

Lemma registry_one_per_protocol_witness :
  Register (Some (demo_server ProtocolTCP None false)) demo_failing
    = (Some ErrDuplicateProtocol, demo_failing).
Proof.
  apply (registry_one_per_protocol
    [demo_server ProtocolTCP None true; demo_server ProtocolUDP (Some ErrInvalidArgument) false]
    demo_gateway demo_gateway_ok eq_refl).
  apply elem_of_list_In || apply list_elem_of_In. by left.
Defined.
