(* ===== verification/PeerAddr.v ===== *)
(** * PeerAddr: peer identities of [internal/transport/shared]

    [netip.Addr] and [net.IP] as the admission code uses them, the canonical
    form the per-peer quota keys on (quota.go) and the comparable key of a
    datagram peer (peerkey.go). *)
From S2P Require Import Prelude Bytes.
Local Open Scope string_scope.
Local Open Scope Z_scope.
Local Open Scope list_scope.

(** ** Addresses *)

(** [netip.Addr]: the zero Addr, an IPv4 address, or an IPv6 address (IPv4-in-6
    included) with its zone. *)
Inductive Addr : Type :=
| AddrInvalid
| Addr4 (b : bytes)
| Addr6 (b : bytes) (zone : string).

#[export] Instance Addr_eq_dec : EqDecision Addr.
Proof. solve_decision. Defined.
#[export] Instance Addr_countable : Countable Addr.
Proof.
  apply (inj_countable'
    (fun a => match a with
      | AddrInvalid => inl tt
      | Addr4 b => inr (inl b)
      | Addr6 b z => inr (inr (b, z)) end)
    (fun x => match x with
      | inl _ => AddrInvalid
      | inr (inl b) => Addr4 b
      | inr (inr (b, z)) => Addr6 b z end)).
  by intros [].
Defined.

Definition v4_prefix : bytes := replicate 10 0 ++ [255; 255].

Definition IsValid (a : Addr) : bool := match a with AddrInvalid => false | _ => true end.

(** [Addr.As16] *)
Definition As16 (a : Addr) : bytes :=
  match a with
  | AddrInvalid => replicate 16 0
  | Addr4 b => v4_prefix ++ b
  | Addr6 b _ => b
  end.

(** [Addr.Unmap]: an IPv4-mapped IPv6 address becomes the IPv4 address. *)
Definition Unmap (a : Addr) : Addr :=
  match a with
  | Addr6 b _ => if decide (take 12 b = v4_prefix) then Addr4 (drop 12 b) else a
  | _ => a
  end.

(** [Addr.WithZone]: no effect on an IPv4 address. *)
Definition WithZone (a : Addr) (zone : string) : Addr :=
  match a with
  | Addr6 b _ => Addr6 b zone
  | _ => a
  end.

(** [netip.AddrFromSlice] *)
Definition AddrFromSlice (b : bytes) : option Addr :=
  if (length b =? 4)%nat then Some (Addr4 b)
  else if (length b =? 16)%nat then Some (Addr6 b "")
  else None.

(* go: internal/transport/shared/quota.go:197-206 (normalise) *)
Definition normalise (ip : Addr) (zone : string) : Addr :=
  if negb (IsValid ip) then AddrInvalid
  else
    let ip := Unmap ip in
    if String.eqb zone "" then ip else WithZone ip zone.

Lemma normalise_mapped b zone z : normalise (Addr6 (v4_prefix ++ b) z) zone = Addr4 b.
Proof.
  unfold normalise. cbn [IsValid negb].
  assert (Unmap (Addr6 (v4_prefix ++ b) z) = Addr4 b) as ->.
  { unfold Unmap. by rewrite decide_True. }
  by destruct (String.eqb zone "").
Qed.

Lemma AddrFromSlice_v4 b : length b = 4%nat -> AddrFromSlice b = Some (Addr4 b).
Proof. intros Hb. unfold AddrFromSlice. by rewrite Hb. Qed.

Lemma AddrFromSlice_mapped b :
  length b = 4%nat -> AddrFromSlice (v4_prefix ++ b) = Some (Addr6 (v4_prefix ++ b) "").
Proof. intros Hb. unfold AddrFromSlice. by rewrite length_app, Hb. Qed.

(** The address types of package net, and any other implementation, which is
    known by its string form only. *)
Inductive NetAddr : Type :=
| TCPAddr (ip : bytes) (port : Z) (zone : string)
| UDPAddr (ip : bytes) (port : Z) (zone : string)
| IPAddr (ip : bytes) (zone : string)
| NilAddr
| OtherAddr (text : string).

(** [AddrPort().Addr()] of a TCP or UDP address. *)
Definition addrPort_Addr (ip : bytes) (zone : string) : Addr :=
  match AddrFromSlice ip with
  | Some a => WithZone a zone
  | None => AddrInvalid
  end.

Definition addr_zone (a : Addr) : string := match a with Addr6 _ z => z | _ => "" end.

Section peerip.
(** [netip.ParseAddrPort] (its address part) and [netip.ParseAddr]. *)
Variable ParseAddrPort ParseAddr : string -> option Addr.

(* go: internal/transport/shared/quota.go:180-195 (PeerIPString) *)
Definition PeerIPString (remote : string) : Addr :=
  match ParseAddrPort remote with
  | Some ap => normalise ap ""
  | None =>
      match ParseAddr remote with
      | Some ip => normalise ip ""
      | None => AddrInvalid
      end
  end.

(* go: internal/transport/shared/quota.go:147-178 (PeerIP) *)
Definition PeerIP (addr : NetAddr) : Addr :=
  match addr with
  | TCPAddr ip _ zone | UDPAddr ip _ zone => normalise (addrPort_Addr ip zone) zone
  | IPAddr b zone =>
      match AddrFromSlice b with
      | None => AddrInvalid
      | Some ip => normalise ip zone
      end
  | NilAddr => AddrInvalid
  | OtherAddr text =>
      match ParseAddrPort text with
      | Some ap => normalise ap (addr_zone ap)
      | None => PeerIPString text
      end
  end.

(** A peer cannot escape its per-peer allowance by switching between the
    IPv4 and the IPv4-mapped IPv6 form of its address: both give one quota key,
    whatever the port and whichever socket type reports it. *)
Theorem peerIP_canonical b port port' zone zone' :
  length b = 4%nat ->
  PeerIP (TCPAddr b port zone) = Addr4 b /\
  PeerIP (TCPAddr (v4_prefix ++ b) port' zone') = Addr4 b /\
  PeerIP (UDPAddr (v4_prefix ++ b) port' zone') = Addr4 b /\
  PeerIP (IPAddr (v4_prefix ++ b) zone') = Addr4 b.
Proof.
  intros Hb. unfold PeerIP, addrPort_Addr.
  rewrite AddrFromSlice_v4, AddrFromSlice_mapped by done. cbn [WithZone].
  rewrite !normalise_mapped. unfold normalise. simpl. by destruct (String.eqb zone "").
Qed.
End peerip.

Lemma peerIP_canonical_witness :
  PeerIP (fun _ => None) (fun _ => None) (TCPAddr (v4_prefix ++ [10; 0; 0; 1]) 80 "eth0")
    = Addr4 [10; 0; 0; 1].
Proof.
  apply (peerIP_canonical (fun _ => None) (fun _ => None) [10; 0; 0; 1] 1 80 "" "eth0").
  reflexivity.
Defined.

(** ** Datagram peer keys *)

(* go: internal/transport/shared/peerkey.go:21-28 (PeerKey) *)
Record PeerKey : Type := mkPeerKey {
  pk_addr : bytes;
  pk_port : Z;
  pk_zone : string
}.

#[export] Instance PeerKey_eq_dec : EqDecision PeerKey.
Proof. solve_decision. Defined.

Definition zero_key : PeerKey := mkPeerKey (replicate 16 0) 0 "".

(** [net.IP.To16]: nil unless the slice has 4 or 16 bytes. *)
Definition To16 (ip : bytes) : bytes :=
  if (length ip =? 4)%nat then v4_prefix ++ ip
  else if (length ip =? 16)%nat then ip
  else [].

(** [copy(dst[:], src)] into a fresh 16-byte array. *)
Definition copy16 (src : bytes) : bytes := take 16 (src ++ drop (length src) (replicate 16 0)).

(* go: internal/transport/shared/peerkey.go:30-44 (NewPeerKey) *)
Definition NewPeerKey (addr : option (bytes * Z * string)) : PeerKey :=
  match addr with
  | None => zero_key
  | Some (ip, port, zone) => mkPeerKey (copy16 (To16 ip)) (u16 port) zone
  end.

(* go: internal/transport/shared/peerkey.go:57-60 (PeerKey.UDPAddr) *)
Definition key_UDPAddr (k : PeerKey) : bytes * Z * string := (pk_addr k, pk_port k, pk_zone k).

Definition key_ok (k : PeerKey) : Prop := length (pk_addr k) = 16%nat /\ in_u 16 (pk_port k).

Lemma copy16_16 b : length b = 16%nat -> copy16 b = b.
Proof.
  intros H. unfold copy16. rewrite H, drop_ge by done.
  by rewrite app_nil_r, take_ge by lia.
Qed.

Lemma length_To16 ip : To16 ip = [] \/ length (To16 ip) = 16%nat.
Proof.
  unfold To16. destruct (length ip =? 4)%nat eqn:E4.
  - right. apply Nat.eqb_eq in E4. rewrite length_app, E4. done.
  - destruct (length ip =? 16)%nat eqn:E; [right; by apply Nat.eqb_eq|by left].
Qed.

Lemma NewPeerKey_ok addr : key_ok (NewPeerKey addr).
Proof.
  destruct addr as [[[ip port] zone]|]; simpl.
  - split; [|by apply uwrap_range]. simpl. unfold copy16.
    destruct (length_To16 ip) as [->|E]; [done|].
    rewrite length_take, length_app, E. simpl. lia.
  - split; [done|]. unfold in_u. simpl. lia.
Qed.

(** The key of a datagram peer is faithful: writing back to the address of
    a key and looking it up again finds the same key, the 4-byte and the mapped
    16-byte form of one IPv4 endpoint share it, and distinct 16-byte endpoints
    with ports in range never do. *)
Theorem peerKey_faithful addr k b port zone ip1 ip2 p1 p2 z1 z2 :
  k = NewPeerKey addr ->
  length b = 4%nat -> length ip1 = 16%nat -> length ip2 = 16%nat -> in_u 16 p1 -> in_u 16 p2 ->
  NewPeerKey (Some (key_UDPAddr k)) = k /\
  NewPeerKey (Some (b, port, zone)) = NewPeerKey (Some (v4_prefix ++ b, port, zone)) /\
  (NewPeerKey (Some (ip1, p1, z1)) = NewPeerKey (Some (ip2, p2, z2)) ->
   ip1 = ip2 /\ p1 = p2 /\ z1 = z2).
Proof.
  intros -> Hb H1 H2 Hp1 Hp2. split; [|split].
  - destruct (NewPeerKey_ok addr) as [Hl Hp]. destruct (NewPeerKey addr) as [a p z].
    simpl in *. unfold To16. rewrite Hl. simpl. rewrite copy16_16, uwrap_small by done. done.
  - unfold NewPeerKey, To16. by rewrite length_app, Hb.
  - simpl. unfold To16. rewrite H1, H2. simpl. rewrite !copy16_16 by done.
    rewrite !uwrap_small by done. by intros [= -> -> ->].
Qed.

Lemma peerKey_faithful_witness :
  NewPeerKey (Some (key_UDPAddr (NewPeerKey (Some ([1; 2; 3; 4], 5683, "")))))
    = NewPeerKey (Some ([1; 2; 3; 4], 5683, "")).
Proof.
  apply (peerKey_faithful (Some ([1; 2; 3; 4], 5683, "")) _ [1; 2; 3; 4] 0 ""
    (replicate 16 0) (replicate 16 1) 1 2 "" "");
    try reflexivity; unfold in_u; lia.
Defined.
