(* ===== verification/Quota.v ===== *)
(** * Quota: [internal/transport/shared/quota.go]

    The admission quota: a global ceiling and a per-peer ceiling taken together
    or not at all.  [holds] is its abstract specification: the quota stands for
    the multiset of admissions taken and not yet released. *)
From S2P Require Import Prelude Bytes PeerAddr.
Local Open Scope Z_scope.

(* go: internal/transport/shared/quota.go:33-37 (quotaShards) *)
Definition quotaShards : Z := 16.

(* go: internal/transport/shared/quota.go:10-42 (PeerQuota) *)
Record PeerQuota : Type := mkPeerQuota {
  maxTotal : Z;
  maxPeer : Z;
  total : Z;
  peers : list (gmap Addr Z)
}.

(* go: internal/transport/shared/quota.go:44-50 (NewPeerQuota) *)
Definition NewPeerQuota (mt mp : Z) : PeerQuota :=
  mkPeerQuota mt mp 0 (replicate (Z.to_nat quotaShards) ∅).

(* go: internal/transport/shared/quota.go:52-58 (shard) *)
Definition shard (ip : Addr) : nat :=
  let b := As16 ip in
  Z.to_nat ((byte_at b 15 + byte_at b 14 + byte_at b 13) mod quotaShards).

Definition get_peers (q : PeerQuota) (i : nat) : gmap Addr Z := nth i (peers q) ∅.

Definition set_peers (q : PeerQuota) (i : nat) (m : gmap Addr Z) : PeerQuota :=
  mkPeerQuota (maxTotal q) (maxPeer q) (total q) (<[i := m]> (peers q)).

Definition set_total (q : PeerQuota) (t : Z) : PeerQuota :=
  mkPeerQuota (maxTotal q) (maxPeer q) t (peers q).

(* go: internal/transport/shared/quota.go:60-71 (QuotaReject) *)
Inductive QuotaReject : Type := QuotaOK | QuotaFull | QuotaPeerFull.

#[export] Instance QuotaReject_eq_dec : EqDecision QuotaReject.
Proof. solve_decision. Defined.

(** [sh.peers[ip]]: absent reads as zero. *)
Definition peer_count (q : PeerQuota) (ip : Addr) : Z :=
  default 0 (get_peers q (shard ip) !! ip).

(* go: internal/transport/shared/quota.go:76-112 (Acquire) *)
Definition Acquire (ip : Addr) (q : PeerQuota) : QuotaReject * PeerQuota :=
  let tracked := IsValid ip in
  let sh := get_peers q (shard ip) in
  let cur := default 0 (sh !! ip) in
  if tracked && (0 <? maxPeer q) && (maxPeer q <=? cur) then (QuotaPeerFull, q)
  else if (0 <? maxTotal q) && (maxTotal q <=? total q) then (QuotaFull, q)
  else
    let q1 := set_total q (i64 (total q + 1)) in
    (QuotaOK, if tracked then set_peers q1 (shard ip) (<[ip := i64 (cur + 1)]> sh) else q1).

(* go: internal/transport/shared/quota.go:73-74 (TryAcquire) *)
Definition TryAcquire (ip : Addr) (q : PeerQuota) : bool * PeerQuota :=
  let (r, q') := Acquire ip q in (bool_decide (r = QuotaOK), q').

(* go: internal/transport/shared/quota.go:114-133 (Release) *)
Definition Release (ip : Addr) (q : PeerQuota) : PeerQuota :=
  let q1 :=
    if IsValid ip then
      let sh := get_peers q (shard ip) in
      let cur := default 0 (sh !! ip) in
      if 1 <? cur then set_peers q (shard ip) (<[ip := cur - 1]> sh)
      else if cur =? 1 then set_peers q (shard ip) (delete ip sh)
      else q
    else q in
  set_total q1 (i64 (total q1 - 1)).

(* go: internal/transport/shared/quota.go:135-136 (Total) *)
Definition Total (q : PeerQuota) : Z := total q.

(* go: internal/transport/shared/quota.go:138-145 (PeerCount) *)
Definition PeerCount (ip : Addr) (q : PeerQuota) : Z := peer_count q ip.

(** ** The specification: the admissions held *)

(** How many of the held admissions are [ip]'s. *)
Definition occ (ip : Addr) (held : list Addr) : Z :=
  Z.of_nat (length (List.filter (fun a => bool_decide (a = ip)) held)).

(** Remove one admission of [ip]. *)
Fixpoint remove_one (ip : Addr) (held : list Addr) : list Addr :=
  match held with
  | [] => []
  | a :: held' => if decide (a = ip) then held' else a :: remove_one ip held'
  end.

(** An entry exists exactly for the valid peers that hold something. *)
Definition entry (ip : Addr) (held : list Addr) : option Z :=
  if IsValid ip && (0 <? occ ip held) then Some (occ ip held) else None.

Record holds (q : PeerQuota) (held : list Addr) : Prop := {
  h_shards : length (peers q) = Z.to_nat quotaShards;
  h_lookup : forall i ip, (i < Z.to_nat quotaShards)%nat ->
    get_peers q i !! ip = if decide (i = shard ip) then entry ip held else None;
  h_total : total q = Z.of_nat (length held)
}.

Lemma shard_lt ip : (shard ip < Z.to_nat quotaShards)%nat.
Proof.
  unfold shard. match goal with |- (Z.to_nat (?x mod _) < _)%nat =>
    pose proof (Z.mod_pos_bound x quotaShards eq_refl) end.
  unfold quotaShards in *. lia.
Qed.
#[export] Hint Resolve shard_lt : shark.

Lemma occ_nonneg ip held : 0 <= occ ip held.
Proof. unfold occ. lia. Qed.

Lemma occ_cons ip a held : occ ip (a :: held) = (if decide (a = ip) then 1 else 0) + occ ip held.
Proof.
  unfold occ. cbn [List.filter]. destruct (decide (a = ip)).
  - rewrite bool_decide_eq_true_2 by done. simpl. lia.
  - by rewrite bool_decide_eq_false_2 by done.
Qed.

Lemma occ_le_length ip held : occ ip held <= Z.of_nat (length held).
Proof.
  induction held as [|a held IH]; [done|]. rewrite occ_cons. cbn [length].
  destruct (decide _); lia.
Qed.

Lemma occ_remove_one ip a held :
  a ∈ held -> occ ip (remove_one a held) = occ ip held - if decide (a = ip) then 1 else 0.
Proof.
  induction held as [|b held IH]; intros Ha; [by inversion Ha|]. cbn [remove_one].
  destruct (decide (b = a)) as [->|Hne].
  - rewrite occ_cons. destruct (decide (a = ip)); lia.
  - rewrite !occ_cons, IH by (by inversion Ha; subst). destruct (decide (b = ip)), (decide (a = ip)); lia.
Qed.

Lemma length_remove_one a held :
  a ∈ held -> length held = S (length (remove_one a held)).
Proof.
  induction held as [|b held IH]; intros Ha; [by inversion Ha|]. cbn [remove_one length].
  destruct (decide (b = a)); [done|]. cbn [length]. f_equal. apply IH. by inversion Ha; subst.
Qed.

Lemma occ_pos_elem ip held : 0 < occ ip held -> ip ∈ held.
Proof.
  induction held as [|a held IH]; [done|]. rewrite occ_cons.
  destruct (decide (a = ip)) as [->|]; intros; [by left|]. right. apply IH. lia.
Qed.

Lemma elem_occ_pos ip held : ip ∈ held -> 0 < occ ip held.
Proof.
  induction held as [|a held IH]; intros Hin; [by inversion Hin|].
  rewrite occ_cons. pose proof (occ_nonneg ip held).
  destruct (decide (a = ip)); [lia|]. apply elem_of_cons in Hin as [->|Hin]; [done|].
  specialize (IH Hin). lia.
Qed.

Lemma holds_count q held ip :
  holds q held -> IsValid ip = true -> peer_count q ip = occ ip held.
Proof.
  intros H Hv. unfold peer_count. rewrite (h_lookup _ _ H), decide_True by auto with shark.
  unfold entry. rewrite Hv. simpl. pose proof (occ_nonneg ip held).
  destruct (0 <? occ ip held) eqn:E; breflect; simpl; lia.
Qed.

Lemma holds_new mt mp : holds (NewPeerQuota mt mp) [].
Proof.
  split; try done. intros i ip Hi. unfold get_peers, NewPeerQuota. cbn [peers].
  rewrite nth_lookup, lookup_replicate_2 by done. simpl. rewrite lookup_empty.
  unfold entry, occ. simpl. rewrite andb_false_r. by destruct (decide _).
Qed.

Lemma get_set_peers q i m j :
  length (peers q) = Z.to_nat quotaShards -> (i < Z.to_nat quotaShards)%nat ->
  get_peers (set_peers q i m) j = if decide (j = i) then m else get_peers q j.
Proof.
  intros Hl Hi. unfold get_peers, set_peers; simpl. rewrite !nth_lookup.
  destruct (decide (j = i)) as [->|Hne].
  - by rewrite list_lookup_insert_eq by lia.
  - by rewrite list_lookup_insert_ne by done.
Qed.

(** Moving to another multiset: only the entry of [ip] changes. *)
Lemma holds_move q held held' ip :
  holds q held ->
  (forall a, a <> ip -> occ a held' = occ a held) ->
  holds (set_total
    (set_peers q (shard ip) (partial_alter (fun _ => entry ip held') ip (get_peers q (shard ip))))
    (Z.of_nat (length held'))) held'.
Proof.
  intros H Hocc. split.
  - simpl. rewrite length_insert. apply H.
  - intros i a Hi. change (get_peers (set_total ?q _) ?i) with (get_peers q i).
    rewrite get_set_peers by (apply H || auto with shark).
    destruct (decide (i = shard ip)) as [->|Hne].
    + destruct (decide (a = ip)) as [->|Hane].
      * rewrite lookup_partial_alter_eq. by rewrite decide_True.
      * rewrite lookup_partial_alter_ne by done. rewrite (h_lookup _ _ H) by done.
        unfold entry. by rewrite Hocc.
    + rewrite (h_lookup _ _ H) by done. destruct (decide (i = shard a)) as [->|]; [|done].
      unfold entry. rewrite Hocc; congruence.
  - done.
Qed.

Lemma holds_move_untracked q held held' :
  holds q held -> (forall a, IsValid a = true -> occ a held' = occ a held) ->
  holds (set_total q (Z.of_nat (length held'))) held'.
Proof.
  intros H Hocc. split; [apply H| |done]. intros i a Hi.
  change (get_peers (set_total ?q _) ?i) with (get_peers q i). rewrite (h_lookup _ _ H) by done.
  destruct (decide (i = shard a)); [|done]. unfold entry.
  destruct (IsValid a) eqn:Ea; [by rewrite Hocc|done].
Qed.

Definition quota_room (q : PeerQuota) : Prop := total q < max_int64.

Lemma Acquire_holds ip q held :
  holds q held -> quota_room q ->
  let (r, q') := Acquire ip q in
  maxTotal q' = maxTotal q /\ maxPeer q' = maxPeer q /\
  holds q' (match r with QuotaOK => ip :: held | _ => held end).
Proof.
  intros H Hroom. unfold quota_room in Hroom. unfold Acquire.
  destruct (IsValid ip && (0 <? maxPeer q) && _) eqn:E1; [done|].
  rewrite (h_total _ _ H) in *.
  destruct ((0 <? maxTotal q) && _) eqn:E2; [done|].
  assert (i64 (Z.of_nat (length held) + 1) = Z.of_nat (length (ip :: held))) as ->.
  { cbn [length]. rewrite i64_small; [lia|]. unfold in_i64, min_int64, max_int64 in *. lia. }
  destruct (IsValid ip) eqn:Ev; cbn beta iota zeta; (split; [done|]; split; [done|]).
  - pose proof (holds_move q held (ip :: held) ip H) as Hm.
    assert (entry ip (ip :: held) = Some (i64 (peer_count q ip + 1))) as Ee.
    { unfold entry. rewrite Ev, (holds_count q held ip H Ev), occ_cons, decide_True by done.
      pose proof (occ_nonneg ip held). pose proof (occ_le_length ip held).
      rewrite (proj2 (Z.ltb_lt _ _)) by lia. simpl. f_equal.
      rewrite i64_small; [lia|]. unfold in_i64, min_int64, max_int64 in *. lia. }
    rewrite Ee in Hm. apply Hm. intros a Ha. rewrite occ_cons, decide_False by done. lia.
  - apply (holds_move_untracked q held (ip :: held) H). intros a Ha.
    rewrite occ_cons, decide_False by congruence. lia.
Qed.

Lemma Release_holds ip q held :
  holds q held -> ip ∈ held -> total q <= max_int64 ->
  maxTotal (Release ip q) = maxTotal q /\ maxPeer (Release ip q) = maxPeer q /\
  holds (Release ip q) (remove_one ip held).
Proof.
  intros H Hin Hmax. rewrite (h_total _ _ H) in Hmax.
  pose proof (length_remove_one ip held Hin) as Hlen.
  assert (i64 (total q - 1) = Z.of_nat (length (remove_one ip held))) as Ht.
  { rewrite (h_total _ _ H), i64_small; [lia|]. unfold in_i64, min_int64, max_int64 in *. lia. }
  unfold Release. destruct (IsValid ip) eqn:Ev.
  - fold (peer_count q ip). rewrite (holds_count q held ip H Ev).
    pose proof (elem_occ_pos _ _ Hin).
    pose proof (holds_move q held (remove_one ip held) ip H) as Hm.
    assert (entry ip (remove_one ip held) =
      if 1 <? occ ip held then Some (occ ip held - 1) else None) as Ee.
    { unfold entry. rewrite Ev, occ_remove_one, decide_True by done. simpl.
      destruct (1 <? occ ip held) eqn:E1; breflect.
      - by rewrite (proj2 (Z.ltb_lt _ _)) by lia.
      - by rewrite (proj2 (Z.ltb_ge _ _)) by lia. }
    rewrite Ee in Hm.
    destruct (1 <? occ ip held) eqn:E1.
    + cbn [set_peers total]. rewrite Ht. split; [done|]. split; [done|]. apply Hm.
      intros a Ha. rewrite occ_remove_one, decide_False by done. lia.
    + breflect. rewrite (proj2 (Z.eqb_eq _ _)) by lia.
      cbn [set_peers total]. rewrite Ht. split; [done|]. split; [done|]. apply Hm.
      intros a Ha. rewrite occ_remove_one, decide_False by done. lia.
  - rewrite Ht. split; [done|]. split; [done|].
    apply (holds_move_untracked q held _ H). intros a Ha.
    rewrite occ_remove_one, decide_False by congruence. lia.
Qed.

Lemma acquire_refused_same ip q :
  (Acquire ip q).1 <> QuotaOK -> (Acquire ip q).2 = q.
Proof. unfold Acquire. destruct (_ && _); [done|]. by destruct (_ && _). Qed.

Lemma acquire_ok_room ip q :
  (Acquire ip q).1 = QuotaOK -> 0 < maxTotal q -> total q < maxTotal q.
Proof.
  unfold Acquire. destruct (IsValid ip && _ && _); [done|].
  destruct ((0 <? maxTotal q) && (maxTotal q <=? total q)) eqn:E; [done|]. intros _ Hm.
  apply andb_false_iff in E. destruct E; breflect; lia.
Qed.

(** ** The multiset, up to order *)

Lemma remove_one_perm ip held : ip ∈ held -> held ≡ₚ ip :: remove_one ip held.
Proof.
  induction held as [|a held IH]; intros Hin; [by inversion Hin|]. cbn [remove_one].
  destruct (decide (a = ip)) as [->|Hne]; [done|].
  apply elem_of_cons in Hin as [->|Hin]; [done|].
  rewrite Permutation_swap. constructor. by apply IH.
Qed.

Lemma occ_perm ip held held' : held ≡ₚ held' -> occ ip held = occ ip held'.
Proof. induction 1; rewrite ?occ_cons in *; lia. Qed.

Lemma holds_perm q held held' : held ≡ₚ held' -> holds q held -> holds q held'.
Proof.
  intros Hp [H1 H2 H3]. split; [done| |by rewrite <- (Permutation_length Hp)].
  intros i ip Hi. rewrite H2 by done. unfold entry. by rewrite (occ_perm ip _ _ Hp).
Qed.

#[export] Instance holds_proper q : Proper ((≡ₚ) ==> iff) (holds q).
Proof. intros l k Hp. split; apply holds_perm; [done|by symmetry]. Qed.

(** ** Runs *)

(** Callers release only what they hold: the transports pair every admission
    with one deferred release. *)
Inductive quota_op : Type :=
| QAcquire (ip : Addr)
| QRelease (ip : Addr).

Definition quota_step (st : list Addr * PeerQuota) (op : quota_op) : list Addr * PeerQuota :=
  let (held, q) := st in
  match op with
  | QAcquire ip =>
      match Acquire ip q with
      | (QuotaOK, q') => (ip :: held, q')
      | (_, q') => (held, q')
      end
  | QRelease ip => if decide (ip ∈ held) then (remove_one ip held, Release ip q) else st
  end.

Definition quota_run (mt mp : Z) (ops : list quota_op) : list Addr * PeerQuota :=
  fold_left quota_step ops ([], NewPeerQuota mt mp).

(** Both ceilings hold of the multiset. *)
Definition within (mt mp : Z) (held : list Addr) : Prop :=
  (0 < mt -> Z.of_nat (length held) <= mt) /\
  (forall ip, IsValid ip = true -> 0 < mp -> occ ip held <= mp).

Lemma within_perm mt mp held held' : held ≡ₚ held' -> within mt mp held -> within mt mp held'.
Proof.
  intros Hp [H1 H2]. split.
  - by rewrite <- (Permutation_length Hp).
  - intros ip. rewrite <- (occ_perm ip _ _ Hp). apply H2.
Qed.

#[export] Instance within_proper mt mp : Proper ((≡ₚ) ==> iff) (within mt mp).
Proof. intros l k Hp. split; apply within_perm; [done|by symmetry]. Qed.

Lemma within_remove mt mp ip held :
  ip ∈ held -> within mt mp held -> within mt mp (remove_one ip held).
Proof.
  intros Hin [Ht Hp]. pose proof (length_remove_one ip held Hin). split.
  - intros H0. specialize (Ht H0). lia.
  - intros a Ha H0. specialize (Hp a Ha H0). rewrite occ_remove_one by done.
    destruct (decide _); lia.
Qed.

Lemma within_acquire ip q held q' :
  holds q held -> Acquire ip q = (QuotaOK, q') ->
  within (maxTotal q) (maxPeer q) held -> within (maxTotal q) (maxPeer q) (ip :: held).
Proof.
  intros H E [Ht Hp]. revert E. unfold Acquire.
  destruct (IsValid ip && (0 <? maxPeer q) && _) eqn:E1; [done|].
  destruct ((0 <? maxTotal q) && _) eqn:E2; [done|]. intros _.
  rewrite (h_total _ _ H) in E2. split.
  - intros H0. apply andb_false_iff in E2. cbn [length]. destruct E2; breflect; lia.
  - intros a Ha H0. rewrite occ_cons. specialize (Hp a Ha H0).
    destruct (decide (ip = a)) as [->|]; [|lia].
    fold (peer_count q a) in E1. rewrite (holds_count q held a H Ha), Ha in E1. simpl in E1.
    apply andb_false_iff in E1. destruct E1; breflect; lia.
Qed.

Lemma quota_run_inv mt mp ops :
  0 < mt <= max_int64 ->
  let (held, q) := quota_run mt mp ops in
  holds q held /\ maxTotal q = mt /\ maxPeer q = mp /\ within mt mp held.
Proof.
  intros Hmt. unfold quota_run.
  assert (forall held q, holds q held -> maxTotal q = mt -> maxPeer q = mp -> within mt mp held ->
    let (held', q') := fold_left quota_step ops (held, q) in
    holds q' held' /\ maxTotal q' = mt /\ maxPeer q' = mp /\ within mt mp held') as Hgen.
  2: { apply Hgen; [apply holds_new|done|done|]. split; [simpl; lia|]. intros. unfold occ. simpl. lia. }
  induction ops as [|op ops IH]; intros held q H Emt Emp Hw; [done|]. cbn [fold_left].
  assert (total q <= mt) as Htot.
  { rewrite (h_total _ _ H). apply Hw. lia. }
  destruct op as [ip|ip]; cbn [quota_step].
  - destruct (decide (total q < max_int64)) as [Hroom|Hfull].
    + pose proof (Acquire_holds ip q held H Hroom) as Ha.
      destruct (Acquire ip q) as [r q'] eqn:E. destruct Ha as (E1 & E2 & H').
      destruct r; apply IH; try done; try congruence.
      subst mt mp. by eapply within_acquire.
    + assert (Acquire ip q = (QuotaFull, q) \/ Acquire ip q = (QuotaPeerFull, q)) as HF.
      { unfold Acquire. destruct (_ && (_ <=? default _ _)); [by right|]. left.
        rewrite (proj2 (Z.ltb_lt 0 (maxTotal q))),
          (proj2 (Z.leb_le (maxTotal q) (total q))) by lia. done. }
      destruct HF as [-> | ->]; by apply IH.
  - destruct (decide (ip ∈ held)) as [Hin|]; [|by apply IH].
    destruct (Release_holds ip q held H Hin) as (E1 & E2 & H'); [lia|].
    apply IH; [done|congruence|congruence|by apply within_remove].
Qed.

(** The quota is exact under any sequence of admissions and releases: the
    total is the number of admissions held and never exceeds the global
    ceiling, each attributable peer's count is the number it holds and never
    exceeds the per-peer ceiling, and the tables keep an entry for exactly the
    peers that hold something, so cycling through source addresses cannot grow
    them. *)
Theorem quota_exact mt mp ops :
  0 < mt <= max_int64 ->
  let (held, q) := quota_run mt mp ops in
  Total q = Z.of_nat (length held) /\ Total q <= mt /\
  (forall ip, IsValid ip = true ->
     PeerCount ip q = occ ip held /\ (0 < mp -> PeerCount ip q <= mp)) /\
  (forall i ip n, (i < Z.to_nat quotaShards)%nat -> get_peers q i !! ip = Some n ->
     ip ∈ held /\ n = occ ip held).
Proof.
  intros Hmt. pose proof (quota_run_inv mt mp ops Hmt) as Hinv.
  destruct (quota_run mt mp ops) as [held q]. destruct Hinv as (H & E1 & E2 & [Ht Hp]).
  unfold Total, PeerCount. split; [apply H|]. split; [|split].
  - rewrite (h_total _ _ H). apply Ht. lia.
  - intros ip Hv. rewrite (holds_count q held ip H Hv). auto.
  - intros i ip n Hi. rewrite (h_lookup _ _ H) by done.
    destruct (decide _); [|done]. unfold entry.
    destruct (IsValid ip && (0 <? occ ip held)) eqn:E; [|done]. intros [= <-].
    breflect. split; [by apply occ_pos_elem|done].
Qed.

Definition ip1 : Addr := Addr4 [10; 0; 0; 1].
Definition ip2 : Addr := Addr4 [10; 0; 0; 2].

Lemma quota_exact_witness :
  Total (quota_run 3 2 [QAcquire ip1; QAcquire ip1; QAcquire ip1; QAcquire ip2; QRelease ip1]).2 = 2.
Proof.
  pose proof (quota_exact 3 2 [QAcquire ip1; QAcquire ip1; QAcquire ip1; QAcquire ip2; QRelease ip1]
    ltac:(by vm_compute)) as H.
  destruct (quota_run 3 2 [QAcquire ip1; QAcquire ip1; QAcquire ip1; QAcquire ip2; QRelease ip1])
    as [held q] eqn:E.
  cbn [snd]. rewrite (proj1 H). change held with (held, q).1. rewrite <- E. by vm_compute.
Defined.

(** Acquire refuses for the right reason and takes nothing when it does: a
    peer at its own ceiling is told so even when the server is full, an
    unattributable peer is only ever refused by the global ceiling, and on
    success exactly one slot is taken in both dimensions. *)
Theorem acquire_decision ip q held :
  holds q held -> total q < max_int64 ->
  let peer_full := IsValid ip = true /\ 0 < maxPeer q <= occ ip held in
  let full := 0 < maxTotal q <= Z.of_nat (length held) in
  let r := (Acquire ip q).1 in
  let q' := (Acquire ip q).2 in
  (r = QuotaPeerFull <-> peer_full) /\
  (r = QuotaFull <-> ~ peer_full /\ full) /\
  (r <> QuotaOK -> q' = q) /\
  (r = QuotaOK -> holds q' (ip :: held)).
Proof.
  intros H Hroom. cbn zeta.
  assert ((IsValid ip && (0 <? maxPeer q) && (maxPeer q <=? peer_count q ip)) = true <->
    IsValid ip = true /\ 0 < maxPeer q <= occ ip held) as Hpf.
  { rewrite !andb_true_iff, Z.ltb_lt, Z.leb_le. split.
    - intros [[Hv ?] ?]. rewrite (holds_count q held ip H Hv) in *. auto.
    - intros [Hv ?]. rewrite (holds_count q held ip H Hv). tauto. }
  pose proof (Acquire_holds ip q held H Hroom) as Ha.
  assert (((0 <? maxTotal q) && (maxTotal q <=? total q)) = true <->
    0 < maxTotal q <= Z.of_nat (length held)) as Hf.
  { rewrite (h_total _ _ H), andb_true_iff, Z.ltb_lt, Z.leb_le. tauto. }
  revert Ha. unfold Acquire. fold (peer_count q ip).
  destruct (IsValid ip && (0 <? maxPeer q) && (maxPeer q <=? peer_count q ip)).
  { intros _. split; [tauto|]. split; [|done]. split; [done|tauto]. }
  destruct ((0 <? maxTotal q) && (maxTotal q <=? total q)).
  { intros _. split; [split; [done|]|split; [|done]].
    - intros Hp. by apply Hpf in Hp.
    - split; [|done]. intros _. split; [|tauto]. intros Hp. by apply Hpf in Hp. }
  intros (_ & _ & H'). split; [split; [done|]|split; [split; [done|]|done]].
  - intros Hp. by apply Hpf in Hp.
  - intros [_ Hp]. by apply Hf in Hp.
Qed.

Lemma acquire_decision_witness :
  (Acquire ip1 (quota_run 5 1 [QAcquire ip1]).2).1 = QuotaPeerFull.
Proof.
  pose proof (quota_run_inv 5 1 [QAcquire ip1] ltac:(by vm_compute)) as Hrun.
  destruct (quota_run 5 1 [QAcquire ip1]) as [held q] eqn:E. destruct Hrun as (H & Et & Ep & _).
  assert (held = [ip1]) as -> by (change held with (held, q).1; rewrite <- E; by vm_compute).
  cbn [snd]. apply (acquire_decision ip1 q [ip1] H); [rewrite (h_total _ _ H); by vm_compute|].
  split; [done|]. rewrite Ep. by vm_compute.
Defined.
