(* ===== verification/Acceptor.v ===== *)
(** * Acceptor: [internal/transport/shared/acceptor.go] and [gate_listener.go]

    Rate-limited, capacity-bounded admission of connections, and the listener
    wrapper that releases a slot exactly once when its connection closes.  The
    token bucket computes on float64; the model uses the binary64 operations of
    the Standard Library's SpecFloat, so every step is the rounded one. *)
From Stdlib Require Import SpecFloat.
From S2P Require Import Prelude Bytes PeerAddr Quota.
Local Open Scope string_scope.
Local Open Scope Z_scope.
Local Open Scope list_scope.

(** ** float64 *)

Abbreviation float64 := spec_float.
Definition fadd : float64 -> float64 -> float64 := SFadd 53 1024.
Definition fsub : float64 -> float64 -> float64 := SFsub 53 1024.
Definition fmul : float64 -> float64 -> float64 := SFmul 53 1024.
Definition fdiv : float64 -> float64 -> float64 := SFdiv 53 1024.
Definition fltb : float64 -> float64 -> bool := SFltb.
Definition fleb : float64 -> float64 -> bool := SFleb.

(** [float64(n)] of an integer. *)
Definition float_of_int (n : Z) : float64 := binary_normalize 53 1024 n 0 false.
(** [int(f)]: truncation towards zero. *)
Definition float_to_int (f : float64) : Z :=
  match f with
  | S754_finite s m e =>
      let n := if 0 <=? e then Z.pos m * 2 ^ e else Z.pos m / 2 ^ (- e) in if s then - n else n
  | _ => 0
  end.

Definition f0 : float64 := float_of_int 0.
Definition f1 : float64 := float_of_int 1.

(** ** The acceptor *)

(* go: internal/transport/shared/acceptor.go:10-24 (RejectReason) *)
Inductive RejectReason : Type := AcceptOK | RejectCapacity | RejectRate | RejectPeer.

#[export] Instance RejectReason_eq_dec : EqDecision RejectReason.
Proof. solve_decision. Defined.

(* go: internal/transport/shared/acceptor.go:26-38 (RejectReason.String) *)
Definition RejectReason_String (r : RejectReason) : string :=
  match r with
  | AcceptOK => "ok"
  | RejectCapacity => "capacity"
  | RejectRate => "rate"
  | RejectPeer => "peer"
  end.

(* go: internal/transport/shared/acceptor.go:40-52 (Acceptor) *)
Record Acceptor : Type := mkAcceptor {
  quota : PeerQuota;
  rate : float64;
  lastCheck : Z;
  allowance : float64
}.

(* go: internal/transport/shared/acceptor.go:54-64 (NewAcceptor) *)
Definition NewAcceptor (maxConns : Z) (acceptRate : float64) (maxPerPeer now : Z) : Acceptor :=
  mkAcceptor (NewPeerQuota maxConns maxPerPeer) acceptRate now acceptRate.

(** [int64(time.Second)] *)
Definition second : Z := 1000000000.

(** The bucket's ceiling: at least one token. *)
(* go: internal/transport/shared/acceptor.go:97-103 (TryAccept) *)
Definition burst (r : float64) : float64 := if fltb r f1 then f1 else r.

(** The allowance after [now - last] nanoseconds. *)
(* go: internal/transport/shared/acceptor.go:88-107 (TryAccept) *)
Definition refill (r al : float64) (last now : Z) : float64 :=
  let elapsed := fdiv (float_of_int (i64 (now - last))) (float_of_int second) in
  let elapsed := if fltb elapsed f0 then f0 else elapsed in
  let al := fadd al (fmul elapsed r) in
  if fltb (burst r) al then burst r else al.

(** [now] is the wall clock in nanoseconds; a nil acceptor admits everything. *)
(* go: internal/transport/shared/acceptor.go:66-119 (TryAccept) *)
Definition TryAccept (peer : Addr) (now : Z) (oa : option Acceptor) :
    RejectReason * option Acceptor :=
  match oa with
  | None => (AcceptOK, None)
  | Some a =>
      match Acquire peer (quota a) with
      | (QuotaFull, q) => (RejectCapacity, Some (mkAcceptor q (rate a) (lastCheck a) (allowance a)))
      | (QuotaPeerFull, q) => (RejectPeer, Some (mkAcceptor q (rate a) (lastCheck a) (allowance a)))
      | (QuotaOK, q) =>
          if fleb (rate a) f0 then
            (AcceptOK, Some (mkAcceptor q (rate a) (lastCheck a) (allowance a)))
          else
            let al := refill (rate a) (allowance a) (lastCheck a) now in
            if fleb f1 al then (AcceptOK, Some (mkAcceptor q (rate a) now (fsub al f1)))
            else (RejectRate, Some (mkAcceptor (Release peer q) (rate a) now al))
      end
  end.

(* go: internal/transport/shared/acceptor.go:121-130 (Done) *)
Definition Done (peer : Addr) (oa : option Acceptor) : option Acceptor :=
  match oa with
  | None => None
  | Some a => Some (mkAcceptor (Release peer (quota a)) (rate a) (lastCheck a) (allowance a))
  end.

(* go: internal/transport/shared/acceptor.go:132-138 (Active) *)
Definition Active (oa : option Acceptor) : Z :=
  match oa with None => 0 | Some a => Total (quota a) end.

(* go: internal/transport/shared/acceptor.go:140-146 (PeerActive) *)
Definition PeerActive (peer : Addr) (oa : option Acceptor) : Z :=
  match oa with None => 0 | Some a => PeerCount peer (quota a) end.

(** The admissions an acceptor stands for. *)
Definition acc_holds (a : Acceptor) (held : list Addr) : Prop := holds (quota a) held.

Lemma TryAccept_holds peer now a held :
  acc_holds a held -> Z.of_nat (length held) < max_int64 ->
  exists r a', TryAccept peer now (Some a) = (r, Some a') /\
    acc_holds a' (match r with AcceptOK => peer :: held | _ => held end) /\
    maxTotal (quota a') = maxTotal (quota a) /\ maxPeer (quota a') = maxPeer (quota a).
Proof.
  unfold acc_holds. intros H Hroom.
  assert (quota_room (quota a)) as Hq by (unfold quota_room; by rewrite (h_total _ _ H)).
  pose proof (Acquire_holds peer (quota a) held H Hq) as Ha. cbn [TryAccept].
  destruct (Acquire peer (quota a)) as [[| |] q]; destruct Ha as (E1 & E2 & H'); [|eauto 6|eauto 6].
  destruct (fleb (rate a) f0); [eauto 6|]. destruct (fleb f1 _); [eauto 6|].
  eexists _, _. split; [done|]. cbn [quota].
  destruct (Release_holds peer q (peer :: held) H') as (E3 & E4 & H''); [left|..].
  { rewrite (h_total _ _ H'). cbn [length]. lia. }
  cbn [remove_one] in H''. rewrite decide_True in H'' by done.
  split; [done|]. split; congruence.
Qed.

Lemma TryAccept_acquired peer now a oa :
  TryAccept peer now (Some a) = (AcceptOK, oa) -> (Acquire peer (quota a)).1 = QuotaOK.
Proof. cbn [TryAccept]. by destruct (Acquire peer (quota a)) as [[| |] q]. Qed.

(** An admission takes its slot and its rate token together. A connection
    refused by the global or the per-peer ceiling leaves the acceptor exactly as
    it was, token bucket included; one refused by the rate limit gives its slot
    back; an accepted one holds one more slot. *)
Theorem tryAccept_accounting peer now a held :
  acc_holds a held -> Z.of_nat (length held) < max_int64 ->
  exists r a', TryAccept peer now (Some a) = (r, Some a') /\
    Active (Some a') = Active (Some a) + (if decide (r = AcceptOK) then 1 else 0) /\
    (r = RejectCapacity \/ r = RejectPeer -> a' = a) /\
    (r = RejectRate -> PeerActive peer (Some a') = PeerActive peer (Some a) /\
       acc_holds a' held).
Proof.
  intros H Hroom. destruct (TryAccept_holds peer now a held H Hroom) as (r & a' & E & H' & _).
  exists r, a'. split; [done|]. unfold acc_holds in *. cbn [Active PeerActive].
  unfold Total, PeerCount. rewrite (h_total _ _ H), (h_total _ _ H'). split; [|split].
  - destruct r; cbn [length]; destruct (decide _); (done || lia).
  - intros Hr. revert E. cbn [TryAccept].
    pose proof (acquire_refused_same peer (quota a)) as Hsame.
    destruct (Acquire peer (quota a)) as [[| |] q]; cbn [fst snd] in Hsame.
    + destruct (fleb _ _); [intros [= <- <-]; naive_solver|].
      destruct (fleb _ _); intros [= <- <-]; naive_solver.
    + intros [= <- <-]. rewrite Hsame by done. by destruct a.
    + intros [= <- <-]. rewrite Hsame by done. by destruct a.
  - intros ->. split; [|done]. unfold peer_count. f_equal.
    rewrite (h_lookup _ _ H), (h_lookup _ _ H') by auto with shark. done.
Qed.

(** A bucket of one connection per second. *)
Definition slow_acceptor : Acceptor := NewAcceptor 10 f1 5 0.

Lemma tryAccept_accounting_witness :
  exists r a', TryAccept ip1 0 (Some slow_acceptor) = (r, Some a') /\
    Active (Some a') = Active (Some slow_acceptor) + (if decide (r = AcceptOK) then 1 else 0).
Proof.
  destruct (tryAccept_accounting ip1 0 slow_acceptor [] (holds_new 10 5) ltac:(by vm_compute))
    as (r & a' & E & H & _).
  exists r, a'. split; [exact E|exact H].
Defined.

(** Concrete behaviour of the bucket: the second connection within the same
    second is refused, one second later one more is admitted, and a clock that
    steps backwards neither drains nor fills it but restarts its reference time. *)
Example slow_acceptor_run :
  let a1 := (TryAccept ip1 0 (Some slow_acceptor)).2 in
  let a2 := (TryAccept ip1 1000 a1).2 in
  let a3 := (TryAccept ip1 (-5 * second) a2).2 in
  ((TryAccept ip1 0 (Some slow_acceptor)).1, (TryAccept ip1 1000 a1).1,
   (TryAccept ip1 (-5 * second) a2).1, (TryAccept ip1 second a2).1)
  = (AcceptOK, RejectRate, RejectRate, AcceptOK) /\
  (TryAccept ip1 (-4 * second) a3).1 = AcceptOK /\ Active a3 = 1.
Proof. by vm_compute. Qed.

(** ** The gate listener *)

(** An accepted connection: its peer, and whether its slot was released. *)
(* go: internal/transport/shared/gate_listener.go:75-83 (gatedConn) *)
Record gatedConn : Type := mkConn { gc_peer : Addr; gc_released : bool }.

(* go: internal/transport/shared/gate_listener.go:41-45 (gateListener) *)
Record gateListener : Type := mkGate { g_acc : option Acceptor; g_conns : list gatedConn }.

(** The connections the inner listener delivers, each with its arrival time,
    until one is admitted; the refusals are the calls of the reject hooks. *)
(* go: internal/transport/shared/gate_listener.go:47-69 (Accept) *)
Fixpoint gate_Accept (inner : list (Addr * Z)) (rejects : list RejectReason) (g : gateListener) :
    list RejectReason * gateListener :=
  match inner with
  | [] => (rejects, g)
  | (peer, now) :: inner' =>
      match TryAccept peer now (g_acc g) with
      | (AcceptOK, acc) => (rejects, mkGate acc (g_conns g ++ [mkConn peer false]))
      | (reason, acc) => gate_Accept inner' (rejects ++ [reason]) (mkGate acc (g_conns g))
      end
  end.

(** [release.Do]: the first Close of a connection gives its slot back. *)
(* go: internal/transport/shared/gate_listener.go:85-88 (Close) *)
Definition gate_Close (i : nat) (g : gateListener) : gateListener :=
  match g_conns g !! i with
  | Some (mkConn peer false) =>
      mkGate (Done peer (g_acc g)) (<[i := mkConn peer true]> (g_conns g))
  | _ => g
  end.

(* go: internal/transport/shared/gate_listener.go:71-73 (Active) *)
Definition gate_Active (g : gateListener) : Z := Active (g_acc g).

(** The peers of the connections still open. *)
Definition open_peers (cs : list gatedConn) : list Addr :=
  omap (fun c => if gc_released c then None else Some (gc_peer c)) cs.

Inductive gate_op : Type :=
| GateAccept (inner : list (Addr * Z))
| GateClose (i : nat).

Definition gate_step (g : gateListener) (op : gate_op) : gateListener :=
  match op with
  | GateAccept inner => (gate_Accept inner [] g).2
  | GateClose i => gate_Close i g
  end.

Definition gate_ok (mt : Z) (g : gateListener) : Prop :=
  exists a, g_acc g = Some a /\ acc_holds a (open_peers (g_conns g)) /\
    maxTotal (quota a) = mt /\ Z.of_nat (length (open_peers (g_conns g))) <= mt.

Lemma open_peers_app cs cs' : open_peers (cs ++ cs') = open_peers cs ++ open_peers cs'.
Proof. apply omap_app. Qed.

Lemma gate_Accept_ok mt inner rejects g :
  0 < mt < max_int64 -> gate_ok mt g -> gate_ok mt (gate_Accept inner rejects g).2.
Proof.
  intros Hmt. revert rejects g. induction inner as [|[peer now] inner IH]; intros rejects g Hg; [done|].
  cbn [gate_Accept]. destruct Hg as (a & Ea & Hh & Em & Hl). rewrite Ea.
  destruct (TryAccept_holds peer now a _ Hh) as (r & a' & E & H' & Em' & Ep'); [lia|].
  rewrite E. destruct r.
  - exists a'. split; [done|]. cbn [g_conns snd]. rewrite open_peers_app.
    change (open_peers [mkConn peer false]) with [peer].
    assert (peer :: open_peers (g_conns g) ≡ₚ open_peers (g_conns g) ++ [peer]) as Hp
      by (by rewrite Permutation_app_comm).
    split; [unfold acc_holds in *; by rewrite <- Hp|]. split; [congruence|].
    pose proof (acquire_ok_room peer (quota a) (TryAccept_acquired _ _ _ _ E)) as Hroom.
    rewrite Em, (h_total _ _ Hh) in Hroom. rewrite length_app. cbn [length]. lia.
  - apply IH. exists a'. split; [done|]. split; [done|]. split; [congruence|done].
  - apply IH. exists a'. split; [done|]. split; [done|]. split; [congruence|done].
  - apply IH. exists a'. split; [done|]. split; [done|]. split; [congruence|done].
Qed.

Lemma gate_Close_ok mt i g : 0 < mt < max_int64 -> gate_ok mt g -> gate_ok mt (gate_Close i g).
Proof.
  intros Hmt Hg. unfold gate_Close. destruct (g_conns g !! i) as [[peer [|]]|] eqn:Ei; [done| |done].
  destruct Hg as (a & Ea & Hh & Em & Hl). rewrite Ea.
  apply list_elem_of_split_length in Ei as (l1 & l2 & El & Hi).
  rewrite El in *. subst i. rewrite insert_app_r_alt, Nat.sub_diag by done. cbn [insert list_insert].
  rewrite open_peers_app in *.
  change (open_peers (mkConn peer false :: l2)) with (peer :: open_peers l2) in *.
  change (open_peers (mkConn peer true :: l2)) with (open_peers l2).
  assert (open_peers l1 ++ peer :: open_peers l2 ≡ₚ peer :: open_peers l1 ++ open_peers l2) as Hp
    by (by rewrite Permutation_middle).
  unfold acc_holds in Hh. rewrite Hp in Hh, Hl.
  destruct (Release_holds peer (quota a) (peer :: open_peers l1 ++ open_peers l2) Hh) as (E1 & E2 & H');
    [left|rewrite (h_total _ _ Hh); lia|].
  cbn [remove_one] in H'. rewrite decide_True in H' by done.
  eexists. split; [done|]. cbn [g_conns]. rewrite open_peers_app.
  change (open_peers (mkConn peer true :: l2)) with (open_peers l2).
  split; [exact H'|]. split; [by cbn [quota Release]; congruence|]. cbn [length] in Hl. lia.
Qed.

(** The gate's count is exact: after any sequence of accepts and closes,
    double and out-of-order closes included, the number of active connections
    is the number accepted and not yet closed, and it never exceeds the
    configured ceiling. *)
Theorem gate_active_exact mt mp r t0 ops :
  0 < mt < max_int64 ->
  let g := fold_left gate_step ops (mkGate (Some (NewAcceptor mt r mp t0)) []) in
  gate_Active g = Z.of_nat (length (open_peers (g_conns g))) /\ gate_Active g <= mt.
Proof.
  intros Hmt. cbn zeta.
  enough (forall g, gate_ok mt g -> gate_ok mt (fold_left gate_step ops g)) as H.
  { destruct (H (mkGate (Some (NewAcceptor mt r mp t0)) [])) as (a & Ea & Hh & _ & Hl).
    - eexists. split; [done|]. split; [apply holds_new|]. split; [done|]. simpl. lia.
    - unfold gate_Active. rewrite Ea. cbn [Active]. unfold Total.
      rewrite (h_total _ _ Hh). auto. }
  induction ops as [|op ops IH]; intros g Hg; [done|]. apply IH.
  destruct op; [by apply gate_Accept_ok|by apply gate_Close_ok].
Qed.

Lemma gate_active_exact_witness :
  gate_Active (fold_left gate_step
    [GateAccept [(ip1, 0)]; GateAccept [(ip1, 1); (ip2, 2)]; GateClose 0; GateClose 0]
    (mkGate (Some (NewAcceptor 5 f0 1 0)) [])) = 1.
Proof.
  rewrite (proj1 (gate_active_exact 5 1 f0 0 _ ltac:(by vm_compute))). by vm_compute.
Defined.
