(* ===== verification/Duration.v ===== *)
(** * Duration: trimming, folding and durations of Go's [strings] and [time]

    [strings.TrimSpace], [strings.EqualFold] with an ASCII word, and
    [time.ParseDuration] with its 64-bit overflow checks and its float64
    fraction, as the configuration uses them. *)
From S2P Require Import Prelude Bytes Acceptor.
Local Open Scope Z_scope.
Local Open Scope list_scope.

(** ** [strings.TrimSpace] *)

(** The length of the white space character a text ends with, or 0; the text is
    given reversed. *)
Definition space_len_rev (r : bytes) : nat :=
  match r with
  | [] => 0%nat
  | c :: r1 =>
      if (c =? 32) || (9 <=? c) && (c <=? 13) then 1%nat
      else
        match r1 with
        | [] => 0%nat
        | b :: r2 =>
            if (b =? 194) && ((c =? 133) || (c =? 160)) then 2%nat
            else match r2 with
                 | [] => 0%nat
                 | a :: _ => if (space_len [a; b; c] =? 3)%nat then 3%nat else 0%nat
                 end
        end
  end.

(** [fuel] is the length of the text: each round drops a character. *)
Fixpoint trim_with (spaces : bytes -> nat) (fuel : nat) (s : bytes) : bytes :=
  match fuel with
  | O => s
  | S fuel' => match spaces s with O => s | n => trim_with spaces fuel' (drop n s) end
  end.

Definition TrimSpace (s : bytes) : bytes :=
  let s := trim_with space_len (length s) s in
  rev (trim_with space_len_rev (length s) (rev s)).

(** ** [strings.EqualFold] with an ASCII word

    Two characters outside ASCII fold to an ASCII letter: U+017F and U+212A. *)
Fixpoint fold_case (s : bytes) : bytes :=
  match s with
  | 197 :: 191 :: s' => 115 :: fold_case s'
  | 226 :: 132 :: 170 :: s' => 107 :: fold_case s'
  | c :: s' => (if (65 <=? c) && (c <=? 90) then c + 32 else c) :: fold_case s'
  | [] => []
  end.

Definition EqualFold (s word : bytes) : bool := bool_decide (fold_case s = fold_case word).

(** ** [time.ParseDuration] *)

(** The whole part: the number and the rest, none on overflow. *)
Fixpoint leadingInt (x : Z) (s : bytes) : option (Z * bytes) :=
  match s with
  | c :: s' =>
      if is_digit c then
        if 2 ^ 63 / 10 <? x then None
        else
          let x := x * 10 + (c - 48) in
          if 2 ^ 63 <? x then None else leadingInt x s'
      else Some (x, s)
  | [] => Some (x, [])
  end.

(** The fraction: its digits as a number, the power of ten, and the rest; further
    digits are passed over once it would overflow. *)
Fixpoint leadingFraction (x : Z) (scale : float64) (overflow : bool) (s : bytes) : Z * float64 * bytes :=
  match s with
  | c :: s' =>
      if is_digit c then
        if overflow then leadingFraction x scale true s'
        else if (2 ^ 63 - 1) / 10 <? x then leadingFraction x scale true s'
        else
          let y := x * 10 + (c - 48) in
          if 2 ^ 63 <? y then leadingFraction x scale true s'
          else leadingFraction y (fmul scale (float_of_int 10)) false s'
      else (x, scale, s)
  | [] => (x, scale, [])
  end.

(** The unit: everything up to the next digit or point. *)
Fixpoint unit_text (s : bytes) : bytes * bytes :=
  match s with
  | c :: s' => if (c =? 46) || is_digit c then ([], s) else let '(u, r) := unit_text s' in (c :: u, r)
  | [] => ([], [])
  end.

Definition unitMap (u : bytes) : option Z :=
  if bool_decide (u = bytes_of_string "ns") then Some 1
  else if bool_decide (u = bytes_of_string "us") || bool_decide (u = [194; 181; 115]) || bool_decide (u = [206; 188; 115])
  then Some 1000
  else if bool_decide (u = bytes_of_string "ms") then Some 1000000
  else if bool_decide (u = bytes_of_string "s") then Some 1000000000
  else if bool_decide (u = bytes_of_string "m") then Some 60000000000
  else if bool_decide (u = bytes_of_string "h") then Some 3600000000000
  else None.

(** One term: its value in nanoseconds and the rest. *)
Definition duration_term (s : bytes) : option (Z * bytes) :=
  if match s with c :: _ => (c =? 46) || is_digit c | [] => false end then
    match leadingInt 0 s with
    | None => None
    | Some (v, s1) =>
        let pre := negb (length s1 =? length s)%nat in
        let '(f, scale, s2, post) :=
          match s1 with
          | 46 :: s1' =>
              let '(f, scale, s2) := leadingFraction 0 f1 false s1' in
              (f, scale, s2, negb (length s2 =? length s1')%nat)
          | _ => (0, f1, s1, false)
          end in
        if negb pre && negb post then None
        else
          let '(u, s3) := unit_text s2 in
          match u with
          | [] => None
          | _ =>
              match unitMap u with
              | None => None
              | Some unit =>
                  if 2 ^ 63 / unit <? v then None
                  else
                    let v := v * unit in
                    if 0 <? f then
                      let v := u64 (v + u64 (float_to_int (fmul (float_of_int f) (fdiv (float_of_int unit) scale)))) in
                      if 2 ^ 63 <? v then None else Some (v, s3)
                    else Some (v, s3)
              end
          end
    end
  else None.

Fixpoint duration_terms (fuel : nat) (d : Z) (s : bytes) : option Z :=
  match s with
  | [] => Some d
  | _ =>
      match fuel with
      | O => None
      | S fuel' =>
          match duration_term s with
          | None => None
          | Some (v, s') => let d := u64 (d + v) in if 2 ^ 63 <? d then None else duration_terms fuel' d s'
          end
      end
  end.

Definition ParseDuration (s : bytes) : option Z :=
  let '(neg, s) :=
    match s with
    | c :: s' => if c =? 45 then (true, s') else if c =? 43 then (false, s') else (false, s)
    | [] => (false, [])
    end in
  if bool_decide (s = [48]) then Some 0
  else if bool_decide (s = []) then None
  else
    match duration_terms (length s) 0 s with
    | None => None
    | Some d => if neg then Some (i64 (- d)) else if 2 ^ 63 - 1 <? d then None else Some d
    end.

Example ParseDuration_examples :
  ParseDuration (bytes_of_string "10s") = Some 10000000000 /\
  ParseDuration (bytes_of_string "1h30m") = Some 5400000000000 /\
  ParseDuration (bytes_of_string "1.5s") = Some 1500000000 /\
  ParseDuration (bytes_of_string "-.25m") = Some (-15000000000) /\
  ParseDuration (bytes_of_string "0") = Some 0 /\
  ParseDuration (bytes_of_string "9223372036854775807ns") = Some max_int64 /\
  ParseDuration <$> (bytes_of_string <$> [""; "10"; "s"; "1d"; "."; ".s"; "1 s"; "9223372036854775808ns"; "3000000h"; "+"]%string) = replicate 10 None /\
  TrimSpace (bytes_of_string "  a b	 ") = bytes_of_string "a b" /\
  TrimSpace [194; 160; 97; 226; 128; 131; 227; 128; 128] = [97] /\
  TrimSpace [32; 32] = [] /\
  EqualFold (bytes_of_string "WebSocKet") (bytes_of_string "websocket") = true /\
  EqualFold (bytes_of_string " tcp") (bytes_of_string "tcp") = false.
Proof. by vm_compute. Qed.

Lemma duration_terms_range fuel d s d' :
  duration_terms fuel d s = Some d' -> 0 <= d <= 2 ^ 63 -> 0 <= d' <= 2 ^ 63.
Proof.
  revert d s. induction fuel as [|fuel IH]; intros d s E Hd; destruct s as [|c s]; try done; cbn [duration_terms] in E;
    try by injection E as <-.
  destruct (duration_term (c :: s)) as [[v s']|]; [|done]. destruct (2 ^ 63 <? _) eqn:Eo; [done|]. breflect.
  eapply IH; [exact E|]. pose proof (uwrap_range 64 (d + v)) as Hr. unfold in_u in Hr. lia.
Qed.

(** A parsed duration is an int64. *)
Lemma ParseDuration_range s d : ParseDuration s = Some d -> in_i64 d.
Proof.
  unfold ParseDuration, in_i64, min_int64, max_int64. destruct (match s with [] => _ | _ => _ end) as [neg s'].
  case_bool_decide; [intros [= <-]; lia|]. case_bool_decide; [done|].
  destruct (duration_terms _ _ _) as [d'|] eqn:E; [|done]. apply duration_terms_range in E; [|lia].
  destruct neg.
  - intros [= <-]. rewrite i64_small; unfold in_i64, min_int64, max_int64; lia.
  - destruct (_ <? d') eqn:E2; [done|]. breflect. intros [= <-]. lia.
Qed.
