(* ===== verification/Shared.v ===== *)
(** * Shared: retry and handler boundaries of [internal/transport/shared]

    The retry backoff (backoff.go), the classification of accept errors
    (accept_error.go), and the panic-isolated, metered call of a user handler
    (handler.go).

    Then the accept and read loops that use them ([internal/transport/tcp/server.go],
    [udp/server.go], [coap/server.go] and [quic/server.go]), as far as errors go:
    counters and log lines of the TCP server, and none of it in the QUIC server.
    What they do with a connection or a datagram is in [TcpServer], [UdpServer],
    [CoapServer] and [QuicSession]. *)
From S2P Require Import Prelude Bytes Core.
Local Open Scope string_scope.
Local Open Scope Z_scope.
Local Open Scope list_scope.

(** ** Backoff *)

(* go: internal/transport/shared/backoff.go:8-14 (DefaultBackoffMin) *)
Definition DefaultBackoffMin : Z := 5000000.
Definition DefaultBackoffMax : Z := 1000000000.

(* go: internal/transport/shared/backoff.go:16-28 (Backoff) *)
Record Backoff : Type := mkBackoff { bmin : Z; bmax : Z; delay : Z }.

(* go: internal/transport/shared/backoff.go:30-45 (NewBackoff) *)
Definition NewBackoff (min max : Z) : Backoff :=
  let min := if min <=? 0 then DefaultBackoffMin else min in
  let max := if max <=? 0 then DefaultBackoffMax else max in
  let max := if max <? min then min else max in
  mkBackoff min max 0.

(** [ctxDone] is which branch of the select fires. *)
(* go: internal/transport/shared/backoff.go:47-69 (Wait) *)
Definition Wait (ctxDone : bool) (b : Backoff) : bool * Backoff :=
  let d :=
    if delay b <=? 0 then bmin b
    else if bmax b <=? delay b then bmax b
    else
      let d := i64 (delay b * 2) in
      if bmax b <? d then bmax b else d in
  (negb ctxDone, mkBackoff (bmin b) (bmax b) d).

(* go: internal/transport/shared/backoff.go:71-72 (Reset) *)
Definition Reset_ (b : Backoff) : Backoff := mkBackoff (bmin b) (bmax b) 0.

(* go: internal/transport/shared/backoff.go:74-75 (Delay) *)
Definition Delay (b : Backoff) : Z := delay b.

(** The delays of [n] consecutive failures. *)
Fixpoint failures (n : nat) (b : Backoff) : list Z :=
  match n with
  | O => []
  | S n' => let b' := (Wait false b).2 in delay b' :: failures n' b'
  end.

Lemma NewBackoff_range min max :
  min <= 2 ^ 61 -> max <= 2 ^ 61 ->
  let b := NewBackoff min max in 0 < bmin b <= bmax b /\ bmax b <= 2 ^ 61 /\ delay b = 0.
Proof.
  intros Hmin Hmax. cbn zeta. unfold NewBackoff, DefaultBackoffMin, DefaultBackoffMax.
  cbn [bmin bmax delay]. destruct (Z.leb_spec min 0), (Z.leb_spec max 0);
    match goal with |- context [?a <? ?b] => destruct (Z.ltb_spec a b) end; lia.
Qed.

Lemma Wait_doubles b k :
  0 < bmin b <= bmax b -> bmax b <= 2 ^ 61 -> 0 <= k ->
  delay b = Z.min (2 ^ k * bmin b) (bmax b) ->
  delay (Wait false b).2 = Z.min (2 ^ (k + 1) * bmin b) (bmax b).
Proof.
  intros Hmin Hmax Hk E. unfold Wait. cbn [snd delay].
  assert (0 < 2 ^ k) by lia. rewrite Z.pow_add_r by lia. change (2 ^ 1) with 2.
  destruct (Z.leb_spec (delay b) 0) as [H0|H0]; [nia|].
  destruct (Z.leb_spec (bmax b) (delay b)) as [H1|H1]; [nia|].
  rewrite i64_small by (unfold in_i64, min_int64, max_int64; lia).
  destruct (Z.ltb_spec (bmax b) (delay b * 2)); nia.
Qed.

(** The retry delay starts at the configured minimum, doubles with each
    consecutive failure and stays at the configured maximum: the n-th failure
    in a row waits min(2^n * min, max), whatever bounds the caller passed (up to
    2^61 ns), the guards of the constructor included. *)
Theorem backoff_schedule min max n i :
  min <= 2 ^ 61 -> max <= 2 ^ 61 -> (i < n)%nat ->
  let b := NewBackoff min max in
  failures n b !! i = Some (Z.min (2 ^ Z.of_nat i * bmin b) (bmax b)) /\ 0 < bmin b <= bmax b.
Proof.
  intros Hmin Hmax Hi b. destruct (NewBackoff_range min max Hmin Hmax) as (Hr & Hx & Hd).
  fold b in Hr, Hx, Hd. split; [|done].
  enough (forall n i k b, 0 < bmin b <= bmax b -> bmax b <= 2 ^ 61 -> (i < n)%nat ->
    delay (Wait false b).2 = Z.min (2 ^ Z.of_nat k * bmin b) (bmax b) ->
    failures n b !! i = Some (Z.min (2 ^ Z.of_nat (k + i) * bmin b) (bmax b))) as H.
  { apply (H n i 0%nat b Hr Hx Hi). unfold Wait. rewrite Hd. cbn [snd delay].
    change (0 <=? 0) with true. cbn iota. change (2 ^ Z.of_nat 0) with 1. lia. }
  clear. induction n as [|n IH]; intros i k b Hr Hx Hi Hw; [lia|]. cbn [failures].
  destruct i as [|i]; cbn [lookup list_lookup].
  - by rewrite Hw, Nat.add_0_r.
  - change (bmin b) with (bmin (Wait false b).2). change (bmax b) with (bmax (Wait false b).2).
    replace (k + S i)%nat with (S k + i)%nat by lia. apply IH; [done|done|lia|].
    rewrite (Wait_doubles (Wait false b).2 (Z.of_nat k)); [|done|done|lia|exact Hw].
    do 3 f_equal. lia.
Qed.

Lemma backoff_schedule_witness :
  failures 12 (NewBackoff 0 0) !! 8%nat = Some DefaultBackoffMax /\
  failures 12 (NewBackoff 0 0) !! 2%nat = Some (4 * DefaultBackoffMin).
Proof.
  split.
  - by rewrite (proj1 (backoff_schedule 0 0 12 8 ltac:(lia) ltac:(lia) ltac:(lia))).
  - by rewrite (proj1 (backoff_schedule 0 0 12 2 ltac:(lia) ltac:(lia) ltac:(lia))).
Defined.

(** [Delay] reports the delay of the last [Wait], not of the next one. *)
Example Delay_is_the_last_one :
  let b := (Wait false (NewBackoff 0 0)).2 in
  Delay b = DefaultBackoffMin /\ Delay (Wait false b).2 = 2 * DefaultBackoffMin.
Proof. done. Qed.

(** ** Accept errors *)

(** [net.ErrClosed] and the errno values the classification looks for. *)
Definition net_ErrClosed : error := ErrMsg "use of closed network connection".
Definition EMFILE : error := ErrMsg "too many open files".
Definition ENFILE : error := ErrMsg "too many open files in system".
Definition ENOMEM : error := ErrMsg "cannot allocate memory".

(* go: internal/transport/shared/accept_error.go:9-33 (AcceptErrorKind) *)
Inductive AcceptErrorKind : Type := AcceptErrorClosed | AcceptErrorResource | AcceptErrorTemporary.

(* go: internal/transport/shared/accept_error.go:35-45 (AcceptErrorKind.String) *)
Definition AcceptErrorKind_String (k : AcceptErrorKind) : string :=
  match k with
  | AcceptErrorClosed => "closed"
  | AcceptErrorResource => "resource"
  | AcceptErrorTemporary => "temporary"
  end.

(* go: internal/transport/shared/accept_error.go:63-73 (IsResourceExhaustion) *)
Definition IsResourceExhaustion (err : error) : bool :=
  errors_Is err EMFILE || errors_Is err ENFILE || errors_Is err ENOMEM.

(* go: internal/transport/shared/accept_error.go:47-61 (ClassifyAcceptError) *)
Definition ClassifyAcceptError (err : option error) : AcceptErrorKind :=
  match err with
  | None => AcceptErrorTemporary
  | Some err =>
      if errors_Is err net_ErrClosed then AcceptErrorClosed
      else if IsResourceExhaustion err then AcceptErrorResource
      else AcceptErrorTemporary
  end.

(** ** Calling a user handler *)

(* go: internal/transport/shared/handler.go:18-30 (MetricHandlerDuration) *)
Definition MetricHandlerDuration : string := "handler_duration_seconds".
Definition MetricMessagesTotal : string := "messages_total".
Definition MetricSessionsRejected : string := "sessions_rejected_total".
Definition MetricSessionsReclaimed : string := "sessions_reclaimed_total".

(** A recovered panic is the handler-panic error; the log line is left out. *)
(* go: internal/transport/shared/handler.go:32-49 (CallHandler) *)
Definition CallHandler {W} (fn : W -> outcome (option error) * W) (w : W) : option error * W :=
  match fn w with
  | (Returned err, w') => (err, w')
  | (Panicked, w') => (Some ErrHandlerPanic, w')
  end.

(** The metric calls; none when the backend is nil. *)
(* go: internal/transport/shared/handler.go:51-73 (CallHandlerObserved) *)
Definition CallHandlerObserved {W} (metrics : bool) (protocol : Protocol)
    (fn : W -> outcome (option error) * W) (w : W) : option error * list metric_call * W :=
  let '(err, w') := CallHandler fn w in
  if metrics then
    let labels := ProtocolLabel protocol in
    (err, [ObserveHistogram MetricHandlerDuration labels; IncCounter MetricMessagesTotal labels], w')
  else (err, [], w').

(* go: internal/transport/shared/handler.go:75-85 (IncProtocolCounter) *)
Definition IncProtocolCounter (metrics : bool) (name : string) (protocol : Protocol) : list metric_call :=
  if metrics then [IncCounter name (ProtocolLabel protocol)] else [].

(** * How the accept and read loops take errors *)

(** What [Accept], or a read of the socket, comes back with, and what the loop then
    finds: the server closed, its context done; the context done during the wait. *)
Record round : Type := mkRound {
  result_ : option error;
  closed : bool;
  ctxDone : bool;
  ctxDone_in_wait : bool
}.

(** What a loop does, in order. *)
Inductive action : Type :=
| Served
| Counted (name : string)
| Warned (kind : AcceptErrorKind)
| Waited (delay : Z)
| Returned_.

(** [reported]: the streak of failures has its log line. *)
(* go: internal/transport/tcp/server.go:212-268 (acceptLoop) *)
Fixpoint tcp_acceptLoop (b : Backoff) (reported : bool) (rounds : list round) : list action :=
  match rounds with
  | [] => []
  | r :: rounds =>
      match result_ r with
      | None => Served :: tcp_acceptLoop (Reset_ b) false rounds
      | Some err =>
          if closed r || ctxDone r then [Returned_]
          else
            match ClassifyAcceptError (Some err) with
            | AcceptErrorClosed => [Returned_]
            | kind =>
                let '(again, b) := Wait (ctxDone_in_wait r) b in
                Counted "accept_errors_total" ::
                (match kind with AcceptErrorResource => [Counted "accept_resource_errors_total"] | _ => [] end) ++
                (if reported then [] else [Warned kind]) ++ Waited (delay b) ::
                (if again then tcp_acceptLoop b true rounds else [Returned_])
            end
      end
  end.

(** The read loop of a plain socket and the accept loop of a DTLS listener, of the
    CoAP server and of the UDP server. *)
(* go: internal/transport/udp/server.go:290-315 (readLoop) *)
Fixpoint udp_readLoop (b : Backoff) (rounds : list round) : list action :=
  match rounds with
  | [] => []
  | r :: rounds =>
      match result_ r with
      | None => Served :: udp_readLoop (Reset_ b) rounds
      | Some err =>
          if closed r || ctxDone r || errors_Is err net_ErrClosed then [Returned_]
          else
            let '(again, b) := Wait (ctxDone_in_wait r) b in
            Waited (delay b) :: (if again then udp_readLoop b rounds else [Returned_])
      end
  end.

(* go: internal/transport/udp/server.go:174-208 (dtlsAcceptLoop) *)
Definition udp_dtlsAcceptLoop : Backoff -> list round -> list action := udp_readLoop.
(* go: internal/transport/coap/server.go:243-278 (dtlsAcceptLoop) *)
Definition coap_dtlsAcceptLoop : Backoff -> list round -> list action := udp_readLoop.
(* go: internal/transport/coap/server.go:353-381 (readLoop) *)
Definition coap_readLoop : Backoff -> list round -> list action := udp_readLoop.

(** No classification and no wait. *)
(* go: internal/transport/quic/server.go:133-143 (acceptLoop) *)
Fixpoint quic_acceptLoop (rounds : list round) : list action :=
  match rounds with
  | [] => []
  | r :: rounds =>
      match result_ r with
      | None => Served :: quic_acceptLoop rounds
      | Some _ => if closed r || ctxDone r then [Returned_] else quic_acceptLoop rounds
      end
  end.

Definition loop_backoff : Backoff := NewBackoff DefaultBackoffMin DefaultBackoffMax.

(** ** A streak of failures *)

(** A failure of a running server that is not about a closed socket. *)
Definition failing (r : round) : Prop :=
  closed r = false /\ ctxDone r = false /\ ctxDone_in_wait r = false /\
  exists err, result_ r = Some err /\ errors_Is err net_ErrClosed = false.

Definition delays (l : list action) : list Z := omap (fun a => match a with Waited d => Some d | _ => None end) l.
Definition count (counts : action -> bool) (l : list action) : nat := length (omap (fun a => if counts a then Some a else None) l).
Definition counted (name : string) : list action -> nat :=
  count (fun a => match a with Counted n => String.eqb n name | _ => false end).
Definition warnings : list action -> nat := count (fun a => match a with Warned _ => true | _ => false end).
Definition served : list action -> nat := count (fun a => match a with Served => true | _ => false end).

Lemma failing_wait r b : failing r -> Wait (ctxDone_in_wait r) b = (true, (Wait false b).2).
Proof. intros (_ & _ & -> & _). done. Qed.

Lemma failing_kind r : failing r ->
  exists err, result_ r = Some err /\ errors_Is err net_ErrClosed = false /\ closed r || ctxDone r = false /\
    (ClassifyAcceptError (Some err) = AcceptErrorResource \/ ClassifyAcceptError (Some err) = AcceptErrorTemporary).
Proof.
  intros (Hc & Hd & _ & err & Hr & He). exists err. rewrite Hc, Hd. split_and!; try done.
  unfold ClassifyAcceptError. rewrite He. destruct (IsResourceExhaustion err); auto.
Qed.

Lemma tcp_round r b reported rs :
  failing r -> exists kind extra, (extra = [] \/ extra = [Counted "accept_resource_errors_total"]) /\
    tcp_acceptLoop b reported (r :: rs) =
      Counted "accept_errors_total" :: extra ++ (if reported then [] else [Warned kind]) ++
      Waited (delay (Wait false b).2) :: tcp_acceptLoop (Wait false b).2 true rs.
Proof.
  intros Hf. destruct (failing_kind r Hf) as (err & Hr & _ & Hc & Hk). pose proof (failing_wait r b Hf) as Hw.
  cbn [tcp_acceptLoop]. rewrite Hr, Hc, Hw.
  destruct Hk as [-> | ->]; [exists AcceptErrorResource, [Counted "accept_resource_errors_total"]|exists AcceptErrorTemporary, []];
    (split; [auto|done]).
Qed.

Lemma udp_round r b rs :
  failing r -> udp_readLoop b (r :: rs) = Waited (delay (Wait false b).2) :: udp_readLoop (Wait false b).2 rs.
Proof.
  intros Hf. destruct (failing_kind r Hf) as (err & Hr & He & Hc & _). pose proof (failing_wait r b Hf) as Hw.
  cbn [udp_readLoop]. by rewrite Hr, Hc, He, Hw.
Qed.

Lemma tcp_streak rs rest b reported :
  Forall failing rs -> exists actions b',
    tcp_acceptLoop b reported (rs ++ rest) = actions ++ tcp_acceptLoop b' (reported || bool_decide (rs <> [])) rest /\
    delays actions = failures (length rs) b /\ counted "accept_errors_total" actions = length rs /\
    warnings actions = (if reported then 0 else Nat.min 1 (length rs))%nat /\ served actions = 0%nat /\ Reset_ b' = Reset_ b.
Proof.
  intros Hrs. revert b reported. induction Hrs as [|r rs Hr Hrs IH]; intros b reported.
  - exists [], b. cbn [app length]. rewrite bool_decide_eq_false_2 by (by intros []). rewrite orb_false_r.
    split_and!; try done. by destruct reported.
  - cbn [app]. destruct (tcp_round r b reported (rs ++ rest) Hr) as (kind & extra & Hx & ->).
    destruct (IH (Wait false b).2 true) as (actions & b' & -> & Hd & Hc & Hw & Hs & Hb).
    exists (Counted "accept_errors_total" :: extra ++ (if reported then [] else [Warned kind]) ++
            Waited (delay (Wait false b).2) :: actions), b'.
    cbn [orb]. rewrite (bool_decide_eq_true_2 (r :: rs <> [])), orb_true_r by done.
    destruct Hx as [-> | ->], reported; cbn; rewrite <- ?app_assoc; (split; [done|]);
      unfold delays, counted, warnings, served, count in *; cbn; rewrite Hd; split_and!; try done; lia.
Qed.

Lemma udp_streak rs rest b :
  Forall failing rs -> exists actions b',
    udp_readLoop b (rs ++ rest) = actions ++ udp_readLoop b' rest /\
    delays actions = failures (length rs) b /\ served actions = 0%nat /\ Reset_ b' = Reset_ b.
Proof.
  intros Hrs. revert b. induction Hrs as [|r rs Hr Hrs IH]; intros b; [by exists [], b|].
  cbn [app]. rewrite (udp_round r b (rs ++ rest) Hr). destruct (IH (Wait false b).2) as (actions & b' & -> & Hd & Hs & Hb).
  exists (Waited (delay (Wait false b).2) :: actions), b'. split; [done|].
  unfold delays, served, count in *. cbn. rewrite Hd. by split_and!.
Qed.

(** The ninth wait of a streak and all later ones last a second. *)
Lemma failures_at_max n b : 0 < bmax b -> delay b = bmax b -> failures n b = replicate n (bmax b).
Proof.
  intros Hp. revert b Hp. induction n as [|n IH]; intros b Hp Hd; [done|]. cbn [failures replicate].
  assert (delay (Wait false b).2 = bmax b) as E.
  { unfold Wait. cbn [snd delay]. rewrite Hd, (proj2 (Z.leb_gt _ _)) by done. by rewrite Z.leb_refl. }
  rewrite E. f_equal. by rewrite IH.
Qed.

Definition total (l : list Z) : Z := foldr Z.add 0 l.

Lemma total_replicate n d : total (replicate n d) = Z.of_nat n * d.
Proof. induction n as [|n IH]; [done|]. cbn [replicate total foldr]. fold (total (replicate n d)). rewrite IH. lia. Qed.

Lemma total_app l l' : total (l ++ l') = total l + total l'.
Proof. induction l as [|x l IH]; cbn; [done|]. unfold total in *. cbn. lia. Qed.

Lemma failures_app n m b : failures (n + m) b = failures n b ++ failures m (Nat.iter n (fun b => (Wait false b).2) b).
Proof.
  revert b. induction n as [|n IH]; intros b; [done|]. cbn [Nat.add failures app]. rewrite IH. do 2 f_equal.
  f_equal. by rewrite Nat.iter_succ_r.
Qed.

Lemma streak_takes n : (Z.of_nat n - 8) * DefaultBackoffMax <= total (failures n loop_backoff).
Proof.
  assert (forall k, (k <= 8)%nat -> 0 <= total (failures k loop_backoff)) as Hs
    by (intros k Hk; do 9 (destruct k as [|k]; [vm_compute; discriminate|]); lia).
  destruct (Nat.le_gt_cases n 8) as [Hn|Hn].
  - specialize (Hs n Hn). unfold DefaultBackoffMax. lia.
  - replace n with (9 + (n - 9))%nat by lia. rewrite failures_app.
    assert (Nat.iter 9 (fun b => (Wait false b).2) loop_backoff = mkBackoff DefaultBackoffMin DefaultBackoffMax DefaultBackoffMax)
      as -> by by vm_compute.
    rewrite total_app, (failures_at_max (n - 9)) by (by vm_compute). rewrite total_replicate. cbn [bmax].
    assert (DefaultBackoffMax <= total (failures 9 loop_backoff)) by (vm_compute; discriminate). lia.
Qed.

(** ** Theorems *)

(** The accept loop of the TCP server and the read and accept loops of the UDP
    and CoAP servers survive any streak of [n] failures and are not spun by it:
    they wait after each one, five milliseconds at first and twice as long each
    time up to a second, so a streak of [n] takes at least [n - 8] seconds; after a
    success the next streak starts over. The TCP server counts every failure and
    logs one line per streak. *)
Theorem accept_errors_paced rs r rest :
  Forall failing rs -> result_ r = None ->
  let n := length rs in
  (exists tcp, tcp_acceptLoop loop_backoff false (rs ++ r :: rest) = tcp ++ Served :: tcp_acceptLoop loop_backoff false rest /\
     delays tcp = failures n loop_backoff /\ counted "accept_errors_total" tcp = n /\ warnings tcp = Nat.min 1 n /\ served tcp = 0%nat) /\
  (exists udp, udp_readLoop loop_backoff (rs ++ r :: rest) = udp ++ Served :: udp_readLoop loop_backoff rest /\
     delays udp = failures n loop_backoff /\ served udp = 0%nat) /\
  (Z.of_nat n - 8) * DefaultBackoffMax <= total (failures n loop_backoff).
Proof.
  intros Hrs Hr n. split_and!; [| |apply streak_takes].
  - destruct (tcp_streak rs (r :: rest) loop_backoff false Hrs) as (tcp & b' & E & Hd & Hc & Hw & Hs & Hb).
    exists tcp. rewrite E. split_and!; try done. cbn [tcp_acceptLoop]. rewrite Hr. by rewrite Hb.
  - destruct (udp_streak rs (r :: rest) loop_backoff Hrs) as (udp & b' & E & Hd & Hs & Hb).
    exists udp. rewrite E. split_and!; try done. cbn [udp_readLoop]. rewrite Hr. by rewrite Hb.
Qed.

(** The QUIC server's accept loop does none of this: a failure leaves no trace
    - no wait, no counter, no log line - and the loop goes straight on, so a listener
    that fails for good, which does not by itself close the server, is asked again
    and again without a pause. *)
Theorem quic_errors_spin rs rest : Forall failing rs -> quic_acceptLoop (rs ++ rest) = quic_acceptLoop rest.
Proof.
  induction 1 as [|r rs Hr Hrs IH]; [done|]. destruct (failing_kind r Hr) as (err & Hres & _ & Hc & _).
  cbn [app quic_acceptLoop]. by rewrite Hres, Hc.
Qed.

(** The loops end exactly when they should: at the first failure of a server that
    is closed or whose context is done - and, but for QUIC's, at the first one that
    says that the socket is closed. *)
Theorem accept_loops_end r rest b reported err :
  result_ r = Some err ->
  ((closed r || ctxDone r || errors_Is err net_ErrClosed) = true ->
     tcp_acceptLoop b reported (r :: rest) = [Returned_] /\ udp_readLoop b (r :: rest) = [Returned_]) /\
  ((closed r || ctxDone r) = true -> quic_acceptLoop (r :: rest) = [Returned_]) /\
  ((closed r || ctxDone r || errors_Is err net_ErrClosed) = false ->
     (Returned_ ∈ tcp_acceptLoop b reported [r] <-> ctxDone_in_wait r = true)).
Proof.
  intros Hr. cbn [tcp_acceptLoop udp_readLoop quic_acceptLoop]. rewrite Hr. split_and!.
  - intros H. rewrite H. split; [|done]. unfold ClassifyAcceptError. destruct (closed r || ctxDone r); [done|].
    cbn [orb] in H. by rewrite H.
  - by intros ->.
  - intros H. apply orb_false_iff in H as [-> He]. unfold ClassifyAcceptError. rewrite He.
    destruct (ctxDone_in_wait r), (IsResourceExhaustion err), reported; cbn; (split; [|done || intros; set_solver]); intros; set_solver.
Qed.

(** ** Witnesses *)

Definition no_descriptors : round := mkRound (Some EMFILE) false false false.
Definition a_connection : round := mkRound None false false false.

Lemma no_descriptors_failing n : Forall failing (replicate n no_descriptors).
Proof. apply Forall_replicate. split_and!; try done. by exists EMFILE. Qed.

Lemma accept_errors_paced_witness :
  exists tcp, tcp_acceptLoop loop_backoff false (replicate 3 no_descriptors ++ [a_connection]) = tcp ++ [Served] /\
    delays tcp = [5000000; 10000000; 20000000] /\ warnings tcp = 1%nat.
Proof.
  destruct (accept_errors_paced (replicate 3 no_descriptors) a_connection [] (no_descriptors_failing 3) eq_refl)
    as ((tcp & E & Hd & _ & Hw & _) & _). exists tcp. split; [exact E|]. split; [rewrite Hd; reflexivity|exact Hw].
Defined.

Lemma quic_errors_spin_witness : quic_acceptLoop (replicate 100 no_descriptors ++ [a_connection]) = quic_acceptLoop [a_connection].
Proof. apply (quic_errors_spin _ _ (no_descriptors_failing 100)). Defined.

Lemma accept_loops_end_witness :
  tcp_acceptLoop loop_backoff false [mkRound (Some net_ErrClosed) false false false] = [Returned_].
Proof.
  apply (accept_loops_end (mkRound (Some net_ErrClosed) false false false) [] loop_backoff false net_ErrClosed eq_refl). reflexivity.
Defined.
