(* ===== verification/Pool.v ===== *)
(** * Pool: [internal/transport/shared/pool_core.go], [worker_pool.go] and
    [pool_scalable.go]

    The worker pools that run user handlers off the read path.  The queue, the
    submitters, the workers and [Stop] run concurrently; [pool_step] has one
    step per synchronisation of the code, and the theorems hold for every
    interleaving.  The fixed and the elastic pool share it: the elastic one adds
    and retires workers at run time. *)
From Stdlib Require Import SpecFloat.
From S2P Require Import Prelude Bytes Core Acceptor Shared.
Local Open Scope string_scope.
Local Open Scope Z_scope.
Local Open Scope list_scope.

(* go: internal/transport/shared/worker_pool.go:10-20 (FullPolicy) *)
Inductive FullPolicy : Type := PolicyBlock | PolicyDrop | PolicyClose.

#[export] Instance FullPolicy_eq_dec : EqDecision FullPolicy.
Proof. solve_decision. Defined.

(** The capacity of the queue. *)
(* go: internal/transport/shared/pool_core.go:39-55 (newPoolCore) *)
Definition queue_size (workers queueSize : Z) : Z :=
  let workers := if workers <=? 0 then 1 else workers in
  if queueSize <=? 0 then workers * 128 else queueSize.

(** ** The handler boundary *)

(** [submit] in the pool: nil or the error, and whether it closes the session.
    [full] says that the queue has no room; a full queue under [PolicyBlock]
    waits for one of the other two cases. *)
(* go: internal/transport/shared/pool_core.go:121-150 (submit) *)
Definition submit_refusal (policy : FullPolicy) (full poolDone sessionDone : bool) : option (error * bool) :=
  match policy with
  | PolicyDrop => if full then Some (ErrWriteQueueFull, false) else None
  | PolicyClose => if full then Some (ErrWriteQueueFull, true) else None
  | PolicyBlock =>
      if poolDone then Some (ErrClosed, false)
      else if sessionDone then Some (ErrSessionClosed, false) else None
  end.

(** One task: nothing without a handler or a session; an error or a panic of
    the handler closes the session. *)
(* go: internal/transport/shared/pool_core.go:153-172 (handle) *)
Definition handle {W} (handler : option (Message -> W -> outcome (option error) * W)) (metrics : bool)
    (session : option Z) (protocol : Protocol) (payload : list Z) (w : W) :
    list metric_call * option Z * W :=
  match handler, session with
  | Some h, Some id =>
      let msg := mkMessage id protocol payload ∅ in
      let '(err, calls, w') := CallHandlerObserved metrics protocol (h msg) w in
      (calls, match err with Some _ => Some id | None => None end, w')
  | _, _ => ([], None, w)
  end.

Section pool.
(** A task: the session, the protocol and the payload. *)
Context {Task : Type}.

(** A worker waits for a task, runs one, drains the queue after [done], runs
    one of those, or has returned. *)
(* go: internal/transport/shared/pool_scalable.go:306-328 (run) *)
Inductive worker : Type :=
| Idle
| Busy (t : Task)
| Draining
| DrainBusy (t : Task)
| Exited.

(** How far [Stop] has got: not called; [closed] and [done] set; the retire
    channels closed and the write lock asked for; the lock held and the workers
    waited for; sweeping the queue; returned. *)
(* go: internal/transport/shared/pool_scalable.go:249-270 (Stop) *)
Inductive stop_phase : Type := Running | Closing | WantLock | Locked | Sweeping | Stopped.

#[export] Instance stop_phase_eq_dec : EqDecision stop_phase.
Proof. solve_decision. Defined.

(** [inflight] are the submitters past the closed check, which hold the read
    lock.  The n-th worker started has number n; [active] is the map of
    workers, [retired] the workers whose retire channel is closed, [adding]
    says that [addWorker] is between its second closed check and its end, which
    it passes holding the mutex.  [accepted] and [handled] are the history. *)
(* go: internal/transport/shared/pool_scalable.go:47-86 (ScalablePool) *)
Record pool : Type := mkPool {
  queue : list Task;
  inflight : list Task;
  workers : list worker;
  active : gset nat;
  retired : gset nat;
  adding : bool;
  phase : stop_phase;
  accepted : list Task;
  handled : list Task
}.

(** [beginClose] sets the flag, for good. *)
(* go: internal/transport/shared/pool_core.go:174-183 (beginClose) *)
Definition closed (p : pool) : bool := bool_decide (phase p <> Running).

Variable policy : FullPolicy.
Variable cap : nat.
(** An elastic pool has at most [maxWorker] workers; a fixed one starts its
    workers and neither adds nor retires any. *)
Variable elastic : bool.
Variable maxWorker : nat.

(** The pool with worker [i] in state [w], queue [q] and history [h]. *)
Definition set_worker (p : pool) (i : nat) (w : worker) (q h : list Task) : pool :=
  mkPool q (inflight p) (<[i := w]> (workers p))
    (match w with Exited => active p ∖ {[i]} | _ => active p end)
    (retired p) (adding p) (phase p) (accepted p) h.
Definition set_phase (p : pool) (ph : stop_phase) : pool :=
  mkPool (queue p) (inflight p) (workers p) (active p) (retired p) (adding p) ph (accepted p) (handled p).

(** Submitters.  A submission that has passed the closed check either puts its
    task in the queue or is refused. *)
(* go: internal/transport/shared/pool_core.go:97-151 (submit) *)
Inductive submit_step (p : pool) : pool -> Prop :=
| SubmitEnter t :
    closed p = false ->
    submit_step p (mkPool (queue p) (t :: inflight p) (workers p) (active p) (retired p) (adding p)
                     (phase p) (accepted p) (handled p))
| SubmitEnqueue t l1 l2 :
    inflight p = l1 ++ t :: l2 -> (length (queue p) < cap)%nat ->
    submit_step p (mkPool (queue p ++ [t]) (l1 ++ l2) (workers p) (active p) (retired p) (adding p)
                     (phase p) (accepted p ++ [t]) (handled p))
| SubmitRefuse t l1 l2 sessionDone r :
    inflight p = l1 ++ t :: l2 ->
    submit_refusal policy (bool_decide (cap <= length (queue p))%nat) (closed p) sessionDone = Some r ->
    submit_step p (mkPool (queue p) (l1 ++ l2) (workers p) (active p) (retired p) (adding p)
                     (phase p) (accepted p) (handled p)).

(** Workers, one step per task taken and per task finished. *)
(* go: internal/transport/shared/pool_scalable.go:311-335 (run) *)
Inductive worker_step (p : pool) : pool -> Prop :=
| WorkerTake i t q :
    workers p !! i = Some Idle -> queue p = t :: q -> worker_step p (set_worker p i (Busy t) q (handled p))
| WorkerDone i t :
    workers p !! i = Some (Busy t) -> worker_step p (set_worker p i Idle (queue p) (handled p ++ [t]))
| WorkerSeesDone i :
    workers p !! i = Some Idle -> closed p = true -> worker_step p (set_worker p i Draining (queue p) (handled p))
| DrainTake i t q :
    workers p !! i = Some Draining -> queue p = t :: q -> worker_step p (set_worker p i (DrainBusy t) q (handled p))
| DrainDone i t :
    workers p !! i = Some (DrainBusy t) -> worker_step p (set_worker p i Draining (queue p) (handled p ++ [t]))
| DrainExit i :
    workers p !! i = Some Draining -> queue p = [] -> adding p = false ->
    worker_step p (set_worker p i Exited (queue p) (handled p))
| WorkerRetire i :
    workers p !! i = Some Idle -> i ∈ retired p -> adding p = false ->
    worker_step p (set_worker p i Exited (queue p) (handled p)).

(** Scaling: a worker is added or asked to retire under the mutex.  Closing the
    retire channel after the mutex is released is one step with the removal: a
    worker that has not seen it yet behaves as before. *)
(* go: internal/transport/shared/pool_scalable.go:226-304 (addWorker) *)
Inductive scale_step (p : pool) : pool -> Prop :=
| AddEnter :
    elastic = true -> closed p = false -> adding p = false ->
    scale_step p (mkPool (queue p) (inflight p) (workers p) (active p) (retired p) true
                    (phase p) (accepted p) (handled p))
| AddFull :
    adding p = true -> (maxWorker <= size (active p))%nat ->
    scale_step p (mkPool (queue p) (inflight p) (workers p) (active p) (retired p) false
                    (phase p) (accepted p) (handled p))
| AddStart :
    adding p = true -> (size (active p) < maxWorker)%nat ->
    scale_step p (mkPool (queue p) (inflight p) (workers p ++ [Idle]) ({[length (workers p)]} ∪ active p)
                    (retired p) false (phase p) (accepted p) (handled p))
| RetireOne i :
    elastic = true -> adding p = false -> i ∈ active p ->
    scale_step p (mkPool (queue p) (inflight p) (workers p) (active p ∖ {[i]}) ({[i]} ∪ retired p)
                    false (phase p) (accepted p) (handled p)).

(** [Stop], by one caller. *)
(* go: internal/transport/shared/worker_pool.go:97-123 (Stop) *)
Inductive stop_step (p : pool) : pool -> Prop :=
| StopBegin : phase p = Running -> stop_step p (set_phase p Closing)
| StopRetire :
    phase p = Closing -> adding p = false ->
    stop_step p (mkPool (queue p) (inflight p) (workers p)
                   (if elastic then ∅ else active p)
                   (if elastic then active p ∪ retired p else retired p)
                   false WantLock (accepted p) (handled p))
| StopLock : phase p = WantLock -> inflight p = [] -> stop_step p (set_phase p Locked)
| StopWait :
    phase p = Locked -> Forall (fun w => w = Exited) (workers p) -> stop_step p (set_phase p Sweeping)
| StopSweep t q :
    phase p = Sweeping -> queue p = t :: q ->
    stop_step p (mkPool q (inflight p) (workers p) (active p) (retired p) (adding p)
                   (phase p) (accepted p) (handled p ++ [t]))
| StopReturn : phase p = Sweeping -> queue p = [] -> stop_step p (set_phase p Stopped).

Inductive pool_step (p : pool) : pool -> Prop :=
| by_submit p' : submit_step p p' -> pool_step p p'
| by_worker p' : worker_step p p' -> pool_step p p'
| by_scale p' : scale_step p p' -> pool_step p p'
| by_stop p' : stop_step p p' -> pool_step p p'.

(** A started pool. *)
(* go: internal/transport/shared/worker_pool.go:70-79 (Start) *)
Definition started (n : nat) : pool :=
  mkPool [] [] (replicate n Idle) (set_seq 0 n) ∅ false Running [] [].

Definition reachable (n : nat) (p : pool) : Prop := star pool_step (started n) p.

(** ** The invariant *)

Definition running (w : worker) : list Task :=
  match w with Busy t | DrainBusy t => [t] | _ => [] end.

Definition in_hand (l : list worker) : list Task := l ≫= running.

(** [Stop] has the write lock. *)
Definition has_lock (ph : stop_phase) : bool :=
  match ph with Locked | Sweeping | Stopped => true | _ => false end.
Definition waited (ph : stop_phase) : bool :=
  match ph with Sweeping | Stopped => true | _ => false end.

(** Every accepted task is in exactly one place. *)
Record pool_ok (p : pool) : Prop := {
  po_tasks : accepted p ≡ₚ handled p ++ in_hand (workers p) ++ queue p;
  po_queue : (length (queue p) <= cap)%nat;
  po_locked : has_lock (phase p) = true -> inflight p = [];
  po_adding : adding p = true -> phase p = Running \/ phase p = Closing;
  po_exited : waited (phase p) = true -> Forall (fun w => w = Exited) (workers p);
  po_empty : phase p = Stopped -> queue p = [];
  po_active : elastic = true -> (size (active p) <= maxWorker)%nat
}.

Lemma exited_not_live l i w : Forall (fun w => w = Exited) l -> l !! i = Some w -> w = Exited.
Proof. intros H Hi. by eapply Forall_lookup_1 in H. Qed.

(** A step of a live worker keeps the tasks in place. *)
Lemma set_worker_ok p i w w' q h :
  pool_ok p -> workers p !! i = Some w -> w <> Exited ->
  handled p ++ running w ++ queue p ≡ₚ h ++ running w' ++ q ->
  (length q <= length (queue p))%nat -> pool_ok (set_worker p i w' q h).
Proof.
  intros [H1 H2 H3 H4 H5 H6 H7] Hi Hw Hp Hq.
  destruct (bind_insert running (workers p) i w w' Hi) as (rest & E1 & E2).
  assert (waited (phase p) = false) as Hs.
  { destruct (waited (phase p)); [|done]. by destruct Hw; apply (exited_not_live _ i _ (H5 eq_refl)). }
  split; cbn [set_worker queue inflight workers active adding phase accepted handled]; try done.
  - rewrite H1. unfold in_hand. rewrite E1, E2.
    transitivity (rest ++ (handled p ++ running w ++ queue p)); [|rewrite Hp].
    + rewrite <- !app_assoc. rewrite (Permutation_app_comm rest (queue p)). rewrite !app_assoc.
      rewrite (Permutation_app_comm _ rest). by rewrite !app_assoc.
    + symmetry. rewrite <- !app_assoc. rewrite (Permutation_app_comm rest q). rewrite !app_assoc.
      rewrite (Permutation_app_comm _ rest). by rewrite !app_assoc.
  - lia.
  - by rewrite Hs.
  - intros E. by rewrite E in Hs.
  - intros E. specialize (H7 E). destruct w'; try done.
    pose proof (subseteq_size (active p ∖ {[i]}) (active p)). set_solver by lia.
Qed.

Lemma submit_step_ok p p' : pool_ok p -> submit_step p p' -> pool_ok p'.
Proof.
  intros [H1 H2 H3 H4 H5 H6 H7] [t Hc|t l1 l2 E Hc|t l1 l2 sd r E Hr];
    split; cbn [queue inflight workers active adding phase accepted handled]; try done.
  - intros E. unfold closed in Hc. apply bool_decide_eq_false, dec_stable in Hc. by rewrite Hc in E.
  - rewrite H1, <- !app_assoc. done.
  - rewrite length_app. cbn. lia.
  - intros L. specialize (H3 L). rewrite E in H3. by destruct l1.
  - intros L. rewrite L in H3. specialize (H3 eq_refl). rewrite E in H3. by destruct l1.
  - intros L. specialize (H3 L). rewrite E in H3. by destruct l1.
Qed.

Lemma worker_step_ok p p' : pool_ok p -> worker_step p p' -> pool_ok p'.
Proof.
  intros Hok Hstep. destruct Hstep as [i t q Hi E|i t Hi|i Hi|i t q Hi E|i t Hi|i Hi|i Hi];
    (eapply set_worker_ok; [done|done|done|..]); rewrite ?E; cbn; try done; try lia;
    by rewrite <- app_assoc.
Qed.

Lemma scale_step_ok p p' : pool_ok p -> scale_step p p' -> pool_ok p'.
Proof.
  intros [H1 H2 H3 H4 H5 H6 H7] [E Hc Ha|Ha Hm|Ha Hm|i E Ha Hi];
    split; cbn [queue inflight workers active adding phase accepted handled]; try done.
  - intros _. left. unfold closed in Hc. by apply bool_decide_eq_false, dec_stable in Hc.
  - rewrite H1. unfold in_hand. rewrite bind_app. cbn. by rewrite app_nil_r.
  - intros L. destruct (H4 Ha) as [->| ->] in L; done.
  - intros E. specialize (H7 E). pose proof (size_union_alt {[length (workers p)]} (active p)) as Hs.
    rewrite Hs, size_singleton.
    pose proof (subseteq_size (active p ∖ {[length (workers p)]}) (active p)). set_solver by lia.
  - intros _. specialize (H7 E). pose proof (subseteq_size (active p ∖ {[i]}) (active p)). set_solver by lia.
Qed.

Lemma stop_step_ok p p' : pool_ok p -> stop_step p p' -> pool_ok p'.
Proof.
  intros [H1 H2 H3 H4 H5 H6 H7] [E|E Ha|E Hl|E Hw|t q E Hq|E Hq];
    split; cbn [set_phase queue inflight workers active adding phase accepted handled]; try done.
  - intros Ha. by right.
  - intros ->. rewrite size_empty. lia.
  - intros Ha. destruct (H4 Ha); congruence.
  - intros _. apply H3. by rewrite E.
  - intros Ha. destruct (H4 Ha); congruence.
  - rewrite H1, Hq. rewrite <- !app_assoc. f_equiv. rewrite (Permutation_app_comm [t]).
    by rewrite <- app_assoc, (Permutation_app_comm q [t]).
  - rewrite Hq in H2. cbn in H2. lia.
  - congruence.
  - intros _. apply H3. by rewrite E.
  - intros Ha. destruct (H4 Ha); congruence.
  - intros _. apply H5. by rewrite E.
Qed.

Lemma pool_step_ok p p' : pool_ok p -> pool_step p p' -> pool_ok p'.
Proof.
  intros Hok [q Hs|q Hs|q Hs|q Hs];
    eauto using submit_step_ok, worker_step_ok, scale_step_ok, stop_step_ok.
Qed.

Lemma started_ok n : (n <= maxWorker)%nat -> pool_ok (started n).
Proof.
  intros Hn. split; cbn; try done.
  - unfold in_hand. cbn. by induction n as [|n IH]; cbn; [|apply IH; lia].
  - lia.
  - intros _. by rewrite size_set_seq.
Qed.

Lemma reachable_ok n p : (n <= maxWorker)%nat -> reachable n p -> pool_ok p.
Proof. intros Hn Hr. by eapply (star_invariant pool_step pool_ok pool_step_ok); [|apply started_ok]. Qed.

(** ** Nothing accepted is lost *)

Lemma in_hand_exited l : Forall (fun w => w = Exited) l -> in_hand l = [].
Proof. induction 1 as [|w l -> _ IH]; [done|]. exact IH. Qed.

(** C8: Every task a pool accepted has been handled exactly once when [Stop]
    returns, whatever the interleaving of the submitters, the workers, the
    scaling and [Stop]; no submitter is left inside; and at any moment a task
    accepted is in exactly one place: handled, in the hands of a worker, or in
    the queue, which never exceeds its capacity. *)
Theorem pool_handles_accepted n p :
  (n <= maxWorker)%nat -> reachable n p ->
  accepted p ≡ₚ handled p ++ in_hand (workers p) ++ queue p /\
  (length (queue p) <= cap)%nat /\
  (phase p = Stopped -> handled p ≡ₚ accepted p /\ inflight p = []).
Proof.
  intros Hn Hr. destruct (reachable_ok n p Hn Hr) as [H1 H2 H3 H4 H5 H6 H7].
  split; [done|]. split; [done|]. intros E. rewrite E in *.
  split; [|by apply H3]. by rewrite H1, (in_hand_exited _ (H5 eq_refl)), (H6 eq_refl), app_nil_r.
Qed.

(** An elastic pool never has more workers than its maximum, whatever the
    interleaving of concurrent scaling decisions. *)
Theorem elastic_worker_bound n p :
  elastic = true -> (n <= maxWorker)%nat -> reachable n p -> (size (active p) <= maxWorker)%nat.
Proof. intros He Hn Hr. by apply (po_active _ (reachable_ok n p Hn Hr)). Qed.

(** ** [Stop] returns *)

Definition worker_weight (w : worker) : nat :=
  match w with Idle => 2 | Busy _ => 3 | Draining => 1 | DrainBusy _ => 2 | Exited => 0 end.
Definition phase_weight (ph : stop_phase) : nat :=
  match ph with Running => 9 | Closing => 5 | WantLock => 4 | Locked => 3 | Sweeping => 2 | Stopped => 0 end.

(** The work left once submissions are refused. *)
Definition work (p : pool) : nat :=
  3 * length (inflight p) + 2 * length (queue p) + list_sum (map worker_weight (workers p)) +
  size (active p) + (if adding p then 4 else 0) + phase_weight (phase p).

Lemma set_worker_work p i w w' q h :
  workers p !! i = Some w ->
  (2 * length q + worker_weight w' < 2 * length (queue p) + worker_weight w)%nat ->
  (work (set_worker p i w' q h) < work p)%nat.
Proof.
  intros Hi Hw. unfold work. cbn [set_worker inflight queue workers active adding phase].
  pose proof (sum_insert worker_weight (workers p) i w w' Hi).
  assert (size (match w' with Exited => active p ∖ {[i]} | _ => active p end) <= size (active p))%nat.
  { destruct w'; try done. apply subseteq_size. set_solver. }
  lia.
Qed.

Lemma size_remove_active (X : gset nat) i : i ∈ X -> (size (X ∖ {[i]}) < size X)%nat.
Proof. intros Hi. apply subset_size. set_solver. Qed.

(** Every step of a closed pool gets nearer to the end. *)
Lemma closed_step_decreases p p' :
  closed p = true -> pool_step p p' -> closed p' = true /\ (work p' < work p)%nat.
Proof.
  intros Hc Hstep. pose proof Hc as Hp. apply bool_decide_eq_true in Hp.
  destruct Hstep as [p' Hs|p' Hs|p' Hs|p' Hs].
  - destruct Hs as [t Hc'|t l1 l2 E Hl|t l1 l2 sd r E Hr]; [congruence| |];
      (split; [done|]); unfold work; cbn [inflight queue workers active adding phase];
      rewrite E, ?length_app; cbn [length]; lia.
  - destruct Hs as [i t q Hi E|i t Hi|i Hi Hd|i t q Hi E|i t Hi|i Hi E|i Hi E];
      (split; [done|]); (eapply set_worker_work; [done|]); rewrite ?E; cbn; lia.
  - destruct Hs as [E Hc' Ha|Ha Hm|Ha Hm|i E Ha Hi]; [congruence|..]; (split; [done|]);
      unfold work; cbn [inflight queue workers active adding phase]; rewrite ?Ha.
    + lia.
    + rewrite map_app, list_sum_app. cbn [map list_sum worker_weight foldr].
      rewrite (size_union_alt {[length (workers p)]}), size_singleton.
      pose proof (subseteq_size (active p ∖ {[length (workers p)]}) (active p)). set_solver by lia.
    + pose proof (size_remove_active _ _ Hi). lia.
  - destruct Hs as [E|E Ha|E Hl|E Hw|t q E Hq|E Hq]; [congruence|..];
      (split; [by apply bool_decide_eq_true; cbn; congruence|]);
      unfold work; cbn [set_phase inflight queue workers active adding phase]; rewrite ?E, ?Hq;
      cbn [phase_weight length]; try lia.
    assert (size (if elastic then ∅ else active p) <= size (active p))%nat; [|destruct (adding p); lia].
    destruct elastic; [rewrite size_empty; lia|done].
Qed.

Lemma submitter_moves p t l :
  closed p = true -> inflight p = t :: l -> exists p', pool_step p p'.
Proof.
  intros Hc E. destruct (decide (length (queue p) < cap)%nat) as [Hl|Hl].
  - eexists. apply by_submit. by apply (SubmitEnqueue p t [] l).
  - assert (exists r, submit_refusal policy (bool_decide (cap <= length (queue p))%nat) (closed p) false = Some r)
      as [r Hr].
    { rewrite Hc, bool_decide_true by lia. destruct policy; cbn; eauto. }
    eexists. apply by_submit. by apply (SubmitRefuse p t [] l false r).
Qed.

Lemma worker_moves p i w :
  closed p = true -> adding p = false -> workers p !! i = Some w -> w <> Exited -> exists p', pool_step p p'.
Proof.
  intros Hc Ha Hi Hw. destruct w as [|t| |t|]; [| | | |done].
  - eexists. apply by_worker. by eapply WorkerSeesDone.
  - eexists. apply by_worker. by eapply WorkerDone.
  - destruct (queue p) as [|t q] eqn:E; eexists; apply by_worker; [by eapply DrainExit|by eapply DrainTake].
  - eexists. apply by_worker. by eapply DrainDone.
Qed.

#[local] Instance worker_exited_dec (w : worker) : Decision (w = Exited).
Proof. destruct w; [right|right|right|right|left]; done. Defined.

(** A closed pool can always move until [Stop] has returned. *)
Lemma closed_progress p :
  pool_ok p -> closed p = true -> phase p = Stopped \/ exists p', pool_step p p'.
Proof.
  intros Hok Hc. destruct (phase p) eqn:E.
  - apply bool_decide_eq_true in Hc. congruence.
  - right. destruct (adding p) eqn:Ha.
    + destruct (decide (size (active p) < maxWorker)%nat); eexists; apply by_scale;
        [by apply AddStart|apply AddFull; [done|lia]].
    + eexists. apply by_stop. by apply StopRetire.
  - right. destruct (inflight p) as [|t l] eqn:El.
    + eexists. apply by_stop. by apply StopLock.
    + by eapply submitter_moves.
  - right. destruct (decide (Forall (fun w => w = Exited) (workers p))) as [Hf|Hf].
    + eexists. apply by_stop. by apply StopWait.
    + apply not_Forall_Exists, Exists_exists in Hf as (w & Hin & Hw); [|apply _].
      apply list_elem_of_lookup in Hin as [i Hi]. eapply worker_moves; [done| |done|done].
      destruct (adding p) eqn:Ha; [|done]. destruct (po_adding _ Hok Ha); congruence.
  - right. destruct (queue p) as [|t q] eqn:Eq; eexists; apply by_stop;
      [by apply StopReturn|by eapply StopSweep].
  - by left.
Qed.

(** C9: [Stop] returns: once it has begun, every execution of the pool is finite
    and ends with [Stop] returned, with no fairness assumed of the scheduler.
    Each step towards it is counted, handler calls included, so the only
    assumption is that a handler call returns. *)
Theorem stop_terminates n p :
  (n <= maxWorker)%nat -> reachable n p -> closed p = true ->
  Acc (fun b a => pool_step a b) p /\
  forall p', star pool_step p p' -> phase p' = Stopped \/ exists p'', pool_step p' p''.
Proof.
  intros Hn Hr Hc. split.
  - clear Hr. remember (work p) as k eqn:Ek. revert p Hc Ek.
    induction k as [k IH] using lt_wf_ind. intros p Hc ->. constructor. intros p' Hs.
    destruct (closed_step_decreases p p' Hc Hs) as [Hc' Hw]. by eapply IH.
  - intros p' Hs. apply closed_progress.
    + eapply (reachable_ok n p' Hn). by eapply star_trans.
    + eapply (star_invariant pool_step (fun p => closed p = true)); [|done|done].
      intros a b Ha Hab. by apply (closed_step_decreases a b).
Qed.
End pool.
Arguments pool : clear implicits.

(** Two submitters, one worker and a [Stop] that overtakes one of them. *)
Definition demo : pool string :=
  mkPool [] [] [Exited] ∅ {[0%nat]} false Stopped ["a"; "b"] ["a"; "b"].

Lemma demo_closing :
  reachable PolicyBlock 1 true 2 1
    (mkPool ["b"] [] [Busy "a"] {[0%nat]} ∅ false Closing ["a"; "b"] []).
Proof.
  unfold reachable.
  eapply star_step; [apply by_submit, (SubmitEnter _ _ _ "b"); reflexivity|].
  eapply star_step; [apply by_submit, (SubmitEnter _ _ _ "a"); reflexivity|].
  eapply star_step; [apply by_submit, (SubmitEnqueue _ _ _ "a" [] ["b"]); [reflexivity|cbn; lia]|].
  eapply star_step; [apply by_worker, (WorkerTake _ 0 "a" []); reflexivity|].
  eapply star_step; [apply by_stop, StopBegin; reflexivity|].
  eapply star_step; [apply by_submit, (SubmitEnqueue _ _ _ "b" [] []); [reflexivity|cbn; lia]|].
  cbn. apply star_refl.
Qed.

Lemma demo_reachable : reachable PolicyBlock 1 true 2 1 demo.
Proof.
  eapply star_trans; [exact demo_closing|].
  eapply star_step; [apply by_stop, StopRetire; reflexivity|].
  eapply star_step; [apply by_stop, StopLock; reflexivity|].
  eapply star_step; [apply by_worker, (WorkerDone _ 0 "a"); reflexivity|].
  eapply star_step; [apply by_worker, (WorkerRetire _ 0); [reflexivity|set_solver|reflexivity]|].
  eapply star_step; [apply by_stop, StopWait; [reflexivity|cbn; by repeat constructor]|].
  eapply star_step; [apply by_stop, (StopSweep _ _ "b" []); reflexivity|].
  eapply star_step; [apply by_stop, StopReturn; reflexivity|].
  unfold demo. cbn.
  match goal with |- star _ ?a ?b => assert (a = b) as ->; [|apply star_refl] end.
  f_equal; set_solver.
Qed.

Lemma pool_handles_accepted_witness :
  handled demo ≡ₚ accepted demo /\ (length (queue demo) <= 1)%nat.
Proof.
  destruct (pool_handles_accepted PolicyBlock 1 true 2 1 demo ltac:(lia) demo_reachable) as (_ & H1 & H2).
  split; [apply H2; reflexivity|exact H1].
Defined.

Lemma elastic_worker_bound_witness : (size (active demo) <= 2)%nat.
Proof. apply (elastic_worker_bound PolicyBlock 1 true 2 1 demo eq_refl ltac:(lia) demo_reachable). Defined.

Lemma stop_terminates_witness :
  Acc (fun b a => pool_step PolicyBlock 1 true 2 a b)
    (mkPool ["b"] [] [Busy "a"] {[0%nat]} ∅ false Closing ["a"; "b"] []).
Proof. apply (stop_terminates PolicyBlock 1 true 2 1 _ ltac:(lia) demo_closing). reflexivity. Defined.

(** ** Scaling *)

(** The thresholds 0.75 and 0.25 and the hold. *)
(* go: internal/transport/shared/pool_scalable.go:11-35 (DefaultScaleUpRatio) *)
Definition DefaultScaleUpRatio : float64 := fdiv (float_of_int 3) (float_of_int 4).
Definition DefaultScaleDownRatio : float64 := fdiv f1 (float_of_int 4).
Definition DefaultScaleDownHold : Z := 3.
Definition DefaultMaxWorkerMultiplier : Z := 2.
Definition scaleCheckInterval : Z := 1024.

(** The scaling part of a pool. *)
Record scaler : Type := mkScaler {
  capacity : Z;
  minWorker : Z;
  maxWorker : Z;
  scaleUpRatio : float64;
  scaleDownRatio : float64;
  scaleDownHold : Z;
  downStreak : Z;
  submitTick : Z
}.

(** [procs] is [runtime.GOMAXPROCS(0)]. *)
(* go: internal/transport/shared/pool_scalable.go:88-112 (NewScalablePool) *)
Definition NewScalablePool (procs min max queueSize : Z) : scaler :=
  let min := if min <=? 0 then procs else min in
  let max := if max <=? 0 then procs * DefaultMaxWorkerMultiplier else max in
  let max := if max <? min then min else max in
  mkScaler (queue_size min queueSize) min max
    DefaultScaleUpRatio DefaultScaleDownRatio DefaultScaleDownHold 0 0.

(* go: internal/transport/shared/pool_scalable.go:122-139 (SetScaleRatio) *)
Definition SetScaleRatio (up down : float64) (s : scaler) : scaler :=
  if fleb up f0 || fltb f1 up || fleb down f0 || fleb up down then s
  else mkScaler (capacity s) (minWorker s) (maxWorker s) up down (scaleDownHold s) (downStreak s) (submitTick s).

Inductive scale_action : Type := Keep | Grow | Shrink.

#[export] Instance scale_action_eq_dec : EqDecision scale_action.
Proof. solve_decision. Defined.

Definition set_streak (s : scaler) (k : Z) : scaler :=
  mkScaler (capacity s) (minWorker s) (maxWorker s) (scaleUpRatio s) (scaleDownRatio s)
    (scaleDownHold s) k (submitTick s).
Definition set_tick (s : scaler) (k : Z) : scaler :=
  mkScaler (capacity s) (minWorker s) (maxWorker s) (scaleUpRatio s) (scaleDownRatio s)
    (scaleDownHold s) (downStreak s) k.

(** [q] is the length of the queue and [n] the number of active workers; the
    result says whether a worker is added or asked to retire. *)
(* go: internal/transport/shared/pool_scalable.go:181-224 (maybeScale) *)
Definition maybeScale (closed : bool) (q n : Z) (s : scaler) : scale_action * scaler :=
  if closed then (Keep, s)
  else if capacity s =? 0 then (Keep, s)
  else
    let occupancy := fdiv (float_of_int q) (float_of_int (capacity s)) in
    if fleb (scaleUpRatio s) occupancy && (n <? maxWorker s) then (Grow, set_streak s 0)
    else if fleb occupancy (scaleDownRatio s) && (minWorker s <? n) then
      let k := swrap 32 (downStreak s + 1) in
      if scaleDownHold s <=? k then (Shrink, set_streak s 0) else (Keep, set_streak s k)
    else (Keep, set_streak s 0).

(** The scaling decision is taken on every 1024th submission. *)
(* go: internal/transport/shared/pool_scalable.go:165-179 (Submit) *)
Definition Submit (closed : bool) (q n : Z) (s : scaler) : scale_action * scaler :=
  let s := set_tick s (i64 (submitTick s + 1)) in
  if Z.rem (submitTick s) scaleCheckInterval =? 0 then maybeScale closed q n s else (Keep, s).

(** [addWorker] and [retireOneWorker] on the number of workers. *)
Definition apply_action (a : scale_action) (n : Z) : Z :=
  match a with Keep => n | Grow => n + 1 | Shrink => n - 1 end.

(** The decisions for a sequence of queue lengths, with the number of workers
    and the settings each was taken with. *)
Fixpoint scale_run (qs : list Z) (n : Z) (s : scaler) : list (Z * Z * scaler * scale_action) :=
  match qs with
  | [] => []
  | q :: qs =>
      let '(a, s') := maybeScale false q n s in
      (q, n, s, a) :: scale_run qs (apply_action a n) s'
  end.

(** A low-water observation. *)
Definition low (q n : Z) (s : scaler) : bool :=
  fleb (fdiv (float_of_int q) (float_of_int (capacity s))) (scaleDownRatio s) && (minWorker s <? n).

Definition same_settings (s s' : scaler) : Prop :=
  capacity s' = capacity s /\ minWorker s' = minWorker s /\ maxWorker s' = maxWorker s /\
  scaleDownRatio s' = scaleDownRatio s /\ scaleDownHold s' = scaleDownHold s.

(** The effect of one decision: the streak counts the low-water observations
    since the last reset, and a worker is retired when it reaches the hold. *)
Lemma maybeScale_spec q n s :
  capacity s <> 0 -> 0 <= downStreak s < scaleDownHold s -> scaleDownHold s < 2 ^ 31 ->
  minWorker s <= n <= maxWorker s ->
  let '(a, s') := maybeScale false q n s in
  same_settings s s' /\ minWorker s <= apply_action a n <= maxWorker s /\
  0 <= downStreak s' < scaleDownHold s /\
  (a = Shrink -> low q n s = true /\ downStreak s + 1 = scaleDownHold s) /\
  (0 < downStreak s' -> a = Keep /\ low q n s = true /\ downStreak s' = downStreak s + 1).
Proof.
  intros Hc Hd Hh Hn. unfold maybeScale, same_settings, low.
  rewrite (proj2 (Z.eqb_neq _ _) Hc). rewrite (swrap_small 32) by lia.
  destruct (fleb (scaleUpRatio s) _); destruct (Z.ltb_spec n (maxWorker s)); cbn;
    repeat split; try done; try lia;
    destruct (fleb _ (scaleDownRatio s)); destruct (Z.ltb_spec (minWorker s) n); cbn;
    repeat split; try done; try lia;
    destruct (Z.leb_spec (scaleDownHold s) (downStreak s + 1)); cbn; repeat split; try done; lia.
Qed.

Lemma scale_run_first qs n s q n' s' a :
  scale_run qs n s !! 0%nat = Some (q, n', s', a) -> n' = n /\ s' = s /\ a = (maybeScale false q n s).1.
Proof.
  destruct qs as [|q0 qs]; [done|]. cbn [scale_run]. destruct (maybeScale false q0 n s) as [a0 s0] eqn:E.
  cbn [lookup list_lookup]. intros [= -> -> -> ->]. by rewrite E.
Qed.

Lemma scale_run_next qs n s i q1 n1 s1 a1 q2 n2 s2 a2 :
  scale_run qs n s !! i = Some (q1, n1, s1, a1) ->
  scale_run qs n s !! S i = Some (q2, n2, s2, a2) ->
  n2 = apply_action a1 n1 /\ maybeScale false q1 n1 s1 = (a1, s2) /\ a2 = (maybeScale false q2 n2 s2).1.
Proof.
  revert n s i. induction qs as [|q qs IH]; intros n s i H1 H2; [done|].
  cbn [scale_run] in H1, H2. destruct (maybeScale false q n s) as [a s'] eqn:E.
  destruct i as [|i]; cbn [lookup list_lookup] in H1, H2.
  - injection H1 as -> -> -> ->. by apply scale_run_first in H2 as (-> & -> & ->).
  - by eapply IH.
Qed.

(** What holds at the [i]-th decision of a run. *)
Definition run_ok (s0 : scaler) (run : list (Z * Z * scaler * scale_action)) (i : nat) : Prop :=
  forall q n s a, run !! i = Some (q, n, s, a) ->
    same_settings s0 s /\ minWorker s0 <= n <= maxWorker s0 /\
    0 <= downStreak s < scaleDownHold s0 /\ a = (maybeScale false q n s).1 /\
    forall j, (0 < Z.of_nat j <= downStreak s) -> exists q' n' s',
      run !! (i - j)%nat = Some (q', n', s', Keep) /\ low q' n' s' = true /\ (j <= i)%nat.

Lemma scale_run_ok s0 qs n i :
  capacity s0 <> 0 -> downStreak s0 = 0 -> 0 < scaleDownHold s0 < 2 ^ 31 ->
  minWorker s0 <= n <= maxWorker s0 -> run_ok s0 (scale_run qs n s0) i.
Proof.
  intros Hc Hs Hh Hn. induction i as [|i IH]; intros q n' s a Hi.
  - apply scale_run_first in Hi as (-> & -> & ->). unfold same_settings.
    repeat (split; [done || lia|]). intros j Hj. lia.
  - assert (i < length (scale_run qs n s0))%nat as Hl by (apply lookup_lt_Some in Hi; lia).
    apply lookup_lt_is_Some in Hl as [[[[q1 n1] s1] a1] H1].
    destruct (IH _ _ _ _ H1) as (Hset & Hn1 & Hd1 & _ & Hlow).
    destruct (scale_run_next _ _ _ _ _ _ _ _ _ _ _ _ H1 Hi) as (-> & E & ->).
    destruct Hset as (E1 & E2 & E3 & E4 & E5).
    pose proof (maybeScale_spec q1 n1 s1 ltac:(congruence) ltac:(lia) ltac:(lia) ltac:(lia)) as Hm.
    rewrite E in Hm. destruct Hm as ((F1 & F2 & F3 & F4 & F5) & Hn2 & Hd2 & _ & Hst).
    split; [repeat split; congruence|]. split; [lia|]. split; [lia|]. split; [done|].
    intros j Hj. destruct (Hst ltac:(lia)) as (-> & Hl1 & Hd). destruct j as [|[|j]]; [lia| |].
    + exists q1, n1, s1. replace (S i - 1)%nat with i by lia. split; [done|]. split; [done|lia].
    + destruct (Hlow (S j) ltac:(lia)) as (q' & n' & s' & Hi' & Hl' & Hle).
      exists q', n', s'. replace (S i - S (S j))%nat with (i - S j)%nat by lia.
      split; [done|]. split; [done|lia].
Qed.

Lemma NewScalablePool_ok procs min max queueSize :
  0 < procs ->
  let s := NewScalablePool procs min max queueSize in
  0 < minWorker s <= maxWorker s /\ 0 < capacity s.
Proof.
  intros Hp. unfold NewScalablePool, queue_size. cbn [minWorker maxWorker capacity].
  destruct (Z.leb_spec min 0), (Z.leb_spec max 0); repeat case_match; breflect; lia.
Qed.

(** The scaling of an elastic pool, from its constructor with whatever bounds
    the caller passed and for any sequence of queue lengths: the number of
    workers stays between the (corrected) minimum and maximum, and a worker is
    retired only on the third of three consecutive low-water observations, none
    of which acted otherwise; so two retirements are at least three
    evaluations apart, while growth acts on one. *)
Theorem scaling_bounded_with_hold procs min max queueSize qs i q n s a :
  0 < procs ->
  let s0 := NewScalablePool procs min max queueSize in
  scale_run qs (minWorker s0) s0 !! i = Some (q, n, s, a) ->
  minWorker s0 <= n <= maxWorker s0 /\ minWorker s0 <= apply_action a n <= maxWorker s0 /\
  (a = Shrink -> low q n s = true /\ forall j, (0 < j < 3)%nat -> exists q' n' s',
     scale_run qs (minWorker s0) s0 !! (i - j)%nat = Some (q', n', s', Keep) /\
     low q' n' s' = true /\ (j <= i)%nat).
Proof.
  intros Hp s0 Hi. destruct (NewScalablePool_ok procs min max queueSize Hp) as [Hm Hc]. fold s0 in Hm, Hc.
  assert (scaleDownHold s0 = 3 /\ downStreak s0 = 0) as [Hh Hs] by done.
  pose proof (scale_run_ok s0 qs (minWorker s0) i ltac:(lia) Hs ltac:(lia) ltac:(lia) q n s a Hi) as H.
  destruct H as ((E1 & E2 & E3 & E4 & E5) & Hn & Hd & Ha & Hlow).
  pose proof (maybeScale_spec q n s ltac:(lia) ltac:(lia) ltac:(lia) ltac:(lia)) as Hsp.
  destruct (maybeScale false q n s) as [a' s']. cbn in Ha. subst a'.
  destruct Hsp as (_ & Hn' & _ & Hshrink & _).
  split; [done|]. split; [lia|]. intros ->. destruct (Hshrink eq_refl) as [Hl Hk].
  split; [done|]. intros j Hj. apply Hlow. lia.
Qed.

(** A burst that grows the pool to its maximum, then silence. *)
Lemma scaling_bounded_with_hold_witness :
  let s0 := NewScalablePool 8 1 2 100 in
  exists q n s, scale_run [80; 90; 0; 0; 0; 0] 1 s0 !! 4%nat = Some (q, n, s, Shrink) /\
  minWorker s0 <= n <= maxWorker s0.
Proof.
  intros s0. destruct (scale_run [80; 90; 0; 0; 0; 0] 1 s0 !! 4%nat) as [[[[q n] s] a]|] eqn:E;
    [|vm_compute in E; discriminate].
  exists q, n, s. split.
  - assert (a = Shrink) as ->; [|done]. vm_compute in E. congruence.
  - apply (scaling_bounded_with_hold 8 1 2 100 [80; 90; 0; 0; 0; 0] 4 q n s a ltac:(lia)). exact E.
Defined.

(** A pair of thresholds that is not a number is not rejected: no comparison
    with NaN holds.  The pool then never scales. *)
Example SetScaleRatio_accepts_nan :
  scaleUpRatio (SetScaleRatio S754_nan S754_nan (NewScalablePool 8 1 2 100)) = S754_nan /\
  (maybeScale false 100 1 (SetScaleRatio S754_nan S754_nan (NewScalablePool 8 1 2 100))).1 = Keep /\
  (maybeScale false 100 1 (NewScalablePool 8 1 2 100)).1 = Grow.
Proof. by vm_compute. Qed.
