(* ===== verification/RateLimit.v ===== *)
(** * RateLimit: [internal/plugin/ratelimit.go]

    The sliding-window limiter: 32 independently locked shards of time stamps
    per remote host, the pruning on each message, the periodic sweep and limit
    changes.  The operations of one shard are serialised by its mutex; a run is
    their order, and a limit change, two atomic stores, is one step of it.
    Times are nanoseconds. *)
From stdpp Require Import sorting.
From S2P Require Import Prelude Bytes Core.
Local Open Scope string_scope.
Local Open Scope Z_scope.
Local Open Scope list_scope.

(** ** The session as the plugins see it *)

(** A value in the session meta: a string, or one of another type. *)
Inductive meta_value : Type := MetaString (s : bytes) | MetaOther.

(** The remote address by its string form; [keeps_meta] is false for the
    sessions whose [SetMeta] does nothing. *)
Record psession : Type := mkPSession {
  remote : option bytes;
  meta : gmap string meta_value;
  keeps_meta : bool
}.

Definition GetMeta (k : string) (s : psession) : option meta_value := meta s !! k.
Definition SetMeta (k : string) (v : meta_value) (s : psession) : psession :=
  if keeps_meta s then mkPSession (remote s) (<[k := v]> (meta s)) true else s.

(* go: internal/plugin/autoban.go:197-206 (remoteKey) *)
Definition remoteKey (sess : option psession) : bytes :=
  match sess with
  | None => bytes_of_string "unknown"
  | Some s =>
      match remote s with
      | None => bytes_of_string "unknown"
      | Some addr => match SplitHost addr with Some host => host | None => addr end
      end
  end.

(** The key under a meta name, computed once: the session is returned with the
    cached key. *)
(* go: internal/plugin/ratelimit.go:170-184 (sessionKey) *)
Definition sessionKey (name : string) (sess : option psession) : bytes * option psession :=
  match sess with
  | None => (bytes_of_string "unknown", None)
  | Some s =>
      match GetMeta name s with
      | Some (MetaString key) => (key, Some s)
      | _ => let key := remoteKey (Some s) in (key, Some (SetMeta name (MetaString key) s))
      end
  end.

Lemma sessionKey_stable name sess :
  (sessionKey name (sessionKey name sess).2).1 = (sessionKey name sess).1.
Proof.
  destruct sess as [s|]; [|done]. unfold sessionKey.
  destruct (GetMeta name s) as [[key|]|] eqn:E; cbn [fst snd].
  1: by rewrite E.
  all: unfold SetMeta; destruct (keeps_meta s) eqn:Hk.
  all: unfold GetMeta; cbn [meta]; rewrite ?lookup_insert_eq; try done.
  all: unfold GetMeta in E; by rewrite E.
Qed.

(** ** The limiter *)

Definition rateLimitShardCount : nat := 32.
Definition rateLimitKeyMeta : string := "plugin.ratelimit.ip".
Definition second : Z := 1000000000.

(* go: internal/plugin/ratelimit.go:28-45 (RateLimit) *)
Record RateLimit : Type := mkRateLimit {
  shards : list (gmap bytes (list Z));
  rate : Z;
  window : Z
}.

(* go: internal/plugin/ratelimit.go:56-73 (SetLimit) *)
Definition SetLimit (rate window : Z) (p : RateLimit) : RateLimit :=
  mkRateLimit (shards p) (if rate <=? 0 then 1 else rate) (if window <=? 0 then second else window).

(* go: internal/plugin/ratelimit.go:47-54 (NewRateLimit) *)
Definition NewRateLimit (rate window : Z) : RateLimit :=
  SetLimit rate window (mkRateLimit (replicate rateLimitShardCount ∅) 0 0).

(** The stamps from the first one that is not before the cutoff. *)
(* go: internal/plugin/ratelimit.go:151-157 (OnMessage) *)
Fixpoint prune (cutoff : Z) (stamps : list Z) : list Z :=
  match stamps with
  | [] => []
  | t :: stamps' => if t <? cutoff then prune cutoff stamps' else stamps
  end.

Section limiter.
(** The seeded hash of a key; the seed is drawn when the process starts. *)
Variable sum64 : bytes -> Z.

(* go: internal/plugin/ratelimit.go:83-90 (shardFor) *)
Definition shardFor (key : bytes) : nat := Z.to_nat (u64 (sum64 key) mod Z.of_nat rateLimitShardCount).

(** One shard under its lock. *)
(* go: internal/plugin/ratelimit.go:142-168 (OnMessage) *)
Definition OnMessage (sess : option psession) (data : bytes) (now : Z) (p : RateLimit) :
    result error bytes * option psession * RateLimit :=
  let '(key, sess') := sessionKey rateLimitKeyMeta sess in
  let cutoff := now - window p in
  let sh := shards p !!! shardFor key in
  let stamps := prune cutoff (default [] (sh !! key)) in
  if rate p <=? Z.of_nat (length stamps) then
    (Err ErrPluginDrop, sess',
     mkRateLimit (<[shardFor key := <[key := stamps]> sh]> (shards p)) (rate p) (window p))
  else
    (Ok data, sess',
     mkRateLimit (<[shardFor key := <[key := stamps ++ [now]]> sh]> (shards p)) (rate p) (window p)).

(** A key whose stamps are all old is deleted, the others keep the rest. *)
(* go: internal/plugin/ratelimit.go:120-140 (sweep) *)
Definition sweep_shard (cutoff : Z) (sh : gmap bytes (list Z)) : gmap bytes (list Z) :=
  omap (fun stamps => match prune cutoff stamps with [] => None | rest => Some rest end) sh.
Definition sweep (now : Z) (p : RateLimit) : RateLimit :=
  mkRateLimit (sweep_shard (now - window p) <$> shards p) (rate p) (window p).

(** ** Runs *)

(** A limit change is [SetLimit] with a rate and a window, as a reload calls it. *)
Inductive op : Type :=
| Msg (sess : option psession) (data : bytes) (now : Z)
| Sweep (now : Z)
| Retune (r w : Z).

Definition op_time (o : op) : option Z := match o with Msg _ _ now | Sweep now => Some now | Retune _ _ => None end.
Definition peer (sess : option psession) : bytes := (sessionKey rateLimitKeyMeta sess).1.

(** The decision of each message: the peer, the time and whether it passed. *)
Fixpoint run (ops : list op) (p : RateLimit) : list (bytes * Z * bool) :=
  match ops with
  | [] => []
  | Msg sess data now :: ops =>
      let '(r, _, p') := OnMessage sess data now p in (peer sess, now, is_ok r) :: run ops p'
  | Sweep now :: ops => run ops (sweep now p)
  | Retune r w :: ops => run ops (SetLimit r w p)
  end.

(** ** The specification: a history of accepted messages *)

(** The allowance in force after a change. *)
Definition rate_of (r : Z) : Z := if r <=? 0 then 1 else r.
Definition window_of (w : Z) : Z := if w <=? 0 then second else w.

(** How many messages of [key] passed in the window that ends at [now]. *)
Definition passed (hist : list (bytes * Z)) (key : bytes) (lo hi : Z) : list (bytes * Z) :=
  filter (fun e => e.1 = key /\ lo <= e.2 <= hi) hist.

(** The plain sliding window: nothing is ever forgotten. *)
Fixpoint spec_run (ops : list op) (r w : Z) (hist : list (bytes * Z)) : list (bytes * Z * bool) :=
  match ops with
  | [] => []
  | Msg sess data now :: ops =>
      let ok := Z.of_nat (length (passed hist (peer sess) (now - w) now)) <? r in
      (peer sess, now, ok) :: spec_run ops r w (if ok then hist ++ [(peer sess, now)] else hist)
  | Sweep now :: ops => spec_run ops r w hist
  | Retune r' w' :: ops => spec_run ops (rate_of r') (window_of w') hist
  end.

(** A look at the records: by a message at those of its host, by a sweep at all
    of them. A message that the look finds older than its cutoff is forgotten,
    and a window that grows later does not bring it back. *)
Definition look : Type := option bytes * Z.
Definition forgets (l : look) (key : bytes) (t : Z) : bool :=
  bool_decide (l.1 = None \/ l.1 = Some key) && (t <? l.2).
Definition remembered (looks : list look) (key : bytes) (t : Z) : bool := forallb (fun l => negb (forgets l key t)) looks.

(** The exact specification: a message counts those of its host that passed in
    its window and that no earlier look has forgotten. *)
Fixpoint exact_run (ops : list op) (r w : Z) (hist : list (bytes * Z)) (looks : list look) : list (bytes * Z * bool) :=
  match ops with
  | [] => []
  | Msg sess data now :: ops =>
      let count := filter (fun e => remembered looks e.1 e.2 = true) (passed hist (peer sess) (now - w) now) in
      let ok := Z.of_nat (length count) <? r in
      (peer sess, now, ok) ::
        exact_run ops r w (if ok then hist ++ [(peer sess, now)] else hist) ((Some (peer sess), now - w) :: looks)
  | Sweep now :: ops => exact_run ops r w hist ((None, now - w) :: looks)
  | Retune r' w' :: ops => exact_run ops (rate_of r') (window_of w') hist looks
  end.

(** No limit change makes the window longer. *)
Fixpoint window_never_grows (w : Z) (ops : list op) : Prop :=
  match ops with
  | [] => True
  | Retune _ w' :: ops => window_of w' <= w /\ window_never_grows (window_of w') ops
  | _ :: ops => window_never_grows w ops
  end.

(** ** The refinement *)

Definition stamps_of (p : RateLimit) (key : bytes) : list Z :=
  default [] (shards p !!! shardFor key !! key).

(** The history of one key. *)
Definition times (hist : list (bytes * Z)) (key : bytes) : list Z :=
  (filter (fun e => e.1 = key) hist).*2.

(** [p] keeps, of each key, the stamps that no look has forgotten; [last] is the
    latest time seen. *)
Record agrees (p : RateLimit) (hist : list (bytes * Z)) (looks : list look) (last : Z) : Prop := {
  ag_len : length (shards p) = rateLimitShardCount;
  ag_sorted : StronglySorted Z.le (hist.*2);
  ag_last : Forall (fun t => t <= last) (hist.*2);
  ag_looks : Forall (fun l : look => l.2 <= last) looks;
  ag_window : 0 < window p;
  ag_stamps : forall key, stamps_of p key = filter (fun t => remembered looks key t = true) (times hist key)
}.

Lemma prune_sorted c l : StronglySorted Z.le l -> prune c l = filter (fun t => c <= t) l.
Proof.
  induction 1 as [|t l Hs IH Hall]; [done|]. cbn [prune]. destruct (Z.ltb_spec t c).
  - rewrite filter_cons_False by lia. done.
  - symmetry. apply filter_all. constructor; [done|].
    eapply Forall_impl; [done|]. cbn. lia.
Qed.

Lemma StronglySorted_filter_le (P : Z -> Prop) `{forall x, Decision (P x)} l :
  StronglySorted Z.le l -> StronglySorted Z.le (filter P l).
Proof.
  induction 1 as [|t l Hs IH Hall]; [constructor|].
  destruct (decide (P t)); [rewrite filter_cons_True by done|by rewrite filter_cons_False by done].
  constructor; [done|]. apply list.Forall_forall. intros x Hx. apply list_elem_of_filter in Hx as [_ Hx].
  by eapply list.Forall_forall in Hall.
Qed.

Lemma times_sorted hist key : StronglySorted Z.le hist.*2 -> StronglySorted Z.le (times hist key).
Proof.
  unfold times. induction hist as [|[k t] hist IH]; intros Hs; [constructor|].
  cbn in Hs. inversion Hs as [|? ? Hs' Hall]; subst.
  destruct (decide (k = key)); [rewrite filter_cons_True by done|by rewrite filter_cons_False by done; auto].
  cbn. constructor; [auto|]. apply list.Forall_forall. intros x Hx.
  apply list_elem_of_fmap in Hx as ([k' t'] & -> & Hx). apply list_elem_of_filter in Hx as [_ Hx].
  eapply list.Forall_forall in Hall; [done|]. by apply (list_elem_of_fmap_2 snd).
Qed.

Lemma remembered_cons l looks key t :
  remembered (l :: looks) key t = true <-> forgets l key t = false /\ remembered looks key t = true.
Proof. cbn. rewrite andb_true_iff. destruct (forgets l key t); naive_solver. Qed.

Lemma forgets_own key c t : forgets (Some key, c) key t = (t <? c).
Proof. unfold forgets. by rewrite bool_decide_true by (cbn; auto). Qed.

Lemma forgets_all key c t : forgets (None, c) key t = (t <? c).
Proof. unfold forgets. by rewrite bool_decide_true by (cbn; auto). Qed.

Lemma forgets_other key key' c t : key <> key' -> forgets (Some key, c) key' t = false.
Proof. intros Hk. unfold forgets. rewrite bool_decide_false; [done|]. cbn. intros [?|?]; congruence. Qed.

(** Looking with a cutoff: what is left is what is remembered after the look. *)
Lemma prune_remembered p hist looks last key c l :
  agrees p hist looks last -> (forall t, forgets l key t = (t <? c)) ->
  prune c (stamps_of p key) = filter (fun t => remembered (l :: looks) key t = true) (times hist key).
Proof.
  intros Hag Hl. rewrite (ag_stamps _ _ _ _ Hag).
  rewrite prune_sorted by (apply StronglySorted_filter_le, times_sorted, (ag_sorted _ _ _ _ Hag)).
  rewrite list_filter_filter. apply list_filter_iff. intros t. rewrite remembered_cons, Hl, Z.ltb_ge. done.
Qed.

(** What the message counts, by the records of its key. *)
Lemma counted_times hist looks key lo hi :
  Forall (fun t => t <= hi) (hist.*2) ->
  length (filter (fun e => remembered looks e.1 e.2 = true) (passed hist key lo hi)) =
  length (filter (fun t => remembered ((Some key, lo) :: looks) key t = true) (times hist key)).
Proof.
  unfold passed, times. induction hist as [|[k t] hist IH]; intros Hall; [done|].
  cbn in Hall. inversion Hall as [|? ? Ht Hall']; subst. specialize (IH Hall').
  assert (remembered ((Some key, lo) :: looks) key t = true <-> lo <= t /\ remembered looks key t = true) as Hr
    by (rewrite remembered_cons, forgets_own, Z.ltb_ge; done).
  rewrite (filter_cons (fun e => e.1 = key /\ _)), (filter_cons (fun e => e.1 = key)). cbn [fst snd].
  destruct (decide (k = key)) as [->|Hk]; [|destruct (decide _) as [[? _]|_]; done].
  rewrite fmap_cons. cbn [snd]. rewrite (filter_cons _ t).
  destruct (decide (key = key /\ lo <= t <= hi)) as [Hin|Hout].
  - rewrite filter_cons. cbn [fst snd].
    destruct (decide (remembered looks key t = true)); [rewrite decide_True by tauto|rewrite decide_False by tauto];
      cbn [length]; by rewrite IH.
  - rewrite decide_False; [done|]. rewrite Hr. tauto.
Qed.

Lemma shardFor_lt key : (shardFor key < rateLimitShardCount)%nat.
Proof.
  unfold shardFor. assert (0 <= u64 (sum64 key) mod Z.of_nat rateLimitShardCount < 32); [|unfold rateLimitShardCount in *; lia].
  apply Z.mod_pos_bound. done.
Qed.

(** Writing the stamps of one key. *)
Lemma stamps_of_write p key key' stamps r w :
  length (shards p) = rateLimitShardCount ->
  stamps_of (mkRateLimit (<[shardFor key := <[key := stamps]> (shards p !!! shardFor key)]> (shards p)) r w) key' =
  if decide (key' = key) then stamps else stamps_of p key'.
Proof.
  intros Hl. unfold stamps_of. cbn [shards].
  assert (shardFor key < length (shards p))%nat by (rewrite Hl; apply shardFor_lt).
  case_decide as E.
  - subst. rewrite list_lookup_total_insert_eq by done. by rewrite lookup_insert_eq.
  - destruct (decide (shardFor key' = shardFor key)) as [Es|Es].
    + rewrite Es, list_lookup_total_insert_eq by done. by rewrite lookup_insert_ne.
    + by rewrite list_lookup_total_insert_ne.
Qed.

Lemma stamps_of_sweep p key now :
  length (shards p) = rateLimitShardCount ->
  stamps_of (sweep now p) key = prune (now - window p) (stamps_of p key).
Proof.
  intros Hl. unfold stamps_of, sweep. cbn [shards].
  assert (shardFor key < length (shards p))%nat as Hs by (rewrite Hl; apply shardFor_lt).
  rewrite (list_lookup_total_fmap (sweep_shard (now - window p)) (shards p)) by done. unfold sweep_shard. rewrite lookup_omap.
  destruct (shards p !!! shardFor key !! key) as [stamps|]; [|done]. cbn.
  by destruct (prune _ stamps).
Qed.

Lemma agrees_later p hist looks last now :
  agrees p hist looks last -> last <= now -> agrees p hist looks now.
Proof.
  intros [H1 H2 H3 H4 H5 H6] Hn. split; try done; (eapply Forall_impl; [done|]); cbn; lia.
Qed.

(** Replacing the stamps of a key by those remembered after the look. *)
Lemma agrees_write p hist looks last now key :
  agrees p hist looks last -> last <= now ->
  let stamps := prune (now - window p) (stamps_of p key) in
  let w stamps := mkRateLimit (<[shardFor key := <[key := stamps]> (shards p !!! shardFor key)]> (shards p))
                    (rate p) (window p) in
  let looks' := (Some key, now - window p) :: looks in
  agrees (w stamps) hist looks' now /\ agrees (w (stamps ++ [now])) (hist ++ [(key, now)]) looks' now.
Proof.
  intros Hag Hn stamps w looks'.
  pose proof (prune_remembered p hist looks last key (now - window p) (Some key, now - window p) Hag
    (forgets_own key (now - window p))) as Hp. fold stamps looks' in Hp.
  destruct (agrees_later _ _ _ _ _ Hag Hn) as [H1 H2 H3 H4 H5 H6].
  assert (forall st, length (shards (w st)) = rateLimitShardCount) as Hl
    by (intros st; cbn; by rewrite length_insert).
  assert (Forall (fun l : look => l.2 <= now) looks') as Hlooks by (constructor; [cbn; lia|done]).
  assert (forall key', key' <> key -> stamps_of p key' =
    filter (fun t => remembered looks' key' t = true) (times hist key')) as Hother.
  { intros key' Hk. rewrite H6. apply list_filter_iff. intros t. unfold looks'.
    rewrite remembered_cons, forgets_other by done. tauto. }
  split; split; try done; [intros key'|..].
  - unfold w. rewrite stamps_of_write by done. case_decide as E; [by subst key'|by apply Hother].
  - rewrite fmap_app. cbn. apply StronglySorted_app_2; [|done|by repeat constructor].
    intros x y Hx Hy. apply list_elem_of_singleton in Hy as ->. by eapply list.Forall_forall in H3.
  - rewrite fmap_app. cbn. apply Forall_app. split; [done|]. constructor; [lia|done].
  - intros key'. unfold w. rewrite stamps_of_write by done. unfold times. rewrite filter_app, fmap_app.
    case_decide as E.
    + subst key'. rewrite (filter_cons_True (fun e => e.1 = key)) by done. cbn [fmap list_fmap snd].
      rewrite filter_app, (filter_cons_True _ now); [by rewrite Hp|].
      apply forallb_forall. intros l Hin%list_elem_of_In. eapply list.Forall_forall in Hlooks; [|done].
      unfold forgets. rewrite (proj2 (Z.ltb_ge now l.2)) by done. by rewrite andb_false_r.
    + rewrite (filter_cons_False (fun e => e.1 = key')) by (cbn; congruence). cbn.
      rewrite app_nil_r. by apply Hother.
Qed.

(** One message: decided as the specification does. *)
Lemma OnMessage_spec p hist looks last sess data now :
  agrees p hist looks last -> last <= now ->
  let count := filter (fun e => remembered looks e.1 e.2 = true) (passed hist (peer sess) (now - window p) now) in
  let ok := Z.of_nat (length count) <? rate p in
  let '(r, _, p') := OnMessage sess data now p in
  is_ok r = ok /\ rate p' = rate p /\ window p' = window p /\
  agrees p' (if ok then hist ++ [(peer sess, now)] else hist) ((Some (peer sess), now - window p) :: looks) now.
Proof.
  intros Hag Hn count ok. unfold OnMessage, peer in *. destruct (sessionKey rateLimitKeyMeta sess) as [key sess'] eqn:Ek.
  cbn [fst] in *. change (default [] (shards p !!! shardFor key !! key)) with (stamps_of p key).
  destruct (agrees_write p hist looks last now key Hag Hn) as [Hr Ha].
  assert (length count = length (prune (now - window p) (stamps_of p key))) as Hc.
  { rewrite (prune_remembered p hist looks last key (now - window p) (Some key, now - window p) Hag
      (forgets_own key (now - window p))).
    apply counted_times. apply (ag_last _ _ _ _ (agrees_later _ _ _ _ _ Hag Hn)). }
  unfold ok. rewrite Hc, Z.ltb_antisym.
  destruct (rate p <=? Z.of_nat (length _)); cbn [negb is_ok rate window]; auto.
Qed.

Lemma sweep_agrees p hist looks last now :
  agrees p hist looks last -> last <= now -> agrees (sweep now p) hist ((None, now - window p) :: looks) now.
Proof.
  intros Hag Hn. pose proof (agrees_later _ _ _ _ _ Hag Hn) as [H1 H2 H3 H4 H5 H6].
  split; try done; [by cbn; rewrite length_fmap|constructor; [cbn; lia|done]|].
  intros key. rewrite stamps_of_sweep by done. eapply prune_remembered; [done|]. apply forgets_all.
Qed.

(** The operations happen in the order of their times. *)
Definition in_order (last : Z) (ops : list op) : Prop :=
  StronglySorted Z.le (last :: omap op_time ops).

Lemma in_order_cons last o ops :
  in_order last (o :: ops) ->
  match op_time o with Some now => last <= now /\ in_order now ops | None => in_order last ops end.
Proof.
  unfold in_order. csimpl. destruct (op_time o) as [now|]; [|done].
  intros Hs. apply StronglySorted_inv in Hs as [Hs Hall]. inversion Hall. done.
Qed.

Lemma window_of_pos w : 0 < window_of w.
Proof. unfold window_of, second. destruct (Z.leb_spec w 0); lia. Qed.

Lemma run_exact ops p hist looks last :
  agrees p hist looks last -> in_order last ops -> run ops p = exact_run ops (rate p) (window p) hist looks.
Proof.
  revert p hist looks last. induction ops as [|o ops IH]; intros p hist looks last Hag Ho; [done|].
  apply in_order_cons in Ho. destruct o as [sess data now|now|r w]; cbn [op_time] in Ho; cbn [run exact_run].
  - destruct Ho as [Hn Ho]. pose proof (OnMessage_spec p hist looks last sess data now Hag Hn) as H. cbn zeta in H.
    destruct (OnMessage sess data now p) as [[r s'] p']. destruct H as (-> & <- & <- & Hag').
    f_equal. by eapply IH.
  - destruct Ho as [Hn Ho]. eapply (IH (sweep now p)); [by eapply sweep_agrees|done].
  - apply (IH (SetLimit r w p) hist looks last); [|done].
    destruct Hag. split; try done. apply window_of_pos.
Qed.

(** While no window grows, every look forgets only what no later window covers. *)
Lemma exact_is_plain ops r w hist looks last :
  in_order last ops -> window_never_grows w ops -> Forall (fun l : look => l.2 <= last - w) looks ->
  exact_run ops r w hist looks = spec_run ops r w hist.
Proof.
  revert r w hist looks last. induction ops as [|o ops IH]; intros r w hist looks last Ho Hw Hl; [done|].
  apply in_order_cons in Ho. destruct o as [sess data now|now|r' w']; cbn [op_time window_never_grows] in *;
    cbn [exact_run spec_run].
  - destruct Ho as [Hn Ho]. assert (Forall (fun l : look => l.2 <= now - w) looks) as Hl'
      by (eapply Forall_impl; [done|]; cbn; lia).
    assert (filter (fun e => remembered looks e.1 e.2 = true) (passed hist (peer sess) (now - w) now) =
      passed hist (peer sess) (now - w) now) as ->.
    { apply filter_all, list.Forall_forall. intros e [[_ He] _]%list_elem_of_filter.
      apply forallb_forall. intros l Hin%list_elem_of_In. eapply list.Forall_forall in Hl'; [|done].
      unfold forgets. rewrite (proj2 (Z.ltb_ge e.2 l.2)) by lia. by rewrite andb_false_r. }
    f_equal. eapply IH; [done..|]. constructor; [cbn; lia|done].
  - destruct Ho as [Hn Ho]. eapply IH; [done..|]. constructor; [cbn; lia|].
    eapply Forall_impl; [done|]. cbn. lia.
  - destruct Hw as [Hle Hw]. eapply IH; [done..|]. eapply Forall_impl; [done|]. cbn. lia.
Qed.

Lemma NewRateLimit_agrees r w last : agrees (NewRateLimit r w) [] [] last.
Proof.
  split; try done; [constructor|apply (window_of_pos w)|].
  intros key. unfold stamps_of, NewRateLimit. cbn [SetLimit shards].
  rewrite lookup_total_replicate_2 by apply shardFor_lt. by rewrite lookup_empty.
Qed.

(** The messages that passed. *)
Definition accepted (decisions : list (bytes * Z * bool)) : list (bytes * Z) :=
  omap (fun d : bytes * Z * bool => if d.2 then Some d.1 else None) decisions.

Definition no_retune (ops : list op) : Prop :=
  Forall (fun o => match o with Retune _ _ => False | _ => True end) ops.

Lemma passed_le hist key now t w :
  Forall (fun x => x <= now) (hist.*2) -> t <= now <= t + w ->
  (length (passed hist key t (t + w)) <= length (passed hist key (now - w) now))%nat.
Proof.
  intros Hnow Ht. unfold passed. induction hist as [|e hist IH]; [done|].
  cbn in Hnow. inversion Hnow; subst. specialize (IH ltac:(done)).
  rewrite !filter_cons.
  destruct (decide (e.1 = key /\ t <= e.2 <= t + w)) as [Ha|Ha], (decide (e.1 = key /\ now - w <= e.2 <= now)) as [Hb|Hb];
    cbn [length]; try lia.
  destruct Hb. split; [tauto|lia].
Qed.

(** In the specification, an interval of one window holds at most [r] accepted
    messages of a key. *)
Lemma spec_run_bound ops r w hist last key t :
  no_retune ops -> in_order last ops -> Forall (fun x => x <= last) (hist.*2) -> 0 < r ->
  (length (passed hist key t (t + w)) <= Z.to_nat r)%nat ->
  (length (passed (hist ++ accepted (spec_run ops r w hist)) key t (t + w)) <= Z.to_nat r)%nat.
Proof.
  intros Hno. revert hist last. induction Hno as [|o ops Ho Hno IH]; intros hist last Hord Hlast Hr Hle.
  { cbn. by rewrite app_nil_r. }
  apply in_order_cons in Hord. destruct o as [sess data now|now|r' w']; cbn [op_time] in Hord; [| |done].
  - destruct Hord as [Hn Hord]. cbn [spec_run].
    assert (Forall (fun x => x <= now) (hist.*2)) as Hnow by (eapply Forall_impl; [done|]; cbn; lia).
    destruct (Z.ltb_spec (Z.of_nat (length (passed hist (peer sess) (now - w) now))) r) as [Hlt|_];
      unfold accepted; csimpl; [|by eapply IH].
    rewrite cons_middle, app_assoc. eapply IH; [done| |done|].
    + rewrite fmap_app. apply Forall_app. split; [done|]. by repeat constructor.
    + unfold passed in *. rewrite filter_app, length_app.
      destruct (decide (peer sess = key /\ t <= now <= t + w)) as [[<- Ht]|Hk];
        [|rewrite (filter_cons_False _ (peer sess, now)) by done; cbn; lia].
      rewrite filter_cons_True by done. cbn [length filter list_filter].
      pose proof (passed_le hist (peer sess) now t w Hnow Ht) as H'. unfold passed in H'. cbn. lia.
  - destruct Hord as [Hn Hord]. cbn [spec_run]. eapply (IH hist now); [done| |done|done].
    eapply Forall_impl; [done|]. cbn. lia.
Qed.

Lemma no_retune_never_grows w ops : no_retune ops -> window_never_grows w ops.
Proof. induction 1 as [|o ops Ho Hno IH]; [done|]. by destruct o. Qed.

(** C35: The limiter, for any run of messages, sweeps and limit changes (rate and
    window) in the order of their times, and whatever the hash of the shards: a
    message passes exactly when fewer than the rate in force were counted, and
    the count is of the messages that passed from the same host in the window
    that ends at it, less those that an earlier look - a message of that host, or
    a sweep - found outside the window in force then. So as long as no change
    makes the window longer the decisions are those of the plain sliding window,
    in which sharding, pruning and sweeps play no part; and a change of the rate,
    up or down, governs the very next message. When a change makes the window
    longer, what was forgotten under the shorter one is not counted again. Under
    one limit, no interval of a window's length ever holds more accepted messages
    of one host than the rate. *)
Theorem ratelimit_sliding_window r w ops last :
  in_order last ops ->
  let p := NewRateLimit r w in
  run ops p = exact_run ops (rate_of r) (window_of w) [] [] /\
  (window_never_grows (window_of w) ops -> run ops p = spec_run ops (rate_of r) (window_of w) []) /\
  (no_retune ops -> forall key t,
     Z.of_nat (length (passed (accepted (run ops p)) key t (t + window_of w))) <= rate_of r).
Proof.
  intros Hord p. pose proof (run_exact ops p [] [] last (NewRateLimit_agrees r w last) Hord) as E.
  change (rate p) with (rate_of r) in E. change (window p) with (window_of w) in E.
  assert (window_never_grows (window_of w) ops -> run ops p = spec_run ops (rate_of r) (window_of w) []) as Hplain
    by (intros Hw; rewrite E; by eapply exact_is_plain).
  split_and!; [done|done|]. intros Hno key t. rewrite Hplain by (by apply no_retune_never_grows).
  assert (0 < rate_of r) by (unfold rate_of; destruct (Z.leb_spec r 0); lia).
  pose proof (spec_run_bound ops (rate_of r) (window_of w) [] last key t Hno Hord ltac:(constructor) ltac:(done)
    ltac:(cbn; lia)) as H'. rewrite app_nil_l in H'. lia.
Qed.
End limiter.

(** Rate 2 in a window of 10; then a rate raised to 2, at once, and a window made
    longer, whose first message (at 12) passes because of the sweep at 11. *)
Lemma ratelimit_sliding_window_witness :
  let s := Some (mkPSession (Some (bytes_of_string "10.0.0.7:1234")) ∅ false) in
  let ops := [Msg s [] 0; Msg s [] 5; Msg s [] 6; Sweep 7; Msg s [] 11] in
  let raised := [Msg s [] 0; Msg s [] 1; Retune 2 10; Msg s [] 2; Msg s [] 3] in
  let longer sweeps := [Msg s [] 0] ++ sweeps ++ [Retune 1 100; Msg s [] 12] in
  (run (fun _ => 0) ops (NewRateLimit 2 10)).*2 = [true; true; false; true] /\
  (forall key t, Z.of_nat (length (passed (accepted (run (fun _ => 0) ops (NewRateLimit 2 10))) key t (t + 10))) <= 2) /\
  (run (fun _ => 0) raised (NewRateLimit 1 10)).*2 = [true; false; true; false] /\
  (run (fun _ => 0) (longer [Sweep 11]) (NewRateLimit 1 10)).*2 = [true; true] /\
  (run (fun _ => 0) (longer []) (NewRateLimit 1 10)).*2 = [true; false].
Proof.
  intros s ops raised longer.
  assert (in_order 0 ops /\ in_order 0 raised /\ in_order 0 (longer [Sweep 11]) /\ in_order 0 (longer []))
    as (Ho & Hr & Hl1 & Hl2) by (unfold in_order; cbn; split_and!; repeat constructor; lia).
  split_and!.
  - rewrite (proj1 (proj2 (ratelimit_sliding_window (fun _ => 0) 2 10 ops 0 Ho))) by done. by vm_compute.
  - apply (proj2 (proj2 (ratelimit_sliding_window (fun _ => 0) 2 10 ops 0 Ho))). by repeat constructor.
  - rewrite (proj1 (proj2 (ratelimit_sliding_window (fun _ => 0) 1 10 raised 0 Hr))) by done. by vm_compute.
  - rewrite (proj1 (ratelimit_sliding_window (fun _ => 0) 1 10 _ 0 Hl1)). by vm_compute.
  - rewrite (proj1 (ratelimit_sliding_window (fun _ => 0) 1 10 _ 0 Hl2)). by vm_compute.
Defined.
