(* ===== verification/AutoBan.v ===== *)
(** * AutoBan: [internal/plugin/autoban.go]

    The per-host message counter and its bans.  Every operation runs under the
    plugin's mutex; a run is the order in which they took it.  Times are
    nanoseconds. *)
From S2P Require Import Prelude Bytes Core RateLimit.
Local Open Scope string_scope.
Local Open Scope Z_scope.
Local Open Scope list_scope.

(* go: internal/plugin/autoban.go:12-15 (autoBanCount) *)
Record autoBanCount : Type := mkCount { count : Z; last_seen : Z }.

(* go: internal/plugin/autoban.go:17-25 (AutoBan) *)
Record AutoBan : Type := mkAutoBan {
  threshold : Z;
  banDuration : Z;
  counts : gmap bytes autoBanCount;
  banned : gmap bytes Z
}.

(** 30 minutes. *)
(* go: internal/plugin/autoban.go:27-37 (NewAutoBan) *)
Definition NewAutoBan (threshold : Z) : AutoBan :=
  mkAutoBan (if threshold <=? 0 then 3 else threshold) (30 * 60 * second) ∅ ∅.

Definition autoBanKeyMeta : string := "plugin.autoban.ip".
Definition set_tables (counts : gmap bytes autoBanCount) (banned : gmap bytes Z) (p : AutoBan) : AutoBan :=
  mkAutoBan (threshold p) (banDuration p) counts banned.

(* go: internal/plugin/autoban.go:70-88 (sweep) *)
Definition sweep (now : Z) (p : AutoBan) : AutoBan :=
  set_tables (filter (fun e => now - last_seen e.2 <= banDuration p) (counts p))
             (filter (fun e => now <= e.2) (banned p)) p.

(** [now] and [now'] are the two readings of the clock. *)
(* go: internal/plugin/autoban.go:150-164 (Record) *)
Definition Record_ (sess : option psession) (now now' : Z) (p : AutoBan) :
    bool * option psession * AutoBan :=
  let '(key, sess') := sessionKey autoBanKeyMeta sess in
  let c := default (mkCount 0 0) (counts p !! key) in
  let c := mkCount (i64 (count c + 1)) now in
  if threshold p <=? count c then
    (true, sess', set_tables (delete key (counts p)) (<[key := now' + banDuration p]> (banned p)) p)
  else (false, sess', set_tables (<[key := c]> (counts p)) (banned p) p).

(** The second component says that the session is closed. *)
(* go: internal/plugin/autoban.go:90-111 (OnMessage) *)
Definition OnMessage (sess : option psession) (data : bytes) (now now' : Z) (p : AutoBan) :
    result error bytes * bool * option psession * AutoBan :=
  match Record_ sess now now' p with
  | (true, sess', p') => (Err ErrPluginDrop, bool_decide (is_Some sess), sess', p')
  | (false, sess', p') => (Ok data, false, sess', p')
  end.

(* go: internal/plugin/autoban.go:113-127 (OnAccept) *)
Definition OnAccept (sess : option psession) (now : Z) (p : AutoBan) : option error * AutoBan :=
  let key := remoteKey sess in
  match banned p !! key with
  | Some expiry =>
      if now <? expiry then (Some ErrPluginBlock, p)
      else (None, set_tables (counts p) (delete key (banned p)) p)
  | None => (None, p)
  end.

(* go: internal/plugin/autoban.go:185-195 (normalizeBanKey) *)
Definition normalizeBanKey (addr : bytes) : bytes :=
  match addr with
  | [] => bytes_of_string "unknown"
  | _ => match SplitHost addr with Some host => host | None => addr end
  end.

(* go: internal/plugin/autoban.go:166-183 (Banned) *)
Definition Banned (addr : bytes) (now : Z) (p : AutoBan) : bool * AutoBan :=
  let key := normalizeBanKey addr in
  match banned p !! key with
  | None => (false, p)
  | Some expiry =>
      if expiry <? now then (false, set_tables (counts p) (delete key (banned p)) p) else (true, p)
  end.

(** ** Runs *)

Inductive op : Type :=
| Message (sess : option psession) (data : bytes) (now now' : Z)
| Accept (sess : option psession) (now : Z)
| Query (addr : bytes) (now : Z)
| SweepAt (now : Z).

Definition step (o : op) (p : AutoBan) : AutoBan :=
  match o with
  | Message sess data now now' => (OnMessage sess data now now' p).2
  | Accept sess now => (OnAccept sess now p).2
  | Query addr now => (Banned addr now p).2
  | SweepAt now => sweep now p
  end.

Definition run (ops : list op) (p : AutoBan) : AutoBan := foldl (fun p o => step o p) p ops.

(** Every clock reading of the operation is between [lo] and [hi]. *)
Definition op_within (lo hi : Z) (o : op) : Prop :=
  match o with
  | Message _ _ now now' => lo <= now <= hi /\ lo <= now' <= hi
  | Accept _ now | Query _ now | SweepAt now => lo <= now <= hi
  end.

Definition key_of (sess : option psession) : bytes := (sessionKey autoBanKeyMeta sess).1.

(** ** A ban holds until it expires *)

(** The ban on a key lasts at least until [expiry]. *)
Definition banned_until (key : bytes) (expiry : Z) (p : AutoBan) : Prop :=
  exists e, banned p !! key = Some e /\ expiry <= e.

(** A step before the expiry of a ban keeps it, or renews it. *)
Lemma step_keeps_ban o p key expiry lo :
  banned_until key expiry p -> expiry <= lo + banDuration p -> op_within lo (expiry - 1) o ->
  banDuration (step o p) = banDuration p /\ banned_until key expiry (step o p).
Proof.
  intros (e & Hb & Hle) He Ho. unfold banned_until.
  destruct o as [sess data now now'|sess now|addr now|now]; cbn [step op_within] in *.
  - unfold OnMessage, Record_. destruct (sessionKey autoBanKeyMeta sess) as [k s'].
    destruct (threshold p <=? _); cbn; (split; [done|]); [|by eauto].
    destruct (decide (k = key)) as [->|Hk].
    + rewrite lookup_insert_eq. eexists. split; [done|lia].
    + rewrite lookup_insert_ne by done. eauto.
  - unfold OnAccept. destruct (banned p !! remoteKey sess) as [e'|] eqn:E; [|by eauto].
    destruct (Z.ltb_spec now e') as [Hn|Hn]; cbn; (split; [done|]); [by eauto|].
    rewrite lookup_delete_ne; [by eauto|]. intros <-. simplify_eq. lia.
  - unfold Banned. destruct (banned p !! normalizeBanKey addr) as [e'|] eqn:E; [|by eauto].
    destruct (Z.ltb_spec e' now) as [Hn|Hn]; cbn; (split; [done|]); [|by eauto].
    rewrite lookup_delete_ne; [by eauto|]. intros <-. simplify_eq. lia.
  - cbn. split; [done|]. exists e. split; [|done]. apply map_lookup_filter_Some. split; [done|cbn; lia].
Qed.

Lemma run_keeps_ban ops p key expiry lo :
  banned_until key expiry p -> expiry <= lo + banDuration p -> Forall (op_within lo (expiry - 1)) ops ->
  banned_until key expiry (run ops p).
Proof.
  intros Hb He Hall. revert p Hb He. induction Hall as [|o ops Ho _ IH]; intros p Hb He; [done|].
  destruct (step_keeps_ban o p key expiry lo Hb He Ho) as [Ed Hb']. cbn [run foldl].
  apply IH; [done|lia].
Qed.

(** A ban is not shorter than its duration: once a message of a session has
    tripped the threshold, at time [now'], every connection from the same host
    is refused, and the host reported as banned, for the 30 minutes that
    follow, whatever messages, connections, queries and sweeps come in
    between; and a refused message is never delivered, its session is closed. *)
Theorem ban_lasts sess data now now' p ops sess' later addr :
  banDuration p = 30 * 60 * second ->
  (OnMessage sess data now now' p).1.1.1 = Err ErrPluginDrop ->
  let expiry := now' + 30 * 60 * second in
  Forall (op_within now' (expiry - 1)) ops -> now' <= later < expiry ->
  remoteKey sess' = key_of sess -> normalizeBanKey addr = key_of sess ->
  let p' := run ops (OnMessage sess data now now' p).2 in
  (OnAccept sess' later p').1 = Some ErrPluginBlock /\ (Banned addr later p').1 = true /\
  (OnMessage sess data now now' p).1.1.2 = bool_decide (is_Some sess).
Proof.
  intros Hd Hm expiry Hops Hl Hk Ha p'.
  assert (banned_until (key_of sess) expiry (OnMessage sess data now now' p).2 /\
          (OnMessage sess data now now' p).1.1.2 = bool_decide (is_Some sess) /\
          banDuration (OnMessage sess data now now' p).2 = 30 * 60 * second) as (Hb & Hc & Hd').
  { unfold OnMessage, Record_, key_of in *. destruct (sessionKey autoBanKeyMeta sess) as [k s'].
    destruct (threshold p <=? _); [|done]. cbn. split; [|done].
    exists expiry. cbn. rewrite lookup_insert_eq, Hd. by split. }
  pose proof (run_keeps_ban ops _ _ expiry now' Hb ltac:(rewrite Hd'; lia) Hops) as (e & He & Hle).
  fold p' in He. unfold OnAccept, Banned. rewrite Hk, Ha, He.
  rewrite (proj2 (Z.ltb_lt _ _)) by lia. by rewrite (proj2 (Z.ltb_ge _ _)) by lia.
Qed.

(** [Banned] with the address of a session looks at the ban [Record] makes. *)
Lemma normalizeBanKey_remoteKey s addr :
  remote s = Some addr -> addr <> [] -> normalizeBanKey addr = remoteKey (Some s).
Proof. intros Hr Ha. unfold normalizeBanKey, remoteKey. rewrite Hr. by destruct addr. Qed.

(** ** The threshold is exact *)

(** The messages, with the clock readings. *)
Definition message_run := list (option psession * bytes * Z * Z).

Fixpoint decisions (ms : message_run) (p : AutoBan) : list (bytes * bool) :=
  match ms with
  | [] => []
  | (sess, data, now, now') :: ms =>
      let '(r, _, _, p') := OnMessage sess data now now' p in
      (key_of sess, is_ok r) :: decisions ms p'
  end.

(** The n-th message of a host is refused when n is a multiple of the
    threshold. *)
Fixpoint spec_decisions (ms : message_run) (th : Z) (seen : bytes -> Z) : list (bytes * bool) :=
  match ms with
  | [] => []
  | (sess, _, _, _) :: ms =>
      let k := key_of sess in
      let n := seen k + 1 in
      (k, negb (n mod th =? 0)) :: spec_decisions ms th (fun k' => if decide (k' = k) then n else seen k')
  end.

Definition counted (p : AutoBan) (key : bytes) : Z := count (default (mkCount 0 0) (counts p !! key)).

Lemma succ_mod n th : 0 < th -> (n + 1) mod th = if n mod th + 1 =? th then 0 else n mod th + 1.
Proof.
  intros Hth. pose proof (Z.mod_pos_bound n th Hth). pose proof (Z.div_mod n th).
  destruct (Z.eqb_spec (n mod th + 1) th) as [E|E].
  - symmetry. apply (Z.mod_unique _ _ (n / th + 1)); lia.
  - symmetry. apply (Z.mod_unique _ _ (n / th)); lia.
Qed.

Lemma decisions_spec ms p seen :
  0 < threshold p <= max_int64 -> (forall k, counted p k = seen k mod threshold p) ->
  decisions ms p = spec_decisions ms (threshold p) seen.
Proof.
  revert p seen. induction ms as [|[[[sess data] now] now'] ms IH]; intros p seen Hth Hc; [done|].
  cbn [decisions spec_decisions]. unfold OnMessage, Record_, key_of.
  destruct (sessionKey autoBanKeyMeta sess) as [k s']. cbn [fst].
  pose proof (Hc k) as Hk. unfold counted in Hk. pose proof (Z.mod_pos_bound (seen k) (threshold p) ltac:(lia)).
  rewrite succ_mod by lia.
  assert (i64 (count (default (mkCount 0 0) (counts p !! k)) + 1) = seen k mod threshold p + 1) as E.
  { rewrite Hk. apply i64_small. unfold in_i64, min_int64, max_int64 in *. lia. }
  cbn [count]. rewrite E.
  set (th := threshold p) in *.
  assert (forall c' b', (forall k', count (default (mkCount 0 0) (c' !! k')) =
            (if decide (k' = k) then seen k + 1 else seen k') mod th) ->
          decisions ms (set_tables c' b' p) =
          spec_decisions ms th (fun k' => if decide (k' = k) then seen k + 1 else seen k')) as Hrec
    by (intros c' b' Hc'; by apply IH).
  destruct (Z.leb_spec th (seen k mod th + 1)) as [Ht|Ht]; cbn [is_ok].
  - rewrite (proj2 (Z.eqb_eq _ th)) by lia. cbn. f_equal. apply Hrec. intros k'. case_decide as Hk'.
    + subst k'. rewrite lookup_delete_eq, succ_mod by lia. by rewrite (proj2 (Z.eqb_eq _ th)) by lia.
    + rewrite lookup_delete_ne by done. apply Hc.
  - rewrite (proj2 (Z.eqb_neq _ th)) by lia. rewrite (proj2 (Z.eqb_neq _ 0)) by lia. cbn [negb].
    f_equal. apply Hrec. intros k'. case_decide as Hk'.
    + subst k'. rewrite lookup_insert_eq, succ_mod by lia. by rewrite (proj2 (Z.eqb_neq _ th)) by lia.
    + rewrite lookup_insert_ne by done. apply Hc.
Qed.

(** The threshold is exact and per host: of the messages of one host, in any
    interleaving with those of others, every threshold-th is refused (with a
    ban) and the others are delivered, whichever sessions they come on. *)
Theorem autoban_threshold_exact n ms :
  n <= max_int64 ->
  let p := NewAutoBan n in
  decisions ms p = spec_decisions ms (threshold p) (fun _ => 0).
Proof.
  intros Hn p. apply decisions_spec.
  - unfold p. cbn [NewAutoBan threshold]. unfold max_int64 in *. destruct (Z.leb_spec n 0); lia.
  - intros k. unfold counted, p. cbn [NewAutoBan counts]. by rewrite lookup_empty.
Qed.

Definition peer_a : option psession := Some (mkPSession (Some (bytes_of_string "10.0.0.7:1234")) ∅ true).
Definition peer_a' : option psession := Some (mkPSession (Some (bytes_of_string "10.0.0.7:99")) ∅ false).
Definition peer_b : option psession := Some (mkPSession (Some (bytes_of_string "[::1]:80")) ∅ true).

Lemma autoban_threshold_exact_witness :
  (decisions [(peer_a, [], 1, 1); (peer_b, [], 2, 2); (peer_a', [], 3, 3); (peer_a, [], 4, 4); (peer_a, [], 5, 5)]
     (NewAutoBan 0)).*2 = [true; true; true; false; true].
Proof. rewrite (autoban_threshold_exact 0) by (vm_compute; discriminate). by vm_compute. Defined.

Lemma ban_lasts_witness :
  let p := run [Message peer_a [] 1 1] (NewAutoBan 2) in
  let p' := run [Accept peer_b 5; SweepAt 1000] (OnMessage peer_a [] 3 3 p).2 in
  (OnAccept peer_a' 2000 p').1 = Some ErrPluginBlock /\ (Banned (bytes_of_string "10.0.0.7:5") 2000 p').1 = true.
Proof.
  intros p p'.
  assert (Forall (op_within 3 (3 + 30 * 60 * second - 1)) [Accept peer_b 5; SweepAt 1000]) as Hops
    by (apply Forall_cons; split; [cbn; unfold second; lia|]; apply Forall_cons; split; [cbn; unfold second; lia|done]).
  assert (3 <= 2000 < 3 + 30 * 60 * second) as Hl by (unfold second; lia).
  assert ((OnMessage peer_a [] 3 3 p).1.1.1 = Err ErrPluginDrop) as Hm by (vm_compute; reflexivity).
  assert (remoteKey peer_a' = key_of peer_a) as Hk by (vm_compute; reflexivity).
  assert (normalizeBanKey (bytes_of_string "10.0.0.7:5") = key_of peer_a) as Ha by (vm_compute; reflexivity).
  assert (banDuration p = 30 * 60 * second) as Hd by (vm_compute; reflexivity).
  destruct (ban_lasts peer_a [] 3 3 p _ peer_a' 2000 _ Hd Hm Hops Hl Hk Ha) as (H1 & H2 & _).
  by split.
Defined.
