(* ===== verification/NetIP.v ===== *)
(** * NetIP: IP addresses of Go's package [net]

    The parsing, printing, masking and CIDR tests the block list uses:
    [net.ParseIP], [IP.To4], [IP.String], [net.ParseCIDR], [IPNet.Contains].
    Printing an address and parsing it again gives the same address
    ([ParseIP_String]), so the printed form identifies it. *)
From S2P Require Import Prelude Bytes.
From S2P Require PeerAddr.
Local Open Scope Z_scope.
Local Open Scope list_scope.

Abbreviation v4_prefix := PeerAddr.v4_prefix.

(** ** Parsing *)

(** The dotted form: [val] and [dig] are the value and the digits of the octet
    being read, [fields] the octets before it. *)
Fixpoint v4_fields (fields : bytes) (val dig : Z) (s : bytes) : option bytes :=
  match s with
  | [] => if (length fields =? 3)%nat then Some (fields ++ [val]) else None
  | c :: s' =>
      if is_digit c then
        if (dig =? 1) && (val =? 0) then None
        else
          let val := val * 10 + (c - 48) in
          if 255 <? val then None else v4_fields fields val (dig + 1) s'
      else if c =? 46 then
        if (dig =? 0) || bool_decide (s' = []) || (length fields =? 3)%nat then None
        else v4_fields (fields ++ [val]) 0 0 s'
      else None
  end.

Definition parseIPv4 (s : bytes) : option bytes := v4_fields [] 0 0 s.

Definition hex_digit (c : Z) : option Z :=
  if is_digit c then Some (c - 48)
  else if (97 <=? c) && (c <=? 102) then Some (c - 87)
  else if (65 <=? c) && (c <=? 70) then Some (c - 55)
  else None.

(** The hexadecimal number at the head of a text: its value, its length and what
    follows; none if it is longer than four digits. *)
Fixpoint hex_number (off : nat) (acc : Z) (s : bytes) : option (Z * nat * bytes) :=
  match s with
  | [] => Some (acc, off, [])
  | c :: s' =>
      match hex_digit c with
      | None => Some (acc, off, s)
      | Some d => if (3 <? off)%nat then None else hex_number (S off) (acc * 16 + d) s'
      end
  end.

(** The groups of an IPv6 address: [ip] are the bytes so far, [ell] where the
    ellipsis is.  The answer has the bytes, the ellipsis and the unread rest. *)
Fixpoint v6_groups (fuel : nat) (ip : bytes) (ell : option nat) (s : bytes) : option (bytes * option nat * bytes) :=
  match fuel with
  | O => Some (ip, ell, s)
  | S fuel' =>
      match hex_number 0 0 s with
      | None => None
      | Some (acc, off, rest) =>
          if (off =? 0)%nat then None
          else if bool_decide (head rest = Some 46) then
            if match ell with None => negb (length ip =? 12)%nat | Some _ => false end then None
            else if (16 <? length ip + 4)%nat then None
            else match parseIPv4 s with Some b => Some (ip ++ b, ell, []) | None => None end
          else
            let ip := ip ++ [Z.shiftr acc 8; Z.land acc 255] in
            match rest with
            | [] => Some (ip, ell, [])
            | c :: [] => None
            | c :: d :: s' =>
                if negb (c =? 58) then None
                else if d =? 58 then
                  match ell with
                  | Some _ => None
                  | None =>
                      if bool_decide (s' = []) then Some (ip, Some (length ip), []) else v6_groups fuel' ip (Some (length ip)) s'
                  end
                else v6_groups fuel' ip ell (d :: s')
            end
      end
  end.

Definition v6_expand (r : bytes * option nat * bytes) : option bytes :=
  let '(ip, ell, rest) := r in
  match rest with
  | _ :: _ => None
  | [] =>
      match ell with
      | None => if (length ip <? 16)%nat then None else Some ip
      | Some e => if (length ip <? 16)%nat then Some (take e ip ++ replicate (16 - length ip) 0 ++ drop e ip) else None
      end
  end.

(** The address without its zone. *)
Definition v6_address (s : bytes) : option bytes :=
  if bool_decide (take 2 s = [58; 58]) then
    if bool_decide (drop 2 s = []) then Some (replicate 16 0)
    else v6_groups 8 [] (Some 0%nat) (drop 2 s) ≫= v6_expand
  else v6_groups 8 [] None s ≫= v6_expand.

(** The address and its zone. *)
Definition parseIPv6 (s : bytes) : option (bytes * bytes) :=
  match IndexByte 37 s with
  | Some i => if bool_decide (drop (S i) s = []) then None else (fun a => (a, drop (S i) s)) <$> v6_address (take i s)
  | None => (fun a => (a, [])) <$> v6_address s
  end.

(** [netip.ParseAddr]: the first dot, colon or percent sign decides.  The address
    has 4 or 16 bytes. *)
Fixpoint addr_kind (s : bytes) : option Z :=
  match s with
  | [] => None
  | c :: s' => if (c =? 46) || (c =? 58) || (c =? 37) then Some c else addr_kind s'
  end.

Definition ParseAddr (s : bytes) : option (bytes * bytes) :=
  match addr_kind s with
  | Some c => if c =? 46 then (fun a => (a, [])) <$> parseIPv4 s else if c =? 58 then parseIPv6 s else None
  | None => None
  end.

(** [As16] *)
Definition to16 (a : bytes) : bytes := if (length a =? 4)%nat then v4_prefix ++ a else a.

Definition ParseIP (s : bytes) : option bytes :=
  match ParseAddr s with
  | Some (a, []) => Some (to16 a)
  | _ => None
  end.

Definition To4 (ip : bytes) : option bytes :=
  if (length ip =? 4)%nat then Some ip
  else if (length ip =? 16)%nat && bool_decide (take 12 ip = v4_prefix) then Some (drop 12 ip)
  else None.

(** ** Printing *)

Definition octet (b : Z) : bytes :=
  if 100 <=? b then [48 + b / 100; 48 + b / 10 mod 10; 48 + b mod 10]
  else if 10 <=? b then [48 + b / 10; 48 + b mod 10]
  else [48 + b].

Definition string4 (a : bytes) : bytes := Join [46] (map octet a).

Definition nibble (d : Z) : Z := if d <? 10 then 48 + d else 87 + d.

(** A group in lower case without leading zeros. *)
Definition hex_group (g : Z) : bytes :=
  if 4096 <=? g then [nibble (g / 4096); nibble (g / 256 mod 16); nibble (g / 16 mod 16); nibble (g mod 16)]
  else if 256 <=? g then [nibble (g / 256); nibble (g / 16 mod 16); nibble (g mod 16)]
  else if 16 <=? g then [nibble (g / 16); nibble (g mod 16)]
  else [nibble g].

Fixpoint groups (b : bytes) : list Z :=
  match b with
  | h :: l :: b' => h * 256 + l :: groups b'
  | _ => []
  end.

(** How many zero groups a list begins with. *)
Fixpoint zeros (gs : list Z) : nat :=
  match gs with
  | g :: gs' => if g =? 0 then S (zeros gs') else 0%nat
  | [] => 0%nat
  end.

(** The first longest run of at least two zero groups: its start and length. *)
Fixpoint zero_run (i : nat) (best : nat * nat) (gs : list Z) : nat * nat :=
  match gs with
  | [] => best
  | _ :: gs' => zero_run (S i) (if (snd best <? zeros gs)%nat && (2 <=? zeros gs)%nat then (i, zeros gs) else best) gs'
  end.

Definition string6 (a : bytes) : bytes :=
  let gs := groups a in
  let '(z, n) := zero_run 0 (0%nat, 0%nat) gs in
  if (n =? 0)%nat then Join [58] (map hex_group gs)
  else Join [58] (map hex_group (take z gs)) ++ [58; 58] ++ Join [58] (map hex_group (drop (z + n) gs)).

(** [IP.String] of a 4- or 16-byte address. *)
Definition String_ (ip : bytes) : bytes :=
  match To4 ip with
  | Some b => string4 b
  | None => string6 ip
  end.

(** ** Networks *)

(** [dtoi]: the number at the head of a text and its length. *)
Fixpoint dtoi (n : Z) (i : nat) (s : bytes) : option (Z * nat) :=
  match s with
  | c :: s' =>
      if is_digit c then
        let n := n * 10 + (c - 48) in
        if 16777215 <=? n then None else dtoi n (S i) s'
      else if (i =? 0)%nat then None else Some (n, i)
  | [] => if (i =? 0)%nat then None else Some (n, i)
  end.

(** [CIDRMask]: a byte of [n] leading ones. *)
Definition mask_byte (n : Z) : Z := if 8 <=? n then 255 else if n <=? 0 then 0 else 255 - Z.shiftr 255 n.
Definition CIDRMask (ones : Z) (len : nat) : bytes := map (fun i => mask_byte (ones - 8 * Z.of_nat i)) (seq 0 len).

Record IPNet : Type := mkIPNet { net_IP : bytes; net_Mask : bytes }.

#[export] Instance IPNet_eq_dec : EqDecision IPNet.
Proof. solve_decision. Defined.

Definition and_bytes (a m : bytes) : bytes := zip_with Z.land a m.

Definition ParseCIDR (s : bytes) : option IPNet :=
  match IndexByte 47 s with
  | None => None
  | Some i =>
      let mask := drop (S i) s in
      match ParseAddr (take i s) with
      | Some (a, []) =>
          match dtoi 0 0 mask with
          | Some (n, k) =>
              if (k =? length mask)%nat && (n <=? 8 * Z.of_nat (length a)) then
                let m := CIDRMask n (length a) in Some (mkIPNet (and_bytes a m) m)
              else None
          | None => None
          end
      | _ => None
      end
  end.

(** The network number and the mask; an IPv4 network in IPv6 form is one of IPv4. *)
Definition networkNumberAndMask (n : IPNet) : option (bytes * bytes) :=
  match To4 (net_IP n) with
  | Some b => if (length (net_Mask n) =? 4)%nat then Some (b, net_Mask n)
              else if (length (net_Mask n) =? 16)%nat then Some (b, drop 12 (net_Mask n)) else None
  | None =>
      if (length (net_IP n) =? 16)%nat && (length (net_Mask n) =? 16)%nat then Some (net_IP n, net_Mask n) else None
  end.

Definition Contains (n : IPNet) (ip : bytes) : bool :=
  let ip := default ip (To4 ip) in
  match networkNumberAndMask n with
  | Some (nn, m) => (length ip =? length nn)%nat && bool_decide (and_bytes nn m = and_bytes ip m)
  | None => (length ip =? 0)%nat
  end.

Example ParseIP_examples :
  ParseIP (bytes_of_string "10.0.0.1") = Some (v4_prefix ++ [10; 0; 0; 1]) /\
  ParseIP (bytes_of_string "::ffff:10.0.0.1") = Some (v4_prefix ++ [10; 0; 0; 1]) /\
  ParseIP (bytes_of_string "2001:db8::8:0:0:1") = Some [32; 1; 13; 184; 0; 0; 0; 0; 0; 8; 0; 0; 0; 0; 0; 1] /\
  ParseIP (bytes_of_string "::") = Some (replicate 16 0) /\
  ParseIP (bytes_of_string "1::") = Some (0 :: 1 :: replicate 14 0) /\
  ParseIP <$> (bytes_of_string <$> ["fe80::1%eth0"; "010.0.0.1"; "1.2.3"; "1.2.3.4.5"; "256.1.1.1"; "1:2"; "::1::"; "1:2:3:4:5:6:7:8::";
    "12345::"; ":1"; "1:"; ""; "host"; "1..2.3"; "::1.2.3.4.5"]%string) = replicate 15 None /\
  String_ [32; 1; 13; 184; 0; 0; 0; 0; 0; 0; 0; 8; 0; 0; 0; 0] = bytes_of_string "2001:db8::8:0:0" /\
  String_ (v4_prefix ++ [10; 0; 0; 1]) = bytes_of_string "10.0.0.1" /\
  String_ (replicate 16 0) = bytes_of_string "::" /\
  ParseCIDR (bytes_of_string "10.1.2.3/8") = Some (mkIPNet [10; 0; 0; 0] [255; 0; 0; 0]) /\
  ParseCIDR <$> (bytes_of_string <$> ["10.0.0.0/33"; "10.0.0.0"; "10.0.0.0/"; "10.0.0.0/8x"]%string) = replicate 4 None.
Proof. by vm_compute. Qed.

(** ** Printed addresses parse *)

Lemma is_digit_48 d : 0 <= d < 10 -> is_digit (48 + d) = true.
Proof. intros. unfold is_digit. apply andb_true_iff. split; apply Z.leb_le; lia. Qed.

Lemma v4_digit fs val dig d s :
  0 <= d < 10 -> (dig =? 1) && (val =? 0) = false -> 0 <= val * 10 + d <= 255 ->
  v4_fields fs val dig (48 + d :: s) = v4_fields fs (val * 10 + d) (dig + 1) s.
Proof.
  intros Hd H0 Hv. cbn [v4_fields]. rewrite is_digit_48, H0 by done.
  replace (val * 10 + (48 + d - 48)) with (val * 10 + d) by lia. by rewrite (proj2 (Z.ltb_ge 255 _)) by lia.
Qed.

Lemma v4_octet fs b s :
  is_byte b -> exists k, 0 < k /\ v4_fields fs 0 0 (octet b ++ s) = v4_fields fs b k s.
Proof.
  unfold is_byte. intros Hb. unfold octet.
  assert (0 <= b mod 10 < 10) by (apply Z.mod_pos_bound; lia).
  assert (b = b / 10 * 10 + b mod 10) as E1 by (pose proof (Z.div_mod b 10); lia).
  destruct (Z.leb_spec 100 b) as [Hh|Hh].
  - assert (0 <= b / 10 mod 10 < 10) by (apply Z.mod_pos_bound; lia).
    assert (b / 10 = b / 10 / 10 * 10 + b / 10 mod 10) as E2 by (pose proof (Z.div_mod (b / 10) 10); lia).
    rewrite Z.div_div in E2 by lia. change (10 * 10) with 100 in E2.
    assert (1 <= b / 100 < 3) by (split; [apply Z.div_le_lower_bound|apply Z.div_lt_upper_bound]; lia).
    exists 3. split; [lia|]. cbn [app]. rewrite v4_digit by (try lia; done).
    rewrite v4_digit; [|lia|apply andb_false_iff; right; apply Z.eqb_neq; lia|lia].
    rewrite v4_digit by (try lia; done). f_equal; lia.
  - destruct (Z.leb_spec 10 b) as [Ht|Ht].
    + assert (1 <= b / 10 < 10) by (split; [apply Z.div_le_lower_bound|apply Z.div_lt_upper_bound]; lia).
      exists 2. split; [lia|]. cbn [app]. rewrite v4_digit by (try lia; done).
      rewrite v4_digit; [|lia|apply andb_false_iff; right; apply Z.eqb_neq; lia|lia]. f_equal; lia.
    + exists 1. split; [lia|]. cbn [app]. rewrite v4_digit by (try lia; done). f_equal; lia.
Qed.

Lemma octet_nonempty b : octet b <> [].
Proof. unfold octet. by repeat destruct (_ <=? _). Qed.

Lemma v4_octet_dot fs b s :
  is_byte b -> (length fs < 3)%nat -> s <> [] ->
  v4_fields fs 0 0 (octet b ++ 46 :: s) = v4_fields (fs ++ [b]) 0 0 s.
Proof.
  intros Hb Hl Hs. destruct (v4_octet fs b (46 :: s) Hb) as (k & Hk & ->). cbn [v4_fields].
  change (is_digit 46) with false. change (46 =? 46) with true. cbn iota.
  rewrite (proj2 (Z.eqb_neq k 0)) by lia. rewrite bool_decide_eq_false_2 by done.
  rewrite (proj2 (Nat.eqb_neq _ _)) by lia. done.
Qed.

Lemma parseIPv4_string4 a : length a = 4%nat -> bytes_ok a -> parseIPv4 (string4 a) = Some a.
Proof.
  intros Hl Hb. destruct a as [|a [|b [|c [|d [|]]]]]; try done.
  unfold bytes_ok in Hb. rewrite !Forall_cons in Hb. destruct Hb as (Ha & Hb & Hc & Hd & _).
  unfold string4, parseIPv4. cbn [map Join app].
  assert (forall x s, octet x ++ s <> []) as Hne by (intros x s E; apply app_eq_nil in E as [E _]; by apply octet_nonempty in E).
  rewrite !v4_octet_dot; try done; try apply Hne; try (cbn; lia); try apply octet_nonempty.
  destruct (v4_octet [a; b; c] d [] Hd) as (k & _ & Ek). rewrite app_nil_r in Ek. cbn [app]. by rewrite Ek.
Qed.

(** Hexadecimal groups. *)
Definition group_ok (g : Z) : Prop := 0 <= g < 65536.

Lemma hex_digit_nibble d : 0 <= d < 16 -> hex_digit (nibble d) = Some d.
Proof.
  intros Hd. unfold nibble. destruct (Z.ltb_spec d 10) as [H|H]; unfold hex_digit.
  - rewrite is_digit_48 by lia. f_equal. lia.
  - assert (is_digit (87 + d) = false) as ->
      by (unfold is_digit; apply andb_false_iff; right; apply Z.leb_gt; lia).
    rewrite (proj2 (Z.leb_le 97 _)), (proj2 (Z.leb_le _ 102)) by lia. cbn [andb]. f_equal. lia.
Qed.

Lemma hex_number_nibble off acc d s :
  0 <= d < 16 -> (off <= 3)%nat -> hex_number off acc (nibble d :: s) = hex_number (S off) (acc * 16 + d) s.
Proof. intros Hd Ho. cbn [hex_number]. rewrite hex_digit_nibble by done. by rewrite (proj2 (Nat.ltb_ge 3 off)) by lia. Qed.

Lemma hex_number_end off acc s : s = [] \/ head s = Some 58 -> hex_number off acc s = Some (acc, off, s).
Proof. destruct s as [|c s]; [done|]. intros [|[= ->]]; done. Qed.

Lemma hex_number_group g s :
  group_ok g -> s = [] \/ head s = Some 58 ->
  exists off, (0 < off)%nat /\ hex_number 0 0 (hex_group g ++ s) = Some (g, off, s).
Proof.
  unfold group_ok. intros Hg Hs. unfold hex_group.
  assert (forall x, 0 <= x mod 16 < 16) as Hm by (intros; apply Z.mod_pos_bound; lia).
  assert (forall x, x = x / 16 * 16 + x mod 16) as Hd by (intros x; pose proof (Z.div_mod x 16); lia).
  assert (g / 16 / 16 = g / 256) as E2 by (rewrite Z.div_div by lia; done).
  assert (g / 256 / 16 = g / 4096) as E3 by (rewrite Z.div_div by lia; done).
  pose proof (Hd g) as H1. pose proof (Hd (g / 16)) as H2. pose proof (Hd (g / 256)) as H3. rewrite E2 in H2. rewrite E3 in H3.
  pose proof (Hm g). pose proof (Hm (g / 16)). pose proof (Hm (g / 256)).
  assert (0 <= g / 4096 < 16) by (split; [apply Z.div_pos|apply Z.div_lt_upper_bound]; lia).
  destruct (Z.leb_spec 4096 g); [|destruct (Z.leb_spec 256 g); [|destruct (Z.leb_spec 16 g)]]; cbn [app].
  - exists 4%nat. split; [lia|]. rewrite !hex_number_nibble by (done || lia). rewrite hex_number_end by done. do 3 f_equal. lia.
  - assert (0 <= g / 256 < 16) by (split; [apply Z.div_pos|apply Z.div_lt_upper_bound]; lia).
    exists 3%nat. split; [lia|]. rewrite !hex_number_nibble by (done || lia). rewrite hex_number_end by done. do 3 f_equal. lia.
  - assert (0 <= g / 16 < 16) by (split; [apply Z.div_pos|apply Z.div_lt_upper_bound]; lia).
    exists 2%nat. split; [lia|]. rewrite !hex_number_nibble by (done || lia). rewrite hex_number_end by done. do 3 f_equal. lia.
  - exists 1%nat. split; [lia|]. rewrite hex_number_nibble by lia. rewrite hex_number_end by done. do 3 f_equal.
Qed.

Definition group_bytes (gs : list Z) : bytes := gs ≫= fun g => [Z.shiftr g 8; Z.land g 255].

Lemma length_group_bytes gs : length (group_bytes gs) = (2 * length gs)%nat.
Proof. unfold group_bytes. induction gs as [|g gs IH]; csimpl; [done|]. lia. Qed.

Lemma group_bytes_app gs gs' : group_bytes (gs ++ gs') = group_bytes gs ++ group_bytes gs'.
Proof. apply bind_app. Qed.

Lemma group_bytes_zeros n : group_bytes (replicate n 0) = replicate (2 * n) 0.
Proof.
  induction n as [|n IH]; [done|]. change (group_bytes (replicate (S n) 0)) with (0 :: 0 :: group_bytes (replicate n 0)).
  rewrite IH. replace (2 * S n)%nat with (S (S (2 * n))) by lia. done.
Qed.

Lemma groups_bytes n b :
  length b = (2 * n)%nat -> bytes_ok b ->
  group_bytes (groups b) = b /\ length (groups b) = n /\ Forall group_ok (groups b).
Proof.
  revert b. induction n as [|n IH]; intros b Hl Hb; [by destruct b|].
  destruct b as [|h [|l b]]; cbn [length] in Hl; try lia. unfold bytes_ok in Hb. rewrite !Forall_cons in Hb.
  destruct Hb as (Hh & Hlo & Hb). destruct (IH b ltac:(lia) Hb) as (E & El & Eg).
  change (groups (h :: l :: b)) with (h * 256 + l :: groups b). unfold is_byte in *.
  split; [|split; [cbn; lia|constructor; [unfold group_ok; lia|done]]].
  unfold group_bytes in *. csimpl. rewrite E.
  rewrite Z.shiftr_div_pow2 by lia. change (2 ^ 8) with 256.
  change 255 with (2 ^ 8 - 1). rewrite land_ones_mod by lia. change (2 ^ 8) with 256.
  rewrite Z.div_add_l, Z.div_small, Z.add_0_r by lia. rewrite Z.add_comm, Z.mod_add, Z.mod_small by lia. done.
Qed.

Lemma hex_group_nonempty g : hex_group g <> [].
Proof. unfold hex_group. by repeat destruct (_ <=? _). Qed.

Lemma nibble_not_colon d : 0 <= d < 16 -> nibble d <> 58.
Proof. unfold nibble. destruct (Z.ltb_spec d 10); lia. Qed.

Lemma hex_group_head g : group_ok g -> exists c s, hex_group g = c :: s /\ c <> 58.
Proof.
  unfold group_ok, hex_group. intros Hg.
  destruct (Z.leb_spec 4096 g); [|destruct (Z.leb_spec 256 g); [|destruct (Z.leb_spec 16 g)]];
    eexists _, _; (split; [reflexivity|]); apply nibble_not_colon; try lia;
    (split; [apply Z.div_pos|apply Z.div_lt_upper_bound]; lia).
Qed.

Definition hex_join (gs : list Z) : bytes := Join [58] (map hex_group gs).

Lemma hex_join_cons g g' gs : hex_join (g :: g' :: gs) = hex_group g ++ 58 :: hex_join (g' :: gs).
Proof. done. Qed.

Lemma hex_join_head gs : gs <> [] -> Forall group_ok gs -> exists c s, hex_join gs = c :: s /\ c <> 58.
Proof.
  destruct gs as [|g gs]; [done|]. intros _ [Hg _]%Forall_cons.
  destruct (hex_group_head g Hg) as (c & s & E & Hc). destruct gs as [|g' gs].
  - exists c, s. by rewrite <- E.
  - exists c, (s ++ 58 :: hex_join (g' :: gs)). by rewrite hex_join_cons, E.
Qed.

(** One group followed by the end, or by a colon and more. *)
Lemma v6_groups_last fuel ip ell g :
  group_ok g -> v6_groups (S fuel) ip ell (hex_group g) = Some (ip ++ [Z.shiftr g 8; Z.land g 255], ell, []).
Proof.
  intros Hg. destruct (hex_number_group g [] Hg) as (off & Ho & E); [by left|]. rewrite app_nil_r in E.
  cbn [v6_groups]. rewrite E, (proj2 (Nat.eqb_neq off 0)) by lia. done.
Qed.

Lemma v6_groups_colon fuel ip ell g d s :
  group_ok g -> d <> 58 ->
  v6_groups (S fuel) ip ell (hex_group g ++ 58 :: d :: s) =
  v6_groups fuel (ip ++ [Z.shiftr g 8; Z.land g 255]) ell (d :: s).
Proof.
  intros Hg Hd. destruct (hex_number_group g (58 :: d :: s) Hg) as (off & Ho & E); [by right|].
  cbn [v6_groups]. rewrite E, (proj2 (Nat.eqb_neq off 0)) by lia. cbn [head].
  rewrite bool_decide_eq_false_2 by done. change (58 =? 58) with true. cbn [negb].
  by rewrite (proj2 (Z.eqb_neq d 58)) by done.
Qed.

Lemma v6_groups_ellipsis fuel ip g s :
  group_ok g ->
  v6_groups (S fuel) ip None (hex_group g ++ 58 :: 58 :: s) =
  let ip := ip ++ [Z.shiftr g 8; Z.land g 255] in
  if bool_decide (s = []) then Some (ip, Some (length ip), []) else v6_groups fuel ip (Some (length ip)) s.
Proof.
  intros Hg. destruct (hex_number_group g (58 :: 58 :: s) Hg) as (off & Ho & E); [by right|].
  cbn [v6_groups]. rewrite E, (proj2 (Nat.eqb_neq off 0)) by lia. cbn [head].
  by rewrite bool_decide_eq_false_2.
Qed.

Lemma v6_groups_tail gs fuel ip ell :
  gs <> [] -> Forall group_ok gs -> (length gs <= fuel)%nat ->
  v6_groups fuel ip ell (hex_join gs) = Some (ip ++ group_bytes gs, ell, []).
Proof.
  intros Hne Hgs. revert fuel ip Hne. induction Hgs as [|g gs Hg Hgs IH]; intros fuel ip Hne Hf; [done|].
  cbn [length] in Hf. destruct fuel as [|fuel]; [lia|]. destruct gs as [|g' gs].
  - change (hex_join [g]) with (hex_group g). by rewrite v6_groups_last.
  - rewrite hex_join_cons. destruct (hex_join_head (g' :: gs)) as (c & s & E & Hc); [done|done|].
    rewrite E, v6_groups_colon by done. rewrite <- E, IH by (done || cbn [length] in *; lia).
    by rewrite <- app_assoc.
Qed.

Lemma v6_groups_head gs fuel ip s :
  gs <> [] -> Forall group_ok gs -> (length gs <= fuel)%nat ->
  v6_groups fuel ip None (hex_join gs ++ 58 :: 58 :: s) =
  let ip := ip ++ group_bytes gs in
  if bool_decide (s = []) then Some (ip, Some (length ip), []) else v6_groups (fuel - length gs) ip (Some (length ip)) s.
Proof.
  intros Hne Hgs. revert fuel ip Hne. induction Hgs as [|g gs Hg Hgs IH]; intros fuel ip Hne Hf; [done|].
  cbn [length] in Hf. destruct fuel as [|fuel]; [lia|]. destruct gs as [|g' gs].
  - change (hex_join [g]) with (hex_group g). rewrite v6_groups_ellipsis by done.
    cbn [length]. by rewrite Nat.sub_1_r.
  - rewrite hex_join_cons, <- app_assoc. destruct (hex_join_head (g' :: gs)) as (c & t & E & Hc); [done|done|].
    cbn [app]. rewrite E. cbn [app]. rewrite v6_groups_colon by done.
    change (c :: t ++ 58 :: 58 :: s) with ((c :: t) ++ 58 :: 58 :: s). rewrite <- E.
    rewrite IH by (done || cbn [length] in *; lia). cbn zeta. rewrite <- !app_assoc. done.
Qed.

(** The run of zero groups that is left out. *)
Lemma zeros_spec gs : (zeros gs <= length gs)%nat /\ take (zeros gs) gs = replicate (zeros gs) 0.
Proof.
  induction gs as [|g gs [IH1 IH2]]; [done|]. cbn [zeros]. destruct (Z.eqb_spec g 0) as [->|]; [|cbn; split; [lia|done]].
  cbn. split; [lia|]. by f_equal.
Qed.

Lemma zero_run_spec gs all i best :
  drop i all = gs ->
  snd best = 0%nat \/ (fst best + snd best <= length all)%nat /\ take (snd best) (drop (fst best) all) = replicate (snd best) 0 /\ (2 <= snd best)%nat ->
  let '(z, n) := zero_run i best gs in
  n = 0%nat \/ (z + n <= length all)%nat /\ take n (drop z all) = replicate n 0 /\ (2 <= n)%nat.
Proof.
  revert i best. induction gs as [|g gs IH]; intros i best Hi Hb; [by destruct best|]. cbn [zero_run].
  apply IH; [replace (S i) with (i + 1)%nat by lia; by rewrite <- drop_drop, Hi|].
  destruct ((snd best <? zeros (g :: gs)) && (2 <=? zeros (g :: gs)))%nat eqn:E; [|done]. cbn [fst snd].
  apply andb_true_iff in E as [_ E%Nat.leb_le]. right. destruct (zeros_spec (g :: gs)) as [Hz1 Hz2].
  rewrite Hi. split; [|done]. pose proof (f_equal length Hi) as Hl. rewrite length_drop in Hl. lia.
Qed.

(** Characters of a printed IPv6 address. *)
Definition v6_char (c : Z) : Prop := 48 <= c <= 58 \/ 97 <= c <= 102.

Lemma nibble_char d : 0 <= d < 16 -> v6_char (nibble d).
Proof. unfold nibble, v6_char. destruct (Z.ltb_spec d 10); lia. Qed.

Lemma hex_group_chars g : group_ok g -> Forall v6_char (hex_group g).
Proof.
  unfold group_ok, hex_group. intros Hg. assert (forall x, 0 <= x mod 16 < 16) by (intros; apply Z.mod_pos_bound; lia).
  destruct (Z.leb_spec 4096 g); [|destruct (Z.leb_spec 256 g); [|destruct (Z.leb_spec 16 g)]];
    rewrite !Forall_cons, Forall_nil; split_and?; try done; apply nibble_char; try done; try lia;
    (split; [apply Z.div_pos|apply Z.div_lt_upper_bound]; lia).
Qed.

Lemma hex_join_chars gs : Forall group_ok gs -> Forall v6_char (hex_join gs).
Proof.
  induction 1 as [|g gs Hg Hgs IH]; [constructor|]. destruct gs as [|g' gs].
  - by apply hex_group_chars.
  - rewrite hex_join_cons. apply Forall_app. split; [by apply hex_group_chars|].
    constructor; [unfold v6_char; lia|done].
Qed.

Lemma addr_kind_v6 s : Forall v6_char s -> 58 ∈ s -> addr_kind s = Some 58.
Proof.
  induction 1 as [|c s Hc Hs IH]; intros Hin; [by inversion Hin|]. cbn [addr_kind].
  destruct (Z.eqb_spec c 58) as [->|Hne].
  - done.
  - unfold v6_char in Hc. rewrite (proj2 (Z.eqb_neq c 46)), (proj2 (Z.eqb_neq c 37)) by lia. cbn [orb].
    apply IH. apply elem_of_cons in Hin as [E|]; [congruence|done].
Qed.

Lemma IndexByte_none c s : Forall v6_char s -> ~ v6_char c -> IndexByte c s = None.
Proof.
  induction 1 as [|x s Hx Hs IH]; intros Hc; [done|]. cbn [IndexByte].
  rewrite (proj2 (Z.eqb_neq x c)) by congruence. by rewrite IH.
Qed.

Lemma addr_kind_v4 a : length a = 4%nat -> bytes_ok a -> addr_kind (string4 a) = Some 46.
Proof.
  intros Hl Hb. destruct a as [|a [|b a']]; try done. unfold bytes_ok in Hb. rewrite !Forall_cons in Hb.
  destruct Hb as (Ha & _). assert (exists s, string4 (a :: b :: a') = octet a ++ 46 :: s) as [s ->].
  { unfold string4. cbn [map Join]. destruct a'; by eexists. }
  assert (forall d s, 0 <= d < 10 -> addr_kind (48 + d :: s) = addr_kind s) as Hd.
  { intros d s' Hd. cbn [addr_kind]. rewrite !(proj2 (Z.eqb_neq (48 + d) _)) by lia. done. }
  unfold is_byte in Ha. assert (forall x, 0 <= x mod 10 < 10) as Hm by (intros; apply Z.mod_pos_bound; lia).
  unfold octet. destruct (Z.leb_spec 100 a); [|destruct (Z.leb_spec 10 a)]; cbn [app];
    rewrite !Hd; try apply Hm; try lia; try done;
    (split; [apply Z.div_pos|apply Z.div_lt_upper_bound]; lia).
Qed.

Lemma group_bytes_split z n gs :
  (z + n <= length gs)%nat -> take n (drop z gs) = replicate n 0 ->
  group_bytes gs = group_bytes (take z gs) ++ replicate (2 * n) 0 ++ group_bytes (drop (z + n) gs).
Proof.
  intros Hl Ht. rewrite <- group_bytes_zeros, <- Ht, <- drop_drop, <- !group_bytes_app.
  by rewrite !take_drop.
Qed.

Lemma v6_address_string6 a : length a = 16%nat -> bytes_ok a -> v6_address (string6 a) = Some a.
Proof.
  intros Hl Hb. destruct (groups_bytes 8 a Hl Hb) as (Ea & El & Hg). unfold string6.
  pose proof (zero_run_spec (groups a) (groups a) 0 (0%nat, 0%nat) eq_refl ltac:(by left)) as Hz.
  destruct (zero_run 0 (0%nat, 0%nat) (groups a)) as [z n]. fold hex_join.
  set (gs := groups a) in *. clearbody gs.
  destruct (Nat.eqb_spec n 0) as [->|Hn].
  - fold (hex_join gs). unfold v6_address. destruct (hex_join_head gs) as (c & s & E & Hc); [by destruct gs|done|].
    rewrite bool_decide_eq_false_2 by (rewrite E; destruct s; cbn; congruence).
    rewrite v6_groups_tail by (done || lia || by destruct gs). cbn [app]. rewrite Ea. cbn. by rewrite Hl.
  - destruct Hz as [|(Hzn & Ht & Hn2)]; [done|]. fold (hex_join (take z gs)) (hex_join (drop (z + n) gs)).
    pose proof (group_bytes_split z n gs Hzn Ht) as Es. rewrite Ea in Es.
    set (hd := take z gs) in *. set (tl := drop (z + n) gs) in *.
    assert (Forall group_ok hd) as Hhd by by apply Forall_take.
    assert (Forall group_ok tl) as Htl by by apply Forall_drop.
    assert (length hd = z) as Lhd by (unfold hd; rewrite length_take; lia).
    assert (length tl = (8 - z - n)%nat) as Ltl by (unfold tl; rewrite length_drop; lia).
    pose proof (length_group_bytes hd) as Ghd. pose proof (length_group_bytes tl) as Gtl.
    (* what expansion makes of the two parts *)
    assert (v6_expand (group_bytes hd ++ group_bytes tl, Some (2 * z)%nat, []) = Some a) as Hexp.
    { unfold v6_expand. rewrite length_app, Ghd, Gtl, Lhd, Ltl. rewrite (proj2 (Nat.ltb_lt _ _)) by lia.
      rewrite Es, take_app_length', drop_app_length' by lia. do 3 f_equal. f_equal. lia. }
    assert (hex_join tl = [] <-> tl = []) as Htn.
    { split; [|by intros ->]. destruct tl as [|g tl']; [done|].
      destruct (hex_join_head (g :: tl')) as (c & s & E & _); [done|done|]. by rewrite E. }
    unfold v6_address. destruct (decide (hd = [])) as [Eh|Eh].
    + assert (z = 0%nat) as -> by (rewrite <- Lhd, Eh; done).
      rewrite Eh. change (hex_join []) with (@nil Z). cbn [app]. rewrite bool_decide_eq_true_2 by done. cbn [drop].
      rewrite Eh in Hexp. cbn [group_bytes mbind list_bind app] in Hexp.
      destruct (decide (tl = [])) as [Et|Et].
      * rewrite bool_decide_eq_true_2 by (by apply Htn). rewrite Et in Hexp. exact Hexp.
      * rewrite bool_decide_eq_false_2 by (by rewrite Htn).
        rewrite drop_0, v6_groups_tail by (done || lia). cbn [mbind option_bind app]. exact Hexp.
    + destruct (hex_join_head hd) as (c & s & E & Hc); [done|done|].
      rewrite bool_decide_eq_false_2 by (rewrite E; destruct s; cbn; congruence).
      change ([58; 58] ++ hex_join tl) with (58 :: 58 :: hex_join tl). rewrite v6_groups_head by (done || lia). cbn [app]. cbn zeta. rewrite Ghd, Lhd.
      destruct (decide (tl = [])) as [Et|Et].
      * rewrite bool_decide_eq_true_2 by (by apply Htn). cbn [mbind option_bind].
        rewrite Et in Hexp. cbn [group_bytes mbind list_bind] in Hexp. rewrite app_nil_r in Hexp. exact Hexp.
      * rewrite bool_decide_eq_false_2 by (by rewrite Htn).
        rewrite v6_groups_tail by (done || lia). cbn [mbind option_bind]. exact Hexp.
Qed.

Lemma string6_chars a : length a = 16%nat -> bytes_ok a -> Forall v6_char (string6 a) /\ 58 ∈ string6 a.
Proof.
  intros Hl Hb. destruct (groups_bytes 8 a Hl Hb) as (Ea & El & Hg). unfold string6.
  destruct (zero_run 0 (0%nat, 0%nat) (groups a)) as [z n]. set (gs := groups a) in *. clearbody gs.
  destruct (n =? 0)%nat.
  - fold (hex_join gs). split; [by apply hex_join_chars|]. destruct gs as [|g [|g' gs]]; try done.
    rewrite hex_join_cons. set_solver.
  - fold (hex_join (take z gs)) (hex_join (drop (z + n) gs)). split; [|set_solver].
    repeat (apply Forall_app; split); try (by apply hex_join_chars; (apply Forall_take || apply Forall_drop)).
    rewrite !Forall_cons, Forall_nil. unfold v6_char. lia.
Qed.

(** Printing and parsing again gives the same address. *)
Lemma ParseIP_String ip : length ip = 16%nat -> bytes_ok ip -> ParseIP (String_ ip) = Some ip.
Proof.
  intros Hl Hb. unfold String_, To4. rewrite Hl. cbn [Nat.eqb andb].
  destruct (decide (take 12 ip = v4_prefix)) as [E|E].
  - rewrite bool_decide_eq_true_2 by done.
    assert (length (drop 12 ip) = 4%nat) as L4 by (rewrite length_drop; lia).
    assert (bytes_ok (drop 12 ip)) as B4 by by apply bytes_ok_drop.
    unfold ParseIP, ParseAddr. rewrite addr_kind_v4, parseIPv4_string4 by done. cbn.
    unfold to16. rewrite L4. cbn [Nat.eqb]. rewrite <- E. by rewrite take_drop.
  - rewrite bool_decide_eq_false_2 by done. destruct (string6_chars ip Hl Hb) as [Hc H58].
    unfold ParseIP, ParseAddr, parseIPv6. rewrite addr_kind_v6 by done. cbn [Z.eqb Pos.eqb].
    rewrite IndexByte_none by (done || (unfold v6_char; lia)). rewrite v6_address_string6 by done. cbn.
    unfold to16. by rewrite Hl.
Qed.

(** ** Parsed addresses *)

Lemma v4_fields_ok s fields val dig a :
  v4_fields fields val dig s = Some a -> bytes_ok fields -> is_byte val -> length a = 4%nat /\ bytes_ok a.
Proof.
  revert fields val dig. induction s as [|c s IH]; intros fields val dig E Hf Hv; cbn [v4_fields] in E.
  - destruct (length fields =? 3)%nat eqn:El; [|done]. apply Nat.eqb_eq in El. injection E as <-.
    rewrite length_app, El. split; [done|]. apply bytes_ok_app. split; [done|by constructor].
  - destruct (is_digit c) eqn:Ed.
    + destruct (_ && _); [done|]. destruct (255 <? _) eqn:E255; [done|]. eapply IH; [exact E|done|].
      unfold is_digit in Ed. breflect. unfold is_byte in *. lia.
    + destruct (c =? 46); [|done]. destruct (_ || _ || _); [done|]. eapply IH; [exact E| |unfold is_byte; lia].
      apply bytes_ok_app. split; [done|by constructor].
Qed.

Lemma hex_digit_range c d : hex_digit c = Some d -> 0 <= d < 16.
Proof.
  unfold hex_digit. destruct (is_digit c) eqn:E; [unfold is_digit in E; intros [= <-]; breflect; lia|].
  destruct (_ && _) eqn:E1; [intros [= <-]; breflect; lia|].
  destruct ((65 <=? c) && _) eqn:E2; [intros [= <-]; breflect; lia|done].
Qed.

Lemma hex_number_range s off acc a o r :
  hex_number off acc s = Some (a, o, r) -> 0 <= acc < 16 ^ Z.of_nat off -> (off <= 4)%nat -> 0 <= a < 65536.
Proof.
  revert off acc. induction s as [|c s IH]; intros off acc E Ha Ho; cbn [hex_number] in E.
  - injection E as <- _ _. assert (16 ^ Z.of_nat off <= 16 ^ 4) by (apply Z.pow_le_mono_r; lia). lia.
  - destruct (hex_digit c) as [d|] eqn:Ed.
    + destruct (3 <? off)%nat eqn:E3; [done|]. apply Nat.ltb_ge in E3. apply hex_digit_range in Ed.
      eapply IH; [exact E| |lia]. rewrite Nat2Z.inj_succ, Z.pow_succ_r by lia. lia.
    + injection E as <- _ _. assert (16 ^ Z.of_nat off <= 16 ^ 4) by (apply Z.pow_le_mono_r; lia). lia.
Qed.

Lemma v6_groups_ok fuel ip ell s ip' ell' r :
  v6_groups fuel ip ell s = Some (ip', ell', r) -> bytes_ok ip -> (length ip + 2 * fuel <= 16)%nat ->
  (forall e, ell = Some e -> (e <= length ip)%nat) ->
  bytes_ok ip' /\ (length ip' <= 16)%nat /\ (forall e, ell' = Some e -> (e <= length ip')%nat).
Proof.
  revert ip ell s. induction fuel as [|fuel IH]; intros ip ell s E Hb Hl He; cbn [v6_groups] in E.
  { injection E as <- <- _. split; [done|]. split; [lia|done]. }
  destruct (hex_number 0 0 s) as [[[acc off] rest]|] eqn:Eh; [|done].
  destruct (off =? 0)%nat; [done|]. apply hex_number_range in Eh; [|cbn; lia|lia].
  destruct (bool_decide (head rest = Some 46)).
  { destruct (match ell with None => _ | Some _ => _ end); [done|]. destruct (16 <? length ip + 4)%nat eqn:E16; [done|].
    apply Nat.ltb_ge in E16. destruct (parseIPv4 s) as [b|] eqn:E4; [|done]. injection E as <- <- _.
    apply v4_fields_ok in E4 as [L4 B4]; [|constructor|unfold is_byte; lia].
    rewrite length_app, L4. split; [by apply bytes_ok_app|]. split; [lia|]. intros e Hee. specialize (He e Hee). lia. }
  assert (bytes_ok (ip ++ [Z.shiftr acc 8; Z.land acc 255])) as Hb'.
  { apply bytes_ok_app. split; [done|]. rewrite Z.shiftr_div_pow2 by lia. change 255 with (2 ^ 8 - 1).
    rewrite land_ones_mod by lia. change (2 ^ 8) with 256. pose proof (Z.mod_pos_bound acc 256 eq_refl).
    repeat apply Forall_cons_2; [|done|constructor]. unfold is_byte.
    split; [apply Z.div_pos|apply Z.div_lt_upper_bound]; lia. }
  assert (length (ip ++ [Z.shiftr acc 8; Z.land acc 255]) = (2 + length ip)%nat) as Hl' by (rewrite length_app; cbn; lia).
  set (ip2 := ip ++ _) in *. clearbody ip2.
  destruct rest as [|c [|d s']]; [|done|].
  - injection E as <- <- _. split; [done|]. split; [lia|]. intros e Hee. specialize (He e Hee). lia.
  - destruct (negb (c =? 58)); [done|]. destruct (d =? 58).
    + destruct ell as [e|]; [done|]. destruct (bool_decide (s' = [])).
      * injection E as <- <- _. split; [done|]. split; [lia|]. intros e [= <-]. lia.
      * eapply IH; [exact E|done|lia|]. intros e [= <-]. lia.
    + eapply IH; [exact E|done|lia|]. intros e Hee. specialize (He e Hee). lia.
Qed.

Lemma v6_expand_ok ip ell r a :
  v6_expand (ip, ell, r) = Some a -> bytes_ok ip -> (length ip <= 16)%nat ->
  (forall e, ell = Some e -> (e <= length ip)%nat) -> length a = 16%nat /\ bytes_ok a.
Proof.
  unfold v6_expand. destruct r; [|done]. intros E Hb Hl He. destruct ell as [e|].
  - destruct (length ip <? 16)%nat eqn:E16; [|done]. injection E as <-. specialize (He e eq_refl).
    rewrite !length_app, length_take, length_replicate, length_drop. split; [lia|].
    repeat (apply bytes_ok_app; split); auto with shark. apply Forall_replicate. unfold is_byte. lia.
  - destruct (length ip <? 16)%nat eqn:E16; [done|]. apply Nat.ltb_ge in E16. injection E as <-. split; [lia|done].
Qed.

Lemma v6_address_ok s a : v6_address s = Some a -> length a = 16%nat /\ bytes_ok a.
Proof.
  unfold v6_address. intros E. destruct (bool_decide (take 2 s = _)).
  - destruct (bool_decide _).
    + injection E as <-. split; [done|]. apply (bool_decide_unpack _). by vm_compute.
    + apply bind_Some in E as ([[ip ell] r] & E1 & E2).
      apply v6_groups_ok in E1 as (H1 & H2 & H3); [by eapply v6_expand_ok|constructor|cbn; lia|].
      intros e [= <-]. cbn. lia.
  - apply bind_Some in E as ([[ip ell] r] & E1 & E2).
    apply v6_groups_ok in E1 as (H1 & H2 & H3); [by eapply v6_expand_ok|constructor|cbn; lia|done].
Qed.

Lemma ParseAddr_ok s a z : ParseAddr s = Some (a, z) -> (length a = 4%nat \/ length a = 16%nat) /\ bytes_ok a.
Proof.
  unfold ParseAddr. destruct (addr_kind s) as [c|]; [|done]. destruct (c =? 46).
  - intros (b & E & [= -> _])%fmap_Some. apply v4_fields_ok in E as [? ?]; [auto|constructor|unfold is_byte; lia].
  - destruct (c =? 58); [|done]. unfold parseIPv6. destruct (IndexByte 37 s).
    + destruct (bool_decide _); [done|]. intros (b & E & [= -> _])%fmap_Some. apply v6_address_ok in E. tauto.
    + intros (b & E & [= -> _])%fmap_Some. apply v6_address_ok in E. tauto.
Qed.

Lemma ParseIP_ok s ip : ParseIP s = Some ip -> length ip = 16%nat /\ bytes_ok ip.
Proof.
  unfold ParseIP. destruct (ParseAddr s) as [[a [|]]|] eqn:E; [|done|done]. intros [= <-].
  apply ParseAddr_ok in E as [[L|L] B]; unfold to16; rewrite L; cbn [Nat.eqb]; [|done].
  rewrite length_app, L. split; [done|]. apply bytes_ok_app. split; [|done].
  apply (bool_decide_unpack _). by vm_compute.
Qed.

(** Two texts are printed alike only if they are one address. *)
Lemma String_inj ip ip' :
  length ip = 16%nat -> bytes_ok ip -> length ip' = 16%nat -> bytes_ok ip' -> String_ ip = String_ ip' -> ip = ip'.
Proof.
  intros L B L' B' E. pose proof (ParseIP_String ip L B) as H. rewrite E, ParseIP_String in H by done. by injection H.
Qed.

(** ** Zones *)

Lemma v4_fields_percent s fields val dig : 37 ∈ s -> v4_fields fields val dig s = None.
Proof.
  revert fields val dig. induction s as [|c s IH]; intros fields val dig Hin; [by inversion Hin|]. cbn [v4_fields].
  apply elem_of_cons in Hin as [<-|Hin]; [done|]. destruct (is_digit c).
  - destruct (_ && _); [done|]. destruct (255 <? _); [done|by apply IH].
  - destruct (c =? 46); [|done]. destruct (_ || _ || _); [done|by apply IH].
Qed.

Lemma IndexByte_elem c s : c ∈ s -> is_Some (IndexByte c s).
Proof.
  induction s as [|x s IH]; intros Hin; [by inversion Hin|]. cbn [IndexByte]. destruct (Z.eqb_spec x c); [by eexists|].
  apply elem_of_cons in Hin as [->|Hin]; [done|]. destruct (IH Hin) as [i ->]. by eexists.
Qed.

(** [ParseIP] takes no address with a zone. *)
Lemma ParseIP_percent s : 37 ∈ s -> ParseIP s = None.
Proof.
  intros Hin. unfold ParseIP, ParseAddr. destruct (addr_kind s) as [c|]; [|done]. destruct (c =? 46).
  - unfold parseIPv4. by rewrite v4_fields_percent.
  - destruct (c =? 58); [|done]. unfold parseIPv6. destruct (IndexByte_elem 37 s Hin) as [i ->].
    case_bool_decide as E; [done|]. destruct (v6_address _); [|done]. cbn. by destruct (drop (S i) s).
Qed.

Lemma octet_no_percent b : 37 ∉ octet b \/ ~ is_byte b.
Proof.
  destruct (decide (is_byte b)) as [Hb|]; [left|by right]. unfold is_byte in Hb.
  assert (forall x, 0 <= x mod 10 < 10) as Hm by (intros; apply Z.mod_pos_bound; lia).
  pose proof (Hm b). pose proof (Hm (b / 10)). assert (0 <= b / 10) by (apply Z.div_pos; lia).
  assert (0 <= b / 100) by (apply Z.div_pos; lia).
  unfold octet. destruct (100 <=? b); [|destruct (10 <=? b)]; rewrite !elem_of_cons, elem_of_nil; lia.
Qed.

Lemma Join_no_percent a : bytes_ok a -> 37 ∉ string4 a.
Proof.
  unfold string4. induction 1 as [|b a Hb Ha IH]; [apply not_elem_of_nil|].
  destruct (octet_no_percent b) as [Ho|]; [|done]. destruct a as [|b' a]; [done|].
  change (Join [46] (map octet (b :: b' :: a))) with (octet b ++ 46 :: Join [46] (map octet (b' :: a))).
  rewrite elem_of_app, elem_of_cons. intros [|[|]]; [done|done|]. by apply IH.
Qed.

Lemma String_no_percent ip : length ip = 16%nat -> bytes_ok ip -> 37 ∉ String_ ip.
Proof.
  intros L B. unfold String_. destruct (To4 ip) as [b|] eqn:E.
  - apply Join_no_percent. unfold To4 in E. destruct (_ =? 4)%nat; [by injection E as <-|].
    destruct (_ && _); [|done]. injection E as <-. by apply bytes_ok_drop.
  - intros Hin. destruct (string6_chars ip L B) as [Hc _]. rewrite Forall_forall in Hc.
    apply Hc in Hin. unfold v6_char in Hin. lia.
Qed.

(** ** The IPv4-mapped form *)

Lemma hex_number_octet b s :
  is_byte b -> exists acc off, (0 < off)%nat /\ hex_number 0 0 (octet b ++ 46 :: s) = Some (acc, off, 46 :: s).
Proof.
  unfold is_byte. intros Hb. assert (forall x, 0 <= x mod 10 < 10) as Hm by (intros; apply Z.mod_pos_bound; lia).
  assert (forall off acc d t, 0 <= d < 10 -> (off <= 3)%nat ->
    hex_number off acc (48 + d :: t) = hex_number (S off) (acc * 16 + d) t) as Hd.
  { intros off acc d t Hd Ho. cbn [hex_number]. unfold hex_digit. rewrite is_digit_48 by done.
    rewrite (proj2 (Nat.ltb_ge 3 off)) by lia. do 2 f_equal. lia. }
  assert (forall off acc, hex_number off acc (46 :: s) = Some (acc, off, 46 :: s)) as He by done.
  unfold octet. destruct (Z.leb_spec 100 b); [|destruct (Z.leb_spec 10 b)]; cbn [app].
  - eexists _, 3%nat. split; [lia|]. rewrite !Hd, He; [done|apply Hm|lia|apply Hm|lia| |lia].
    split; [apply Z.div_pos|apply Z.div_lt_upper_bound]; lia.
  - eexists _, 2%nat. split; [lia|]. rewrite !Hd, He; [done|apply Hm|lia| |lia].
    split; [apply Z.div_pos|apply Z.div_lt_upper_bound]; lia.
  - eexists _, 1%nat. split; [lia|]. rewrite Hd, He; [done|lia|lia].
Qed.

Definition mapped_text (b : bytes) : bytes := bytes_of_string "::ffff:" ++ string4 b.

(** The dotted text and the mapped text of an IPv4 address are one address. *)
Lemma ParseIP_mapped b :
  length b = 4%nat -> bytes_ok b ->
  ParseIP (string4 b) = Some (v4_prefix ++ b) /\ ParseIP (mapped_text b) = Some (v4_prefix ++ b).
Proof.
  intros L B. split.
  - unfold ParseIP, ParseAddr. rewrite addr_kind_v4, parseIPv4_string4 by done. cbn. unfold to16. by rewrite L.
  - unfold mapped_text. change (bytes_of_string "::ffff:") with [58; 58; 102; 102; 102; 102; 58].
    unfold ParseIP, ParseAddr. change (addr_kind _) with (Some 58). cbn [Z.eqb Pos.eqb]. unfold parseIPv6.
    assert (IndexByte 37 ([58; 58; 102; 102; 102; 102; 58] ++ string4 b) = None) as ->.
    { assert (37 ∉ [58; 58; 102; 102; 102; 102; 58] ++ string4 b) as Hn.
      { rewrite elem_of_app, !elem_of_cons, elem_of_nil. pose proof (Join_no_percent b B). intros [|]; [lia|done]. }
      revert Hn. generalize ([58; 58; 102; 102; 102; 102; 58] ++ string4 b). clear. intros l.
      induction l as [|x l IH]; intros Hn; [done|]. rewrite elem_of_cons in Hn. cbn [IndexByte].
      rewrite (proj2 (Z.eqb_neq x 37)) by (intros ->; apply Hn; by left). by rewrite IH by tauto. }
    assert (v6_address ([58; 58; 102; 102; 102; 102; 58] ++ string4 b) = Some (v4_prefix ++ b)) as ->.
    2: { cbn [fmap option_fmap option_map]. unfold to16. rewrite length_app, L. done. }
    destruct b as [|b0 [|b1 [|b2 [|b3 [|]]]]]; try done. pose proof B as B'. unfold bytes_ok in B'.
    rewrite !Forall_cons in B'. destruct B' as (H0 & _).
    unfold v6_address. cbn [app take]. rewrite bool_decide_eq_true_2 by done. cbn [drop].
    rewrite bool_decide_eq_false_2 by done.
    assert (exists t, string4 [b0; b1; b2; b3] = octet b0 ++ 46 :: t) as [t Et] by by eexists.
    destruct (hex_number_octet b0 t H0) as (acc & off & Ho & Eh). rewrite <- Et in Eh.
    pose proof (parseIPv4_string4 [b0; b1; b2; b3] L B) as E4.
    assert (exists c u, string4 [b0; b1; b2; b3] = c :: u /\ c <> 58) as (c & u & Ec & Hc).
    { destruct (string4 [b0; b1; b2; b3]) as [|c u] eqn:E; [done|]. exists c, u. split; [done|].
      intros ->. unfold parseIPv4 in E4. done. }
    change (102 :: 102 :: 102 :: 102 :: 58 :: string4 [b0; b1; b2; b3]) with
      (hex_group 65535 ++ 58 :: string4 [b0; b1; b2; b3]).
    rewrite Ec. rewrite v6_groups_colon by (done || (unfold group_ok; lia)). rewrite <- Ec.
    cbn [v6_groups]. rewrite Eh. rewrite (proj2 (Nat.eqb_neq off 0)) by lia. cbn [head].
    rewrite bool_decide_eq_true_2 by done. cbn [length app Nat.ltb Nat.leb Nat.add]. rewrite E4. done.
Qed.
