(* ===== verification/Blacklist.v ===== *)
(** * Blacklist: [internal/plugin/blacklist.go]

    The block list plugin: a set of exact addresses and a list of networks,
    swapped as one, tested when a session is accepted.  What is blocked is
    exactly what the entries say, whichever form of an address an entry or a
    socket uses; a peer address with a zone is never blocked. *)
From S2P Require Import Prelude Bytes Core NetIP.
Local Open Scope Z_scope.
Local Open Scope list_scope.

(* go: internal/plugin/blacklist.go:11-17 (blacklistSet) *)
Record blacklistSet : Type := mkSet {
  exact : gset bytes;
  nets : list IPNet
}.

(** The plugin's atomic pointer. *)
(* go: internal/plugin/blacklist.go:19-22 (Blacklist) *)
Record Blacklist : Type := mkBlacklist { set_ : option blacklistSet }.

(* go: internal/plugin/blacklist.go:132-145 (normalizeIP) *)
Definition normalizeIP (host : bytes) : bytes :=
  match ParseIP host with
  | None => host
  | Some ip => match To4 ip with Some v4 => String_ v4 | None => String_ ip end
  end.

Definition add_net (n : IPNet) (s : blacklistSet) : blacklistSet := mkSet (exact s) (nets s ++ [n]).
Definition add_exact (h : bytes) (s : blacklistSet) : blacklistSet := mkSet ({[h]} ∪ exact s) (nets s).

Definition entry_error : error := ErrMsg "blacklist entry is neither an IP nor a CIDR".

Fixpoint parse_entries (entries : list bytes) (s : blacklistSet) : result error blacklistSet :=
  match entries with
  | [] => Ok s
  | entry :: entries' =>
      if bool_decide (entry = []) then parse_entries entries' s
      else
        match ParseCIDR entry with
        | Some cidr => parse_entries entries' (add_net cidr s)
        | None =>
            match ParseIP entry with
            | None => Err entry_error
            | Some _ => parse_entries entries' (add_exact (normalizeIP entry) s)
            end
        end
  end.

(* go: internal/plugin/blacklist.go:61-78 (parseBlacklist) *)
Definition parseBlacklist (entries : list bytes) : result error blacklistSet := parse_entries entries (mkSet ∅ []).

Fixpoint best_effort_entries (entries : list bytes) (s : blacklistSet) : blacklistSet :=
  match entries with
  | [] => s
  | entry :: entries' =>
      best_effort_entries entries'
        (if bool_decide (entry = []) then s
         else
           match ParseCIDR entry with
           | Some cidr => add_net cidr s
           | None => match ParseIP entry with Some _ => add_exact (normalizeIP entry) s | None => s end
           end)
  end.

(* go: internal/plugin/blacklist.go:80-95 (parseBlacklistBestEffort) *)
Definition parseBlacklistBestEffort (entries : list bytes) : blacklistSet := best_effort_entries entries (mkSet ∅ []).

(* go: internal/plugin/blacklist.go:24-41 (NewBlacklist) *)
Definition NewBlacklist (entries : list bytes) : Blacklist :=
  match parseBlacklist entries with
  | Ok s => mkBlacklist (Some s)
  | Err _ => mkBlacklist (Some (parseBlacklistBestEffort entries))
  end.

(* go: internal/plugin/blacklist.go:43-53 (Replace) *)
Definition Replace (entries : list bytes) (p : Blacklist) : option error * Blacklist :=
  match parseBlacklist entries with
  | Err e => (Some e, p)
  | Ok s => (None, mkBlacklist (Some s))
  end.

(* go: internal/plugin/blacklist.go:55-59 (ValidateBlacklist) *)
Definition ValidateBlacklist (entries : list bytes) : option error :=
  match parseBlacklist entries with Err e => Some e | Ok _ => None end.

(** [addr] is the text of the session's remote address, none when it has none. *)
(* go: internal/plugin/blacklist.go:100-130 (OnAccept) *)
Definition OnAccept (addr : option bytes) (p : Blacklist) : option error :=
  match addr with
  | None => None
  | Some addr =>
      let host := match SplitHost addr with Some h => h | None => addr end in
      let host := normalizeIP host in
      match set_ p with
      | None => None
      | Some s =>
          if decide (host ∈ exact s) then Some ErrPluginBlock
          else
            match ParseIP host with
            | None => None
            | Some ip => if existsb (fun cidr => Contains cidr ip) (nets s) then Some ErrPluginBlock else None
            end
      end
  end.

(** ** What a list means *)

(** An entry names an address, or a network that has it. *)
Definition entry_blocks (entry : bytes) (ip : bytes) : Prop :=
  match ParseCIDR entry with
  | Some n => Contains n ip = true
  | None => ParseIP entry = Some ip
  end.

Definition entry_valid (entry : bytes) : Prop :=
  entry = [] \/ is_Some (ParseCIDR entry) \/ is_Some (ParseIP entry).

(** The host an address text names. *)
Definition host_of (addr : bytes) : bytes := match SplitHost addr with Some h => h | None => addr end.

Lemma normalizeIP_String host ip : ParseIP host = Some ip -> normalizeIP host = String_ ip.
Proof.
  intros E. unfold normalizeIP. rewrite E. destruct (ParseIP_ok _ _ E) as [L B].
  destruct (To4 ip) as [b|] eqn:E4; [|done].
  assert (length b = 4%nat) as Lb.
  { unfold To4 in E4. rewrite L in E4. cbn [Nat.eqb andb] in E4. destruct (bool_decide _); [|done].
    injection E4 as <-. rewrite length_drop. lia. }
  unfold String_. rewrite E4. unfold To4. by rewrite Lb.
Qed.

(** The set stands for the entries read into it. *)
Record stands_for (s : blacklistSet) (entries : list bytes) : Prop := {
  sf_exact : forall h, h ∈ exact s <-> exists e ip, e ∈ entries /\ ParseCIDR e = None /\ ParseIP e = Some ip /\ h = String_ ip;
  sf_nets : forall n, n ∈ nets s <-> exists e, e ∈ entries /\ ParseCIDR e = Some n
}.

Lemma stands_for_nil : stands_for (mkSet ∅ []) [].
Proof. split; cbn; set_solver. Qed.

Lemma stands_for_net s entries e n : stands_for s entries -> ParseCIDR e = Some n -> stands_for (add_net n s) (entries ++ [e]).
Proof.
  intros [H1 H2] E. split; intros x; cbn [add_net exact nets].
  - rewrite H1. split; intros (e' & ip & Hin & Hc & Hr); exists e', ip; (split; [|done]); [set_solver|].
    apply elem_of_app in Hin as [|Hin%list_elem_of_singleton]; [done|]. congruence.
  - rewrite elem_of_app, list_elem_of_singleton, H2. split.
    + intros [(e' & Hin & E')| ->]; [exists e'|exists e]; set_solver.
    + intros (e' & Hin & E'). apply elem_of_app in Hin as [Hin|Hin%list_elem_of_singleton]; [left; by exists e'|right; congruence].
Qed.

Lemma stands_for_exact s entries e ip :
  stands_for s entries -> ParseCIDR e = None -> ParseIP e = Some ip -> stands_for (add_exact (normalizeIP e) s) (entries ++ [e]).
Proof.
  intros [H1 H2] Ec Ei. rewrite (normalizeIP_String _ _ Ei). split; intros x; cbn [add_exact exact nets].
  - rewrite elem_of_union, elem_of_singleton, H1. split.
    + intros [->|(e' & ip' & Hin & Hr)]; [exists e, ip|exists e', ip']; set_solver.
    + intros (e' & ip' & Hin & Hc & Hi & ->).
      apply elem_of_app in Hin as [Hin|Hin%list_elem_of_singleton]; [right; by exists e', ip'|left; congruence].
  - rewrite H2. split; intros (e' & Hin & E'); exists e'; (split; [|done]); [set_solver|].
    apply elem_of_app in Hin as [|Hin%list_elem_of_singleton]; [done|]. congruence.
Qed.

(** An entry that parses as nothing adds nothing. *)
Lemma stands_for_skip s entries e :
  stands_for s entries -> ParseCIDR e = None -> ParseIP e = None -> stands_for s (entries ++ [e]).
Proof.
  intros [H1 H2] Ec Ei. split; intros x.
  - rewrite H1. split; intros (e' & ip & Hin & Hc & Hi & Hr); exists e', ip; (split; [|done]); [set_solver|].
    apply elem_of_app in Hin as [|Hin%list_elem_of_singleton]; [done|]. congruence.
  - rewrite H2. split; intros (e' & Hin & E'); exists e'; (split; [|done]); [set_solver|].
    apply elem_of_app in Hin as [|Hin%list_elem_of_singleton]; [done|]. congruence.
Qed.

Lemma stands_for_empty s entries : stands_for s entries -> stands_for s (entries ++ [[]]).
Proof. intros H. by apply stands_for_skip. Qed.

Lemma parse_entries_spec entries s done s' :
  stands_for s done -> parse_entries entries s = Ok s' -> stands_for s' (done ++ entries).
Proof.
  revert s done. induction entries as [|e entries IH]; intros s dn H E; cbn [parse_entries] in E.
  - injection E as <-. by rewrite app_nil_r.
  - replace (dn ++ e :: entries) with ((dn ++ [e]) ++ entries) by (by rewrite <- app_assoc).
    case_bool_decide as En.
    + eapply IH; [|exact E]. subst e. by apply stands_for_empty.
    + destruct (ParseCIDR e) as [n|] eqn:Ec; [eapply IH; [|exact E]; by apply stands_for_net|].
      destruct (ParseIP e) as [ip|] eqn:Ei; [|done]. eapply IH; [|exact E]. by eapply stands_for_exact.
Qed.

Lemma best_effort_spec entries s done :
  stands_for s done -> stands_for (best_effort_entries entries s) (done ++ entries).
Proof.
  revert s done. induction entries as [|e entries IH]; intros s dn H; cbn [best_effort_entries]; [by rewrite app_nil_r|].
  replace (dn ++ e :: entries) with ((dn ++ [e]) ++ entries) by (by rewrite <- app_assoc). apply IH.
  case_bool_decide as En; [subst e; by apply stands_for_empty|].
  destruct (ParseCIDR e) as [n|] eqn:Ec; [by apply stands_for_net|].
  destruct (ParseIP e) as [ip|] eqn:Ei; [by eapply stands_for_exact|by apply stands_for_skip].
Qed.

Lemma NewBlacklist_stands entries : exists s, set_ (NewBlacklist entries) = Some s /\ stands_for s entries.
Proof.
  unfold NewBlacklist. destruct (parseBlacklist entries) as [s|e] eqn:E; eexists; (split; [reflexivity|]).
  - by apply (parse_entries_spec entries _ [] s stands_for_nil).
  - apply (best_effort_spec entries _ [] stands_for_nil).
Qed.

Lemma parseBlacklist_ok entries : is_ok (parseBlacklist entries) = true <-> Forall entry_valid entries.
Proof.
  unfold parseBlacklist. generalize (mkSet ∅ []). induction entries as [|e entries IH]; intros s; cbn [parse_entries]; [done|].
  rewrite Forall_cons. unfold entry_valid at 1. case_bool_decide as En; [rewrite IH; tauto|].
  destruct (ParseCIDR e) as [n|] eqn:Ec; [rewrite IH; split; [|tauto]; intros; split; [right; left; by eexists|done]|].
  destruct (ParseIP e) as [ip|] eqn:Ei; [rewrite IH; split; [|tauto]; intros; split; [right; right; by eexists|done]|].
  cbn. split; [done|]. intros [[?|[[? ?]|[? ?]]] _]; done.
Qed.

Lemma OnAccept_stands p s entries addr ip :
  set_ p = Some s -> stands_for s entries -> ParseIP (host_of addr) = Some ip ->
  (OnAccept (Some addr) p = Some ErrPluginBlock <-> Exists (fun e => entry_blocks e ip) entries) /\
  (OnAccept (Some addr) p <> Some ErrPluginBlock -> OnAccept (Some addr) p = None).
Proof.
  intros Ep [H1 H2] Ei. unfold OnAccept. fold (host_of addr). rewrite (normalizeIP_String _ _ Ei), Ep.
  destruct (ParseIP_ok _ _ Ei) as [L B]. rewrite ParseIP_String by done.
  assert (Exists (fun e => entry_blocks e ip) entries <->
    String_ ip ∈ exact s \/ existsb (fun cidr => Contains cidr ip) (nets s) = true) as ->.
  { rewrite Exists_exists, H1, existsb_exists. unfold entry_blocks. split.
    - intros (e & Hin & Hb). destruct (ParseCIDR e) as [n|] eqn:Ec; [right|left; eauto 10].
      exists n. split; [|done]. apply list_elem_of_In, H2. eauto.
    - intros [(e & ip' & Hin & Ec & Ei' & Es)|(n & Hin & Hc)].
      + exists e. rewrite Ec. split; [done|]. destruct (ParseIP_ok _ _ Ei') as [L' B'].
        by rewrite (String_inj ip ip' L B L' B' Es).
      + apply list_elem_of_In, H2 in Hin as (e & Hin & Ec). exists e. by rewrite Ec. }
  destruct (decide (String_ ip ∈ exact s)); [tauto|]. destruct (existsb _ _); [tauto|].
  split; [|done]. split; [done|]. intros [|]; done.
Qed.

Lemma built_stands entries p0 p :
  p = NewBlacklist entries \/ Replace entries p0 = (None, p) -> exists s, set_ p = Some s /\ stands_for s entries.
Proof.
  intros [->|Hr]; [apply NewBlacklist_stands|]. unfold Replace in Hr.
  destruct (parseBlacklist entries) as [s|] eqn:E; [|done]. injection Hr as <-. exists s. split; [done|].
  by apply (parse_entries_spec entries _ [] s stands_for_nil).
Qed.

(** The block list means what it says: for a peer whose host text is an IP
    address, in whatever form, a list built by NewBlacklist or put in force by
    Replace refuses the session exactly if some entry names that address or is a
    network that contains it, with the block error; every other peer is let
    through.  Entries that do not parse (NewBlacklist) change nothing. *)
Theorem blacklist_exact entries p0 p addr ip :
  p = NewBlacklist entries \/ Replace entries p0 = (None, p) ->
  ParseIP (host_of addr) = Some ip ->
  (OnAccept (Some addr) p = Some ErrPluginBlock <-> Exists (fun e => entry_blocks e ip) entries) /\
  (OnAccept (Some addr) p <> Some ErrPluginBlock -> OnAccept (Some addr) p = None).
Proof.
  intros Hp Hip. destruct (built_stands entries p0 p Hp) as (s & Ep & Hs). by eapply OnAccept_stands.
Qed.

(** An IPv4-mapped peer address ([::ffff:a.b.c.d] from a dual-stack socket)
    cannot slip past an IPv4 entry, nor the other way round: both forms of an
    address are decided alike by every list. *)
Theorem dual_stack_same entries b port :
  length b = 4%nat -> bytes_ok b ->
  let p := NewBlacklist entries in
  let plain := string4 b ++ 58 :: port in
  let mapped := 91 :: mapped_text b ++ 93 :: 58 :: port in
  host_of plain = string4 b -> host_of mapped = mapped_text b ->
  OnAccept (Some mapped) p = OnAccept (Some plain) p.
Proof.
  intros L B p plain mapped Hp Hm. destruct (ParseIP_mapped b L B) as [E4 E6]. rewrite <- Hp in E4. rewrite <- Hm in E6.
  destruct (NewBlacklist_stands entries) as (s & Ep & Hs). fold p in Ep.
  destruct (OnAccept_stands p s entries plain _ Ep Hs E4) as [H1 H2].
  destruct (OnAccept_stands p s entries mapped _ Ep Hs E6) as [H3 H4].
  destruct (decide (OnAccept (Some plain) p = Some ErrPluginBlock)) as [E|E].
  - rewrite E. by apply H3, H1.
  - rewrite (H2 E). apply H4. intros E'. by apply E, H1, H3.
Qed.

Definition bl_entries : list bytes := bytes_of_string <$> ["10.0.0.1"; "192.168.0.0/16"; "oops"; ""; "2001:db8::/32"]%string.

Lemma blacklist_exact_witness :
  OnAccept (Some (bytes_of_string "[::ffff:192.168.7.7]:80")) (NewBlacklist bl_entries) = Some ErrPluginBlock.
Proof.
  apply (proj1 (blacklist_exact bl_entries (mkBlacklist None) (NewBlacklist bl_entries)
    (bytes_of_string "[::ffff:192.168.7.7]:80") (v4_prefix ++ [192; 168; 7; 7]) (or_introl eq_refl) ltac:(by vm_compute))).
  apply Exists_exists. exists (bytes_of_string "192.168.0.0/16"). split; [|by vm_compute].
  apply (bool_decide_unpack _). by vm_compute.
Defined.

Lemma dual_stack_same_witness :
  OnAccept (Some (91 :: mapped_text [10; 0; 0; 1] ++ 93 :: 58 :: [56; 48])) (NewBlacklist bl_entries) =
  OnAccept (Some (string4 [10; 0; 0; 1] ++ 58 :: [56; 48])) (NewBlacklist bl_entries).
Proof. apply dual_stack_same; [done|apply (bool_decide_unpack _); by vm_compute|by vm_compute|by vm_compute]. Defined.

(** Replace is all or nothing: it succeeds exactly if every entry is empty,
    a network or an address, which is what ValidateBlacklist reports; when it
    fails the list in force is the one before. *)
Theorem replace_all_or_nothing entries p :
  let '(err, p') := Replace entries p in
  (err = None <-> Forall entry_valid entries) /\
  err = ValidateBlacklist entries /\
  (err <> None -> p' = p) /\ (err = None -> p' = NewBlacklist entries).
Proof.
  unfold Replace, ValidateBlacklist, NewBlacklist. pose proof (parseBlacklist_ok entries) as H.
  destruct (parseBlacklist entries) as [s|e]; cbn in H; (split; [|done]); rewrite <- H; done.
Qed.

(** A peer address with a zone is never blocked: a link-local IPv6 peer
    reports itself as [fe80::1%eth0], which does not parse as an IP address, so
    neither an exact entry nor any network, not even ::/0, ever stops it. *)
Theorem zoned_peer_never_blocked entries p0 p addr :
  p = NewBlacklist entries \/ Replace entries p0 = (None, p) ->
  37 ∈ host_of addr -> OnAccept (Some addr) p = None.
Proof.
  intros Hp Hz. destruct (built_stands entries p0 p Hp) as (s & Ep & [H1 _]).
  unfold OnAccept. fold (host_of addr). rewrite Ep. unfold normalizeIP. rewrite (ParseIP_percent _ Hz).
  rewrite decide_False; [by rewrite (ParseIP_percent _ Hz)|].
  rewrite H1. intros (e & ip & _ & _ & Ei & Es). destruct (ParseIP_ok _ _ Ei) as [L B].
  apply (String_no_percent ip L B). by rewrite <- Es.
Qed.

Lemma zoned_peer_never_blocked_witness :
  OnAccept (Some (bytes_of_string "[fe80::1%eth0]:5")) (NewBlacklist (bytes_of_string <$> ["fe80::1"; "::/0"]%string)) = None.
Proof.
  apply (zoned_peer_never_blocked (bytes_of_string <$> ["fe80::1"; "::/0"]%string) (mkBlacklist None) _ _ (or_introl eq_refl)).
  apply (bool_decide_unpack _). by vm_compute.
Defined.

Example zone_free_peer_is_blocked :
  OnAccept (Some (bytes_of_string "[fe80::1]:5")) (NewBlacklist (bytes_of_string <$> ["fe80::1"]%string)) = Some ErrPluginBlock.
Proof. by vm_compute. Qed.
