(* ===== verification/Stream.v ===== *)
(** * Stream: the io and bufio readers the program uses

    A connection's remaining input is a byte list that ends at EOF.  The
    functions are [io.ReadFull], [bufio.Reader.Peek] and
    [bufio.Reader.ReadSlice] on it; their results do not depend on how the
    network cuts the input into reads. *)
From S2P Require Import Prelude Bytes Core.
Local Open Scope Z_scope.
Local Open Scope list_scope.

Definition io_EOF : error := ErrMsg "EOF".
Definition io_ErrUnexpectedEOF : error := ErrMsg "unexpected EOF".
Definition bufio_ErrBufferFull : error := ErrMsg "bufio: buffer full".

(** [io.ReadFull] into a buffer of [n] bytes: the result and the input left. *)
Definition ReadFull (n : nat) (s : bytes) : result error bytes * bytes :=
  if (n <=? length s)%nat then (Ok (take n s), drop n s)
  else (Err (match s with [] => io_EOF | _ => io_ErrUnexpectedEOF end), []).

(** [Peek(n)] with [n] at most the buffer size: the input is not consumed. *)
Definition Peek (n : nat) (s : bytes) : result error bytes :=
  if (n <=? length s)%nat then Ok (take n s) else Err io_EOF.

(** The input up to and including the delimiter, if it is there. *)
Fixpoint split_at (delim : Z) (s : bytes) : option (bytes * bytes) :=
  match s with
  | [] => None
  | b :: s' =>
      if b =? delim then Some ([b], s')
      else match split_at delim s' with
           | Some (p, rest) => Some (b :: p, rest)
           | None => None
           end
  end.

(** What [ReadSlice] returns: the slice through the delimiter, the full buffer
    when it holds none, or the error of the reader. *)
Inductive slice : Type :=
| SliceDelim (frag : bytes)
| SliceFull (frag : bytes)
| SliceErr (err : error).

Definition ReadSlice (size : nat) (delim : Z) (s : bytes) : slice * bytes :=
  match split_at delim (take size s) with
  | Some (frag, _) => (SliceDelim frag, drop (length frag) s)
  | None => if (size <=? length s)%nat then (SliceFull (take size s), drop size s) else (SliceErr io_EOF, [])
  end.

Lemma ReadFull_app n p rest : length p = n -> ReadFull n (p ++ rest) = (Ok p, rest).
Proof.
  intros <-. unfold ReadFull. rewrite length_app.
  rewrite (proj2 (Nat.leb_le _ _)) by lia. by rewrite take_app_length, drop_app_length.
Qed.

Lemma ReadFull_short n s :
  (length s < n)%nat -> ReadFull n s = (Err (match s with [] => io_EOF | _ => io_ErrUnexpectedEOF end), []).
Proof. intros H. unfold ReadFull. by rewrite (proj2 (Nat.leb_gt _ _)). Qed.

Lemma ReadFull_ok n s p rest : ReadFull n s = (Ok p, rest) -> s = p ++ rest /\ length p = n.
Proof.
  unfold ReadFull. destruct (Nat.leb_spec n (length s)); [|done]. intros [= <- <-].
  rewrite take_drop, length_take. split; [done|lia].
Qed.

Lemma split_at_found delim p rest :
  delim ∉ p -> split_at delim (p ++ delim :: rest) = Some (p ++ [delim], rest).
Proof.
  induction p as [|b p IH]; intros Hd; cbn [app split_at]; [by rewrite Z.eqb_refl|].
  rewrite not_elem_of_cons in Hd. destruct Hd as [Hb Hd].
  by rewrite (proj2 (Z.eqb_neq b delim)), IH by done.
Qed.

Lemma split_at_none delim s : delim ∉ s -> split_at delim s = None.
Proof.
  induction s as [|b s IH]; [done|]. intros Hd. rewrite not_elem_of_cons in Hd. destruct Hd as [Hb Hd].
  cbn [split_at]. by rewrite (proj2 (Z.eqb_neq b delim)), IH by done.
Qed.

(** Every input has its first delimiter somewhere, or none. *)
Lemma first_delim (delim : Z) (s : bytes) : delim ∉ s \/ exists p rest, s = p ++ delim :: rest /\ delim ∉ p.
Proof.
  induction s as [|b s IH]; [left; by apply not_elem_of_nil|].
  destruct (decide (b = delim)) as [->|Hb]; [right; exists [], s; split; [done|apply not_elem_of_nil]|].
  destruct IH as [IH|(p & rest & -> & Hp)].
  - left. rewrite not_elem_of_cons. auto.
  - right. exists (b :: p), rest. split; [done|]. rewrite not_elem_of_cons. auto.
Qed.

(** A delimiter within the buffer is found. *)
Lemma ReadSlice_delim size delim p rest :
  delim ∉ p -> (length p < size)%nat ->
  ReadSlice size delim (p ++ delim :: rest) = (SliceDelim (p ++ [delim]), rest).
Proof.
  intros Hd Hl. unfold ReadSlice. rewrite take_app_ge by lia.
  destruct (size - length p)%nat as [|k] eqn:Ek; [lia|]. cbn [take firstn].
  rewrite split_at_found by done. f_equal.
  replace (p ++ delim :: rest) with ((p ++ [delim]) ++ rest) by (by rewrite <- app_assoc).
  by rewrite drop_app_length.
Qed.

(** No delimiter within the buffer: the buffer is full. *)
Lemma ReadSlice_full size delim p rest :
  delim ∉ p -> length p = size -> ReadSlice size delim (p ++ rest) = (SliceFull p, rest).
Proof.
  intros Hd <-. unfold ReadSlice. rewrite take_app_length, split_at_none by done.
  rewrite length_app, (proj2 (Nat.leb_le _ _)) by lia. by rewrite drop_app_length.
Qed.

Lemma ReadSlice_eof size delim s :
  delim ∉ s -> (length s < size)%nat -> ReadSlice size delim s = (SliceErr io_EOF, []).
Proof.
  intros Hd Hl. unfold ReadSlice. rewrite take_ge, split_at_none by (done || lia).
  by rewrite (proj2 (Nat.leb_gt _ _)).
Qed.

Lemma split_at_some delim s frag rest :
  split_at delim s = Some (frag, rest) -> s = frag ++ rest /\ exists p, frag = p ++ [delim] /\ delim ∉ p.
Proof.
  revert frag. induction s as [|b s IH]; intros frag; [done|]. cbn [split_at].
  destruct (Z.eqb_spec b delim) as [->|Hb].
  - intros [= <- <-]. split; [done|]. exists []. split; [done|apply not_elem_of_nil].
  - destruct (split_at delim s) as [[p r]|]; [|done]. intros [= <- <-].
    destruct (IH p eq_refl) as (-> & q & -> & Hq). split; [done|]. exists (b :: q).
    split; [done|]. rewrite not_elem_of_cons. auto.
Qed.

(** The slice through the delimiter is a prefix of the input, all consumed. *)
Lemma ReadSlice_delim_inv size delim s frag rest :
  ReadSlice size delim s = (SliceDelim frag, rest) ->
  s = frag ++ rest /\ (length frag <= size)%nat /\ exists p, frag = p ++ [delim] /\ delim ∉ p.
Proof.
  unfold ReadSlice. destruct (split_at delim (take size s)) as [[f r]|] eqn:E.
  - intros [= <- <-]. apply split_at_some in E as [E Hp].
    assert (length f <= length (take size s))%nat as Hl by (rewrite E, length_app; lia).
    rewrite length_take in Hl. assert (f = take (length f) s) as Ef.
    { transitivity (take (length f) (take size s)); [|rewrite take_take; f_equal; lia].
      by rewrite E, take_app_length. }
    split; [|split; [lia|done]]. rewrite Ef at 1. by rewrite take_drop.
  - by destruct (_ <=? _)%nat.
Qed.
