(* ===== verification/TcpFramer.v ===== *)
(** * TcpFramer: [internal/transport/tcp/framer.go]

    The framers that cut a TCP stream into messages, each on its plain and on
    its buffered path.  [Framer] is the interface the session reads and writes
    through; [FramerLaw] is what it promises, and the pipelining theorem is
    proved against it. *)
From S2P Require Import Prelude Bytes Core Stream.
Local Open Scope string_scope.
Local Open Scope Z_scope.
Local Open Scope list_scope.

(** Reading gives the frame and the input left; writing gives the bytes that
    go out. *)
(* go: internal/transport/tcp/framer.go:12-15 (Framer) *)
Record Framer : Type := mkFramer {
  ReadFrame : bytes -> result error bytes * bytes;
  WriteFrame : bytes -> result error bytes
}.

(** [framedWrite]: both parts go out in order. *)
(* go: internal/transport/tcp/framer_writev_other.go:11-17 (framedWrite) *)
Definition framedWrite (a b : bytes) : result error bytes := Ok (a ++ b).

Definition errTooLarge : error := ErrWrap "frame" ErrFrameTooLarge.

(** ** Length-prefixed frames *)

(* go: internal/transport/tcp/framer.go:38-48 (maxBytes) *)
Definition defaultMaxFrameBytes : Z := 1024 * 1024.
(* go: internal/transport/tcp/framer.go:43-48 (maxBytes) *)
Definition maxBytes (MaxFrameBytes : Z) : Z :=
  if 0 <? MaxFrameBytes then MaxFrameBytes else defaultMaxFrameBytes.

Section framers.
Local Open Scope shark_scope.

(* go: internal/transport/tcp/framer.go:50-69 (LengthPrefixFramer.ReadFrame) *)
Definition lp_read (max : Z) (s : bytes) : result error bytes * bytes :=
  match ReadFull 4 s with
  | (Err err, s) => (Err err, s)
  | (Ok header, s) =>
      let raw := be_get header in
      if u32 (maxBytes max) <? raw then (Err errTooLarge, s)
      else ReadFull (Z.to_nat raw) s
  end.

(** The buffered path looks at the header before consuming it. *)
(* go: internal/transport/tcp/framer.go:71-100 (LengthPrefixFramer.readFrameBuffered) *)
Definition lp_read_buffered (max : Z) (s : bytes) : result error bytes * bytes :=
  match Peek 4 s with
  | Err err => (Err (match s with [] => err | _ => io_ErrUnexpectedEOF end), s)
  | Ok header =>
      let raw := be_get header in
      if u32 (maxBytes max) <? raw then (Err errTooLarge, s)
      else ReadFull (Z.to_nat raw) (drop 4 s)
  end.

(* go: internal/transport/tcp/framer.go:102-111 (LengthPrefixFramer.WriteFrame) *)
Definition lp_write (max : Z) (payload : bytes) : result error bytes :=
  if maxBytes max <? len payload then Err errTooLarge
  else framedWrite (be_put 4 (u32 (len payload))) payload.

(* go: internal/transport/tcp/framer.go:34-36 (LengthPrefixFramer) *)
Definition LengthPrefixFramer (buffered : bool) (max : Z) : Framer :=
  mkFramer (if buffered then lp_read_buffered max else lp_read max) (lp_write max).

(** ** Delimited lines *)

(* go: internal/transport/tcp/framer.go:118-123 (delimiter) *)
Definition delimiter (Delimiter : Z) : Z := if Delimiter =? 0 then 10 else Delimiter.

(** The plain path reads one byte at a time; the delimiter counts. *)
(* go: internal/transport/tcp/framer.go:125-148 (LineFramer.ReadFrame) *)
Fixpoint line_read (max delim : Z) (line s : bytes) : result error bytes * bytes :=
  match s with
  | [] => (Err io_EOF, [])
  | b :: s' =>
      let line := line ++ [b] in
      if max <? len line then (Err errTooLarge, s')
      else if b =? delim then (Ok (take (length line - 1) line), s')
      else line_read max delim line s'
  end.

(** The buffered path reads fragments of at most [size] bytes. A full buffer
    consumes [size] bytes, so [S (length s)] rounds reach the end of the input:
    [line_buffered_found] and [line_buffered_eof] never meet the last case. *)
(* go: internal/transport/tcp/framer.go:150-192 (LineFramer.readFrameBuffered) *)
Fixpoint line_read_buffered (fuel : nat) (size : nat) (max delim : Z) (out s : bytes) :
    result error bytes * bytes :=
  match fuel with
  | O => (Err bufio_ErrBufferFull, s)
  | S fuel' =>
      match ReadSlice size delim s with
      | (SliceDelim frag, s) =>
          let n := len frag - 1 in
          if max <? len out + n then (Err errTooLarge, s)
          else (Ok (out ++ take (Z.to_nat n) frag), s)
      | (SliceFull frag, s) =>
          let out := out ++ frag in
          if max <? len out then (Err errTooLarge, s)
          else line_read_buffered fuel' size max delim out s
      | (SliceErr err, s) => (Err err, s)
      end
  end.

(* go: internal/transport/tcp/framer.go:194-203 (LineFramer.WriteFrame) *)
Definition line_write (max delim : Z) (payload : bytes) : result error bytes :=
  if maxBytes max <? len payload + 1 then Err errTooLarge
  else framedWrite payload [delim].

(** [buffered] is the size of the read buffer, if there is one. *)
(* go: internal/transport/tcp/framer.go:113-116 (LineFramer) *)
Definition LineFramer (buffered : option nat) (max Delimiter : Z) : Framer :=
  mkFramer
    (match buffered with
     | Some size => fun s => line_read_buffered (S (length s)) size (maxBytes max) (delimiter Delimiter) [] s
     | None => line_read (maxBytes max) (delimiter Delimiter) []
     end)
    (line_write max (delimiter Delimiter)).

(** ** Fixed-size and raw frames *)

(* go: internal/transport/tcp/framer.go:205-227 (FixedSizeFramer) *)
Definition FixedSizeFramer (Size : Z) : Framer :=
  mkFramer
    (fun s => if Size <=? 0 then (Err (ErrMsg "fixed frame size must be positive"), s)
              else ReadFull (Z.to_nat Size) s)
    (fun payload =>
      if Size <=? 0 then Err (ErrMsg "fixed frame size must be positive")
      else if negb (len payload =? Size) then Err (ErrMsg "fixed frame payload size")
      else Ok payload).

Definition raw_max (MaxFrameBytes : Z) : Z := if MaxFrameBytes <=? 0 then 32 * 1024 else MaxFrameBytes.

(** One read returns what the next [n] bytes of the network hold, capped. *)
(* go: internal/transport/tcp/framer.go:229-258 (RawFramer) *)
Definition RawFramer (MaxFrameBytes : Z) (available : nat) : Framer :=
  mkFramer
    (fun s => match s with
              | [] => (Err io_EOF, [])
              | _ => let n := Nat.min available (Z.to_nat (raw_max MaxFrameBytes)) in (Ok (take n s), drop n s)
              end)
    (fun payload => if raw_max MaxFrameBytes <? len payload then Err errTooLarge else Ok payload).
End framers.

(** ** The interface: frames survive the wire *)

(** What a framer promises for the payloads in [ok]: whatever follows on the
    stream, the frame that was written is the frame that is read. *)
Class FramerLaw (f : Framer) (ok : bytes -> Prop) : Prop := {
  framer_read_back : forall payload w rest, ok payload -> WriteFrame f payload = Ok w ->
    ReadFrame f (w ++ rest) = (Ok payload, rest)
}.

(** Reading frames until [n] are there, an error, or the end. *)
Fixpoint read_frames (f : Framer) (n : nat) (s : bytes) : list bytes * bytes :=
  match n with
  | O => ([], s)
  | S n' =>
      match ReadFrame f s with
      | (Ok p, s) => let '(ps, rest) := read_frames f n' s in (p :: ps, rest)
      | (Err _, s) => ([], s)
      end
  end.

Fixpoint write_frames (f : Framer) (ps : list bytes) : option bytes :=
  match ps with
  | [] => Some []
  | p :: ps' =>
      match WriteFrame f p, write_frames f ps' with
      | Ok w, Some ws => Some (w ++ ws)
      | _, _ => None
      end
  end.

(** *** Length prefix *)

Lemma maxBytes_pos max : 0 < maxBytes max.
Proof. unfold maxBytes, defaultMaxFrameBytes. destruct (Z.ltb_spec 0 max); lia. Qed.

Lemma be_put4_small n : 0 <= n < 2 ^ 32 -> be_get (be_put 4 (u32 n)) = n.
Proof.
  intros Hn. rewrite uwrap_small by done. apply be_get_put_small. by change (256 ^ Z.of_nat 4) with (2 ^ 32).
Qed.

#[export] Instance LengthPrefix_law buffered max :
  max < 2 ^ 32 -> FramerLaw (LengthPrefixFramer buffered max) (fun _ => True).
Proof.
  intros Hmax. split. intros p w rest _ Hw. cbn [WriteFrame LengthPrefixFramer] in Hw. unfold lp_write, framedWrite in Hw.
  destruct (Z.ltb_spec (maxBytes max) (len p)) as [|Hl]; [done|].
  assert (w = be_put 4 (u32 (len p)) ++ p) as -> by congruence.
  assert (maxBytes max < 2 ^ 32) as Hm
    by (unfold maxBytes, defaultMaxFrameBytes in *; destruct (0 <? max); lia).
  pose proof (len_nonneg p) as Hp. pose proof (be_put4_small (len p) ltac:(lia)) as Eg.
  assert ((u32 (maxBytes max) <? len p) = false) as Ec
    by (apply Z.ltb_ge; rewrite uwrap_small by (pose proof (maxBytes_pos max); lia); lia).
  cbn [ReadFrame LengthPrefixFramer]. rewrite <- app_assoc. destruct buffered.
  - unfold lp_read_buffered, Peek. rewrite length_app, length_be_put, (proj2 (Nat.leb_le _ _)) by lia.
    rewrite take_be_put, drop_be_put, Eg, Ec. apply ReadFull_app. unfold len. lia.
  - unfold lp_read. rewrite ReadFull_app by apply length_be_put.
    rewrite Eg, Ec. apply ReadFull_app. unfold len. lia.
Qed.

(** With no bound on the cap: the reader compares with the cap taken modulo
    2^32, the writer with the cap itself. *)
Lemma length_prefix_wrapped_cap buffered max p w rest :
  len p < 2 ^ 32 -> WriteFrame (LengthPrefixFramer buffered max) p = Ok w ->
  (ReadFrame (LengthPrefixFramer buffered max) (w ++ rest)).1 =
    (if len p <=? u32 (maxBytes max) then Ok p else Err errTooLarge).
Proof.
  intros Hp Hw. cbn [WriteFrame LengthPrefixFramer] in Hw. unfold lp_write, framedWrite in Hw.
  destruct (maxBytes max <? len p); [done|].
  assert (w = be_put 4 (u32 (len p)) ++ p) as -> by congruence.
  pose proof (len_nonneg p) as Hp0. pose proof (be_put4_small (len p) ltac:(lia)) as Eg.
  cbn [ReadFrame LengthPrefixFramer]. rewrite <- app_assoc, Z.leb_antisym.
  destruct buffered; unfold lp_read_buffered, lp_read, Peek.
  - rewrite length_app, length_be_put, (proj2 (Nat.leb_le _ _)) by lia.
    rewrite take_be_put, drop_be_put, Eg. destruct (_ <? _); [done|].
    cbn [negb]. by rewrite ReadFull_app by (unfold len; lia).
  - rewrite ReadFull_app by apply length_be_put. rewrite Eg. destruct (_ <? _); [done|].
    cbn [negb]. by rewrite ReadFull_app by (unfold len; lia).
Qed.

(** *** Lines *)

Lemma line_read_found max delim line p rest :
  delim ∉ p ->
  (line_read max delim line (p ++ delim :: rest)).1 =
    (if len line + len p + 1 <=? max then Ok (line ++ p) else Err errTooLarge) /\
  (len line + len p + 1 <= max -> (line_read max delim line (p ++ delim :: rest)).2 = rest).
Proof.
  revert line. induction p as [|b p IH]; intros line Hd; cbn [app line_read]; rewrite len_app, !len_cons.
  - change (len (@nil Z)) with 0. rewrite !Z.add_0_r.
    destruct (Z.ltb_spec max (len line + 1)) as [H|H].
    + rewrite (proj2 (Z.leb_gt _ _)) by lia. split; [done|intros; exfalso; lia].
    + rewrite (proj2 (Z.leb_le _ _)), Z.eqb_refl by lia. split; [|done]. cbn [fst]. f_equal.
      rewrite app_nil_r, length_app. cbn [length].
      rewrite take_app_le, take_ge by lia. done.
  - rewrite not_elem_of_cons in Hd. destruct Hd as [Hb Hd]. pose proof (len_nonneg p).
    change (len (@nil Z)) with 0.
    destruct (Z.ltb_spec max (len line + (1 + 0))) as [H1|H1].
    + rewrite (proj2 (Z.leb_gt _ _)) by lia. split; [done|intros; exfalso; lia].
    + rewrite (proj2 (Z.eqb_neq b delim)) by done. destruct (IH (line ++ [b]) Hd) as [E1 E2].
      rewrite len_app, len_cons in E1, E2. change (len (@nil Z)) with 0 in *.
      replace (len line + (1 + 0) + len p + 1) with (len line + (1 + len p) + 1) in * by lia.
      rewrite E1. split; [|done]. by rewrite <- app_assoc.
Qed.

Lemma line_read_missing max delim line s :
  delim ∉ s -> is_ok (line_read max delim line s).1 = false.
Proof.
  revert line. induction s as [|b s IH]; intros line Hd; [done|]. cbn [line_read].
  rewrite not_elem_of_cons in Hd. destruct Hd as [Hb Hd].
  destruct (_ <? _); [done|]. rewrite (proj2 (Z.eqb_neq b delim)) by done. by apply IH.
Qed.

Lemma line_buffered_found fuel size max delim out p rest :
  delim ∉ p -> (0 < size)%nat -> (length p < fuel)%nat ->
  let r := line_read_buffered fuel size max delim out (p ++ delim :: rest) in
  r.1 = (if len out + len p <=? max then Ok (out ++ p) else Err errTooLarge) /\
  (len out + len p <= max -> r.2 = rest).
Proof.
  revert out p. induction fuel as [|fuel IH]; intros out p Hd Hs Hf; [lia|]. cbn zeta.
  cbn [line_read_buffered]. destruct (Nat.lt_ge_cases (length p) size) as [Hl|Hl].
  - rewrite ReadSlice_delim by done. rewrite len_app. change (len [delim]) with 1.
    replace (len p + 1 - 1) with (len p) by lia.
    destruct (Z.ltb_spec max (len out + len p)) as [H|H].
    + rewrite (proj2 (Z.leb_gt _ _)) by lia. split; [done|intros; exfalso; lia].
    + rewrite (proj2 (Z.leb_le _ _)) by lia. split; [|done]. cbn [fst]. do 2 f_equal.
      apply take_app_length'. unfold len. lia.
  - rewrite <- (take_drop size p) in Hd |- *. set (p1 := take size p) in *. set (p2 := drop size p) in *.
    assert (length p1 = size) as H1 by (unfold p1; rewrite length_take; lia).
    assert (length p = (size + length p2)%nat) as H2 by (unfold p2; rewrite length_drop; lia).
    rewrite not_elem_of_app in Hd. destruct Hd as [Hd1 Hd2].
    rewrite <- app_assoc, (ReadSlice_full size delim p1) by done. rewrite !len_app.
    pose proof (len_nonneg p2). destruct (Z.ltb_spec max (len out + len p1)) as [Hm|Hm].
    + rewrite (proj2 (Z.leb_gt _ _)) by lia. split; [done|intros; exfalso; lia].
    + destruct (IH (out ++ p1) p2 Hd2 Hs ltac:(lia)) as [E1 E2]. rewrite len_app in E1, E2.
      rewrite <- Z.add_assoc in E1, E2. rewrite E1. split; [by rewrite <- app_assoc|done].
Qed.

Lemma line_buffered_missing fuel size max delim out s :
  delim ∉ s -> is_ok (line_read_buffered fuel size max delim out s).1 = false.
Proof.
  revert out s. induction fuel as [|fuel IH]; intros out s Hd; [done|]. cbn [line_read_buffered].
  unfold ReadSlice. assert (delim ∉ take size s) as Hd'
    by (intros Hin; apply Hd; by eapply elem_of_take in Hin as (i & Hi & _);
        eapply list_elem_of_lookup_2).
  rewrite split_at_none by done. destruct (_ <=? _)%nat; [|done].
  destruct (_ <? _); [done|]. apply IH. intros Hin. apply Hd.
  rewrite <- (take_drop size s). apply elem_of_app. by right.
Qed.

#[export] Instance Line_law buffered max Delimiter :
  buffered <> Some 0%nat ->
  FramerLaw (LineFramer buffered max Delimiter) (fun p => delimiter Delimiter ∉ p).
Proof.
  intros Hb. split. intros p w rest Hd Hw. cbn [WriteFrame LineFramer] in Hw. unfold line_write, framedWrite in Hw.
  destruct (Z.ltb_spec (maxBytes max) (len p + 1)) as [|Hl]; [done|]. injection Hw as <-.
  cbn [ReadFrame LineFramer]. rewrite <- app_assoc. cbn [app]. destruct buffered as [size|].
  - destruct (line_buffered_found (S (length (p ++ delimiter Delimiter :: rest))) size (maxBytes max)
      (delimiter Delimiter) [] p rest Hd) as [E1 E2]; [destruct size; [done|lia]|rewrite length_app; lia|].
    change (len (@nil Z)) with 0 in *. rewrite Z.add_0_l in *.
    rewrite (proj2 (Z.leb_le _ _)) in E1 by lia. specialize (E2 ltac:(lia)).
    destruct (line_read_buffered _ _ _ _ _ _). cbn in *. by subst.
  - destruct (line_read_found (maxBytes max) (delimiter Delimiter) [] p rest Hd) as [E1 E2].
    change (len (@nil Z)) with 0 in *. rewrite Z.add_0_l in *.
    rewrite (proj2 (Z.leb_le _ _)) in E1 by lia. specialize (E2 ltac:(lia)).
    destruct (line_read _ _ _ _). cbn in *. by subst.
Qed.

#[export] Instance FixedSize_law Size : FramerLaw (FixedSizeFramer Size) (fun _ => True).
Proof.
  split. intros p w rest _ Hw. cbn [WriteFrame ReadFrame FixedSizeFramer] in *.
  destruct (Z.leb_spec Size 0); [done|]. destruct (Z.eqb_spec (len p) Size) as [E|]; [|done].
  injection Hw as <-. apply ReadFull_app. unfold len in E. lia.
Qed.

(** *** Pipelining *)

Lemma read_back_all f ok `{!FramerLaw f ok} ps w rest :
  Forall ok ps -> write_frames f ps = Some w -> read_frames f (length ps) (w ++ rest) = (ps, rest).
Proof.
  intros Hok. revert w. induction Hok as [|p ps Hp Hps IH]; intros w; cbn [write_frames length read_frames].
  - by intros [= <-].
  - destruct (WriteFrame f p) as [wp|] eqn:Ep; [|done].
    destruct (write_frames f ps) as [ws|]; [|done]. intros Hw.
    assert (w = wp ++ ws) as -> by congruence. rewrite <- app_assoc.
    rewrite (framer_read_back p wp) by done. by rewrite IH.
Qed.

(** C34: Frames survive the stream: any sequence of payloads written back to
    back - length-prefixed with a cap below 2^32 bytes, delimited (by payloads
    that do not contain the delimiter) or of fixed size - is read back as the same
    sequence, on the plain and on the buffered path, whatever the size of the read
    buffer and whatever follows on the connection, which is left unread. The bound
    on the cap is needed, because the reader converts the cap to 32 bits and the
    writer does not: whatever the cap, a length-prefixed frame of less than 2^32
    bytes that was written is read back if it fits the cap modulo 2^32, and
    refused as too large otherwise; with a cap of exactly 2^32 every frame that is
    not empty is written and refused. *)
Theorem framers_pipeline ps w rest :
  (forall buffered max, max < 2 ^ 32 -> write_frames (LengthPrefixFramer buffered max) ps = Some w ->
     read_frames (LengthPrefixFramer buffered max) (length ps) (w ++ rest) = (ps, rest)) /\
  (forall buffered max D, buffered <> Some 0%nat -> Forall (fun p => delimiter D ∉ p) ps ->
     write_frames (LineFramer buffered max D) ps = Some w ->
     read_frames (LineFramer buffered max D) (length ps) (w ++ rest) = (ps, rest)) /\
  (forall Size, write_frames (FixedSizeFramer Size) ps = Some w ->
     read_frames (FixedSizeFramer Size) (length ps) (w ++ rest) = (ps, rest)) /\
  (forall buffered max p wp, len p < 2 ^ 32 -> WriteFrame (LengthPrefixFramer buffered max) p = Ok wp ->
     (ReadFrame (LengthPrefixFramer buffered max) (wp ++ rest)).1 =
       (if len p <=? u32 (maxBytes max) then Ok p else Err errTooLarge)) /\
  (forall buffered p, 0 < len p < 2 ^ 32 -> exists wp,
     WriteFrame (LengthPrefixFramer buffered (2 ^ 32)) p = Ok wp /\
     (ReadFrame (LengthPrefixFramer buffered (2 ^ 32)) (wp ++ rest)).1 = Err errTooLarge).
Proof.
  assert (Forall (fun _ : bytes => True) ps) as Ht by (by apply Forall_true).
  split_and!.
  - intros buffered max Hmax. pose proof (LengthPrefix_law buffered max Hmax).
    by apply (read_back_all _ (fun _ => True) ps).
  - intros buffered max D Hb Hps. pose proof (Line_law buffered max D Hb).
    by apply (read_back_all _ (fun p => delimiter D ∉ p) ps).
  - intros Size. by apply (read_back_all _ (fun _ => True) ps).
  - intros buffered max p wp. apply length_prefix_wrapped_cap.
  - intros buffered p Hp. assert (WriteFrame (LengthPrefixFramer buffered (2 ^ 32)) p =
      Ok (be_put 4 (u32 (len p)) ++ p)) as E.
    { cbn [WriteFrame LengthPrefixFramer]. unfold lp_write. change (maxBytes (2 ^ 32)) with (2 ^ 32).
      by rewrite (proj2 (Z.ltb_ge (2 ^ 32) (len p))) by lia. }
    exists (be_put 4 (u32 (len p)) ++ p). split; [done|].
    rewrite (length_prefix_wrapped_cap buffered (2 ^ 32) p _ rest) by (done || lia).
    change (u32 (maxBytes (2 ^ 32))) with 0. by rewrite (proj2 (Z.leb_gt (len p) 0)) by lia.
Qed.

Lemma framers_pipeline_witness :
  read_frames (LineFramer (Some 16%nat) 64 0) 2 ([97; 98; 10; 10; 99]) = ([[97; 98]; []], [99]) /\
  read_frames (LengthPrefixFramer true 10) 2 ([0; 0; 0; 1; 5; 0; 0; 0; 0; 7]) = ([[5]; []], [7]) /\
  (ReadFrame (LengthPrefixFramer true (2 ^ 32)) ([0; 0; 0; 1; 7] ++ [])).1 = Err errTooLarge /\
  exists wp, WriteFrame (LengthPrefixFramer true (2 ^ 32)) [7] = Ok wp /\
    (ReadFrame (LengthPrefixFramer true (2 ^ 32)) (wp ++ [])).1 = Err errTooLarge.
Proof.
  split_and!.
  - apply (proj1 (proj2 (framers_pipeline [[97; 98]; []] [97; 98; 10; 10] [99])) (Some 16%nat) 64 0);
      [done|decide_now|done].
  - apply (proj1 (framers_pipeline [[5]; []] [0; 0; 0; 1; 5; 0; 0; 0; 0] [7]) true 10); [lia|done].
  - apply (proj1 (proj2 (proj2 (proj2 (framers_pipeline [] [] [])))) true (2 ^ 32) [7]); done.
  - apply (proj2 (proj2 (proj2 (proj2 (framers_pipeline [] [] [])))) true [7]). by split.
Defined.

(** The two paths of the line framer agree except at the cap: the plain path
    returns a line iff the buffered path returns the same line and the line is
    shorter than the cap; a line of exactly the cap is accepted by the buffered
    path only. *)
Theorem line_paths size max D s p rest :
  (0 < size)%nat ->
  ReadFrame (LineFramer None max D) s = (Ok p, rest) <->
  ReadFrame (LineFramer (Some size) max D) s = (Ok p, rest) /\ len p < maxBytes max.
Proof.
  intros Hsize. cbn [ReadFrame LineFramer].
  destruct (first_delim (delimiter D) s) as [Hs|(q & rest' & -> & Hq)].
  - pose proof (line_read_missing (maxBytes max) (delimiter D) [] s Hs) as H1.
    pose proof (line_buffered_missing (S (length s)) size (maxBytes max) (delimiter D) [] s Hs) as H2.
    split; [intros E; by rewrite E in H1|intros [E _]; by rewrite E in H2].
  - destruct (line_read_found (maxBytes max) (delimiter D) [] q rest' Hq) as [P1 P2].
    destruct (line_buffered_found (S (length (q ++ delimiter D :: rest'))) size (maxBytes max) (delimiter D)
      [] q rest' Hq Hsize) as [B1 B2]; [rewrite length_app; lia|].
    change (len (@nil Z)) with 0 in *. rewrite !Z.add_0_l in *. cbn [app] in P1, B1.
    destruct (line_read _ _ _ _) as [r1 s1], (line_read_buffered _ _ _ _ _ _) as [r2 s2]. cbn [fst snd] in *.
    destruct (Z.leb_spec (len q + 1) (maxBytes max)), (Z.leb_spec (len q) (maxBytes max));
      subst r1 r2; try lia.
    + rewrite P2, B2 by lia. split; [intros [= <- <-]; split; [done|lia]|by intros [[= <- <-] _]].
    + rewrite B2 by lia. split; [done|]. intros [[= <- <-] ?]. lia.
    + split; [done|by intros [? _]].
Qed.

Lemma line_paths_witness :
  ReadFrame (LineFramer None 4 0) [97; 98; 99; 10; 5] = (Ok [97; 98; 99], [5]) /\
  (ReadFrame (LineFramer None 3 0) [97; 98; 99; 10; 5]).1 = Err errTooLarge /\
  ReadFrame (LineFramer (Some 2%nat) 3 0) [97; 98; 99; 10; 5] = (Ok [97; 98; 99], [5]).
Proof.
  split; [|done]. apply (line_paths 2 4 0 [97; 98; 99; 10; 5] [97; 98; 99] [5]); [lia|]. by split.
Defined.

(** The two paths of the length-prefix framer give the same result - frame,
    error and the distinction between a clean end and a truncated frame - on
    every input, and never deliver (or allocate) more than the cap. *)
Theorem length_prefix_paths max s :
  (lp_read max s).1 = (lp_read_buffered max s).1 /\
  (forall p rest, lp_read max s = (Ok p, rest) ->
     lp_read_buffered max s = (Ok p, rest) /\ len p <= u32 (maxBytes max) /\ 4 + len p + len rest = len s).
Proof.
  unfold lp_read, lp_read_buffered, Peek. destruct (Nat.leb_spec 4 (length s)) as [H4|H4].
  - assert (ReadFull 4 s = (Ok (take 4 s), drop 4 s)) as ->
      by (unfold ReadFull; by rewrite (proj2 (Nat.leb_le _ _))).
    destruct (Z.ltb_spec (u32 (maxBytes max)) (be_get (take 4 s))) as [Hb|Hb];
      [split; [done|intros p rest [=]]|].
    split; [done|]. intros p rest E. split; [done|]. pose proof E as E'. apply ReadFull_ok in E as [E El].
    assert (len p <= u32 (maxBytes max)) as Hp.
    { unfold len. rewrite El. pose proof (uwrap_range 32 (maxBytes max)) as Hr. unfold in_u in Hr. lia. }
    split; [done|]. assert (len (drop 4 s) = len p + len rest) as Hd by (by rewrite E, len_app).
    unfold len in *. rewrite length_drop in Hd. lia.
  - rewrite ReadFull_short by done. destruct s; (split; [done|intros p rest [=]]).
Qed.
