(* ===== verification/TcpSession.v ===== *)
(** * TcpSession: [internal/transport/tcp/session.go]

    One TCP session: the write queue with its backpressure, the write loop with
    its batching, and [Close], run by any number of senders, the writer and the
    closer at once.  [session_step] has one step per synchronisation of the
    code (state and queue reads, channel operations, the cancelled context), and
    the theorems hold for every interleaving. *)
From Stdlib Require Import SpecFloat.
From S2P Require Import Prelude Bytes Core Acceptor.
Local Open Scope string_scope.
Local Open Scope Z_scope.
Local Open Scope list_scope.

(** [tcp.ErrSessionClosed] *)
(* go: internal/transport/tcp/session.go:17-17 (ErrSessionClosed) *)
Definition tcp_ErrSessionClosed : error := ErrMsg "session closed".

(** A queued frame; shared frames are numbered. *)
(* go: internal/transport/tcp/session.go:19-27 (pendingWrite) *)
Record pendingWrite : Type := mkWrite { payload : bytes; frame : option nat }.

#[export] Instance pendingWrite_eq_dec : EqDecision pendingWrite.
Proof. solve_decision. Defined.

(** Whether a queue of length [n] is past the high-water mark. *)
(* go: internal/transport/tcp/session.go:165-182 (enqueue) *)
Definition past_high_water (highWater : float64) (cap n : Z) : bool :=
  if fltb f0 highWater then
    let threshold := float_to_int (fmul (float_of_int cap) highWater) in
    let threshold := if threshold <? 1 then 1 else threshold in
    threshold <=? n
  else false.

(** The first write of an empty queue is always accepted. *)
Example past_high_water_examples :
  past_high_water (fdiv (float_of_int 4) (float_of_int 5)) 1 0 = false /\
  past_high_water (fdiv (float_of_int 4) (float_of_int 5)) 256 203 = false /\
  past_high_water (fdiv (float_of_int 4) (float_of_int 5)) 256 204 = true /\
  past_high_water f0 256 256 = false.
Proof. by vm_compute. Qed.

(** A call of [Send] ([shared] false) or [SendShared]: before the state check,
    before the high-water check of [Send], before the one of [enqueue], before
    its [select], returned. *)
(* go: internal/transport/tcp/session.go:124-191 (Send) *)
Inductive sender : Type :=
| SStart (shared : bool) (w : pendingWrite)
| SHigh (w : pendingWrite)
| SEnqueue (w : pendingWrite)
| SSelect (w : pendingWrite)
| SDone (w : pendingWrite) (r : option error).

(** The write loop: in its [select]; with an entry, before the deadline is set;
    writing; before the [len] test of the drain; in the receive that follows a
    positive test; flushing; in the deferred [Close]; returned. *)
(* go: internal/transport/tcp/session.go:230-290 (writeLoop) *)
Inductive writer : Type :=
| WWait
| WTaken (w : pendingWrite)
| WWriting (w : pendingWrite)
| WCheck
| WReceive
| WFlush
| WClosing
| WDone.

(** [Close]: not called; the state stored; the context cancelled and the queue
    being released; released; the connection closed and [closeOnce] passed. *)
(* go: internal/transport/tcp/session.go:193-205 (Close) *)
Inductive closer : Type := Open | StateClosed | Cancelled | Released | ConnClosed.

#[export] Instance closer_eq_dec : EqDecision closer.
Proof. solve_decision. Defined.
#[export] Instance writer_eq_dec : EqDecision writer.
Proof. solve_decision. Defined.

(** [accepted] are the entries that entered the queue, [wire] those written,
    [lost] those taken out and not written; [released] are the frames released
    and [pinned] those whose entry was given up without a release. *)
(* go: internal/transport/tcp/session.go:29-54 (session) *)
Record session : Type := mkSession {
  queue : list pendingWrite;
  senders : list sender;
  wr : writer;
  cl : closer;
  accepted : list pendingWrite;
  wire : list pendingWrite;
  lost : list pendingWrite;
  released : list nat;
  pinned : list nat
}.

(** The context is done. *)
Definition ctx_done (c : closer) : bool := match c with Cancelled | Released | ConnClosed => true | _ => false end.

(** The frames of entries, in order. *)
Definition frames (l : list pendingWrite) : list nat := omap frame l.
#[local] Arguments frames : simpl never.

Section session.
Variable cap : nat.
Variable highWater : float64.
(** A write buffer is set ([bw] is not nil), a write timeout is set. *)
Variable buffered : bool.
Variable deadline : bool.

Definition set_sender (s : session) (i : nat) (x : sender) : session :=
  mkSession (queue s) (<[i := x]> (senders s)) (wr s) (cl s) (accepted s) (wire s) (lost s) (released s) (pinned s).
Definition set_writer (s : session) (x : writer) : session :=
  mkSession (queue s) (senders s) x (cl s) (accepted s) (wire s) (lost s) (released s) (pinned s).
Definition set_closer (s : session) (x : closer) : session :=
  mkSession (queue s) (senders s) (wr s) x (accepted s) (wire s) (lost s) (released s) (pinned s).

(** A sender.  A [select] with several ready cases takes any of them; its
    default only when none is ready. *)
(* go: internal/transport/tcp/session.go:124-191 (enqueue) *)
Inductive sender_step (s : session) : session -> Prop :=
| check_closed i b w :
    senders s !! i = Some (SStart b w) -> cl s <> Open ->
    sender_step s (set_sender s i (SDone w (Some tcp_ErrSessionClosed)))
| check_active i b w :
    senders s !! i = Some (SStart b w) -> cl s = Open ->
    sender_step s (set_sender s i (if b then SEnqueue w else SHigh w))
| high_refuse i w :
    senders s !! i = Some (SHigh w) \/ senders s !! i = Some (SEnqueue w) ->
    past_high_water highWater (Z.of_nat cap) (Z.of_nat (length (queue s))) = true ->
    sender_step s (set_sender s i (SDone w (Some ErrWriteQueueFull)))
| high_pass i w :
    senders s !! i = Some (SHigh w) ->
    past_high_water highWater (Z.of_nat cap) (Z.of_nat (length (queue s))) = false ->
    sender_step s (set_sender s i (SEnqueue w))
| enqueue_pass i w :
    senders s !! i = Some (SEnqueue w) ->
    past_high_water highWater (Z.of_nat cap) (Z.of_nat (length (queue s))) = false ->
    sender_step s (set_sender s i (SSelect w))
| select_send i w :
    senders s !! i = Some (SSelect w) -> (length (queue s) < cap)%nat ->
    sender_step s (mkSession (queue s ++ [w]) (<[i := SDone w None]> (senders s)) (wr s) (cl s)
                     (accepted s ++ [w]) (wire s) (lost s) (released s) (pinned s))
| select_done i w :
    senders s !! i = Some (SSelect w) -> ctx_done (cl s) = true ->
    sender_step s (set_sender s i (SDone w (Some tcp_ErrSessionClosed)))
| select_full i w :
    senders s !! i = Some (SSelect w) -> (cap <= length (queue s))%nat -> ctx_done (cl s) = false ->
    sender_step s (set_sender s i (SDone w (Some ErrWriteQueueFull))).

(** [writeOne] releases the frame whether or not the write succeeded; setting
    a deadline fails on a closed connection. *)
(* go: internal/transport/tcp/session.go:230-290 (writeBatch) *)
Inductive writer_step (s : session) : session -> Prop :=
| take w q :
    wr s = WWait -> queue s = w :: q ->
    writer_step s (mkSession q (senders s) (WTaken w) (cl s) (accepted s) (wire s) (lost s) (released s) (pinned s))
| see_done : wr s = WWait -> ctx_done (cl s) = true -> writer_step s (set_writer s WClosing)
| deadline_set w :
    wr s = WTaken w -> deadline = false \/ cl s <> ConnClosed -> writer_step s (set_writer s (WWriting w))
| deadline_fails w :
    wr s = WTaken w -> deadline = true -> cl s = ConnClosed ->
    writer_step s (mkSession (queue s) (senders s) WClosing (cl s) (accepted s) (wire s) (lost s ++ [w])
                     (released s) (frames [w] ++ pinned s))
| write_ok w :
    wr s = WWriting w ->
    writer_step s (mkSession (queue s) (senders s) (if buffered then WCheck else WWait) (cl s) (accepted s)
                     (wire s ++ [w]) (lost s) (released s ++ frames [w]) (pinned s))
| write_fails w :
    wr s = WWriting w ->
    writer_step s (mkSession (queue s) (senders s) WClosing (cl s) (accepted s) (wire s) (lost s ++ [w])
                     (released s ++ frames [w]) (pinned s))
| more : wr s = WCheck -> queue s <> [] -> writer_step s (set_writer s WReceive)
| no_more : wr s = WCheck -> queue s = [] -> writer_step s (set_writer s WFlush)
| receive w q :
    wr s = WReceive -> queue s = w :: q ->
    writer_step s (mkSession q (senders s) (WWriting w) (cl s) (accepted s) (wire s) (lost s) (released s) (pinned s))
| flush_ok : wr s = WFlush -> writer_step s (set_writer s WWait)
| flush_fails : wr s = WFlush -> writer_step s (set_writer s WClosing)
| writer_closed : wr s = WClosing -> cl s = ConnClosed -> writer_step s (set_writer s WDone).

(** [Close], by whichever caller comes first; the others wait for it. *)
(* go: internal/transport/tcp/session.go:193-205 (Close) *)
Inductive close_step (s : session) : session -> Prop :=
| close_begin : cl s = Open -> close_step s (set_closer s StateClosed)
| close_cancel : cl s = StateClosed -> close_step s (set_closer s Cancelled)
| close_release w q :
    cl s = Cancelled -> queue s = w :: q ->
    close_step s (mkSession q (senders s) (wr s) (cl s) (accepted s) (wire s) (lost s ++ [w])
                    (released s ++ frames [w]) (pinned s))
| close_released : cl s = Cancelled -> queue s = [] -> close_step s (set_closer s Released)
| close_conn : cl s = Released -> close_step s (set_closer s ConnClosed).

Inductive session_step (s : session) : session -> Prop :=
| by_sender s' : sender_step s s' -> session_step s s'
| by_writer s' : writer_step s s' -> session_step s s'
| by_closer s' : close_step s s' -> session_step s s'.

(** A new session, with the calls of [Send] and [SendShared] to come. *)
(* go: internal/transport/tcp/session.go:70-103 (newSession) *)
Definition newSession (calls : list (bool * pendingWrite)) : session :=
  mkSession [] ((fun c => SStart c.1 c.2) <$> calls) WWait Open [] [] [] [] [].

Definition reachable (calls : list (bool * pendingWrite)) (s : session) : Prop :=
  star session_step (newSession calls) s.

(** ** The invariant *)

(** The entry in the writer's hands. *)
Definition in_hand (x : writer) : list pendingWrite :=
  match x with WTaken w | WWriting w => [w] | _ => [] end.

(** The writer has given up. *)
Definition gave_up (x : writer) : bool := match x with WClosing | WDone => true | _ => false end.

(** The writer is in the part of a batch that only a write buffer has. *)
Definition batching (x : writer) : bool := match x with WCheck | WReceive | WFlush => true | _ => false end.

(** The entry of a call that returned nil. *)
Definition succeeded (x : sender) : list pendingWrite := match x with SDone w None => [w] | _ => [] end.

Record session_ok (s : session) : Prop := {
  so_sent : accepted s ≡ₚ senders s ≫= succeeded;
  so_cap : (length (queue s) <= cap)%nat;
  so_order : wire s ++ in_hand (wr s) ++ queue s `sublist_of` accepted s;
  so_places : accepted s ≡ₚ wire s ++ in_hand (wr s) ++ queue s ++ lost s;
  so_frames : frames (wire s ++ lost s) ≡ₚ released s ++ pinned s;
  so_lost : lost s <> [] -> ctx_done (cl s) = true \/ gave_up (wr s) = true;
  so_pinned : pinned s <> [] -> deadline = true /\ gave_up (wr s) = true /\ length (pinned s) = 1%nat;
  so_batching : batching (wr s) = true -> buffered = true
}.

Lemma frames_app l k : frames (l ++ k) = frames l ++ frames k.
Proof. apply omap_app. Qed.

(** A step that moves no entry. *)
Lemma session_ok_move s s' :
  session_ok s -> senders s' ≫= succeeded ≡ₚ senders s ≫= succeeded -> queue s' = queue s -> accepted s' = accepted s -> wire s' = wire s -> lost s' = lost s ->
  released s' = released s -> pinned s' = pinned s -> in_hand (wr s') = in_hand (wr s) ->
  (ctx_done (cl s) = true -> ctx_done (cl s') = true) -> (gave_up (wr s) = true -> gave_up (wr s') = true) ->
  (batching (wr s') = true -> buffered = true) -> session_ok s'.
Proof.
  intros [H0 H1 H2 H3 H4 H5 H6 H7] E0 E1 E2 E3 E4 E5 E6 Hh Hc Hg Hb.
  split; rewrite ?E1, ?E2, ?E3, ?E4, ?E5, ?E6, ?Hh; try done; rewrite ?E0; try done; naive_solver.
Qed.

Lemma sender_step_ok s s' : session_ok s -> sender_step s s' -> session_ok s'.
Proof.
  intros Hok Hs.
  assert (forall i x y, senders s !! i = Some x -> succeeded x = [] -> succeeded y = [] ->
    session_ok (set_sender s i y)) as Hmove.
  { intros i x y Hi Hx Hy. eapply session_ok_move; try done; [|apply Hok].
    destruct (bind_insert succeeded (senders s) i x y Hi) as (rest & E1 & E2).
    cbn. by rewrite E1, E2, Hx, Hy. }
  destruct Hs as [i b w Hi Hc|i b w Hi Hc|i w Hi Hp|i w Hi Hp|i w Hi Hp|i w Hi Hl|i w Hi Hc|i w Hi Hl Hc];
    try (eapply (Hmove i); [exact Hi|done|by try destruct b]);
    try (destruct Hi as [Hi|Hi]; eapply (Hmove i); [exact Hi|done|done|exact Hi|done|done]).
  clear Hmove. destruct Hok as [H0 H1 H2 H3 H4 H5 H6 H7]. split; cbn; try done.
  - destruct (bind_insert succeeded (senders s) i _ (SDone w None) Hi) as (rest & E1 & E2).
    by rewrite E2, H0, E1, (Permutation_app_comm _ [w]).
  - rewrite length_app. cbn. lia.
  - rewrite !app_assoc. rewrite app_assoc in H2. by apply sublist_app.
  - rewrite H3. rewrite <- !app_assoc. do 3 f_equiv. by rewrite Permutation_app_comm.
Qed.

(** Taking the head of the queue, or putting an entry where it goes. *)
Lemma close_step_ok s s' : session_ok s -> close_step s s' -> session_ok s'.
Proof.
  intros Hok Hs.
  assert (forall c, (ctx_done (cl s) = true -> ctx_done c = true) -> session_ok (set_closer s c)) as Hmove.
  { intros c Hc. eapply session_ok_move; try done. apply Hok. }
  destruct Hs as [E|E|w q E Hq|E Hq|E]; try (apply Hmove; by rewrite E).
  clear Hmove. destruct Hok as [H0 H1 H2 H3 H4 H5 H6 H7]. rewrite Hq in *. split; cbn; try done.
  - cbn in H1. lia.
  - etrans; [|exact H2]. apply sublist_app; [done|]. apply sublist_app; [done|]. by apply sublist_cons.
  - rewrite H3. do 2 f_equiv. cbn. by rewrite (Permutation_app_comm (lost s)), Permutation_middle.
  - rewrite app_assoc, frames_app, H4. rewrite <- !app_assoc. f_equiv. apply Permutation_app_comm.
  - intros _. left. by rewrite E.
Qed.

Lemma writer_step_ok s s' : session_ok s -> writer_step s s' -> session_ok s'.
Proof.
  intros Hok Hs.
  assert (forall x, in_hand (wr s) = in_hand x -> (gave_up (wr s) = true -> gave_up x = true) ->
    (batching x = true -> batching (wr s) = true) -> session_ok (set_writer s x)) as Hmove.
  { intros x Hx Hg Hb. eapply session_ok_move; try done. intros Hb'. by apply (so_batching _ Hok), Hb. }
  destruct Hs as [w q E Hq|E Hd|w E Hd|w E Hd Hc|w E|w E|E Hq|E Hq|w q E Hq|E|E|E Hc];
    try (apply Hmove; rewrite E; done); clear Hmove; destruct Hok as [H0 H1 H2 H3 H4 H5 H6 H7];
    rewrite E in *; cbn [in_hand] in *.
  - rewrite Hq in *. split; cbn in *; try done; lia || naive_solver.
  - assert (pinned s = []) as Hp by (destruct (pinned s); [done|]; by destruct (H6 ltac:(done)) as (_ & ? & _)).
    split; cbn; try done.
    + etrans; [|exact H2]. apply sublist_app; [done|]. cbn. by apply sublist_cons.
    + rewrite H3. f_equiv. cbn. rewrite app_assoc. by rewrite <- Permutation_cons_append.
    + rewrite app_assoc, frames_app, H4, Hp, !app_nil_r. done.
    + by right.
    + rewrite Hp. intros Hne. split; [done|]. split; [done|]. unfold frames in *. cbn in *. by destruct (frame w).
  - assert (pinned s = []) as Hp by (destruct (pinned s); [done|]; by destruct (H6 ltac:(done)) as (_ & ? & _)).
    split; cbn; rewrite ?Hp in *; try done.
    + by destruct buffered; rewrite <- app_assoc.
    + rewrite H3. destruct buffered; by rewrite <- app_assoc.
    + rewrite <- app_assoc, frames_app, !frames_app in *. rewrite app_nil_r in *. rewrite <- H4, <- app_assoc. f_equiv. apply Permutation_app_comm.
    + intros Hne. destruct (H5 Hne) as [?|?]; [by left|done].
    + by destruct buffered.
  - assert (pinned s = []) as Hp by (destruct (pinned s); [done|]; by destruct (H6 ltac:(done)) as (_ & ? & _)).
    split; cbn; rewrite ?Hp in *; try done.
    + etrans; [|exact H2]. apply sublist_app; [done|]. cbn. by apply sublist_cons.
    + rewrite H3. f_equiv. cbn. rewrite app_assoc. by rewrite <- Permutation_cons_append.
    + rewrite app_assoc, frames_app, H4, !app_nil_r. done.
    + by right.
  - rewrite Hq in *. split; cbn in *; try done; lia || naive_solver.
Qed.

Lemma newSession_ok calls : session_ok (newSession calls).
Proof.
  split; cbn; try done; [|lia]. by induction calls as [|c calls IH].
Qed.

Lemma reachable_session_ok calls s : reachable calls s -> session_ok s.
Proof.
  intros Hr. eapply (star_invariant session_step session_ok); [|exact Hr|apply newSession_ok].
  intros a b Ha [x Hs|x Hs|x Hs]; eauto using sender_step_ok, writer_step_ok, close_step_ok.
Qed.

(** C10: A session delivers in order and keeps account of every entry and every
    frame reference, whatever the interleaving of senders, writer and [Close]:
    the calls that returned nil are the entries accepted; what is written, in
    hand and queued are accepted entries in the order of acceptance, and all of
    them as long as nothing was lost, which takes a close or a failed write; the
    queue is bounded; and the reference of each accepted frame is released
    exactly once, unless the entry still waits or is the one the writer gave up
    because its deadline could not be set, which happens at most once and not
    without a write timeout. *)
Theorem session_delivery calls s :
  reachable calls s ->
  accepted s ≡ₚ senders s ≫= succeeded /\
  wire s ++ in_hand (wr s) ++ queue s `sublist_of` accepted s /\
  (lost s = [] -> wire s ++ in_hand (wr s) ++ queue s = accepted s) /\
  (lost s <> [] -> ctx_done (cl s) = true \/ gave_up (wr s) = true) /\
  (length (queue s) <= cap)%nat /\
  frames (accepted s) ≡ₚ released s ++ pinned s ++ frames (in_hand (wr s) ++ queue s) /\
  (length (pinned s) <= 1)%nat /\ (deadline = false -> pinned s = []).
Proof.
  intros Hr. destruct (reachable_session_ok calls s Hr) as [H0 H1 H2 H3 H4 H5 H6 H7].
  split; [done|]. split; [done|]. split.
  { intros Hl. rewrite Hl, app_nil_r in H3. apply sublist_same_length; [done|].
    by rewrite H3. }
  split; [done|]. split; [done|]. split; [|split].
  - rewrite app_assoc, <- H4. unfold frames. rewrite H3, !omap_app. rewrite <- !app_assoc. f_equiv.
    rewrite app_assoc. apply Permutation_app_comm.
  - destruct (pinned s) as [|n l]; [cbn; lia|]. destruct (H6 ltac:(done)) as (_ & _ & ->). done.
  - intros Hd. destruct (pinned s) as [|n l]; [done|]. destruct (H6 ltac:(done)) as (? & _). congruence.
Qed.

(** ** Winding down *)

Definition sender_weight (x : sender) : nat :=
  match x with SStart _ _ => 12 | SHigh _ => 11 | SEnqueue _ => 10 | SSelect _ => 9 | SDone _ _ => 0 end.
Definition writer_weight (x : writer) : nat :=
  match x with
  | WWait => 6 | WTaken _ => 13 | WWriting _ => 12 | WCheck => 10 | WReceive => 9 | WFlush => 8
  | WClosing => 1 | WDone => 0
  end.
Definition closer_weight (c : closer) : nat :=
  match c with Open => 4 | StateClosed => 3 | Cancelled => 2 | Released => 1 | ConnClosed => 0 end.

Definition work (s : session) : nat :=
  8 * length (queue s) + list_sum (map sender_weight (senders s)) + writer_weight (wr s) + closer_weight (cl s).

Lemma session_step_decreases s s' : session_step s s' -> (work s' < work s)%nat.
Proof.
  intros Hstep. unfold work. destruct Hstep as [s' Hs|s' Hs|s' Hs].
  - assert (forall i x y, senders s !! i = Some x -> (sender_weight y < sender_weight x)%nat ->
      (list_sum (map sender_weight (<[i := y]> (senders s))) < list_sum (map sender_weight (senders s)))%nat) as Hset.
    { intros i x y Hi Hw. pose proof (sum_insert sender_weight (senders s) i x y Hi). lia. }
    destruct Hs as [i b w Hi Hc|i b w Hi Hc|i w Hi Hp|i w Hi Hp|i w Hi Hp|i w Hi Hl|i w Hi Hc|i w Hi Hl Hc];
      cbn [set_sender queue senders wr cl].
    + pose proof (Hset i _ (SDone w (Some tcp_ErrSessionClosed)) Hi ltac:(cbn; lia)). lia.
    + pose proof (Hset i _ (if b then SEnqueue w else SHigh w) Hi ltac:(destruct b; cbn; lia)). lia.
    + destruct Hi as [Hi|Hi]; pose proof (Hset i _ (SDone w (Some ErrWriteQueueFull)) Hi ltac:(cbn; lia)); lia.
    + pose proof (Hset i _ (SEnqueue w) Hi ltac:(cbn; lia)). lia.
    + pose proof (Hset i _ (SSelect w) Hi ltac:(cbn; lia)). lia.
    + pose proof (sum_insert sender_weight (senders s) i _ (SDone w None) Hi). cbn [sender_weight] in *.
      rewrite length_app. cbn. lia.
    + pose proof (Hset i _ (SDone w (Some tcp_ErrSessionClosed)) Hi ltac:(cbn; lia)). lia.
    + pose proof (Hset i _ (SDone w (Some ErrWriteQueueFull)) Hi ltac:(cbn; lia)). lia.
  - destruct Hs as [w q E Hq|E Hd|w E Hd|w E Hd Hc|w E|w E|E Hq|E Hq|w q E Hq|E|E|E Hc];
      cbn [set_writer queue senders wr cl]; rewrite E, ?Hq; try destruct buffered; cbn; lia.
  - destruct Hs as [E|E|w q E Hq|E Hq|E]; cbn [set_closer queue senders wr cl]; rewrite E, ?Hq; cbn; lia.
Qed.

(** A session is finished when its calls have returned, the connection is
    closed and the write loop has returned. *)
Definition returned (x : sender) : Prop := match x with SDone _ _ => True | _ => False end.
#[local] Instance returned_dec (x : sender) : Decision (returned x).
Proof. destruct x; apply _. Defined.

Definition finished (s : session) : Prop :=
  Forall returned (senders s) /\ cl s = ConnClosed /\ wr s = WDone.

(** The write loop is in the receive of its drain, with nothing to receive. *)
Definition stuck (s : session) : Prop :=
  Forall returned (senders s) /\ cl s = ConnClosed /\ wr s = WReceive /\ queue s = [].

Lemma sender_moves s i x :
  senders s !! i = Some x -> ~ returned x -> exists s', session_step s s'.
Proof.
  intros Hi Hx. destruct x as [b w|w|w|w|w r]; [| | | |by destruct Hx].
  - destruct (decide (cl s = Open)); eexists; apply by_sender; [by eapply check_active|by eapply check_closed].
  - destruct (past_high_water highWater (Z.of_nat cap) (Z.of_nat (length (queue s)))) eqn:E;
      eexists; apply by_sender; [eapply high_refuse; eauto|by eapply high_pass].
  - destruct (past_high_water highWater (Z.of_nat cap) (Z.of_nat (length (queue s)))) eqn:E;
      eexists; apply by_sender; [eapply high_refuse; eauto|by eapply enqueue_pass].
  - destruct (ctx_done (cl s)) eqn:E; [eexists; apply by_sender; by eapply select_done|].
    destruct (decide (length (queue s) < cap)%nat); eexists; apply by_sender;
      [by eapply select_send|eapply select_full; [done|lia|done]].
Qed.

Lemma returned_no_step s s' : Forall returned (senders s) -> sender_step s s' -> False.
Proof.
  intros Hf Hs. assert (forall i x, senders s !! i = Some x -> returned x) as Hret by (by apply Forall_lookup).
  destruct Hs as [i b w Hi|i b w Hi|i w Hi|i w Hi|i w Hi|i w Hi|i w Hi|i w Hi];
    (destruct Hi as [Hi|Hi] || idtac); by apply Hret in Hi.
Qed.

Lemma closer_moves s : cl s <> ConnClosed -> exists s', session_step s s'.
Proof.
  intros Hc. destruct (cl s) eqn:E; [| | | |done].
  - eexists. apply by_closer. by apply close_begin.
  - eexists. apply by_closer. by apply close_cancel.
  - destruct (queue s) as [|w q] eqn:Eq; eexists; apply by_closer; [by apply close_released|by eapply close_release].
  - eexists. apply by_closer. by apply close_conn.
Qed.

Lemma writer_moves s :
  cl s = ConnClosed -> wr s <> WDone -> (wr s = WReceive -> queue s <> []) -> exists s', session_step s s'.
Proof.
  intros Hc Hw Hq. destruct (wr s) as [|w|w| | | | |] eqn:E; [| | | | | | |done].
  - eexists. apply by_writer, see_done; [done|by rewrite Hc].
  - destruct deadline eqn:Ed; eexists; apply by_writer; [by eapply deadline_fails|by eapply deadline_set; [|left]].
  - eexists. by eapply by_writer, write_ok.
  - destruct (queue s) as [|w q] eqn:Eq; eexists; apply by_writer; [by apply no_more|by apply more; [|rewrite Eq]].
  - destruct (queue s) as [|w q] eqn:Eq; [by destruct Hq|]. eexists. by eapply by_writer, receive.
  - eexists. by apply by_writer, flush_ok.
  - eexists. by apply by_writer, writer_closed.
Qed.

(** C11: Every execution of a session, with its calls and a [Close], is finite; one
    that cannot go on has closed the connection and returned from every call,
    and has returned from the write loop, except that with a write buffer the
    loop may be left in the receive of its drain.  Without a write buffer every
    session winds down. *)
Theorem session_winds_down calls s :
  reachable calls s ->
  Acc (fun b a => session_step a b) s /\
  forall s', star session_step s s' -> ~ (exists s'', session_step s' s'') ->
    finished s' \/ (buffered = true /\ stuck s').
Proof.
  intros Hr. split.
  - clear Hr. remember (work s) as k eqn:Ek. revert s Ek.
    induction k as [k IH] using lt_wf_ind. intros s ->. constructor. intros s' Hs.
    by eapply IH; [apply session_step_decreases|].
  - intros s' Hs Hno. pose proof (reachable_session_ok calls s' ltac:(by eapply star_trans)) as Hok.
    assert (Forall returned (senders s')) as Hf.
    { destruct (decide (Forall returned (senders s'))) as [|Hf]; [done|].
      apply not_Forall_Exists, Exists_exists in Hf as (x & Hin & Hx); [|apply _].
      apply list_elem_of_lookup in Hin as [i Hi]. destruct Hno. by eapply sender_moves. }
    assert (cl s' = ConnClosed) as Hc.
    { destruct (decide (cl s' = ConnClosed)) as [|Hc]; [done|]. destruct Hno. by apply closer_moves. }
    destruct (decide (wr s' = WDone)) as [Hw|Hw]; [by left|]. right.
    destruct (decide (wr s' = WReceive)) as [Hw'|Hw'].
    + split; [apply (so_batching _ Hok); by rewrite Hw'|]. do 3 (split; [done|]).
      destruct (queue s') eqn:Eq; [done|]. destruct Hno. apply writer_moves; [done|done|by rewrite Eq].
    + destruct Hno. by apply writer_moves.
Qed.
End session.

(** ** Two races of [Close] *)

Definition hello : pendingWrite := mkWrite [104; 105] None.
Definition broadcast : pendingWrite := mkWrite [104; 105] (Some 7%nat).

Ltac sess_step t := eapply star_step; [t|cbn].

(** Two messages, one written and one taken by [Close] under the writer. *)
Definition wedged : session :=
  mkSession [] [SDone hello None; SDone hello None] WReceive ConnClosed [hello; hello] [hello] [hello] [] [].

Lemma wedged_reachable cap highWater deadline :
  (2 <= cap)%nat -> past_high_water highWater (Z.of_nat cap) 0 = false ->
  reachable cap highWater true deadline [(false, hello); (false, hello)] wedged.
Proof.
  intros Hcap Hh0.
  unfold reachable, newSession. cbn.
  sess_step ltac:(apply by_sender; eapply (check_active _ _ _ 0); reflexivity).
  sess_step ltac:(apply by_sender; eapply (check_active _ _ _ 1); reflexivity).
  sess_step ltac:(apply by_sender; eapply (high_pass _ _ _ 0); [reflexivity|exact Hh0]).
  sess_step ltac:(apply by_sender; eapply (high_pass _ _ _ 1); [reflexivity|exact Hh0]).
  sess_step ltac:(apply by_sender; eapply (enqueue_pass _ _ _ 0); [reflexivity|exact Hh0]).
  sess_step ltac:(apply by_sender; eapply (enqueue_pass _ _ _ 1); [reflexivity|exact Hh0]).
  sess_step ltac:(apply by_sender; eapply (select_send _ _ _ 0); [reflexivity|cbn; lia]).
  sess_step ltac:(apply by_sender; eapply (select_send _ _ _ 1); [reflexivity|cbn; lia]).
  sess_step ltac:(apply by_writer; eapply take; reflexivity).
  sess_step ltac:(apply by_writer; eapply deadline_set; [reflexivity|by right]).
  sess_step ltac:(apply by_writer; eapply write_ok; reflexivity).
  sess_step ltac:(apply by_writer; apply more; done).
  sess_step ltac:(apply by_closer; by apply close_begin).
  sess_step ltac:(apply by_closer; by apply close_cancel).
  sess_step ltac:(apply by_closer; eapply close_release; reflexivity).
  sess_step ltac:(apply by_closer; by apply close_released).
  sess_step ltac:(apply by_closer; by apply close_conn).
  apply star_refl.
Qed.

(** A write loop with a write buffer can be left blocked for ever, and with it
    the wait for the connection when the server stops: [Close] takes the entry
    that the drain of [writeBatch] has just seen in the queue, and the receive
    that follows does not watch the context.  The comment there takes the write
    loop for the only receiver of the queue. *)
Theorem close_wedges_buffered_writer cap highWater deadline :
  (2 <= cap)%nat -> past_high_water highWater (Z.of_nat cap) 0 = false ->
  exists s, reachable cap highWater true deadline [(false, hello); (false, hello)] s /\ stuck s /\
    ~ exists s', session_step cap highWater true deadline s s'.
Proof.
  intros Hcap Hh0. exists wedged. split; [|split; [by repeat constructor|]].
  - by apply wedged_reachable.
  - intros (s' & [x Hs|x Hs|x Hs]).
    + by apply returned_no_step in Hs; [|repeat constructor].
    + by inversion Hs.
    + by inversion Hs.
Qed.

Lemma close_wedges_buffered_writer_witness :
  exists s, reachable 256 (fdiv (float_of_int 4) (float_of_int 5)) true true [(false, hello); (false, hello)] s /\
    stuck s.
Proof.
  destruct (close_wedges_buffered_writer 256 (fdiv (float_of_int 4) (float_of_int 5)) true) as (s & H1 & H2 & _);
    [lia|by vm_compute|]. by exists s.
Defined.

(** A shared frame enqueued after the release of the queue. *)
Definition pinning : session :=
  mkSession [broadcast] [SDone broadcast None] WDone ConnClosed [broadcast] [] [] [] [].

Lemma pinning_reachable cap highWater buffered deadline :
  (1 <= cap)%nat -> past_high_water highWater (Z.of_nat cap) 0 = false ->
  reachable cap highWater buffered deadline [(true, broadcast)] pinning.
Proof.
  intros Hcap Hh0.
  unfold reachable, newSession. cbn.
  sess_step ltac:(apply by_sender; eapply (check_active _ _ _ 0); reflexivity).
  sess_step ltac:(apply by_sender; eapply (enqueue_pass _ _ _ 0); [reflexivity|exact Hh0]).
  sess_step ltac:(apply by_closer; by apply close_begin).
  sess_step ltac:(apply by_closer; by apply close_cancel).
  sess_step ltac:(apply by_closer; by apply close_released).
  sess_step ltac:(apply by_closer; by apply close_conn).
  sess_step ltac:(apply by_writer; by apply see_done).
  sess_step ltac:(apply by_writer; by apply writer_closed).
  sess_step ltac:(apply by_sender; eapply (select_send _ _ _ 0); [reflexivity|cbn; lia]).
  apply star_refl.
Qed.

(** A shared frame can stay referenced for ever by a session that is closed and
    finished: a [SendShared] that has passed the state check enqueues after
    [Close] has released the queue, its [select] taking the send although the
    context is done, and reports success. *)
Theorem close_pins_shared_frame cap highWater buffered deadline :
  (1 <= cap)%nat -> past_high_water highWater (Z.of_nat cap) 0 = false ->
  exists s, reachable cap highWater buffered deadline [(true, broadcast)] s /\ finished s /\
    senders s = [SDone broadcast None] /\ frames (queue s) = [7%nat] /\ released s = [] /\
    ~ exists s', session_step cap highWater buffered deadline s s'.
Proof.
  intros Hcap Hh0. exists pinning. split; [|split; [by repeat constructor|]; split; [done|]; split; [done|]; split; [done|]].
  - by apply pinning_reachable.
  - intros (s' & [x Hs|x Hs|x Hs]).
    + by apply returned_no_step in Hs; [|repeat constructor].
    + by inversion Hs.
    + by inversion Hs.
Qed.

Lemma close_pins_shared_frame_witness :
  exists s, reachable 1 (fdiv (float_of_int 4) (float_of_int 5)) false true [(true, broadcast)] s /\
    finished s /\ frames (queue s) = [7%nat].
Proof.
  destruct (close_pins_shared_frame 1 (fdiv (float_of_int 4) (float_of_int 5)) false true) as (s & H1 & H2 & _ & H3 & _);
    [lia|by vm_compute|]. by exists s.
Defined.


Lemma session_delivery_witness :
  (length (queue wedged) <= 2)%nat /\ (length (pinned wedged) <= 1)%nat.
Proof.
  pose proof (session_delivery 2 f0 true false _ wedged (wedged_reachable 2 f0 false ltac:(lia) ltac:(by vm_compute))) as H.
  split; apply H.
Defined.

Lemma session_winds_down_witness : Acc (fun b a => session_step 1 f0 false false a b) pinning.
Proof.
  apply (session_winds_down 1 f0 false false [(true, broadcast)] pinning).
  apply pinning_reachable; [lia|by vm_compute].
Defined.
