(* ===== verification/UdpServer.v ===== *)
(** * UdpServer: [internal/transport/udp]

    The session table of the datagram server: one session per peer key under an
    admission quota, created by the read loop, reaped when found closed, removed
    by message errors, the idle sweep and [CloseSessions]; and the sessions of
    DTLS connections, keyed by their id.  The session manager is the sharded one
    of [SessionManager], the quota that of [Quota].

    A handler is one function, and also a sequence of steps: the theorem on runs
    interleaves the steps of the read loop with the visits of the sweep and of
    [CloseSessions] and with everything else.  A visit's load of an entry and its
    removal are one step there; what happens when the read loop comes between the
    two is the subject of the last theorem. *)
From S2P Require Import Prelude Bytes Core Shared PeerAddr Quota.
From S2P Require SessionManager.
Local Open Scope Z_scope.
Local Open Scope list_scope.

Abbreviation Manager := SessionManager.SessionManager.
Abbreviation mgr_Get := SessionManager.Get.

(** ** Options *)

(* go: internal/transport/udp/options.go:10-34 (Options) *)
Record Options : Type := mkOptions {
  SessionTTL : Z;
  SweepInterval : Z;
  MaxDatagram : Z;
  DTLSReadBufferBytes : Z;
  TLSConfig : bool;
  MaxSessions : Z;
  MaxSessionsPerPeer : Z
}.

Definition second : Z := 1000000000.

(* go: internal/transport/udp/options.go:38-46 (defaultOptions) *)
Definition defaultOptions : Options :=
  mkOptions (2 * 60 * second) (30 * second) (64 * 1024) (16 * 1024) false 0 0.

(* go: internal/transport/udp/options.go:60-64 (WithMaxSessions) *)
Definition WithMaxSessions (mx : Z) (o : Options) : Options :=
  mkOptions (SessionTTL o) (SweepInterval o) (MaxDatagram o) (DTLSReadBufferBytes o) (TLSConfig o) mx (MaxSessionsPerPeer o).

(* go: internal/transport/udp/options.go:66-70 (WithMaxSessionsPerPeer) *)
Definition WithMaxSessionsPerPeer (mx : Z) (o : Options) : Options :=
  mkOptions (SessionTTL o) (SweepInterval o) (MaxDatagram o) (DTLSReadBufferBytes o) (TLSConfig o) (MaxSessions o) mx.

(* go: internal/transport/udp/options.go:72-78 (WithSessionTTL) *)
Definition WithSessionTTL (ttl : Z) (o : Options) : Options :=
  if 0 <? ttl then
    mkOptions ttl (SweepInterval o) (MaxDatagram o) (DTLSReadBufferBytes o) (TLSConfig o) (MaxSessions o) (MaxSessionsPerPeer o)
  else o.

(* go: internal/transport/udp/options.go:80-86 (WithSweepInterval) *)
Definition WithSweepInterval (interval : Z) (o : Options) : Options :=
  if 0 <? interval then
    mkOptions (SessionTTL o) interval (MaxDatagram o) (DTLSReadBufferBytes o) (TLSConfig o) (MaxSessions o) (MaxSessionsPerPeer o)
  else o.

(* go: internal/transport/udp/options.go:94-103 (WithDTLSReadBufferBytes) *)
Definition WithDTLSReadBufferBytes (size : Z) (o : Options) : Options :=
  if 0 <? size then
    mkOptions (SessionTTL o) (SweepInterval o) (MaxDatagram o) size (TLSConfig o) (MaxSessions o) (MaxSessionsPerPeer o)
  else o.

(* go: internal/transport/udp/server.go:156-163 (dtlsReadBufferSize) *)
Definition dtlsReadBufferSize (o : Options) : Z :=
  if 0 <? DTLSReadBufferBytes o then DTLSReadBufferBytes o else MaxDatagram o.

(** ** Sessions *)

#[export] Instance PeerKey_countable : Countable PeerKey.
Proof.
  apply (inj_countable' (fun k => (pk_addr k, pk_port k, pk_zone k)) (fun x => mkPeerKey x.1.1 x.1.2 x.2)).
  by intros [].
Defined.

(** The key of the table: the peer of a datagram, the id of a DTLS session. *)
Abbreviation Key := (PeerKey + Z)%type.

(** A session object is known by its id, which no other one has.  [s_release] is
    the peer whose slot it returns. *)
(* go: internal/transport/udp/session.go:14-37 (session) *)
Record session : Type := mkSession {
  s_id : Z;
  s_dtls : bool;
  s_key : Key;
  s_release : option Addr
}.

#[export] Instance session_eq_dec : EqDecision session.
Proof. solve_decision. Defined.

(** What closing a session changes: the sessions in the closed state, the DTLS
    connections closed, and the quota. *)
Record World : Type := mkWorld {
  closed : gset Z;
  conn_closed : gset Z;
  quota : option PeerQuota
}.

(** [closeOnce]: only the first call acts. *)
(* go: internal/transport/udp/session.go:103-116 (Close) *)
Definition Close (sess : session) (w : World) : World :=
  if decide (s_id sess ∈ closed w) then w
  else
    mkWorld ({[s_id sess]} ∪ closed w)
      (if s_dtls sess then {[s_id sess]} ∪ conn_closed w else conn_closed w)
      (match s_release sess, quota w with
       | Some ip, Some q => Some (Release ip q)
       | _, q => q
       end).

(** The write is refused once the session is closed; [write] is the socket. *)
(* go: internal/transport/udp/session.go:91-101 (Send) *)
Definition Send (write : session -> bytes -> option error) (sess : session) (payload : bytes) (w : World) :
    option error :=
  if decide (s_id sess ∈ closed w) then Some ErrSessionClosed else write sess payload.

(** User code that closes sessions, by id, among those the server has made. *)
Definition close_ids (objs : gmap Z session) (ids : list Z) (w : World) : World :=
  fold_left (fun w id => match objs !! id with Some s => Close s w | None => w end) ids w.

(** The plugin calls that completed: an accepted session, a delivered OnClose. *)
Inductive event : Type :=
| EvAccept (id : Z)
| EvClose (id : Z).

#[export] Instance event_eq_dec : EqDecision event.
Proof. solve_decision. Defined.

Section server.
(** [U] is the state of user code: the plugins and the handler. *)
Context {U : Type} {Hr : MapRange Key}.

(** [objs] are the session objects made so far, [live] the DTLS goroutines in
    their read loop. *)
(* go: internal/transport/udp/server.go:18-31 (Server) *)
Record Server : Type := mkServer {
  sessions : gmap Key session;
  dtlsConns : gset Z;
  live : gset Z;
  activeAt : gmap Z Z;
  mgr : Manager;
  objs : gmap Z session;
  world : World;
  user : U;
  log : list event;
  metrics : list metric_call
}.

Definition set_sessions (s : Server) x := mkServer x (dtlsConns s) (live s) (activeAt s) (mgr s) (objs s) (world s) (user s) (log s) (metrics s).
Definition set_conns (s : Server) x y := mkServer (sessions s) x y (activeAt s) (mgr s) (objs s) (world s) (user s) (log s) (metrics s).
Definition set_activeAt (s : Server) x := mkServer (sessions s) (dtlsConns s) (live s) x (mgr s) (objs s) (world s) (user s) (log s) (metrics s).
Definition set_mgr (s : Server) x := mkServer (sessions s) (dtlsConns s) (live s) (activeAt s) x (objs s) (world s) (user s) (log s) (metrics s).
Definition set_objs (s : Server) x := mkServer (sessions s) (dtlsConns s) (live s) (activeAt s) (mgr s) x (world s) (user s) (log s) (metrics s).
Definition set_world (s : Server) x := mkServer (sessions s) (dtlsConns s) (live s) (activeAt s) (mgr s) (objs s) x (user s) (log s) (metrics s).
Definition set_user (s : Server) x := mkServer (sessions s) (dtlsConns s) (live s) (activeAt s) (mgr s) (objs s) (world s) x (log s) (metrics s).
Definition add_log (s : Server) l := mkServer (sessions s) (dtlsConns s) (live s) (activeAt s) (mgr s) (objs s) (world s) (user s) (log s ++ l) (metrics s).
Definition add_metrics (s : Server) l := mkServer (sessions s) (dtlsConns s) (live s) (activeAt s) (mgr s) (objs s) (world s) (user s) (log s) (metrics s ++ l).

(** User code: the plugin chain and the handler.  A call answers, changes its
    own state, and closes any sessions it likes (the list of ids). *)
Variable OnAccept : session -> U -> option error * list Z * U.
Variable OnMessage : session -> bytes -> U -> bytes * option error * list Z * U.
Variable OnClose : session -> U -> list Z * U.
Variable Handler : option (session -> bytes -> U -> outcome (option error) * list Z * U).
Variable opts : Options.
(** [rt.Metrics()] is not nil. *)
Variable observed : bool.
(** [netip.ParseAddrPort] and [netip.ParseAddr], which [PeerIP] does not need
    for a UDP address. *)
Variable ParseAddrPort ParseAddr : string -> option Addr.

(** Back from user code. *)
Definition after_call (ids : list Z) (u : U) (s : Server) : Server :=
  set_user (set_world s (close_ids (objs s) ids (world s))) u.

(* go: internal/transport/udp/server.go:423-431 (closeSession) *)
Definition closeSession (key : Key) (sess : session) (s : Server) : bool * Server :=
  match sessions s !! key with
  | None => (false, s)
  | Some _ =>
      let s := set_sessions s (delete key (sessions s)) in
      let s := set_mgr s (SessionManager.Unregister (s_id sess) (mgr s)).2 in
      let s := set_world s (Close sess (world s)) in
      let '(ids, u) := OnClose sess (user s) in
      (true, after_call ids u (add_log s [EvClose (s_id sess)]))
  end.

(** A session object with a new id. *)
(* go: internal/transport/udp/session.go:39-70 (newSession) *)
Definition new_session (dtls : bool) (key : Z -> Key) (release : option Addr) (now : Z) (s : Server) :
    session * Server :=
  let '(id, m) := SessionManager.NextID (mgr s) in
  let sess := mkSession id dtls (key id) release in
  (sess, set_activeAt (set_objs (set_mgr s m) (<[id := sess]> (objs s))) (<[id := now]> (activeAt s))).

(** The handle the session manager keeps: a datagram session has no SendShared. *)
Definition handle (sess : session) : SessionManager.Session := SessionManager.mkSession (s_id sess) false.

(** [LoadOrStore] always stores: the read loop is the only goroutine that adds
    peer keys, and it found none. *)
(* go: internal/transport/udp/server.go:362-421 (getOrCreateSession) *)
Definition getOrCreateSession (addr : bytes * Z * string) (now : Z) (s : Server) : option session * Server :=
  let key : Key := inl (NewPeerKey (Some addr)) in
  let '(found, s) :=
    match sessions s !! key with
    | None => (None, s)
    | Some sess =>
        if decide (s_id sess ∈ closed (world s)) then (None, (closeSession key sess s).2) else (Some sess, s)
    end in
  match found with
  | Some sess => (Some sess, s)
  | None =>
      let ip := PeerIP ParseAddrPort ParseAddr (UDPAddr addr.1.1 addr.1.2 addr.2) in
      let '(admitted, release, s) :=
        match quota (world s) with
        | None => (true, None, s)
        | Some q =>
            let '(ok, q) := TryAcquire ip q in
            (ok, Some ip, set_world s (mkWorld (closed (world s)) (conn_closed (world s)) (Some q)))
        end in
      if negb admitted then
        (None, add_metrics s (IncProtocolCounter observed MetricSessionsRejected ProtocolUDP))
      else
        let '(sess, s) := new_session false (fun _ => key) release now s in
        let s := set_sessions s (<[key := sess]> (sessions s)) in
        match SessionManager.Register (Some (handle sess)) (mgr s) with
        | (Some _, _) =>
            let s := set_sessions s (delete key (sessions s)) in
            (None, set_world s (Close sess (world s)))
        | (None, m) =>
            let s := set_mgr s m in
            let '(err, ids, u) := OnAccept sess (user s) in
            let s := after_call ids u s in
            match err with
            | Some _ =>
                let s := set_sessions s (delete key (sessions s)) in
                let s := set_mgr s (SessionManager.Unregister (s_id sess) (mgr s)).2 in
                (None, set_world s (Close sess (world s)))
            | None => (Some sess, add_log s [EvAccept (s_id sess)])
            end
        end
  end.

(** The handler call of both read loops. *)
Definition call_handler (h : session -> bytes -> U -> outcome (option error) * list Z * U) (sess : session)
    (payload : bytes) (s : Server) : option error * Server :=
  let '(err, calls, s) :=
    CallHandlerObserved observed ProtocolUDP
      (fun s => let '(r, ids, u) := h sess payload (user s) in (r, after_call ids u s)) s in
  (err, add_metrics s calls).

(** One datagram. *)
(* go: internal/transport/udp/server.go:310-333 (readLoop) *)
Definition receive (addr : bytes * Z * string) (payload : bytes) (now : Z) (s : Server) : Server :=
  match getOrCreateSession addr now s with
  | (None, s) => s
  | (Some sess, s) =>
      let s := set_activeAt s (<[s_id sess := now]> (activeAt s)) in
      let '(payload, err, ids, u) := OnMessage sess payload (user s) in
      let s := after_call ids u s in
      match err with
      | Some err => if errors_Is err ErrPluginDrop then s else (closeSession (s_key sess) sess s).2
      | None =>
          match Handler with
          | None => s
          | Some h =>
              match call_handler h sess payload s with
              | (Some _, s) => (closeSession (s_key sess) sess s).2
              | (None, s) => s
              end
          end
      end
  end.

(** The sweep's test of an entry. *)
Definition idle (now : Z) (sess : session) (s : Server) : bool :=
  SessionTTL opts <? now - default 0 (activeAt s !! s_id sess).

(** Removing an idle entry. *)
Definition sweep_close (key : Key) (sess : session) (s : Server) : Server :=
  match closeSession key sess s with
  | (true, s) => add_metrics s (IncProtocolCounter observed MetricSessionsReclaimed ProtocolUDP)
  | (false, s) => s
  end.

(* go: internal/transport/udp/server.go:342-356 (sweepLoop) *)
Definition sweep (now : Z) (s : Server) : Server :=
  fold_left (fun s ks => if idle now ks.2 s then sweep_close ks.1 ks.2 s else s) (map_range (sessions s)) s.

(* go: internal/transport/udp/server.go:138-144 (CloseSessions) *)
Definition CloseSessions (s : Server) : Server :=
  fold_left (fun s ks => (closeSession ks.1 ks.2 s).2) (map_range (sessions s)) s.

(* go: internal/transport/udp/server.go:165-172 (SessionCount) *)
Definition SessionCount (s : Server) : Z := len (map_range (sessions s)).

(** ** DTLS connections *)

(** The deferred function. *)
(* go: internal/transport/udp/server.go:219-237 (handleDTLSConn) *)
Definition dtls_finish (sess : session) (accepted : bool) (s : Server) : Server :=
  let id := s_id sess in
  let s := set_world s (Close sess (world s)) in
  let s := set_conns s (dtlsConns s ∖ {[id]}) (live s ∖ {[id]}) in
  match sessions s !! inr id with
  | None => s
  | Some _ =>
      let s := set_sessions s (delete (inr id) (sessions s)) in
      let s := set_mgr s (SessionManager.Unregister id (mgr s)).2 in
      if accepted then
        let '(ids, u) := OnClose sess (user s) in after_call ids u (add_log s [EvClose id])
      else s
  end.

(** A connection up to its read loop. *)
(* go: internal/transport/udp/server.go:210-247 (handleDTLSConn) *)
Definition dtls_open (now : Z) (s : Server) : Server :=
  let '(sess, s) := new_session true inr None now s in
  let id := s_id sess in
  let s := set_sessions s (<[inr id := sess]> (sessions s)) in
  let s := set_conns s ({[id]} ∪ dtlsConns s) (live s) in
  match SessionManager.Register (Some (handle sess)) (mgr s) with
  | (Some _, _) => dtls_finish sess false (set_world s (Close sess (world s)))
  | (None, m) =>
      let s := set_mgr s m in
      let '(err, ids, u) := OnAccept sess (user s) in
      let s := after_call ids u s in
      match err with
      | Some _ => dtls_finish sess false (set_world s (Close sess (world s)))
      | None => set_conns (add_log s [EvAccept id]) (dtlsConns s) ({[id]} ∪ live s)
      end
  end.

(** What one turn of the read loop meets. *)
Inductive read_result : Type :=
| ReadDone                       (** the context is cancelled, or the deadline cannot be set *)
| ReadErr (timeout : bool)
| ReadData (payload : bytes).

(* go: internal/transport/udp/server.go:250-287 (handleDTLSConn) *)
Definition dtls_turn (sess : session) (r : read_result) (now : Z) (s : Server) : Server :=
  match r with
  | ReadDone => dtls_finish sess true s
  | ReadErr timeout =>
      let s := if timeout then add_metrics s (IncProtocolCounter observed MetricSessionsReclaimed ProtocolUDP) else s in
      dtls_finish sess true s
  | ReadData payload =>
      let s := set_activeAt s (<[s_id sess := now]> (activeAt s)) in
      let '(payload, err, ids, u) := OnMessage sess payload (user s) in
      let s := after_call ids u s in
      match err with
      | Some err => if errors_Is err ErrPluginDrop then s else set_world s (Close sess (world s))
      | None =>
          match Handler with
          | None => s
          | Some h =>
              match call_handler h sess payload s with
              | (Some _, s) => set_world s (Close sess (world s))
              | (None, s) => s
              end
          end
      end
  end.

(** The connections are closed at their sockets; their goroutines see a read
    error and finish. *)
(* go: internal/transport/udp/server.go:97-119 (StopAccept) *)
Definition StopAccept (s : Server) : Server :=
  let w := world s in set_world s (mkWorld (closed w) (dtlsConns s ∪ conn_closed w) (quota w)).

(* go: internal/transport/udp/server.go:47-57 (Start) *)
Definition Start (m : Manager) (u : U) : Server :=
  let q :=
    if (0 <? MaxSessions opts) || (0 <? MaxSessionsPerPeer opts)
    then Some (NewPeerQuota (MaxSessions opts) (MaxSessionsPerPeer opts)) else None in
  mkServer ∅ ∅ ∅ ∅ m ∅ (mkWorld ∅ ∅ q) u [] [].

(** ** The invariant *)

(** The slots held: those of the sessions made and not closed. *)
Definition slot (cl : gset Z) (io : Z * session) : list Addr :=
  if decide (io.1 ∈ cl) then [] else option_list (s_release io.2).
Definition held (ob : gmap Z session) (cl : gset Z) : list Addr := map_to_list ob ≫= slot cl.

Lemma held_delete ob cl id o :
  ob !! id = Some o -> held ob cl ≡ₚ slot cl (id, o) ++ held (delete id ob) cl.
Proof.
  intros H. unfold held. rewrite <- (insert_delete_id ob id o H) at 1.
  by rewrite map_to_list_insert by apply lookup_delete_eq.
Qed.

Lemma held_other ob cl id : ob !! id = None -> held ob ({[id]} ∪ cl) = held ob cl.
Proof.
  intros H. unfold held. assert (Forall (fun io => io.1 <> id) (map_to_list ob)) as Hf.
  { apply Forall_forall. intros [j o] Hj%elem_of_map_to_list. cbn. congruence. }
  induction Hf as [|[j o] l Hj _ IH]; csimpl; [done|]. rewrite IH. f_equal. unfold slot. cbn [fst] in *.
  destruct (decide (j ∈ cl)); [by rewrite decide_True by set_solver|by rewrite decide_False by set_solver].
Qed.

Lemma held_insert ob cl id o :
  ob !! id = None -> held (<[id := o]> ob) cl ≡ₚ slot cl (id, o) ++ held ob cl.
Proof.
  intros H. rewrite (held_delete _ cl id o) by apply lookup_insert_eq. by rewrite delete_insert_id.
Qed.

Lemma held_close ob cl id o :
  ob !! id = Some o -> id ∉ cl -> held ob cl ≡ₚ option_list (s_release o) ++ held ob ({[id]} ∪ cl).
Proof.
  intros H Hc. rewrite (held_delete ob cl id o H), (held_delete ob ({[id]} ∪ cl) id o H).
  unfold slot. cbn [fst snd]. rewrite decide_False by done. rewrite decide_True by set_solver. cbn [app].
  rewrite held_other by apply lookup_delete_eq. done.
Qed.

Lemma held_length ob cl : (length (held ob cl) <= size ob)%nat.
Proof.
  rewrite <- length_map_to_list. unfold held. induction (map_to_list ob) as [|[i o] l IH]; csimpl; [done|].
  assert (length (slot cl (i, o)) <= 1)%nat
    by (unfold slot; cbn [fst snd]; destruct (decide _); [cbn; lia|destruct (s_release o); cbn; lia]).
  rewrite length_app. unfold mbind in IH |- *. lia.
Qed.

(** The quota counts exactly the slots held, within the limits; without a quota
    no session has a slot. *)
Definition slots_ok (ob : gmap Z session) (w : World) : Prop :=
  match quota w with
  | Some q =>
      holds q (held ob (closed w)) /\ maxTotal q = MaxSessions opts /\ maxPeer q = MaxSessionsPerPeer opts /\
      within (MaxSessions opts) (MaxSessionsPerPeer opts) (held ob (closed w))
  | None => map_Forall (fun _ o => s_release o = None) ob
  end.

Definition bounded (n : Z) : Prop := 0 <= n < max_int64.

Definition keyed (ob : gmap Z session) : Prop := map_Forall (fun id o => s_id o = id) ob.

Lemma Close_slots ob o w :
  ob !! s_id o = Some o -> bounded (Z.of_nat (size ob)) -> slots_ok ob w -> slots_ok ob (Close o w).
Proof.
  intros Ho Hb Hs. unfold Close. destruct (decide _) as [|Hc]; [done|]. unfold slots_ok in *. cbn [quota closed].
  pose proof (held_close ob (closed w) (s_id o) o Ho Hc) as Hp.
  destruct (quota w) as [q|]; [|by destruct (s_release o)]. destruct Hs as (Hq & Et & Ep & Hw).
  destruct (s_release o) as [ip|]; cbn [option_list app] in Hp.
  - assert (ip ∈ held ob (closed w)) as Hin by (rewrite Hp; left).
    destruct (Release_holds ip q _ Hq Hin) as (E1 & E2 & Hq').
    { rewrite (h_total _ _ Hq). pose proof (held_length ob (closed w)). unfold bounded in Hb. lia. }
    assert (remove_one ip (held ob (closed w)) ≡ₚ held ob ({[s_id o]} ∪ closed w)) as Hp'.
    { apply (Permutation_cons_inv (a := ip)). rewrite <- Hp. symmetry. by apply remove_one_perm. }
    rewrite <- Hp'. split; [done|]. split; [congruence|]. split; [congruence|]. by apply within_remove.
  - rewrite <- Hp. done.
Qed.

Lemma Close_closed o w : closed (Close o w) = {[s_id o]} ∪ closed w.
Proof. unfold Close. destruct (decide _); [set_solver|done]. Qed.

(** How often a call completed. *)
Definition times (e : event) (l : list event) : nat := length (List.filter (fun x => bool_decide (x = e)) l).

Lemma times_app e l l' : times e (l ++ l') = (times e l + times e l')%nat.
Proof. unfold times. by rewrite List.filter_app, length_app. Qed.
Lemma times_one e e' : times e [e'] = if decide (e' = e) then 1%nat else 0%nat.
Proof.
  unfold times. cbn [List.filter]. destruct (decide (e' = e)) as [E|E].
  - by rewrite bool_decide_eq_true_2.
  - by rewrite bool_decide_eq_false_2.
Qed.

(** The calls a session has seen: accepted once and not yet closed while it is in
    the table; afterwards one OnClose if it was accepted. *)
Definition calls_ok (tab : gmap Key session) (lg : list event) (cl : gset Z) (o : session) : Prop :=
  let acc := times (EvAccept (s_id o)) lg in
  let cls := times (EvClose (s_id o)) lg in
  if decide (tab !! s_key o = Some o) then acc = 1%nat /\ cls = 0%nat
  else cls = acc /\ (acc <= 1)%nat /\ s_id o ∈ cl.

Lemma calls_in tab lg cl o :
  calls_ok tab lg cl o -> tab !! s_key o = Some o ->
  times (EvAccept (s_id o)) lg = 1%nat /\ times (EvClose (s_id o)) lg = 0%nat.
Proof. unfold calls_ok. intros H E. by rewrite decide_True in H. Qed.

(** [X] is the session being set up, if any: it may be in the table without
    being registered or accepted. *)
Record inv (X : option Z) (s : Server) : Prop := {
  i_shards : length (SessionManager.shards (mgr s)) = Z.to_nat SessionManager.sessionShards;
  i_keyed : keyed (objs s);
  i_next : bounded (SessionManager.nextID (mgr s));
  i_size : Z.of_nat (size (objs s)) <= SessionManager.nextID (mgr s);
  i_old : forall id, is_Some (objs s !! id) \/ id ∈ closed (world s) \/ is_Some (mgr_Get id (mgr s)) \/ id ∈ live s ->
    id <= SessionManager.nextID (mgr s);
  i_known : forall id, ~ is_Some (objs s !! id) -> times (EvAccept id) (log s) = 0%nat /\ times (EvClose id) (log s) = 0%nat;
  i_tab : map_Forall (fun k o => objs s !! s_id o = Some o /\ s_key o = k) (sessions s);
  i_reg : forall id o, objs s !! id = Some o -> X <> Some id ->
    (is_Some (mgr_Get id (mgr s)) <-> sessions s !! s_key o = Some o);
  i_calls : forall id o, objs s !! id = Some o -> X <> Some id -> calls_ok (sessions s) (log s) (closed (world s)) o;
  i_fresh : forall id, X = Some id -> times (EvAccept id) (log s) = 0%nat /\ times (EvClose id) (log s) = 0%nat;
  i_slots : slots_ok (objs s) (world s);
  i_live : forall id, id ∈ live s -> exists o, objs s !! id = Some o /\ s_dtls o = true /\ s_key o = inr id /\ X <> Some id;
  i_conns : forall id, id ∈ live s -> id ∈ dtlsConns s;
  i_inr : map_Forall (fun id o => forall j, s_key o = inr j -> j = id) (objs s)
}.

Lemma inv_size X s : inv X s -> bounded (Z.of_nat (size (objs s))).
Proof. intros H. pose proof (i_size _ _ H). pose proof (i_next _ _ H) as Hn. unfold bounded in *. lia. Qed.

(** Closing changes the world only. *)
Lemma inv_Close X s o :
  inv X s -> objs s !! s_id o = Some o -> inv X (set_world s (Close o (world s))).
Proof.
  intros H Ho. assert (Hs : slots_ok (objs s) (Close o (world s)))
    by (apply Close_slots; [done|by eapply inv_size|apply H]).
  destruct H as [H1 H2 H3 H4 H5 H6 H7 H8 H9 H10 H11 H12 H13 H14].
  split; try done; cbn [set_world mgr objs world live log sessions dtlsConns].
  - intros id Hid. rewrite Close_closed in Hid. destruct (decide (id = s_id o)) as [->|]; [by eauto|].
    apply H5. set_solver.
  - intros id o' Ho' HX. specialize (H9 id o' Ho' HX). unfold calls_ok in *.
    destruct (decide _); [done|]. rewrite Close_closed. set_solver.
Qed.

Lemma close_ids_step ob id ids w :
  close_ids ob (id :: ids) w =
  close_ids ob ids (match ob !! id with Some o => Close o w | None => w end).
Proof. done. Qed.

Lemma inv_set_user X s u : inv X s -> inv X (set_user s u).
Proof. intros []. by split. Qed.

Lemma inv_set_world_id X s : inv X s -> inv X (set_world s (world s)).
Proof. intros []. by split. Qed.

Lemma inv_after_call X s ids u : inv X s -> inv X (after_call ids u s).
Proof.
  intros H. unfold after_call. apply inv_set_user. revert s H. induction ids as [|id ids IH]; intros s H.
  - by apply inv_set_world_id.
  - rewrite close_ids_step. destruct (objs s !! id) as [o|] eqn:E.
    + assert (objs s !! s_id o = Some o) as Ho by (by rewrite (i_keyed _ _ H id o E)).
      exact (IH (set_world s (Close o (world s))) (inv_Close X s o H Ho)).
    + by apply IH.
Qed.

(** ** The operations preserve it *)

Lemma tab_same X s k k' o : inv X s -> sessions s !! k = Some o -> sessions s !! k' = Some o -> k = k'.
Proof. intros H E E'. apply (i_tab _ _ H) in E as [_ <-], E' as [_ <-]. done. Qed.

(** Taking a session out: the entry goes, the manager forgets it, it is closed;
    an accepted one gets its OnClose. *)
Lemma inv_out X s o m e :
  inv X s -> sessions s !! s_key o = Some o ->
  X = None /\ e = [EvClose (s_id o)] \/ X = Some (s_id o) /\ e = [] ->
  length (SessionManager.shards m) = length (SessionManager.shards (mgr s)) ->
  SessionManager.nextID m = SessionManager.nextID (mgr s) ->
  (forall id, mgr_Get id m = if decide (id = s_id o) then None else mgr_Get id (mgr s)) ->
  inv None (add_log (set_world (set_mgr (set_sessions s (delete (s_key o) (sessions s))) m) (Close o (world s))) e).
Proof.
  intros H0 Ht He Hl Hn Hg. destruct (i_tab _ _ H0 _ _ Ht) as [Ho _].
  pose proof (inv_Close X s o H0 Ho) as H. pose proof (Close_closed o (world s)) as Hc.
  set (w := Close o (world s)) in *. clearbody w. clear H0.
  assert (forall id, id <> s_id o -> times (EvAccept id) (log s ++ e) = times (EvAccept id) (log s) /\
    times (EvClose id) (log s ++ e) = times (EvClose id) (log s)) as Hlog.
  { intros id Hid. destruct He as [[_ ->]|[_ ->]]; [|by rewrite app_nil_r].
    rewrite !times_app, !times_one. rewrite !(decide_False (P := EvClose _ = _)) by congruence. lia. }
  assert (forall o', objs s !! s_id o' = Some o' -> s_id o' <> s_id o ->
    (delete (s_key o) (sessions s) !! s_key o' = Some o' <-> sessions s !! s_key o' = Some o')) as Hd.
  { intros o' Ho' Hne. destruct (decide (s_key o' = s_key o)) as [E|E].
    - rewrite E, lookup_delete_eq, Ht. split; [done|]. intros [= ->]. done.
    - by rewrite lookup_delete_ne. }
  destruct H as [H1 H2 H3 H4 H5 H6 H7 H8 H9 H10 H11 H12 H13 H14].
  cbn [set_world mgr objs world live log sessions dtlsConns] in *.
  split; try done; cbn [add_log set_world set_mgr set_sessions mgr objs world live log sessions dtlsConns].
  - by rewrite Hl.
  - by rewrite Hn.
  - by rewrite Hn.
  - intros id Hid. rewrite Hn. apply H5. rewrite Hg in Hid.
    destruct (decide (id = s_id o)) as [->|]; [left; by eexists|done].
  - intros id Hid. destruct (Hlog id) as [-> ->]; [|by apply H6]. intros ->. apply Hid. by eexists.
  - intros k o' Hk. apply lookup_delete_Some in Hk as [_ Hk]. by apply H7.
  - intros id o' Ho' _. rewrite Hg. pose proof (H2 _ _ Ho') as Hid. cbn in Hid. subst id.
    destruct (decide (s_id o' = s_id o)) as [E|E].
    + assert (o' = o) as -> by congruence. rewrite lookup_delete_eq. split; [by intros [??]|done].
    + rewrite Hd by done. apply H8; [done|]. destruct He as [[-> _]|[-> _]]; congruence.
  - intros id o' Ho' _. unfold calls_ok. pose proof (H2 _ _ Ho') as Hid. cbn in Hid. subst id.
    cbn [add_log set_world set_mgr set_sessions mgr objs world live log sessions dtlsConns].
    destruct (decide (s_id o' = s_id o)) as [E|E].
    + assert (o' = o) as -> by congruence. rewrite lookup_delete_eq. rewrite decide_False by done.
      rewrite Hc. split; [|split; [|set_solver]].
      * destruct He as [[-> ->]|[-> ->]].
        -- destruct (calls_in _ _ _ _ (H9 _ _ Ho ltac:(done)) Ht) as [Ha Hb].
           rewrite !times_app, !times_one, decide_True, decide_False by done. lia.
        -- rewrite app_nil_r. destruct (H10 _ eq_refl). lia.
      * destruct He as [[-> ->]|[-> ->]].
        -- destruct (calls_in _ _ _ _ (H9 _ _ Ho ltac:(done)) Ht) as [Ha Hb].
           rewrite times_app, times_one, decide_False by done. lia.
        -- rewrite app_nil_r. destruct (H10 _ eq_refl). lia.
    + destruct (Hlog _ E) as [-> ->]. specialize (H9 _ _ Ho').
      assert (X <> Some (s_id o')) as HX by (destruct He as [[-> _]|[-> _]]; congruence). specialize (H9 HX).
      unfold calls_ok in H9. destruct (decide (sessions s !! s_key o' = Some o')) as [Hin|Hin].
      * rewrite decide_True by (by apply Hd). done.
      * rewrite decide_False by (by rewrite Hd). done.
  - intros id Hid. destruct (H12 id Hid) as (o' & ? & ? & ? & ?). eauto 10.
Qed.

(** The slots once a session with [release] is made; the quota has already
    counted it. *)
Definition admitted (s : Server) (release : option Addr) (q : option PeerQuota) : Prop :=
  match release, quota (world s) with
  | Some ip, Some q0 => exists q1, TryAcquire ip q0 = (true, q1) /\ q = Some q1
  | Some _, None => False
  | None, q0 => q = q0
  end.

Definition with_quota (s : Server) (q : option PeerQuota) : Server :=
  set_world s (mkWorld (closed (world s)) (conn_closed (world s)) q).

Lemma TryAcquire_slots ob w ip q r q1 :
  slots_ok ob w -> quota w = Some q -> bounded (Z.of_nat (size ob)) -> TryAcquire ip q = (r, q1) ->
  holds q1 (if r then ip :: held ob (closed w) else held ob (closed w)) /\
  maxTotal q1 = MaxSessions opts /\ maxPeer q1 = MaxSessionsPerPeer opts /\
  within (MaxSessions opts) (MaxSessionsPerPeer opts) (if r then ip :: held ob (closed w) else held ob (closed w)).
Proof.
  intros Hs Hq Hb. unfold slots_ok in Hs. rewrite Hq in Hs. destruct Hs as (H & Et & Ep & Hw).
  assert (quota_room q) as Hroom.
  { unfold quota_room. rewrite (h_total _ _ H). pose proof (held_length ob (closed w)). unfold bounded in Hb. lia. }
  pose proof (Acquire_holds ip q _ H Hroom) as Ha. unfold TryAcquire.
  destruct (Acquire ip q) as [k q'] eqn:E. destruct Ha as (E1 & E2 & H'). intros [= <- <-].
  rewrite E1, E2. destruct k; cbn; (split; [exact H'|]; split; [done|]; split; [done|]); try done.
  rewrite <- Et, <- Ep in Hw |- *. by eapply within_acquire.
Qed.

Definition room (s : Server) : Prop := bounded (SessionManager.nextID (mgr s) + 1).

Lemma inv_new s dtls key release q now :
  inv None s -> room s -> admitted s release q -> (forall i j, key i = inr j -> j = i) ->
  let '(o, s') := new_session dtls key release now (with_quota s q) in
  let id := SessionManager.nextID (mgr s) + 1 in
  o = mkSession id dtls (key id) release /\ inv (Some id) s' /\ mgr_Get id (mgr s') = None /\
  objs s !! id = None /\
  s' = mkServer (sessions s) (dtlsConns s) (live s) (activeAt s') (mgr s') (<[id := o]> (objs s))
         (mkWorld (closed (world s)) (conn_closed (world s)) q) (user s) (log s) (metrics s) /\
  SessionManager.nextID (mgr s') = id.
Proof.
  intros H Hroom Ha Hkey. pose proof (inv_size _ _ H) as Hsz.
  destruct H as [H1 H2 H3 H4 H5 H6 H7 H8 H9 H10 H11 H12 H13 H14].
  unfold new_session, SessionManager.NextID. cbn [mgr with_quota set_world].
  assert (u64 (SessionManager.nextID (mgr s) + 1) = SessionManager.nextID (mgr s) + 1) as ->.
  { apply uwrap_small. unfold room, bounded, max_int64 in Hroom. lia. }
  set (id := SessionManager.nextID (mgr s) + 1). set (o := mkSession id dtls (key id) release).
  assert (objs s !! id = None) as Hob.
  { destruct (objs s !! id) eqn:E; [|done]. enough (id <= SessionManager.nextID (mgr s)) by lia. apply H5. eauto. }
  assert (id ∉ closed (world s)) as Hcl.
  { intros E. enough (id <= SessionManager.nextID (mgr s)) by lia. apply H5. eauto. }
  assert (forall j, mgr_Get j (SessionManager.mkSessionManager id (SessionManager.count (mgr s))
    (SessionManager.max (mgr s)) (SessionManager.shards (mgr s))) = mgr_Get j (mgr s)) as HG by done.
  assert (mgr_Get id (mgr s) = None) as Hmg.
  { destruct (mgr_Get id (mgr s)) eqn:E; [|done]. enough (id <= SessionManager.nextID (mgr s)) by lia. apply H5. eauto. }
  assert (forall id' o', <[id:=o]> (objs s) !! id' = Some o' -> Some id <> Some id' -> objs s !! id' = Some o') as Hlk.
  { intros id' o' E Hne. rewrite lookup_insert_ne in E by congruence. done. }
  split; [done|]. split; [|by rewrite HG].
  split; cbn [set_activeAt set_objs set_mgr with_quota set_world mgr objs world live log sessions dtlsConns
    SessionManager.nextID SessionManager.shards closed]; try done.
  - intros id' o' E. apply lookup_insert_Some in E as [[<- <-]|[_ E]]; [done|by apply H2].
  - rewrite map_size_insert_None by done. lia.
  - intros id' Hid. rewrite HG in Hid. destruct (decide (id' = id)) as [->|Hne]; [lia|].
    enough (id' <= SessionManager.nextID (mgr s)) by lia. apply H5.
    by rewrite lookup_insert_ne in Hid by done.
  - intros id' Hid. apply H6. intros [o' E]. apply Hid. destruct (decide (id' = id)) as [->|Hne]; [congruence|].
    rewrite lookup_insert_ne by done. by eexists.
  - intros k o' E. destruct (H7 k o' E) as [E' Hk]. split; [|done]. rewrite lookup_insert_ne by congruence. done.
  - intros id' o' E Hne. apply H8; [by eapply Hlk|done].
  - intros id' o' E Hne. eapply H9; [by eapply Hlk|done].
  - intros id' [= <-]. apply H6. rewrite Hob. by intros [??].
  - unfold slots_ok in *. cbn [quota closed].
    pose proof (held_insert (objs s) (closed (world s)) id o Hob) as Hp.
    unfold slot in Hp. cbn [fst] in Hp. rewrite decide_False in Hp by done. cbn [snd s_release o] in Hp.
    unfold admitted in Ha. destruct release as [ip|].
    + destruct (quota (world s)) as [q0|] eqn:Eq; [|done]. destruct Ha as (q1 & Ht & ->).
      destruct (TryAcquire_slots (objs s) (world s) ip q0 true q1) as (A1 & A2 & A3 & A4); try done.
      { unfold slots_ok. by rewrite Eq. }
      cbn in A1, A4. change (option_list (Some ip) ++ held (objs s) (closed (world s))) with (ip :: held (objs s) (closed (world s))) in Hp.
      rewrite Hp. done.
    + subst q. cbn [option_list app] in Hp. destruct (quota (world s)) as [q0|]; [by rewrite Hp|].
      intros id' o' E. apply lookup_insert_Some in E as [[<- <-]|[_ E]]; [done|by eapply H11].
  - intros id' Hid. destruct (H12 id' Hid) as (o' & E & ? & ? & _). exists o'. split; [|split; [done|split; [done|congruence]]].
    rewrite lookup_insert_ne by congruence. done.
  - intros id' o' E. apply lookup_insert_Some in E as [[<- <-]|[_ E]]; [apply Hkey|by apply H14].
Qed.

Lemma insert_lookup_iff s o o' :
  sessions s !! s_key o = None -> o' <> o ->
  (<[s_key o := o]> (sessions s) !! s_key o' = Some o' <-> sessions s !! s_key o' = Some o').
Proof.
  intros Hn Hne. destruct (decide (s_key o' = s_key o)) as [E|E].
  - rewrite E, lookup_insert_eq, Hn. split; [intros [= ->]; done|done].
  - by rewrite lookup_insert_ne.
Qed.

Lemma inv_store s o :
  inv (Some (s_id o)) s -> objs s !! s_id o = Some o -> sessions s !! s_key o = None ->
  inv (Some (s_id o)) (set_sessions s (<[s_key o := o]> (sessions s))).
Proof.
  intros [H1 H2 H3 H4 H5 H6 H7 H8 H9 H10 H11 H12 H13] Ho Hn.
  assert (forall id o', objs s !! id = Some o' -> Some (s_id o) <> Some id ->
    (<[s_key o := o]> (sessions s) !! s_key o' = Some o' <-> sessions s !! s_key o' = Some o')) as Hd.
  { intros id o' E Hne. apply insert_lookup_iff; [done|]. intros ->. apply Hne. by rewrite (H2 _ _ E). }
  split; cbn [set_sessions mgr objs world live log sessions dtlsConns]; try done.
  - intros k o' E. apply lookup_insert_Some in E as [[<- <-]|[_ E]]; [done|by apply H7].
  - intros id o' E Hne. rewrite Hd by done. by apply H8.
  - intros id o' E Hne. specialize (H9 _ _ E Hne). unfold calls_ok in *.
    destruct (decide (sessions s !! s_key o' = Some o')) as [Hin|Hin].
    + rewrite decide_True by (by rewrite Hd). done.
    + rewrite decide_False by (by rewrite Hd). done.
Qed.

Lemma inv_register s o m :
  inv (Some (s_id o)) s -> objs s !! s_id o = Some o ->
  SessionManager.Register (Some (handle o)) (mgr s) = (None, m) ->
  inv (Some (s_id o)) (set_mgr s m) /\ is_Some (mgr_Get (s_id o) m).
Proof.
  intros [H1 H2 H3 H4 H5 H6 H7 H8 H9 H10 H11 H12 H13] Ho Hr'.
  assert (forall id, mgr_Get id m = if decide (id = s_id o) then Some (handle o) else mgr_Get id (mgr s)) as HG.
  { intros id. pose proof (SessionManager.Get_Register (mgr s) (handle o) id H1) as HG. rewrite Hr' in HG. by apply HG. }
  destruct (SessionManager.Register_shape (Some (handle o)) (mgr s)) as (Hl & Hn & _). rewrite Hr' in Hl, Hn.
  cbn [snd] in Hl, Hn. split; [|rewrite HG, decide_True by done; by eexists].
  split; cbn [set_mgr mgr objs world live log sessions dtlsConns]; rewrite ?Hn, ?Hl; try done.
  - intros id Hid. apply H5. rewrite HG in Hid. destruct (decide (id = s_id o)) as [->|]; [left; by eexists|done].
  - intros id o' E Hne. rewrite HG, decide_False by congruence. by apply H8.
Qed.

Lemma inv_done s o :
  inv (Some (s_id o)) s -> sessions s !! s_key o = Some o -> is_Some (mgr_Get (s_id o) (mgr s)) ->
  inv None (add_log s [EvAccept (s_id o)]).
Proof.
  intros [H1 H2 H3 H4 H5 H6 H7 H8 H9 H10 H11 H12 H13] Ht Hm. destruct (H7 _ _ Ht) as [Ho _].
  destruct (H10 _ eq_refl) as [Ha Hb].
  assert (forall id, id <> s_id o -> times (EvAccept id) (log s ++ [EvAccept (s_id o)]) = times (EvAccept id) (log s) /\
    times (EvClose id) (log s ++ [EvAccept (s_id o)]) = times (EvClose id) (log s)) as Hlog.
  { intros id Hid. rewrite !times_app, !times_one. rewrite !(decide_False (P := EvAccept _ = _)) by congruence. lia. }
  split; cbn [add_log mgr objs world live log sessions dtlsConns]; try done.
  - intros id Hid. destruct (Hlog id) as [-> ->]; [|by apply H6]. intros ->. apply Hid. by eexists.
  - intros id o' E _. pose proof (H2 _ _ E) as Hid. cbn in Hid. subst id.
    destruct (decide (s_id o' = s_id o)) as [Ee|Ee]; [|apply H8; [done|congruence]].
    assert (o' = o) as -> by congruence. done.
  - intros id o' E _. pose proof (H2 _ _ E) as Hid. cbn in Hid. subst id. unfold calls_ok.
    destruct (decide (s_id o' = s_id o)) as [Ee|Ee].
    + assert (o' = o) as -> by congruence. rewrite decide_True by done.
      rewrite !times_app, !times_one, Ha, Hb. rewrite decide_True, decide_False by done. done.
    + destruct (Hlog _ Ee) as [-> ->]. apply (H9 _ _ E). congruence.
  - intros id Hid. destruct (H12 id Hid) as (o' & ? & ? & ? & ?). eauto 10.
Qed.

Lemma inv_log_nil X s : inv X (add_log s []) -> inv X s.
Proof. destruct s. unfold add_log. cbn. by rewrite app_nil_r. Qed.

Lemma inv_add_metrics X s l : inv X s -> inv X (add_metrics s l).
Proof. intros []. by split. Qed.

Lemma inv_set_activeAt X s a : inv X s -> inv X (set_activeAt s a).
Proof. intros []. by split. Qed.

Lemma inv_set_conns X s c :
  inv X s -> live s ⊆ c -> inv X (set_conns s c (live s)).
Proof. intros [] Hc. split; try done. Qed.

(** A session that is set up but refused goes again. *)
Lemma inv_abandon s o :
  inv (Some (s_id o)) s -> sessions s !! s_key o = Some o ->
  inv None (set_world (set_mgr (set_sessions s (delete (s_key o) (sessions s)))
    (SessionManager.Unregister (s_id o) (mgr s)).2) (Close o (world s))).
Proof.
  intros H Ht. apply inv_log_nil. destruct (SessionManager.Unregister_shape (s_id o) (mgr s)).
  apply (inv_out (Some (s_id o)) s o _ [] H Ht); [by right|done|done|].
  intros id. apply SessionManager.Get_Unregister. apply H.
Qed.

Lemma inv_closeSession key o s :
  inv None s -> (forall o', sessions s !! key = Some o' -> o' = o) -> inv None (closeSession key o s).2.
Proof.
  intros H Hk. unfold closeSession. destruct (sessions s !! key) as [o'|] eqn:E; [|done].
  assert (o' = o) as -> by (by apply Hk). destruct (i_tab _ _ H _ _ E) as [_ <-].
  cbn [set_world set_mgr set_sessions user]. destruct (OnClose o _) as [ids u].
  cbn [snd]. apply inv_after_call. destruct (SessionManager.Unregister_shape (s_id o) (mgr s)).
  apply (inv_out None s o _ [EvClose (s_id o)] H E); [by left|done|done|].
  intros id. apply SessionManager.Get_Unregister. apply H.
Qed.

Abbreviation next s := (SessionManager.nextID (mgr s)).

Lemma closeSession_shape key o s :
  next (closeSession key o s).2 = next s /\ sessions (closeSession key o s).2 = delete key (sessions s).
Proof.
  unfold closeSession. destruct (sessions s !! key) as [o'|] eqn:E; cbn [snd].
  - cbn [set_world set_mgr set_sessions user]. destruct (OnClose o _) as [ids u]. cbn.
    split; [|done]. by destruct (SessionManager.Unregister_shape (s_id o) (mgr s)).
  - split; [done|]. by rewrite delete_id.
Qed.

Lemma getOrCreate_inv addr now s :
  inv None s -> room s ->
  let '(r, s') := getOrCreateSession addr now s in
  inv None s' /\ next s <= next s' <= next s + 1 /\
  (forall o, r = Some o -> sessions s' !! s_key o = Some o).
Proof.
  intros H Hroom. unfold getOrCreateSession. set (key := inl _ : Key).
  (* the entry found, or none left *)
  assert (exists r1 s1, (match sessions s !! key with
    | Some o => if decide (s_id o ∈ closed (world s)) then (None, (closeSession key o s).2) else (Some o, s)
    | None => (None, s) end) = (r1, s1) /\ inv None s1 /\ next s1 = next s /\
    match r1 with Some o => sessions s1 !! s_key o = Some o | None => sessions s1 !! key = None end)
    as (r1 & s1 & -> & H1 & Hn & Hr1).
  { destruct (sessions s !! key) as [o|] eqn:E; [|by exists None, s]. destruct (decide _).
    - eexists _, _. split; [done|]. destruct (closeSession_shape key o s) as [En Et]. split; [|split; [done|]].
      + apply inv_closeSession; [done|congruence].
      + rewrite Et. apply lookup_delete_eq.
    - eexists _, _. split; [done|]. split; [done|]. split; [done|].
      destruct (i_tab _ _ H _ _ E) as [_ Ek]. cbn in Ek. by rewrite Ek. }
  destruct r1 as [o|]. { split; [done|]. split; [lia|]. by intros o' [= <-]. }
  set (ip := PeerIP _ _ _).
  assert (exists ok rel s2 q, (match quota (world s1) with
    | None => (true, None, s1)
    | Some q => let '(ok, q) := TryAcquire ip q in
        (ok, Some ip, set_world s1 (mkWorld (closed (world s1)) (conn_closed (world s1)) (Some q))) end)
    = (ok, rel, s2) /\ s2 = with_quota s1 q /\ (if ok then admitted s1 rel q else inv None s2))
    as (ok & rel & s2 & q & -> & -> & Hadm).
  { destruct (quota (world s1)) as [q|] eqn:Eq.
    - destruct (TryAcquire ip q) as [ok q'] eqn:Et. eexists ok, _, _, (Some q'). split; [done|]. split; [done|].
      destruct ok; [unfold admitted; rewrite Eq; by eexists|].
      assert (q' = q) as ->.
      { revert Et. unfold TryAcquire. pose proof (acquire_refused_same ip q). destruct (Acquire ip q) as [k q2].
        intros [= E <-]. cbn in *. apply bool_decide_eq_false in E. auto. }
      rewrite <- Eq. destruct s1 as [? ? ? ? ? ? [? ? ?] ? ? ?]. exact H1.
    - eexists true, None, _, None. split; [done|]. split; [|by unfold admitted; rewrite Eq].
      unfold with_quota. rewrite <- Eq. by destruct s1 as [? ? ? ? ? ? [? ? ?] ? ? ?]. }
  destruct ok; cbn [negb]; [|split; [by apply inv_add_metrics|]; cbn; split; [lia|done]].
  assert (room s1) as Hroom1 by (unfold room in *; by rewrite Hn).
  pose proof (inv_new s1 false (fun _ => key) rel q now H1 Hroom1 Hadm ltac:(done)) as Hnew.
  destruct (new_session false (fun _ => key) rel now (with_quota s1 q)) as [o s3].
  destruct Hnew as (Eo & H3 & Hg & Hob & E3 & Hn3).
  assert (s_key o = key) as Ek by (by rewrite Eo). assert (s_id o = next s1 + 1) as Eid by (by rewrite Eo).
  assert (objs s3 !! s_id o = Some o) as Ho3 by (rewrite E3, Eid; cbn; apply lookup_insert_eq).
  assert (sessions s3 !! s_key o = None) as Hs3 by (rewrite E3, Ek; cbn; done).
  rewrite <- Eid in H3, Hg, Hn3. rewrite <- Ek. clear E3 Eo.
  pose proof (inv_store s3 o H3 Ho3 Hs3) as H4. cbn [set_sessions mgr].
  set (s4 := set_sessions s3 _) in *.
  destruct (SessionManager.Register (Some (handle o)) (mgr s3)) as [[err|] m] eqn:Er.
  - split; [|cbn; split; [lia|done]]. apply inv_log_nil.
    apply (inv_out (Some (s_id o)) s4 o (mgr s4) [] H4); [apply lookup_insert_eq|by right|done|done|].
    intros id. destruct (decide (id = s_id o)) as [->|]; done.
  - destruct (inv_register s4 o m H4 Ho3 Er) as [H5 Hm].
    cbn [set_mgr user]. destruct (OnAccept o _) as [[err ids] u].
    pose proof (inv_after_call _ _ ids u H5) as H6.
    destruct (SessionManager.Register_shape (Some (handle o)) (mgr s3)) as (_ & Hnm & _).
    rewrite Er in Hnm. cbn [snd] in Hnm.
    destruct err as [err|].
    + split; [|cbn [set_world set_mgr set_sessions after_call set_user mgr];
        rewrite (proj2 (SessionManager.Unregister_shape (s_id o) m)); split; [lia|done]].
      apply (inv_abandon _ o H6). apply lookup_insert_eq.
    + split; [|cbn; split; [lia|]; intros o' [= <-]; apply lookup_insert_eq].
      apply (inv_done _ o H6); [apply lookup_insert_eq|done].
Qed.

Lemma call_handler_inv X h o payload s :
  inv X s -> let '(_, s') := call_handler h o payload s in
  inv X s' /\ sessions s' = sessions s /\ next s' = next s.
Proof.
  intros H. unfold call_handler, CallHandlerObserved, CallHandler.
  destruct (h o payload (user s)) as [[r ids] u]. pose proof (inv_after_call X s ids u H) as H'.
  destruct r as [e|], observed; (split; [by apply inv_add_metrics|done]).
Qed.

Lemma receive_inv addr payload now s :
  inv None s -> room s -> inv None (receive addr payload now s) /\ next (receive addr payload now s) <= next s + 1.
Proof.
  intros H Hroom. unfold receive. pose proof (getOrCreate_inv addr now s H Hroom) as Hg.
  destruct (getOrCreateSession addr now s) as [[o|] s1]; destruct Hg as (H1 & Hn & Hk); [|split; [done|lia]].
  specialize (Hk o eq_refl). apply (inv_set_activeAt _ _ (<[s_id o := now]> (activeAt s1))) in H1.
  set (s2 := set_activeAt s1 _) in *. destruct (OnMessage o payload (user s2)) as [[[pl err] ids] u].
  pose proof (inv_after_call _ _ ids u H1) as H3. set (s3 := after_call ids u s2) in *.
  assert (forall s4, inv None s4 -> sessions s4 = sessions s1 -> next s4 = next s1 ->
    inv None (closeSession (s_key o) o s4).2 /\ next (closeSession (s_key o) o s4).2 <= next s + 1) as Hclose.
  { intros s4 H4 Es En. split; [|rewrite (proj1 (closeSession_shape _ _ _)); lia].
    apply inv_closeSession; [done|]. rewrite Es. congruence. }
  assert (next s3 <= next s + 1) as Hn3 by (cbn; lia).
  destruct err as [err|]; [destruct (errors_Is err ErrPluginDrop); [done|by apply Hclose]|].
  destruct Handler as [h|]; [|done]. pose proof (call_handler_inv None h o pl s3 H3) as Hc.
  destruct (call_handler h o pl s3) as [[err|] s4]; destruct Hc as (H4 & Es & En); [by apply Hclose|].
  split; [done|]. rewrite En. done.
Qed.

(** Removing entries of a snapshot one after the other. *)
Lemma fold_remove (f : Server -> Key * session -> Server) l s :
  (forall s ko, sessions (f s ko) ⊆ sessions s /\ next (f s ko) = next s) ->
  (forall s ko, inv None s -> (forall o', sessions s !! ko.1 = Some o' -> o' = ko.2) -> inv None (f s ko)) ->
  inv None s -> (forall ko o', ko ∈ l -> sessions s !! ko.1 = Some o' -> o' = ko.2) ->
  inv None (fold_left f l s) /\ next (fold_left f l s) = next s.
Proof.
  intros Hsub Hinv. revert s. induction l as [|ko l IH]; intros s H Hl; [done|]. cbn [fold_left].
  destruct (Hsub s ko) as [Hs Hn]. rewrite <- Hn. apply IH.
  - apply Hinv; [done|]. intros o'. apply Hl. by left.
  - intros ko' o' Hin Hk. eapply Hl; [by right|]. by eapply lookup_weaken.
Qed.

Lemma snapshot_current s ko o' :
  ko ∈ map_range (sessions s) -> sessions s !! ko.1 = Some o' -> o' = ko.2.
Proof. destruct ko as [k o]. rewrite elem_of_map_range. cbn. congruence. Qed.

Lemma CloseSessions_inv s : inv None s -> inv None (CloseSessions s) /\ next (CloseSessions s) = next s.
Proof.
  intros H. apply fold_remove; [|by intros; apply inv_closeSession|done|by intros; eapply snapshot_current].
  intros s' ko. destruct (closeSession_shape ko.1 ko.2 s') as [-> ->]. split; [apply delete_subseteq|done].
Qed.

Lemma sweep_close_shape key o s :
  sessions (sweep_close key o s) = delete key (sessions s) /\ next (sweep_close key o s) = next s.
Proof.
  unfold sweep_close. destruct (closeSession_shape key o s) as [En Es].
  destruct (closeSession key o s) as [[|] s']; by cbn in *.
Qed.

Lemma inv_sweep_close key o s :
  inv None s -> (forall o', sessions s !! key = Some o' -> o' = o) -> inv None (sweep_close key o s).
Proof.
  intros H Hk. unfold sweep_close. pose proof (inv_closeSession key o s H Hk) as H'.
  destruct (closeSession key o s) as [[|] s']; [by apply inv_add_metrics|done].
Qed.

Lemma sweep_inv now s : inv None s -> inv None (sweep now s) /\ next (sweep now s) = next s.
Proof.
  intros H. apply fold_remove; [| |done|by intros; eapply snapshot_current].
  - intros s' ko. destruct (idle _ _ _); [|done]. destruct (sweep_close_shape ko.1 ko.2 s') as [-> ->].
    split; [apply delete_subseteq|done].
  - intros s' ko H' Hk. destruct (idle _ _ _); [by apply inv_sweep_close|done].
Qed.

(** ** DTLS connections *)

Lemma inv_conns_remove X s id :
  inv X s -> inv X (set_conns s (dtlsConns s ∖ {[id]}) (live s ∖ {[id]})).
Proof.
  intros [H1 H2 H3 H4 H5 H6 H7 H8 H9 H10 H11 H12 H13 H14].
  split; try done; cbn [set_conns mgr objs world live log sessions dtlsConns].
  - intros j Hj. apply H5. set_solver.
  - intros j Hj. apply H12. set_solver.
  - intros j Hj. specialize (H13 j). set_solver.
Qed.

Lemma dtls_finish_inv X o acc s :
  inv X s -> objs s !! s_id o = Some o -> s_key o = inr (s_id o) ->
  X = None /\ acc = true \/ X = Some (s_id o) /\ acc = false /\ sessions s !! s_key o = Some o ->
  inv None (dtls_finish o acc s) /\ next (dtls_finish o acc s) = next s.
Proof.
  intros H Ho Ek HX. unfold dtls_finish.
  pose proof (inv_conns_remove _ _ (s_id o) (inv_Close X s o H Ho)) as H1.
  set (s1 := set_conns _ _ _) in *. rewrite <- Ek.
  destruct (SessionManager.Unregister_shape (s_id o) (mgr s1)) as [Hl Hn].
  destruct (sessions s1 !! s_key o) as [o'|] eqn:E.
  - assert (o' = o) as ->.
    { destruct (i_tab _ _ H1 _ _ E) as [Ho' Ek']. cbn in Ek'. rewrite Ek in Ek'.
      pose proof (i_inr _ _ H1 _ _ Ho' _ Ek') as Eid. rewrite <- Eid in Ho'. cbn in Ho'. congruence. }
    assert (forall e, X = None /\ e = [EvClose (s_id o)] \/ X = Some (s_id o) /\ e = [] ->
      inv None (add_log (set_world (set_mgr (set_sessions s1 (delete (s_key o) (sessions s1)))
        (SessionManager.Unregister (s_id o) (mgr s1)).2) (Close o (world s1))) e)) as Hout.
    { intros e He. apply (inv_out X s1 o _ e H1 E He Hl Hn). intros id. apply SessionManager.Get_Unregister. apply H1. }
    assert (Close o (world s1) = world s1) as Ew.
    { unfold Close at 1. rewrite decide_True; [done|]. cbn. rewrite Close_closed. set_solver. }
    rewrite Ew in Hout. assert (next s1 = next s) as En by done. rewrite En in Hn. clearbody s1.
    destruct HX as [[-> ->]|(-> & -> & _)].
    + cbn [set_mgr set_sessions user]. destruct (OnClose o _) as [ids u].
      split; [|rewrite <- Hn; done]. apply inv_after_call. apply Hout. by left.
    + split; [|rewrite <- Hn; done]. apply inv_log_nil. apply Hout. by right.
  - split; [|done]. destruct HX as [[-> _]|(_ & _ & Ht)]; [done|]. cbn in E. congruence.
Qed.

Lemma dtls_open_inv now s :
  inv None s -> room s -> inv None (dtls_open now s) /\ next (dtls_open now s) <= next s + 1.
Proof.
  intros H Hroom. unfold dtls_open.
  pose proof (inv_new s true inr None (quota (world s)) now H Hroom eq_refl ltac:(congruence)) as Hnew.
  assert (with_quota s (quota (world s)) = s) as Es by (by destruct s as [? ? ? ? ? ? [? ? ?] ? ? ?]).
  rewrite Es in Hnew. destruct (new_session true inr None now s) as [o s1].
  destruct Hnew as (Eo & H1 & Hg & _ & E1 & Hn1).
  assert (s_id o = next s + 1) as Eid by (by rewrite Eo). assert (s_key o = inr (s_id o)) as Ek by (by rewrite Eo).
  rewrite <- Eid in H1, Hg, Hn1.
  assert (objs s1 !! s_id o = Some o) as Ho by (rewrite E1, Eid; cbn; apply lookup_insert_eq).
  assert (sessions s1 !! s_key o = None) as Hs.
  { destruct (sessions s1 !! s_key o) as [o'|] eqn:E; [|done]. destruct (i_tab _ _ H1 _ _ E) as [Ho' Ek'].
    cbn in Ek'. rewrite Ek in Ek'. pose proof (i_inr _ _ H1 _ _ Ho' _ Ek') as Ej.
    rewrite <- Ej in Ho'. assert (o' = o) as -> by congruence.
    assert (sessions s1 = sessions s) as Ess by (by rewrite E1). rewrite Ess in E.
    destruct (i_tab _ _ H _ _ E) as [Hc _]. enough (s_id o <= next s) by lia. apply (i_old _ _ H). left. by eexists. }
  assert (s_dtls o = true) as Ed by (by rewrite Eo). clear E1 Eo Es.
  pose proof (inv_store s1 o H1 Ho Hs) as H2. rewrite <- Ek. set (s2 := set_sessions s1 _) in *.
  pose proof (inv_set_conns _ s2 ({[s_id o]} ∪ dtlsConns s2) H2) as H3.
  assert (live s2 ⊆ {[s_id o]} ∪ dtlsConns s2) as Hlive.
  { intros j Hj. pose proof (i_conns _ _ H2 j Hj). set_solver. }
  specialize (H3 Hlive). set (s3 := set_conns s2 _ _) in *.
  assert (sessions s3 !! s_key o = Some o) as Hs3 by apply lookup_insert_eq.
  assert (forall s4, inv (Some (s_id o)) s4 -> objs s4 = objs s3 -> sessions s4 = sessions s3 -> next s4 = s_id o ->
    inv None (dtls_finish o false (set_world s4 (Close o (world s4)))) /\
    next (dtls_finish o false (set_world s4 (Close o (world s4)))) <= next s + 1) as Hfin.
  { intros s4 H4 E4 Et En. rewrite <- Eid, <- En.
    destruct (dtls_finish_inv (Some (s_id o)) o false (set_world s4 (Close o (world s4)))) as [Hi Hn];
      [apply inv_Close; [done|by rewrite E4]|cbn; by rewrite E4|done|right; cbn; by rewrite Et|].
    split; [done|]. rewrite Hn. done. }
  change (mgr s3) with (mgr s1).
  destruct (SessionManager.Register (Some (handle o)) (mgr s1)) as [[err|] m] eqn:Er; [by apply Hfin|].
  destruct (inv_register s3 o m H3 Ho Er) as [H5 Hm]. cbn [set_mgr user].
  destruct (OnAccept o _) as [[err ids] u]. pose proof (inv_after_call _ _ ids u H5) as H6.
  destruct (SessionManager.Register_shape (Some (handle o)) (mgr s1)) as (_ & Hnm & _).
  rewrite Er in Hnm. cbn [snd] in Hnm.
  destruct err as [err|]; [apply (Hfin _ H6); [done|done|cbn; by rewrite Hnm]|].
  split; [|cbn; lia]. pose proof (inv_done _ o H6 Hs3 Hm) as H7. set (s7 := add_log _ _) in *.
  destruct H7 as [I1 I2 I3 I4 I5 I6 I7 I8 I9 I10 I11 I12 I13 I14].
  split; try done; cbn [set_conns mgr objs world live log sessions dtlsConns].
  - intros j Hj. apply I5. destruct (decide (j = s_id o)) as [->|]; [left; by eexists|set_solver].
  - intros j Hj. destruct (decide (j = s_id o)) as [->|]; [by exists o|]. apply I12. set_solver.
  - intros j Hj. change (dtlsConns s7) with ({[s_id o]} ∪ dtlsConns s2). change (live s7) with (live s2) in Hj.
    pose proof (i_conns _ _ H2 j). set_solver.
Qed.

Lemma dtls_turn_inv id o r now s :
  inv None s -> id ∈ live s -> objs s !! id = Some o ->
  inv None (dtls_turn o r now s) /\ next (dtls_turn o r now s) = next s.
Proof.
  intros H Hl Ho. destruct (i_live _ _ H id Hl) as (o' & Ho' & _ & Ek & _). assert (o' = o) as -> by congruence.
  pose proof (i_keyed _ _ H _ _ Ho) as Eid. cbn in Eid. subst id.
  assert (forall s', inv None s' -> objs s' = objs s -> next s' = next s ->
    inv None (dtls_finish o true s') /\ next (dtls_finish o true s') = next s) as Hfin.
  { intros s' H' E' En. rewrite <- En. apply (dtls_finish_inv None); [done|by rewrite E'|done|by left]. }
  destruct r as [|t|pl]; cbn [dtls_turn].
  - by apply Hfin.
  - destruct t; [|by apply Hfin]. apply Hfin; [by apply inv_add_metrics|done|done].
  - apply (inv_set_activeAt _ _ (<[s_id o := now]> (activeAt s))) in H. set (s2 := set_activeAt s _) in *.
    destruct (OnMessage o pl (user s2)) as [[[pl' err] ids] u]. pose proof (inv_after_call _ _ ids u H) as H3.
    set (s3 := after_call ids u s2) in *.
    destruct err as [err|]; [destruct (errors_Is err ErrPluginDrop); [done|]; split; [by apply inv_Close|done]|].
    destruct Handler as [h|]; [|done]. pose proof (call_handler_inv None h o pl' s3 H3) as Hc.
    destruct (call_handler h o pl' s3) as [err s4] eqn:E; destruct Hc as (H4 & Es & En).
    assert (objs s4 = objs s) as Eo4.
    { revert E. unfold call_handler, CallHandlerObserved, CallHandler. destruct (h o pl' (user s3)) as [[r ids'] u'].
      destruct r, observed; by intros [= _ <-]. }
    destruct err as [err|]; [|split; [done|exact En]]. split; [|exact En]. apply inv_Close; [done|by rewrite Eo4].
Qed.

(** ** Runs *)

(** [UserClose]: user code outside a call closes sessions.  [OtherOpen] and
    [OtherClose] are the other servers of the gateway, which share the manager. *)
Inductive op : Type :=
| Datagram (addr : bytes * Z * string) (payload : bytes) (now : Z)
| Sweep (now : Z)
| CloseAll
| UserClose (ids : list Z) (u : U)
| DtlsOpen (now : Z)
| DtlsTurn (id : Z) (r : read_result) (now : Z)
| StopAccepting
| OtherOpen (shared : bool)
| OtherClose (id : Z).

Definition step (s : Server) (o : op) : Server :=
  match o with
  | Datagram addr payload now => receive addr payload now s
  | Sweep now => sweep now s
  | CloseAll => CloseSessions s
  | UserClose ids u => after_call ids u s
  | DtlsOpen now => dtls_open now s
  | DtlsTurn id r now =>
      if decide (id ∈ live s) then
        match objs s !! id with Some sess => dtls_turn sess r now s | None => s end
      else s
  | StopAccepting => StopAccept s
  | OtherOpen shared =>
      let '(id, m) := SessionManager.NextID (mgr s) in
      set_mgr s (SessionManager.Register (Some (SessionManager.mkSession id shared)) m).2
  | OtherClose id =>
      match objs s !! id with
      | Some _ => s
      | None => set_mgr s (SessionManager.Unregister id (mgr s)).2
      end
  end.

Definition run (s : Server) (ops : list op) : Server := fold_left step ops s.

Lemma inv_Start mx u :
  inv None (Start (SessionManager.NewSessionManager [SessionManager.WithMaxSessions mx]) u).
Proof.
  assert (forall id, mgr_Get id (SessionManager.NewSessionManager [SessionManager.WithMaxSessions mx]) = None) as HG.
  { intros id. rewrite (SessionManager.refines_get _ _ id (SessionManager.refines_new mx)). apply lookup_empty. }
  split; unfold Start; cbn [set_mgr mgr objs world live log sessions dtlsConns closed]; try done.
  - intros id [[? E]|[E|[E|E]]]; [by rewrite lookup_empty in E|set_solver|rewrite HG in E; by destruct E|set_solver].
  - unfold slots_ok. cbn [quota closed]. destruct (_ || _); [|done]. cbn [maxTotal maxPeer NewPeerQuota].
    change (held ∅ ∅) with (@nil Addr). split; [apply holds_new|]. split; [done|]. split; [done|].
    split; [cbn; lia|]. intros. unfold occ. cbn. lia.
Qed.

(** The other servers touch only ids of their own. *)
Lemma inv_other X s m :
  inv X s -> length (SessionManager.shards m) = Z.to_nat SessionManager.sessionShards ->
  next s <= SessionManager.nextID m -> bounded (SessionManager.nextID m) ->
  (forall id, is_Some (objs s !! id) -> mgr_Get id m = mgr_Get id (mgr s)) ->
  (forall id, is_Some (mgr_Get id m) -> id <= SessionManager.nextID m) ->
  inv X (set_mgr s m).
Proof.
  intros [H1 H2 H3 H4 H5 H6 H7 H8 H9 H10 H11 H12 H13 H14] Hl Hn Hb Hg Ho.
  split; cbn [set_mgr mgr objs world live log sessions dtlsConns]; try done; [lia| |].
  - intros id [E|[E|[E|E]]]; [| |by apply Ho|]; (enough (id <= next s) by lia; apply H5; auto).
  - intros id o E HX. rewrite Hg by by eexists. by apply H8.
Qed.

Lemma step_inv s o : inv None s -> room s -> inv None (step s o) /\ next (step s o) <= next s + 1.
Proof.
  intros H Hroom. destruct o as [addr pl now|now| |ids u|now|id r now| |sh|id]; cbn [step].
  - by apply receive_inv.
  - destruct (sweep_inv now s H). split; [done|lia].
  - destruct (CloseSessions_inv s H). split; [done|lia].
  - split; [by apply inv_after_call|cbn; lia].
  - by apply dtls_open_inv.
  - destruct (decide (id ∈ live s)) as [Hl|]; [|split; [done|lia]].
    destruct (objs s !! id) as [o|] eqn:E; [|split; [done|lia]].
    destruct (dtls_turn_inv id o r now s H Hl E). split; [done|lia].
  - split; [|cbn; lia]. destruct H. by split.
  - unfold SessionManager.NextID. set (id := u64 (next s + 1)).
    assert (id = next s + 1) as Eid by (apply uwrap_small; unfold room, bounded, max_int64 in Hroom; lia).
    set (m := SessionManager.mkSessionManager _ _ _ _).
    destruct (SessionManager.Register_shape (Some (SessionManager.mkSession id sh)) m) as (Hl & Hn & Hsame).
    assert (forall j, mgr_Get j (SessionManager.Register (Some (SessionManager.mkSession id sh)) m).2 = mgr_Get j (mgr s)
      \/ j = id) as HG.
    { intros j. destruct (SessionManager.Register (Some _) m) as [[e|] m'] eqn:Er; [left; by rewrite Hsame|].
      pose proof (SessionManager.Get_Register m (SessionManager.mkSession id sh) j ltac:(apply H)) as Hg.
      rewrite Er in Hg. cbn [snd fst] in *. rewrite Hg by done. cbn [SessionManager.ID]. destruct (decide (j = id)); [by right|by left]. }
    cbn [SessionManager.nextID] in Hn. split; [|change (SessionManager.nextID (SessionManager.Register
      (Some (SessionManager.mkSession id sh)) m).2 <= next s + 1); rewrite Hn; cbn; lia].
    change (SessionManager.nextID m) with id in Hn.
    apply inv_other; [done|rewrite Hl; apply H|rewrite Hn; lia|rewrite Hn, Eid; exact Hroom| |].
    + intros j Hj. destruct (HG j) as [->| ->]; [done|exfalso].
      enough (id <= next s) by lia. apply (i_old _ _ H). by left.
    + intros j Hj. rewrite Hn. destruct (HG j) as [E| ->]; [|done]. rewrite E in Hj.
      enough (j <= next s) by lia. apply (i_old _ _ H). auto.
  - destruct (objs s !! id) as [o|] eqn:E; [split; [done|lia]|].
    destruct (SessionManager.Unregister_shape id (mgr s)) as [Hl Hn].
    split; [|change (SessionManager.nextID (SessionManager.Unregister id (mgr s)).2 <= next s + 1); rewrite Hn; lia].
    assert (forall j, mgr_Get j (SessionManager.Unregister id (mgr s)).2 = if decide (j = id) then None else mgr_Get j (mgr s)) as HG
      by (intros j; apply SessionManager.Get_Unregister; apply H).
    apply inv_other; [done|rewrite Hl; apply H|lia|rewrite Hn; apply H| |].
    + intros j [o Hj]. rewrite HG, decide_False by congruence. done.
    + intros j Hj. rewrite Hn. rewrite HG in Hj. destruct (decide (j = id)); [by destruct Hj|].
      apply (i_old _ _ H). auto.
Qed.

Lemma run_inv ops s :
  inv None s -> bounded (next s + Z.of_nat (length ops)) -> inv None (run s ops) /\ next (run s ops) <= next s + Z.of_nat (length ops).
Proof.
  revert s. induction ops as [|o ops IH]; intros s H Hb; [split; [done|cbn; lia]|]. cbn [run fold_left length] in *.
  pose proof (i_next _ _ H). unfold bounded in *.
  destruct (step_inv s o H) as [H' Hn]; [unfold room, bounded; lia|].
  pose proof (i_next _ _ H'). unfold bounded in *.
  destruct (IH (step s o) H') as [H2 Hn2]; [lia|]. split; [done|]. unfold run in Hn2. lia.
Qed.

(** A server in a gateway whose manager has the session limit [mx]. *)
Definition started (mx : Z) (u : U) : Server :=
  Start (SessionManager.NewSessionManager [SessionManager.WithMaxSessions mx]) u.


(** ** The goroutines interleaved *)

(** Where the read loop is with a datagram: waiting for one; its session found; its
    payload passed by the plugins; about to remove the session. *)
Inductive reading : Type :=
| AtSocket
| Looked (sess : session) (payload : bytes)
| Passed (sess : session) (payload : bytes)
| Failing (sess : session).

(* go: internal/transport/udp/server.go:310-316 (readLoop) *)
Definition arrive (addr : bytes * Z * string) (payload : bytes) (now : Z) (s : Server) : Server * reading :=
  match getOrCreateSession addr now s with
  | (None, s) => (s, AtSocket)
  | (Some sess, s) => (set_activeAt s (<[s_id sess := now]> (activeAt s)), Looked sess payload)
  end.

(** What the read loop does next: the plugins, the handler, the removal. *)
(* go: internal/transport/udp/server.go:317-333 (readLoop) *)
Definition continue (s : Server) (r : reading) : Server * reading :=
  match r with
  | AtSocket => (s, AtSocket)
  | Looked sess payload =>
      let '(payload, err, ids, u) := OnMessage sess payload (user s) in
      let s := after_call ids u s in
      match err with
      | Some err => (s, if errors_Is err ErrPluginDrop then AtSocket else Failing sess)
      | None => (s, match Handler with None => AtSocket | Some _ => Passed sess payload end)
      end
  | Passed sess payload =>
      match Handler with
      | None => (s, AtSocket)
      | Some h => match call_handler h sess payload s with (Some _, s) => (s, Failing sess) | (None, s) => (s, AtSocket) end
      end
  | Failing sess => ((closeSession (s_key sess) sess s).2, AtSocket)
  end.

(** One step of the server: of the read loop; a visit of the sweep, or of
    [CloseSessions], to the entry of a key; or anything else. *)
Inductive turn : Type :=
| Arrive (addr : bytes * Z * string) (payload : bytes) (now : Z)
| Continue
| Visit (key : Key) (now : Z)
| CloseEntry (key : Key)
| Beside (o : op).

Definition turn_step (st : Server * reading) (t : turn) : Server * reading :=
  let (s, r) := st in
  match t with
  | Arrive addr payload now => match r with AtSocket => arrive addr payload now s | _ => st end
  | Continue => continue s r
  | Visit key now =>
      match sessions s !! key with
      | Some sess => (if idle now sess s then sweep_close key sess s else s, r)
      | None => st
      end
  | CloseEntry key => match sessions s !! key with Some sess => ((closeSession key sess s).2, r) | None => st end
  | Beside (Datagram _ _ _) => st
  | Beside o => (step s o, r)
  end.

Definition turns (st : Server * reading) (ts : list turn) : Server * reading := fold_left turn_step ts st.

(** A datagram handled without interruption. *)
Lemma receive_turns addr payload now s :
  turns (s, AtSocket) [Arrive addr payload now; Continue; Continue; Continue] = (receive addr payload now s, AtSocket).
Proof.
  unfold turns, receive. cbn [fold_left turn_step]. unfold arrive.
  destruct (getOrCreateSession addr now s) as [[sess|] s1]; [|done].
  set (s2 := set_activeAt s1 _). cbn [turn_step continue].
  destruct (OnMessage sess payload (user s2)) as [[[pl [err|]] ids] u]; [by destruct (errors_Is err ErrPluginDrop)|].
  destruct Handler as [h|] eqn:Eh; [|done]. cbn [turn_step continue]. rewrite Eh.
  by destruct (call_handler h sess pl _) as [[e|] s3].
Qed.












(** ** A sweep that is overtaken *)

(** A session that the manager has and the table has not. *)
Record orphan (id : Z) (n : nat) (s : Server) : Prop := {
  or_shards : length (SessionManager.shards (mgr s)) = Z.to_nat SessionManager.sessionShards;
  or_reg : is_Some (mgr_Get id (mgr s));
  or_tab : forall k o, sessions s !! k = Some o -> s_id o <> id;
  or_live : id ∉ live s;
  or_objs : is_Some (objs s !! id);
  or_keyed : keyed (objs s);
  or_next : id <= next s /\ 0 <= next s;
  or_calls : times (EvClose id) (log s) = n
}.

Lemma orphan_same id n s s' :
  orphan id n s -> mgr s' = mgr s -> sessions s' ⊆ sessions s -> live s' ⊆ live s -> objs s' = objs s -> log s' = log s ->
  orphan id n s'.
Proof.
  intros [] E1 E2 E3 E4 E5. split; rewrite ?E1, ?E4, ?E5; auto.
  intros k o Hk. eapply or_tab0. by eapply lookup_weaken.
Qed.

Lemma orphan_unregister id n s id' :
  orphan id n s -> id' <> id -> orphan id n (set_mgr s (SessionManager.Unregister id' (mgr s)).2).
Proof.
  intros [H1 H2 H3 H4 H5 H6 H7 H8] Hne. destruct (SessionManager.Unregister_shape id' (mgr s)) as [Hl Hn].
  split; try done; cbn [set_mgr mgr].
  - by rewrite Hl.
  - rewrite SessionManager.Get_Unregister by done. by rewrite decide_False.
  - by rewrite Hn.
Qed.

Lemma orphan_log id n s id' :
  orphan id n s -> id' <> id -> orphan id n (add_log s [EvClose id']).
Proof.
  intros [] Hne. split; try done. cbn [add_log log]. rewrite times_app, times_one, decide_False by congruence. lia.
Qed.

Lemma orphan_accept id n s id' : orphan id n s -> orphan id n (add_log s [EvAccept id']).
Proof. intros []. split; try done. cbn [add_log log]. rewrite times_app, times_one, decide_False by congruence. lia. Qed.

Lemma orphan_closeSession id n key o s :
  orphan id n s -> s_id o <> id -> orphan id n (closeSession key o s).2.
Proof.
  intros H Hne. unfold closeSession. destruct (sessions s !! key); [|done].
  cbn [set_world set_mgr set_sessions user mgr world]. destruct (OnClose o _) as [ids u]. cbn [snd].
  set (s1 := set_sessions s (delete key (sessions s))).
  assert (orphan id n s1) as H1 by (apply (orphan_same id n s); [done|done|apply delete_subseteq|done|done|done]).
  apply (orphan_unregister id n s1 (s_id o)) in H1; [|done].
  apply (orphan_log id n _ (s_id o)) in H1; [|done].
  by apply (orphan_same id n _ _ H1).
Qed.

(** A new session takes another id. *)
Lemma orphan_new id n dtls key rel now s :
  orphan id n s -> room s ->
  let '(o, s') := new_session dtls key rel now s in
  orphan id n s' /\ s_id o <> id /\ s_id o = next s' /\ next s' = next s + 1 /\ s_key o = key (s_id o).
Proof.
  intros [H1 H2 H3 H4 H5 H6 H7 H8] Hroom. unfold new_session, SessionManager.NextID.
  assert (u64 (next s + 1) = next s + 1) as -> by (apply uwrap_small; unfold room, bounded, max_int64 in Hroom; lia).
  cbn [s_id s_key]. split; [|split; [lia|done]].
  split; try done; cbn [set_activeAt set_objs set_mgr mgr objs SessionManager.nextID].
  - rewrite lookup_insert_ne by lia. done.
  - intros i o E. apply lookup_insert_Some in E as [[<- <-]|[_ E]]; [done|by apply H6].
  - lia.
Qed.

Lemma orphan_store id n s o :
  orphan id n s -> s_id o <> id -> orphan id n (set_sessions s (<[s_key o := o]> (sessions s))).
Proof.
  intros [] Hne. split; try done. cbn. intros k o' E. apply lookup_insert_Some in E as [[_ <-]|[_ E]]; eauto.
Qed.

Lemma orphan_register id n s h e m :
  orphan id n s -> SessionManager.Register (Some h) (mgr s) = (e, m) -> orphan id n (set_mgr s m).
Proof.
  intros [H1 H2 H3 H4 H5 H6 H7 H8] E.
  destruct (SessionManager.Register_shape (Some h) (mgr s)) as (Hl & Hn & Hsame). rewrite E in *. cbn [fst snd] in *.
  split; try done; cbn [set_mgr mgr]; rewrite ?Hl, ?Hn; try done.
  destruct e as [e|]; [by rewrite Hsame|].
  pose proof (SessionManager.Get_Register (mgr s) h id H1) as Hg. rewrite E in Hg. cbn [fst snd] in Hg. rewrite Hg by done.
  destruct (decide _); [by eexists|done].
Qed.

Lemma orphan_getOrCreate id n addr now s :
  orphan id n s -> room s ->
  let '(r, s') := getOrCreateSession addr now s in
  orphan id n s' /\ next s' <= next s + 1 /\ (forall o, r = Some o -> s_id o <> id).
Proof.
  intros H Hroom. unfold getOrCreateSession. set (key := inl _ : Key).
  assert (exists r1 s1, (match sessions s !! key with
    | Some o => if decide (s_id o ∈ closed (world s)) then (None, (closeSession key o s).2) else (Some o, s)
    | None => (None, s) end) = (r1, s1) /\ orphan id n s1 /\ next s1 = next s /\ (forall o, r1 = Some o -> s_id o <> id))
    as (r1 & s1 & -> & H1 & Hn & Hr1).
  { destruct (sessions s !! key) as [o|] eqn:E; [|by exists None, s].
    pose proof (or_tab _ _ _ H _ _ E) as Hne. destruct (decide _).
    - eexists _, _. split; [done|]. split; [by apply orphan_closeSession|].
      split; [apply closeSession_shape|done].
    - eexists _, _. split; [done|]. split; [done|]. split; [done|]. by intros o' [= <-]. }
  destruct r1 as [o|]. { split; [done|]. split; [lia|]. intros o' [= <-]. by apply Hr1. }
  set (ip := PeerIP _ _ _).
  assert (exists ok rel s2, (match quota (world s1) with
    | None => (true, None, s1)
    | Some q => let '(ok, q) := TryAcquire ip q in
        (ok, Some ip, set_world s1 (mkWorld (closed (world s1)) (conn_closed (world s1)) (Some q))) end)
    = (ok, rel, s2) /\ orphan id n s2 /\ next s2 = next s1) as (ok & rel & s2 & -> & H2 & Hn2).
  { destruct (quota (world s1)) as [q|]; [|eexists _, _, _; by eauto].
    destruct (TryAcquire ip q) as [ok q']. eexists _, _, _. split; [done|]. split; [|done].
    by apply (orphan_same id n s1). }
  destruct ok; cbn [negb]; [|split; [by apply (orphan_same id n s2)|cbn; split; [lia|done]]].
  assert (room s2) as Hroom2 by (unfold room in *; by rewrite Hn2, Hn).
  pose proof (orphan_new id n false (fun _ => key) rel now s2 H2 Hroom2) as Hnew.
  destruct (new_session false (fun _ => key) rel now s2) as [o s3].
  destruct Hnew as (H3 & Hne & _ & Hn3 & Ek). cbn beta in Ek. rewrite <- Ek.
  pose proof (orphan_store id n s3 o H3 Hne) as H4. cbn [set_sessions mgr].
  set (s4 := set_sessions s3 _) in *. change (mgr s3) with (mgr s4).
  destruct (SessionManager.Register (Some (handle o)) (mgr s4)) as [[err|] m] eqn:Er.
  - split; [|cbn; split; [lia|done]]. apply (orphan_same id n s4); try done. apply delete_subseteq.
  - pose proof (orphan_register id n s4 _ _ _ H4 Er) as H5. cbn [set_mgr user].
    destruct (OnAccept o _) as [[err ids] u].
    destruct (SessionManager.Register_shape (Some (handle o)) (mgr s4)) as (_ & Hnm & _).
    rewrite Er in Hnm. cbn [snd] in Hnm. change (next s4) with (next s3) in Hnm.
    assert (orphan id n (after_call ids u (set_mgr s4 m))) as H6 by by apply (orphan_same id n _ _ H5).
    destruct err as [err|].
    + split; [|cbn [set_world set_mgr set_sessions after_call set_user mgr];
        rewrite (proj2 (SessionManager.Unregister_shape (s_id o) m)); split; [lia|done]].
      pose proof (orphan_unregister id n _ (s_id o) H6 Hne) as H7.
      apply (orphan_same id n _ _ H7); try done. apply delete_subseteq.
    + split; [by apply orphan_accept|cbn; split; [lia|by intros o' [= <-]]].
Qed.

Lemma orphan_call_handler id n h o payload s :
  orphan id n s -> let '(_, s') := call_handler h o payload s in orphan id n s' /\ next s' = next s.
Proof.
  intros H. unfold call_handler, CallHandlerObserved, CallHandler.
  destruct (h o payload (user s)) as [[r ids] u].
  destruct r as [e|], observed; (split; [by apply (orphan_same id n s)|done]).
Qed.

Lemma orphan_receive id n addr payload now s :
  orphan id n s -> room s ->
  orphan id n (receive addr payload now s) /\ next (receive addr payload now s) <= next s + 1.
Proof.
  intros H Hroom. unfold receive. pose proof (orphan_getOrCreate id n addr now s H Hroom) as Hg.
  destruct (getOrCreateSession addr now s) as [[o|] s1]; destruct Hg as (H1 & Hn & Hne); [|done].
  specialize (Hne o eq_refl). set (s2 := set_activeAt s1 _).
  destruct (OnMessage o payload (user s2)) as [[[pl err] ids] u]. set (s3 := after_call ids u s2).
  assert (orphan id n s3) as H3 by by apply (orphan_same id n s1).
  assert (forall s4, orphan id n s4 -> next s4 = next s1 ->
    orphan id n (closeSession (s_key o) o s4).2 /\ next (closeSession (s_key o) o s4).2 <= next s + 1) as Hclose.
  { intros s4 H4 En. split; [by apply orphan_closeSession|]. rewrite (proj1 (closeSession_shape _ _ _)). lia. }
  assert (next s3 <= next s + 1) as Hn3 by done.
  destruct err as [err|]; [destruct (errors_Is err ErrPluginDrop); [done|by apply Hclose]|].
  destruct Handler as [h|]; [|done]. pose proof (orphan_call_handler id n h o pl s3 H3) as Hc.
  destruct (call_handler h o pl s3) as [[err|] s4]; destruct Hc as (H4 & En); [by apply Hclose|].
  split; [done|]. rewrite En. done.
Qed.

Lemma orphan_fold id n (f : Server -> Key * session -> Server) l s :
  (forall s ko, orphan id n s -> s_id ko.2 <> id -> orphan id n (f s ko)) ->
  orphan id n s -> (forall ko, ko ∈ l -> s_id ko.2 <> id) -> orphan id n (fold_left f l s).
Proof.
  intros Hf. revert s. induction l as [|ko l IH]; intros s H Hl; [done|]. cbn [fold_left].
  apply IH; [apply Hf; [done|apply Hl; by left]|intros ko' Hin; apply Hl; by right].
Qed.

Lemma orphan_snapshot id n s ko : orphan id n s -> ko ∈ map_range (sessions s) -> s_id ko.2 <> id.
Proof. destruct ko as [k o]. rewrite elem_of_map_range. intros H E. by eapply or_tab. Qed.

Lemma orphan_finish id n o acc s :
  orphan id n s -> s_id o <> id -> orphan id n (dtls_finish o acc s).
Proof.
  intros H Hne. unfold dtls_finish. set (s1 := set_conns _ _ _).
  assert (orphan id n s1) as H1 by (apply (orphan_same id n s); try done; cbn; set_solver).
  destruct (sessions s1 !! _); [|done]. set (s2 := set_sessions s1 _).
  assert (orphan id n s2) as H2 by (apply (orphan_same id n s1); try done; apply delete_subseteq).
  apply (orphan_unregister id n s2 (s_id o)) in H2; [|done]. destruct acc; [|done].
  cbn [set_mgr user]. destruct (OnClose o _) as [ids u].
  apply (orphan_log id n _ (s_id o)) in H2; [|done]. by apply (orphan_same id n _ _ H2).
Qed.

Lemma dtls_finish_next o acc s : next (dtls_finish o acc s) = next s.
Proof.
  unfold dtls_finish. set (s1 := set_conns _ _ _). change (next s) with (next s1).
  destruct (sessions s1 !! _); [|done]. cbn [set_mgr set_sessions user].
  pose proof (proj2 (SessionManager.Unregister_shape (s_id o) (mgr s1))) as Hn.
  destruct acc; [|exact Hn]. destruct (OnClose o _) as [ids u]. exact Hn.
Qed.

Lemma orphan_open id n now s :
  orphan id n s -> room s -> orphan id n (dtls_open now s) /\ next (dtls_open now s) <= next s + 1.
Proof.
  intros H Hroom. unfold dtls_open. pose proof (orphan_new id n true inr None now s H Hroom) as Hnew.
  destruct (new_session true inr None now s) as [o s1]. destruct Hnew as (H1 & Hne & _ & Hn & Ek).
  rewrite <- Ek. pose proof (orphan_store id n s1 o H1 Hne) as H2. set (s2 := set_sessions s1 _) in *.
  set (s3 := set_conns s2 _ _). assert (orphan id n s3) as H3 by by apply (orphan_same id n s2).
  assert (forall s4 acc, orphan id n s4 -> next s4 = next s1 ->
    orphan id n (dtls_finish o acc (set_world s4 (Close o (world s4)))) /\
    next (dtls_finish o acc (set_world s4 (Close o (world s4)))) <= next s + 1) as Hfin.
  { intros s4 acc H4 En. split; [|rewrite dtls_finish_next; cbn; lia].
    apply orphan_finish; [|done]. by apply (orphan_same id n s4). }
  change (mgr s1) with (mgr s3). change (mgr s2) with (mgr s3).
  destruct (SessionManager.Register (Some (handle o)) (mgr s3)) as [[err|] m] eqn:Er; [by apply Hfin|].
  pose proof (orphan_register id n s3 _ _ _ H3 Er) as H5. cbn [set_mgr user].
  destruct (OnAccept o _) as [[err ids] u]. set (s6 := after_call ids u _).
  assert (orphan id n s6) as H6 by by apply (orphan_same id n _ _ H5).
  destruct (SessionManager.Register_shape (Some (handle o)) (mgr s3)) as (_ & Hnm & _).
  rewrite Er in Hnm. cbn [snd] in Hnm. change (next s3) with (next s1) in Hnm.
  destruct err as [err|]; [by apply Hfin|]. split; [|cbn; lia].
  apply (orphan_accept id n s6 (s_id o)) in H6. destruct H6. split; try done. cbn. set_solver.
Qed.

Lemma orphan_turn id n o r now s :
  orphan id n s -> s_id o <> id -> orphan id n (dtls_turn o r now s) /\ next (dtls_turn o r now s) = next s.
Proof.
  intros H Hne.
  assert (forall s', orphan id n s' -> next s' = next s ->
    orphan id n (dtls_finish o true s') /\ next (dtls_finish o true s') = next s) as Hfin.
  { intros s' H' En. rewrite dtls_finish_next. split; [by apply orphan_finish|done]. }
  destruct r as [|t|pl]; cbn [dtls_turn]; [by apply Hfin|destruct t; apply Hfin; try done; by apply (orphan_same id n s)|].
  set (s2 := set_activeAt s _). destruct (OnMessage o pl (user s2)) as [[[pl' err] ids] u].
  set (s3 := after_call ids u s2). assert (orphan id n s3) as H3 by by apply (orphan_same id n s).
  destruct err as [err|]; [destruct (errors_Is err ErrPluginDrop); (split; [by apply (orphan_same id n s3)|done])|].
  destruct Handler as [h|]; [|done]. pose proof (orphan_call_handler id n h o pl' s3 H3) as Hc.
  destruct (call_handler h o pl' s3) as [[err|] s4]; destruct Hc as (H4 & En);
    (split; [by apply (orphan_same id n s4)|exact En]).
Qed.

Lemma orphan_step id n s o : orphan id n s -> room s -> orphan id n (step s o) /\ next (step s o) <= next s + 1.
Proof.
  intros H Hroom. destruct o as [addr pl now|now| |ids u|now|id' r now| |sh|id']; cbn [step].
  - by apply orphan_receive.
  - split.
    + apply orphan_fold; [|done|by intros; eapply orphan_snapshot]. intros s' ko H' Hne.
      destruct (idle _ _ _); [|done]. unfold sweep_close. pose proof (orphan_closeSession id n ko.1 ko.2 s' H' Hne) as Hc.
      destruct (closeSession ko.1 ko.2 s') as [[|] s'']; [by apply (orphan_same id n s'')|done].
    + enough (next (sweep now s) = next s) by lia. unfold sweep. generalize (map_range (sessions s)). intros l.
      clear H Hroom. revert s. induction l as [|ko l IH]; intros s; [done|]. cbn [fold_left]. rewrite IH.
      destruct (idle _ _ _); [|done]. apply sweep_close_shape.
  - split; [apply orphan_fold; [|done|by intros; eapply orphan_snapshot]; intros; by apply orphan_closeSession|].
    enough (next (CloseSessions s) = next s) by lia. unfold CloseSessions. generalize (map_range (sessions s)). intros l.
    clear H Hroom. revert s. induction l as [|ko l IH]; intros s; [done|]. cbn [fold_left]. rewrite IH. apply closeSession_shape.
  - split; [by apply (orphan_same id n s)|cbn; lia].
  - by apply orphan_open.
  - destruct (decide (id' ∈ live s)) as [Hl|]; [|split; [done|lia]].
    destruct (objs s !! id') as [o|] eqn:E; [|split; [done|lia]].
    pose proof (or_keyed _ _ _ H _ _ E) as Eid. cbn in Eid.
    destruct (orphan_turn id n o r now s H) as [H' Hn]; [|split; [done|lia]].
    intros E'. apply (or_live _ _ _ H). by rewrite <- E', Eid.
  - split; [by apply (orphan_same id n s)|cbn; lia].
  - unfold SessionManager.NextID. set (m := SessionManager.mkSessionManager _ _ _ _).
    destruct (SessionManager.Register (Some _) m) as [e m'] eqn:Er. cbn [snd].
    destruct (SessionManager.Register_shape (Some (SessionManager.mkSession (u64 (next s + 1)) sh)) m) as (_ & Hn & _).
    assert (u64 (next s + 1) = next s + 1) as Eid by (apply uwrap_small; unfold room, bounded, max_int64 in Hroom; lia).
    assert (orphan id n (set_mgr s m)) as Hm.
    { destruct H. split; try done. cbn. lia. }
    pose proof (orphan_register id n (set_mgr s m) _ _ _ Hm Er) as H'. rewrite Er in Hn. cbn [snd] in Hn.
    split; [exact H'|]. cbn. rewrite Hn. cbn. lia.
  - destruct (objs s !! id') as [o|] eqn:E; [split; [done|lia]|].
    split; [|cbn [set_mgr mgr]; rewrite (proj2 (SessionManager.Unregister_shape id' (mgr s))); lia].
    apply orphan_unregister; [done|]. intros ->. destruct (or_objs _ _ _ H). congruence.
Qed.

Lemma orphan_run id n ops s :
  orphan id n s -> bounded (next s + Z.of_nat (length ops)) -> orphan id n (run s ops).
Proof.
  revert s. induction ops as [|o ops IH]; intros s H Hb; [done|]. cbn [run fold_left length] in *.
  pose proof (or_next _ _ _ H). unfold bounded in *.
  destruct (orphan_step id n s o H) as [H' Hn]; [unfold room, bounded; lia|].
  pose proof (or_next _ _ _ H'). apply IH; [done|]. unfold bounded. lia.
Qed.

(** A sweep that is overtaken loses a live session.  The sweep loads a
    session and finds it idle; before it calls closeSession the read loop
    replaces the peer's session by a new one (the old one was closed by user
    code, or its handler failed).  closeSession then deletes the table entry by
    key, which is the new session's, but unregisters and closes the old one: the
    old session gets one more OnClose, and whatever the server does afterwards
    the new session stays registered with the manager, is not in the table, so
    no datagram, sweep or CloseSessions reaches it, and never gets its OnClose. *)
Theorem stale_sweep_orphans mx u ops ops1 ops2 k o1 o2 now :
  Z.of_nat (length ops + length ops1 + length ops2) < max_int64 ->
  let s0 := run (started mx u) ops in
  let s1 := run s0 ops1 in
  sessions s0 !! (inl k) = Some o1 -> idle now o1 s0 = true ->
  sessions s1 !! (inl k) = Some o2 -> s_id o2 <> s_id o1 ->
  let s2 := sweep_close (inl k) o1 s1 in
  let s3 := run s2 ops2 in
  sessions s2 !! (inl k) = None /\
  times (EvClose (s_id o1)) (log s2) = S (times (EvClose (s_id o1)) (log s1)) /\
  is_Some (mgr_Get (s_id o2) (mgr s3)) /\
  (forall key, sessions s3 !! key <> Some o2) /\
  times (EvAccept (s_id o2)) (log s1) = 1%nat /\ times (EvClose (s_id o2)) (log s3) = 0%nat.
Proof.
  intros Hops s0 s1 E0 Hidle E1 Hne s2 s3.
  destruct (run_inv ops (started mx u) (inv_Start mx u)) as [H0 Hn0].
  { change (next (started mx u)) with 0. unfold bounded, max_int64 in *. lia. }
  change (run (started mx u) ops) with s0 in H0, Hn0. change (next (started mx u)) with 0 in Hn0.
  pose proof (i_next _ _ H0) as Hb0. unfold bounded in Hb0.
  destruct (run_inv ops1 s0 H0) as [H1 Hn1]; [unfold bounded; lia|]. change (run s0 ops1) with s1 in H1, Hn1.
  pose proof (i_next _ _ H1) as Hb1. unfold bounded in Hb1.
  destruct (i_tab _ _ H1 _ _ E1) as [Ho2 Ek2]. cbn in Ek2. rewrite <- Ek2 in E1.
  destruct (calls_in _ _ _ _ (i_calls _ _ H1 _ _ Ho2 ltac:(done)) E1) as [Ha Hc].
  unfold s3, s2, sweep_close, closeSession. rewrite <- Ek2, E1.
  cbn [set_world set_mgr set_sessions user mgr world]. destruct (OnClose o1 _) as [ids v].
  set (s4 := after_call ids v _).
  assert (forall l, orphan (s_id o2) 0 (add_metrics s4 l)) as H4.
  { intros l. split.
    - unfold s4; cbn [add_metrics after_call set_user set_world set_mgr set_sessions add_log mgr].
      rewrite (proj1 (SessionManager.Unregister_shape _ _)). apply H1.
    - unfold s4; cbn [add_metrics after_call set_user set_world set_mgr set_sessions add_log mgr]. rewrite SessionManager.Get_Unregister by apply H1.
      rewrite decide_False by done. by apply (i_reg _ _ H1 _ _ Ho2).
    - unfold s4; cbn [add_metrics after_call set_user set_world set_mgr set_sessions add_log sessions]. intros key o Ho Eid.
      apply lookup_delete_Some in Ho as [Hk Ho]. destruct (i_tab _ _ H1 _ _ Ho) as [Hob Ek].
      rewrite Eid in Hob. congruence.
    - cbn. intros Hl. destruct (i_live _ _ H1 _ Hl) as (o & Ho & _ & Ek & _). rewrite Ho2 in Ho. congruence.
    - by eexists.
    - apply H1.
    - unfold s4; cbn [add_metrics after_call set_user set_world set_mgr set_sessions add_log mgr].
      rewrite (proj2 (SessionManager.Unregister_shape _ _)). split; [apply (i_old _ _ H1); left; by eexists|].
      lia.
    - unfold s4; cbn [add_metrics after_call set_user set_world set_mgr set_sessions add_log log]. rewrite times_app, times_one, decide_False by congruence. lia. }
  split; [cbn; apply lookup_delete_eq|].
  split. { unfold s4; cbn [add_metrics after_call set_user set_world set_mgr set_sessions add_log log]. rewrite times_app, times_one, decide_True by done. lia. }
  pose proof (orphan_run _ _ ops2 _ (H4 (IncProtocolCounter observed MetricSessionsReclaimed ProtocolUDP))) as H5.
  destruct H5 as [_ Hreg Htab _ _ _ _ Hcalls].
  { unfold s4; cbn [add_metrics after_call set_user set_world set_mgr set_sessions add_log mgr].
    rewrite (proj2 (SessionManager.Unregister_shape _ _)). unfold bounded. lia. }
  split; [done|]. split; [|done]. intros key Hk. by eapply Htab.
Qed.
End server.


(** ** A sample server *)

Definition sample_opts : Options := WithMaxSessionsPerPeer 2 (WithMaxSessions 8 defaultOptions).
Definition sample_run : Server (U := unit) -> list op -> Server (U := unit) :=
  run (Hr := map_range_std) (fun _ u => (None, [], u)) (fun _ data u => (data, None, [], u)) (fun _ u => ([], u))
    None sample_opts true (fun _ => None) (fun _ => None).
Definition sample_start : Server (U := unit) := started sample_opts 100 tt.
Definition addr1 : bytes * Z * string := ([10; 0; 0; 1], 4000, ""%string).
Definition addr2 : bytes * Z * string := ([10; 0; 0; 1], 4001, ""%string).



Lemma stale_sweep_orphans_witness :
  let k := inl (NewPeerKey (Some addr1)) in
  let s1 := sample_run sample_start [Datagram addr1 [1] 5; UserClose [1] tt; Datagram addr1 [2] (200 * second)] in
  let o1 := mkSession 1 false k (Some (Addr4 [10; 0; 0; 1])) in
  let o2 := mkSession 2 false k (Some (Addr4 [10; 0; 0; 1])) in
  let s2 := sweep_close (fun _ u => ([], u)) true k o1 s1 in
  is_Some (mgr_Get 2 (mgr (sample_run s2 [Datagram addr1 [3] (201 * second); CloseAll]))) /\
  times (EvClose 1) (log s2) = 2%nat.
Proof.
  pose proof (stale_sweep_orphans (Hr := map_range_std) (fun _ u => (None, [], u)) (fun _ data u => (data, None, [], u))
    (fun _ u => ([], u)) None sample_opts true (fun _ => None) (fun _ => None) 100 tt
    [Datagram addr1 [1] 5] [UserClose [1] tt; Datagram addr1 [2] (200 * second)]
    [Datagram addr1 [3] (201 * second); CloseAll] (NewPeerKey (Some addr1))
    (mkSession 1 false (inl (NewPeerKey (Some addr1))) (Some (Addr4 [10; 0; 0; 1])))
    (mkSession 2 false (inl (NewPeerKey (Some addr1))) (Some (Addr4 [10; 0; 0; 1]))) (190 * second)
    ltac:(by vm_compute) ltac:(by vm_compute) ltac:(by vm_compute) ltac:(by vm_compute) ltac:(done)) as (_ & Hc & Hr & _).
  split; [exact Hr|]. refine (eq_trans Hc _). by vm_compute.
Defined.
