(* ===== verification/GrpcFraming.v ===== *)
(** * GrpcFraming: [internal/transport/grpcweb/framing.go]

    The gRPC-Web wire format: data and trailer frames, the request payload they
    carry, and the percent-encoding of the [grpc-message] trailer. *)
From S2P Require Import Prelude Bytes Core.
Local Open Scope Z_scope.
Local Open Scope list_scope.

(* go: internal/transport/grpcweb/framing.go:12-14 (dataFrameFlag) *)
Definition dataFrameFlag : Z := 0x00.
Definition trailerFrameFlag : Z := 0x80.
Definition frameHeaderSize : Z := 5.

Definition errHeaderTruncated : error := ErrMsg "grpc-web frame header truncated".
Definition errPayloadTruncated : error := ErrMsg "grpc-web frame payload truncated".
Definition errFrameFlag : error := ErrMsg "unsupported grpc-web frame flag".

(** One iteration reads a frame: five header bytes and the payload they
    announce.  Every iteration consumes at least the header, so [length body]
    iterations are enough; [None] is the exhaustion of the fuel, which
    [parseDataFrames_total] excludes. *)
(* go: internal/transport/grpcweb/framing.go:39-69 (parseDataFrames) *)
Fixpoint parse_frames (fuel : nat) (body out : bytes) (framed : bool) :
    option (result error (bytes * bool)) :=
  match body with
  | [] => Some (if framed then Ok (out, true) else Ok ([], false))
  | _ :: _ =>
      match fuel with
      | O => None
      | S fuel' =>
          if len body <? frameHeaderSize then Some (Err errHeaderTruncated)
          else
            let flag := byte_at body 0 in
            let size := be_get (take 4 (drop 1 body)) in
            let body := drop 5 body in
            if (size <? 0) || (len body <? size) then Some (Err errPayloadTruncated)
            else
              let payload := take (Z.to_nat size) body in
              let body := drop (Z.to_nat size) body in
              if flag =? dataFrameFlag then parse_frames fuel' body (out ++ payload) true
              else if flag =? trailerFrameFlag then parse_frames fuel' body out true
              else Some (Err errFrameFlag)
      end
  end.

Definition parseDataFrames (body : bytes) : option (result error (bytes * bool)) :=
  parse_frames (length body) body [] false.

(* go: internal/transport/grpcweb/framing.go:22-36 (parseRequestPayload) *)
Definition parseRequestPayload (body : bytes) (strict : bool) :
    option (result error (bytes * bool)) :=
  if len body <? frameHeaderSize then Some (Ok (body, false))
  else
    match parseDataFrames body with
    | None => None
    | Some (Err err) => Some (if strict then Err err else Ok (body, false))
    | Some (Ok (_, false)) => Some (Ok (body, false))
    | Some (Ok (payload, true)) => Some (Ok (payload, true))
    end.

(* go: internal/transport/grpcweb/framing.go:71-75 (appendDataFrame) *)
Definition appendDataFrame (dst payload : bytes) : bytes :=
  dst ++ dataFrameFlag :: be_put 4 (u32 (len payload)) ++ payload.

(** ** The grpc-message trailer *)

(* go: internal/transport/grpcweb/framing.go:98-100 (grpcWebSafeByte) *)
Definition grpcWebSafeByte (c : Z) : bool :=
  ((0x20 <=? c) && (c <=? 0x24)) || ((0x26 <=? c) && (c <=? 0x7e)).

(* go: internal/transport/grpcweb/framing.go:93-93 (upperHex) *)
Definition upperHex : bytes := bytes_of_string "0123456789ABCDEF".

(* go: internal/transport/grpcweb/framing.go:107-132 (encodeGRPCMessage) *)
Definition encodeGRPCMessage (s : bytes) : bytes :=
  if forallb grpcWebSafeByte s then s
  else s ≫= (fun c =>
    if grpcWebSafeByte c then [c]
    else [37; byte_at upperHex (Z.to_nat (Z.shiftr c 4));
              byte_at upperHex (Z.to_nat (Z.land c 0x0f))]).

Definition crlf : bytes := [13; 10].

(* go: internal/transport/grpcweb/framing.go:77-91 (appendTrailerFrame) *)
Definition appendTrailerFrame (dst : bytes) (status : Z) (message : bytes) : bytes :=
  let trailers := bytes_of_string "grpc-status: " ++ bytes_of_string (pretty status) ++ crlf ++
    (match message with
     | [] => []
     | _ => bytes_of_string "grpc-message: " ++ encodeGRPCMessage message ++ crlf
     end) in
  dst ++ trailerFrameFlag :: be_put 4 (u32 (len trailers)) ++ trailers.

(** ** The frame grammar *)

(** A frame as the specification has it: a flag and a payload. *)
Definition frame_bytes (f : Z * bytes) : bytes := f.1 :: be_put 4 (len f.2) ++ f.2.

Definition frame_ok (f : Z * bytes) : Prop :=
  (f.1 = dataFrameFlag \/ f.1 = trailerFrameFlag) /\ len f.2 < 2 ^ 32.

(** The message the data frames carry. *)
Definition frames_data (fs : list (Z * bytes)) : bytes :=
  fs ≫= (fun f => if f.1 =? dataFrameFlag then f.2 else []).

Definition frames_result (fs : list (Z * bytes)) : bytes * bool :=
  match fs with [] => ([], false) | _ => (frames_data fs, true) end.

Lemma frame_bytes_length f : (5 + length f.2)%nat = length (frame_bytes f).
Proof. unfold frame_bytes. cbn [length]. rewrite length_app, length_be_put. lia. Qed.

(** Reading one well-formed frame off the front. *)
Lemma parse_frames_step f rest fuel out framed :
  frame_ok f ->
  parse_frames (S fuel) (frame_bytes f ++ rest) out framed =
  parse_frames fuel rest (out ++ (if f.1 =? dataFrameFlag then f.2 else [])) true.
Proof.
  intros [Hflag Hlen]. unfold frame_bytes. cbn [app parse_frames].
  assert ((len (f.1 :: (be_put 4 (len f.2) ++ f.2) ++ rest) <? frameHeaderSize) = false) as ->.
  { apply Z.ltb_ge. rewrite len_cons, !len_app. unfold frameHeaderSize, len at 1.
    rewrite length_be_put. pose proof (len_nonneg f.2). pose proof (len_nonneg rest). lia. }
  change (byte_at (f.1 :: _) 0) with f.1. cbn [drop].
  rewrite <- (app_assoc (be_put 4 _)), drop_0, take_be_put, drop_be_put.
  rewrite be_get_put_small by (pose proof (len_nonneg f.2); change (256 ^ Z.of_nat 4) with (2 ^ 32); lia).
  assert ((len f.2 <? 0) || (len (f.2 ++ rest) <? len f.2) = false) as ->.
  { rewrite len_app. pose proof (len_nonneg f.2). pose proof (len_nonneg rest).
    apply orb_false_iff. split; apply Z.ltb_ge; lia. }
  assert (Z.to_nat (len f.2) = length f.2) as -> by (unfold len; lia).
  rewrite take_app_length, drop_app_length.
  destruct Hflag as [-> | ->]; [done|]. cbn. by rewrite app_nil_r.
Qed.

Lemma parse_frames_complete fs fuel out framed :
  Forall frame_ok fs -> (length (fs ≫= frame_bytes) <= fuel)%nat ->
  parse_frames fuel (fs ≫= frame_bytes) out framed =
  Some (Ok (if framed || (match fs with [] => false | _ => true end) then (out ++ frames_data fs, true)
            else ([], false))).
Proof.
  intros H. revert fuel out framed. induction H as [|f fs Hf Hfs IH]; intros fuel out framed Hfuel.
  - cbn. destruct fuel, framed; cbn; by rewrite ?app_nil_r.
  - cbn [mbind list_bind] in *. rewrite length_app, <- frame_bytes_length in Hfuel.
    destruct fuel as [|fuel]; [lia|]. rewrite parse_frames_step by done.
    rewrite IH by (unfold mbind in *; lia). cbn [orb]. unfold frames_data. csimpl.
    rewrite orb_true_r. by rewrite <- app_assoc.
Qed.

(** A frame the parser reads off the front is a well-formed frame. *)
Lemma split_frame body :
  bytes_ok body -> (len body <? frameHeaderSize) = false ->
  (be_get (take 4 (drop 1 body)) <? 0) || (len (drop 5 body) <? be_get (take 4 (drop 1 body))) = false ->
  let n := Z.to_nat (be_get (take 4 (drop 1 body))) in
  body = frame_bytes (byte_at body 0, take n (drop 5 body)) ++ drop n (drop 5 body) /\
  len (take n (drop 5 body)) < 2 ^ 32.
Proof.
  intros Hok Hlen Hsz. breflect. cbn zeta.
  set (h := take 4 (drop 1 body)) in *.
  assert (bytes_ok h) as Hh by (unfold h; auto with shark).
  assert (length h = 4%nat) as Hl4.
  { unfold h. rewrite length_take, length_drop. unfold len, frameHeaderSize in Hlen. lia. }
  pose proof (be_get_bound h Hh) as Hb. unfold len in Hb at 1. rewrite Hl4 in Hb.
  assert (len (take (Z.to_nat (be_get h)) (drop 5 body)) = be_get h) as El.
  { unfold len in *. rewrite length_take. lia. }
  split; [|rewrite El; change (2 ^ 32) with (256 ^ Z.of_nat 4); lia].
  unfold frame_bytes. cbn [fst snd]. rewrite El.
  pose proof (be_put_get h Hh) as Ep. rewrite Hl4 in Ep. rewrite Ep.
  destruct body as [|b body]; [unfold len, frameHeaderSize in Hlen; simpl in Hlen; lia|].
  change (byte_at (b :: body) 0) with b. cbn [app]. f_equal.
  rewrite <- app_assoc, take_drop. unfold h. change (drop 1 (b :: body)) with body.
  change (drop 5 (b :: body)) with (drop 4 body). by rewrite take_drop.
Qed.

Lemma parse_frames_sound fuel body out framed r :
  bytes_ok body -> parse_frames fuel body out framed = Some (Ok r) ->
  exists fs, body = fs ≫= frame_bytes /\ Forall frame_ok fs.
Proof.
  revert body out framed. induction fuel as [|fuel IH]; intros body out framed Hok;
    (destruct body as [|b body]; [by exists []|]); [done|].
  cbn [parse_frames]. split_match; [done|]. cbn zeta.
  split_match; [done|].
  pose proof (split_frame (b :: body) Hok Heqb0 Heqb1) as [Hsplit Hl]. cbn zeta in Hsplit, Hl.
  set (n := Z.to_nat _) in *.
  destruct (byte_at (b :: body) 0 =? dataFrameFlag) eqn:Hd;
    [|destruct (byte_at (b :: body) 0 =? trailerFrameFlag) eqn:Ht; [|done]];
    breflect; intros Hp; apply IH in Hp as (fs & E & Hfs); auto with shark;
    (exists ((byte_at (b :: body) 0, take n (drop 5 (b :: body))) :: fs); split;
      [cbn [mbind list_bind]; rewrite Hsplit at 1; f_equal; exact E|]; constructor; [|done]; split; [|done]).
  - by left.
  - by right.
Qed.

Lemma parse_frames_total fuel body out framed :
  (length body <= fuel)%nat -> parse_frames fuel body out framed <> None.
Proof.
  revert body out framed. induction fuel as [|fuel IH]; intros body out framed Hl;
    (destruct body as [|b body]; [done|]); [simpl in Hl; lia|].
  cbn [parse_frames]. repeat split_match; try done; apply IH;
    rewrite !length_drop; simpl in *; lia.
Qed.

(** The gRPC-Web body parser always terminates and accepts exactly the
    concatenations of data and trailer frames, returning the concatenation of
    the data frames' payloads, and reporting a framed body iff there is a
    frame. *)
Theorem parseDataFrames_exact body :
  bytes_ok body ->
  parseDataFrames body <> None /\
  forall payload framed,
    parseDataFrames body = Some (Ok (payload, framed)) <->
    exists fs, body = fs ≫= frame_bytes /\ Forall frame_ok fs /\
      frames_result fs = (payload, framed).
Proof.
  intros Hok. split; [by apply parse_frames_total|]. intros payload framed.
  assert (forall fs, body = fs ≫= frame_bytes -> Forall frame_ok fs ->
    parseDataFrames body = Some (Ok (frames_result fs))) as Hc.
  { intros fs -> Hfs. unfold parseDataFrames. rewrite parse_frames_complete by done.
    by destruct fs. }
  split.
  - intros Hp. destruct (parse_frames_sound _ _ _ _ _ Hok Hp) as (fs & E & Hfs).
    exists fs. split; [done|]. split; [done|]. rewrite (Hc fs E Hfs) in Hp. by simplify_eq.
  - intros (fs & E & Hfs & Er). by rewrite (Hc fs E Hfs), Er.
Qed.

Lemma parseDataFrames_exact_witness :
  parseDataFrames (appendDataFrame (appendDataFrame [] [1; 2]) [3]) = Some (Ok ([1; 2; 3], true)).
Proof.
  apply (proj2 (parseDataFrames_exact (appendDataFrame (appendDataFrame [] [1; 2]) [3])
                  ltac:(decide_now))).
  exists [(dataFrameFlag, [1; 2]); (dataFrameFlag, [3])].
  split; [done|]. split; [|done].
  repeat constructor; by left.
Defined.

(** ** Percent-encoding *)

(** What a client reads back: percent-decoding of a trailer value. *)
Definition hexval (c : Z) : Z := if c <=? 57 then c - 48 else c - 55.

Fixpoint unescape (l : bytes) : bytes :=
  match l with
  | [] => []
  | c :: l' =>
      if c =? 37 then
        match l' with
        | a :: b :: l'' => (hexval a * 16 + hexval b) :: unescape l''
        | _ => []
        end
      else c :: unescape l'
  end.

Definition wire_safe (c : Z) : bool := grpcWebSafeByte c || (c =? 37).

Lemma safe_not_percent c : grpcWebSafeByte c = true -> (c =? 37) = false.
Proof. unfold grpcWebSafeByte. intros H. apply Z.eqb_neq. intros ->. by vm_compute in H. Qed.

Lemma unescape_safe s : forallb grpcWebSafeByte s = true -> unescape s = s.
Proof.
  induction s as [|c s IH]; [done|]. cbn [forallb unescape]. intros [Hc Hs]%andb_true_iff.
  by rewrite safe_not_percent, IH.
Qed.

(** The two digits written for a byte stand for it and are safe. *)
Lemma escape_digits c : is_byte c ->
  let hi := byte_at upperHex (Z.to_nat (Z.shiftr c 4)) in
  let lo := byte_at upperHex (Z.to_nat (Z.land c 0x0f)) in
  hexval hi * 16 + hexval lo = c /\ wire_safe hi = true /\ wire_safe lo = true.
Proof.
  intros Hc.
  pose proof (byte_forall (fun c =>
    let hi := byte_at upperHex (Z.to_nat (Z.shiftr c 4)) in
    let lo := byte_at upperHex (Z.to_nat (Z.land c 0x0f)) in
    (hexval hi * 16 + hexval lo =? c) && wire_safe hi && wire_safe lo)
    ltac:(by vm_compute) c Hc) as H.
  cbn zeta beta in H. apply andb_true_iff in H as [[H1 H2]%andb_true_iff H3].
  apply Z.eqb_eq in H1. auto.
Qed.

(** A status message cannot break out of its trailer line: its encoding
    consists of printable bytes only (no CR, no LF), whatever the message, and
    percent-decoding it on the client gives the message back. *)
Theorem grpc_message_roundtrip s :
  bytes_ok s ->
  Forall (fun c => 0x20 <= c <= 0x7e) (encodeGRPCMessage s) /\
  unescape (encodeGRPCMessage s) = s.
Proof.
  intros Hs.
  enough (Forall (fun c => wire_safe c = true) (encodeGRPCMessage s) /\
          unescape (encodeGRPCMessage s) = s) as [H ->].
  { split; [|done]. eapply Forall_impl; [exact H|]. intros c Hc.
    unfold wire_safe, grpcWebSafeByte in Hc.
    repeat match goal with H : _ || _ = true |- _ => apply orb_true_iff in H as [H|H] end;
      breflect; lia. }
  unfold encodeGRPCMessage. destruct (forallb grpcWebSafeByte s) eqn:E.
  { split; [|by apply unescape_safe]. apply Forall_forall. intros c Hc.
    rewrite forallb_forall in E. apply list_elem_of_In in Hc. unfold wire_safe. by rewrite E. }
  clear E. induction Hs as [|c s Hc Hs [IH1 IH2]]; [done|].
  cbn [mbind list_bind]. destruct (grpcWebSafeByte c) eqn:Ec.
  - cbn [app unescape]. rewrite safe_not_percent by done. split; [|f_equal; exact IH2].
    constructor; [unfold wire_safe; by rewrite Ec|exact IH1].
  - destruct (escape_digits c Hc) as (Hv & Hh & Hl). cbn [app unescape].
    change (37 =? 37) with true. cbn [app]. cbn iota. split; [|f_equal; [exact Hv|exact IH2]].
    repeat constructor; done.
Qed.

Lemma grpc_message_roundtrip_witness :
  encodeGRPCMessage [97; 13; 10; 37] = bytes_of_string "a%0D%0A%25" /\
  unescape (encodeGRPCMessage [97; 13; 10; 37]) = [97; 13; 10; 37].
Proof.
  split; [done|]. apply (grpc_message_roundtrip [97; 13; 10; 37] ltac:(decide_now)).
Defined.
