(* ===== verification/ProxyProto.v ===== *)
(** * ProxyProto: [internal/transport/shared/proxyproto.go]

    The PROXY protocol header that precedes a connection's payload: the text
    form (v1), the binary form (v2), and the listener modes.  Error texts are
    reduced to the sentinel they wrap. *)
From S2P Require Import Prelude Bytes Core Stream PeerAddr.
Local Open Scope string_scope.
Local Open Scope Z_scope.
Local Open Scope list_scope.

(* go: internal/transport/shared/proxyproto.go:18-42 (ProxyProtocolMode) *)
Inductive ProxyProtocolMode : Type := ProxyProtocolOff | ProxyProtocolV1 | ProxyProtocolV2 | ProxyProtocolAuto.

#[export] Instance ProxyProtocolMode_eq_dec : EqDecision ProxyProtocolMode.
Proof. solve_decision. Defined.

(* go: internal/transport/shared/proxyproto.go:44-57 (String) *)
Definition ProxyProtocolMode_String (m : ProxyProtocolMode) : string :=
  match m with
  | ProxyProtocolOff => "off"
  | ProxyProtocolV1 => "v1"
  | ProxyProtocolV2 => "v2"
  | ProxyProtocolAuto => "auto"
  end.

(* go: internal/transport/shared/proxyproto.go:59-70 (ErrProxyHeaderInvalid) *)
Definition ErrProxyHeaderInvalid : error := ErrMsg "shared: invalid PROXY protocol header".
Definition ErrProxyHeaderVersion : error := ErrMsg "shared: PROXY protocol version not accepted by this listener".
Definition ErrProxyHeaderTooLong : error := ErrMsg "shared: PROXY protocol header exceeds the size limit".

(* go: internal/transport/shared/proxyproto.go:72-87 (proxyV1MaxLen) *)
Definition proxyV1MaxLen : Z := 107.
Definition proxyHeaderBuffer : nat := 256.
Definition proxyV2MaxPayload : Z := 2048.

(* go: internal/transport/shared/proxyproto.go:89-103 (proxyV1Signature) *)
Definition proxyV1Signature : bytes := bytes_of_string "PROXY ".
Definition proxyV2Signature : bytes := [0x0D; 0x0A; 0x0D; 0x0A; 0x00; 0x0D; 0x0A; 0x51; 0x55; 0x49; 0x54; 0x0A].
Definition proxyV2CmdProxy : Z := 0x1.
Definition proxyFamTCP4 : Z := 0x11.
Definition proxyFamUDP4 : Z := 0x12.
Definition proxyFamTCP6 : Z := 0x21.
Definition proxyFamUDP6 : Z := 0x22.

(* go: internal/transport/shared/proxyproto.go:118-124 (proxyHeader) *)
Record proxyHeader : Type := mkHeader { source : option NetAddr; dest : option NetAddr }.
Definition no_addr : proxyHeader := mkHeader None None.

Definition invalid : error := ErrWrap "header" ErrProxyHeaderInvalid.
Definition wrong_version : error := ErrWrap "header" ErrProxyHeaderVersion.
Definition too_long : error := ErrWrap "header" ErrProxyHeaderTooLong.

(** [ip.To4() != nil] *)
Definition is_v4 (ip : bytes) : bool :=
  (length ip =? 4)%nat || ((length ip =? 16)%nat && bool_decide (take 12 ip = v4_prefix)).

Section proxy.
Local Open Scope shark_scope.
(** [net.ParseIP] *)
Variable ParseIP : bytes -> option bytes.

(* go: internal/transport/shared/proxyproto.go:354-363 (parseProxyIP) *)
Definition parseProxyIP (s : bytes) (wantV4 : bool) : result error bytes :=
  match ParseIP s with
  | None => Err invalid
  | Some ip => if negb (Bool.eqb wantV4 (is_v4 ip)) then Err invalid else Ok ip
  end.

(* go: internal/transport/shared/proxyproto.go:365-371 (parseProxyPort) *)
Definition parseProxyPort (s : bytes) : result error Z :=
  match Atoi s with
  | Some port => if (port <? 0) || (65535 <? port) then Err invalid else Ok port
  | None => Err invalid
  end.

(** The fields of a v1 line without its CRLF. *)
(* go: internal/transport/shared/proxyproto.go:316-351 (readProxyV1) *)
Definition parse_v1_line (line : bytes) : result error proxyHeader :=
  let fields := split_on 32 [] line in
  match fields with
  | proxy :: family :: args =>
      if negb (bool_decide (proxy = bytes_of_string "PROXY")) then Err invalid
      else if bool_decide (family = bytes_of_string "UNKNOWN") then Ok no_addr
      else
        let v4 := bool_decide (family = bytes_of_string "TCP4") in
        if negb (v4 || bool_decide (family = bytes_of_string "TCP6")) then Err invalid
        else
          match args with
          | [a; b; p; q] =>
              let? src := parseProxyIP a v4 in
              let? dst := parseProxyIP b v4 in
              let? sport := parseProxyPort p in
              let? dport := parseProxyPort q in
              Ok (mkHeader (Some (TCPAddr src sport "")) (Some (TCPAddr dst dport "")))
          | _ => Err invalid
          end
  | _ => Err invalid
  end.

(* go: internal/transport/shared/proxyproto.go:294-352 (readProxyV1) *)
Definition readProxyV1 (s : bytes) : result error proxyHeader * bytes :=
  match ReadSlice proxyHeaderBuffer 10 s with
  | (SliceFull _, s) => (Err too_long, s)
  | (SliceErr _, s) => (Err invalid, s)
  | (SliceDelim line, s) =>
      if proxyV1MaxLen <? len line then (Err too_long, s)
      else if (len line <? 2) || negb (byte_at line (length line - 2) =? 13) then (Err invalid, s)
      else (parse_v1_line (take (length line - 2) line), s)
  end.

(* go: internal/transport/shared/proxyproto.go:432-437 (proxyAddr) *)
Definition proxyAddr (ip : bytes) (port : Z) (dgram : bool) : NetAddr :=
  if dgram then UDPAddr ip port "" else TCPAddr ip port "".

(** The address block of a PROXY command. *)
(* go: internal/transport/shared/proxyproto.go:402-429 (readProxyV2) *)
Definition parse_v2_payload (cmd famProto : Z) (payload : bytes) : result error proxyHeader :=
  if negb (cmd =? proxyV2CmdProxy) then Ok no_addr
  else
    let v4 := (famProto =? proxyFamTCP4) || (famProto =? proxyFamUDP4) in
    let v6 := (famProto =? proxyFamTCP6) || (famProto =? proxyFamUDP6) in
    if negb (v4 || v6) then Ok no_addr
    else
      let dgram := (famProto =? proxyFamUDP4) || (famProto =? proxyFamUDP6) in
      let n := if v4 then 4%nat else 16%nat in
      if len payload <? Z.of_nat (n + n + 4) then Err invalid
      else
        let srcIP := take n payload in
        let dstIP := take n (drop n payload) in
        let sport := be_get (take 2 (drop (n + n) payload)) in
        let dport := be_get (take 2 (drop (n + n + 2) payload)) in
        Ok (mkHeader (Some (proxyAddr srcIP sport dgram)) (Some (proxyAddr dstIP dport dgram))).

(* go: internal/transport/shared/proxyproto.go:373-430 (readProxyV2) *)
Definition readProxyV2 (s : bytes) : result error proxyHeader * bytes :=
  match ReadFull 16 s with
  | (Err _, s) => (Err invalid, s)
  | (Ok fixed, s) =>
      if negb (bool_decide (take 12 fixed = proxyV2Signature)) then (Err wrong_version, s)
      else if negb (Z.shiftr (byte_at fixed 12) 4 =? 0x2) then (Err wrong_version, s)
      else
        let cmd := Z.land (byte_at fixed 12) 0x0F in
        let famProto := byte_at fixed 13 in
        let length := be_get (drop 14 fixed) in
        if proxyV2MaxPayload <? length then (Err too_long, s)
        else
          match ReadFull (Z.to_nat length) s with
          | (Err _, s) => (Err invalid, s)
          | (Ok payload, s) => (parse_v2_payload cmd famProto payload, s)
          end
  end.

(* go: internal/transport/shared/proxyproto.go:242-292 (readProxyHeader) *)
Definition readProxyHeader (mode : ProxyProtocolMode) (s : bytes) : result error proxyHeader * bytes :=
  match mode with
  | ProxyProtocolOff => (Err (ErrMsg "shared: PROXY protocol mode is not a header mode"), s)
  | _ =>
      match Peek 12 s with
      | Err _ => (Err invalid, s)
      | Ok head =>
          let v1 := has_prefix proxyV1Signature head in
          let v2 := bool_decide (head = proxyV2Signature) in
          match mode with
          | ProxyProtocolV1 =>
              if negb v1 then (Err (if v2 then wrong_version else invalid), s) else readProxyV1 s
          | ProxyProtocolV2 =>
              if negb v2 then (Err (if v1 then wrong_version else invalid), s) else readProxyV2 s
          | _ => if v1 then readProxyV1 s else if v2 then readProxyV2 s else (Err invalid, s)
          end
      end
  end.

(** The peer the accepted connection reports. *)
(* go: internal/transport/shared/proxyproto.go:212-216 (handshake) *)
Definition proxy_remote (socket : NetAddr) (hdr : proxyHeader) : NetAddr :=
  match source hdr with Some a => a | None => socket end.

(** The connections the inner listener delivers, until one carries a header;
    the others are reported to the hook and closed. *)
(* go: internal/transport/shared/proxyproto.go:179-195 (Accept) *)
Fixpoint proxy_Accept (mode : ProxyProtocolMode) (conns : list (NetAddr * bytes))
    (rejected : list NetAddr) : option (NetAddr * bytes) * list NetAddr :=
  match conns with
  | [] => (None, rejected)
  | (socket, s) :: conns' =>
      match readProxyHeader mode s with
      | (Err _, _) => proxy_Accept mode conns' (rejected ++ [socket])
      | (Ok hdr, rest) => (Some (proxy_remote socket hdr, rest), rejected)
      end
  end.
End proxy.

(** ** The binary header *)

(** A v2 PROXY header as the specification lays it out. *)
Definition v2_bytes (famProto : Z) (src dst : bytes) (sport dport : Z) (tlvs : bytes) : bytes :=
  let payload := src ++ dst ++ be_put 2 sport ++ be_put 2 dport ++ tlvs in
  proxyV2Signature ++ [0x21; famProto] ++ be_put 2 (len payload) ++ payload.

(** The families with an address, their address length and transport. *)
Definition v2_family (famProto : Z) (n : nat) (dgram : bool) : Prop :=
  (famProto = proxyFamTCP4 /\ n = 4%nat /\ dgram = false) \/
  (famProto = proxyFamUDP4 /\ n = 4%nat /\ dgram = true) \/
  (famProto = proxyFamTCP6 /\ n = 16%nat /\ dgram = false) \/
  (famProto = proxyFamUDP6 /\ n = 16%nat /\ dgram = true).

Lemma parse_v2_payload_ok famProto n dgram src dst sport dport tlvs :
  v2_family famProto n dgram -> length src = n -> length dst = n ->
  0 <= sport < 65536 -> 0 <= dport < 65536 ->
  parse_v2_payload proxyV2CmdProxy famProto (src ++ dst ++ be_put 2 sport ++ be_put 2 dport ++ tlvs) =
  Ok (mkHeader (Some (proxyAddr src sport dgram)) (Some (proxyAddr dst dport dgram))).
Proof.
  intros Hf Hs Hd Hsp Hdp. set (payload := src ++ _).
  assert (len payload = Z.of_nat n + Z.of_nat n + 4 + len tlvs) as Hl.
  { unfold payload. rewrite !len_app, !len_be_put. unfold len. lia. }
  pose proof (len_nonneg tlvs) as Ht.
  assert (take n payload = src) as E1 by (by apply take_app_length').
  assert (drop n payload = dst ++ be_put 2 sport ++ be_put 2 dport ++ tlvs) as E2 by (by apply drop_app_length').
  assert (drop (n + n) payload = be_put 2 sport ++ be_put 2 dport ++ tlvs) as E3
    by (rewrite <- drop_drop, E2; by apply drop_app_length').
  assert (drop (n + n + 2) payload = be_put 2 dport ++ tlvs) as E4
    by (rewrite <- drop_drop, E3; apply drop_be_put).
  assert (be_get (be_put 2 sport) = sport) as G1 by (apply be_get_put_small; by change (256 ^ Z.of_nat 2) with 65536).
  assert (be_get (be_put 2 dport) = dport) as G2 by (apply be_get_put_small; by change (256 ^ Z.of_nat 2) with 65536).
  assert (((famProto =? proxyFamTCP4) || (famProto =? proxyFamUDP4) ||
           ((famProto =? proxyFamTCP6) || (famProto =? proxyFamUDP6))) = true /\
          (if (famProto =? proxyFamTCP4) || (famProto =? proxyFamUDP4) then 4%nat else 16%nat) = n /\
          ((famProto =? proxyFamUDP4) || (famProto =? proxyFamUDP6)) = dgram) as (F1 & F2 & F3).
  { destruct Hf as [(-> & -> & ->)|[(-> & -> & ->)|[(-> & -> & ->)|(-> & -> & ->)]]]; done. }
  unfold parse_v2_payload. cbv zeta. rewrite F1, F2, F3. cbn [negb].
  change (proxyV2CmdProxy =? proxyV2CmdProxy) with true. cbn [negb].
  rewrite (proj2 (Z.ltb_ge _ _)) by lia.
  rewrite E1, E2, E3, E4, !take_be_put, G1, G2. do 3 f_equal. by rewrite take_app_length' by done.
Qed.

Lemma v2_fixed famProto src dst sport dport tlvs rest :
  is_byte famProto ->
  let payload := src ++ dst ++ be_put 2 sport ++ be_put 2 dport ++ tlvs in
  len payload <= proxyV2MaxPayload ->
  readProxyV2 (v2_bytes famProto src dst sport dport tlvs ++ rest) =
  (parse_v2_payload proxyV2CmdProxy famProto payload, rest).
Proof.
  intros Hf payload Hl. unfold v2_bytes. fold payload.
  pose proof (len_nonneg payload) as Hp. unfold proxyV2MaxPayload in Hl.
  set (fixed := proxyV2Signature ++ [0x21; famProto] ++ be_put 2 (len payload)).
  replace ((proxyV2Signature ++ [33; famProto] ++ be_put 2 (len payload) ++ payload) ++ rest)
    with (fixed ++ payload ++ rest) by (unfold fixed; by rewrite <- !app_assoc).
  unfold readProxyV2. rewrite ReadFull_app by done.
  assert (take 12 fixed = proxyV2Signature) as -> by done.
  rewrite bool_decide_eq_true_2 by done.
  change (byte_at fixed 12) with 0x21. change (byte_at fixed 13) with famProto.
  change (drop 14 fixed) with (be_put 2 (len payload)).
  rewrite be_get_put_small by (change (256 ^ Z.of_nat 2) with 65536; lia).
  cbn [negb]. change (Z.shiftr 33 4 =? 2) with true. cbn [negb]. unfold proxyV2MaxPayload.
  rewrite (proj2 (Z.ltb_ge 2048 _)) by lia.
  rewrite ReadFull_app by (unfold len; lia). done.
Qed.

(** The binary header is read exactly: for the four address families, on a
    v2 and on an auto listener, the header a proxy writes gives the addresses
    and ports it announces, TLVs are skipped with it, and everything after it -
    and nothing else - is left for the session. *)
Theorem proxy_v2_roundtrip ParseIP mode famProto n dgram src dst sport dport tlvs rest :
  mode = ProxyProtocolV2 \/ mode = ProxyProtocolAuto -> v2_family famProto n dgram ->
  length src = n -> length dst = n -> 0 <= sport < 65536 -> 0 <= dport < 65536 ->
  Z.of_nat n + Z.of_nat n + 4 + len tlvs <= proxyV2MaxPayload ->
  readProxyHeader ParseIP mode (v2_bytes famProto src dst sport dport tlvs ++ rest) =
  (Ok (mkHeader (Some (proxyAddr src sport dgram)) (Some (proxyAddr dst dport dgram))), rest).
Proof.
  intros Hm Hf Hs Hd Hsp Hdp Hl.
  assert (readProxyHeader ParseIP mode (v2_bytes famProto src dst sport dport tlvs ++ rest) =
          readProxyV2 (v2_bytes famProto src dst sport dport tlvs ++ rest)) as ->
    by (destruct Hm as [-> | ->]; done).
  rewrite v2_fixed.
  - by rewrite (parse_v2_payload_ok famProto n dgram).
  - destruct Hf as [(-> & _)|[(-> & _)|[(-> & _)|(-> & _)]]]; done.
  - rewrite !len_app, !len_be_put. unfold len in *. lia.
Qed.

Lemma proxy_v2_roundtrip_witness :
  readProxyHeader (fun _ => None) ProxyProtocolAuto
    (v2_bytes proxyFamTCP4 [192; 0; 2; 1] [198; 51; 100; 7] 56324 443 [4; 0; 1; 0] ++ [71; 69; 84]) =
  (Ok (mkHeader (Some (TCPAddr [192; 0; 2; 1] 56324 "")) (Some (TCPAddr [198; 51; 100; 7] 443 ""))), [71; 69; 84]).
Proof.
  apply (proxy_v2_roundtrip (fun _ => None) ProxyProtocolAuto proxyFamTCP4 4 false); try done.
  - by right.
  - by left.
Defined.

(** The text header: the input up to its first newline. *)
Lemma readProxyV1_iff ParseIP s hdr rest :
  readProxyV1 ParseIP s = (Ok hdr, rest) <->
  exists line, s = line ++ [13; 10] ++ rest /\ 10 ∉ line /\ len line + 2 <= proxyV1MaxLen /\
    parse_v1_line ParseIP line = Ok hdr.
Proof.
  unfold readProxyV1. split.
  - destruct (ReadSlice _ _ s) as [[frag|frag|err] s'] eqn:E; [|done..].
    apply ReadSlice_delim_inv in E as (-> & _ & p & -> & Hnl).
    destruct (Z.ltb_spec proxyV1MaxLen (len (p ++ [10]))) as [|Hl]; [done|].
    destruct (Z.ltb_spec (len (p ++ [10])) 2) as [|H2]; [done|]. cbn [orb].
    destruct (Z.eqb_spec (byte_at (p ++ [10]) (length (p ++ [10]) - 2)) 13) as [Hcr|]; [|done]. cbn [negb].
    intros [= Hp <-]. rewrite length_app in *. cbn [length] in *.
    unfold len in H2, Hl. rewrite length_app in H2, Hl. cbn [length] in H2, Hl.
    destruct p as [|b p _] using rev_ind; [cbn in H2; lia|]. rewrite length_app in *. cbn [length] in *.
    replace (length p + 1 + 1 - 2)%nat with (length p) in * by lia.
    unfold byte_at in Hcr. rewrite <- app_assoc in Hcr, Hp. rewrite app_nth2, Nat.sub_diag in Hcr by lia.
    cbn [app nth] in Hcr. subst b. rewrite take_app_length in Hp. rewrite not_elem_of_app in Hnl.
    exists p. split; [by rewrite <- !app_assoc|]. split; [tauto|]. split; [unfold len; lia|done].
  - intros (line & -> & Hnl & Hl & Hp). unfold proxyV1MaxLen, len in Hl.
    replace (line ++ [13; 10] ++ rest) with ((line ++ [13]) ++ 10 :: rest) by (by rewrite <- app_assoc).
    rewrite ReadSlice_delim; [|rewrite not_elem_of_app, list_elem_of_singleton; by split
      |unfold proxyHeaderBuffer; rewrite length_app; cbn [length]; lia].
    assert (length ((line ++ [13]) ++ [10]) = (length line + 2)%nat) as El
      by (rewrite !length_app; cbn [length]; lia).
    unfold len, proxyV1MaxLen. rewrite El, (proj2 (Z.ltb_ge 107 _)) by lia.
    rewrite (proj2 (Z.ltb_ge (Z.of_nat (length line + 2)) 2)) by lia.
    replace (length line + 2 - 2)%nat with (length line) by lia. cbn [orb].
    unfold byte_at. rewrite <- app_assoc, app_nth2, Nat.sub_diag by lia. cbn [app nth negb Z.eqb Pos.eqb].
    rewrite take_app_length. by rewrite Hp.
Qed.

(** The binary header: sixteen bytes of signature, version 2 and length, then the
    payload of that length. *)
Lemma readProxyV2_iff s hdr rest :
  bytes_ok s ->
  readProxyV2 s = (Ok hdr, rest) <->
  exists fixed payload, s = fixed ++ payload ++ rest /\ length fixed = 16%nat /\
    take 12 fixed = proxyV2Signature /\ Z.shiftr (byte_at fixed 12) 4 = 2 /\
    len payload = be_get (drop 14 fixed) /\ len payload <= proxyV2MaxPayload /\
    parse_v2_payload (Z.land (byte_at fixed 12) 0x0F) (byte_at fixed 13) payload = Ok hdr.
Proof.
  intros Hok. unfold readProxyV2. split.
  - destruct (ReadFull 16 s) as [[fixed|] s1] eqn:E1; [|done].
    apply ReadFull_ok in E1 as [-> Hl]. case_bool_decide as Hsig; [|done]. cbn [negb].
    destruct (Z.eqb_spec (Z.shiftr (byte_at fixed 12) 4) 2) as [Hv|]; [|done]. cbn [negb].
    destruct (Z.ltb_spec proxyV2MaxPayload (be_get (drop 14 fixed))) as [|Hb]; [done|].
    destruct (ReadFull _ s1) as [[payload|] s2] eqn:E2; [|done].
    apply ReadFull_ok in E2 as [-> Hp]. intros [= Hh <-]. exists fixed, payload.
    apply bytes_ok_app in Hok as [Hok _].
    pose proof (be_get_bound (drop 14 fixed) ltac:(auto with shark)) as [Hpos _].
    unfold len. split_and!; try done; lia.
  - intros (fixed & payload & -> & Hf & Hsig & Hv & Hl & Hb & Hp). rewrite ReadFull_app by done.
    rewrite Hsig, bool_decide_eq_true_2 by done. cbn [negb]. rewrite Hv. cbn [Z.eqb Pos.eqb negb].
    rewrite <- Hl, (proj2 (Z.ltb_ge _ _)) by done.
    rewrite ReadFull_app by (unfold len; lia). by rewrite Hp.
Qed.

(** The same with the header in one piece. *)
Lemma v2_head s hdr rest :
  bytes_ok s -> take 12 s = proxyV2Signature ->
  readProxyV2 s = (Ok hdr, rest) <->
  exists head, s = head ++ rest /\ 16 <= len head /\ Z.shiftr (byte_at head 12) 4 = 2 /\
    len head = 16 + be_get (take 2 (drop 14 head)) /\ len head <= 16 + proxyV2MaxPayload /\
    parse_v2_payload (Z.land (byte_at head 12) 0x0F) (byte_at head 13) (drop 16 head) = Ok hdr.
Proof.
  intros Hok Hsig. rewrite readProxyV2_iff by done.
  assert (forall fixed payload : bytes, length fixed = 16%nat ->
    drop 16 (fixed ++ payload) = payload /\ take 2 (drop 14 (fixed ++ payload)) = drop 14 fixed /\
    forall i, (i < 16)%nat -> byte_at (fixed ++ payload) i = byte_at fixed i) as Hcut.
  { intros fixed payload Hf. split_and!; [by apply drop_app_length'| |intros i Hi; unfold byte_at; apply app_nth1; lia].
    rewrite drop_app_le by lia. apply take_app_length'. rewrite length_drop. lia. }
  split.
  - intros (fixed & payload & -> & Hf & _ & Hv & Hl & Hb & Hp). destruct (Hcut fixed payload Hf) as (E1 & E2 & E3).
    exists (fixed ++ payload). rewrite !E3, E1, E2, <- Hl, len_app by lia. unfold len in *.
    split_and!; try done; try lia. by rewrite <- app_assoc.
  - intros (head & -> & H16 & Hv & Hl & Hb & Hp). unfold len in H16.
    assert (length (take 16 head) = 16%nat) as Hf by (rewrite length_take; lia).
    destruct (Hcut (take 16 head) (drop 16 head) Hf) as (_ & E2 & E3). rewrite take_drop in E2, E3.
    exists (take 16 head), (drop 16 head). rewrite <- !E3, <- E2 by lia.
    assert (len (drop 16 head) = len head - 16) as Ed by (unfold len; rewrite length_drop; lia).
    split_and!; try done; try lia; [by rewrite app_assoc, take_drop|].
    rewrite take_take. rewrite <- Hsig, take_app_le by lia. done.
Qed.

(** C36: A connection is accepted exactly when it starts with a header of the
    listener's version, and exactly the header is consumed. The text header is
    the input through its first newline: "PROXY ", no newline before the CRLF
    that ends it, at most 107 bytes in all. The binary header is the signature,
    version 2 in the upper half of byte 12, and as many bytes after the
    sixteenth as the length field announces, at most 2048. Whatever follows the
    header - further lines, another header - is left for the session, and a
    header of the version that the mode does not accept, of another version
    number, or without its end is refused. The addresses are those the line or
    the payload parses to. *)
Theorem proxy_header_exact ParseIP mode s hdr rest :
  bytes_ok s ->
  readProxyHeader ParseIP mode s = (Ok hdr, rest) <->
  12 <= len s /\
  ((mode = ProxyProtocolV1 \/ mode = ProxyProtocolAuto) /\ take 6 s = proxyV1Signature /\
     (exists line, s = (line ++ [13; 10]) ++ rest /\ 10 ∉ line /\ len (line ++ [13; 10]) <= proxyV1MaxLen /\
        parse_v1_line ParseIP line = Ok hdr) \/
   (mode = ProxyProtocolV2 \/ mode = ProxyProtocolAuto) /\ take 12 s = proxyV2Signature /\
     (exists head, s = head ++ rest /\ 16 <= len head /\ Z.shiftr (byte_at head 12) 4 = 2 /\
        len head = 16 + be_get (take 2 (drop 14 head)) /\ len head <= 16 + proxyV2MaxPayload /\
        parse_v2_payload (Z.land (byte_at head 12) 0x0F) (byte_at head 13) (drop 16 head) = Ok hdr)).
Proof.
  intros Hok.
  assert (readProxyHeader ParseIP mode s = (Ok hdr, rest) <-> 12 <= len s /\
          ((mode = ProxyProtocolV1 \/ mode = ProxyProtocolAuto) /\ take 6 s = proxyV1Signature /\
             readProxyV1 ParseIP s = (Ok hdr, rest) \/
           (mode = ProxyProtocolV2 \/ mode = ProxyProtocolAuto) /\ take 12 s = proxyV2Signature /\
             readProxyV2 s = (Ok hdr, rest))) as ->.
  { unfold readProxyHeader, Peek, has_prefix, len.
    destruct (Nat.leb_spec 12 (length s)) as [H12|H12]; [|split; [by destruct mode|intros [? _]; lia]].
    rewrite take_take. cbn [length Nat.min proxyV1Signature].
    assert (take 6 s = proxyV1Signature -> take 12 s <> proxyV2Signature) as Hne.
    { intros H1 H2. assert (take 6 (take 12 s) = take 6 s) as H by (rewrite take_take; done).
      rewrite H1, H2 in H. done. }
    assert (12 <= Z.of_nat (length s)) by lia. change (length proxyV1Signature) with 6%nat. cbn [Nat.min].
    destruct mode; repeat case_bool_decide; cbn [negb]; naive_solver. }
  assert (readProxyV1 ParseIP s = (Ok hdr, rest) <->
    exists line, s = (line ++ [13; 10]) ++ rest /\ 10 ∉ line /\ len (line ++ [13; 10]) <= proxyV1MaxLen /\
      parse_v1_line ParseIP line = Ok hdr) as ->.
  { rewrite readProxyV1_iff. split; intros (line & Hs & Hn & Hl & Hp); exists line;
      rewrite len_app, <- app_assoc in *; done. }
  split; (intros [H12 [H|(Hm & Ht & H)]]; (split; [done|]); [by left|right; split; [done|]; split; [done|]]).
  - by apply v2_head.
  - by apply v2_head.
Qed.

(** A text header and a line of the session in one packet; a binary header of
    version 3. *)
Lemma proxy_header_exact_witness :
  let s := bytes_of_string "PROXY UNKNOWN" ++ [13; 10; 71; 13; 10] in
  let v3 := proxyV2Signature ++ [0x31; 0x00; 0; 0] in
  readProxyHeader (fun _ => None) ProxyProtocolV1 s = (Ok no_addr, [71; 13; 10]) /\
  forall hdr rest, readProxyHeader (fun _ => None) ProxyProtocolAuto v3 <> (Ok hdr, rest).
Proof.
  intros s v3. split.
  - apply (proxy_header_exact (fun _ => None) ProxyProtocolV1 s no_addr [71; 13; 10] ltac:(decide_now)).
    split; [by vm_compute|]. left. split; [by left|]. split; [by vm_compute|].
    exists (bytes_of_string "PROXY UNKNOWN"). split_and!; [done|decide_now|by vm_compute|by vm_compute].
  - intros hdr rest H. apply (proxy_header_exact (fun _ => None) ProxyProtocolAuto v3 hdr rest ltac:(decide_now)) in H
      as (_ & [(_ & Ht & _)|(_ & _ & head & E & H16 & Hv & _)]); [by vm_compute in Ht|].
    assert (take 16 head = take 16 v3) as E16
      by (rewrite E, take_app_le by (unfold len in H16; lia); done).
    assert (byte_at head 12 = byte_at (take 16 head) 12) as E12
      by (unfold byte_at; rewrite <- (take_drop 16 head) at 1; apply app_nth1; rewrite length_take; unfold len in H16; lia).
    rewrite E12, E16 in Hv. by vm_compute in Hv.
Defined.
