(* ===== verification/CoapMessage.v ===== *)
(** * CoapMessage: [internal/transport/coap/message.go]

    The CoAP message codec (RFC 7252 section 3): fixed header, token,
    delta-encoded options and payload. *)
From S2P Require Import Prelude Bytes Core.
Local Open Scope Z_scope.
Local Open Scope list_scope.

(* go: internal/transport/coap/message.go:10-16 (Version) *)
Definition Version : Z := 1.
Definition TypeCON : Z := 0.
Definition TypeNON : Z := 1.
Definition TypeACK : Z := 2.
Definition TypeRST : Z := 3.
(* go: internal/transport/coap/message.go:18-33 (CodeEmpty) *)
Definition CodeEmpty : Z := 0.
Definition CodeGet : Z := 1.
Definition CodePost : Z := 2.
Definition CodePut : Z := 3.
Definition CodeDelete : Z := 4.
Definition CodeCreated : Z := 65.
Definition CodeDeleted : Z := 66.
Definition CodeValid : Z := 67.
Definition CodeChanged : Z := 68.
Definition CodeContent : Z := 69.
Definition CodeBadRequest : Z := 128.
Definition CodeBadOption : Z := 130.
Definition CodeRequestEntityTooLarge : Z := 141.
Definition CodeInternalServerError : Z := 160.
Definition ObserveOption : Z := 6.

(* go: internal/transport/coap/message.go:36-40 (ErrInvalidMessage) *)
Definition ErrInvalidMessage : error := ErrMsg "invalid coap message".
Definition ErrInvalidVersion : error := ErrMsg "invalid coap version".
Definition ErrTokenTooLong : error := ErrMsg "coap token too long".

(** A nil option map and an empty one read the same. *)
(* go: internal/transport/coap/message.go:42-49 (Message) *)
Record CoapMessage : Type := mkCoap {
  Type_ : Z;
  Code : Z;
  MessageID : Z;
  Token : bytes;
  Options : gmap Z bytes;
  Payload : bytes
}.

#[export] Instance CoapMessage_eq_dec : EqDecision CoapMessage.
Proof. solve_decision. Defined.

(** ** Parsing *)

(** The value and the number of bytes it took; a truncated field reads as
    (0, 0). *)
(* go: internal/transport/coap/message.go:137-154 (readOptionExtended) *)
Definition readOptionExtended (data : bytes) (nibble : Z) : Z * nat :=
  if nibble <? 13 then (nibble, 0%nat)
  else if nibble =? 13 then
    if len data <? 1 then (0, 0%nat) else (byte_at data 0 + 13, 1%nat)
  else if nibble =? 14 then
    if len data <? 2 then (0, 0%nat) else (be_get (take 2 data) + 269, 2%nat)
  else (0, 0%nat).

(* go: internal/transport/coap/message.go:127-135 (decodeOptionHeader) *)
Definition decodeOptionHeader (b : bytes) : Z * Z * nat :=
  match b with
  | [] => (0, 0, 0%nat)
  | b0 :: _ => (Z.shiftr b0 4, Z.land b0 0x0f, 1%nat)
  end.

(** The loop over [data[offset:]].  An iteration consumes the option's header
    byte, so [length data] iterations reach its end
    ([parse_option_loop_fuel]). *)
(* go: internal/transport/coap/message.go:77-125 (parseOptions) *)
Fixpoint parse_option_loop (fuel : nat) (data : bytes) (prevNum : Z) (options : gmap Z bytes) :
    gmap Z bytes * bytes :=
  match fuel, data with
  | O, _ | _, [] => (options, [])
  | S fuel', b0 :: payload =>
      if b0 =? 0xff then (options, payload)
      else
        let '(delta, length, advance) := decodeOptionHeader data in
        if (advance =? 0)%nat then (options, [])
        else if (14 <? delta) || (14 <? length) then (options, [])
        else
          let data := drop advance data in
          let '(deltaExtended, deltaBytes) := readOptionExtended data delta in
          let data := drop deltaBytes data in
          let '(lengthExtended, lengthBytes) := readOptionExtended data length in
          let data := drop lengthBytes data in
          if 65535 - prevNum <? deltaExtended then (options, [])
          else
            let optionNum := u16 (prevNum + u16 deltaExtended) in
            if len data <? lengthExtended then (options, [])
            else
              let n := Z.to_nat lengthExtended in
              parse_option_loop fuel' (drop n data) optionNum (<[optionNum := take n data]> options)
  end.

Definition parseOptions (data : bytes) : gmap Z bytes * bytes :=
  parse_option_loop (length data) data 0 ∅.

(* go: internal/transport/coap/message.go:51-75 (Parse) *)
Definition Parse (data : bytes) : result error CoapMessage :=
  if len data <? 4 then Err ErrInvalidMessage
  else
    let first := byte_at data 0 in
    if negb (Z.shiftr first 6 =? Version) then Err ErrInvalidVersion
    else
      let tokenLen := Z.land first 0x0f in
      if 8 <? tokenLen then Err ErrTokenTooLong
      else if len data <? 4 + tokenLen then Err ErrInvalidMessage
      else
        let rest := drop (Z.to_nat (4 + tokenLen)) data in
        let '(options, payload) := parseOptions rest in
        Ok (mkCoap (Z.land (Z.shiftr first 4) 0x03) (byte_at data 1)
              (be_get (take 2 (drop 2 data)))
              (take (Z.to_nat tokenLen) (drop 4 data)) options payload).

(** ** Marshalling *)

(** The nibble of an option delta or length. *)
(* go: internal/transport/coap/message.go:210-225 (encodeOptionHeader) *)
Definition option_nibble (v : Z) : Z :=
  if v <? 13 then v else if v <? 269 then 13 else 14.

(* go: internal/transport/coap/message.go:239-262 (encodeExtendedField) *)
Definition encodeExtendedField (buf : bytes) (v nibble : Z) : result error bytes :=
  if (0 <=? nibble) && (nibble <=? 12) then Ok buf
  else if nibble =? 13 then
    if (v <? 13) || (268 <? v) then Err (ErrWrap "option extended value out of range" ErrInvalidMessage)
    else Ok (buf ++ [u8 (v - 13)])
  else if nibble =? 14 then
    if (v <? 269) || (65535 <? v) then Err (ErrWrap "option extended value out of range" ErrInvalidMessage)
    else Ok (buf ++ be_put 2 (u16 (v - 269)))
  else Err (ErrWrap "invalid option extended nibble" ErrInvalidMessage).

Section marshal.
Local Open Scope shark_scope.

(* go: internal/transport/coap/message.go:208-237 (encodeOptionHeader) *)
Definition encodeOptionHeader (delta length : Z) : result error bytes :=
  let d := option_nibble delta in
  let l := option_nibble length in
  let header := [u8 (Z.lor (Z.shiftl d 4) l)] in
  let? header := encodeExtendedField header delta d in
  encodeExtendedField header length l.

(* go: internal/transport/coap/message.go:197-206 (encodeOption) *)
Definition encodeOption (delta : Z) (value : bytes) : result error bytes :=
  let? header := encodeOptionHeader delta (u16 (len value)) in
  Ok (header ++ value).

(* go: internal/transport/coap/message.go:188-195 (sortedOptionNums) *)
Definition sortedOptionNums (opts : gmap Z bytes) : list Z :=
  merge_sort Z.le (map_to_list opts).*1.

(* go: internal/transport/coap/message.go:168-179 (Marshal) *)
Fixpoint encode_options (opts : gmap Z bytes) (prevNum : Z) (nums : list Z) (out : bytes) :
    result error bytes :=
  match nums with
  | [] => Ok out
  | num :: nums' =>
      let? enc := encodeOption (u16 (num - prevNum)) (default [] (opts !! num)) in
      encode_options opts num nums' (out ++ enc)
  end.

(* go: internal/transport/coap/message.go:156-186 (Marshal) *)
Definition Marshal (m : CoapMessage) : result error bytes :=
  if 8 <? len (Token m) then Err ErrTokenTooLong
  else if TypeRST <? Type_ m then Err (ErrWrap "type" ErrInvalidMessage)
  else
    let first := u8 (Z.lor (Z.lor (Z.shiftl Version 6) (Z.shiftl (Z.land (Type_ m) 0x03) 4))
                           (u8 (len (Token m)))) in
    let out := first :: Code m :: be_put 2 (MessageID m) ++ Token m in
    let? out := encode_options (Options m) 0 (sortedOptionNums (Options m)) out in
    match Payload m with
    | [] => Ok out
    | payload => Ok (out ++ 0xff :: payload)
    end.
End marshal.

(* go: internal/transport/coap/message.go:264-272 (ACK) *)
Definition ACK (req : CoapMessage) (code : Z) (payload : bytes) : CoapMessage :=
  mkCoap TypeACK code (MessageID req) (Token req) ∅ payload.

(** ** Lemmas: one option *)

(** The bytes of the extended field. *)
Definition option_ext (v : Z) : bytes :=
  if v <? 13 then [] else if v <? 269 then [v - 13] else be_put 2 (v - 269).

Lemma encodeExtendedField_ok buf v :
  0 <= v < 65536 -> encodeExtendedField buf v (option_nibble v) = Ok (buf ++ option_ext v).
Proof.
  intros Hv. unfold encodeExtendedField, option_nibble, option_ext.
  destruct (v <? 13) eqn:E1; [|destruct (v <? 269) eqn:E2]; breflect.
  - rewrite (proj2 (Z.leb_le 0 v)), (proj2 (Z.leb_le v 12)) by lia. by rewrite app_nil_r.
  - simpl. rewrite (proj2 (Z.ltb_ge 268 v)) by lia. simpl.
    by rewrite uwrap_small by lia.
  - simpl. rewrite (proj2 (Z.ltb_ge 65535 v)) by lia. simpl.
    by rewrite uwrap_small by lia.
Qed.

Lemma readOptionExtended_ok v rest :
  0 <= v < 65536 -> readOptionExtended (option_ext v ++ rest) (option_nibble v) = (v, length (option_ext v)).
Proof.
  intros Hv. unfold readOptionExtended, option_nibble, option_ext.
  destruct (v <? 13) eqn:E1; [|destruct (v <? 269) eqn:E2]; breflect.
  - by rewrite (proj2 (Z.ltb_lt v 13)) by lia.
  - change (13 <? 13) with false. change (13 =? 13) with true. cbn iota.
    cbn [app]. rewrite len_cons. pose proof (len_nonneg rest).
    rewrite (proj2 (Z.ltb_ge _ 1)) by lia. f_equal. unfold byte_at. cbn [nth]. lia.
  - change (14 <? 13) with false. change (14 =? 13) with false. change (14 =? 14) with true. cbn iota.
    rewrite len_app, len_be_put. pose proof (len_nonneg rest).
    rewrite (proj2 (Z.ltb_ge _ 2)) by lia. rewrite take_be_put, length_be_put.
    rewrite be_get_put_small; [f_equal; lia|]. change (256 ^ Z.of_nat 2) with 65536. lia.
Qed.

Lemma option_nibble_range v : 0 <= v -> 0 <= option_nibble v <= 14.
Proof.
  intros. unfold option_nibble.
  destruct (v <? 13) eqn:E1; [|destruct (v <? 269) eqn:E2]; breflect; lia.
Qed.

Definition option_head (d l : Z) : Z := option_nibble d * 16 + option_nibble l.

(** What the encoder writes for an option. *)
Definition option_bytes (delta : Z) (value : bytes) : bytes :=
  option_head delta (len value) :: option_ext delta ++ option_ext (len value) ++ value.

Lemma encodeOption_ok delta value :
  0 <= delta < 65536 -> len value < 65536 ->
  encodeOption delta value = Ok (option_bytes delta value).
Proof.
  intros Hd Hl. pose proof (len_nonneg value). unfold encodeOption, encodeOptionHeader.
  rewrite (uwrap_small 16) by lia.
  rewrite !encodeExtendedField_ok by lia.
  pose proof (option_nibble_range delta). pose proof (option_nibble_range (len value)).
  rewrite lor_shiftl_add by lia. rewrite (uwrap_small 8) by lia.
  unfold option_bytes, option_head. by rewrite <- !app_assoc.
Qed.

Lemma option_head_fields d l :
  0 <= d -> 0 <= l ->
  Z.shiftr (option_head d l) 4 = option_nibble d /\
  Z.land (option_head d l) 0x0f = option_nibble l /\ (option_head d l =? 0xff) = false.
Proof.
  intros Hd Hl. pose proof (option_nibble_range d Hd). pose proof (option_nibble_range l Hl).
  unfold option_head. repeat split.
  - rewrite Z.shiftr_div_pow2 by lia. change (2 ^ 4) with 16. symmetry.
    apply Z.div_unique with (option_nibble l); lia.
  - change 0x0f with (2 ^ 4 - 1). rewrite land_ones_mod by lia. symmetry.
    change (2 ^ 4) with 16. apply Z.mod_unique with (option_nibble d); lia.
  - apply Z.eqb_neq. lia.
Qed.

(** Reading back one option. *)
Lemma parse_option_step fuel prev delta value rest opts :
  0 <= prev -> 0 <= delta -> prev + delta < 65536 -> len value < 65536 ->
  parse_option_loop (S fuel) (option_bytes delta value ++ rest) prev opts =
  parse_option_loop fuel rest (prev + delta) (<[prev + delta := value]> opts).
Proof.
  intros Hp Hd Hsum Hl. pose proof (len_nonneg value) as Hv.
  destruct (option_head_fields delta (len value) Hd Hv) as (E1 & E2 & E3).
  unfold option_bytes. cbn [app parse_option_loop decodeOptionHeader]. rewrite E3, E1, E2.
  change (1 =? 0)%nat with false. cbn iota.
  pose proof (option_nibble_range delta Hd). pose proof (option_nibble_range (len value) Hv).
  assert ((14 <? option_nibble delta) || (14 <? option_nibble (len value)) = false) as ->
    by (apply orb_false_iff; split; apply Z.ltb_ge; lia).
  cbn [drop]. rewrite drop_0, <- !app_assoc. rewrite readOptionExtended_ok by lia.
  rewrite drop_app_length, readOptionExtended_ok by lia. rewrite drop_app_length.
  rewrite (proj2 (Z.ltb_ge (65535 - prev) delta)) by lia.
  rewrite len_app. pose proof (len_nonneg rest).
  rewrite (proj2 (Z.ltb_ge (len value + len rest) (len value))) by lia.
  rewrite (uwrap_small 16 delta), (uwrap_small 16) by lia.
  assert (Z.to_nat (len value) = length value) as -> by (unfold len; lia).
  by rewrite take_app_length, drop_app_length.
Qed.

(** More fuel than bytes changes nothing. *)
Lemma parse_option_loop_fuel fuel data prev opts :
  (length data <= fuel)%nat ->
  parse_option_loop fuel data prev opts = parse_option_loop (length data) data prev opts.
Proof.
  enough (forall n f1 f2 data prev opts, (length data <= n)%nat -> (n <= f1)%nat -> (length data <= f2)%nat ->
    parse_option_loop f1 data prev opts = parse_option_loop f2 data prev opts) as H.
  { intros Hl. by apply (H (length data)). }
  clear. intros n. induction n as [|n IH]; intros f1 f2 data prev opts Hn H1 H2.
  { destruct data; [|simpl in Hn; lia]. by destruct f1, f2. }
  destruct data as [|b0 data]; [by destruct f1, f2|].
  destruct f1 as [|f1]; [lia|]. destruct f2 as [|f2]; [simpl in H2; lia|].
  cbn [parse_option_loop decodeOptionHeader]. destruct (b0 =? 0xff); [done|].
  change (1 =? 0)%nat with false. cbn iota. destruct (_ || _); [done|].
  destruct (readOptionExtended _ (Z.shiftr b0 4)) as [de db].
  destruct (readOptionExtended _ (Z.land b0 15)) as [le lb].
  destruct (_ <? de); [done|]. destruct (_ <? le); [done|].
  apply IH; rewrite ?length_drop; simpl in *; lia.
Qed.

(** ** Lemmas: all the options *)

Definition parse_all (data : bytes) (prev : Z) (opts : gmap Z bytes) : gmap Z bytes * bytes :=
  parse_option_loop (length data) data prev opts.

Lemma parse_all_option prev delta value rest opts :
  0 <= prev -> 0 <= delta -> prev + delta < 65536 -> len value < 65536 ->
  parse_all (option_bytes delta value ++ rest) prev opts =
  parse_all rest (prev + delta) (<[prev + delta := value]> opts).
Proof.
  intros. unfold parse_all. rewrite length_app. unfold option_bytes at 1. cbn [length].
  rewrite Nat.add_succ_l, parse_option_step by done.
  apply parse_option_loop_fuel. lia.
Qed.

Fixpoint options_bytes (opts : gmap Z bytes) (prev : Z) (nums : list Z) : bytes :=
  match nums with
  | [] => []
  | n :: nums' => option_bytes (n - prev) (default [] (opts !! n)) ++ options_bytes opts n nums'
  end.

(** Options the wire format can carry: 16-bit numbers, values below 64 KiB. *)
Definition options_ok (opts : gmap Z bytes) : Prop :=
  map_Forall (fun n v => 0 <= n < 65536 /\ len v < 65536) opts.

(** The numbers left to write: increasing, none below the previous one. *)
Definition nums_from (prev : Z) (nums : list Z) : Prop :=
  StronglySorted Z.lt nums /\ Forall (fun n => prev <= n < 65536) nums.

Lemma nums_from_cons prev n nums :
  nums_from prev (n :: nums) -> prev <= n < 65536 /\ nums_from n nums.
Proof.
  intros [Hs Hr]. inversion Hs as [|? ? Hs' Hlt]. inversion Hr as [|? ? Hn Hr']. subst.
  split; [done|]. split; [done|]. rewrite Forall_forall in Hlt, Hr' |- *.
  intros k Hk. specialize (Hlt k Hk). specialize (Hr' k Hk). lia.
Qed.

Lemma default_value_len opts n : options_ok opts -> len (default [] (opts !! n)) < 65536.
Proof.
  intros H. destruct (opts !! n) eqn:E; [by apply (H n)|]. by vm_compute.
Qed.

Lemma encode_options_ok opts prev nums out :
  options_ok opts -> 0 <= prev -> nums_from prev nums ->
  encode_options opts prev nums out = Ok (out ++ options_bytes opts prev nums).
Proof.
  intros Ho. revert prev out. induction nums as [|n nums IH]; intros prev out Hp Hn.
  - cbn. by rewrite app_nil_r.
  - apply nums_from_cons in Hn as [Hn Hns]. cbn [encode_options options_bytes].
    rewrite uwrap_small by lia. rewrite encodeOption_ok by (lia || by apply default_value_len).
    rewrite IH by (done || lia). by rewrite app_assoc.
Qed.

Definition insert_nums (opts : gmap Z bytes) (nums : list Z) (acc : gmap Z bytes) : gmap Z bytes :=
  fold_left (fun acc n => <[n := default [] (opts !! n)]> acc) nums acc.

Lemma parse_all_options opts prev nums tail acc :
  options_ok opts -> 0 <= prev -> nums_from prev nums ->
  exists last, parse_all (options_bytes opts prev nums ++ tail) prev acc =
               parse_all tail last (insert_nums opts nums acc).
Proof.
  intros Ho. revert prev acc. induction nums as [|n nums IH]; intros prev acc Hp Hn.
  - by exists prev.
  - apply nums_from_cons in Hn as [Hn Hns]. cbn [options_bytes].
    rewrite <- app_assoc, parse_all_option by (lia || by apply default_value_len).
    replace (prev + (n - prev)) with n by lia. apply IH; [lia|done].
Qed.

Lemma lookup_insert_nums opts nums acc k :
  insert_nums opts nums acc !! k =
  if decide (k ∈ nums) then Some (default [] (opts !! k)) else acc !! k.
Proof.
  unfold insert_nums. revert acc. induction nums as [|n nums IH]; intros acc; cbn [fold_left]; [done|].
  rewrite IH. destruct (decide (k = n)) as [->|Hk].
  - rewrite lookup_insert_eq. destruct (decide (n ∈ nums)), (decide (n ∈ n :: nums)); set_solver.
  - rewrite lookup_insert_ne by done.
    destruct (decide (k ∈ nums)), (decide (k ∈ n :: nums)); set_solver.
Qed.

Lemma sortedOptionNums_elem opts n : n ∈ sortedOptionNums opts <-> is_Some (opts !! n).
Proof.
  unfold sortedOptionNums. rewrite (merge_sort_Permutation Z.le), list_elem_of_fmap. split.
  - intros ([m v] & -> & H). apply elem_of_map_to_list in H. by exists v.
  - intros [v H]. exists (n, v). by rewrite elem_of_map_to_list.
Qed.

Lemma sortedOptionNums_from opts : options_ok opts -> nums_from 0 (sortedOptionNums opts).
Proof.
  intros Ho. split.
  - assert (StronglySorted Z.le (sortedOptionNums opts)) as Hs by (apply StronglySorted_merge_sort; apply _).
    assert (NoDup (sortedOptionNums opts)) as Hnd.
    { unfold sortedOptionNums. rewrite (merge_sort_Permutation Z.le). apply NoDup_fst_map_to_list. }
    induction Hs as [|n l Hs IH Hle]; constructor; inversion Hnd; subst; auto.
    rewrite Forall_forall in *. intros m Hm. specialize (Hle m Hm).
    assert (n <> m) by congruence. lia.
  - apply Forall_forall. intros n [v Hv]%sortedOptionNums_elem. by apply (Ho n v).
Qed.

Lemma insert_sorted_nums opts : insert_nums opts (sortedOptionNums opts) ∅ = opts.
Proof.
  apply map_eq. intros k. rewrite lookup_insert_nums, lookup_empty.
  destruct (decide (k ∈ sortedOptionNums opts)) as [H|H]; rewrite sortedOptionNums_elem in H.
  - destruct H as [v ->]. done.
  - destruct (opts !! k) eqn:E; [|done]. exfalso. apply H. eauto.
Qed.

(** ** The codec *)

(** The messages the wire format can carry. *)
Definition coap_ok (m : CoapMessage) : Prop :=
  0 <= Type_ m <= 3 /\ is_byte (Code m) /\ 0 <= MessageID m < 65536 /\
  len (Token m) <= 8 /\ options_ok (Options m).

Lemma payload_marker payload prev acc :
  parse_all (match payload with [] => [] | _ => 0xff :: payload end) prev acc = (acc, payload).
Proof. by destruct payload. Qed.

Definition coap_bytes (m : CoapMessage) : bytes :=
  (64 + Type_ m * 16 + len (Token m)) :: Code m :: be_put 2 (MessageID m) ++ Token m ++
  options_bytes (Options m) 0 (sortedOptionNums (Options m)) ++
  match Payload m with [] => [] | _ => 0xff :: Payload m end.

Lemma Marshal_ok m : coap_ok m -> Marshal m = Ok (coap_bytes m).
Proof.
  intros (Ht & Hc & Hm & Htok & Ho). unfold Marshal, TypeRST. pose proof (len_nonneg (Token m)).
  rewrite (proj2 (Z.ltb_ge 8 _)), (proj2 (Z.ltb_ge 3 _)) by lia.
  change 0x03 with (2 ^ 2 - 1). rewrite land_ones_mod by lia. change (2 ^ 2) with 4.
  rewrite (Z.mod_small (Type_ m)) by lia. rewrite (uwrap_small 8 (len _)) by lia.
  assert (u8 (Z.lor (Z.lor (Z.shiftl Version 6) (Z.shiftl (Type_ m) 4)) (len (Token m))) =
          64 + Type_ m * 16 + len (Token m)) as ->.
  { rewrite <- Z.lor_assoc, (lor_shiftl_add (Type_ m)), lor_shiftl_add by lia. unfold Version.
    rewrite uwrap_small; lia. }
  rewrite encode_options_ok by (done || lia || by apply sortedOptionNums_from).
  unfold coap_bytes. destruct (Payload m); f_equal;
    rewrite ?app_nil_r; cbn [app]; rewrite <- ?app_assoc; cbn [app]; by rewrite <- ?app_assoc.
Qed.

Lemma header_fields t l :
  0 <= t <= 3 -> 0 <= l <= 8 ->
  let first := 64 + t * 16 + l in
  Z.shiftr first 6 = 1 /\ Z.land first 0x0f = l /\ Z.land (Z.shiftr first 4) 0x03 = t.
Proof.
  intros Ht Hl. cbn zeta. rewrite !Z.shiftr_div_pow2 by lia.
  change (2 ^ 6) with 64. change (2 ^ 4) with 16.
  change 0x0f with (2 ^ 4 - 1). change 0x03 with (2 ^ 2 - 1).
  rewrite !land_ones_mod by lia. change (2 ^ 4) with 16. change (2 ^ 2) with 4.
  assert ((64 + t * 16 + l) / 16 = 4 + t) as -> by (symmetry; apply Z.div_unique with l; lia).
  repeat split; symmetry.
  - apply Z.div_unique with (t * 16 + l); lia.
  - apply Z.mod_unique with (4 + t); lia.
  - apply Z.mod_unique with 1; lia.
Qed.

(** C40: The CoAP codec round-trips: every message with a legal type, a token of
    at most eight bytes, 16-bit option numbers and option values below 64 KiB
    marshals without error, and parsing the datagram gives the same message,
    whatever the number and order of its options. *)
Theorem coap_roundtrip m :
  coap_ok m -> exists data, Marshal m = Ok data /\ Parse data = Ok m.
Proof.
  intros H. exists (coap_bytes m). split; [by apply Marshal_ok|].
  destruct H as (Ht & Hc & Hm & Htok & Ho). pose proof (len_nonneg (Token m)) as Htn.
  destruct (header_fields (Type_ m) (len (Token m)) Ht ltac:(lia)) as (F1 & F2 & F3).
  unfold Parse, coap_bytes. cbv zeta. unfold byte_at. cbn [nth].
  set (opts := options_bytes _ _ _). set (pay := match Payload m with [] => _ | _ => _ end).
  cbn [drop]. rewrite drop_0.
  rewrite !len_cons, !len_app, len_be_put. change (Z.of_nat 2) with 2.
  pose proof (len_nonneg opts). pose proof (len_nonneg pay).
  rewrite (proj2 (Z.ltb_ge _ 4)) by lia. rewrite F1, F2, F3. cbn [Version Z.eqb Pos.eqb negb].
  rewrite (proj2 (Z.ltb_ge 8 _)), (proj2 (Z.ltb_ge _ (4 + _))) by lia.
  rewrite take_be_put, be_get_put_small by (change (256 ^ Z.of_nat 2) with 65536; lia).
  assert (Z.to_nat (4 + len (Token m)) = S (S (2 + length (Token m)))) as -> by (unfold len; lia).
  assert (Z.to_nat (len (Token m)) = length (Token m)) as -> by (unfold len; lia).
  rewrite !skipn_cons, <- drop_drop, !drop_be_put, take_app_length, drop_app_length.
  change (parseOptions (opts ++ pay)) with (parse_all (opts ++ pay) 0 ∅).
  destruct (parse_all_options (Options m) 0 (sortedOptionNums (Options m)) pay ∅) as [lst E];
    [done|lia|by apply sortedOptionNums_from|].
  unfold opts. rewrite E. unfold pay. rewrite payload_marker, insert_sorted_nums.
  by destruct m.
Qed.

(** A confirmable GET with an observe registration, a path and a long option. *)
Definition sample_message : CoapMessage :=
  mkCoap TypeCON CodeGet 0xbeef [1; 2; 3]
    (<[6 := []]> (<[11 := [116; 101; 109; 112]]> (<[2000 := repeat 7 300]> ∅))) [104; 105].

Lemma coap_roundtrip_witness :
  exists data, Marshal sample_message = Ok data /\ Parse data = Ok sample_message.
Proof.
  apply (coap_roundtrip sample_message). unfold coap_ok, options_ok. decide_now.
Defined.

(** A value of 64 KiB is written under a zero length. *)
Lemma encodeOption_truncates value :
  len value = 65536 -> encodeOption 1 value = Ok (16 :: value).
Proof. intros E. unfold encodeOption. by rewrite E. Qed.

(** A reserved nibble ends the option list silently: the payload is lost. *)
Example reserved_nibble_drops_payload :
  Parse [64; 1; 0; 1; 0xf0; 0xff; 1; 2] = Ok (mkCoap 0 1 1 [] ∅ []).
Proof. by vm_compute. Qed.
