(* ===== verification/CoapBlock.v ===== *)
(** * CoapBlock: [internal/transport/coap/blockwise.go]

    Block-wise transfer (RFC 7959): the Block option codec, the cutting of a
    body into blocks, and the size negotiation of a response. *)
From S2P Require Import Prelude Bytes Core.
Local Open Scope Z_scope.
Local Open Scope list_scope.

(* go: internal/transport/coap/blockwise.go:10-13 (Block2Option) *)
Definition Block2Option : Z := 23.
Definition Block1Option : Z := 27.

(* go: internal/transport/coap/blockwise.go:15-18 (ErrInvalidBlockOption) *)
Definition ErrInvalidBlockOption : error := ErrMsg "invalid coap block option".

(* go: internal/transport/coap/blockwise.go:20-29 (BlockOption) *)
Record BlockOption : Type := mkBlock { Num : Z; More : bool; SizeExp : Z }.

#[export] Instance BlockOption_eq_dec : EqDecision BlockOption.
Proof. solve_decision. Defined.

(* go: internal/transport/coap/blockwise.go:31-40 (maxBlockSizeExp) *)
Definition maxBlockSizeExp : Z := 6.
Definition DefaultBlockSize : Z := 1024.

(* go: internal/transport/coap/blockwise.go:42-43 (Size) *)
Definition Size (b : BlockOption) : Z := i64 (Z.shiftl 1 (u8 (SizeExp b + 4))).

(** [for first < len(buf)-1 && buf[first] == 0 { first++ }] *)
Fixpoint strip_zeros (buf : bytes) : bytes :=
  match buf with
  | b :: rest =>
      match rest with
      | [] => buf
      | _ => if b =? 0 then strip_zeros rest else buf
      end
  | [] => []
  end.

(* go: internal/transport/coap/blockwise.go:45-66 (Marshal) *)
Definition Marshal (b : BlockOption) : bytes :=
  let raw := Z.lor (u32 (Z.shiftl (Num b) 4)) (SizeExp b) in
  let raw := if More b then Z.lor raw 0x08 else raw in
  if raw =? 0 then []
  else strip_zeros [u8 (Z.shiftr raw 16); u8 (Z.shiftr raw 8); u8 raw].

(* go: internal/transport/coap/blockwise.go:68-90 (parseBlockOption) *)
Definition parseBlockOption (v : bytes) : result error BlockOption :=
  if 3 <? len v then Err (ErrWrap "value bytes" ErrInvalidBlockOption)
  else
    let raw := fold_left (fun raw c => Z.lor (u32 (Z.shiftl raw 8)) c) v 0 in
    let opt := mkBlock (Z.shiftr raw 4) (negb (Z.land raw 0x08 =? 0)) (u8 (Z.land raw 0x07)) in
    if maxBlockSizeExp <? SizeExp opt then Err (ErrWrap "reserved SZX" ErrInvalidBlockOption)
    else Ok opt.

(* go: internal/transport/coap/blockwise.go:92-101 (sizeExp) *)
Definition sizeExp (size : Z) : Z :=
  match find (fun exp => Z.shiftl 1 (exp + 4) =? size) [0; 1; 2; 3; 4; 5; 6] with
  | Some exp => exp
  | None => maxBlockSizeExp
  end.

(** [(chunk, more)]; [None] is [ok = false]. *)
(* go: internal/transport/coap/blockwise.go:103-122 (sliceBlock) *)
Definition sliceBlock (body : bytes) (num size : Z) : option (bytes * bool) :=
  let offset := u64 (num * size) in
  if len body <=? offset then None
  else
    let end_ := u64 (offset + size) in
    if len body <=? end_ then Some (drop (Z.to_nat offset) body, false)
    else Some (take (Z.to_nat (end_ - offset)) (drop (Z.to_nat offset) body), true).

(* go: internal/transport/coap/blockwise.go:124-130 (blockRequest) *)
Record blockRequest : Type := mkReq { present : bool; offset : Z; size : Z }.

(* go: internal/transport/coap/blockwise.go:132-155 (negotiateBlock2) *)
Definition negotiateBlock2 (values : gmap Z bytes) (maxSize : Z) : result error blockRequest :=
  match values !! Block2Option with
  | None => Ok (mkReq false 0 maxSize)
  | Some v =>
      match parseBlockOption v with
      | Err err => Err err
      | Ok opt =>
          let requested := Size opt in
          let size := if maxSize <? requested then maxSize else requested in
          Ok (mkReq true (u64 (Num opt * requested)) size)
      end
  end.

(** The chunk and the Block2 option to echo; [None] is [ok = false]. *)
(* go: internal/transport/coap/blockwise.go:157-171 (blockFor) *)
Definition blockFor (body : bytes) (req : blockRequest) : option (bytes * option BlockOption) :=
  if negb (present req) && (len body <=? size req) then Some (body, None)
  else
    let num := u32 (offset req / size req) in
    match sliceBlock body num (size req) with
    | None => None
    | Some (chunk, more) => Some (chunk, Some (mkBlock num more (sizeExp (size req))))
    end.

(** ** The option codec *)

Lemma strip_zeros_cons b c l :
  strip_zeros (b :: c :: l) = if b =? 0 then strip_zeros (c :: l) else b :: c :: l.
Proof. done. Qed.

Lemma strip_zeros_get l : be_get (strip_zeros l) = be_get l.
Proof.
  induction l as [|b [|c l] IH]; [done|done|]. rewrite strip_zeros_cons.
  destruct (b =? 0) eqn:E; [|done]. breflect. subst. rewrite IH.
  rewrite (be_get_cons 0). lia.
Qed.

Lemma strip_zeros_ok l : bytes_ok l -> bytes_ok (strip_zeros l).
Proof.
  induction l as [|b [|c l] IH]; [done|done|]. rewrite strip_zeros_cons.
  intros H. destruct (b =? 0); [|done]. apply IH. by inversion H.
Qed.

Lemma strip_zeros_len l : len (strip_zeros l) <= len l.
Proof.
  induction l as [|b [|c l] IH]; [done|done|]. rewrite strip_zeros_cons.
  destruct (b =? 0); [|done]. rewrite (len_cons b). lia.
Qed.

(** The raw value of an option. *)
Definition block_raw (b : BlockOption) : Z := Num b * 16 + (if More b then 8 else 0) + SizeExp b.

Definition block_ok (b : BlockOption) : Prop := 0 <= Num b < 2 ^ 20 /\ 0 <= SizeExp b <= 6.

Lemma block_raw_lor b : block_ok b ->
  (if More b then Z.lor (Z.lor (u32 (Z.shiftl (Num b) 4)) (SizeExp b)) 0x08
   else Z.lor (u32 (Z.shiftl (Num b) 4)) (SizeExp b)) = block_raw b /\ 0 <= block_raw b < 2 ^ 24.
Proof.
  intros [Hn Hs]. split; [|unfold block_raw; destruct (More b); lia].
  rewrite uwrap_small by (rewrite Z.shiftl_mul_pow2; lia). unfold block_raw.
  destruct (More b).
  - rewrite <- Z.lor_assoc, (Z.lor_comm (SizeExp b)).
    change (Z.lor 8 (SizeExp b)) with (Z.lor (Z.shiftl 1 3) (SizeExp b)).
    rewrite (lor_shiftl_add 1), lor_shiftl_add by lia. lia.
  - rewrite lor_shiftl_add by lia. lia.
Qed.

Lemma block_raw_fields b : block_ok b ->
  Z.shiftr (block_raw b) 4 = Num b /\ negb (Z.land (block_raw b) 0x08 =? 0) = More b /\
  u8 (Z.land (block_raw b) 0x07) = SizeExp b.
Proof.
  intros [Hn Hs]. unfold block_raw.
  set (low := (if More b then 8 else 0) + SizeExp b).
  assert (0 <= low < 16) as Hlow by (unfold low; destruct (More b); lia).
  replace (Num b * 16 + (if More b then 8 else 0) + SizeExp b) with (Num b * 16 + low) by (unfold low; lia).
  assert ((Num b * 16 + low) mod 16 = low) as Hmod
    by (rewrite Z.add_comm, Z.mod_add by lia; apply Z.mod_small; lia).
  split; [|split].
  - rewrite Z.shiftr_div_pow2 by lia. change (2 ^ 4) with 16. rewrite Z.div_add_l by lia.
    rewrite Z.div_small by lia. lia.
  - change 0x08 with (Z.land (2 ^ 4 - 1) 8). rewrite Z.land_assoc, land_ones_mod by lia.
    change (2 ^ 4) with 16. rewrite Hmod. unfold low. destruct (More b).
    + assert (SizeExp b = 0 \/ SizeExp b = 1 \/ SizeExp b = 2 \/ SizeExp b = 3 \/ SizeExp b = 4 \/
        SizeExp b = 5 \/ SizeExp b = 6) as E by lia. by destruct E as [->|[->|[->|[->|[->|[->| ->]]]]]].
    + assert (SizeExp b = 0 \/ SizeExp b = 1 \/ SizeExp b = 2 \/ SizeExp b = 3 \/ SizeExp b = 4 \/
        SizeExp b = 5 \/ SizeExp b = 6) as E by lia. by destruct E as [->|[->|[->|[->|[->|[->| ->]]]]]].
  - change 0x07 with (2 ^ 3 - 1). rewrite land_ones_mod by lia. change (2 ^ 3) with 8.
    replace ((Num b * 16 + low) mod 8) with (SizeExp b); [by rewrite uwrap_small by lia|].
    unfold low. apply Z.mod_unique with (Num b * 2 + (if More b then 1 else 0)); [lia|].
    destruct (More b); lia.
Qed.

Lemma three_bytes raw : 0 <= raw < 2 ^ 24 ->
  [u8 (Z.shiftr raw 16); u8 (Z.shiftr raw 8); u8 raw] = be_put 3 raw.
Proof. intros. cbn [be_put]. repeat f_equal. Qed.

Lemma parse_raw v : bytes_ok v -> len v <= 3 ->
  fold_left (fun raw c => Z.lor (u32 (Z.shiftl raw 8)) c) v 0 = be_get v.
Proof.
  intros Hv Hl. unfold be_get.
  assert (forall acc, 0 <= acc -> (acc + 1) * 256 ^ len v <= 2 ^ 32 ->
    fold_left (fun raw c => Z.lor (u32 (Z.shiftl raw 8)) c) v acc =
    fold_left (fun acc b => acc * 256 + b) v acc) as H.
  { clear Hl. induction Hv as [|b v Hb Hv IH]; intros acc Ha Hb'; [done|]. cbn [fold_left].
    rewrite len_cons, Z.pow_add_r in Hb' by (pose proof (len_nonneg v); lia).
    assert (1 <= 256 ^ len v) by (pose proof (len_nonneg v); assert (0 < 256 ^ len v) by lia; lia).
    change (256 ^ 1) with 256 in Hb'. unfold is_byte in Hb.
    rewrite uwrap_small by (rewrite Z.shiftl_mul_pow2 by lia; nia).
    rewrite lor_shiftl_add by lia. apply IH; [lia|]. change (2 ^ 8) with 256. nia. }
  apply H; [lia|]. assert (256 ^ len v <= 256 ^ 3) by (apply Z.pow_le_mono_r; lia). lia.
Qed.

Lemma parse_Marshal b : block_ok b -> parseBlockOption (Marshal b) = Ok b.
Proof.
  intros Hb. destruct (block_raw_lor b Hb) as [Er Hr]. unfold Marshal. rewrite Er.
  assert (parseBlockOption (if block_raw b =? 0 then [] else strip_zeros (be_put 3 (block_raw b))) =
    (let opt := mkBlock (Z.shiftr (block_raw b) 4) (negb (Z.land (block_raw b) 0x08 =? 0))
                  (u8 (Z.land (block_raw b) 0x07)) in
     if maxBlockSizeExp <? SizeExp opt then Err (ErrWrap "reserved SZX" ErrInvalidBlockOption)
     else Ok opt)) as E.
  { destruct (block_raw b =? 0) eqn:E0; [breflect; by rewrite E0|]. unfold parseBlockOption.
    assert (len (strip_zeros (be_put 3 (block_raw b))) <= 3) as Hl.
    { etransitivity; [apply strip_zeros_len|]. by rewrite len_be_put. }
    rewrite (proj2 (Z.ltb_ge 3 _)) by lia.
    rewrite parse_raw by (done || apply strip_zeros_ok; auto with shark).
    by rewrite strip_zeros_get, be_get_put_small by (change (256 ^ Z.of_nat 3) with (2 ^ 24); lia). }
  rewrite <- three_bytes in E by done. rewrite E.
  destruct (block_raw_fields b Hb) as (-> & -> & ->). destruct Hb as [_ Hs]. cbn [SizeExp].
  unfold maxBlockSizeExp. rewrite (proj2 (Z.ltb_ge 6 _)) by lia. by destruct b.
Qed.

(** The Block option codec: an option value takes at most three bytes, the
    leading one is zero only in the one-byte form, and decoding it gives the
    number, the more flag and the size exponent back. *)
Theorem block_option_roundtrip b :
  block_ok b ->
  parseBlockOption (Marshal b) = Ok b /\ len (Marshal b) <= 3 /\
  (forall b0 b1 rest, Marshal b = b0 :: b1 :: rest -> b0 <> 0).
Proof.
  intros Hb. split; [by apply parse_Marshal|]. unfold Marshal.
  destruct (block_raw_lor b Hb) as [-> Hr]. destruct (block_raw b =? 0); [done|].
  split; [apply strip_zeros_len|]. cbn [strip_zeros].
  destruct (u8 (Z.shiftr (block_raw b) 16) =? 0) eqn:E1;
    [destruct (u8 (Z.shiftr (block_raw b) 8) =? 0) eqn:E2|]; breflect; naive_solver.
Qed.

Lemma block_option_roundtrip_witness :
  Marshal (mkBlock 300 true 6) = [0x12; 0xce] /\
  parseBlockOption (Marshal (mkBlock 300 true 6)) = Ok (mkBlock 300 true 6).
Proof.
  split; [done|]. apply (block_option_roundtrip (mkBlock 300 true 6) ltac:(split; simpl; lia)).
Defined.

(** ** A block-wise transfer *)

(** The client of RFC 7959 section 2.4, with [off] bytes of the body received: it
    asks for the block that starts there, in blocks of the size it has chosen,
    reads the option the server echoes, insists that the answer starts where it
    asked, and goes on until the more flag is clear. [choose] is its choice of the
    next size, from what it has and the size the server used; the choice that RFC
    7959 recommends is to keep that size. *)
Fixpoint transfer (fuel : nat) (choose : Z -> Z -> Z) (body : bytes) (maxSize off szx : Z) : option bytes :=
  match fuel with
  | O => None
  | S fuel' =>
      let num := off / Size (mkBlock 0 false szx) in
      match negotiateBlock2 {[Block2Option := Marshal (mkBlock num false szx)]} maxSize with
      | Err _ => None
      | Ok req =>
          match blockFor body req with
          | None => None
          | Some (chunk, None) => Some chunk
          | Some (chunk, Some echoed) =>
              match parseBlockOption (Marshal echoed) with
              | Err _ => None
              | Ok opt =>
                  if negb (Num opt * Size opt =? off) then None
                  else if More opt then
                    let off := off + len chunk in
                    (chunk ++.) <$> transfer fuel' choose body maxSize off (choose off (SizeExp opt))
                  else Some chunk
              end
          end
      end
  end.

Definition keep_size (off szx : Z) : Z := szx.

(** The block sizes: 16, 32, ..., 1024. *)
Definition block_size (szx : Z) : Z := 2 ^ (szx + 4).

Lemma szx_cases (P : Z -> Prop) e :
  0 <= e <= 6 -> P 0 -> P 1 -> P 2 -> P 3 -> P 4 -> P 5 -> P 6 -> P e.
Proof.
  intros He. assert (e = 0 \/ e = 1 \/ e = 2 \/ e = 3 \/ e = 4 \/ e = 5 \/ e = 6) as E by lia.
  by destruct E as [->|[->|[->|[->|[->|[->| ->]]]]]].
Qed.

Lemma Size_ok n m e : 0 <= e <= 6 -> Size (mkBlock n m e) = block_size e.
Proof. intros. by apply (szx_cases (fun e => Size (mkBlock n m e) = block_size e)). Qed.

Lemma sizeExp_ok e : 0 <= e <= 6 -> sizeExp (block_size e) = e.
Proof. intros. by apply (szx_cases (fun e => sizeExp (block_size e) = e)). Qed.

Lemma block_size_range e : 0 <= e <= 6 -> 16 <= block_size e <= 1024.
Proof.
  intros He. unfold block_size. split.
  - apply (Z.pow_le_mono_r 2 4); lia.
  - change 1024 with (2 ^ 10). apply Z.pow_le_mono_r; lia.
Qed.

Lemma block_size_min m e :
  0 <= m <= 6 -> 0 <= e <= 6 ->
  (if block_size m <? block_size e then block_size m else block_size e) = block_size (Z.min m e).
Proof.
  intros Hm He. destruct (Z.ltb_spec (block_size m) (block_size e)) as [H|H];
    unfold block_size in *.
  - rewrite Z.min_l; [done|]. apply Z.pow_lt_mono_r_iff in H; lia.
  - rewrite Z.min_r; [done|]. apply Z.pow_le_mono_r_iff in H; lia.
Qed.

Lemma sliceBlock_ok body num size :
  0 <= num < 2 ^ 20 -> 16 <= size <= 1024 -> num * size < len body ->
  sliceBlock body num size =
  Some (take (Z.to_nat size) (drop (Z.to_nat (num * size)) body), num * size + size <? len body).
Proof.
  intros Hn Hs Hb. unfold sliceBlock. rewrite !uwrap_small by nia.
  rewrite (proj2 (Z.leb_gt (len body) (num * size))) by lia.
  destruct (Z.leb_spec (len body) (num * size + size)) as [H|H].
  - rewrite (proj2 (Z.ltb_ge _ _)) by lia. rewrite take_ge; [done|].
    rewrite length_drop. unfold len in *. lia.
  - rewrite (proj2 (Z.ltb_lt _ _)) by lia. do 3 f_equal. lia.
Qed.

(** A smaller block size divides a larger one. *)
Lemma block_size_divide a b : 0 <= a <= b -> (block_size a | block_size b).
Proof.
  intros Hab. exists (2 ^ (b - a)). unfold block_size. rewrite <- Z.pow_add_r by lia. f_equal. lia.
Qed.

(** The server's answer to a request for the block at [off], counted in blocks of
    the size the client asks for: the number is rescaled to the size in use. *)
Lemma serve_block body m szx off :
  0 <= m <= 6 -> 0 <= szx <= 6 -> 0 <= off < len body -> (block_size szx | off) ->
  let s := block_size (Z.min m szx) in
  len body <= 2 ^ 20 * s ->
  exists req,
    negotiateBlock2 {[Block2Option := Marshal (mkBlock (off / block_size szx) false szx)]} (block_size m) = Ok req /\
    blockFor body req =
    Some (take (Z.to_nat s) (drop (Z.to_nat off) body),
          Some (mkBlock (off / s) (off + s <? len body) (Z.min m szx))).
Proof.
  intros Hm Hx Hoff Hdiv s Hlen.
  pose proof (block_size_range szx Hx) as Hz. pose proof (block_size_range (Z.min m szx) ltac:(lia)) as Hs.
  fold s in Hs.
  assert (s <= block_size szx) as Hle by (apply Z.pow_le_mono_r; lia).
  assert ((s | off)) as Hds by (apply (Z.divide_trans _ (block_size szx)); [apply block_size_divide; lia|done]).
  assert (off / block_size szx * block_size szx = off) as E1 by (destruct Hdiv as [k ->]; rewrite Z.div_mul by lia; lia).
  assert (off / s * s = off) as E2 by (destruct Hds as [k ->]; rewrite Z.div_mul by lia; lia).
  assert (0 <= off / block_size szx < 2 ^ 20 /\ 0 <= off / s < 2 ^ 20) as [Hn1 Hn2]
    by (split; (split; [apply Z.div_pos; lia|apply Z.div_lt_upper_bound; nia])).
  assert (off < 2 ^ 64) by nia.
  unfold negotiateBlock2. rewrite lookup_singleton_eq.
  rewrite parse_Marshal by (split; simpl; lia). rewrite Size_ok, block_size_min by done.
  eexists. split; [done|]. cbn [Num]. unfold blockFor. cbn [present offset size negb andb].
  fold s. rewrite E1, (uwrap_small 64), (uwrap_small 32) by lia.
  rewrite sliceBlock_ok by lia. rewrite E2. unfold s. by rewrite sizeExp_ok by lia.
Qed.

(** A choice of sizes that a client can make: no size below [lo], and only sizes
    in whose blocks what it has can be counted. *)
Definition legal_choice (lo m : Z) (choose : Z -> Z -> Z) : Prop :=
  forall off szx, lo <= szx <= m -> (block_size szx | off) ->
    lo <= choose off szx <= 6 /\ (block_size (choose off szx) | off).

Lemma transfer_from body choose lo m szx off fuel :
  0 <= lo <= m -> m <= 6 -> lo <= szx <= 6 -> legal_choice lo m choose ->
  (block_size szx | off) -> 0 <= off < len body -> len body <= 2 ^ 20 * block_size lo ->
  len body <= off + Z.of_nat fuel ->
  transfer fuel choose body (block_size m) off szx = Some (drop (Z.to_nat off) body).
Proof.
  intros Hlo Hm Hx Hc Hd Hoff Hlen Hfuel. revert szx off Hx Hd Hoff Hfuel.
  induction fuel as [|fuel IH]; intros szx off Hx Hd Hoff Hfuel; [lia|].
  set (s := block_size (Z.min m szx)).
  pose proof (block_size_range (Z.min m szx) ltac:(lia)) as Hs. fold s in Hs.
  assert (block_size lo <= s) as Hls by (apply Z.pow_le_mono_r; lia).
  assert ((s | off)) as Hds by (apply (Z.divide_trans _ (block_size szx)); [apply block_size_divide; lia|done]).
  assert (off / s * s = off) as Eoff by (destruct Hds as [k ->]; rewrite Z.div_mul by lia; lia).
  assert (0 <= off / s < 2 ^ 20) as Hn by (split; [apply Z.div_pos; lia|apply Z.div_lt_upper_bound; nia]).
  destruct (serve_block body m szx off) as (req & Ereq & Eblk); [lia|lia|lia|done|fold s; nia|].
  cbn [transfer]. rewrite Size_ok by lia. rewrite Ereq, Eblk. fold s.
  rewrite parse_Marshal by (split; simpl; lia). cbn [Num More SizeExp]. rewrite Size_ok by lia. fold s.
  rewrite Eoff, Z.eqb_refl. cbn [negb].
  destruct (Z.ltb_spec (off + s) (len body)) as [H|H].
  - assert (len (take (Z.to_nat s) (drop (Z.to_nat off) body)) = s) as ->
      by (unfold len in *; rewrite length_take, length_drop; lia).
    assert ((s | off + s)) as Hds' by (apply Z.divide_add_r; [done|apply Z.divide_refl]).
    destruct (Hc (off + s) (Z.min m szx)) as [Hr Hd']; [lia|done|].
    rewrite IH; [|lia|done|lia|lia]. cbn [fmap option_fmap option_map]. f_equal.
    replace (Z.to_nat (off + s)) with (Z.to_nat off + Z.to_nat s)%nat by lia.
    by rewrite <- drop_drop, take_drop.
  - f_equal. apply take_ge. rewrite length_drop. unfold len in *. lia.
Qed.

(** C38: A block-wise transfer returns the body: whatever block size the client
    asks for first and the server allows, and whatever sizes it asks for
    afterwards - the one the server answered with, or any other in whose blocks it
    can count what it has, larger or smaller than the server's - a client that
    follows the more flag ends after at most [len body] requests, every answer
    begins where it asked, and it has received exactly the body, provided the body
    is not empty and has no more than 2^20 blocks of the smallest size in use. So
    a block number counted in blocks larger than the server allows is answered
    with the block at that offset. An empty body has no block to send: a request
    with the option is refused for it, at every size. *)
Theorem transfer_complete body choose lo m szx fuel :
  0 <= lo <= m -> m <= 6 -> lo <= szx <= 6 -> legal_choice lo m choose ->
  len body <= 2 ^ 20 * block_size lo -> (length body <= fuel)%nat ->
  transfer fuel choose body (block_size m) 0 szx = if 0 <? len body then Some body else None.
Proof.
  intros Hlo Hm Hx Hc Hb Hf. destruct (Z.ltb_spec 0 (len body)) as [Hp|Hp].
  - apply (transfer_from body choose lo m szx 0 fuel); try done; try lia; [apply Z.divide_0_r|unfold len in *; lia].
  - destruct body as [|b body]; [|pose proof (len_nonneg body); rewrite len_cons in Hp; lia].
    destruct fuel as [|fuel]; [done|]. cbn [transfer]. unfold negotiateBlock2.
    rewrite lookup_singleton_eq, Size_ok by lia. pose proof (block_size_range szx ltac:(lia)).
    rewrite Z.div_0_l, parse_Marshal by (lia || (split; simpl; lia)). done.
Qed.

(** The server's largest size is 32 bytes. A client that keeps the size it is
    answered with; one that goes back to blocks of 64 bytes whenever it can: the
    second such request is for block 1 of 64, that is, block 2 of 32; and one that
    asks for an empty body. *)
Lemma transfer_complete_witness :
  let hundred := Z.of_nat <$> seq 0 100 in
  let insist off (szx : Z) := if off mod 64 =? 0 then 2 else szx in
  transfer 100 keep_size hundred (block_size 1) 0 6 = Some hundred /\
  transfer 100 insist hundred (block_size 1) 0 2 = Some hundred /\
  transfer 100 keep_size [] (block_size 1) 0 6 = None.
Proof.
  intros hundred insist.
  assert (legal_choice 1 1 keep_size) as Hk by (intros off szx H Hd; unfold keep_size; split; [lia|done]).
  assert (legal_choice 1 1 insist) as Hi.
  { intros off szx H Hd. unfold insist. destruct (Z.eqb_spec (off mod 64) 0) as [E|E]; split; try done; try lia.
    change (block_size 2) with 64. by apply Z.mod_divide. }
  split_and!.
  - apply (transfer_complete hundred keep_size 1 1 6 100); (done || lia || by vm_compute).
  - apply (transfer_complete hundred insist 1 1 2 100); (done || lia || by vm_compute).
  - apply (transfer_complete [] keep_size 1 1 6 100); (done || lia || (cbn; lia)).
Defined.

(** A block past the end is refused, the block just after the last one too. *)
Example past_the_end : sliceBlock (repeat 0 32) 2 16 = None /\ sliceBlock [] 0 16 = None.
Proof. done. Qed.
