(* ===== verification/CoapRetransmit.v ===== *)
(** * CoapRetransmit: [internal/transport/coap/retransmit.go]

    The retransmission schedule of an unacknowledged CON message (RFC 7252
    section 4.2).  Times and durations are in nanoseconds. *)
From S2P Require Import Prelude Bytes.
Local Open Scope Z_scope.
Local Open Scope list_scope.

Definition Second : Z := 1000000000.
Definition Millisecond : Z := 1000000.

(* go: internal/transport/coap/retransmit.go:12-40 (ackTimeout) *)
Definition ackTimeout : Z := 2 * Second.
Definition ackTimeoutSpread : Z := ackTimeout / 2.
Definition maxRetransmit : Z := 4.
Definition retransmitTick : Z := 250 * Millisecond.

(** [draw % ackTimeoutSpread] is Go's truncated remainder. *)
(* go: internal/transport/coap/retransmit.go:42-50 (initialRetransmitTimeout) *)
Definition initialRetransmitTimeout (draw : Z) : Z :=
  let draw := if draw <? 0 then 0 else draw in
  i64 (ackTimeout + Z.rem draw ackTimeoutSpread).

(* go: internal/transport/coap/server.go:33-50 (pendingNotify) *)
Record pendingNotify : Type := mkPending {
  pn_data : bytes;
  pn_token : bytes;
  attempts : Z;
  timeout : Z;
  deadline : Z
}.

#[export] Instance pendingNotify_eq_dec : EqDecision pendingNotify.
Proof. solve_decision. Defined.

(* go: internal/transport/coap/retransmit.go:59-71 (retransmitAction) *)
Inductive retransmitAction : Type := retransmitWait | retransmitSend | retransmitGiveUp.

#[export] Instance retransmitAction_eq_dec : EqDecision retransmitAction.
Proof. solve_decision. Defined.

(* go: internal/transport/coap/retransmit.go:73-88 (decide) *)
Definition decide_ (pn : pendingNotify) (now : Z) : retransmitAction :=
  if now <? deadline pn then retransmitWait
  else if maxRetransmit <=? attempts pn then retransmitGiveUp
  else retransmitSend.

(* go: internal/transport/coap/retransmit.go:90-106 (advance) *)
Definition advance (pn : pendingNotify) (now : Z) : pendingNotify :=
  let timeout' := i64 (timeout pn * 2) in
  let next := deadline pn + timeout' in
  let next := if next <? now then now + timeout' else next in
  mkPending (pn_data pn) (pn_token pn) (i64 (attempts pn + 1)) timeout' next.

(** A message tracked at [now] with the drawn initial timeout. *)
(* go: internal/transport/coap/server.go:628-639 (trackNotify) *)
Definition new_pending (now draw : Z) (token data : bytes) : pendingNotify :=
  let timeout := initialRetransmitTimeout draw in
  mkPending data token 0 timeout (now + timeout).

(** What the scheduler does with one entry over a sequence of ticks: the times
    at which it transmits, and the time at which it gives up. *)
Fixpoint run_entry (pn : pendingNotify) (ticks : list Z) : list Z * option Z :=
  match ticks with
  | [] => ([], None)
  | now :: ticks' =>
      match decide_ pn now with
      | retransmitWait => run_entry pn ticks'
      | retransmitGiveUp => ([], Some now)
      | retransmitSend =>
          let '(sent, gave_up) := run_entry (advance pn now) ticks' in
          (now :: sent, gave_up)
      end
  end.

(** The entry after one tick, [None] once the scheduler has given up. *)
Definition tick_entry (pn : pendingNotify) (now : Z) : option pendingNotify :=
  match decide_ pn now with
  | retransmitWait => Some pn
  | retransmitSend => Some (advance pn now)
  | retransmitGiveUp => None
  end.

Definition entry_after (opn : option pendingNotify) (ticks : list Z) : option pendingNotify :=
  fold_left (fun o now => o ≫= (fun pn => tick_entry pn now)) ticks opn.

Lemma entry_after_None ticks : entry_after None ticks = None.
Proof. induction ticks as [|now ticks IH]; [done|]. exact IH. Qed.

(** The entry is gone exactly when the scheduler gave up. *)
Lemma entry_after_run pn ticks : entry_after (Some pn) ticks = None <-> is_Some (run_entry pn ticks).2.
Proof.
  revert pn. induction ticks as [|now ticks IH]; intros pn.
  - cbn. split; [done|by intros [? ?]].
  - unfold entry_after. cbn [fold_left run_entry]. unfold tick_entry at 2. cbn [mbind option_bind].
    destruct (decide_ pn now); cbn [mbind option_bind].
    + apply IH.
    + specialize (IH (advance pn now)). unfold entry_after in IH.
      destruct (run_entry (advance pn now) ticks) as [sent g]. exact IH.
    + fold (entry_after None ticks). rewrite entry_after_None. cbn. split; [by eexists|done].
Qed.

(** The scheduler's ticks from [t] on. *)
Fixpoint ticks_from (t : Z) (n : nat) : list Z :=
  match n with O => [] | S n' => t :: ticks_from (t + retransmitTick) n' end.

Lemma initialRetransmitTimeout_range draw :
  ackTimeout <= initialRetransmitTimeout draw < ackTimeout + ackTimeoutSpread.
Proof.
  unfold initialRetransmitTimeout, ackTimeout, ackTimeoutSpread, ackTimeout, Second.
  set (d := if draw <? 0 then 0 else draw).
  assert (0 <= d) by (unfold d; destruct (Z.ltb_spec draw 0); lia).
  change (2 * 1000000000 / 2) with 1000000000.
  assert (0 <= Z.rem d 1000000000 < 1000000000) as Hr by (apply Z.rem_bound_pos; lia).
  revert Hr. generalize (Z.rem d 1000000000) as r. intros r Hr.
  rewrite i64_small; [lia|]. unfold in_i64, min_int64, max_int64. lia.
Qed.

(** The state after [k] retransmissions on schedule. *)
Definition on_schedule (t0 T : Z) (k : Z) (pn : pendingNotify) : Prop :=
  attempts pn = k /\ timeout pn = 2 ^ k * T /\ t0 + (2 ^ (k + 1) - 1) * T <= deadline pn.

Lemma advance_on_schedule t0 T k pn now :
  0 <= k < maxRetransmit -> 0 <= T < 3 * Second -> on_schedule t0 T k pn ->
  deadline pn <= now -> on_schedule t0 T (k + 1) (advance pn now).
Proof.
  unfold maxRetransmit, Second. intros Hk HT (Ha & Ht & Hd) Hnow. unfold on_schedule, advance.
  cbn [attempts timeout deadline].
  assert (2 ^ k <= 2 ^ 3) as Hp by (apply Z.pow_le_mono_r; lia).
  assert (0 < 2 ^ k) as Hp0 by lia.
  rewrite Ha, Ht. rewrite !i64_small by (unfold in_i64, min_int64, max_int64; nia).
  rewrite !Z.pow_add_r by lia. change (2 ^ 1) with 2. rewrite Z.pow_add_r in Hd by lia.
  change (2 ^ 1) with 2 in Hd.
  split; [done|]. split; [lia|].
  destruct (Z.ltb_spec (deadline pn + 2 ^ k * T * 2) now); nia.
Qed.

(** No retransmission is early: whenever the scheduler runs, the i-th
    retransmission of a message sent at [t0] (counting from 1) happens no
    earlier than (2^i - 1) times its initial timeout after it, the initial
    timeout is between 2 and 3 seconds, at most four retransmissions happen, and
    the scheduler gives up only after all four and 31 initial timeouts. *)
Theorem no_early_retransmission t0 draw token data ticks :
  let T := initialRetransmitTimeout draw in
  let '(sent, gave_up) := run_entry (new_pending t0 draw token data) ticks in
  2 * Second <= T < 3 * Second /\ (length sent <= 4)%nat /\
  (forall i t, sent !! i = Some t -> t0 + (2 ^ (Z.of_nat i + 1) - 1) * T <= t) /\
  (forall t, gave_up = Some t -> length sent = 4%nat /\ t0 + 31 * T <= t).
Proof.
  cbn zeta. set (T := initialRetransmitTimeout draw).
  pose proof (initialRetransmitTimeout_range draw) as HT'. fold T in HT'.
  change (ackTimeout + ackTimeoutSpread) with (3 * Second) in HT'.
  change ackTimeout with (2 * Second) in HT'.
  enough (forall k pn, (k <= 4)%nat -> on_schedule t0 T (Z.of_nat k) pn ->
    let '(sent, gave_up) := run_entry pn ticks in
    (k + length sent <= 4)%nat /\
    (forall i t, sent !! i = Some t -> t0 + (2 ^ (Z.of_nat (k + i) + 1) - 1) * T <= t) /\
    (forall t, gave_up = Some t -> (k + length sent = 4)%nat /\ t0 + 31 * T <= t)) as H.
  { specialize (H 0%nat (new_pending t0 draw token data)).
    destruct (run_entry _ ticks) as [sent gave_up]. split; [done|]. apply H; [lia|].
    split; [done|]. unfold new_pending. cbn [timeout deadline]. fold T. split; [lia|].
    change (2 ^ (Z.of_nat 0 + 1)) with 2. lia. }
  induction ticks as [|now ticks IH]; intros k pn Hk Hs.
  { cbn. split; [lia|]. split; [by intros i t Hi; rewrite lookup_nil in Hi|done]. }
  pose proof Hs as (Ha & Ht & Hd). cbn [run_entry]. unfold decide_.
  destruct (Z.ltb_spec now (deadline pn)) as [Hn|Hn]; [by apply IH|].
  rewrite Ha. unfold maxRetransmit. destruct (Z.leb_spec 4 (Z.of_nat k)) as [H4|H4].
  - assert (k = 4%nat) as -> by lia. cbn. split; [done|]. split; [by intros i t Hi; rewrite lookup_nil in Hi|].
    intros t [= <-]. split; [done|]. change (2 ^ (Z.of_nat 4 + 1)) with 32 in Hd. lia.
  - assert (on_schedule t0 T (Z.of_nat (S k)) (advance pn now)) as Hs'.
    { replace (Z.of_nat (S k)) with (Z.of_nat k + 1) by lia.
      apply advance_on_schedule; unfold maxRetransmit, Second in *; (done || lia). }
    specialize (IH (S k) (advance pn now) ltac:(lia) Hs').
    destruct (run_entry (advance pn now) ticks) as [sent gave_up]. destruct IH as (I1 & I2 & I3).
    cbn [length]. split; [lia|]. split.
    + intros [|i] t Hi; simplify_eq/=.
      * rewrite Nat.add_0_r. lia.
      * specialize (I2 i t Hi). by replace (k + S i)%nat with (S k + i)%nat by lia.
    + intros t Hg. specialize (I3 t Hg). lia.
Qed.

(** ** The schedule under the real ticker *)

(** The ticker skips to the first tick at or after the deadline. *)
Lemma skip_to_deadline pn t n :
  t < deadline pn + retransmitTick -> deadline pn <= t + Z.of_nat n * retransmitTick ->
  exists t' n', run_entry pn (ticks_from t (S n)) = run_entry pn (ticks_from t' (S n')) /\
    deadline pn <= t' < deadline pn + retransmitTick /\
    t' + Z.of_nat n' * retransmitTick = t + Z.of_nat n * retransmitTick.
Proof.
  revert t. induction n as [|n IH]; intros t Ht Hn.
  { exists t, 0%nat. split; [done|]. lia. }
  destruct (Z.lt_ge_cases t (deadline pn)) as [H|H].
  - destruct (IH (t + retransmitTick)) as (t' & n' & E & Hr & Hs); [unfold retransmitTick; lia|lia|].
    exists t', n'. split; [|lia]. rewrite <- E.
    cbn [ticks_from run_entry]. unfold decide_ at 1. by rewrite (proj2 (Z.ltb_lt _ _) H).
  - exists t, (S n). split; [done|]. lia.
Qed.

(** One transmission: it happens within a tick of its deadline and the next
    deadline is the previous one plus the doubled timeout. *)
Lemma one_transmission t0 T k pn t n :
  0 <= k < 4 -> 2 * Second <= T < 3 * Second ->
  attempts pn = k -> timeout pn = 2 ^ k * T -> deadline pn = t0 + (2 ^ (k + 1) - 1) * T ->
  t < deadline pn + retransmitTick ->
  deadline pn + retransmitTick <= t + Z.of_nat n * retransmitTick ->
  exists s n' pn', run_entry pn (ticks_from t (S n)) =
      (let '(sent, g) := run_entry pn' (ticks_from (s + retransmitTick) (S n')) in (s :: sent, g)) /\
    deadline pn <= s < deadline pn + retransmitTick /\
    attempts pn' = k + 1 /\ timeout pn' = 2 ^ (k + 1) * T /\
    deadline pn' = t0 + (2 ^ (k + 2) - 1) * T /\
    s + retransmitTick + Z.of_nat n' * retransmitTick = t + Z.of_nat n * retransmitTick.
Proof.
  intros Hk HT Ha Hto Hd Ht Hn. unfold Second in HT.
  destruct (skip_to_deadline pn t n) as (s & [|n'] & E & Hs & Hsum); [done|unfold retransmitTick in *; lia|..].
  { exfalso. lia. }
  assert (2 ^ k <= 2 ^ 3) by (apply Z.pow_le_mono_r; lia).
  assert (0 < 2 ^ k) by lia.
  exists s, n', (advance pn s). rewrite E. split.
  { change (ticks_from s (S (S n'))) with (s :: ticks_from (s + retransmitTick) (S n')).
    cbn [run_entry]. unfold decide_ at 1. rewrite (proj2 (Z.ltb_ge s _)), Ha by lia.
    unfold maxRetransmit. by rewrite (proj2 (Z.leb_gt 4 k)) by lia. }
  split; [done|]. unfold advance. cbn [attempts timeout deadline].
  rewrite Ha, Hto. rewrite !i64_small by (unfold in_i64, min_int64, max_int64; nia).
  assert (2 ^ k * T * 2 = 2 ^ (k + 1) * T) as -> by (rewrite Z.pow_add_r by lia; lia).
  assert (2 ^ (k + 2) = 2 ^ (k + 1) + 2 ^ (k + 1)) as -> by (rewrite !Z.pow_add_r by lia; lia).
  assert (2 ^ (k + 1) = 2 * 2 ^ k) as E1 by (rewrite Z.pow_add_r by lia; lia).
  repeat split; [|rewrite Nat2Z.inj_succ in Hsum; lia].
  rewrite (proj2 (Z.ltb_ge _ s)) by (unfold retransmitTick, Millisecond in *; nia). lia.
Qed.

Lemma gives_up t0 T pn t n :
  attempts pn = 4 -> deadline pn = t0 + 31 * T -> t < deadline pn + retransmitTick ->
  deadline pn <= t + Z.of_nat n * retransmitTick ->
  exists g, run_entry pn (ticks_from t (S n)) = ([], Some g) /\
    deadline pn <= g < deadline pn + retransmitTick.
Proof.
  intros Ha Hd Ht Hn. destruct (skip_to_deadline pn t n) as (g & n' & -> & Hg & _); [done..|].
  exists g. split; [|done]. cbn [ticks_from run_entry]. unfold decide_.
  rewrite (proj2 (Z.ltb_ge g _)), Ha by lia. done.
Qed.

Lemma schedule_steps t0 draw token data t1 n :
  t0 <= t1 <= t0 + retransmitTick -> (400 <= n)%nat ->
  let T := initialRetransmitTimeout draw in
  exists s1 s2 s3 s4 g,
    run_entry (new_pending t0 draw token data) (ticks_from t1 n) = ([s1; s2; s3; s4], Some g) /\
    t0 + T <= s1 < t0 + T + retransmitTick /\
    t0 + 3 * T <= s2 < t0 + 3 * T + retransmitTick /\
    t0 + 7 * T <= s3 < t0 + 7 * T + retransmitTick /\
    t0 + 15 * T <= s4 < t0 + 15 * T + retransmitTick /\
    t0 + 31 * T <= g < t0 + 31 * T + retransmitTick.
Proof.
  intros Ht1 Hn T. pose proof (initialRetransmitTimeout_range draw) as HT'. fold T in HT'.
  change (ackTimeout + ackTimeoutSpread) with (3 * Second) in HT'.
  change ackTimeout with (2 * Second) in HT'. destruct n as [|n]; [lia|].
  assert (t0 + 31 * T + 6 * retransmitTick <= t1 + Z.of_nat n * retransmitTick) as Hroom
    by (unfold retransmitTick, Millisecond, Second in *; lia).
  set (pn := new_pending t0 draw token data).
  assert (retransmitTick < Second) as Htick by (by vm_compute).
  assert (0 < retransmitTick) as Htick0 by (by vm_compute).
  destruct (one_transmission t0 T 0 pn t1 n) as (s1 & n1 & p1 & E1 & S1 & A1 & T1 & D1 & R1);
    [lia|done|done|unfold pn; cbn; fold T; lia|unfold pn; cbn; fold T; lia|unfold pn; cbn; fold T; lia|
     unfold pn; cbn [new_pending deadline]; fold T; lia|].
  change (deadline pn) with (t0 + T) in S1.
  change (2 ^ (0 + 2)) with 4 in D1.
  destruct (one_transmission t0 T 1 p1 (s1 + retransmitTick) n1) as (s2 & n2 & p2 & E2 & S2 & A2 & T2 & D2 & R2);
    [lia|done|done|done|done|lia|lia|].
  change (2 ^ (1 + 2)) with 8 in D2.
  destruct (one_transmission t0 T 2 p2 (s2 + retransmitTick) n2) as (s3 & n3 & p3 & E3 & S3 & A3 & T3 & D3 & R3);
    [lia|done|done|done|done|lia|lia|].
  change (2 ^ (2 + 2)) with 16 in D3.
  destruct (one_transmission t0 T 3 p3 (s3 + retransmitTick) n3) as (s4 & n4 & p4 & E4 & S4 & A4 & T4 & D4 & R4);
    [lia|done|done|done|done|lia|lia|].
  change (2 ^ (3 + 2)) with 32 in D4.
  destruct (gives_up t0 T p4 (s4 + retransmitTick) n4) as (g & E5 & Hg); [done|lia|lia|lia|].
  exists s1, s2, s3, s4, g. rewrite E1, E2, E3, E4, E5.
  repeat split; lia.
Qed.

Lemma schedule_gives_up t0 draw token data t1 n :
  t0 <= t1 <= t0 + retransmitTick -> (400 <= n)%nat ->
  exists g, (run_entry (new_pending t0 draw token data) (ticks_from t1 n)).2 = Some g.
Proof.
  intros Ht Hn. destruct (schedule_steps t0 draw token data t1 n Ht Hn)
    as (s1 & s2 & s3 & s4 & g & E & _). exists g. by rewrite E.
Qed.

(** The schedule of RFC 7252 section 4.2: with the scheduler's 250 ms ticks
    a message that is never acknowledged is retransmitted exactly four times,
    each within one tick after 1, 3, 7 and 15 initial timeouts (2-3 s, 6-9 s,
    14-21 s and 30-45 s), and given up within one tick after 31 (62-93 s). *)
Theorem retransmission_schedule t0 draw token data t1 n :
  t0 <= t1 <= t0 + retransmitTick -> (400 <= n)%nat ->
  let T := initialRetransmitTimeout draw in
  exists s1 s2 s3 s4 g,
    run_entry (new_pending t0 draw token data) (ticks_from t1 n) = ([s1; s2; s3; s4], Some g) /\
    t0 + T <= s1 < t0 + T + retransmitTick /\
    t0 + 3 * T <= s2 < t0 + 3 * T + retransmitTick /\
    t0 + 7 * T <= s3 < t0 + 7 * T + retransmitTick /\
    t0 + 15 * T <= s4 < t0 + 15 * T + retransmitTick /\
    t0 + 31 * T <= g < t0 + 31 * T + retransmitTick.
Proof. intros Ht Hn. by apply schedule_steps. Qed.

Lemma retransmission_schedule_witness :
  exists s1 s2 s3 s4 g,
    run_entry (new_pending 0 0 [1] [2]) (ticks_from retransmitTick 400) = ([s1; s2; s3; s4], Some g) /\
    2 * Second <= s1 < 2 * Second + retransmitTick.
Proof.
  destruct (retransmission_schedule 0 0 [1] [2] retransmitTick 400 ltac:(split; by vm_compute) ltac:(lia))
    as (s1 & s2 & s3 & s4 & g & E & H & _).
  exists s1, s2, s3, s4, g. split; [exact E|exact H].
Defined.
