(* ===== verification/CoapObserve.v ===== *)
(** * CoapObserve: [internal/transport/coap/observe.go]

    The registry of observe relations (RFC 7641): who is subscribed to which
    resource, under a per-peer and a global cap.  Go strings are byte strings
    here, as resources and tokens come off the wire. *)
From S2P Require Import Prelude Bytes.
Local Open Scope Z_scope.
Local Open Scope list_scope.

(* go: internal/transport/coap/observe.go:9-17 (maxObserversPerRemote) *)
Definition maxObserversPerRemote : Z := 64.
Definition maxObserversTotal : Z := 4096.

(* go: internal/transport/coap/observe.go:19-26 (Observer) *)
Record Observer : Type := mkObserver {
  oToken : bytes;
  oRemote : bytes;
  oResource : bytes;
  seq : Z
}.

(** The value used and the observer after it. *)
(* go: internal/transport/coap/observe.go:28-35 (NextSeq) *)
Definition NextSeq (o : Observer) : Z * Observer :=
  (seq o, mkObserver (oToken o) (oRemote o) (oResource o) (u32 (seq o + 1))).

(* go: internal/transport/coap/observe.go:37-43 (ObserverRegistry) *)
Record ObserverRegistry : Type := mkRegistry {
  subs : gmap bytes (gmap bytes Observer);
  remoteCount : gmap bytes Z;
  total : Z
}.

(* go: internal/transport/coap/observe.go:45-51 (NewObserverRegistry) *)
Definition NewObserverRegistry : ObserverRegistry := mkRegistry ∅ ∅ 0.

(* go: internal/transport/coap/observe.go:189-191 (observerKey) *)
Definition observerKey (remote token : bytes) : bytes := remote ++ 47 :: token.

(** [r.remoteCount[remote]]: zero when absent. *)
Definition remote_count (r : ObserverRegistry) (remote : bytes) : Z :=
  default 0 (remoteCount r !! remote).

(** The observers of a resource; a missing inner map reads as empty. *)
Definition subs_of (r : ObserverRegistry) (resource : bytes) : gmap bytes Observer :=
  default ∅ (subs r !! resource).

Section registry.
Context {Hrange : MapRange (list Z)}.

(* go: internal/transport/coap/observe.go:53-100 (Register) *)
Definition Register (resource remote token : bytes) (r : ObserverRegistry) :
    option Observer * ObserverRegistry :=
  let m := subs_of r resource in
  let subs0 := <[resource := m]> (subs r) in
  let key := observerKey remote token in
  match m !! key with
  | Some obs => (Some obs, mkRegistry subs0 (remoteCount r) (total r))
  | None =>
      let old := find (fun ko => bool_decide (oRemote ko.2 = remote)) (map_range m) in
      let add (m : gmap bytes Observer) (rc : gmap bytes Z) (t : Z) :=
        let obs := mkObserver token remote resource 0 in
        (Some obs, mkRegistry (<[resource := <[key := obs]> m]> subs0)
                     (<[remote := default 0 (rc !! remote) + 1]> rc) (t + 1)) in
      match old with
      | Some (oldKey, _) =>
          add (delete oldKey m)
            (if 0 <? remote_count r remote
             then <[remote := remote_count r remote - 1]> (remoteCount r) else remoteCount r)
            (total r - 1)
      | None =>
          if (maxObserversPerRemote <=? remote_count r remote) || (maxObserversTotal <=? total r)
          then (None, mkRegistry subs0 (remoteCount r) (total r))
          else add m (remoteCount r) (total r)
      end
  end.

(* go: internal/transport/coap/observe.go:124-141 (removeLocked) *)
Definition removeLocked (resource remote token : bytes) (r : ObserverRegistry) : ObserverRegistry :=
  let key := observerKey remote token in
  match subs r !! resource with
  | None => r
  | Some m =>
      match m !! key with
      | None => r
      | Some _ =>
          let m' := delete key m in
          let subs' := if decide (m' = ∅) then delete resource (subs r) else <[resource := m']> (subs r) in
          let rc := remoteCount r in
          let rc' :=
            if 0 <? remote_count r remote then
              if remote_count r remote - 1 =? 0 then delete remote rc
              else <[remote := remote_count r remote - 1]> rc
            else rc in
          mkRegistry subs' rc' (total r - 1)
      end
  end.

(* go: internal/transport/coap/observe.go:102-107 (Remove) *)
Definition Remove (resource remote token : bytes) (r : ObserverRegistry) : ObserverRegistry :=
  removeLocked resource remote token r.

(** Deleting the visited key while ranging is safe in Go: the entries visited
    are those of the map when the loop started. *)
(* go: internal/transport/coap/observe.go:109-122 (RemoveByToken) *)
Definition RemoveByToken (remote token : bytes) (r : ObserverRegistry) : ObserverRegistry :=
  let key := observerKey remote token in
  fold_left (fun r rm =>
    match rm.2 !! key with
    | Some _ => removeLocked rm.1 remote token r
    | None => r
    end) (map_range (subs r)) r.

(** The inner loop: the peer's entries of one resource are deleted, each
    decrementing the total. *)
(* go: internal/transport/coap/observe.go:148-153 (RemoveBySession) *)
Definition drop_remote (remote : bytes) (m : gmap bytes Observer) (t : Z) : gmap bytes Observer * Z :=
  fold_left (fun mt ko =>
    if decide (oRemote ko.2 = remote) then (delete ko.1 mt.1, mt.2 - 1) else mt) (map_range m) (m, t).

(* go: internal/transport/coap/observe.go:143-159 (RemoveBySession) *)
Definition RemoveBySession (remote : bytes) (r : ObserverRegistry) : ObserverRegistry :=
  let '(subs', t') :=
    fold_left (fun st rm =>
      let '(m', t') := drop_remote remote rm.2 st.2 in
      (if decide (m' = ∅) then delete rm.1 st.1 else <[rm.1 := m']> st.1, t'))
      (map_range (subs r)) (subs r, total r) in
  mkRegistry subs' (delete remote (remoteCount r)) t'.

(* go: internal/transport/coap/observe.go:161-168 (HasObservers) *)
Definition HasObservers (remote : bytes) (r : ObserverRegistry) : bool := 0 <? remote_count r remote.

(* go: internal/transport/coap/observe.go:170-175 (Count) *)
Definition Count (r : ObserverRegistry) : Z := total r.

(* go: internal/transport/coap/observe.go:177-187 (Notify) *)
Definition Notify (resource : bytes) (r : ObserverRegistry) : list Observer :=
  (map_range (subs_of r resource)).*2.

(** ** Specification: a list of relations *)

(** A relation: a resource, a peer, and the token it subscribed with. *)
Record rel : Type := mkRel { r_res : bytes; r_rem : bytes; r_tok : bytes }.

#[local] Instance rel_eq_dec : EqDecision rel.
Proof. solve_decision. Defined.

Definition same_client (x y : rel) : Prop := r_res y = r_res x /\ r_rem y = r_rem x.
#[local] Instance same_client_dec x y : Decision (same_client x y).
Proof. unfold same_client. apply _. Defined.

(** The relations of a peer. *)
Definition cnt (remote : bytes) (L : list rel) : Z := len (filter (fun x => r_rem x = remote) L).

(** Registering a relation does nothing if it exists; it replaces the client's
    relation on the resource; it is refused beyond a cap. *)
Definition spec_register (x : rel) (L : list rel) : bool * list rel :=
  if decide (x ∈ L) then (true, L)
  else if decide (Exists (same_client x) L) then
    (true, x :: filter (fun y => ~ same_client x y) L)
  else if (maxObserversPerRemote <=? cnt (r_rem x) L) || (maxObserversTotal <=? len L)
  then (false, L)
  else (true, x :: L).

Definition lookup2 (S : gmap bytes (gmap bytes Observer)) (res k : bytes) : option Observer :=
  S !! res ≫= (.!! k).

Definition rel_key (x : rel) : bytes := observerKey (r_rem x) (r_tok x).

(** The subscription table and its total stand for the relations [L]. *)
Record holds_subs (S : gmap bytes (gmap bytes Observer)) (t : Z) (L : list rel) : Prop := mkHolds {
  hs_shape : forall res k o, lookup2 S res k = Some o ->
    oResource o = res /\ k = observerKey (oRemote o) (oToken o) /\ 47 ∉ oRemote o;
  hs_elem : forall x, x ∈ L <-> 47 ∉ r_rem x /\ is_Some (lookup2 S (r_res x) (rel_key x));
  hs_unique : NoDup ((fun x => (r_res x, r_rem x)) <$> L);
  hs_total : t = len L
}.

Definition represents (r : ObserverRegistry) (L : list rel) : Prop :=
  holds_subs (subs r) (total r) L /\
  forall remote, remoteCount r !! remote = if decide (cnt remote L = 0) then None else Some (cnt remote L).

(** *** Lists of relations *)

Lemma cnt_perm remote L L' : L ≡ₚ L' -> cnt remote L = cnt remote L'.
Proof. intros H. unfold cnt, len. by rewrite H. Qed.

Lemma len_perm {A} (L L' : list A) : L ≡ₚ L' -> len L = len L'.
Proof. intros H. unfold len. by rewrite H. Qed.

Lemma cnt_cons remote x L : cnt remote (x :: L) = (if decide (r_rem x = remote) then 1 else 0) + cnt remote L.
Proof. unfold cnt. rewrite filter_cons. destruct (decide _); [by rewrite len_cons|done]. Qed.

Lemma cnt_pos remote x L : x ∈ L -> r_rem x = remote -> 0 < cnt remote L.
Proof.
  intros Hx Hr. assert (x ∈ filter (fun x => r_rem x = remote) L) as H by (by apply list_elem_of_filter).
  unfold cnt, len. destruct (filter _ L); [by inversion H|simpl; lia].
Qed.

Lemma cnt_le remote L : cnt remote L <= len L.
Proof. unfold cnt, len. pose proof (length_filter (fun x => r_rem x = remote) L). lia. Qed.

Lemma subs_perm S t L L' : L ≡ₚ L' -> holds_subs S t L -> holds_subs S t L'.
Proof.
  intros H [H1 H2 H3 H4]. split; [done| |by rewrite <- H|by rewrite <- (len_perm _ _ H)].
  intros x. by rewrite <- H.
Qed.

Lemma represents_perm r L L' : L ≡ₚ L' -> represents r L -> represents r L'.
Proof.
  intros H [H1 H2]. split; [by apply subs_perm with L|]. intros remote.
  by rewrite <- (cnt_perm remote _ _ H).
Qed.

Lemma holds_NoDup S t L : holds_subs S t L -> NoDup L.
Proof. intros H. by eapply NoDup_fmap_1, (hs_unique _ _ _ H). Qed.

Lemma holds_same_client S t L x y :
  holds_subs S t L -> x ∈ L -> y ∈ L -> same_client x y -> x = y.
Proof.
  intros H Hx Hy [E1 E2]. apply list_elem_of_lookup in Hx as [i Hi].
  apply list_elem_of_lookup in Hy as [j Hj].
  assert (i = j) as ->; [|congruence].
  eapply (NoDup_lookup _ i j (r_res x, r_rem x) (hs_unique _ _ _ H)).
  - by rewrite list_lookup_fmap, Hi.
  - rewrite list_lookup_fmap, Hj. simpl. by rewrite E1, E2.
Qed.

(** *** Keys *)

(** The separator splits a key uniquely: no address text contains a slash. *)
Lemma observerKey_inj r1 t1 r2 t2 :
  47 ∉ r1 -> 47 ∉ r2 -> observerKey r1 t1 = observerKey r2 t2 -> r1 = r2 /\ t1 = t2.
Proof.
  unfold observerKey. revert r2. induction r1 as [|a r1 IH]; intros [|b r2] H1 H2 E; simplify_eq/=.
  - done.
  - set_solver.
  - set_solver.
  - destruct (IH r2) as [-> ->]; [set_solver|set_solver|done|done].
Qed.

Lemma rel_key_inj x y :
  47 ∉ r_rem x -> 47 ∉ r_rem y -> r_res x = r_res y -> rel_key x = rel_key y -> x = y.
Proof.
  intros Hx Hy Hr Hk. apply observerKey_inj in Hk as [? ?]; [|done..].
  destruct x, y. naive_solver.
Qed.

(** The relation an entry of the table stands for. *)
Lemma holds_entry S t L res k o :
  holds_subs S t L -> lookup2 S res k = Some o ->
  mkRel res (oRemote o) (oToken o) ∈ L /\ k = rel_key (mkRel res (oRemote o) (oToken o)).
Proof.
  intros H E. destruct (hs_shape _ _ _ H _ _ _ E) as (_ & -> & Hs). split; [|done].
  apply (hs_elem _ _ _ H). split; [done|]. by exists o.
Qed.

Lemma holds_entry_of S t L x :
  holds_subs S t L -> x ∈ L ->
  exists o, lookup2 S (r_res x) (rel_key x) = Some o /\ oRemote o = r_rem x /\ oToken o = r_tok x.
Proof.
  intros H Hx. apply (hs_elem _ _ _ H) in Hx as [Hs [o Eo]]. exists o. split; [done|].
  destruct (hs_shape _ _ _ H _ _ _ Eo) as (_ & Hk & Hs').
  apply observerKey_inj in Hk as [? ?]; auto.
Qed.

(** *** Adding and deleting one entry *)

Lemma lookup2_insert S res m res' k :
  lookup2 (<[res := m]> S) res' k = if decide (res' = res) then m !! k else lookup2 S res' k.
Proof.
  unfold lookup2. destruct (decide (res' = res)) as [->|H]; [by rewrite lookup_insert_eq|].
  by rewrite lookup_insert_ne.
Qed.

(** Deleting an emptied inner map changes no entry. *)
Lemma lookup2_delete S res m res' k :
  m = ∅ -> lookup2 (delete res S) res' k = lookup2 (<[res := m]> S) res' k.
Proof.
  intros ->. rewrite lookup2_insert. unfold lookup2. destruct (decide (res' = res)) as [->|H].
  - by rewrite lookup_delete_eq, lookup_empty.
  - by rewrite lookup_delete_ne.
Qed.

Lemma subs_ext S S' t L :
  (forall res k, lookup2 S' res k = lookup2 S res k) -> holds_subs S t L -> holds_subs S' t L.
Proof.
  intros E [H1 H2 H3 H4]. split; [|intros x; by rewrite E|done|done].
  intros res k o. rewrite E. apply H1.
Qed.

Lemma subs_delete S S' t x L :
  holds_subs S t (x :: L) ->
  (forall res k, lookup2 S' res k =
     if decide (res = r_res x /\ k = rel_key x) then None else lookup2 S res k) ->
  holds_subs S' (t - 1) L.
Proof.
  intros H E. pose proof (holds_NoDup _ _ _ H) as Hnd. inversion Hnd as [|? ? Hx Hnd']; subst.
  split.
  - intros res k o. rewrite E. destruct (decide _); [done|]. apply (hs_shape _ _ _ H).
  - intros y. rewrite E. pose proof (hs_elem _ _ _ H y) as Hy.
    pose proof (proj1 (hs_elem _ _ _ H x) ltac:(left)) as [Hxs _].
    destruct (decide (r_res y = r_res x /\ rel_key y = rel_key x)) as [[E1 E2]|Hne].
    + split; [|by intros [_ []]]. intros HyL. exfalso. apply Hx.
      enough (y = x) by congruence.
      apply rel_key_inj; try done. apply Hy. by right.
    + rewrite <- Hy, elem_of_cons. naive_solver.
  - pose proof (hs_unique _ _ _ H) as Hu. by inversion Hu.
  - rewrite (hs_total _ _ _ H), len_cons. lia.
Qed.

Lemma subs_insert S S' t x L o :
  holds_subs S t L -> 47 ∉ r_rem x -> x ∉ L -> Forall (fun y => ~ same_client x y) L ->
  oRemote o = r_rem x -> oToken o = r_tok x -> oResource o = r_res x ->
  (forall res k, lookup2 S' res k =
     if decide (res = r_res x /\ k = rel_key x) then Some o else lookup2 S res k) ->
  holds_subs S' (t + 1) (x :: L).
Proof.
  intros H Hs Hx Hsame Er Et Eres E. split.
  - intros res k o'. rewrite E. destruct (decide _) as [[-> ->]|]; [|apply (hs_shape _ _ _ H)].
    intros [= <-]. unfold rel_key. by rewrite Er, Et.
  - intros y. rewrite E, elem_of_cons, (hs_elem _ _ _ H).
    destruct (decide (r_res y = r_res x /\ rel_key y = rel_key x)) as [[E1 E2]|Hne]; [|naive_solver].
    split; [intros [->|[? _]]; naive_solver|]. intros [Hy _]. left. by apply rel_key_inj.
  - rewrite fmap_cons. constructor; [|apply (hs_unique _ _ _ H)].
    rewrite list_elem_of_fmap. intros (y & Ey & Hy). rewrite Forall_forall in Hsame.
    apply (Hsame y Hy). by injection Ey.
  - rewrite (hs_total _ _ _ H), len_cons. lia.
Qed.

(** *** Removal *)

Lemma NoDup_extract {A} `{EqDecision A} (x : A) L :
  NoDup L -> x ∈ L -> L ≡ₚ x :: filter (fun y => y <> x) L.
Proof.
  intros Hnd Hx. apply NoDup_Permutation; [done| |].
  - constructor; [|by apply NoDup_filter]. rewrite list_elem_of_filter. naive_solver.
  - intros y. rewrite elem_of_cons, list_elem_of_filter. destruct (decide (y = x)); naive_solver.
Qed.

Lemma represents_NoDup r L : represents r L -> NoDup L.
Proof. intros [H _]. by eapply holds_NoDup. Qed.

(** A list without duplicates is determined by its elements. *)
Lemma represents_elems r L L' :
  represents r L -> NoDup L' -> (forall x, x ∈ L <-> x ∈ L') -> represents r L'.
Proof.
  intros H Hnd E. eapply represents_perm, H. apply NoDup_Permutation; [|done..].
  by eapply represents_NoDup.
Qed.

Lemma holds_elems S t L L' :
  holds_subs S t L -> NoDup L' -> (forall x, x ∈ L <-> x ∈ L') -> holds_subs S t L'.
Proof.
  intros H Hnd E. eapply subs_perm, H. apply NoDup_Permutation; [|done..].
  by eapply holds_NoDup.
Qed.

Lemma represents_count r L remote :
  represents r L -> remote_count r remote = cnt remote L.
Proof.
  intros [_ H]. unfold remote_count. rewrite H. by destruct (decide _).
Qed.

Lemma removeLocked_in r x L :
  represents r (x :: L) -> represents (removeLocked (r_res x) (r_rem x) (r_tok x) r) L.
Proof.
  intros H. pose proof (represents_count r _ (r_rem x) H) as Hc. destruct H as [Hs Hcount].
  destruct (holds_entry_of _ _ _ x Hs ltac:(left)) as (o & Eo & _ & _).
  unfold lookup2 in Eo. unfold removeLocked. fold (rel_key x).
  destruct (subs r !! r_res x) as [m|] eqn:Em; simpl in Eo; [|discriminate Eo]. rewrite Eo.
  rewrite Hc, cnt_cons, (decide_True (P := r_rem x = r_rem x)) by done.
  assert (0 <= cnt (r_rem x) L) as Hpos by apply len_nonneg.
  rewrite (proj2 (Z.ltb_lt 0 _)) by lia.
  split; cbn [subs total remoteCount].
  - apply (subs_delete (subs r) _ _ x L Hs). intros res k.
    assert (lookup2 (if decide (delete (rel_key x) m = ∅) then delete (r_res x) (subs r)
              else <[r_res x:=delete (rel_key x) m]> (subs r)) res k =
            lookup2 (<[r_res x:=delete (rel_key x) m]> (subs r)) res k) as ->
      by (destruct (decide _); [by apply lookup2_delete|done]).
    rewrite lookup2_insert. destruct (decide (res = r_res x)) as [->|Hr].
    + destruct (decide (k = rel_key x)) as [->|Hk].
      * by rewrite lookup_delete_eq, decide_True.
      * rewrite lookup_delete_ne, decide_False by naive_solver. unfold lookup2. by rewrite Em.
    + rewrite decide_False; [done|naive_solver].
  - intros remote. specialize (Hcount remote). rewrite cnt_cons in Hcount.
    destruct (decide (r_rem x = remote)) as [<-|Hr].
    + replace (1 + cnt (r_rem x) L - 1) with (cnt (r_rem x) L) by lia.
      destruct (Z.eqb_spec (cnt (r_rem x) L) 0) as [E|E].
      * by rewrite lookup_delete_eq, decide_True.
      * by rewrite lookup_insert_eq, decide_False.
    + destruct (_ =? 0); rewrite ?lookup_delete_ne, ?lookup_insert_ne by done; exact Hcount.
Qed.

Lemma removeLocked_notin r x L :
  represents r L -> 47 ∉ r_rem x -> x ∉ L -> removeLocked (r_res x) (r_rem x) (r_tok x) r = r.
Proof.
  intros [H _] Hs Hx. rewrite (hs_elem _ _ _ H) in Hx. unfold removeLocked. fold (rel_key x).
  destruct (subs r !! r_res x) as [m|] eqn:Em; [|done].
  destruct (m !! rel_key x) eqn:Ek; [|done]. exfalso. apply Hx. split; [done|].
  unfold lookup2. rewrite Em. simpl. by rewrite Ek.
Qed.

Lemma removeLocked_spec r x L :
  represents r L -> 47 ∉ r_rem x ->
  represents (removeLocked (r_res x) (r_rem x) (r_tok x) r) (filter (fun y => y <> x) L).
Proof.
  intros H Hs. pose proof (represents_NoDup r L H) as Hnd. destruct (decide (x ∈ L)) as [Hx|Hx].
  - apply removeLocked_in. eapply represents_perm, H. by apply NoDup_extract.
  - rewrite (removeLocked_notin r x L) by done.
    apply (represents_elems r L); [done|by apply NoDup_filter|].
    intros y. rewrite list_elem_of_filter. naive_solver.
Qed.

Definition by_token (remote token : bytes) (x : rel) : Prop := r_rem x = remote /\ r_tok x = token.
#[local] Instance by_token_dec remote token x : Decision (by_token remote token x).
Proof. unfold by_token. apply _. Defined.

Lemma RemoveByToken_spec r remote token L :
  represents r L -> 47 ∉ remote ->
  represents (RemoveByToken remote token r) (filter (fun x => ~ by_token remote token x) L).
Proof.
  intros H Hs. unfold RemoveByToken.
  assert (forall (l : list (bytes * gmap bytes Observer)) r' L', represents r' L' ->
    (forall res m, (res, m) ∈ l -> m !! observerKey remote token = None ->
       mkRel res remote token ∉ L') ->
    represents (fold_left (fun r rm => match rm.2 !! observerKey remote token with
        | Some _ => removeLocked rm.1 remote token r | None => r end) l r')
      (filter (fun x => ~ (by_token remote token x /\ r_res x ∈ l.*1)) L')) as Hind.
  { induction l as [|[res m] l IH]; intros r' L' Hr Hl; cbn [fold_left fst snd].
    - apply (represents_elems r' L'); [done|by eapply NoDup_filter, represents_NoDup|].
      intros x. rewrite list_elem_of_filter. set_solver.
    - set (x := mkRel res remote token).
      assert (represents (match m !! observerKey remote token with
        | Some _ => removeLocked res remote token r' | None => r' end)
        (filter (fun y => y <> x) L')) as Hr'.
      { destruct (m !! observerKey remote token) eqn:Ek; [by apply (removeLocked_spec r' x)|].
        apply (represents_elems r' L'); [done|by eapply NoDup_filter, represents_NoDup|].
        intros y. rewrite list_elem_of_filter. specialize (Hl res m ltac:(left) Ek). naive_solver. }
      eapply represents_elems; [apply IH; [exact Hr'|]| |].
      + intros res' m' Hin Hk. rewrite list_elem_of_filter. intros [_ Hx].
        by apply (Hl res' m' ltac:(by right) Hk).
      + by eapply NoDup_filter, represents_NoDup.
      + intros y. rewrite !list_elem_of_filter. unfold by_token. cbn [fst]. rewrite fmap_cons, elem_of_cons.
        cbn [fst]. destruct (decide (y = x)) as [->|Hy]; [set_solver|].
        assert (by_token remote token y -> r_res y <> res) as Hne
          by (intros [E1 E2] E3; apply Hy; destruct y; naive_solver).
        unfold by_token in Hne. naive_solver. }
  eapply represents_elems; [apply (Hind _ r L H)| |].
  - intros res m Hin Hk. apply elem_of_map_range in Hin. destruct H as [H _].
    rewrite (hs_elem _ _ _ H). intros [_ [o Ho]]. unfold lookup2 in Ho. cbn [r_res] in Ho.
    rewrite Hin in Ho. simpl in Ho. unfold rel_key in Ho. cbn [r_rem r_tok] in Ho. congruence.
  - by eapply NoDup_filter, represents_NoDup.
  - intros x. rewrite !list_elem_of_filter. split; [|naive_solver]. intros [Hn Hx]. split; [|done].
    intros Hb. apply Hn. split; [done|]. destruct H as [H _].
    destruct (holds_entry_of _ _ _ x H Hx) as (o & Ho & _). unfold lookup2 in Ho.
    destruct (subs r !! r_res x) as [m|] eqn:Em; [|done].
    apply list_elem_of_fmap. exists (r_res x, m). split; [done|]. by apply elem_of_map_range.
Qed.

(** The inner loop deletes the peer's relations on one resource, one at a time. *)
Lemma drop_loop_holds (remote res : bytes) S (l : list (bytes * Observer)) m t L :
  holds_subs (<[res := m]> S) t L -> NoDup l.*1 ->
  (forall k o, (k, o) ∈ l -> m !! k = Some o) ->
  let mt := fold_left (fun mt ko =>
    if decide (oRemote ko.2 = remote) then (delete ko.1 mt.1, mt.2 - 1) else mt) l (m, t) in
  exists L', holds_subs (<[res := mt.1]> S) mt.2 L' /\
    forall x, x ∈ L' <-> x ∈ L /\ ~ (r_res x = res /\ r_rem x = remote /\ rel_key x ∈ l.*1).
Proof.
  revert m t L. induction l as [|[k o] l IH]; intros m t L H Hnd Hl; cbn [fold_left fst snd].
  { exists L. split; [done|]. set_solver. }
  rewrite fmap_cons in Hnd. inversion Hnd as [|? ? Hk Hnd']; subst. cbn [fst] in *.
  assert (lookup2 (<[res:=m]> S) res k = Some o) as Ek
    by (rewrite lookup2_insert, decide_True by done; apply Hl; left).
  destruct (holds_entry _ _ _ _ _ _ H Ek) as [Hx Ekx]. set (x := mkRel res (oRemote o) (oToken o)) in *.
  destruct (decide (oRemote o = remote)) as [<-|Hr].
  - assert (holds_subs (<[res := delete k m]> S) (t - 1) (filter (fun y => y <> x) L)) as H'.
    { apply (subs_delete (<[res := m]> S) _ _ x).
      - eapply subs_perm, H. apply NoDup_extract; [by eapply holds_NoDup|done].
      - intros res' k'. rewrite !lookup2_insert. cbn [r_res x]. rewrite <- Ekx.
        destruct (decide (res' = res)) as [->|Hr]; [|by rewrite decide_False by naive_solver].
        destruct (decide (k' = k)) as [->|Hk']; [by rewrite lookup_delete_eq, decide_True|].
        by rewrite lookup_delete_ne, decide_False by naive_solver. }
    destruct (IH _ _ _ H' Hnd') as (L' & HL' & E).
    { intros k' o' Hin. rewrite lookup_delete_ne; [apply Hl; by right|].
      intros <-. apply Hk. apply list_elem_of_fmap. by exists (k, o'). }
    exists L'. split; [exact HL'|]. intros y. rewrite E, list_elem_of_filter, fmap_cons, elem_of_cons. cbn [fst].
    destruct (decide (y = x)) as [->|Hy]; [naive_solver|].
    assert (r_res y = res -> r_rem y = oRemote o -> y ∈ L -> rel_key y <> k) as Hne; [|naive_solver].
    intros E1 E2 HyL E3. apply Hy.
    apply (rel_key_inj y x); [by apply (hs_elem _ _ _ H)|by apply (hs_elem _ _ _ H)|done|congruence].
  - destruct (IH m t L H Hnd') as (L' & HL' & E); [intros; apply Hl; by right|].
    exists L'. split; [exact HL'|]. intros y. rewrite E, fmap_cons, elem_of_cons. cbn [fst].
    split; [|naive_solver]. intros [HyL Hn]. split; [done|]. intros (E1 & E2 & [E3|E3]); [|naive_solver].
    apply Hr. assert (y = x) as ->; [|done].
    apply (rel_key_inj y x); [by apply (hs_elem _ _ _ H)|by apply (hs_elem _ _ _ H)|done|congruence].
Qed.

Lemma drop_remote_holds (remote res : bytes) S m t L :
  holds_subs S t L -> S !! res = Some m ->
  let mt := drop_remote remote m t in
  exists L', holds_subs (<[res := mt.1]> S) mt.2 L' /\
    forall x, x ∈ L' <-> x ∈ L /\ ~ (r_res x = res /\ r_rem x = remote).
Proof.
  intros H Hres. destruct (drop_loop_holds remote res S (map_range m) m t L) as (L' & HL' & E).
  - by rewrite insert_id.
  - rewrite map_range_perm. apply NoDup_fst_map_to_list.
  - intros k o. by rewrite elem_of_map_range.
  - exists L'. split; [exact HL'|]. intros x. rewrite E. split; [|naive_solver].
    intros [Hx Hn]. split; [done|]. intros [E1 E2]. apply Hn. split; [done|]. split; [done|].
    destruct (holds_entry_of _ _ _ x H Hx) as (o & Eo & _). unfold lookup2 in Eo.
    rewrite E1, Hres in Eo. simpl in Eo. apply list_elem_of_fmap.
    exists (rel_key x, o). split; [done|]. by apply elem_of_map_range.
Qed.

Lemma session_loop_holds (remote : bytes) (l : list (bytes * gmap bytes Observer)) S t L :
  holds_subs S t L -> NoDup l.*1 -> (forall res m, (res, m) ∈ l -> S !! res = Some m) ->
  let st := fold_left (fun st rm =>
      let '(m', t') := drop_remote remote rm.2 st.2 in
      (if decide (m' = ∅) then delete rm.1 st.1 else <[rm.1 := m']> st.1, t')) l (S, t) in
  exists L', holds_subs st.1 st.2 L' /\
    forall x, x ∈ L' <-> x ∈ L /\ ~ (r_rem x = remote /\ r_res x ∈ l.*1).
Proof.
  revert S t L. induction l as [|[res m] l IH]; intros S t L H Hnd Hl; cbn [fold_left fst snd].
  { exists L. split; [done|]. set_solver. }
  rewrite fmap_cons in Hnd. inversion Hnd as [|? ? Hk Hnd']; subst. cbn [fst] in *.
  destruct (drop_remote_holds remote res S m t L H) as (L1 & H1 & E1); [apply Hl; left|].
  destruct (drop_remote remote m t) as [m' t']. cbn [fst snd] in *.
  set (S' := if decide (m' = ∅) then delete res S else <[res:=m']> S).
  assert (holds_subs S' t' L1) as H1'.
  { apply (subs_ext (<[res:=m']> S)); [|done]. intros res' k. unfold S'.
    destruct (decide (m' = ∅)); [by apply lookup2_delete|done]. }
  destruct (IH S' t' L1 H1' Hnd') as (L2 & H2 & E2).
  - intros res' m2 Hin. assert (res' <> res) as Hne.
    { intros ->. apply Hk. apply list_elem_of_fmap. by exists (res, m2). }
    unfold S'. destruct (decide _); rewrite ?lookup_delete_ne, ?lookup_insert_ne by done; apply Hl; by right.
  - exists L2. split; [exact H2|]. intros x. rewrite E2, E1, fmap_cons, elem_of_cons. naive_solver.
Qed.

Lemma RemoveBySession_spec r (remote : bytes) L :
  represents r L -> represents (RemoveBySession remote r) (filter (fun x => r_rem x <> remote) L).
Proof.
  intros [H Hc]. unfold RemoveBySession.
  destruct (session_loop_holds remote (map_range (subs r)) (subs r) (total r) L H) as (L' & H' & E).
  { rewrite map_range_perm. apply NoDup_fst_map_to_list. }
  { intros res m. by rewrite elem_of_map_range. }
  destruct (fold_left _ _ _) as [S' t']. cbn [fst snd] in H'.
  assert (L' ≡ₚ filter (fun x => r_rem x <> remote) L) as HL'.
  { apply NoDup_Permutation; [by eapply holds_NoDup|by eapply NoDup_filter, holds_NoDup|].
    intros x. rewrite E, list_elem_of_filter. split; [|naive_solver]. intros [Hx Hn]. split; [|done].
    intros Hr. apply Hn. split; [done|].
    destruct (holds_entry_of _ _ _ x H Hx) as (o & Eo & _). unfold lookup2 in Eo.
    destruct (subs r !! r_res x) as [m|] eqn:Em; simpl in Eo; [|discriminate Eo].
    apply list_elem_of_fmap. exists (r_res x, m). split; [done|]. by apply elem_of_map_range. }
  split; cbn [subs total remoteCount]; [by eapply subs_perm|].
  intros remote'. unfold cnt. rewrite list_filter_filter. destruct (decide (remote' = remote)) as [->|Hr].
  - rewrite lookup_delete_eq. assert (filter (fun x => r_rem x = remote /\ r_rem x <> remote) L = []) as ->;
      [|done]. apply filter_none. naive_solver.
  - rewrite lookup_delete_ne, Hc by done. unfold cnt.
    assert (filter (fun x => r_rem x = remote' /\ r_rem x <> remote) L = filter (fun x => r_rem x = remote') L) as ->;
      [|done]. apply list_filter_iff. naive_solver.
Qed.

(** *** Registration *)

Lemma subs_of_lookup r res k : subs_of r res !! k = lookup2 (subs r) res k.
Proof. unfold subs_of, lookup2. destruct (subs r !! res); [done|]. apply lookup_empty. Qed.

(** Looking for the client's relation among the observers of a resource. *)
Lemma find_client r L x :
  represents r L ->
  match find (fun ko => bool_decide (oRemote ko.2 = r_rem x)) (map_range (subs_of r (r_res x))) with
  | Some (k, o) => exists y, y ∈ L /\ same_client x y /\ k = rel_key y
  | None => Forall (fun y => ~ same_client x y) L
  end.
Proof.
  intros [H _]. destruct (find _ _) as [[k o]|] eqn:Ef.
  - apply find_some in Ef as [Hin Hr]. apply bool_decide_eq_true_1 in Hr. cbn [snd] in Hr.
    apply list_elem_of_In, elem_of_map_range in Hin.
    pose proof Hin as Eo. rewrite subs_of_lookup in Eo.
    destruct (holds_entry _ _ _ _ _ _ H Eo) as [Hy Hk]. eexists. split; [exact Hy|].
    split; [|done]. by split.
  - apply Forall_forall. intros y Hy [E1 E2].
    destruct (holds_entry_of _ _ _ y H Hy) as (o & Eo & Ero & _).
    assert ((rel_key y, o) ∈ map_range (subs_of r (r_res x))) as Hin.
    { apply elem_of_map_range. by rewrite <- E1, subs_of_lookup. }
    apply list_elem_of_In in Hin. pose proof (find_none _ _ Ef _ Hin) as Hn. cbn [snd] in Hn.
    apply bool_decide_eq_false_1 in Hn. congruence.
Qed.

(** Making the inner map of a resource explicit changes no entry. *)
Lemma lookup2_subs0 r res res' k :
  lookup2 (<[res := subs_of r res]> (subs r)) res' k = lookup2 (subs r) res' k.
Proof.
  rewrite lookup2_insert. destruct (decide (res' = res)) as [->|]; [|done].
  unfold subs_of, lookup2. by destruct (subs r !! res).
Qed.

Lemma filter_same_client r L x y :
  represents r L -> y ∈ L -> same_client x y ->
  L ≡ₚ y :: filter (fun z => ~ same_client x z) L.
Proof.
  intros H Hy Hs. etransitivity; [apply (NoDup_extract y); [by eapply represents_NoDup|done]|].
  apply Permutation_cons; [done|]. apply NoDup_Permutation;
    [by eapply NoDup_filter, represents_NoDup..|].
  intros z. rewrite !list_elem_of_filter. split; [|naive_solver]. intros [Hne Hz]. split; [|done].
  intros Hs'. apply Hne. destruct H as [H _]. apply (holds_same_client _ _ _ _ _ H); [done..|].
  destruct Hs, Hs'. split; congruence.
Qed.

Definition is_some {A} (o : option A) : bool := match o with Some _ => true | None => false end.

Lemma Register_spec r L x :
  represents r L -> 47 ∉ r_rem x ->
  let '(obs, r') := Register (r_res x) (r_rem x) (r_tok x) r in
  let '(ok, L') := spec_register x L in
  is_some obs = ok /\ represents r' L'.
Proof.
  intros H Hs. pose proof H as [Hsub Hcount]. unfold Register, spec_register. fold (rel_key x).
  pose proof (find_client r L x H) as Hfind.
  rewrite (represents_count r L (r_rem x) H), (hs_total _ _ _ Hsub), subs_of_lookup.
  destruct (decide (x ∈ L)) as [Hx|Hx].
  { destruct (holds_entry_of _ _ _ x Hsub Hx) as (o & -> & _). split; [done|].
    split; [|done]. cbn [subs total]. rewrite <- (hs_total _ _ _ Hsub).
    eapply subs_ext, Hsub. intros. apply lookup2_subs0. }
  destruct (lookup2 (subs r) (r_res x) (rel_key x)) as [o|] eqn:Ek.
  { exfalso. apply Hx, (hs_elem _ _ _ Hsub). split; [done|]. by exists o. }
  destruct (find _ _) as [[k o]|].
  - destruct Hfind as (y & Hy & Hsame & ->). rewrite decide_True by (apply Exists_exists; eauto).
    split; [done|]. pose proof (filter_same_client r L x y H Hy Hsame) as Hp.
    pose proof Hsame as [Er Em]. set (Lf := filter _ L) in *. rewrite (len_perm _ _ Hp), len_cons.
    replace (1 + len Lf - 1) with (len Lf) by lia.
    rewrite (cnt_perm _ _ _ Hp), cnt_cons, (decide_True (P := r_rem y = r_rem x)) by done.
    pose proof (len_nonneg (filter (fun z => r_rem z = r_rem x) Lf)) as Hn. fold (cnt (r_rem x) Lf) in Hn.
    rewrite (proj2 (Z.ltb_lt 0 _)) by lia. split; cbn [subs total remoteCount].
    + assert (forall z, z ∈ Lf -> z ∈ L /\ ~ same_client x z) as HLf
        by (intros z Hz; unfold Lf in Hz; apply list_elem_of_filter in Hz; tauto).
      assert (holds_subs (<[r_res x := delete (rel_key y) (subs_of r (r_res x))]> (subs r)) (len Lf) Lf) as H1.
      { replace (len Lf) with (total r - 1) by (rewrite (hs_total _ _ _ Hsub), (len_perm _ _ Hp), len_cons; lia).
        apply (subs_delete (subs r) _ _ y); [by eapply subs_perm|]. intros res k. rewrite lookup2_insert.
        destruct (decide (res = r_res x)) as [->|Hr]; [|rewrite decide_False; [done|naive_solver]].
        destruct (decide (k = rel_key y)) as [->|Hk]; [by rewrite lookup_delete_eq, decide_True|].
        by rewrite lookup_delete_ne, decide_False, subs_of_lookup by naive_solver. }
      apply (subs_insert (<[r_res x := delete (rel_key y) (subs_of r (r_res x))]> (subs r)) _ _ x Lf
               (mkObserver (r_tok x) (r_rem x) (r_res x) 0)); try done.
      * intros Hin. by apply HLf in Hin as [? []].
      * apply Forall_forall. intros z Hz. by apply HLf.
      * intros res k. rewrite !lookup2_insert. destruct (decide (res = r_res x)) as [->|Hr];
          [|by rewrite decide_False by naive_solver].
        destruct (decide (k = rel_key x)) as [->|Hk]; [by rewrite lookup_insert_eq, decide_True|].
        by rewrite lookup_insert_ne, decide_False by naive_solver.
    + intros remote. specialize (Hcount remote). rewrite (cnt_perm _ _ _ Hp), cnt_cons in Hcount.
      rewrite cnt_cons. destruct (decide (r_rem x = remote)) as [<-|Hr].
      * rewrite !lookup_insert_eq. simpl. rewrite decide_False by lia. f_equal. lia.
      * rewrite (decide_False (P := r_rem y = remote)) in Hcount by congruence.
        by rewrite !lookup_insert_ne, Hcount by done.
  - rewrite decide_False by (rewrite Exists_exists; rewrite Forall_forall in Hfind; naive_solver).
    destruct ((maxObserversPerRemote <=? _) || _).
    { split; [done|]. split; [|done]. cbn [subs total].
      rewrite <- (hs_total _ _ _ Hsub). eapply subs_ext, Hsub. intros. apply lookup2_subs0. }
    split; [done|]. split; cbn [subs total remoteCount].
    + apply (subs_insert (subs r) _ _ x L (mkObserver (r_tok x) (r_rem x) (r_res x) 0)); try done.
      { rewrite <- (hs_total _ _ _ Hsub). done. }
      intros res k. rewrite !lookup2_insert. destruct (decide (res = r_res x)) as [->|Hr];
        [|by rewrite decide_False by naive_solver].
      destruct (decide (k = rel_key x)) as [->|Hk]; [by rewrite lookup_insert_eq, decide_True|].
      by rewrite lookup_insert_ne, decide_False, subs_of_lookup by naive_solver.
    + intros remote. rewrite cnt_cons, Hcount.
      pose proof (len_nonneg (filter (fun z => r_rem z = r_rem x) L)) as Hn. fold (cnt (r_rem x) L) in Hn.
      destruct (decide (r_rem x = remote)) as [<-|Hr].
      * rewrite lookup_insert_eq, (decide_False (P := 1 + cnt (r_rem x) L = 0)) by lia.
        destruct (decide (cnt (r_rem x) L = 0)) as [E|E]; simpl; f_equal; lia.
      * by rewrite lookup_insert_ne, Hcount by done.
Qed.

(** ** The registry over a sequence of operations *)

Inductive obs_op : Type :=
| ObsRegister (x : rel)
| ObsRemove (x : rel)
| ObsRemoveByToken (remote token : bytes)
| ObsRemoveBySession (remote : bytes).

Definition obs_remote (op : obs_op) : bytes :=
  match op with
  | ObsRegister x | ObsRemove x => r_rem x
  | ObsRemoveByToken remote _ | ObsRemoveBySession remote => remote
  end.

(** The answer is whether a relation was granted. *)
Definition obs_step (r : ObserverRegistry) (op : obs_op) : bool * ObserverRegistry :=
  match op with
  | ObsRegister x =>
      let '(obs, r') := Register (r_res x) (r_rem x) (r_tok x) r in (is_some obs, r')
  | ObsRemove x => (true, Remove (r_res x) (r_rem x) (r_tok x) r)
  | ObsRemoveByToken remote token => (true, RemoveByToken remote token r)
  | ObsRemoveBySession remote => (true, RemoveBySession remote r)
  end.

Definition spec_step (L : list rel) (op : obs_op) : bool * list rel :=
  match op with
  | ObsRegister x => spec_register x L
  | ObsRemove x => (true, filter (fun y => y <> x) L)
  | ObsRemoveByToken remote token => (true, filter (fun x => ~ by_token remote token x) L)
  | ObsRemoveBySession remote => (true, filter (fun x => r_rem x <> remote) L)
  end.

(** The answers and the final state. *)
Definition run_ops {S} (step : S -> obs_op -> bool * S) (ops : list obs_op) (s : S) : list bool * S :=
  fold_left (fun st op => let '(b, s') := step st.2 op in (st.1 ++ [b], s')) ops ([], s).

Definition within_caps (L : list rel) : Prop :=
  len L <= maxObserversTotal /\ forall remote, cnt remote L <= maxObserversPerRemote.

Lemma cnt_filter_le (P : rel -> Prop) `{forall x, Decision (P x)} remote L :
  cnt remote (filter P L) <= cnt remote L.
Proof.
  unfold cnt. rewrite list_filter_filter.
  rewrite (list_filter_iff _ (fun a => P a /\ r_rem a = remote)) by tauto.
  rewrite <- list_filter_filter. pose proof (length_filter P (filter (fun x => r_rem x = remote) L)).
  unfold len. lia.
Qed.

Lemma within_caps_filter (P : rel -> Prop) `{forall x, Decision (P x)} L :
  within_caps L -> within_caps (filter P L).
Proof.
  intros [H1 H2]. split.
  - pose proof (length_filter P L). unfold len in *. lia.
  - intros remote. etransitivity; [apply cnt_filter_le|apply H2].
Qed.

Lemma within_caps_perm L L' : L ≡ₚ L' -> within_caps L -> within_caps L'.
Proof.
  intros Hp [H1 H2]. split; [by rewrite <- (len_perm _ _ Hp)|]. intros remote.
  by rewrite <- (cnt_perm _ _ _ Hp).
Qed.

Lemma spec_register_caps r x L :
  represents r L -> within_caps L -> within_caps (spec_register x L).2.
Proof.
  intros Hrep Hc. unfold spec_register. destruct (decide (x ∈ L)); [done|].
  destruct (decide (Exists _ L)) as [(y & Hy & Hsame)%Exists_exists|_].
  - pose proof (filter_same_client r L x y Hrep Hy Hsame) as Hp. cbn [snd].
    apply (within_caps_perm _ _ Hp) in Hc as [H1 H2]. destruct Hsame as [_ Er]. split.
    + by rewrite len_cons in *.
    + intros remote. specialize (H2 remote). rewrite cnt_cons in *. by rewrite <- Er.
  - destruct (Z.leb_spec maxObserversPerRemote (cnt (r_rem x) L)) as [|H1]; [done|].
    destruct (Z.leb_spec maxObserversTotal (len L)) as [|H2]; [done|]. cbn [orb snd].
    destruct Hc as [_ Hc]. split; [rewrite len_cons; lia|]. intros remote. specialize (Hc remote).
    rewrite cnt_cons. destruct (decide (r_rem x = remote)) as [<-|]; lia.
Qed.

Lemma obs_step_spec r L op :
  represents r L -> within_caps L -> 47 ∉ obs_remote op ->
  (obs_step r op).1 = (spec_step L op).1 /\
  represents (obs_step r op).2 (spec_step L op).2 /\ within_caps (spec_step L op).2.
Proof.
  intros H Hc Hs. destruct op as [x|x|remote token|remote]; cbn [obs_step spec_step obs_remote] in *.
  - pose proof (Register_spec r L x H Hs) as Hr. pose proof (spec_register_caps r x L H Hc).
    destruct (Register _ _ _ r) as [obs r'], (spec_register x L) as [ok L']. naive_solver.
  - split; [done|]. split; [by apply removeLocked_spec|by apply within_caps_filter].
  - split; [done|]. split; [by apply RemoveByToken_spec|by apply within_caps_filter].
  - split; [done|]. split; [by apply RemoveBySession_spec|by apply within_caps_filter].
Qed.

Lemma run_ops_spec ops r L outs :
  represents r L -> within_caps L -> Forall (fun op => 47 ∉ obs_remote op) ops ->
  let run {S} step (s : S) :=
    fold_left (fun st op => let '(b, s') := step st.2 op in (st.1 ++ [b], s')) ops (outs, s) in
  (run obs_step r).1 = (run spec_step L).1 /\
  represents (run obs_step r).2 (run spec_step L).2 /\ within_caps (run spec_step L).2.
Proof.
  intros H Hc Hops. cbn zeta. revert r L outs H Hc.
  induction Hops as [|op ops Hop Hops IH]; intros r L outs H Hc; [done|]. cbn [fold_left fst snd].
  pose proof (obs_step_spec r L op H Hc Hop) as Hstep.
  destruct (obs_step r op) as [b r'], (spec_step L op) as [b' L']. cbn [fst snd] in Hstep.
  destruct Hstep as (<- & H' & Hc'). by apply IH.
Qed.

Lemma represents_new : represents NewObserverRegistry [].
Proof.
  split; [|done]. split; cbn.
  - intros res k o. unfold lookup2. rewrite lookup_empty. discriminate.
  - intros x. unfold lookup2. rewrite lookup_empty. cbn. split; [by intros ?%not_elem_of_nil|].
    by intros [_ [? ?]].
  - constructor.
  - done.
Qed.

Lemma Notify_spec r L resource :
  represents r L ->
  (fun o => (oRemote o, oToken o)) <$> Notify resource r ≡ₚ
  (fun x => (r_rem x, r_tok x)) <$> filter (fun x => r_res x = resource) L.
Proof.
  intros [H _]. unfold Notify. rewrite <- list_fmap_compose.
  apply NoDup_Permutation.
  - apply NoDup_fmap_2_strong; [|apply NoDup_map_range].
    intros [k1 o1] [k2 o2] H1 H2 E. apply elem_of_map_range in H1, H2.
    rewrite subs_of_lookup in H1, H2. cbn in E.
    destruct (hs_shape _ _ _ H _ _ _ H1) as (_ & K1 & _), (hs_shape _ _ _ H _ _ _ H2) as (_ & K2 & _).
    injection E as E1 E2. assert (k1 = k2) as -> by congruence. congruence.
  - apply NoDup_fmap_2_strong; [|by eapply NoDup_filter, holds_NoDup].
    intros [] [] [E1 _]%list_elem_of_filter [E2 _]%list_elem_of_filter E. cbn in *. congruence.
  - intros [rem tok]. rewrite !list_elem_of_fmap. split.
    + intros ([k o] & Eo & Hin). apply elem_of_map_range in Hin. rewrite subs_of_lookup in Hin.
      destruct (holds_entry _ _ _ _ _ _ H Hin) as [Hx _]. exists (mkRel resource (oRemote o) (oToken o)).
      split; [exact Eo|]. apply list_elem_of_filter. by split.
    + intros (x & Ex & [Er Hx]%list_elem_of_filter). destruct (holds_entry_of _ _ _ x H Hx) as (o & Eo & E1 & E2).
      exists (rel_key x, o). split; [cbn; rewrite E1, E2; exact Ex|].
      apply elem_of_map_range. by rewrite <- Er, subs_of_lookup.
Qed.

(** C33: The observer registry is the list of relations it stands for: whatever
    the sequence of registrations, cancellations by relation, by token and by
    session, a client holds at most one relation per resource, the caps of 64
    relations per peer and 4096 in all are never exceeded, registration is
    refused exactly at a cap, the count is the number of relations, a peer has
    observers iff it has a relation, and a notification goes to exactly the
    relations of the resource. *)
Theorem registry_refines_relations ops :
  Forall (fun op => 47 ∉ obs_remote op) ops ->
  let '(outs, r) := run_ops obs_step ops NewObserverRegistry in
  let '(outs', L) := run_ops spec_step ops [] in
  outs = outs' /\ Count r = len L /\ within_caps L /\
  NoDup ((fun x => (r_res x, r_rem x)) <$> L) /\
  (forall remote, HasObservers remote r = true <-> Exists (fun x => r_rem x = remote) L) /\
  (forall resource, (fun o => (oRemote o, oToken o)) <$> Notify resource r ≡ₚ
     (fun x => (r_rem x, r_tok x)) <$> filter (fun x => r_res x = resource) L).
Proof.
  intros Hops.
  destruct (run_ops_spec ops NewObserverRegistry [] [] represents_new ltac:(done) Hops) as (E & H & Hc).
  unfold run_ops. destruct (fold_left _ ops ([], NewObserverRegistry)) as [outs r].
  destruct (fold_left _ ops ([], [])) as [outs' L]. cbn [fst snd] in *.
  split; [done|]. split; [apply H|]. split; [done|]. split; [apply H|]. split.
  - intros remote. unfold HasObservers. rewrite (represents_count r L remote H), Z.ltb_lt, Exists_exists.
    split; [|intros (x & Hx & Hr); by eapply cnt_pos]. unfold cnt, len.
    destruct (filter _ L) as [|x l] eqn:Ef; [simpl; lia|]. intros _. exists x.
    assert (x ∈ filter (fun x => r_rem x = remote) L) as Hx by (rewrite Ef; left).
    by apply list_elem_of_filter in Hx as [? ?].
  - intros resource. by apply Notify_spec.
Qed.

(** ** Refused registrations *)

(** Registering one resource after another: the grants and the registry. *)
Definition register_all (remote token : bytes) (resources : list bytes) (st : nat * ObserverRegistry) :
    nat * ObserverRegistry :=
  fold_left (fun st res =>
    let '(obs, r') := Register res remote token st.2 in
    (if is_some obs then S st.1 else st.1, r')) resources st.

(** A refused registration still leaves an empty entry for its resource: a
    peer at its cap that keeps asking for new resources makes the registry's
    table grow by one entry per request, although no relation is added. *)
Theorem refused_registrations_grow r remote token resources :
  maxObserversPerRemote <= remote_count r remote ->
  NoDup resources -> Forall (fun res => subs r !! res = None) resources ->
  let '(granted, r') := register_all remote token resources (0%nat, r) in
  granted = 0%nat /\ Count r' = Count r /\ size (subs r') = (size (subs r) + length resources)%nat.
Proof.
  intros Hcap Hnd Hf. unfold register_all. revert r Hcap Hf.
  induction Hnd as [|res resources Hres Hnd IH]; intros r Hcap Hf; [cbn; repeat split; lia|].
  inversion Hf as [|? ? Hr Hf']; subst. cbn [fold_left fst snd].
  assert (Register res remote token r = (None, mkRegistry (<[res := ∅]> (subs r)) (remoteCount r) (total r))) as E.
  { unfold Register, subs_of. rewrite Hr. cbn [default from_option]. rewrite lookup_empty.
    destruct (find _ _) as [[k o]|] eqn:Ef.
    { apply find_some in Ef as [Hin _]. apply list_elem_of_In, elem_of_map_range in Hin.
      by rewrite lookup_empty in Hin. }
    by rewrite (proj2 (Z.leb_le _ _) Hcap). }
  rewrite E. cbn [is_some]. set (r1 := mkRegistry _ _ _). specialize (IH r1 Hcap).
  destruct (fold_left _ resources (0%nat, r1)) as [granted r'].
  destruct IH as (E1 & E2 & E3).
  { rewrite Forall_forall in *. intros res' Hres'. unfold r1. cbn [subs].
    rewrite lookup_insert_ne; [by apply Hf'|]. intros <-. done. }
  split; [done|]. split; [done|]. rewrite E3. unfold r1. cbn [subs].
  rewrite map_size_insert_None by done. cbn [length]. lia.
Qed.
End registry.

(** ** Witnesses *)

Definition peer1 : bytes := [49; 58; 49].
Definition peer2 : bytes := [50; 58; 49].
Definition obs_ops : list obs_op :=
  [ObsRegister (mkRel [1] peer1 [7]); ObsRegister (mkRel [1] peer2 [7]);
   ObsRegister (mkRel [1] peer1 [8]); ObsRegister (mkRel [2] peer1 [8]);
   ObsRemoveByToken peer1 [8]; ObsRegister (mkRel [3] peer1 []); ObsRemoveBySession peer2].

Lemma registry_refines_relations_witness :
  Count (run_ops (@obs_step map_range_std) obs_ops NewObserverRegistry).2 = 1.
Proof.
  pose proof (@registry_refines_relations map_range_std obs_ops ltac:(decide_now)) as H.
  destruct (run_ops (@obs_step map_range_std) obs_ops NewObserverRegistry) as [outs r].
  destruct (run_ops spec_step obs_ops []) as [outs' L] eqn:E. cbn [snd].
  destruct H as (_ & -> & _). by vm_compute in E; injection E as <- <-.
Defined.

(** A peer holding 64 relations, one per resource. *)
Definition at_cap : ObserverRegistry :=
  (run_ops (@obs_step map_range_std)
     ((fun n => ObsRegister (mkRel [Z.of_nat n] peer1 [])) <$> List.seq 0 64) NewObserverRegistry).2.

Lemma refused_registrations_grow_witness :
  size (subs (@register_all map_range_std peer1 [9] [[100]; [101]; [102]] (0%nat, at_cap)).2) = 67%nat.
Proof.
  pose proof (@refused_registrations_grow map_range_std at_cap peer1 [9] [[100]; [101]; [102]]
    ltac:(by vm_compute) ltac:(decide_now) ltac:(decide_now)) as H.
  destruct (register_all _ _ _ _) as [granted r'].
  destruct H as (_ & _ & H). cbn [snd]. rewrite H. by vm_compute.
Defined.
