(* ===== verification/CoapServer.v ===== *)
(** * CoapServer: [internal/transport/coap/server.go] and [session.go]

    The message handling of the CoAP server: deduplication, block-wise and
    observe handling, piggybacked responses, notifications and their
    retransmission, session admission and the idle sweep.

    One call of a handler below is one run of the corresponding Go function.
    User code (plugins, responder, handler) is a parameter that acts on the
    [World]: it may keep state, send on sessions and close them; it cannot
    reach the server's own tables, so a callback that itself calls
    [NotifyObservers] is outside the model.  Log lines are left out. *)
From S2P Require Import Prelude Bytes Core PeerAddr Quota Shared CoapMessage CoapBlock CoapRetransmit CoapObserve.
Local Open Scope Z_scope.
Local Open Scope list_scope.

Section server.
(** The state of user code, and the keys of the session table: the peer key of
    a datagram session, the session id of a DTLS one. *)
Context {U Key : Type} `{Countable Key}.
Context {Hrk : MapRange Key} {Hrb : MapRange (list Z)} {Hrp : MapRange (list Z * Z)}.

(** [s_release] is the peer whose admission slot the session holds. *)
(* go: internal/transport/coap/session.go:14-35 (session) *)
Record session : Type := mkSession {
  s_id : Z;
  s_dtls : bool;
  s_remote : bytes;
  s_key : Key;
  s_release : option Addr
}.

(** What sessions and user code act on: the closed sessions, the quota, the
    datagrams written and the metric calls. *)
Record World : Type := mkWorld {
  user : U;
  closed : gset Z;
  quota : option PeerQuota;
  wire : list (Z * bytes);
  metrics : list metric_call
}.

Definition set_wire (w : World) (x : list (Z * bytes)) : World :=
  mkWorld (user w) (closed w) (quota w) x (metrics w).
Definition set_quota (w : World) (q : option PeerQuota) : World :=
  mkWorld (user w) (closed w) q (wire w) (metrics w).
Definition add_metrics (w : World) (l : list metric_call) : World :=
  mkWorld (user w) (closed w) (quota w) (wire w) (metrics w ++ l).

(** The runtime a server is given ([core.Runtime]). *)
Record Runtime : Type := mkRuntime {
  NextID : World -> Z * World;
  rt_Register : session -> World -> option error * World;
  rt_Unregister : Z -> World -> World;
  OnAccept : session -> World -> option error * World;
  OnMessage : session -> bytes -> World -> bytes * option error * World;
  OnClose : session -> World -> World
}.

(* go: internal/transport/coap/server.go:73-94 (Server) *)
Record Server : Type := mkServer {
  sessions : gmap Key session;
  seen : gmap (bytes * Z) (option bytes);
  observers : ObserverRegistry;
  pendingNotifies : gmap (bytes * Z) pendingNotify;
  lastMsgID : Z;
  activeAt : gmap Z Z
}.

Abbreviation St := (Server * World)%type.

Definition set_sessions (s : Server) x := mkServer x (seen s) (observers s) (pendingNotifies s) (lastMsgID s) (activeAt s).
Definition set_seen (s : Server) x := mkServer (sessions s) x (observers s) (pendingNotifies s) (lastMsgID s) (activeAt s).
Definition set_observers (s : Server) x := mkServer (sessions s) (seen s) x (pendingNotifies s) (lastMsgID s) (activeAt s).
Definition set_pending (s : Server) x := mkServer (sessions s) (seen s) (observers s) x (lastMsgID s) (activeAt s).

Variable rt : Runtime.
(** The result of writing a datagram, [None] for success. *)
Variable write : session -> bytes -> World -> option error.
(** The options the handlers read. *)
Variable MaxBlockSize SessionTTL : Z.
Variable Responder : option (session -> Message -> World -> outcome (bytes * option error) * World).
Variable Handler : option (session -> Message -> World -> outcome (option error) * World).

(** ** Sessions *)

(* go: internal/transport/coap/session.go:89-99 (Send) *)
Definition Send (sess : session) (payload : bytes) (w : World) : option error * World :=
  if decide (s_id sess ∈ closed w) then (Some ErrSessionClosed, w)
  else
    match write sess payload w with
    | Some err => (Some err, w)
    | None => (None, set_wire w (wire w ++ [(s_id sess, payload)]))
    end.

(** [closeOnce]: the first Close marks the session and returns its slot. *)
(* go: internal/transport/coap/session.go:101-114 (Close) *)
Definition Close (sess : session) (w : World) : World :=
  if decide (s_id sess ∈ closed w) then w
  else
    let w := mkWorld (user w) ({[s_id sess]} ∪ closed w) (quota w) (wire w) (metrics w) in
    match s_release sess, quota w with
    | Some ip, Some q => set_quota w (Some (Release ip q))
    | _, _ => w
    end.

(* go: internal/transport/coap/server.go:1015-1024 (closeSession) *)
Definition closeSession (key : Key) (sess : session) (st : St) : bool * St :=
  let '(s, w) := st in
  match sessions s !! key with
  | None => (false, st)
  | Some _ =>
      let s := set_sessions s (delete key (sessions s)) in
      let s := set_observers s (RemoveBySession (s_remote sess) (observers s)) in
      let w := rt_Unregister rt (s_id sess) w in
      let w := Close sess w in
      (true, (s, OnClose rt sess w))
  end.

(* go: internal/transport/coap/server.go:757-768 (findSessionByRemote) *)
Definition findSessionByRemote (remote : bytes) (s : Server) : option session :=
  snd <$> find (fun ks => bool_decide (s_remote ks.2 = remote)) (map_range (sessions s)).

(** ** Responses *)

(* go: internal/transport/coap/server.go:1000-1013 (encodeObserveSeq) *)
Definition encodeObserveSeq (seq : Z) : bytes :=
  if seq =? 0 then [0]
  else if seq <=? 0xFF then [u8 seq]
  else if seq <=? 0xFFFF then [u8 (Z.shiftr seq 8); u8 seq]
  else [u8 (Z.shiftr seq 16); u8 (Z.shiftr seq 8); u8 seq].

(* go: internal/transport/coap/server.go:1026-1037 (responseCode) *)
Definition responseCode (code : Z) : Z :=
  if code =? CodePost then CodeCreated
  else if code =? CodePut then CodeChanged
  else if code =? CodeDelete then CodeDeleted
  else CodeContent.

(* go: internal/transport/coap/server.go:992-998 (sendACKMsg) *)
Definition sendACKMsg (sess : session) (msg : CoapMessage) (w : World) : option error * World :=
  match CoapMessage.Marshal msg with
  | Err err => (Some err, w)
  | Ok data => Send sess data w
  end.

(** The sequence number of the request's relation, which advances it. *)
(* go: internal/transport/coap/server.go:561-581 (observerSeq) *)
Definition observerSeq (sess : session) (req : CoapMessage) (r : ObserverRegistry) :
    option Z * ObserverRegistry :=
  if negb (Code req =? CodeGet) then (None, r)
  else
    let resource := Payload req in
    let key := observerKey (s_remote sess) (Token req) in
    match subs r !! resource with
    | None => (None, r)
    | Some m =>
        match m !! key with
        | None => (None, r)
        | Some obs =>
            let '(v, obs') := NextSeq obs in
            (Some v, mkRegistry (<[resource := <[key := obs']> m]> (subs r)) (remoteCount r) (CoapObserve.total r))
        end
    end.

Definition set_option (n : Z) (v : bytes) (m : CoapMessage) : CoapMessage :=
  mkCoap (Type_ m) (Code m) (MessageID m) (Token m) (<[n := v]> (Options m)) (Payload m).

(* go: internal/transport/coap/server.go:583-592 (addObserveSeq) *)
Definition addObserveSeq (sess : session) (req resp : CoapMessage) (r : ObserverRegistry) :
    CoapMessage * ObserverRegistry :=
  match observerSeq sess req r with
  | (None, r) => (resp, r)
  | (Some seq, r) => (set_option ObserveOption (encodeObserveSeq seq) resp, r)
  end.

(** The exchange's dedup entry, and its cached response. *)
(* go: internal/transport/coap/server.go:52-71 (seenEntry) *)
Definition setResponse (dedup : option (bytes * Z)) (data : bytes) (s : Server) : Server :=
  match dedup with
  | None => s
  | Some k => set_seen s (alter (fun _ => Some data) k (seen s))
  end.

(* go: internal/transport/coap/server.go:899-922 (sendDedupResponse) *)
Definition sendDedupResponse (sess : session) (req : CoapMessage) (code : Z) (payload : bytes)
    (dedup : option (bytes * Z)) (observe : bool) (block2 : option BlockOption) (st : St) : St :=
  let '(s, w) := st in
  let resp := ACK req code payload in
  let '(resp, reg) := if observe then addObserveSeq sess req resp (observers s) else (resp, observers s) in
  let s := set_observers s reg in
  let resp := match block2 with Some b => set_option Block2Option (CoapBlock.Marshal b) resp | None => resp end in
  match CoapMessage.Marshal resp with
  | Err _ => (s, w)
  | Ok data => (setResponse dedup data s, (Send sess data w).2)
  end.

(* go: internal/transport/coap/server.go:924-942 (applyBlock2) *)
Definition applyBlock2 (req : CoapMessage) (body : bytes) : option (bytes * option BlockOption) :=
  if MaxBlockSize <=? 0 then Some (body, None)
  else
    match negotiateBlock2 (Options req) MaxBlockSize with
    | Err _ => None
    | Ok blockReq => blockFor body blockReq
    end.

(* go: internal/transport/coap/server.go:944-948 (hasBlock1) *)
Definition hasBlock1 (opts : gmap Z bytes) : bool := bool_decide (is_Some (opts !! Block1Option)).

(* go: internal/transport/coap/server.go:950-969 (replyBlock1Unsupported) *)
Definition replyBlock1Unsupported (sess : session) (req : CoapMessage) (dedup : option (bytes * Z))
    (st : St) : St :=
  let '(s, w) := st in
  let hint := mkBlock 0 false 0 in
  let resp := set_option Block1Option (CoapBlock.Marshal hint) (ACK req CodeRequestEntityTooLarge []) in
  match CoapMessage.Marshal resp with
  | Err _ => st
  | Ok data => (setResponse dedup data s, (Send sess data w).2)
  end.

(* go: internal/transport/coap/server.go:971-990 (replyToDuplicate) *)
Definition replyToDuplicate (sess : session) (req : CoapMessage) (entry : option bytes) (w : World) : World :=
  match entry with
  | Some data => (Send sess data w).2
  | None => (sendACKMsg sess (mkCoap TypeACK CodeEmpty (MessageID req) [] ∅ []) w).2
  end.

(** ** Pending notifications *)


(* go: internal/transport/coap/server.go:652-660 (untrackNotify) *)
Definition untrackNotify (remote : bytes) (msgID : Z) (s : Server) : Server :=
  set_pending s (delete (remote, msgID) (pendingNotifies s)).

(* go: internal/transport/coap/server.go:662-675 (takePendingNotify) *)
Definition takePendingNotify (remote : bytes) (msgID : Z) (s : Server) : option bytes * Server :=
  match pendingNotifies s !! (remote, msgID) with
  | None => (None, s)
  | Some pn => (Some (pn_token pn), set_pending s (delete (remote, msgID) (pendingNotifies s)))
  end.


(** ** Handling one message *)

(** Whether a new observer was registered. *)
(* go: internal/transport/coap/server.go:530-559 (handleObserve) *)
Definition handleObserve (sess : session) (msg : CoapMessage) (s : Server) : bool * Server :=
  if negb (Code msg =? CodeGet) then (false, s)
  else
    match Options msg !! ObserveOption with
    | None => (false, s)
    | Some obsVal =>
        let reg := match obsVal with [] => 0 | b :: _ => b end in
        let resource := Payload msg in
        if reg =? 0 then
          let '(obs, r) := Register resource (s_remote sess) (Token msg) (observers s) in
          (is_some obs, set_observers s r)
        else if reg =? 1 then
          (false, set_observers s (Remove resource (s_remote sess) (Token msg) (observers s)))
        else (false, s)
    end.

(** A failing plugin or handler ends the session: a DTLS one is closed, a
    datagram one is also removed from the table. *)
(* go: internal/transport/coap/server.go:454-462 (handleCoAPMessage) *)
Definition dropSession (sess : session) (st : St) : St :=
  if s_dtls sess then (st.1, Close sess st.2) else (closeSession (s_key sess) sess st).2.

(** The responder's payload; [None] when it failed and the session is gone. A
    handler that fails only drops the session. *)
(* go: internal/transport/coap/server.go:471-495 (handleCoAPMessage) *)
Definition callUser (sess : session) (payload : bytes) (st : St) : option bytes * St :=
  let '(s, w) := st in
  let handlerMsg := mkMessage (s_id sess) ProtocolCoAP payload ∅ in
  match Responder, Handler with
  | Some responder, _ =>
      let '(err, calls, (responsePayload, w)) :=
        CallHandlerObserved true ProtocolCoAP (fun pw =>
          match responder sess handlerMsg pw.2 with
          | (Returned (p, e), w) => (Returned e, (p, w))
          | (Panicked, w) => (Panicked, (pw.1, w))
          end) ([], w) in
      let w := add_metrics w calls in
      match err with
      | Some _ => (None, dropSession sess (s, w))
      | None => (Some responsePayload, (s, w))
      end
  | None, Some handler =>
      let '(err, calls, w) := CallHandlerObserved true ProtocolCoAP (handler sess handlerMsg) w in
      let w := add_metrics w calls in
      match err with
      | Some _ => (Some [], dropSession sess (s, w))
      | None => (Some [], (s, w))
      end
  | None, None => (Some [], st)
  end.

(** The reply: a piggybacked ACK to a confirmable request, an initial
    notification to a non-confirmable registration. *)
(* go: internal/transport/coap/server.go:496-527 (handleCoAPMessage) *)
Definition reply (sess : session) (msg : CoapMessage) (responsePayload : bytes) (registeredObserve : bool)
    (dedup : option (bytes * Z)) (st : St) : St :=
  if Type_ msg =? TypeCON then
    match applyBlock2 msg responsePayload with
    | None => sendDedupResponse sess msg CodeBadOption [] dedup true None st
    | Some (body, blockOpt) => sendDedupResponse sess msg (responseCode (Code msg)) body dedup true blockOpt st
    end
  else if (Type_ msg =? TypeNON) && registeredObserve then
    let '(s, w) := st in
    let '(seq, r) := observerSeq sess msg (observers s) in
    let notify := mkCoap TypeNON CodeContent (MessageID msg) (Token msg)
                    {[ObserveOption := encodeObserveSeq (default 0 seq)]} responsePayload in
    match CoapMessage.Marshal notify with
    | Err _ => (set_observers s r, w)
    | Ok data => (set_observers s r, (Send sess data w).2)
    end
  else st.

(** A request past deduplication. *)
(* go: internal/transport/coap/server.go:438-528 (handleCoAPMessage) *)
Definition processRequest (sess : session) (msg : CoapMessage) (dedup : option (bytes * Z)) (st : St) : St :=
  if hasBlock1 (Options msg) then replyBlock1Unsupported sess msg dedup st
  else
    let '(s, w) := st in
    let '(registeredObserve, s) := handleObserve sess msg s in
    let '(payload, err, w) := OnMessage rt sess (Payload msg) w in
    match err with
    | Some err =>
        let st := if errors_Is err ErrPluginDrop then (s, w) else dropSession sess (s, w) in
        if Type_ msg =? TypeCON then
          sendDedupResponse sess msg CodeInternalServerError [] dedup false None st
        else st
    | None =>
        match callUser sess payload (s, w) with
        | (None, st) => st
        | (Some responsePayload, st) => reply sess msg responsePayload registeredObserve dedup st
        end
    end.

(* go: internal/transport/coap/server.go:383-436 (handleCoAPMessage) *)
Definition handleCoAPMessage (sess : session) (data : bytes) (st : St) : St :=
  match Parse data with
  | Err _ => st
  | Ok msg =>
      let '(s, w) := st in
      let remote := s_remote sess in
      if Type_ msg =? TypeACK then (untrackNotify remote (MessageID msg) s, w)
      else if Type_ msg =? TypeRST then
        let '(token, s) := takePendingNotify remote (MessageID msg) s in
        match token with
        | Some ((_ :: _) as token) => (set_observers s (RemoveByToken remote token (observers s)), w)
        | _ => (s, w)
        end
      else if Code msg =? CodeEmpty then
        if Type_ msg =? TypeCON then
          (s, (sendACKMsg sess (mkCoap TypeRST CodeEmpty (MessageID msg) [] ∅ []) w).2)
        else st
      else if Type_ msg =? TypeCON then
        let sk := (remote, MessageID msg) in
        match seen s !! sk with
        | Some entry => (s, replyToDuplicate sess msg entry w)
        | None => processRequest sess msg (Some sk) (set_seen s (<[sk := None]> (seen s)), w)
        end
      else processRequest sess msg None st
  end.

(** ** Notifications *)



(** The first pass: what the snapshot of the table is due, and what it has
    given up on. *)
(* go: internal/transport/coap/server.go:708-724 (retransmitDue) *)
Definition collect_step (now : Z)
    (acc : list (bytes * Z) * list (bytes * bytes) * gmap (bytes * Z) pendingNotify)
    (kp : bytes * Z * pendingNotify) :=
  let '(due, abandoned, pend) := acc in
  match decide_ kp.2 now with
  | retransmitWait => acc
  | retransmitGiveUp => (due, abandoned ++ [(kp.1.1, pn_token kp.2)], delete kp.1 pend)
  | retransmitSend => (due ++ [kp.1], abandoned, pend)
  end.

(* go: internal/transport/coap/server.go:702-725 (retransmitDue) *)
Definition collectDue (now : Z) (s : Server) :
    list (bytes * Z) * list (bytes * bytes) * gmap (bytes * Z) pendingNotify :=
  fold_left (collect_step now) (map_range (pendingNotifies s)) ([], [], pendingNotifies s).

(* go: internal/transport/coap/server.go:727-748 (retransmitDue) *)
Definition retransmitOne (now : Z) (key : bytes * Z) (st : St) : St :=
  let '(s, w) := st in
  match pendingNotifies s !! key with
  | None => st
  | Some pn =>
      let pn := advance pn now in
      let s := set_pending s (<[key := pn]> (pendingNotifies s)) in
      match findSessionByRemote key.1 s with
      | None => (untrackNotify key.1 key.2 s, w)
      | Some sess =>
          match Send sess (pn_data pn) w with
          | (Some _, w) => (untrackNotify key.1 key.2 s, w)
          | (None, w) => (s, w)
          end
      end
  end.

(* go: internal/transport/coap/server.go:691-755 (retransmitDue) *)
Definition retransmitDue (now : Z) (st : St) : St :=
  let '(s, w) := st in
  let '(due, abandoned, pend) := collectDue now s in
  let '(s, w) := fold_left (fun st key => retransmitOne now key st) due (set_pending s pend, w) in
  (set_observers s (fold_left (fun r rt => RemoveByToken rt.1 rt.2 r) abandoned (observers s)), w).

(** ** Datagram sessions *)

(** The peer's key, its admission identity and its text. *)
Variable NewPeerKey : NetAddr -> Key.
Variable PeerIP : NetAddr -> Addr.
Variable addrString : NetAddr -> bytes.






(* go: internal/transport/coap/server.go:223-230 (SessionCount) *)
Definition SessionCount (s : Server) : Z := len (map_range (sessions s)).

(** ** What a handler leaves alone *)










(** ** Between the copies *)
















(** A reset ends the subscription: the pending notification the message id
    refers to is dropped, and the observe relations of that peer with the
    notification's token - and no others - are cancelled; nothing is sent. *)
Theorem rst_cancels sess data msg st pn L :
  Parse data = Ok msg -> Type_ msg = TypeRST ->
  pendingNotifies st.1 !! (s_remote sess, MessageID msg) = Some pn -> pn_token pn <> [] ->
  represents (observers st.1) L -> 47 ∉ s_remote sess ->
  let st' := handleCoAPMessage sess data st in
  pendingNotifies st'.1 = delete (s_remote sess, MessageID msg) (pendingNotifies st.1) /\
  represents (observers st'.1) (filter (fun x => ~ by_token (s_remote sess) (pn_token pn) x) L) /\
  sessions st'.1 = sessions st.1 /\ seen st'.1 = seen st.1 /\ st'.2 = st.2.
Proof.
  destruct st as [s w]. cbn [fst snd]. intros Hp Ht Hpn Htok HL Hs. unfold handleCoAPMessage.
  rewrite Hp, Ht. change (TypeRST =? TypeACK) with false. change (TypeRST =? TypeRST) with true. cbn iota.
  unfold takePendingNotify. rewrite Hpn.
  destruct (pn_token pn) as [|b token] eqn:Et; [done|]. cbn [fst snd].
  split; [done|]. split; [by apply RemoveByToken_spec|]. done.
Qed.

(** ** The scheduler over the table *)

(** Whether a retransmission to the peer can be written: it has a session and
    the session is open. *)
Definition deliverable (remote : bytes) (st : St) : bool :=
  match findSessionByRemote remote st.1 with
  | Some sess => bool_decide (s_id sess ∉ closed st.2)
  | None => false
  end.

Lemma collect_spec now (l : list (bytes * Z * pendingNotify)) due0 ab0 pend0 :
  let '(due, ab, pend) := fold_left (collect_step now) l (due0, ab0, pend0) in
  due = due0 ++ (filter (fun kp => decide_ kp.2 now = retransmitSend) l).*1 /\
  forall key, pend !! key =
    if decide (Exists (fun kp => kp.1 = key /\ decide_ kp.2 now = retransmitGiveUp) l)
    then None else pend0 !! key.
Proof.
  revert due0 ab0 pend0. induction l as [|[k pn] l IH]; intros due0 ab0 pend0; cbn [fold_left].
  { split; [by rewrite app_nil_r|]. intros key. rewrite decide_False; [done|]. by inversion 1. }
  rewrite filter_cons. unfold collect_step at 2. cbn [fst snd]. destruct (decide_ pn now) eqn:Ed.
  - specialize (IH due0 ab0 pend0). destruct (fold_left _ l _) as [[due ab] pend].
    destruct IH as [-> E]. rewrite decide_False by done. split; [done|]. intros key. rewrite E.
    apply decide_ext. rewrite Exists_cons. cbn [fst snd]. rewrite Ed. split; [auto|]. by intros [[_ ?]|?].
  - specialize (IH (due0 ++ [k]) ab0 pend0). destruct (fold_left _ l _) as [[due ab] pend].
    destruct IH as [-> E]. rewrite decide_True by done.
    split; [by rewrite fmap_cons, <- app_assoc|]. intros key. rewrite E.
    apply decide_ext. rewrite Exists_cons. cbn [fst snd]. rewrite Ed. split; [auto|]. by intros [[_ ?]|?].
  - specialize (IH due0 (ab0 ++ [(k.1, pn_token pn)]) (delete k pend0)).
    destruct (fold_left _ l _) as [[due ab] pend]. destruct IH as [-> E].
    rewrite decide_False by done. split; [done|]. intros key. rewrite E.
    destruct (decide (k = key)) as [->|Hk].
    + rewrite lookup_delete_eq. rewrite (decide_True (P := Exists _ (_ :: _))) by (by left).
      by destruct (decide _).
    + rewrite lookup_delete_ne by done. apply decide_ext. rewrite Exists_cons. cbn [fst snd].
      split; [auto|]. by intros [[? _]|?].
Qed.

(** Everything but the table of pending notifications stays, if writes succeed. *)
Definition same_peers (st st' : St) : Prop :=
  sessions st'.1 = sessions st.1 /\ closed st'.2 = closed st.2.

Lemma same_peers_deliverable st st' remote :
  same_peers st st' -> deliverable remote st' = deliverable remote st.
Proof. intros [E1 E2]. unfold deliverable, findSessionByRemote. by rewrite E1, E2. Qed.

Lemma retransmitOne_spec now key st :
  (forall sess data w, write sess data w = None) ->
  let st' := retransmitOne now key st in
  same_peers st st' /\
  forall k, pendingNotifies st'.1 !! k =
    if decide (k = key) then
      pendingNotifies st.1 !! key ≫= (fun pn =>
        if deliverable key.1 st then Some (advance pn now) else None)
    else pendingNotifies st.1 !! k.
Proof.
  intros Hw. destruct st as [s w]. unfold retransmitOne. cbn [fst snd].
  destruct (pendingNotifies s !! key) as [pn|] eqn:Ep.
  2:{ split; [done|]. intros k. destruct (decide (k = key)) as [->|]; done. }
  cbn [mbind option_bind]. unfold deliverable. cbn [fst snd].
  change (findSessionByRemote key.1 (set_pending s _)) with (findSessionByRemote key.1 s).
  destruct key as [remote msgID]. cbn [fst snd].
  assert (forall k v, delete (remote, msgID) (<[(remote, msgID) := v]> (pendingNotifies s)) !! k =
    if decide (k = (remote, msgID)) then None else pendingNotifies s !! k) as Hdel.
  { intros k v. destruct (decide (k = (remote, msgID))) as [->|Hk]; [apply lookup_delete_eq|].
    by rewrite lookup_delete_ne, lookup_insert_ne. }
  destruct (findSessionByRemote remote s) as [sess|].
  - unfold Send. rewrite Hw. destruct (decide (s_id sess ∈ closed w)) as [Hc|Hc].
    + rewrite bool_decide_eq_false_2 by (intros Hn; done). split; [done|]. intros k. apply Hdel.
    + rewrite bool_decide_eq_true_2 by done. split; [done|]. intros k. cbn.
      destruct (decide (k = (remote, msgID))) as [->|Hk]; [apply lookup_insert_eq|].
      by rewrite lookup_insert_ne.
  - split; [done|]. intros k. apply Hdel.
Qed.

Lemma retransmit_all_spec now due st :
  (forall sess data w, write sess data w = None) -> NoDup due ->
  let st' := fold_left (fun st key => retransmitOne now key st) due st in
  same_peers st st' /\
  forall k, pendingNotifies st'.1 !! k =
    if decide (k ∈ due) then
      pendingNotifies st.1 !! k ≫= (fun pn =>
        if deliverable k.1 st then Some (advance pn now) else None)
    else pendingNotifies st.1 !! k.
Proof.
  intros Hw Hnd. revert st. induction Hnd as [|key due Hkey Hnd IH]; intros st; cbn [fold_left].
  { split; [done|]. intros k. by rewrite decide_False by set_solver. }
  destruct (retransmitOne_spec now key st Hw) as [Hs1 E1].
  specialize (IH (retransmitOne now key st)). cbn zeta in IH. destruct IH as [Hs2 E2].
  split; [destruct Hs1, Hs2; split; congruence|]. intros k. rewrite E2, E1.
  rewrite (same_peers_deliverable st (retransmitOne now key st) k.1) by done.
  destruct (decide (k = key)) as [->|Hk].
  - rewrite decide_False by done. by rewrite decide_True by left.
  - destruct (decide (k ∈ due)) as [H1|H1].
    + by rewrite decide_True by (by right).
    + by rewrite decide_False by (by rewrite elem_of_cons; intros [?|?]).
Qed.

(** One pass of the scheduler, seen from one pending notification. *)
Lemma retransmitDue_pointwise now st key :
  (forall sess data w, write sess data w = None) ->
  let st' := retransmitDue now st in
  same_peers st st' /\
  (deliverable key.1 st = true ->
   pendingNotifies st'.1 !! key = pendingNotifies st.1 !! key ≫= (fun pn => tick_entry pn now)).
Proof.
  intros Hw. destruct st as [s w]. unfold retransmitDue, collectDue.
  pose proof (collect_spec now (map_range (pendingNotifies s)) [] [] (pendingNotifies s)) as Hc.
  destruct (fold_left _ (map_range _) _) as [[due ab] pend]. destruct Hc as [-> Epend]. cbn [app].
  destruct (retransmit_all_spec now (filter (fun kp => decide_ kp.2 now = retransmitSend)
    (map_range (pendingNotifies s))).*1 (set_pending s pend, w) Hw) as [Hs E].
  { eapply sublist_NoDup; [apply (NoDup_fst_map_range (pendingNotifies s))|]. apply fmap_sublist, sublist_filter. }
  destruct (fold_left _ _ (set_pending s pend, w)) as [s' w']. cbn [fst snd] in *.
  split; [exact Hs|]. intros Hdel. cbn [set_observers pendingNotifies]. rewrite E, Epend.
  replace (deliverable key.1 (set_pending s pend, w)) with true by (symmetry; exact Hdel).
  clear E Epend Hs. destruct (pendingNotifies s !! key) as [pn|] eqn:Ep.
  - assert (forall a, Exists (fun kp => kp.1 = key /\ decide_ kp.2 now = a) (map_range (pendingNotifies s))
      <-> decide_ pn now = a) as Hex.
    { intros a. rewrite Exists_exists. split.
      - intros ([k pn'] & Hin & Ek & Ed). apply elem_of_map_range in Hin. cbn in *. congruence.
      - intros Ed. exists (key, pn). split; [by apply elem_of_map_range|done]. }
    assert (key ∈ (filter (fun kp => decide_ kp.2 now = retransmitSend) (map_range (pendingNotifies s))).*1
      <-> decide_ pn now = retransmitSend) as Hin.
    { rewrite <- Hex, list_elem_of_fmap, Exists_exists. split.
      - intros ([k pn'] & -> & Hin). apply list_elem_of_filter in Hin as [? ?]. by exists (k, pn').
      - intros ([k pn'] & Hin & Ek & Ed). exists (k, pn'). split; [done|]. by apply list_elem_of_filter. }
    unfold tick_entry. cbn [mbind option_bind].
    destruct (decide_ pn now) eqn:Ed; destruct (decide (key ∈ _)) as [H1|H1];
      destruct (decide (Exists _ _)) as [H2|H2]; rewrite ?Hin, ?Hex in *; done.
  - destruct (decide (Exists _ _)), (decide _); done.
Qed.

(** Every pending notification follows the schedule of its own deadlines,
    whatever else is pending: over any ticks, as long as its peer can be reached
    and writes succeed, its entry evolves as the single-message schedule says;
    with the real ticker a notification that is never acknowledged is dropped
    from the table within 400 ticks (100 s). *)
Theorem retransmitDue_schedule key st ticks :
  (forall sess data w, write sess data w = None) -> deliverable key.1 st = true ->
  pendingNotifies (fold_left (fun st now => retransmitDue now st) ticks st).1 !! key =
    entry_after (pendingNotifies st.1 !! key) ticks /\
  (forall t0 draw token data t1 n,
     pendingNotifies st.1 !! key = Some (new_pending t0 draw token data) ->
     t0 <= t1 <= t0 + retransmitTick -> (400 <= n)%nat -> ticks = ticks_from t1 n ->
     pendingNotifies (fold_left (fun st now => retransmitDue now st) ticks st).1 !! key = None).
Proof.
  intros Hw Hdel.
  assert (pendingNotifies (fold_left (fun st now => retransmitDue now st) ticks st).1 !! key =
    entry_after (pendingNotifies st.1 !! key) ticks) as E.
  { revert st Hdel. induction ticks as [|now ticks IH]; intros st Hdel; [done|]. cbn [fold_left].
    destruct (retransmitDue_pointwise now st key Hw) as [Hs Hp].
    rewrite IH by (by rewrite (same_peers_deliverable st)). by rewrite (Hp Hdel). }
  split; [exact E|]. intros t0 draw token data t1 n Ep Ht1 Hn ->. rewrite E, Ep, entry_after_run.
  destruct (schedule_gives_up t0 draw token data t1 n Ht1 Hn) as [g ->]. by eexists.
Qed.
End server.

(** ** Witnesses *)

(** A runtime without plugins whose user code counts the payloads it is given. *)
Definition sample_runtime : Runtime (U := list bytes) (Key := Z) :=
  mkRuntime (fun w => (1, w)) (fun _ w => (None, w)) (fun _ w => w) (fun _ w => (None, w))
    (fun _ p w => (p, None, w)) (fun _ w => w).

Definition sample_write (sess : session (Key := Z)) (data : bytes) (w : World (U := list bytes)) :
    option error := None.

(** A responder that records the request and echoes it. *)
Definition echo (sess : session (Key := Z)) (msg : Message) (w : World (U := list bytes)) :
    outcome (bytes * option error) * World (U := list bytes) :=
  (Returned (msg_Payload msg, None),
   mkWorld (user w ++ [msg_Payload msg]) (closed w) (quota w) (wire w) (metrics w)).

Definition sample_session : session (Key := Z) := mkSession 1 false peer1 7 None.

Definition sample_observers : ObserverRegistry :=
  (@Register map_range_std [1] peer1 [7] NewObserverRegistry).2.

Definition sample_state : Server (Key := Z) * World (U := list bytes) :=
  (mkServer {[7 := sample_session]} ∅ sample_observers
     {[(peer1, 5) := new_pending 0 0 [7] [9]]} 5 ∅,
   mkWorld [] ∅ None [] []).




Lemma sample_observers_represents : represents sample_observers [mkRel [1] peer1 [7]].
Proof.
  pose proof (@Register_spec map_range_std NewObserverRegistry [] (mkRel [1] peer1 [7])
    represents_new ltac:(decide_now)) as H.
  unfold sample_observers. cbn [r_res r_rem r_tok] in H.
  destruct (Register [1] peer1 [7] NewObserverRegistry) as [obs r].
  destruct (spec_register _ []) as [ok L'] eqn:E. vm_compute in E. injection E as <- <-. apply H.
Qed.

Lemma rst_cancels_witness :
  Count (observers (@handleCoAPMessage _ _ _ _ map_range_std sample_runtime sample_write 1024 (Some echo) None
    sample_session [112; 0; 0; 5] sample_state).1) = 0.
Proof.
  destruct (@rst_cancels _ _ _ _ map_range_std sample_runtime sample_write 1024 (Some echo) None
    sample_session [112; 0; 0; 5] (mkCoap TypeRST CodeEmpty 5 [] ∅ []) sample_state
    (new_pending 0 0 [7] [9]) [mkRel [1] peer1 [7]]) as (_ & H & _);
    [by vm_compute|done|by vm_compute|done|apply sample_observers_represents|decide_now|].
  destruct H as [H _]. unfold Count. rewrite (hs_total _ _ _ H). by vm_compute.
Defined.

Lemma retransmitDue_schedule_witness :
  pendingNotifies (fold_left (fun st now =>
    @retransmitDue _ _ _ _ map_range_std map_range_std map_range_std sample_write now st)
    (ticks_from retransmitTick 400) sample_state).1 !! (peer1, 5) = None.
Proof.
  apply (proj2 (@retransmitDue_schedule _ _ _ _ map_range_std map_range_std map_range_std sample_write
    (peer1, 5) sample_state (ticks_from retransmitTick 400) ltac:(done) ltac:(by vm_compute))
    0 0 [7] [9] retransmitTick 400%nat); [done|by vm_compute|lia|done].
Defined.
