(* ===== verification/Lwm2mTlv.v ===== *)
(** * Lwm2mTlv: [internal/protocol/lwm2m/codec_tlv.go] and [model.go]

    The OMA LwM2M TLV codec, the interpretation of resource values, and the
    object paths and registrations of the model. *)
From S2P Require Import Prelude Bytes Core.
Local Open Scope string_scope.
Local Open Scope Z_scope.
Local Open Scope list_scope.

(* go: internal/protocol/lwm2m/model.go:11-17 (ErrInvalidPath) *)
Definition ErrInvalidPath : error := ErrMsg "invalid lwm2m path".
Definition ErrRegistrationGone : error := ErrMsg "registration not found".
Definition ErrReadOnly : error := ErrMsg "resource is read-only".
Definition ErrNotSupported : error := ErrMsg "operation not supported".
Definition ErrRegistrationLimit : error := ErrMsg "registration limit reached".

(* go: internal/protocol/lwm2m/model.go:19-30 (ResourceType) *)
Inductive ResourceType : Type :=
| ResourceString | ResourceInteger | ResourceFloat | ResourceBoolean
| ResourceOpaque | ResourceObjLink | ResourceTime.

#[export] Instance ResourceType_eq_dec : EqDecision ResourceType.
Proof. solve_decision. Defined.

(* go: internal/protocol/lwm2m/model.go:32-45 (Allows) *)
Definition OpRead : Z := 1.
Definition OpWrite : Z := 2.
Definition OpExecute : Z := 4.
Definition OpDelete : Z := 8.
Definition OpCreate : Z := 16.
(* go: internal/protocol/lwm2m/model.go:43-45 (Allows) *)
Definition Allows (m op : Z) : bool := negb (Z.land m op =? 0).

(** ** Paths *)

(* go: internal/protocol/lwm2m/model.go:81-85 (ObjectPath) *)
Record ObjectPath : Type := mkPath { ObjectID : Z; InstanceID : Z; ResourceID : Z }.

#[export] Instance ObjectPath_eq_dec : EqDecision ObjectPath.
Proof. solve_decision. Defined.

Definition path_number (part : bytes) : option Z :=
  match Atoi part with
  | Some n => if n <? 0 then None else Some n
  | None => None
  end.

(* go: internal/protocol/lwm2m/model.go:87-101 (ParsePath) *)
Definition ParsePath (path : bytes) : result error ObjectPath :=
  match split_on 47 [] (trim 47 path) with
  | [a; b; c] =>
      match path_number a, path_number b, path_number c with
      | Some x, Some y, Some z => Ok (mkPath x y z)
      | _, _, _ => Err ErrInvalidPath
      end
  | _ => Err ErrInvalidPath
  end.

(* go: internal/protocol/lwm2m/model.go:103-105 (String) *)
Definition path_String (p : ObjectPath) : bytes :=
  47 :: itoa (ObjectID p) ++ 47 :: itoa (InstanceID p) ++ 47 :: itoa (ResourceID p).

(* go: internal/protocol/lwm2m/model.go:113-119 (Registration) *)
Record Registration : Type := mkRegistration {
  Endpoint : bytes;
  Lifetime : Z;
  Objects : list ObjectPath;
  CreatedAt : Z;
  UpdatedAt : Z
}.

(* go: internal/protocol/lwm2m/model.go:121-126 (Expired) *)
Definition Expired (r : Registration) (now : Z) : bool :=
  if Lifetime r <=? 0 then false else Lifetime r <? now - UpdatedAt r.

(** ** The TLV codec *)

(* go: internal/protocol/lwm2m/codec_tlv.go:31-37 (tlvEntry) *)
Record tlvEntry : Type := mkEntry { e_id : Z; e_type : ResourceType; e_value : bytes }.
(* go: internal/protocol/lwm2m/codec_tlv.go:94-99 (tlvResource) *)
Record tlvResource : Type := mkResource { t_id : Z; t_type : ResourceType; t_value : bytes }.

#[export] Instance tlvResource_eq_dec : EqDecision tlvResource.
Proof. solve_decision. Defined.

(* go: internal/protocol/lwm2m/codec_tlv.go:39-47 (tlvResourceWithValue) *)
Definition tlvResourceWithValue : Z := 0xC0.
Definition tlvID8 : Z := 0x00.
Definition tlvID16 : Z := 0x08.
Definition tlvID32 : Z := 0x10.
Definition tlvLen8 : Z := 0x01.
Definition tlvLen16 : Z := 0x02.

Definition tlv_error (msg : string) : error := ErrMsg msg.

(** The identifier field and its flag, the length field and its flag. *)
(* go: internal/protocol/lwm2m/codec_tlv.go:62-76 (EncodeTLV) *)
Definition encode_id (id : Z) : Z * bytes :=
  if id <=? 0xFF then (tlvID8, [u8 id])
  else if id <=? 0xFFFF then (tlvID16, be_put 2 (u16 id))
  else (tlvID32, be_put 4 (u32 id)).

(* go: internal/protocol/lwm2m/codec_tlv.go:77-85 (EncodeTLV) *)
Definition encode_len (n : Z) : Z * bytes :=
  if n <=? 0xFF then (tlvLen8, [u8 n]) else (tlvLen16, be_put 2 (u16 n)).

(* go: internal/protocol/lwm2m/codec_tlv.go:49-92 (EncodeTLV) *)
Fixpoint EncodeTLV (buf : bytes) (entries : list tlvEntry) : result error bytes :=
  match entries with
  | [] => Ok buf
  | e :: entries' =>
      if (e_id e <? 0) || (0xFFFFFFFF <? e_id e) then Err (tlv_error "resource id out of range")
      else if 0xFFFF <? len (e_value e) then Err (tlv_error "value length out of range")
      else
        let '(idFlag, idBytes) := encode_id (e_id e) in
        let '(lenFlag, lenBytes) := encode_len (len (e_value e)) in
        let typeByte := Z.lor (Z.lor tlvResourceWithValue idFlag) lenFlag in
        EncodeTLV (buf ++ [typeByte] ++ idBytes ++ lenBytes ++ e_value e) entries'
  end.

(** A big-endian field of [n] bytes and the input after it. *)
Definition field (n : nat) (data : bytes) : option (Z * bytes) :=
  if len data <? Z.of_nat n then None else Some (be_get (take n data), drop n data).

(* go: internal/protocol/lwm2m/codec_tlv.go:128-150 (decodeTLV) *)
Definition decode_id (typeByte : Z) (data : bytes) : result error (Z * bytes) :=
  let ii := Z.land (Z.shiftr typeByte 3) 0x03 in
  let read n := match field n data with Some r => Ok r | None => Err (tlv_error "truncated identifier") end in
  if ii =? 0 then read 1%nat
  else if ii =? 1 then read 2%nat
  else if ii =? 2 then read 4%nat
  else Err (tlv_error "reserved identifier length").

(** On a 64-bit int a 32-bit length is never negative. *)
(* go: internal/protocol/lwm2m/codec_tlv.go:152-191 (decodeTLV) *)
Definition decode_len (typeByte : Z) (data : bytes) : result error (Z * bytes) :=
  let lll := Z.land typeByte 0x07 in
  let read n := match field n data with Some r => Ok r | None => Err (tlv_error "truncated length") end in
  if lll =? 1 then read 1%nat
  else if lll =? 2 then read 2%nat
  else if lll =? 3 then read 3%nat
  else if lll =? 4 then read 4%nat
  else if lll =? 0 then Err (tlv_error "fixed-length record")
  else Err (tlv_error "reserved length type").

Section decode.
Local Open Scope shark_scope.
Variable resolver : option (Z -> ResourceType).

(** One record. *)
(* go: internal/protocol/lwm2m/codec_tlv.go:123-202 (decodeTLV) *)
Definition decode_record (typeByte : Z) (data : bytes) : result error (tlvResource * bytes) :=
  if negb (Z.land (Z.shiftr typeByte 6) 0x03 =? 0x03) then Err (tlv_error "unsupported type")
  else
    let? (resourceID, data) := decode_id typeByte data in
    let? (length, data) := decode_len typeByte data in
    if len data <? length then Err (tlv_error "value length exceeds data")
    else
      let rtype := match resolver with Some f => f resourceID | None => ResourceOpaque end in
      Ok (mkResource resourceID rtype (take (Z.to_nat length) data), drop (Z.to_nat length) data).

(** Every record consumes at least its type byte, so [length data] rounds reach
    the end. *)
(* go: internal/protocol/lwm2m/codec_tlv.go:116-205 (decodeTLV) *)
Fixpoint decode_loop (fuel : nat) (data : bytes) (results : list tlvResource) :
    result error (list tlvResource) :=
  match data, fuel with
  | [], _ | _, O => Ok results
  | typeByte :: data, S fuel' =>
      let? (r, data) := decode_record typeByte data in
      decode_loop fuel' data (results ++ [r])
  end.

(* go: internal/protocol/lwm2m/codec_tlv.go:101-114 (DecodeTLVTyped) *)
Definition DecodeTLVTyped (data : bytes) : result error (list tlvResource) :=
  decode_loop (length data) data [].
End decode.

(** ** Resource values *)

(** A decoded value; a float is given by its IEEE bit pattern. *)
Inductive rvalue : Type :=
| VString (s : bytes)
| VInt (n : Z)
| VFloat64 (bits : Z)
| VFloat32 (bits : Z)
| VFloatZero
| VBool (b : bool)
| VTime (unix : Z)
| VTimeZero
| VBytes (b : bytes).

(* go: internal/protocol/lwm2m/codec_tlv.go:212-229 (ResourceValue) *)
Definition integer_value (v : bytes) : Z :=
  if 8 <=? len v then i64 (be_get (take 8 v))
  else
    let n := fold_left (fun n b => Z.lor (i64 (Z.shiftl n 8)) b) v 0 in
    if (0 <? len v) && (len v <? 8) && negb (Z.land (byte_at v 0) 0x80 =? 0)
    then Z.lor n (Z.shiftl (-1) (8 * len v)) else n.

(* go: internal/protocol/lwm2m/codec_tlv.go:207-252 (ResourceValue) *)
Definition ResourceValue (r : tlvResource) : rvalue :=
  let v := t_value r in
  match t_type r with
  | ResourceString => VString v
  | ResourceInteger => VInt (integer_value v)
  | ResourceFloat =>
      if 8 <=? len v then VFloat64 (be_get (take 8 v))
      else if len v =? 4 then VFloat32 (be_get v)
      else VFloatZero
  | ResourceBoolean => VBool ((0 <? len v) && negb (byte_at v 0 =? 0))
  | ResourceTime => if 4 <=? len v then VTime (be_get (take 4 v)) else VTimeZero
  | _ => VBytes v
  end.

(** ** Lemmas *)

Lemma field_app n l rest : length l = n -> field n (l ++ rest) = Some (be_get l, rest).
Proof.
  intros <-. unfold field. rewrite len_app. pose proof (len_nonneg rest).
  rewrite (proj2 (Z.ltb_ge _ _)) by (unfold len; lia). by rewrite take_app_length, drop_app_length.
Qed.

Lemma decode_id_ok id lenFlag rest :
  0 <= id <= 0xFFFFFFFF -> lenFlag = tlvLen8 \/ lenFlag = tlvLen16 ->
  decode_id (Z.lor (Z.lor tlvResourceWithValue (encode_id id).1) lenFlag) ((encode_id id).2 ++ rest) =
  Ok (id, rest).
Proof.
  intros Hid Hl. unfold encode_id. destruct (Z.leb_spec id 0xFF) as [H1|H1];
    [|destruct (Z.leb_spec id 0xFFFF) as [H2|H2]]; cbn [fst snd].
  - assert (forall d, decode_id (Z.lor (Z.lor tlvResourceWithValue tlvID8) lenFlag) d =
      match field 1 d with Some r => Ok r | None => Err (tlv_error "truncated identifier") end) as ->
      by (intros d; by destruct Hl as [-> | ->]).
    rewrite field_app by done. rewrite uwrap_small by lia. by rewrite be_get_cons, Z.add_0_r, Z.mul_1_r.
  - assert (forall d, decode_id (Z.lor (Z.lor tlvResourceWithValue tlvID16) lenFlag) d =
      match field 2 d with Some r => Ok r | None => Err (tlv_error "truncated identifier") end) as ->
      by (intros d; by destruct Hl as [-> | ->]).
    rewrite field_app by apply length_be_put. rewrite uwrap_small by lia.
    by rewrite be_get_put_small by (change (256 ^ Z.of_nat 2) with 65536; lia).
  - assert (forall d, decode_id (Z.lor (Z.lor tlvResourceWithValue tlvID32) lenFlag) d =
      match field 4 d with Some r => Ok r | None => Err (tlv_error "truncated identifier") end) as ->
      by (intros d; by destruct Hl as [-> | ->]).
    rewrite field_app by apply length_be_put. rewrite uwrap_small by lia.
    by rewrite be_get_put_small by (change (256 ^ Z.of_nat 4) with (2 ^ 32); lia).
Qed.

Lemma encode_len_flag n : (encode_len n).1 = tlvLen8 \/ (encode_len n).1 = tlvLen16.
Proof. unfold encode_len. destruct (_ <=? _); [by left|by right]. Qed.

Lemma decode_len_ok n idFlag rest :
  0 <= n <= 0xFFFF -> idFlag = tlvID8 \/ idFlag = tlvID16 \/ idFlag = tlvID32 ->
  decode_len (Z.lor (Z.lor tlvResourceWithValue idFlag) (encode_len n).1) ((encode_len n).2 ++ rest) =
  Ok (n, rest).
Proof.
  intros Hn Hi. unfold encode_len. destruct (Z.leb_spec n 0xFF) as [H1|H1]; cbn [fst snd].
  - assert (forall d, decode_len (Z.lor (Z.lor tlvResourceWithValue idFlag) tlvLen8) d =
      match field 1 d with Some r => Ok r | None => Err (tlv_error "truncated length") end) as ->
      by (intros d; by destruct Hi as [->|[-> | ->]]).
    rewrite field_app by done. rewrite uwrap_small by lia. by rewrite be_get_cons, Z.add_0_r, Z.mul_1_r.
  - assert (forall d, decode_len (Z.lor (Z.lor tlvResourceWithValue idFlag) tlvLen16) d =
      match field 2 d with Some r => Ok r | None => Err (tlv_error "truncated length") end) as ->
      by (intros d; by destruct Hi as [->|[-> | ->]]).
    rewrite field_app by apply length_be_put. rewrite uwrap_small by lia.
    by rewrite be_get_put_small by (change (256 ^ Z.of_nat 2) with 65536; lia).
Qed.

Lemma encode_id_flag id : (encode_id id).1 = tlvID8 \/ (encode_id id).1 = tlvID16 \/ (encode_id id).1 = tlvID32.
Proof. unfold encode_id. repeat destruct (_ <=? _); auto. Qed.

(** The bytes of one record after its type byte. *)
Definition record_body (e : tlvEntry) : bytes :=
  (encode_id (e_id e)).2 ++ (encode_len (len (e_value e))).2 ++ e_value e.
Definition record_type (e : tlvEntry) : Z :=
  Z.lor (Z.lor tlvResourceWithValue (encode_id (e_id e)).1) (encode_len (len (e_value e))).1.

Definition entry_ok (e : tlvEntry) : Prop := 0 <= e_id e <= 0xFFFFFFFF /\ len (e_value e) <= 0xFFFF.
#[export] Instance entry_ok_dec e : Decision (entry_ok e).
Proof. unfold entry_ok. apply _. Defined.

Definition resolved (resolver : option (Z -> ResourceType)) (e : tlvEntry) : tlvResource :=
  mkResource (e_id e) (match resolver with Some f => f (e_id e) | None => ResourceOpaque end) (e_value e).

Lemma decode_record_ok resolver e rest :
  entry_ok e -> decode_record resolver (record_type e) (record_body e ++ rest) = Ok (resolved resolver e, rest).
Proof.
  intros [Hid Hl]. pose proof (len_nonneg (e_value e)) as Hn. unfold decode_record.
  assert (negb (Z.land (Z.shiftr (record_type e) 6) 0x03 =? 0x03) = false) as ->.
  { unfold record_type. destruct (encode_id_flag (e_id e)) as [->|[-> | ->]], (encode_len_flag (len (e_value e))) as [-> | ->];
      done. }
  unfold record_body. rewrite <- app_assoc. unfold record_type.
  rewrite decode_id_ok by (done || apply encode_len_flag). rewrite <- app_assoc.
  rewrite decode_len_ok by (lia || apply encode_id_flag).
  rewrite len_app. pose proof (len_nonneg rest). rewrite (proj2 (Z.ltb_ge _ _)) by lia.
  assert (Z.to_nat (len (e_value e)) = length (e_value e)) as -> by (unfold len; lia).
  by rewrite take_app_length, drop_app_length.
Qed.

Definition records (entries : list tlvEntry) : bytes := entries ≫= (fun e => record_type e :: record_body e).

Lemma EncodeTLV_ok buf entries : Forall entry_ok entries -> EncodeTLV buf entries = Ok (buf ++ records entries).
Proof.
  intros H. revert buf. induction H as [|e entries [Hid Hl] He IH]; intros buf; cbn [EncodeTLV].
  - by rewrite app_nil_r.
  - assert ((e_id e <? 0) || (0xFFFFFFFF <? e_id e) = false) as ->
      by (apply orb_false_iff; split; apply Z.ltb_ge; lia).
    rewrite (proj2 (Z.ltb_ge _ _)) by lia.
    rewrite (surjective_pairing (encode_id _)), (surjective_pairing (encode_len _)), IH.
    unfold records, record_type, record_body. csimpl. f_equal. rewrite <- !app_assoc. cbn [app]. rewrite <- !app_assoc. done.
Qed.

Lemma decode_loop_ok resolver entries fuel acc :
  Forall entry_ok entries -> (length (records entries) <= fuel)%nat ->
  decode_loop resolver fuel (records entries) acc = Ok (acc ++ (resolved resolver <$> entries)).
Proof.
  intros H. revert fuel acc. induction H as [|e entries He Hes IH]; intros fuel acc Hf.
  - cbn. rewrite app_nil_r. by destruct fuel.
  - unfold records in *. csimpl in *. rewrite length_app in Hf. destruct fuel as [|fuel]; [lia|].
    cbn [decode_loop]. rewrite decode_record_ok by done. rewrite IH by lia. by rewrite <- app_assoc.
Qed.

(** The TLV codec round-trips: every list of resource values with 32-bit
    identifiers and values of at most 65535 bytes is encoded, and decoding gives
    the same identifiers and values in order, each with the type the object
    model resolves for it. *)
Theorem tlv_roundtrip resolver entries :
  Forall entry_ok entries ->
  exists data, EncodeTLV [] entries = Ok data /\
    DecodeTLVTyped resolver data = Ok (resolved resolver <$> entries).
Proof.
  intros H. exists (records entries). split; [by apply (EncodeTLV_ok [])|]. by apply decode_loop_ok.
Qed.

Lemma tlv_roundtrip_witness :
  exists data, EncodeTLV [] [mkEntry 0 ResourceString [97]; mkEntry 5700 ResourceInteger (repeat 1 300)] = Ok data /\
    DecodeTLVTyped None data = Ok [mkResource 0 ResourceOpaque [97]; mkResource 5700 ResourceOpaque (repeat 1 300)].
Proof.
  apply (tlv_roundtrip None [mkEntry 0 ResourceString [97]; mkEntry 5700 ResourceInteger (repeat 1 300)]).
  decide_now.
Defined.

(** ** Integers *)

Lemma fold_shift_get v acc :
  bytes_ok v -> 0 <= acc -> (acc + 1) * 256 ^ len v <= 2 ^ 63 ->
  fold_left (fun n b => Z.lor (i64 (Z.shiftl n 8)) b) v acc = acc * 256 ^ len v + be_get v.
Proof.
  intros Hv. revert acc. induction Hv as [|b v Hb Hv IH]; intros acc Ha Hr.
  - change (len (@nil Z)) with 0. cbn. lia.
  - rewrite len_cons in *. pose proof (len_nonneg v) as Hn.
    rewrite Z.pow_add_r in Hr by lia. change (256 ^ 1) with 256 in Hr.
    assert (0 < 256 ^ len v) as Hp by lia. unfold is_byte in Hb.
    cbn [fold_left]. rewrite i64_small by (unfold in_i64, min_int64, max_int64; rewrite Z.shiftl_mul_pow2 by lia; nia).
    rewrite lor_shiftl_add by lia. change (2 ^ 8) with 256. rewrite IH by nia.
    rewrite be_get_cons, Z.pow_add_r by lia. change (256 ^ 1) with 256. lia.
Qed.

(** The top bit of the first byte is the sign of the value. *)
Lemma sign_bit b v : is_byte b -> bytes_ok v ->
  negb (Z.land b 0x80 =? 0) = (2 ^ (8 * (1 + len v) - 1) <=? be_get (b :: v)).
Proof.
  intros Hb Hv. rewrite be_get_cons. pose proof (be_get_bound v Hv) as Hg. pose proof (len_nonneg v) as Hn.
  assert (negb (Z.land b 0x80 =? 0) = (128 <=? b)) as ->.
  { assert (Bool.eqb (negb (Z.land b 0x80 =? 0)) (128 <=? b) = true) as H
      by (apply (byte_forall (fun b => Bool.eqb (negb (Z.land b 0x80 =? 0)) (128 <=? b))); [by vm_compute|done]).
    by apply eqb_prop in H. }
  replace (8 * (1 + len v) - 1) with (7 + 8 * len v) by lia.
  rewrite Z.pow_add_r, Z.pow_mul_r by lia. change (2 ^ 7) with 128. change (2 ^ 8) with 256.
  destruct (Z.leb_spec 128 b), (Z.leb_spec (128 * 256 ^ len v) (b * 256 ^ len v + be_get v)); try done; nia.
Qed.

Lemma lor_sign v n : 0 <= n -> 0 <= v < 2 ^ n -> Z.lor v (Z.shiftl (-1) n) = v - 2 ^ n.
Proof. intros Hn Hv. rewrite Z.lor_comm, lor_shiftl_add by lia. lia. Qed.

(** A resource of type Integer is read as the two's-complement number its 1
    to 8 big-endian bytes stand for, whatever their count. *)
Theorem integer_value_signed v :
  bytes_ok v -> 1 <= len v <= 8 -> integer_value v = swrap (8 * len v) (be_get v).
Proof.
  intros Hv Hl. pose proof (be_get_bound v Hv) as Hg. unfold integer_value.
  destruct (Z.leb_spec 8 (len v)) as [H8|H8].
  - rewrite take_ge by (unfold len in *; lia). by replace (8 * len v) with 64 by lia.
  - assert (256 ^ len v <= 256 ^ 7) as Hp by (apply Z.pow_le_mono_r; lia).
    rewrite fold_shift_get by (done || lia). rewrite Z.mul_0_l, Z.add_0_l.
    rewrite (proj2 (Z.ltb_lt 0 _)), (proj2 (Z.ltb_lt _ 8)) by lia. cbn [andb].
    destruct v as [|b v]; [change (len (@nil Z)) with 0 in Hl; lia|].
    inversion Hv as [|? ? Hb Hv']; subst. change (byte_at (b :: v) 0) with b.
    rewrite (sign_bit b v) by done. rewrite len_cons in *. pose proof (len_nonneg v) as Hn. set (n := 1 + len v) in *.
    assert (256 ^ n = 2 ^ (8 * n)) as En by (rewrite Z.pow_mul_r by lia; done). rewrite En in Hg.
    assert (2 ^ (8 * n) = 2 * 2 ^ (8 * n - 1)) as E2 by (rewrite <- Z.pow_succ_r by lia; f_equal; lia).
    unfold swrap. destruct (Z.leb_spec (2 ^ (8 * n - 1)) (be_get (b :: v))) as [Hs|Hs].
    + rewrite lor_sign by lia.
      replace ((be_get (b :: v) + 2 ^ (8 * n - 1)) mod 2 ^ (8 * n)) with (be_get (b :: v) - 2 ^ (8 * n - 1)); [lia|].
      apply Z.mod_unique with 1; lia.
    + rewrite Z.mod_small; lia.
Qed.

Lemma integer_value_signed_witness :
  integer_value [0xff; 0xfe] = -2 /\ integer_value [0x80; 0; 0; 0; 0; 0; 0; 0] = min_int64.
Proof.
  split.
  - rewrite (integer_value_signed [0xff; 0xfe] ltac:(decide_now) ltac:(split; by vm_compute)). by vm_compute.
  - by vm_compute.
Defined.

(** A resource of type Time in its eight-byte form is misread: any time
    before 2^32 seconds reads as 1970, because only the first four bytes are
    used. *)
Theorem time_eight_bytes_misread id t :
  0 <= t < 2 ^ 32 -> ResourceValue (mkResource id ResourceTime (be_put 8 t)) = VTime 0.
Proof.
  intros Ht. unfold ResourceValue. cbn [t_type t_value]. rewrite len_be_put. cbn -[be_put be_get take].
  f_equal. assert (take 4 (be_put 8 t) = be_put 4 (Z.shiftr t 32)) as ->.
  { cbn [be_put take firstn]. rewrite !Z.shiftr_shiftr by lia. done. }
  assert (Z.shiftr t 32 = 0) as -> by (rewrite Z.shiftr_div_pow2 by lia; by apply Z.div_small). done.
Qed.

Lemma time_eight_bytes_misread_witness :
  ResourceValue (mkResource 13 ResourceTime (be_put 8 1700000000)) = VTime 0 /\
  ResourceValue (mkResource 13 ResourceTime (be_put 4 1700000000)) = VTime 1700000000.
Proof. split; [apply (time_eight_bytes_misread 13 1700000000); lia|by vm_compute]. Defined.

(** ** Paths *)

Lemma digits_no_sep sep l :
  is_digit sep = false -> Forall (fun c => is_digit c = true) l -> sep ∉ l.
Proof. intros Hs Hl Hin. rewrite Forall_forall in Hl. apply Hl in Hin. congruence. Qed.

(** Paths print and parse back, with or without slashes around them. *)
Theorem path_roundtrip p :
  0 <= ObjectID p <= max_int64 -> 0 <= InstanceID p <= max_int64 -> 0 <= ResourceID p <= max_int64 ->
  ParsePath (path_String p) = Ok p /\ ParsePath (path_String p ++ [47]) = Ok p.
Proof.
  intros Ho Hi Hr. pose proof (itoa_digits (ObjectID p)) as D1. pose proof (itoa_digits (InstanceID p)) as D2.
  pose proof (itoa_digits (ResourceID p)) as D3.
  set (body := itoa (ObjectID p) ++ 47 :: itoa (InstanceID p) ++ 47 :: itoa (ResourceID p)).
  assert (forall l, Forall (fun c => is_digit c = true) l -> l <> [] -> head l <> Some 47) as Hhead.
  { intros [|c l] Hd Hne; [done|]. inversion Hd; subst. intros [= ->]. done. }
  assert (trim_left 47 body = body) as Hl.
  { apply trim_left_free. specialize (Hhead _ D1 (itoa_nonempty _)). unfold body.
    destruct (itoa (ObjectID p)) eqn:E; [by apply itoa_nonempty in E|exact Hhead]. }
  assert (trim_left 47 (rev body) = rev body) as Hr'.
  { apply trim_left_free. assert (head (rev (itoa (ResourceID p))) <> Some 47) as Hh.
    { apply Hhead; [by apply Forall_rev|]. intros E. apply (f_equal (@rev Z)) in E. rewrite rev_involutive in E.
      by apply itoa_nonempty in E. }
    unfold body. rewrite app_comm_cons, app_assoc, rev_app_distr. cbn [rev]. rewrite <- app_assoc.
    destruct (rev (itoa (ResourceID p))) eqn:E; [|exact Hh].
    apply (f_equal (@rev Z)) in E. rewrite rev_involutive in E. by apply itoa_nonempty in E. }
  assert (trim 47 (path_String p) = body) as E1.
  { unfold trim, path_String. cbn [trim_left]. change (47 =? 47) with true. cbn iota.
    fold body. by rewrite Hl, Hr', rev_involutive. }
  assert (trim 47 (path_String p ++ [47]) = body) as E2.
  { unfold trim, path_String. cbn [app trim_left]. change (47 =? 47) with true. cbn iota. fold body.
    assert (trim_left 47 (body ++ [47]) = body ++ [47]) as ->.
    { apply trim_left_free. specialize (Hhead _ D1 (itoa_nonempty _)). unfold body.
      destruct (itoa (ObjectID p)) eqn:E; [by apply itoa_nonempty in E|exact Hhead]. }
    rewrite rev_app_distr. cbn [rev app trim_left]. change (47 =? 47) with true. cbn iota.
    by rewrite Hr', rev_involutive. }
  unfold ParsePath. rewrite E1, E2.
  assert (split_on 47 [] body = [itoa (ObjectID p); itoa (InstanceID p); itoa (ResourceID p)]) as ->.
  { unfold body. rewrite split_on_sep, split_on_sep, split_on_free by (by apply digits_no_sep). done. }
  assert (forall n, 0 <= n <= max_int64 -> path_number (itoa n) = Some n) as Hn.
  { intros n Hn. unfold path_number. rewrite Atoi_itoa by done. by rewrite (proj2 (Z.ltb_ge n 0)) by lia. }
  rewrite !Hn by done. by destruct p.
Qed.

Lemma path_roundtrip_witness : ParsePath (bytes_of_string "/3/0/13/") = Ok (mkPath 3 0 13).
Proof. apply (path_roundtrip (mkPath 3 0 13)); split; by vm_compute. Defined.
