(* ===== verification/Breaker.v ===== *)
(** * Breaker: [internal/infra/circuitbreaker]

    The circuit breaker as a state machine.  Every method runs under the
    breaker's mutex, so concurrent callers are a sequence of calls; a caller
    may report a result long after it was admitted.  Times are nanoseconds. *)
From S2P Require Import Prelude Core.
Local Open Scope string_scope.
Local Open Scope Z_scope.
Local Open Scope list_scope.

(* go: internal/infra/circuitbreaker/circuitbreaker.go:9-9 (ErrOpen) *)
Definition ErrOpen : error := ErrMsg "circuit breaker open".

(* go: internal/infra/circuitbreaker/circuitbreaker.go:11-17 (State) *)
Inductive State : Type := Closed | Open | HalfOpen.

#[export] Instance State_eq_dec : EqDecision State.
Proof. solve_decision. Defined.

(* go: internal/infra/circuitbreaker/circuitbreaker.go:19-27 (Breaker) *)
Record Breaker : Type := mkBreaker {
  state : State;
  failures : Z;
  threshold : Z;
  openedAt : Z;
  timeout : Z;
  halfOpenActive : bool
}.

(** The zero time is 0 here; it is not read before the breaker opens. *)
(* go: internal/infra/circuitbreaker/circuitbreaker.go:37-45 (New) *)
Definition New (threshold timeout : Z) : Breaker :=
  mkBreaker Closed 0 (if threshold <=? 0 then 1 else threshold) 0
    (if timeout <=? 0 then 1000000000 else timeout) false.

Definition with_state (b : Breaker) (s : State) (f opened : Z) (active : bool) : Breaker :=
  mkBreaker s f (threshold b) opened (timeout b) active.

(** The half-open part, which an expired open breaker falls through to. *)
(* go: internal/infra/circuitbreaker/circuitbreaker.go:57-64 (Allow) *)
Definition allow_probe (b : Breaker) : option error * Breaker :=
  if decide (state b = HalfOpen) then
    if halfOpenActive b then (Some ErrOpen, b)
    else (None, with_state b HalfOpen (failures b) (openedAt b) true)
  else (None, b).

(* go: internal/infra/circuitbreaker/circuitbreaker.go:47-64 (Allow) *)
Definition Allow (now : Z) (b : Breaker) : option error * Breaker :=
  if decide (state b = Open) then
    if timeout b <=? now - openedAt b
    then allow_probe (with_state b HalfOpen (failures b) (openedAt b) (halfOpenActive b))
    else (Some ErrOpen, b)
  else allow_probe b.

(* go: internal/infra/circuitbreaker/circuitbreaker.go:66-79 (Success) *)
Definition Success (b : Breaker) : Breaker :=
  if decide (state b = Open) then b else with_state b Closed 0 (openedAt b) false.

(* go: internal/infra/circuitbreaker/circuitbreaker.go:81-96 (Failure) *)
Definition Failure (now : Z) (b : Breaker) : Breaker :=
  if decide (state b = Open) then b
  else
    let f := i64 (failures b + 1) in
    if threshold b <=? f then with_state b Open f now false
    else with_state b (state b) f (openedAt b) false.

(** A panic of [fn] is a failure and reaches the caller; [fn] may itself use
    the breaker, so it acts on the world that contains it. *)
(* go: internal/infra/circuitbreaker/circuitbreaker.go:116-136 (Execute) *)
Definition Execute {W} (get : W -> Breaker) (set : Breaker -> W -> W) (fn : W -> outcome (option error) * W)
    (now later : Z) (w : W) : outcome (option error) * W :=
  match Allow now (get w) with
  | (Some err, b) => (Returned (Some err), set b w)
  | (None, b) =>
      let w := set b w in
      match fn w with
      | (Panicked, w') => (Panicked, set (Failure later (get w')) w')
      | (Returned (Some err), w') => (Returned (Some err), set (Failure later (get w')) w')
      | (Returned None, w') => (Returned None, set (Success (get w')) w')
      end
  end.

(** ** Runs *)

Inductive call : Type := CAllow (now : Z) | CSuccess | CFailure (now : Z).

Definition step (c : call) (b : Breaker) : Breaker :=
  match c with
  | CAllow now => (Allow now b).2
  | CSuccess => Success b
  | CFailure now => Failure now b
  end.

Definition run (cs : list call) (b : Breaker) : Breaker := foldl (fun b c => step c b) b cs.

Lemma run_app cs1 cs2 b : run (cs1 ++ cs2) b = run cs2 (run cs1 b).
Proof. apply foldl_app. Qed.

(** While it is open and until it closes, the failure count is at the threshold:
    any failure reported opens it again.  The probe flag is set exactly when
    half-open.  [n] bounds the failures reported so far. *)
Record breaker_ok (n : Z) (b : Breaker) : Prop := {
  bo_failures : 0 <= failures b <= n;
  bo_threshold : 0 < threshold b;
  bo_flag : halfOpenActive b = bool_decide (state b = HalfOpen);
  bo_below : state b = Closed -> failures b < threshold b;
  bo_above : state b <> Closed -> threshold b <= failures b
}.

Lemma New_ok th t : breaker_ok 0 (New th t).
Proof. split; cbn; try done; destruct (Z.leb_spec th 0); lia. Qed.

Lemma Allow_ok n now b : breaker_ok n b -> breaker_ok n (Allow now b).2.
Proof.
  intros Hok. pose proof Hok as [H1 H2 H3 H4 H5]. unfold Allow, allow_probe.
  destruct (decide (state b = Open)) as [E|E].
  - destruct (_ <=? _); [|by split]. cbn. rewrite H3, bool_decide_false by congruence.
    split; cbn; try done. intros _. apply H5. congruence.
  - destruct (decide (state b = HalfOpen)) as [E'|E']; [|done].
    destruct (halfOpenActive b); [done|]. split; cbn; try done. intros _. apply H5. congruence.
Qed.

Lemma Success_ok n b : breaker_ok n b -> breaker_ok n (Success b).
Proof. intros Hok. pose proof Hok as [H1 H2 H3 H4 H5]. unfold Success.
  destruct (decide (state b = Open)); [done|]. split; cbn; done || lia. Qed.

Lemma Failure_ok n now b : breaker_ok n b -> n < max_int64 -> breaker_ok (n + 1) (Failure now b).
Proof.
  intros [H1 H2 H3 H4 H5] Hn. unfold Failure.
  destruct (decide (state b = Open)) as [E|E]; [split; try done; lia|].
  rewrite i64_small by (unfold in_i64, min_int64, max_int64 in *; lia).
  destruct (Z.leb_spec (threshold b) (failures b + 1)) as [Ht|Ht]; split; cbn; try done; try lia.
  - destruct (decide (state b = HalfOpen)) as [Es|Es]; [|by rewrite bool_decide_false].
    specialize (H5 ltac:(congruence)). lia.
  - intros Hs. specialize (H5 Hs). lia.
Qed.

Lemma run_ok cs n b :
  breaker_ok n b -> n + Z.of_nat (length cs) <= max_int64 -> breaker_ok (n + Z.of_nat (length cs)) (run cs b).
Proof.
  revert n b. induction cs as [|c cs IH]; intros n b Hb Hn; cbn [length] in *.
  { by rewrite Z.add_0_r. }
  replace (n + Z.of_nat (S (length cs))) with (n + 1 + Z.of_nat (length cs)) by lia.
  cbn [run foldl]. apply IH; [|lia]. destruct c as [now| |now]; cbn [step].
  - apply (Allow_ok _ now) in Hb. destruct Hb. split; try done. lia.
  - apply Success_ok in Hb. destruct Hb. split; try done. lia.
  - apply Failure_ok; [done|lia].
Qed.

(** An open breaker before its timeout: nothing changes it. *)
Definition before (t : Z) (c : call) : Prop := match c with CAllow now => now < t | _ => True end.
Definition is_allow (c : call) : Prop := match c with CAllow _ => True | _ => False end.

Lemma open_run cs b :
  state b = Open -> Forall (before (openedAt b + timeout b)) cs -> run cs b = b.
Proof.
  intros Hb. induction 1 as [|c cs Hc _ IH]; [done|]. cbn [run foldl].
  assert (step c b = b) as ->; [|exact IH].
  destruct c as [now| |now]; cbn [step before] in *; unfold Allow, Success, Failure; rewrite decide_True by done;
    [|done|done]. by rewrite (proj2 (Z.leb_gt _ _)) by lia.
Qed.

Lemma probing_run cs b :
  state b = HalfOpen -> halfOpenActive b = true -> Forall is_allow cs -> run cs b = b.
Proof.
  intros Hs Ha. induction 1 as [|c cs Hc _ IH]; [done|]. cbn [run foldl].
  assert (step c b = b) as ->; [|exact IH]. destruct c as [now| |now]; [|done|done]. cbn [step].
  unfold Allow, allow_probe. rewrite decide_False, decide_True by congruence. by rewrite Ha.
Qed.

(** The protection of an open breaker, after any history of concurrent calls:
    until its timeout has passed, every call is refused and no late success or
    failure changes anything; then exactly one probe is admitted, every other
    call is refused until a result is reported, a failure opens the breaker
    again from that moment, and a success closes it with a clean count. *)
Theorem breaker_open_protects th t cs cs' probes late now :
  Z.of_nat (length cs) < max_int64 -> let b := run cs (New th t) in
  state b = Open -> Forall (before (openedAt b + timeout b)) cs' ->
  openedAt b + timeout b <= now -> Forall is_allow probes ->
  (forall early, early < openedAt b + timeout b -> (Allow early (run cs' b)).1 = Some ErrOpen) /\
  (Allow now (run cs' b)).1 = None /\
  let b' := run probes (Allow now (run cs' b)).2 in
  (Allow late b').1 = Some ErrOpen /\
  state (Failure late b') = Open /\ openedAt (Failure late b') = late /\
  state (Success b') = Closed /\ failures (Success b') = 0.
Proof.
  intros Hlen b Hb Hcs' Hnow Hp.
  pose proof (run_ok cs 0 (New th t) (New_ok th t) ltac:(lia)) as Hok. fold b in Hok.
  rewrite (open_run cs' b Hb Hcs').
  destruct Hok as [H1 H2 H3 H4 H5].
  assert (Allow now b = (None, with_state b HalfOpen (failures b) (openedAt b) true)) as E.
  { unfold Allow, allow_probe. rewrite decide_True by done. rewrite (proj2 (Z.leb_le _ _)) by lia.
    cbn. by rewrite H3, bool_decide_false by congruence. }
  split; [|split; [by rewrite E|]].
  - intros early He. unfold Allow. rewrite decide_True by done. by rewrite (proj2 (Z.leb_gt _ _)) by lia.
  - rewrite E. cbn [snd]. cbv zeta. rewrite (probing_run probes) by done.
    specialize (H5 ltac:(congruence)).
    unfold Failure. cbn. rewrite i64_small by (unfold in_i64, min_int64, max_int64 in *; lia).
    rewrite (proj2 (Z.leb_le _ _)) by lia. done.
Qed.

(** Failures reported in a row, up to the end of [cs]. *)
Fixpoint streak (n : Z) (cs : list call) : Z :=
  match cs with
  | [] => n
  | CAllow _ :: cs => streak n cs
  | CSuccess :: cs => streak 0 cs
  | CFailure _ :: cs => streak (n + 1) cs
  end.

(** No [th] failures in a row in [cs], after [n]. *)
Fixpoint quiet (th n : Z) (cs : list call) : bool :=
  match cs with
  | [] => true
  | CAllow _ :: cs => quiet th n cs
  | CSuccess :: cs => quiet th 0 cs
  | CFailure _ :: cs => negb (n + 1 =? th) && quiet th (n + 1) cs
  end.

Lemma quiet_run th cs b :
  threshold b = th -> th <= max_int64 -> state b = Closed -> 0 <= failures b < th ->
  quiet th (failures b) cs = true ->
  threshold (run cs b) = th /\ state (run cs b) = Closed /\ failures (run cs b) = streak (failures b) cs /\
  0 <= failures (run cs b) < th.
Proof.
  intros Ht Hth. revert b Ht. induction cs as [|c cs IH]; intros b Ht Hs Hf Hq; [done|].
  cbn [run foldl]. destruct c as [now| |now]; cbn [step streak quiet] in *.
  - assert ((Allow now b).2 = b) as ->; [|by apply IH].
    unfold Allow, allow_probe. by rewrite !decide_False by congruence.
  - assert (Success b = with_state b Closed 0 (openedAt b) false) as -> by (unfold Success; by rewrite decide_False by congruence).
    apply (IH (with_state b Closed 0 (openedAt b) false)); cbn; done || lia.
  - breflect. assert (Failure now b = with_state b Closed (failures b + 1) (openedAt b) false) as ->.
    { unfold Failure. rewrite decide_False by congruence.
      rewrite i64_small by (unfold in_i64, min_int64, max_int64 in *; lia).
      by rewrite (proj2 (Z.leb_gt _ _)) by lia; rewrite Hs. }
    apply (IH (with_state b Closed (failures b + 1) (openedAt b) false)); cbn; try done. lia.
Qed.

(** The breaker trips exactly on the configured number of failures in a row: as
    long as no run of that many has been reported it stays closed and admits
    every call, and the failure that completes one opens it at that moment. *)
Theorem breaker_trips_exactly th t cs now :
  th <= max_int64 -> let b := run cs (New th t) in
  quiet (threshold (New th t)) 0 cs = true ->
  state b = Closed /\ (Allow now b).1 = None /\ failures b = streak 0 cs /\
  (state (Failure now b) = Open <-> streak 0 cs + 1 = threshold (New th t)) /\
  (state (Failure now b) = Open -> openedAt (Failure now b) = now).
Proof.
  intros Hth b Hq.
  assert (0 < threshold (New th t) <= max_int64) as Hpos
    by (cbn; unfold max_int64 in *; destruct (Z.leb_spec th 0); lia).
  destruct (quiet_run (threshold (New th t)) cs (New th t)) as (H1 & H2 & H3 & H4); try done; [lia|cbn [failures New]; lia|].
  fold b in H1, H2, H3, H4. split; [done|]. change (failures (New th t)) with 0 in H3.
  unfold Allow, allow_probe, Failure. rewrite !decide_False by congruence.
  rewrite i64_small by (unfold in_i64, min_int64, max_int64 in *; lia).
  rewrite H1. destruct (Z.leb_spec (threshold (New th t)) (failures b + 1)); cbn [with_state state openedAt fst].
  - repeat split; done || lia.
  - rewrite H2. repeat split; done || lia.
Qed.

Lemma breaker_open_protects_witness :
  let b := run [CAllow 1; CFailure 2; CAllow 3; CFailure 4] (New 2 10) in
  state b = Open /\ (Allow 13 (run [CAllow 5; CSuccess; CFailure 6] b)).1 = Some ErrOpen /\
  (Allow 14 (run [CAllow 5; CSuccess; CFailure 6] b)).1 = None.
Proof.
  intros b. assert (state b = Open) as Hb by reflexivity.
  assert (Forall (before (openedAt b + timeout b)) [CAllow 5; CSuccess; CFailure 6]) as Hc by (repeat constructor).
  destruct (breaker_open_protects 2 10 [CAllow 1; CFailure 2; CAllow 3; CFailure 4] _ [CAllow 15] 16 14
    ltac:(reflexivity) Hb Hc ltac:(vm_compute; discriminate) ltac:(repeat constructor)) as (H1 & H2 & _).
  split; [done|]. split; [by apply H1|exact H2].
Defined.

Lemma breaker_trips_exactly_witness :
  state (run [CFailure 1; CSuccess; CAllow 2; CFailure 3] (New 2 10)) = Closed /\
  state (Failure 4 (run [CFailure 1; CSuccess; CAllow 2; CFailure 3] (New 2 10))) = Open.
Proof.
  destruct (breaker_trips_exactly 2 10 [CFailure 1; CSuccess; CAllow 2; CFailure 3] 4) as (H1 & _ & _ & H2 & _);
    [vm_compute; discriminate|reflexivity|]. split; [exact H1|apply H2; reflexivity].
Defined.

(** A success that was admitted before the breaker tripped, reported while the
    probe is out, closes the breaker: [Success] does not tell the probe's result
    from a stale one, and the failing probe then counts as the first failure. *)
Example stale_success_closes_half_open :
  let b := run [CAllow 1; CAllow 2; CFailure 3; CFailure 4; CAllow 20] (New 2 10) in
  state b = HalfOpen /\ state (Success b) = Closed /\ (Allow 21 (Success b)).1 = None /\
  state (Failure 22 (Success b)) = Closed.
Proof. done. Qed.

(** [Execute] never leaves the probe flag behind, whatever [fn] does. *)
Example Execute_panicking_probe :
  let b := run [CFailure 1] (New 1 10) in
  let fn w : outcome (option error) * Breaker := (Panicked, w) in
  let b' := (Execute (fun w => w) (fun b _ => b) fn 20 21 b).2 in
  state b' = Open /\ openedAt b' = 21 /\ halfOpenActive b' = false.
Proof. done. Qed.
