(* ===== verification/Cache.v ===== *)
(** * Cache: [internal/infra/cache]

    The in-memory cache with expiry.  The operations are serialised by its
    lock; the values are copied on the way in and out, so they are values of
    the model.  Times are nanoseconds; no expiry is [None]. *)
From S2P Require Import Prelude Bytes.
Local Open Scope string_scope.
Local Open Scope Z_scope.
Local Open Scope list_scope.

(* go: internal/infra/cache/cache.go:16-19 (entry) *)
Record entry : Type := mkEntry { value : bytes; expiresAt : option Z }.

Abbreviation Memory := (gmap string entry).
(* go: internal/infra/cache/cache.go:21-28 (NewMemory) *)
Definition NewMemory : Memory := ∅.

(** [expiresAt] set and passed. *)
Definition expired (now : Z) (e : entry) : bool :=
  match expiresAt e with Some t => t <? now | None => false end.

(* go: internal/infra/cache/cache.go:30-43 (Get) *)
Definition Get (key : string) (now : Z) (m : Memory) : option bytes :=
  match m !! key with
  | Some item => if expired now item then None else Some (value item)
  | None => None
  end.

(* go: internal/infra/cache/cache.go:84-88 (Delete) *)
Definition Delete (key : string) (m : Memory) : Memory := delete key m.

(* go: internal/infra/cache/cache.go:66-82 (Set) *)
Definition Set_ (key : string) (v : bytes) (ttl now : Z) (m : Memory) : Memory :=
  if ttl <? 0 then Delete key m
  else <[key := mkEntry v (if 0 <? ttl then Some (now + ttl) else None)]> m.

(* go: internal/infra/cache/cache.go:90-93 (Has) *)
Definition Has (key : string) (now : Z) (m : Memory) : bool :=
  match Get key now m with Some _ => true | None => false end.

(* go: internal/infra/cache/cache.go:102-113 (Sweep) *)
Definition Sweep (now : Z) (m : Memory) : nat * Memory :=
  let m' := filter (fun kv => expired now kv.2 = false) m in
  ((size m - size m')%nat, m').

(* go: internal/infra/cache/cache.go:95-100 (Len) *)
Definition Len (now : Z) (m : Memory) : nat * Memory :=
  let m' := (Sweep now m).2 in (size m', m').

(* go: internal/infra/cache/cache.go:115-119 (Clear) *)
Definition Clear (m : Memory) : Memory := ∅.

(** ** Runs *)

Inductive op : Type :=
| OSet (key : string) (v : bytes) (ttl now : Z)
| ODelete (key : string)
| OSweep (now : Z)
| OLen (now : Z)
| OClear.

Definition step (o : op) (m : Memory) : Memory :=
  match o with
  | OSet key v ttl now => Set_ key v ttl now m
  | ODelete key => Delete key m
  | OSweep now => (Sweep now m).2
  | OLen now => (Len now m).2
  | OClear => Clear m
  end.
Definition run (ops : list op) : Memory := foldl (fun m o => step o m) NewMemory ops.

(** ** The specification: the last write of a key *)

(** What the key holds at [now], by the operations in order: the last value
    written, unless it was deleted, written with a negative time to live or has
    passed its time to live. *)
Fixpoint last_write (key : string) (now : Z) (ops : list op) (cur : option bytes) : option bytes :=
  match ops with
  | [] => cur
  | OSet k v ttl at_ :: ops =>
      last_write key now ops
        (if decide (k = key) then
           if (ttl =? 0) || (0 <? ttl) && (now <=? at_ + ttl) then Some v else None
         else cur)
  | ODelete k :: ops => last_write key now ops (if decide (k = key) then None else cur)
  | OClear :: ops => last_write key now ops None
  | OSweep _ :: ops | OLen _ :: ops => last_write key now ops cur
  end.

(** The clock of every operation has been read by [now]. *)
Definition op_by (now : Z) (o : op) : Prop :=
  match o with OSet _ _ _ t | OSweep t | OLen t => t <= now | _ => True end.

Lemma Get_sweep m key t now :
  t <= now -> Get key now (filter (fun kv => expired t kv.2 = false) m) = Get key now m.
Proof.
  intros Ht. unfold Get. rewrite map_lookup_filter. destruct (m !! key) as [e|]; [|done]. csimpl.
  case_guard as Hg; [done|]. cbn in *. unfold expired in *. destruct (expiresAt e) as [x|]; [|done].
  destruct (Z.ltb_spec x t) as [Hx|Hx]; [|done]. by rewrite (proj2 (Z.ltb_lt x now)) by lia.
Qed.

Lemma step_Get o m key now :
  op_by now o -> Get key now (step o m) = last_write key now [o] (Get key now m).
Proof.
  intros Ho. destruct o as [k v ttl at_|k|t|t|]; cbn [step last_write op_by] in *.
  - unfold Get, Set_, Delete. destruct (decide (k = key)) as [->|Hk].
    + destruct (Z.ltb_spec ttl 0) as [Hn|Hn].
      * rewrite lookup_delete_eq, (proj2 (Z.eqb_neq ttl 0)) by lia.
        by rewrite (proj2 (Z.ltb_ge 0 ttl)) by lia.
      * rewrite lookup_insert_eq. unfold expired. cbn. destruct (Z.ltb_spec 0 ttl) as [Hp|Hp]; cbn.
        -- rewrite (proj2 (Z.eqb_neq ttl 0)) by lia. cbn. rewrite Z.ltb_antisym. by destruct (now <=? _).
        -- by rewrite (proj2 (Z.eqb_eq ttl 0)) by lia.
    + destruct (ttl <? 0); [by rewrite lookup_delete_ne|by rewrite lookup_insert_ne].
  - unfold Get, Delete.
    destruct (decide (k = key)) as [->|Hk]; [by rewrite lookup_delete_eq|by rewrite lookup_delete_ne].
  - by apply Get_sweep.
  - by apply Get_sweep.
  - unfold Get, Clear. by rewrite lookup_empty.
Qed.

Lemma run_Get ops m key now :
  Forall (op_by now) ops ->
  Get key now (foldl (fun m o => step o m) m ops) = last_write key now ops (Get key now m).
Proof.
  intros Hops. revert m. induction Hops as [|o ops Ho _ IH]; intros m; [done|]. cbn [foldl].
  rewrite IH, step_Get by done. by destruct o.
Qed.

(** The cache is a map with expiry: whatever writes, deletions, sweeps and
    clears went before, a read returns the last value written for the key and
    nothing once it was deleted, cleared or has outlived its time to live; a
    negative time to live never stores anything and sweeps never change a read.
    What [Len] leaves, and counts, are exactly the keys a read then finds. *)
Theorem cache_reads_last_write ops key now :
  Forall (op_by now) ops ->
  Get key now (run ops) = last_write key now ops None /\
  (key ∈ dom (Len now (run ops)).2 <-> Has key now (run ops) = true) /\
  (Len now (run ops)).1 = size (dom (Len now (run ops)).2).
Proof.
  intros Hops. split; [by apply (run_Get ops NewMemory)|]. split; [|by rewrite size_dom].
  unfold Len, Sweep, Has, Get. cbn [snd]. rewrite elem_of_dom, map_lookup_filter.
  destruct (run ops !! key) as [e|]; csimpl; [|by split; [intros []|]].
  case_guard as Hg; cbn in *; destruct (expired now e); by split.
Qed.

Lemma cache_reads_last_write_witness :
  let ops := [OSet "k" [1] 0 1; OSet "k" [2] 10 2; OSweep 5; OSet "j" [3] (-1) 6; OLen 7] in
  Get "k" 12 (run ops) = Some [2] /\ Get "k" 13 (run ops) = None /\ Get "j" 13 (run ops) = None.
Proof.
  intros ops. assert (forall now, 12 <= now -> Forall (op_by now) ops) as H by (intros; repeat constructor; cbn; lia).
  split; [|split].
  - rewrite (proj1 (cache_reads_last_write ops "k" 12 (H 12 ltac:(lia)))). reflexivity.
  - rewrite (proj1 (cache_reads_last_write ops "k" 13 (H 13 ltac:(lia)))). reflexivity.
  - rewrite (proj1 (cache_reads_last_write ops "j" 13 (H 13 ltac:(lia)))). reflexivity.
Defined.
