(* ===== verification/Lwm2mServer.v ===== *)
(** * Lwm2mServer: [internal/protocol/lwm2m/server.go] and [coap.go]

    The LwM2M registry, which unauthenticated peers fill through the text
    commands of the CoAP responder, and those commands.  Every operation runs
    under the server's mutex; times are nanoseconds. *)
From S2P Require Import Prelude Bytes Core Lwm2mTlv.
Local Open Scope string_scope.
Local Open Scope Z_scope.
Local Open Scope list_scope.

(* go: internal/protocol/lwm2m/model.go:47-55 (ResourceDefinition) *)
Record ResourceDefinition : Type := mkResDef {
  rd_ID : Z; rd_Name : bytes; rd_Type : ResourceType; rd_Operations : Z; rd_Multiple : bool; rd_Mandatory : bool
}.

(* go: internal/protocol/lwm2m/model.go:57-64 (ObjectDefinition) *)
Record ObjectDefinition : Type := mkObjDef {
  od_ID : Z; od_Name : bytes; od_Version : bytes; od_Mandatory : bool; od_Resources : list ResourceDefinition
}.

(* go: internal/protocol/lwm2m/model.go:107-111 (Resource) *)
Record Resource : Type := mkRes { r_Path : ObjectPath; r_Value : bytes; r_UpdatedAt : Z }.

(* go: internal/protocol/lwm2m/server.go:19-27 (maxLifetime) *)
Definition defaultMaxRegistrations : Z := 65536.
Definition second : Z := 1000000000.
Definition maxLifetime : Z := 30 * 24 * 60 * 60 * second.
Definition sweepThrottle : Z := 60 * second.

(** [lastSweepAt] is None for the zero time; the callback is an output. *)
(* go: internal/protocol/lwm2m/server.go:8-17 (Server) *)
Record Server : Type := mkServer {
  registrations : gmap bytes Registration;
  resources : gmap bytes (gmap bytes Resource);
  objects : gmap Z ObjectDefinition;
  defaultLife : Z;
  maxRegistrations : Z;
  lastSweepAt : option Z
}.

(** The two options, applied by the constructor. *)
(* go: internal/protocol/lwm2m/server.go:31-97 (NewServer) *)
Definition NewServer (max lifetime : Z) : Server :=
  mkServer ∅ ∅ ∅ (if 0 <? lifetime then lifetime else 5 * 60 * second)
    (if 0 <? max then max else defaultMaxRegistrations) None.

(** What every operation leaves alone: the objects and the settings. *)
Definition set_tables (regs : gmap bytes Registration) (res : gmap bytes (gmap bytes Resource))
    (sweptAt : option Z) (s : Server) : Server :=
  mkServer regs res (objects s) (defaultLife s) (maxRegistrations s) sweptAt.

(* go: internal/protocol/lwm2m/server.go:57-62 (RegisterObject) *)
Definition RegisterObject (def : ObjectDefinition) (s : Server) : Server :=
  mkServer (registrations s) (resources s) (<[od_ID def := def]> (objects s)) (defaultLife s)
    (maxRegistrations s) (lastSweepAt s).

(* go: internal/protocol/lwm2m/server.go:75-89 (GetResourceDefinition) *)
Definition GetResourceDefinition (path : ObjectPath) (s : Server) : option ResourceDefinition :=
  match objects s !! ObjectID path with
  | None => None
  | Some def => List.find (fun res => rd_ID res =? ResourceID path) (od_Resources def)
  end.

Definition expired_at (now : Z) (regs : gmap bytes Registration) (endpoint : bytes) : bool :=
  match regs !! endpoint with Some reg => Expired reg now | None => false end.

(* go: internal/protocol/lwm2m/server.go:227-238 (sweepLocked) *)
Definition sweepLocked (now : Z) (s : Server) : Z * Server :=
  let regs := filter (fun kv => Expired kv.2 now = false) (registrations s) in
  (Z.of_nat (size (registrations s)) - Z.of_nat (size regs),
   set_tables regs (filter (fun kv => expired_at now (registrations s) kv.1 = false) (resources s)) (lastSweepAt s) s).

(* go: internal/protocol/lwm2m/server.go:218-225 (SweepExpired) *)
Definition SweepExpired (now : Z) (s : Server) : Z * Server := sweepLocked now s.

(* go: internal/protocol/lwm2m/server.go:167-172 (Registration) *)
Definition Registration_ (endpoint : bytes) (s : Server) : option Registration := registrations s !! endpoint.

(** The reclaim of a full table; [now'] is a later reading of the clock. *)
(* go: internal/protocol/lwm2m/server.go:121-134 (Register) *)
Definition reclaim (now now' : Z) (s : Server) : Server :=
  let due := match lastSweepAt s with None => true | Some t => sweepThrottle <=? now' - t end in
  if due then
    let s := (sweepLocked now s).2 in set_tables (registrations s) (resources s) (Some now) s
  else s.

(* go: internal/protocol/lwm2m/server.go:135-139 (Register) *)
Definition store (endpoint : bytes) (reg : Registration) (s : Server) : Server :=
  set_tables (<[endpoint := reg]> (registrations s))
    (match resources s !! endpoint with
     | Some _ => resources s
     | None => <[endpoint := ∅]> (resources s)
     end) (lastSweepAt s) s.

Definition clamp_lifetime (lifetime : Z) : Z := if maxLifetime <? lifetime then maxLifetime else lifetime.

(* go: internal/protocol/lwm2m/server.go:99-140 (Register) *)
Definition Register (endpoint : bytes) (lifetime : Z) (objs : list ObjectPath) (now now' : Z) (s : Server) :
    result error Registration * Server :=
  let lifetime := if lifetime <=? 0 then defaultLife s else lifetime in
  let reg := mkRegistration endpoint (clamp_lifetime lifetime) objs now now in
  match registrations s !! endpoint with
  | Some _ => (Ok reg, store endpoint reg s)
  | None =>
      if maxRegistrations s <=? Z.of_nat (size (registrations s)) then
        let s := reclaim now now' s in
        if maxRegistrations s <=? Z.of_nat (size (registrations s)) then (Err ErrRegistrationLimit, s)
        else (Ok reg, store endpoint reg s)
      else (Ok reg, store endpoint reg s)
  end.

(* go: internal/protocol/lwm2m/server.go:142-158 (Update) *)
Definition Update (endpoint : bytes) (lifetime now : Z) (s : Server) : result error Registration * Server :=
  match registrations s !! endpoint with
  | None => (Err ErrRegistrationGone, s)
  | Some reg =>
      let lt := if 0 <? lifetime then clamp_lifetime lifetime else Lifetime reg in
      let reg := mkRegistration (Endpoint reg) lt (Objects reg) (CreatedAt reg) now in
      (Ok reg, set_tables (<[endpoint := reg]> (registrations s)) (resources s) (lastSweepAt s) s)
  end.

(* go: internal/protocol/lwm2m/server.go:160-165 (Deregister) *)
Definition Deregister (endpoint : bytes) (s : Server) : Server :=
  set_tables (delete endpoint (registrations s)) (delete endpoint (resources s)) (lastSweepAt s) s.

(** A definition that lists the resource without the write operation. *)
(* go: internal/protocol/lwm2m/server.go:180-187 (Write) *)
Definition read_only (path : ObjectPath) (s : Server) : bool :=
  match objects s !! ObjectID path with
  | None => false
  | Some def =>
      existsb (fun res => (rd_ID res =? ResourceID path) && negb (Allows (rd_Operations res) OpWrite))
        (od_Resources def)
  end.

(** The second component is the call of the [OnWrite] callback. *)
(* go: internal/protocol/lwm2m/server.go:174-205 (Write) *)
Definition Write_ (endpoint : bytes) (path : ObjectPath) (v : bytes) (now : Z) (s : Server) :
    option error * option (bytes * bytes) * Server :=
  match registrations s !! endpoint with
  | None => (Some ErrRegistrationGone, None, s)
  | Some _ =>
      if read_only path s then (Some ErrReadOnly, None, s)
      else
        let rs := default ∅ (resources s !! endpoint) in
        (None, Some (path_String path, v),
         set_tables (registrations s)
           (<[endpoint := <[path_String path := mkRes path v now]> rs]> (resources s)) (lastSweepAt s) s)
  end.

(* go: internal/protocol/lwm2m/server.go:207-216 (Read) *)
Definition Read (endpoint : bytes) (path : ObjectPath) (s : Server) : option Resource :=
  match resources s !! endpoint with
  | None => None
  | Some rs => rs !! path_String path
  end.

(** ** The registry invariant *)

(** The table is bounded, every endpoint has its resources and no other has,
    and every registration expires. *)
Record srv_ok (s : Server) : Prop := {
  so_max : Z.of_nat (size (registrations s)) <= maxRegistrations s;
  so_pos : 0 < maxRegistrations s /\ 0 < defaultLife s;
  so_dom : forall ep, is_Some (resources s !! ep) <-> is_Some (registrations s !! ep);
  so_life : map_Forall (fun _ reg => 0 < Lifetime reg <= maxLifetime) (registrations s)
}.

Lemma NewServer_ok max lifetime : srv_ok (NewServer max lifetime).
Proof.
  split; cbn [NewServer registrations resources maxRegistrations defaultLife].
  - rewrite map_size_empty. unfold defaultMaxRegistrations. destruct (Z.ltb_spec 0 max); lia.
  - unfold defaultMaxRegistrations, second. destruct (Z.ltb_spec 0 max), (Z.ltb_spec 0 lifetime); lia.
  - intros ep. rewrite !lookup_empty. done.
  - apply map_Forall_empty.
Qed.

Lemma clamp_range lifetime : 0 < lifetime -> 0 < clamp_lifetime lifetime <= maxLifetime.
Proof.
  intros. assert (0 < maxLifetime) by done. unfold clamp_lifetime.
  destruct (Z.ltb_spec maxLifetime lifetime); lia.
Qed.

Lemma sweepLocked_ok now s : srv_ok s -> srv_ok (sweepLocked now s).2.
Proof.
  intros [H1 [H2 H2'] H3 H4]. split; cbn; try done.
  - pose proof (map_size_filter (fun kv => Expired kv.2 now = false) (registrations s)). lia.
  - intros ep. rewrite !map_lookup_filter. specialize (H3 ep). unfold expired_at. cbn.
    destruct (registrations s !! ep) as [reg|] eqn:E; destruct (resources s !! ep) as [rs|]; cbn.
    + case_guard; cbn; split; done || eauto.
    + split; [by intros []|]. by destruct H3 as [_ [??]].
    + by destruct H3 as [[??] _].
    + done.
  - intros ep reg Hep. apply map_lookup_filter_Some in Hep as [Hep _]. by eapply H4.
Qed.

Lemma reclaim_ok now now' s : srv_ok s -> srv_ok (reclaim now now' s).
Proof.
  intros Hok. unfold reclaim. destruct (match lastSweepAt s with None => true | Some t => sweepThrottle <=? now' - t end); [|done].
  destruct (sweepLocked_ok now s Hok). by split.
Qed.

Lemma store_ok ep reg s :
  srv_ok s -> 0 < Lifetime reg <= maxLifetime ->
  is_Some (registrations s !! ep) \/ Z.of_nat (size (registrations s)) < maxRegistrations s ->
  srv_ok (store ep reg s).
Proof.
  intros [H1 H2 H3 H4] Hl Hroom. split; cbn; try done.
  - rewrite map_size_insert. destruct (registrations s !! ep); [done|]. destruct Hroom as [[??]|]; [done|]. lia.
  - intros ep'. specialize (H3 ep'). destruct (decide (ep' = ep)) as [->|Hne].
    + rewrite lookup_insert_eq. split; [by eauto|]. intros _.
      destruct (resources s !! ep) as [rs|] eqn:E; [by rewrite E|by rewrite lookup_insert_eq].
    + rewrite (lookup_insert_ne (registrations s)) by done.
      destruct (resources s !! ep); [done|by rewrite lookup_insert_ne].
  - by apply map_Forall_insert_2.
Qed.

Lemma Register_srv_ok ep lt objs now now' s : srv_ok s -> srv_ok (Register ep lt objs now now' s).2.
Proof.
  intros Hok. unfold Register. set (lt' := if lt <=? 0 then defaultLife s else lt).
  set (reg := mkRegistration ep (clamp_lifetime lt') objs now now).
  assert (0 < Lifetime reg <= maxLifetime) as Hreg.
  { apply clamp_range. unfold lt'. destruct (Z.leb_spec lt 0); [apply Hok|lia]. }
  destruct (registrations s !! ep) as [r0|] eqn:E; [apply store_ok; [done|done|left; by rewrite E]|].
  destruct (Z.leb_spec (maxRegistrations s) (Z.of_nat (size (registrations s)))) as [Hf|Hf].
  - pose proof (reclaim_ok now now' s Hok) as Hok'.
    destruct (Z.leb_spec (maxRegistrations (reclaim now now' s)) (Z.of_nat (size (registrations (reclaim now now' s)))));
      [done|apply store_ok; [done|done|by right]].
  - apply store_ok; [done|done|by right].
Qed.

Lemma Update_ok ep lt now s : srv_ok s -> srv_ok (Update ep lt now s).2.
Proof.
  intros Hok. unfold Update. destruct (registrations s !! ep) as [reg|] eqn:E; [|done].
  destruct Hok as [H1 H2 H3 H4]. pose proof (H4 _ _ E) as Hl. split; cbn; try done.
  - rewrite map_size_insert_Some by done. done.
  - intros ep'. rewrite H3. destruct (decide (ep' = ep)) as [->|Hne]; [|by rewrite lookup_insert_ne].
    by rewrite lookup_insert_eq, E.
  - apply map_Forall_insert_2; [|done]. cbn. destruct (Z.ltb_spec 0 lt); [by apply clamp_range|done].
Qed.

Lemma Deregister_ok ep s : srv_ok s -> srv_ok (Deregister ep s).
Proof.
  intros [H1 H2 H3 H4]. split; cbn; try done.
  - assert (size (delete ep (registrations s)) <= size (registrations s))%nat; [|lia].
    rewrite <- !size_dom. apply subseteq_size. rewrite dom_delete_L. set_solver.
  - intros ep'. destruct (decide (ep' = ep)) as [->|Hne]; [by rewrite !lookup_delete_eq|].
    by rewrite !lookup_delete_ne.
  - by apply map_Forall_delete.
Qed.

Lemma Write_ok ep path v now s : srv_ok s -> srv_ok (Write_ ep path v now s).2.
Proof.
  intros Hok. unfold Write_. destruct (registrations s !! ep) as [reg|] eqn:E; [|done].
  destruct (read_only path s); [done|]. destruct Hok as [H1 H2 H3 H4]. split; cbn; try done.
  intros ep'. rewrite <- H3. destruct (decide (ep' = ep)) as [->|Hne]; [|by rewrite lookup_insert_ne].
  rewrite lookup_insert_eq. split; [|by eauto]. intros _. apply H3. by rewrite E.
Qed.

Lemma RegisterObject_ok def s : srv_ok s -> srv_ok (RegisterObject def s).
Proof. by intros [H1 H2 H3 H4]. Qed.

(** ** The text commands *)

(* go: internal/protocol/lwm2m/coap.go:13-13 (ErrInvalidCoAPPayload) *)
Definition ErrInvalidCoAPPayload : error := ErrMsg "invalid lwm2m coap payload".

(* go: internal/protocol/lwm2m/coap.go:153-163 (parseLifetime) *)
Definition parseLifetime (raw : bytes) : result error Z :=
  match Atoi raw with
  | None => Err ErrInvalidCoAPPayload
  | Some n =>
      if (n <? 0) || (maxLifetime / second <? n) then Err ErrInvalidCoAPPayload
      else Ok (i64 (n * second))
  end.

(** The first invalid path is the error. *)
(* go: internal/protocol/lwm2m/coap.go:60-67 (handleRegister) *)
Fixpoint parse_paths (raws : list bytes) : result error (list ObjectPath) :=
  match raws with
  | [] => Ok []
  | raw :: raws =>
      match ParsePath raw with
      | Err e => Err e
      | Ok p => match parse_paths raws with Err e => Err e | Ok ps => Ok (p :: ps) end
      end
  end.

(* go: internal/protocol/lwm2m/coap.go:52-73 (handleRegister) *)
Definition handleRegister (fields : list bytes) (now now' : Z) (s : Server) : result error bytes * Server :=
  match fields with
  | _ :: endpoint :: lt :: raws =>
      match parseLifetime lt with
      | Err e => (Err e, s)
      | Ok lifetime =>
          match parse_paths raws with
          | Err e => (Err e, s)
          | Ok objs =>
              match Register endpoint lifetime objs now now' s with
              | (Err e, s') => (Err e, s')
              | (Ok reg, s') => (Ok (bytes_of_string "registered " ++ Endpoint reg), s')
              end
          end
      end
  | _ => (Err ErrInvalidCoAPPayload, s)
  end.

(* go: internal/protocol/lwm2m/coap.go:75-88 (handleUpdate) *)
Definition handleUpdate (fields : list bytes) (now : Z) (s : Server) : result error bytes * Server :=
  match fields with
  | [_; endpoint; lt] =>
      match parseLifetime lt with
      | Err e => (Err e, s)
      | Ok lifetime =>
          match Update endpoint lifetime now s with
          | (Err e, s') => (Err e, s')
          | (Ok reg, s') => (Ok (bytes_of_string "updated " ++ Endpoint reg), s')
          end
      end
  | _ => (Err ErrInvalidCoAPPayload, s)
  end.

(* go: internal/protocol/lwm2m/coap.go:90-96 (handleDeregister) *)
Definition handleDeregister (fields : list bytes) (s : Server) : result error bytes * Server :=
  match fields with
  | [_; endpoint] => (Ok (bytes_of_string "deregistered " ++ endpoint), Deregister endpoint s)
  | _ => (Err ErrInvalidCoAPPayload, s)
  end.

(* go: internal/protocol/lwm2m/coap.go:98-111 (handleWrite) *)
Definition handleWrite (fields : list bytes) (now : Z) (s : Server) :
    result error bytes * option (bytes * bytes) * Server :=
  match fields with
  | _ :: endpoint :: raw :: v :: vs =>
      match ParsePath raw with
      | Err e => (Err e, None, s)
      | Ok path =>
          match Write_ endpoint path (Join [32] (v :: vs)) now s with
          | (Some e, cb, s') => (Err e, cb, s')
          | (None, cb, s') => (Ok (bytes_of_string "changed " ++ raw), cb, s')
          end
      end
  | _ => (Err ErrInvalidCoAPPayload, None, s)
  end.

(* go: internal/protocol/lwm2m/coap.go:113-126 (handleRead) *)
Definition handleRead (fields : list bytes) (s : Server) : result error bytes :=
  match fields with
  | [_; endpoint; raw] =>
      match ParsePath raw with
      | Err e => Err e
      | Ok path =>
          match Read endpoint path s with
          | None => Err ErrRegistrationGone
          | Some resource => Ok (r_Value resource)
          end
      end
  | _ => Err ErrInvalidCoAPPayload
  end.

Section commands.
Context {HR : MapRange Z}.

(* go: internal/protocol/lwm2m/server.go:64-73 (SupportedObjects) *)
Definition SupportedObjects (s : Server) : list ObjectDefinition := (map_range (objects s)).*2.

(** The identifiers of the definitions are not negative. *)
(* go: internal/protocol/lwm2m/coap.go:134-149 (handleDiscover) *)
Definition discover_lines (obj : ObjectDefinition) : list bytes :=
  (itoa (od_ID obj) ++ [47] ++ od_Name obj ++ [47] ++ od_Version obj) ::
  ((fun res =>
     let flag op c := if Allows (rd_Operations res) op then [c] else [] in
     let ops := flag OpRead 82 ++ flag OpWrite 87 ++ flag OpExecute 69 in
     [32; 32; 47] ++ itoa (od_ID obj) ++ [47] ++ itoa 0 ++ [47] ++ itoa (rd_ID res) ++ [32] ++ rd_Name res ++ [32] ++ ops)
   <$> od_Resources obj).

(* go: internal/protocol/lwm2m/coap.go:128-151 (handleDiscover) *)
Definition handleDiscover (s : Server) : bytes :=
  match SupportedObjects s with
  | [] => bytes_of_string "no objects registered"
  | objs => Join [10] (objs ≫= discover_lines)
  end.

(** The answer, the callback made and the server after; [now] and [now'] are
    the readings of the clock. *)
(* go: internal/protocol/lwm2m/coap.go:29-50 (HandleCoAPPayload) *)
Definition HandleCoAPPayload (payload : bytes) (now now' : Z) (s : Server) :
    result error bytes * option (bytes * bytes) * Server :=
  let fields := Fields payload in
  match fields with
  | [] => (Err ErrInvalidCoAPPayload, None, s)
  | cmd :: _ =>
      let cmd := ToLower cmd in
      let cmd_is w := bool_decide (cmd = bytes_of_string w) in
      if cmd_is "register" then let '(r, s') := handleRegister fields now now' s in (r, None, s')
      else if cmd_is "update" then let '(r, s') := handleUpdate fields now s in (r, None, s')
      else if cmd_is "deregister" then let '(r, s') := handleDeregister fields s in (r, None, s')
      else if cmd_is "write" then handleWrite fields now s
      else if cmd_is "read" then (handleRead fields s, None, s)
      else if cmd_is "discover" then (Ok (handleDiscover s), None, s)
      else (Err (ErrWrap "operation" ErrInvalidCoAPPayload), None, s)
  end.

Lemma HandleCoAPPayload_ok payload now now' s : srv_ok s -> srv_ok (HandleCoAPPayload payload now now' s).2.
Proof.
  intros Hok. unfold HandleCoAPPayload. destruct (Fields payload) as [|cmd fs]; [done|].
  repeat case_bool_decide; [| | | |done|done|done].
  - unfold handleRegister. destruct fs as [|ep [|lt raws]]; [done|done|].
    destruct (parseLifetime lt) as [l|]; [|done]. destruct (parse_paths raws) as [objs|]; [|done].
    pose proof (Register_srv_ok ep l objs now now' s Hok). by destruct (Register ep l objs now now' s) as [[reg|e] s'].
  - unfold handleUpdate. destruct fs as [|ep [|lt [|]]]; [done|done| |done].
    destruct (parseLifetime lt) as [l|]; [|done].
    pose proof (Update_ok ep l now s Hok). by destruct (Update ep l now s) as [[reg|e] s'].
  - unfold handleDeregister. destruct fs as [|ep [|]]; [done| |done]. by apply Deregister_ok.
  - unfold handleWrite. destruct fs as [|ep [|raw [|v vs]]]; [done|done|done|].
    destruct (ParsePath raw) as [path|]; [|done].
    pose proof (Write_ok ep path (Join [32] (v :: vs)) now s Hok).
    by destruct (Write_ ep path (Join [32] (v :: vs)) now s) as [[[e|] cb] s'].
Qed.

(** A run: payloads from the network, and the calls of the owner. *)
Inductive op : Type :=
| Payload (payload : bytes) (now now' : Z)
| Sweep (now : Z)
| AddObject (def : ObjectDefinition).

Definition step (o : op) (s : Server) : Server :=
  match o with
  | Payload payload now now' => (HandleCoAPPayload payload now now' s).2
  | Sweep now => (SweepExpired now s).2
  | AddObject def => RegisterObject def s
  end.
Definition run (ops : list op) (s : Server) : Server := foldl (fun s o => step o s) s ops.

Lemma run_srv_ok ops s : srv_ok s -> srv_ok (run ops s).
Proof.
  revert s. induction ops as [|o ops IH]; intros s Hok; [done|]. cbn [run foldl]. apply IH.
  destruct o; [by apply HandleCoAPPayload_ok|by apply sweepLocked_ok|by apply RegisterObject_ok].
Qed.

(** No peer can grow the registry without bound or keep an entry for ever:
    whatever payloads arrive, the table stays within its maximum, resources are
    kept for exactly the registered endpoints, and every registration has
    expired 30 days after its last refresh. *)
Theorem registry_bounded ops max lifetime :
  let s := run ops (NewServer max lifetime) in
  Z.of_nat (size (registrations s)) <= maxRegistrations s /\
  dom (resources s) = dom (registrations s) /\
  forall ep reg now, registrations s !! ep = Some reg -> UpdatedAt reg + maxLifetime < now -> Expired reg now = true.
Proof.
  intros s. destruct (run_srv_ok ops _ (NewServer_ok max lifetime)) as [H1 H2 H3 H4]. fold s in H1, H2, H3, H4.
  split; [done|]. split; [apply set_eq; intros ep; by rewrite !elem_of_dom|].
  intros ep reg now Hep Hn. pose proof (H4 _ _ Hep) as Hl. cbn in Hl. unfold Expired.
  rewrite (proj2 (Z.leb_gt _ _)) by lia. apply Z.ltb_lt. lia.
Qed.

(** The commands a client sends for one word each. *)
Definition command (ws : list bytes) : bytes := Join [32] ws.

Lemma itoa_printable n : 0 <= n <= max_int64 -> Forall (fun c => 33 <= c <= 126) (itoa n).
Proof.
  intros Hn. eapply Forall_impl; [apply itoa_digits|]. cbn. unfold is_digit. intros c Hc. breflect. lia.
Qed.

(** A path a client can write. *)
Definition path_ok (p : ObjectPath) : Prop :=
  0 <= ObjectID p <= max_int64 /\ 0 <= InstanceID p <= max_int64 /\ 0 <= ResourceID p <= max_int64.

Lemma path_word p : path_ok p -> word (path_String p).
Proof.
  intros (H1 & H2 & H3). split; [done|]. unfold path_String.
  apply Forall_cons; split; [lia|]. apply Forall_app; split; [by apply itoa_printable|].
  apply Forall_cons; split; [lia|]. apply Forall_app; split; [by apply itoa_printable|].
  apply Forall_cons; split; [lia|]. by apply itoa_printable.
Qed.

Lemma path_String_inj p q : path_ok p -> path_ok q -> path_String p = path_String q -> p = q.
Proof.
  intros (P1 & P2 & P3) (Q1 & Q2 & Q3) E. pose proof (proj1 (path_roundtrip p P1 P2 P3)) as Hp.
  rewrite E, (proj1 (path_roundtrip q Q1 Q2 Q3)) in Hp. by injection Hp.
Qed.

Lemma keyword_word (w : string) : 
  bool_decide (bytes_of_string w <> [] /\ Forall (fun c => 33 <= c <= 126) (bytes_of_string w)) = true -> word (bytes_of_string w).
Proof. by intros H%bool_decide_eq_true. Qed.

(** What a client writes to a writable resource of its registration is what any
    later read command answers, with the callback called once with it, and no
    other resource changes; a write to a read-only resource or without a
    registration is refused and changes nothing. *)
Theorem write_then_read ep p vs s now now' later later' :
  word ep -> path_ok p -> Forall word vs -> vs <> [] ->
  let write := HandleCoAPPayload (command (bytes_of_string "write" :: ep :: path_String p :: vs)) now now' s in
  let s' := write.2 in
  let read := (HandleCoAPPayload (command [bytes_of_string "read"; ep; path_String p]) later later' s').1.1 in
  match registrations s !! ep with
  | None => write = (Err ErrRegistrationGone, None, s)
  | Some _ =>
      if read_only p s then write = (Err ErrReadOnly, None, s)
      else
        write.1 = (Ok (bytes_of_string "changed " ++ path_String p), Some (path_String p, Join [32] vs)) /\
        read = Ok (Join [32] vs) /\
        forall ep' q, path_ok q -> (ep', q) <> (ep, p) -> Read ep' q s' = Read ep' q s
  end.
Proof.
  intros Hep Hp Hvs Hne write s' read.
  assert (word (bytes_of_string "write") /\ word (bytes_of_string "read")) as [Hw Hr]
    by (split; apply keyword_word; by vm_compute).
  pose proof (path_word p Hp) as Hpw. destruct Hp as (P1 & P2 & P3).
  assert (write = handleWrite (bytes_of_string "write" :: ep :: path_String p :: vs) now s) as Ew
    by (unfold write, HandleCoAPPayload, command; by rewrite Fields_Join by auto).
  assert (read = handleRead [bytes_of_string "read"; ep; path_String p] s') as Er
    by (unfold read, HandleCoAPPayload, command; by rewrite Fields_Join by auto).
  destruct vs as [|v vs]; [done|]. cbn [handleWrite handleRead] in Ew, Er.
  rewrite (proj1 (path_roundtrip p P1 P2 P3)) in Ew, Er. unfold Write_ in Ew.
  destruct (registrations s !! ep) as [reg|]; [|exact Ew].
  destruct (read_only p s); [exact Ew|].
  unfold s' in *. rewrite Ew. rewrite Ew in Er. unfold Read in *. cbn [fst snd set_tables resources] in *.
  split; [done|]. split.
  - rewrite Er. by rewrite !lookup_insert_eq.
  - intros ep' q Hq Hneq. destruct (decide (ep' = ep)) as [->|Hne']; [|by rewrite lookup_insert_ne].
    rewrite lookup_insert_eq, lookup_insert_ne; [by destruct (resources s !! ep)|].
    intros E. apply path_String_inj in E; [congruence|done|done].
Qed.
End commands.

(** ** The capacity decision *)

(** A sweep that removes nothing found nothing expired. *)
Lemma map_filter_id_inv (now : Z) (m : gmap bytes Registration) :
  (size m <= size (filter (fun kv => Expired kv.2 now = false) m))%nat ->
  map_Forall (fun _ reg => Expired reg now = false) m.
Proof.
  intros Hs k reg Hk. destruct (Expired reg now) eqn:E; [|done].
  assert (filter (fun kv => Expired kv.2 now = false) m ⊆ delete k m) as Hsub.
  { apply map_subseteq_spec. intros k' r' Hk'. apply map_lookup_filter_Some in Hk' as [Hk' He]. cbn in He.
    rewrite lookup_delete_ne; [done|]. intros <-. congruence. }
  apply subseteq_dom, subseteq_size in Hsub. rewrite !size_dom in Hsub.
  rewrite map_size_delete, Hk in Hsub. assert (0 < size m)%nat; [|lia].
  assert (size m <> 0%nat) as Hz; [|lia]. intros Hz. apply map_size_empty_inv in Hz. subst m. by rewrite lookup_empty in Hk.
Qed.

(** A registration is refused exactly when its endpoint is new, the table is
    full, and either the last sweep is less than a minute old or no entry has
    expired; a refusal adds nothing.  Otherwise the endpoint is registered with
    a lifetime in (0, 30 days]. *)
Theorem register_refused_exactly ep lt objs now now' s :
  srv_ok s ->
  let due := match lastSweepAt s with None => true | Some t => sweepThrottle <=? now' - t end in
  ((Register ep lt objs now now' s).1 = Err ErrRegistrationLimit <->
     registrations s !! ep = None /\ Z.of_nat (size (registrations s)) = maxRegistrations s /\
     (due = true -> map_Forall (fun _ reg => Expired reg now = false) (registrations s))) /\
  (forall reg, (Register ep lt objs now now' s).1 = Ok reg ->
     registrations (Register ep lt objs now now' s).2 !! ep = Some reg /\ 0 < Lifetime reg <= maxLifetime /\
     Endpoint reg = ep /\ Objects reg = objs /\ UpdatedAt reg = now).
Proof.
  intros Hok due. pose proof Hok as [H1 [H2 H2'] H3 H4]. unfold Register.
  set (lt' := if lt <=? 0 then defaultLife s else lt).
  assert (0 < clamp_lifetime lt' <= maxLifetime) as Hl.
  { apply clamp_range. unfold lt'. destruct (Z.leb_spec lt 0); lia. }
  assert (forall s0 reg', Ok (mkRegistration ep (clamp_lifetime lt') objs now now) = @Ok error _ reg' ->
    registrations (store ep (mkRegistration ep (clamp_lifetime lt') objs now now) s0) !! ep = Some reg' /\
    0 < Lifetime reg' <= maxLifetime /\ Endpoint reg' = ep /\ Objects reg' = objs /\ UpdatedAt reg' = now) as Hst.
  { intros s0 reg' [= <-]. cbn. by rewrite lookup_insert_eq. }
  destruct (registrations s !! ep) as [r0|] eqn:E.
  { split; [|apply Hst]. split; [done|]. by intros [? _]. }
  destruct (Z.leb_spec (maxRegistrations s) (Z.of_nat (size (registrations s)))) as [Hf|Hf];
    [|split; [|apply Hst]; split; [done|]; intros (_ & ? & _); lia].
  assert (maxRegistrations (reclaim now now' s) = maxRegistrations s) as Em by (unfold reclaim; by case_match).
  assert (maxRegistrations s <= Z.of_nat (size (registrations (reclaim now now' s))) <->
    (due = true -> map_Forall (fun _ reg => Expired reg now = false) (registrations s))) as Hdue.
  { unfold reclaim. fold due. destruct due; [|by split; [intros _|lia]]. cbn.
    split.
    - intros Hs _. apply map_filter_id_inv. lia.
    - intros Hall. rewrite map_filter_id by (intros k r Hk; by apply (Hall eq_refl k)). done. }
  rewrite Em. destruct (Z.leb_spec (maxRegistrations s) (Z.of_nat (size (registrations (reclaim now now' s))))) as [Hg|Hg].
  - split; [|done]. split; [|done]. intros _. split; [done|]. split; [lia|]. by apply Hdue.
  - split; [|apply Hst]. split; [done|]. intros (_ & _ & Hd). apply Hdue in Hd. lia.
Qed.

(** A server with one registration and room for one. *)
Definition one_full : Server := (Register (bytes_of_string "dev1") 60000000000 [] 5 5 (NewServer 1 0)).2.

Lemma one_full_ok : srv_ok one_full.
Proof. apply Register_srv_ok, NewServer_ok. Qed.

Lemma register_refused_exactly_witness :
  (Register (bytes_of_string "dev2") 0 [] 6 6 one_full).1 = Err ErrRegistrationLimit.
Proof.
  destruct (register_refused_exactly (bytes_of_string "dev2") 0 [] 6 6 one_full one_full_ok) as [[_ H] _].
  apply H. split; [by vm_compute|]. split; [by vm_compute|]. intros _ k reg Hk.
  assert (registrations one_full =
    <[bytes_of_string "dev1" := mkRegistration (bytes_of_string "dev1") 60000000000 [] 5 5]> ∅) as E
    by (vm_compute; reflexivity).
  rewrite E in Hk. apply lookup_insert_Some in Hk as [[<- <-]|[_ Hk]]; [by vm_compute|by rewrite lookup_empty in Hk].
Defined.

Lemma write_then_read_witness :
  let HR := map_range_std (K := Z) in
  let s' := (HandleCoAPPayload (bytes_of_string "write dev1 /3/0/14 +02 00") 7 7 one_full).2 in
  (HandleCoAPPayload (bytes_of_string "read dev1 /3/0/14") 8 8 s').1.1 = Ok (bytes_of_string "+02 00").
Proof.
  intros HR s'.
  pose proof (write_then_read (HR := HR) (bytes_of_string "dev1") (mkPath 3 0 14) [bytes_of_string "+02"; bytes_of_string "00"]
    one_full 7 7 8 8 ltac:(apply keyword_word; vm_compute; reflexivity) ltac:(by vm_compute)
    ltac:(repeat (apply Forall_cons; split; [apply keyword_word; vm_compute; reflexivity|]); apply Forall_nil, I) ltac:(done)) as H.
  cbv zeta in H.
  destruct (registrations one_full !! bytes_of_string "dev1") eqn:E; [|vm_compute in E; discriminate].
  destruct (read_only (mkPath 3 0 14) one_full) eqn:E'; [vm_compute in E'; discriminate|].
  exact (proj1 (proj2 H)).
Defined.
