(* ===== verification/Config.v ===== *)
(** * Config: [internal/app/config.go]

    The configuration: decoding a document over the defaults, the environment
    overrides, and validation.  The JSON text is read by [encoding/json] into the
    fields the document sets ([ConfigDoc]); laying them over the defaults is
    modelled, including that an array is decoded into the elements the slice
    already has. *)
From S2P Require Import Prelude Bytes Core Duration.
From S2P Require Blacklist.
Local Open Scope Z_scope.
Local Open Scope list_scope.

Abbreviation B := bytes_of_string.

(** ** The data *)

(* go: internal/app/config.go:27-33 (RateLimitConfig) *)
Record RateLimitConfig : Type := mkRate { PerSecond : Z; Window : bytes }.

(** A nil slice is told from an empty one, and a nil [*bool] from a set one. *)
(* go: internal/app/config.go:50-63 (ProtocolConfig) *)
Record ProtocolConfig : Type := mkProto {
  Name : bytes;
  Enabled : option bool;
  Addr : bytes;
  Path : bytes;
  Mode : bytes;
  MaxMessageBytes : Z;
  TLSCertFile : bytes;
  TLSKeyFile : bytes;
  TLSClientCAFile : bytes;
  TLSClientAuth : bytes;
  TLSMinVersion : bytes;
  AllowedOrigins : option (list bytes)
}.

(* go: internal/app/config.go:17-25 (Config) *)
Record Config : Type := mkConfig {
  ShutdownTimeout : bytes;
  HealthAddr : bytes;
  MetricsAddr : bytes;
  LogLevel : bytes;
  Blacklist_ : list bytes;
  RateLimit : option RateLimitConfig;
  Protocols : list ProtocolConfig
}.

#[export] Instance RateLimitConfig_eq_dec : EqDecision RateLimitConfig.
Proof. solve_decision. Defined.
#[export] Instance ProtocolConfig_eq_dec : EqDecision ProtocolConfig.
Proof. solve_decision. Defined.
#[export] Instance Config_eq_dec : EqDecision Config.
Proof. solve_decision. Defined.

(** A protocol with only a name and an address. *)
Definition bare (name addr : bytes) : ProtocolConfig := mkProto name None addr [] [] 0 [] [] [] [] [] None.

(* go: internal/app/config.go:65-75 (DefaultConfig) *)
Definition DefaultConfig : Config :=
  mkConfig (B "10s") (B "127.0.0.1:18081") (B "127.0.0.1:18080") (B "info") [] None
    [bare (B "tcp") (B "127.0.0.1:18000")].

(* go: internal/app/config.go:204-206 (IsEnabled) *)
Definition IsEnabled (p : ProtocolConfig) : bool := match Enabled p with None => true | Some b => b end.

(** ** Durations and levels *)

Definition second : Z := 1000000000.

Definition cfg_error (what : string) : error := ErrMsg what.

(* go: internal/app/config.go:35-48 (WindowDuration) *)
Definition WindowDuration (r : RateLimitConfig) : result error Z :=
  if bool_decide (TrimSpace (Window r) = []) then Ok second
  else
    match ParseDuration (Window r) with
    | None => Err (cfg_error "invalid rate_limit.window")
    | Some w => if w <=? 0 then Err (cfg_error "rate_limit.window must be positive") else Ok w
    end.

(* go: internal/app/config.go:113-125 (ShutdownDuration) *)
Definition ShutdownDuration (c : Config) : result error Z :=
  if bool_decide (ShutdownTimeout c = []) then Ok (10 * second)
  else
    match ParseDuration (ShutdownTimeout c) with
    | None => Err (cfg_error "invalid shutdown_timeout")
    | Some t => if t <=? 0 then Err (cfg_error "shutdown_timeout must be positive") else Ok t
    end.

(** [slog.Level] *)
Definition LevelDebug : Z := -4.
Definition LevelInfo : Z := 0.
Definition LevelWarn : Z := 4.
Definition LevelError : Z := 8.

(** [s] is one of the words. *)
Definition one_of (s : bytes) (words : list string) : bool := existsb (fun w => bool_decide (s = B w)) words.

(* go: internal/core/observability.go:109-125 (ParseLevel) *)
Definition ParseLevel (name : bytes) : result error Z :=
  let s := ToLower (TrimSpace name) in
  if one_of s [""; "info"]%string then Ok LevelInfo
  else if one_of s ["debug"]%string then Ok LevelDebug
  else if one_of s ["warn"; "warning"]%string then Ok LevelWarn
  else if one_of s ["error"]%string then Ok LevelError
  else Err (cfg_error "unknown log level").

(** [tls.ClientAuthType] and the versions. *)
Inductive ClientAuthType : Type :=
| NoClientCert | RequestClientCert | RequireAnyClientCert | VerifyClientCertIfGiven | RequireAndVerifyClientCert.

(* go: internal/app/config.go:427-442 (parseTLSClientAuth) *)
Definition parseTLSClientAuth (value : bytes) : result error ClientAuthType :=
  let s := ToLower (TrimSpace value) in
  if one_of s [""; "none"; "no_client_cert"]%string then Ok NoClientCert
  else if one_of s ["request"; "request_client_cert"]%string then Ok RequestClientCert
  else if one_of s ["require_any"; "require_any_client_cert"]%string then Ok RequireAnyClientCert
  else if one_of s ["verify_if_given"; "verify_client_cert_if_given"]%string then Ok VerifyClientCertIfGiven
  else if one_of s ["require_and_verify"; "require_and_verify_client_cert"]%string then Ok RequireAndVerifyClientCert
  else Err (cfg_error "invalid tls_client_auth").

Definition VersionTLS12 : Z := 771.
Definition VersionTLS13 : Z := 772.

(* go: internal/app/config.go:413-425 (parseTLSMinVersion) *)
Definition parseTLSMinVersion (version : bytes) : Z :=
  if one_of (TrimSpace version) ["1.3"; "13"]%string then VersionTLS13 else VersionTLS12.

(** ** Validation *)

(** [strings.ToLower(strings.TrimSpace(name))] *)
Definition norm_name (name : bytes) : bytes := ToLower (TrimSpace name).

Definition empty (s : bytes) : bool := bool_decide (s = []).

(** The checks of one enabled protocol, in order, and the names seen. *)
(* go: internal/app/config.go:151-196 (Validate) *)
Definition check_protocol (seen : gset bytes) (p : ProtocolConfig) : result error (gset bytes) :=
  let name := norm_name (Name p) in
  let tls_capable := one_of name ["tcp"; "quic"; "coap"; "udp"]%string in
  if empty name then Err (cfg_error "protocol name is required")
  else if decide (name ∈ seen) then Err (cfg_error "duplicate protocol")
  else
    let seen := {[name]} ∪ seen in
    if empty (Addr p) then Err (cfg_error "addr is required")
    else if MaxMessageBytes p <? 0 then Err (cfg_error "max_message_bytes must not be negative")
    else if xorb (empty (TLSCertFile p)) (empty (TLSKeyFile p)) then
      Err (cfg_error "tls_cert_file and tls_key_file must be supplied together")
    else if negb (empty (TLSCertFile p)) && negb tls_capable then Err (cfg_error "does not support tls_cert_file")
    else if negb (empty (TLSClientCAFile p)) && negb tls_capable then Err (cfg_error "does not support tls_client_ca_file")
    else if negb (empty (TLSClientAuth p)) && negb tls_capable then Err (cfg_error "does not support tls_client_auth")
    else if negb (empty (TLSClientCAFile p)) && empty (TLSCertFile p) then
      Err (cfg_error "tls_client_ca_file requires tls_cert_file and tls_key_file")
    else
      match (if negb (empty (TLSClientAuth p)) then
               match parseTLSClientAuth (TLSClientAuth p) with
               | Err e => Some e
               | Ok _ => if empty (TLSCertFile p) then Some (cfg_error "tls_client_auth requires tls_cert_file and tls_key_file") else None
               end
             else None) with
      | Some e => Err e
      | None =>
          if bool_decide (name = B "quic") && (empty (TLSCertFile p) || empty (TLSKeyFile p)) then
            Err (cfg_error "tls_cert_file and tls_key_file are required")
          else if one_of name ["tcp"; "udp"; "http"; "websocket"; "coap"; "grpc-web"; "quic"]%string then Ok seen
          else Err (cfg_error "unsupported protocol")
      end.

(** The protocols in order; [enabled] counts those that passed. *)
Fixpoint check_protocols (seen : gset bytes) (enabled : Z) (l : list ProtocolConfig) : option error :=
  match l with
  | [] => if enabled =? 0 then Some (cfg_error "at least one protocol must be enabled") else None
  | p :: l' =>
      if negb (IsEnabled p) then check_protocols seen enabled l'
      else match check_protocol seen p with
           | Err e => Some e
           | Ok seen => check_protocols seen (enabled + 1) l'
           end
  end.

Definition err_of {A} (r : result error A) : option error := match r with Err e => Some e | Ok _ => None end.

(* go: internal/app/config.go:127-202 (Validate) *)
Definition Validate (c : Config) : option error :=
  match err_of (ShutdownDuration c) with
  | Some e => Some e
  | None =>
      match err_of (ParseLevel (LogLevel c)) with
      | Some e => Some e
      | None =>
          match Blacklist.ValidateBlacklist (Blacklist_ c) with
          | Some e => Some e
          | None =>
              match (match RateLimit c with
                     | None => None
                     | Some r => if PerSecond r <=? 0 then Some (cfg_error "rate_limit.per_second must be positive")
                                 else err_of (WindowDuration r)
                     end) with
              | Some e => Some e
              | None => check_protocols ∅ 0 (Protocols c)
              end
          end
      end
  end.

(** ** Decoding over the defaults *)

(** What a JSON document sets: none for a field that is absent (or null, where
    null changes nothing); the inner none is a null that clears. *)
Record ProtocolDoc : Type := mkProtoDoc {
  d_name : option bytes;
  d_enabled : option (option bool);
  d_addr : option bytes;
  d_path : option bytes;
  d_mode : option bytes;
  d_max : option Z;
  d_cert : option bytes;
  d_key : option bytes;
  d_ca : option bytes;
  d_auth : option bytes;
  d_min : option bytes;
  d_origins : option (option (list bytes))
}.

Record ConfigDoc : Type := mkDoc {
  doc_shutdown : option bytes;
  doc_health : option bytes;
  doc_metrics : option bytes;
  doc_level : option bytes;
  doc_blacklist : option (list bytes);
  doc_rate : option (option (option Z * option bytes));
  doc_protocols : option (list ProtocolDoc)
}.

Definition decode_protocol (d : ProtocolDoc) (p : ProtocolConfig) : ProtocolConfig :=
  mkProto (default (Name p) (d_name d)) (default (Enabled p) (d_enabled d)) (default (Addr p) (d_addr d))
    (default (Path p) (d_path d)) (default (Mode p) (d_mode d)) (default (MaxMessageBytes p) (d_max d))
    (default (TLSCertFile p) (d_cert d)) (default (TLSKeyFile p) (d_key d)) (default (TLSClientCAFile p) (d_ca d))
    (default (TLSClientAuth p) (d_auth d)) (default (TLSMinVersion p) (d_min d)) (default (AllowedOrigins p) (d_origins d)).

Definition zero_protocol : ProtocolConfig := bare [] [].

(** An array is decoded element by element into the slice's elements, and into
    zero values after them. *)
Fixpoint decode_protocols (docs : list ProtocolDoc) (base : list ProtocolConfig) : list ProtocolConfig :=
  match docs with
  | [] => []
  | d :: docs' => decode_protocol d (hd zero_protocol base) :: decode_protocols docs' (tl base)
  end.

Definition decode_rate (d : option (option Z * option bytes)) (r : option RateLimitConfig) : option RateLimitConfig :=
  match d with
  | None => None
  | Some (n, w) =>
      let r := default (mkRate 0 []) r in Some (mkRate (default (PerSecond r) n) (default (Window r) w))
  end.

Definition decode_doc (d : ConfigDoc) (c : Config) : Config :=
  mkConfig (default (ShutdownTimeout c) (doc_shutdown d)) (default (HealthAddr c) (doc_health d))
    (default (MetricsAddr c) (doc_metrics d)) (default (LogLevel c) (doc_level d))
    (default (Blacklist_ c) (doc_blacklist d))
    (match doc_rate d with None => RateLimit c | Some r => decode_rate r (RateLimit c) end)
    (match doc_protocols d with None => Protocols c | Some l => decode_protocols l (Protocols c) end).

Section loading.
(** [encoding/json] reading the text, and the file system. *)
Variable read_json : bytes -> result error ConfigDoc.
Variable ReadFile : bytes -> result error bytes.

(* go: internal/app/config.go:98-111 (decodeConfig) *)
Definition decodeConfig (data : bytes) : result error Config :=
  match read_json data with
  | Err e => Err e
  | Ok d => Ok (decode_doc d DefaultConfig)
  end.

(** ** The environment *)

Variable lookup : string -> option bytes.

(* go: internal/app/config.go:305-310 (envOrDefault) *)
Definition envOrDefault (key : string) (fallback : bytes) : bytes :=
  match lookup key with
  | Some value => if empty value then fallback else value
  | None => fallback
  end.

(* go: internal/app/config.go:312-326 (splitCSVEnv) *)
Definition splitCSVEnv (key : string) : option (list bytes) :=
  match lookup key with
  | None => None
  | Some value => Some (List.filter (fun s => negb (empty s)) (map TrimSpace (split_on 44 [] value)))
  end.

Definition override (new old : bytes) : bytes := if empty new then old else new.

(* go: internal/app/config.go:338-374 (mergeProtocol) *)
Definition mergeProtocol (base o : ProtocolConfig) : ProtocolConfig :=
  mkProto (Name o)
    (match Enabled o with Some _ => Enabled o | None => Enabled base end)
    (override (Addr o) (Addr base))
    (override (Path o) (Path base))
    (override (Mode o) (Mode base))
    (if 0 <? MaxMessageBytes o then MaxMessageBytes o else MaxMessageBytes base)
    (override (TLSCertFile o) (TLSCertFile base))
    (override (TLSKeyFile o) (TLSKeyFile base))
    (override (TLSClientCAFile o) (TLSClientCAFile base))
    (override (TLSClientAuth o) (TLSClientAuth base))
    (override (TLSMinVersion o) (TLSMinVersion base))
    (match AllowedOrigins o with
     | None => AllowedOrigins base
     | Some [] => None
     | Some l => Some l
     end).

(* go: internal/app/config.go:328-336 (upsertProtocol) *)
Fixpoint upsert (o : ProtocolConfig) (l : list ProtocolConfig) : list ProtocolConfig :=
  match l with
  | [] => [o]
  | p :: l' => if EqualFold (Name p) (Name o) then mergeProtocol p o :: l' else p :: upsert o l'
  end.

Definition set_protocols (c : Config) l : Config :=
  mkConfig (ShutdownTimeout c) (HealthAddr c) (MetricsAddr c) (LogLevel c) (Blacklist_ c) (RateLimit c) l.
Definition set_rate (c : Config) r : Config :=
  mkConfig (ShutdownTimeout c) (HealthAddr c) (MetricsAddr c) (LogLevel c) (Blacklist_ c) r (Protocols c).

Definition upsertProtocol (c : Config) (o : ProtocolConfig) : Config := set_protocols c (upsert o (Protocols c)).

Definition given (key : string) : bool := match lookup key with Some _ => true | None => false end.
Definition value_of (key : string) : bytes := default [] (lookup key).

(** The scalar fields and the block list. *)
(* go: internal/app/config.go:209-223 (applyEnv) *)
Definition env_scalars (c : Config) : Config :=
  mkConfig (default (ShutdownTimeout c) (lookup "SHARK_SHUTDOWN_TIMEOUT")) (default (HealthAddr c) (lookup "SHARK_HEALTH_ADDR"))
    (default (MetricsAddr c) (lookup "SHARK_METRICS_ADDR")) (default (LogLevel c) (lookup "SHARK_LOG_LEVEL"))
    (default (Blacklist_ c) (splitCSVEnv "SHARK_BLACKLIST")) (RateLimit c) (Protocols c).

(* go: internal/app/config.go:224-240 (applyEnv) *)
Definition env_rate (c : Config) : result error Config :=
  let rate := lookup "SHARK_RATE_LIMIT_PER_SECOND" in
  let win := lookup "SHARK_RATE_LIMIT_WINDOW" in
  match rate, win with
  | None, None => Ok c
  | _, _ =>
      let r := default (mkRate 1 []) (RateLimit c) in
      match (match rate with
             | None => Some r
             | Some text => (fun n => mkRate n (Window r)) <$> Atoi (TrimSpace text)
             end) with
      | None => Err (cfg_error "invalid SHARK_RATE_LIMIT_PER_SECOND")
      | Some r => Ok (set_rate c (Some (mkRate (PerSecond r) (default (Window r) win))))
      end
  end.

(* go: internal/app/config.go:241-249 (applyEnv) *)
Definition env_http (c : Config) : Config :=
  let origins := splitCSVEnv "SHARK_HTTP_ALLOWED_ORIGINS" in
  if given "SHARK_HTTP_ADDR" || match origins with Some _ => true | None => false end then
    upsertProtocol c (mkProto (B "http") None (value_of "SHARK_HTTP_ADDR") [] [] 0 [] [] [] [] [] origins)
  else c.

(* go: internal/app/config.go:250-266 (applyEnv) *)
Definition env_tcp (c : Config) : Config :=
  if given "SHARK_TCP_ADDR" || given "SHARK_TCP_CERT_FILE" || given "SHARK_TCP_KEY_FILE" ||
     given "SHARK_TCP_CLIENT_CA_FILE" || given "SHARK_TCP_CLIENT_AUTH" || given "SHARK_TCP_TLS_MIN_VERSION" then
    upsertProtocol c (mkProto (B "tcp") None (value_of "SHARK_TCP_ADDR") [] [] 0 (value_of "SHARK_TCP_CERT_FILE")
      (value_of "SHARK_TCP_KEY_FILE") (value_of "SHARK_TCP_CLIENT_CA_FILE") (value_of "SHARK_TCP_CLIENT_AUTH")
      (value_of "SHARK_TCP_TLS_MIN_VERSION") None)
  else c.

(* go: internal/app/config.go:267-274 (applyEnv) *)
Definition env_ws (c : Config) : Config :=
  match lookup "SHARK_WS_ADDR" with
  | None => c
  | Some value =>
      upsertProtocol c (mkProto (B "websocket") None value (envOrDefault "SHARK_WS_PATH" (B "/ws")) [] 0 [] [] [] [] []
        (splitCSVEnv "SHARK_WS_ALLOWED_ORIGINS"))
  end.

(** [strconv.ParseInt(max, 10, 64)] is [Atoi] on a 64-bit machine. *)
(* go: internal/app/config.go:275-290 (applyEnv) *)
Definition env_grpcweb (c : Config) : result error Config :=
  match lookup "SHARK_GRPCWEB_ADDR" with
  | None => Ok c
  | Some value =>
      match (match lookup "SHARK_GRPCWEB_MAX_MESSAGE_BYTES" with None => Some 0 | Some max => Atoi max end) with
      | None => Err (cfg_error "invalid SHARK_GRPCWEB_MAX_MESSAGE_BYTES")
      | Some max =>
          Ok (upsertProtocol c (mkProto (B "grpc-web") None value (envOrDefault "SHARK_GRPCWEB_PATH" (B "/grpc")) [] max
            [] [] [] [] [] (splitCSVEnv "SHARK_GRPCWEB_ALLOWED_ORIGINS")))
      end
  end.

(* go: internal/app/config.go:291-301 (applyEnv) *)
Definition env_quic (c : Config) : Config :=
  match lookup "SHARK_QUIC_ADDR" with
  | None => c
  | Some value =>
      upsertProtocol c (mkProto (B "quic") None value [] [] 0 (envOrDefault "SHARK_QUIC_CERT_FILE" [])
        (envOrDefault "SHARK_QUIC_KEY_FILE" []) (envOrDefault "SHARK_QUIC_CLIENT_CA_FILE" [])
        (envOrDefault "SHARK_QUIC_CLIENT_AUTH" []) (envOrDefault "SHARK_QUIC_TLS_MIN_VERSION" []) None)
  end.

Local Open Scope shark_scope.

(* go: internal/app/config.go:208-303 (applyEnv) *)
Definition applyEnv (c : Config) : result error Config :=
  let? c := env_rate (env_scalars c) in
  let? c := env_grpcweb (env_ws (env_tcp (env_http c))) in
  Ok (env_quic c).

(* go: internal/app/config.go:77-96 (LoadConfig) *)
Definition LoadConfig (path : bytes) : result error Config :=
  let? c :=
    (if empty path then Ok DefaultConfig
     else match ReadFile path with
          | Err e => Err (ErrWrap "read config" e)
          | Ok data => match decodeConfig data with Err e => Err (ErrWrap "parse config" e) | Ok c => Ok c end
          end) in
  let? c := applyEnv c in
  match Validate c with Some e => Err e | None => Ok c end.
End loading.

(** ** Allowed origins *)

(** The origins kept, and whether one was a star. *)
Definition add_origin (st : gset bytes * bool) (o : bytes) : gset bytes * bool :=
  let o := TrimSpace o in
  if empty o then st else if bool_decide (o = B "*") then (st.1, true) else ({[o]} ∪ st.1, st.2).
Definition origin_set (allowed : list bytes) : gset bytes * bool := fold_left add_origin allowed (∅, false).

(** [origin] is the request's Origin header, empty without one. *)
(* go: internal/app/app.go:293-317 (allowedOriginChecker) *)
Definition allowedOriginChecker (allowed : list bytes) (origin : bytes) : bool :=
  let '(s, all) := origin_set allowed in all || bool_decide (origin ∈ s).

Lemma origin_set_spec allowed st :
  let st' := fold_left add_origin allowed st in
  (forall o, o ∈ st'.1 <-> o ∈ st.1 \/ o <> [] /\ o <> B "*" /\ Exists (fun a => TrimSpace a = o) allowed) /\
  (st'.2 = true <-> st.2 = true \/ Exists (fun a => TrimSpace a = B "*") allowed).
Proof.
  revert st. induction allowed as [|a l IH]; intros st; cbn [fold_left]; cbv zeta.
  - split; [intros o|]; rewrite Exists_nil; tauto.
  - destruct (IH (add_origin st a)) as [H1 H2]. split; [intros o; rewrite H1|rewrite H2]; rewrite Exists_cons;
      clear; unfold add_origin, empty; cbv zeta; change (B "*") with [42]; repeat case_bool_decide; cbn [fst snd];
      rewrite ?elem_of_union, ?elem_of_singleton; destruct st; cbn [fst snd]; intuition congruence.
Qed.

(** An origin is let in exactly if it is listed, up to surrounding space, or the
    list has a star; a request without an origin only with a star. *)
Theorem origin_allowed_exact allowed origin :
  allowedOriginChecker allowed origin = true <->
  Exists (fun a => TrimSpace a = B "*") allowed \/
  origin <> [] /\ Exists (fun a => TrimSpace a = origin) allowed.
Proof.
  unfold allowedOriginChecker, origin_set. destruct (origin_set_spec allowed (∅, false)) as [H1 H2].
  destruct (fold_left _ allowed _) as [s all]. cbn [fst snd] in *.
  rewrite orb_true_iff, bool_decide_eq_true, H1, H2.
  destruct (decide (origin = B "*")) as [->|]; set_solver.
Qed.

(** ** What validation promises *)

Definition tls_names : list string := ["tcp"; "quic"; "coap"; "udp"]%string.
Definition protocol_names : list string := ["tcp"; "udp"; "http"; "websocket"; "coap"; "grpc-web"; "quic"]%string.

(** A protocol section that validation accepts. *)
Record protocol_ok (p : ProtocolConfig) : Prop := {
  po_name : one_of (norm_name (Name p)) protocol_names = true;
  po_addr : Addr p <> [];
  po_max : 0 <= MaxMessageBytes p;
  po_pair : TLSCertFile p = [] <-> TLSKeyFile p = [];
  po_tls : TLSCertFile p <> [] \/ TLSClientCAFile p <> [] \/ TLSClientAuth p <> [] ->
    one_of (norm_name (Name p)) tls_names = true;
  po_client : TLSClientCAFile p <> [] \/ TLSClientAuth p <> [] -> TLSCertFile p <> [];
  po_auth : is_ok (parseTLSClientAuth (TLSClientAuth p)) = true;
  po_quic : norm_name (Name p) = B "quic" -> TLSCertFile p <> []
}.

Definition enabled_names (l : list ProtocolConfig) : list bytes := map (fun p => norm_name (Name p)) (List.filter IsEnabled l).

(** A configuration that validation accepts. *)
Record config_ok (c : Config) : Prop := {
  co_shutdown : exists t, ShutdownDuration c = Ok t /\ 0 < t <= max_int64;
  co_level : is_ok (ParseLevel (LogLevel c)) = true;
  co_blacklist : Forall Blacklist.entry_valid (Blacklist_ c);
  co_rate : forall r, RateLimit c = Some r -> 0 < PerSecond r /\ exists w, WindowDuration r = Ok w /\ 0 < w <= max_int64;
  co_protocols : Forall (fun p => IsEnabled p = true -> protocol_ok p) (Protocols c);
  co_names : NoDup (enabled_names (Protocols c)) /\ enabled_names (Protocols c) <> []
}.

Lemma empty_true s : empty s = true <-> s = [].
Proof. apply bool_decide_eq_true. Qed.
Lemma empty_false s : empty s = false <-> s <> [].
Proof. apply bool_decide_eq_false. Qed.

Lemma parseTLSClientAuth_empty : is_ok (parseTLSClientAuth []) = true.
Proof. done. Qed.

Lemma one_of_nil words : "" ∉ words -> one_of [] words = false.
Proof.
  unfold one_of. intros H. induction words as [|w words IH]; [done|]. rewrite not_elem_of_cons in H. destruct H as [Hw Hr].
  cbn [existsb]. rewrite IH by done. rewrite bool_decide_eq_false_2; [done|]. by destruct w.
Qed.

(** The same as a test. *)
Definition protocol_okb (p : ProtocolConfig) : bool :=
  let cert := negb (empty (TLSCertFile p)) in
  let ca := negb (empty (TLSClientCAFile p)) in
  let auth := negb (empty (TLSClientAuth p)) in
  one_of (norm_name (Name p)) protocol_names && negb (empty (Addr p)) && (0 <=? MaxMessageBytes p) &&
  Bool.eqb cert (negb (empty (TLSKeyFile p))) && implb (cert || ca || auth) (one_of (norm_name (Name p)) tls_names) &&
  implb (ca || auth) cert && is_ok (parseTLSClientAuth (TLSClientAuth p)) &&
  implb (bool_decide (norm_name (Name p) = B "quic")) cert.

Lemma nonempty_iff s : negb (empty s) = true <-> s <> [].
Proof. rewrite negb_true_iff. apply empty_false. Qed.

Lemma eqb_nonempty s t : Bool.eqb (negb (empty s)) (negb (empty t)) = true <-> (s = [] <-> t = []).
Proof. rewrite <- (empty_true s), <- (empty_true t). destruct (empty s), (empty t); cbn; intuition congruence. Qed.

Lemma protocol_ok_iff p : protocol_ok p <-> protocol_okb p = true.
Proof.
  unfold protocol_okb. cbv zeta.
  rewrite !andb_true_iff, eqb_nonempty, !implb_true_iff, !orb_true_iff, Z.leb_le, bool_decide_eq_true, !nonempty_iff.
  split; [intros []; tauto|intros (((((((? & ?) & ?) & ?) & ?) & ?) & ?) & ?); split; tauto].
Qed.

(** A protocol passes exactly if its name is new and it is well formed. *)
Lemma check_protocol_spec seen p seen' :
  check_protocol seen p = Ok seen' <->
  norm_name (Name p) ∉ seen /\ protocol_ok p /\ seen' = {[norm_name (Name p)]} ∪ seen.
Proof.
  rewrite protocol_ok_iff. unfold check_protocol, protocol_okb. fold tls_names protocol_names.
  set (n := norm_name (Name p)).
  assert (empty n = true -> one_of n protocol_names = false) as Hn.
  { intros E%empty_true. rewrite E. apply one_of_nil. apply (bool_decide_unpack _). by vm_compute. }
  assert (empty (TLSClientAuth p) = true -> is_ok (parseTLSClientAuth (TLSClientAuth p)) = true) as Ha
    by (intros E%empty_true; rewrite E; apply parseTLSClientAuth_empty).
  destruct (empty n); [split; [done|]; rewrite Hn by done; intros (_ & ? & _); done|]. clear Hn.
  destruct (decide (n ∈ seen)); [split; [done|tauto]|]. rewrite Z.leb_antisym.
  assert (forall b, b && false = false) as Hf by (intros []; done).
  destruct (empty (Addr p)); [split; [done|]; cbn [negb]; rewrite !Hf; by intros (_ & ? & _)|].
  destruct (MaxMessageBytes p <? 0); [split; [done|]; cbn [negb]; rewrite !Hf; by intros (_ & ? & _)|].
  destruct (empty (TLSCertFile p)), (empty (TLSKeyFile p)); cbn [negb xorb Bool.eqb];
    try (split; [done|]; rewrite !Hf; by intros (_ & ? & _));
  destruct (one_of n tls_names), (one_of n protocol_names), (bool_decide (n = B "quic")), (empty (TLSClientCAFile p)),
    (empty (TLSClientAuth p)); try specialize (Ha eq_refl);
    destruct (parseTLSClientAuth (TLSClientAuth p)) as [k|e]; cbn in *; try done;
    (split; [intros H; (discriminate || (injection H as <-; done))|intros (_ & H & ->); (discriminate || done)]).
Qed.

Lemma check_protocols_spec seen enabled l :
  0 <= enabled ->
  check_protocols seen enabled l = None <->
  Forall (fun p => IsEnabled p = true -> protocol_ok p) l /\ NoDup (enabled_names l) /\
  (forall n, n ∈ enabled_names l -> n ∉ seen) /\ (0 < enabled \/ enabled_names l <> []).
Proof.
  unfold enabled_names. revert seen enabled. induction l as [|p l IH]; intros seen enabled He; cbn [check_protocols List.filter].
  - destruct (Z.eqb_spec enabled 0) as [->|]; split; try done.
    + intros (_ & _ & _ & [|]); [lia|done].
    + intros _. split; [done|]. split; [constructor|]. split; [intros m Hm; by inversion Hm|left; lia].
  - rewrite Forall_cons. destruct (IsEnabled p) eqn:Ep; cbn [negb].
    + cbn [map]. destruct (check_protocol seen p) as [seen'|e] eqn:Ec.
      * apply check_protocol_spec in Ec as (Hns & Hok & ->). rewrite IH by lia. rewrite NoDup_cons. split.
        -- intros (Hf & Hnd & Hs & _). split; [done|]. split; [split; [|done]; intros Hin; apply Hs in Hin; set_solver|].
           split; [|by right]. intros m [->|Hm]%elem_of_cons; [done|]. apply Hs in Hm. set_solver.
        -- intros ((_ & Hf) & (Hni & Hnd) & Hs & _). split; [done|]. split; [done|]. split; [|left; lia].
           intros m Hm. rewrite not_elem_of_union, not_elem_of_singleton. split; [congruence|]. apply Hs. by right.
      * split; [done|]. intros ((Hok & _) & _ & Hs & _).
        assert (check_protocol seen p = Ok ({[norm_name (Name p)]} ∪ seen)) as E; [|congruence].
        apply check_protocol_spec. split; [apply Hs; by left|]. split; [by apply Hok|done].
    + rewrite IH by done. naive_solver.
Qed.

Lemma err_of_None {A} (r : result error A) : err_of r = None <-> is_ok r = true.
Proof. by destruct r. Qed.

Lemma ShutdownDuration_ok c : is_ok (ShutdownDuration c) = true -> exists t, ShutdownDuration c = Ok t /\ 0 < t <= max_int64.
Proof.
  unfold ShutdownDuration. case_bool_decide; [exists (10 * second); by vm_compute|].
  destruct (ParseDuration _) as [t|] eqn:E; [|done]. destruct (Z.leb_spec t 0); [done|]. intros _. exists t.
  apply ParseDuration_range in E. unfold in_i64 in E. split; [done|lia].
Qed.

Lemma WindowDuration_ok r : is_ok (WindowDuration r) = true -> exists w, WindowDuration r = Ok w /\ 0 < w <= max_int64.
Proof.
  unfold WindowDuration. case_bool_decide; [exists second; by vm_compute|].
  destruct (ParseDuration _) as [t|] eqn:E; [|done]. destruct (Z.leb_spec t 0); [done|]. intros _. exists t.
  apply ParseDuration_range in E. unfold in_i64 in E. split; [done|lia].
Qed.

Lemma Validate_spec c : Validate c = None <-> config_ok c.
Proof.
  unfold Validate. destruct (err_of (ShutdownDuration c)) eqn:E1.
  { split; [done|]. intros [(t & Et & _) _ _ _ _ _]. by rewrite Et in E1. }
  destruct (err_of (ParseLevel (LogLevel c))) eqn:E2.
  { split; [done|]. intros [_ El _ _ _ _]. apply err_of_None in El. congruence. }
  apply err_of_None in E1, E2. pose proof (Blacklist.parseBlacklist_ok (Blacklist_ c)) as Hb. unfold Blacklist.ValidateBlacklist.
  destruct (Blacklist.parseBlacklist (Blacklist_ c)) as [bl|e]; cbn in Hb.
  2: { split; [done|]. intros [_ _ Hbl _ _ _]. apply Hb in Hbl. done. }
  set (rate_err := match RateLimit c with None => None | Some r => _ end).
  assert (rate_err = None <-> forall r, RateLimit c = Some r -> 0 < PerSecond r /\ exists w, WindowDuration r = Ok w /\ 0 < w <= max_int64) as Hr.
  { unfold rate_err. destruct (RateLimit c) as [r|]; [|split; [by intros _ r|done]]. destruct (Z.leb_spec (PerSecond r) 0) as [Hp|Hp].
    - split; [done|]. intros H. destruct (H r eq_refl). lia.
    - rewrite err_of_None. split.
      + intros Hw r' [= <-]. split; [done|by apply WindowDuration_ok].
      + intros H. by destruct (H r eq_refl) as (_ & w & -> & _). }
  clearbody rate_err. destruct rate_err as [e|]; [split; [done|]; intros [_ _ _ Hrl _ _]; by apply Hr in Hrl|].
  rewrite check_protocols_spec by lia. split.
  - intros (Hf & Hnd & _ & Hne). split; [by apply ShutdownDuration_ok|done|by apply Hb|by apply Hr|done|].
    split; [done|]. by destruct Hne as [|]; [lia|].
  - intros [_ _ _ _ Hf [Hnd Hne]]. split; [done|]. split; [done|]. split; [intros; set_solver|by right].
Qed.

Lemma enabled_names_perm l l' :
  List.filter IsEnabled l ≡ₚ List.filter IsEnabled l' -> enabled_names l ≡ₚ enabled_names l'.
Proof. apply Permutation_map. Qed.

Lemma enabled_Forall (P : ProtocolConfig -> Prop) l :
  Forall (fun p => IsEnabled p = true -> P p) l <-> Forall P (List.filter IsEnabled l).
Proof.
  rewrite !Forall_forall. split.
  - intros H p Hp%list_elem_of_In. apply filter_In in Hp as [Hp He]. apply H; [by apply list_elem_of_In|done].
  - intros H p Hp He. apply H, list_elem_of_In, filter_In. split; [by apply list_elem_of_In|done].
Qed.

(** What validation accepts depends on the enabled sections, in any order. *)
Lemma config_ok_sections c l :
  List.filter IsEnabled l ≡ₚ List.filter IsEnabled (Protocols c) -> config_ok (set_protocols c l) <-> config_ok c.
Proof.
  intros E. pose proof (enabled_names_perm _ _ E) as En.
  assert (forall l1 l2, List.filter IsEnabled l1 ≡ₚ List.filter IsEnabled l2 -> enabled_names l1 ≡ₚ enabled_names l2 ->
    Forall (fun p => IsEnabled p = true -> protocol_ok p) l1 -> NoDup (enabled_names l1) /\ enabled_names l1 <> [] ->
    Forall (fun p => IsEnabled p = true -> protocol_ok p) l2 /\ NoDup (enabled_names l2) /\ enabled_names l2 <> []) as H.
  { intros l1 l2 E12 En12 H1 [H2 H3]. split; [apply enabled_Forall; rewrite <- E12; by apply enabled_Forall|].
    split; [by rewrite <- En12|]. intros Hn. rewrite Hn in En12. by apply Permutation_nil_r in En12. }
  split; intros [H1 H2 H3 H4 H5 H6].
  - destruct (H l (Protocols c) E En H5 H6). by split.
  - destruct (H (Protocols c) l (symmetry E) (symmetry En) H5 H6). by split.
Qed.

(** C31: Validation accepts a configuration exactly if: its shutdown timeout is
    positive and fits an int64, its log level is known, every entry of its block list
    parses, a rate limit and its window are positive, at least one section is
    enabled, no two enabled ones have the same name, and each enabled one names a
    supported protocol, has an address and no negative message limit, has its TLS
    files in pairs and only where the transport has TLS, client authentication only
    with a certificate and of a known kind, and, for QUIC, a certificate.  Sections
    that are not enabled, and the order of those that are, make no difference. *)
Theorem validate_exact c :
  (Validate c = None <-> config_ok c) /\
  (forall l, List.filter IsEnabled l ≡ₚ List.filter IsEnabled (Protocols c) ->
    Validate (set_protocols c l) = None <-> Validate c = None).
Proof.
  split; [apply Validate_spec|]. intros l E. rewrite !Validate_spec. by apply config_ok_sections.
Qed.

(** With no variable set the environment changes nothing. *)
Lemma applyEnv_unset lookup c : (forall k, lookup k = None) -> applyEnv lookup c = Ok c.
Proof.
  intros H. unfold applyEnv, env_rate, env_scalars, splitCSVEnv. rewrite !H.
  unfold env_grpcweb, env_ws, env_tcp, env_http, env_quic, given, splitCSVEnv. rewrite !H. by destruct c.
Qed.

(** The first section of a name, after an upsert. *)
Lemma upsert_hit o l1 p l2 :
  Forall (fun q => EqualFold (Name q) (Name o) = false) l1 -> EqualFold (Name p) (Name o) = true ->
  upsert o (l1 ++ p :: l2) = l1 ++ mergeProtocol p o :: l2.
Proof.
  induction 1 as [|q l1 Hq _ IH]; intros Hp; cbn [upsert app]; [by rewrite Hp|]. rewrite Hq. f_equal. by apply IH.
Qed.

(** Overriding the WebSocket address from the environment resets a path set
    in the file: with SHARK_WS_ADDR given and SHARK_WS_PATH not, the section's
    path becomes /ws whatever it was, because the default is passed as if it were
    an override. *)
Theorem ws_addr_env_resets_path lookup c l1 p l2 addr :
  Protocols c = l1 ++ p :: l2 ->
  Forall (fun q => EqualFold (Name q) (B "websocket") = false) l1 -> EqualFold (Name p) (B "websocket") = true ->
  lookup "SHARK_WS_ADDR"%string = Some addr -> lookup "SHARK_WS_PATH"%string = None ->
  exists p', Protocols (env_ws lookup c) = l1 ++ p' :: l2 /\ Path p' = B "/ws" /\
    (addr <> [] -> Addr p' = addr) /\ Enabled p' = Enabled p /\ TLSCertFile p' = TLSCertFile p.
Proof.
  intros Ec Hl Hp Ea Ew. unfold env_ws. rewrite Ea. unfold upsertProtocol. cbn [set_protocols Protocols].
  rewrite Ec, upsert_hit by done. eexists. split; [done|]. cbn [mergeProtocol Path Addr Enabled TLSCertFile].
  unfold envOrDefault. rewrite Ew. split; [done|]. split; [|done]. intros Hne. unfold override.
  assert (empty addr = false) as -> by by apply empty_false. done.
Qed.

Definition env_of (l : list (string * bytes)) (k : string) : option bytes :=
  snd <$> find (fun kv => bool_decide (kv.1 = k)) l.

Definition ws_config : Config :=
  set_protocols DefaultConfig [mkProto (B "WebSocket") None (B ":9000") (B "/custom") [] 0 [] [] [] [] [] None].

Lemma ws_addr_env_resets_path_witness :
  exists p', Protocols (env_ws (env_of [("SHARK_WS_ADDR", B ":9100")%string]) ws_config) = [p'] /\ Path p' = B "/ws".
Proof.
  destruct (ws_addr_env_resets_path (env_of [("SHARK_WS_ADDR", B ":9100")%string]) ws_config []
    (mkProto (B "WebSocket") None (B ":9000") (B "/custom") [] 0 [] [] [] [] [] None) [] (B ":9100"))
    as (p' & H1 & H2 & _); [done|constructor|by vm_compute|done|done|].
  exists p'. by split.
Defined.

Lemma decode_fresh docs i q dq :
  docs !! i = Some dq -> decode_protocols docs [] !! i = Some q ->
  (d_name dq = None -> Name q = []) /\ (d_addr dq = None -> Addr q = []).
Proof.
  revert i. induction docs as [|d docs IH]; intros i Hi Hl; [done|]. destruct i as [|i]; cbn in Hi, Hl; [|by eapply IH].
  injection Hi as ->. injection Hl as <-. cbn. split; intros E; by rewrite E.
Qed.

(** The first protocol of a configuration file inherits what it leaves out
    from the built-in tcp protocol: decoding an array reuses the slice's
    elements, so a first section without a name is a tcp section and one without
    an address listens on 127.0.0.1:18000, and such a file passes validation
    where any later section of the same form is refused. *)
Theorem first_protocol_inherits_default read_json data d docs pd :
  read_json data = Ok d -> doc_protocols d = Some (pd :: docs) ->
  exists c p l, decodeConfig read_json data = Ok c /\ Protocols c = p :: l /\
    (d_name pd = None -> Name p = B "tcp") /\ (d_addr pd = None -> Addr p = B "127.0.0.1:18000") /\
    (forall i q dq, docs !! i = Some dq -> l !! i = Some q ->
      (d_name dq = None -> Name q = []) /\ (d_addr dq = None -> Addr q = [])).
Proof.
  intros Ed Ep. unfold decodeConfig. rewrite Ed.
  exists (decode_doc d DefaultConfig), (decode_protocol pd (bare (B "tcp") (B "127.0.0.1:18000"))), (decode_protocols docs []).
  split; [done|]. split; [unfold decode_doc; cbn [Protocols]; by rewrite Ep|].
  split; [intros E; cbn; by rewrite E|]. split; [intros E; cbn; by rewrite E|]. apply decode_fresh.
Qed.

Lemma first_protocol_inherits_default_witness :
  let d := mkDoc None None None None None None
    (Some [mkProtoDoc (Some (B "udp")) None None None None None None None None None None None]) in
  exists c, decodeConfig (fun _ => Ok d) [] = Ok c /\ Validate c = None /\
    map (fun p => (Name p, Addr p)) (Protocols c) = [(B "udp", B "127.0.0.1:18000")].
Proof.
  set (pd := mkProtoDoc (Some (B "udp")) None None None None None None None None None None None).
  intros d. destruct (first_protocol_inherits_default (fun _ => Ok d) [] d [] pd eq_refl eq_refl) as (c & p & l & E & _).
  exists c. split; [exact E|]. injection E as <-. split; by vm_compute.
Defined.
