(* ===== verification/Reload.v ===== *)
(** * Reload: [internal/app/reload.go]

    Applying a new configuration to a running application: the comparison of the
    parts that need a restart, and the all-or-nothing application of the rest to
    the block list, the rate limiter, the log level and the stored
    configuration. *)
From S2P Require Import Prelude Bytes Core Config.
From S2P Require Blacklist RateLimit.
Local Open Scope Z_scope.
Local Open Scope list_scope.

(* go: internal/app/reload.go:14-19 (ErrListenChangeRequiresRestart) *)
Definition ErrListenChangeRequiresRestart : error := ErrMsg "app: listen configuration changes require a restart".

(** The parts of the application a reload reaches; [app_level] is the logger's. *)
(* go: internal/app/app.go:19-44 (App) *)
Record App : Type := mkApp {
  app_Config : Config;
  app_blacklist : option Blacklist.Blacklist;
  app_rateLimit : option RateLimit.RateLimit;
  app_level : Z
}.

(** The sections by name; a later section of a name replaces an earlier one. *)
(* go: internal/app/reload.go:165-174 (enabledProtocols) *)
Definition enabledProtocols (l : list ProtocolConfig) : gmap bytes ProtocolConfig :=
  fold_left (fun m p => if IsEnabled p then <[norm_name (Name p) := p]> m else m) l ∅.

Section reload.
Context `{!MapRange bytes}.

(** The first difference found, by the order of a map's range. *)
(* go: internal/app/reload.go:142-163 (protocolsDiff) *)
Definition protocolsDiff (running next : list ProtocolConfig) : bytes :=
  let current := enabledProtocols running in
  let incoming := enabledProtocols next in
  let changed :=
    omap (fun np => match current !! np.1 with
                    | None => Some (B "protocols." ++ np.1 ++ B " (added)")
                    | Some old => if decide (old = np.2) then None else Some (B "protocols." ++ np.1)
                    end) (map_range incoming) in
  match changed with
  | d :: _ => d
  | [] =>
      match List.filter (fun np => bool_decide (incoming !! np.1 = None)) (map_range current) with
      | np :: _ => B "protocols." ++ np.1 ++ B " (removed)"
      | [] => []
      end
  end.

(* go: internal/app/reload.go:126-140 (listenDiff) *)
Definition listenDiff (running next : Config) : bytes :=
  let changed :=
    (if decide (HealthAddr running = HealthAddr next) then [] else [B "health_addr"]) ++
    (if decide (MetricsAddr running = MetricsAddr next) then [] else [B "metrics_addr"]) ++
    (match protocolsDiff (Protocols running) (Protocols next) with [] => [] | d => [d] end) in
  Join (B ", ") changed.

Definition need_restart : error := ErrWrap "listen configuration" ErrListenChangeRequiresRestart.

(** The new state and the error; the state is the old one on an error. *)
(* go: internal/app/reload.go:41-95 (Reload) *)
Definition Reload (cfg : Config) (a : App) : option error * App :=
  match Validate cfg with
  | Some e => (Some e, a)
  | None =>
      match ParseLevel (LogLevel cfg) with
      | Err e => (Some e, a)
      | Ok level =>
          match (match RateLimit cfg with None => Ok second | Some r => WindowDuration r end) with
          | Err e => (Some e, a)
          | Ok window =>
              match Blacklist.ValidateBlacklist (Blacklist_ cfg) with
              | Some e => (Some e, a)
              | None =>
                  if xorb (bool_decide (app_rateLimit a = None)) (bool_decide (RateLimit cfg = None)) then
                    (Some need_restart, a)
                  else if negb (bool_decide (listenDiff (app_Config a) cfg = [])) then (Some need_restart, a)
                  else
                    let '(err, bl) :=
                      match app_blacklist a with
                      | None => (None, None)
                      | Some p => let '(e, p) := Blacklist.Replace (Blacklist_ cfg) p in (e, Some p)
                      end in
                    match err with
                    | Some e => (Some e, mkApp (app_Config a) bl (app_rateLimit a) (app_level a))
                    | None =>
                        let rl :=
                          match app_rateLimit a, RateLimit cfg with
                          | Some l, Some r => Some (RateLimit.SetLimit (PerSecond r) window l)
                          | l, _ => l
                          end in
                        (None, mkApp cfg bl rl level)
                    end
              end
          end
      end
  end.

(* go: internal/app/reload.go:108-113 (CurrentConfig) *)
Definition CurrentConfig (a : App) : Config := app_Config a.

(* go: internal/app/reload.go:115-124 (App.ShutdownDuration) *)
Definition app_ShutdownDuration (a : App) : Z :=
  match ShutdownDuration (CurrentConfig a) with Err _ => 10 * second | Ok t => t end.

(* go: internal/app/reload.go:97-106 (ReloadFile) *)
Definition ReloadFile read_json ReadFile lookup (path : bytes) (a : App) : option error * App :=
  match LoadConfig read_json ReadFile lookup path with
  | Err e => (Some e, a)
  | Ok cfg => Reload cfg a
  end.

(** ** New *)

(** The application before its servers are registered: the block list is always
    there, the limiter only if configured. *)
(* go: internal/app/app.go:46-85 (New) *)
Definition New (cfg : Config) : result error App :=
  match Validate cfg with
  | Some e => Err e
  | None =>
      match ParseLevel (LogLevel cfg) with
      | Err e => Err e
      | Ok level =>
          let bl := Blacklist.NewBlacklist (Blacklist_ cfg) in
          match RateLimit cfg with
          | None => Ok (mkApp cfg (Some bl) None level)
          | Some r =>
              match WindowDuration r with
              | Err e => Err e
              | Ok w => Ok (mkApp cfg (Some bl) (Some (RateLimit.NewRateLimit (PerSecond r) w)) level)
              end
          end
      end
  end.

(** ** Differences *)

Lemma omap_nil {A C} (f : A -> option C) l : omap f l = [] <-> Forall (fun x => f x = None) l.
Proof.
  induction l as [|x l IH]; csimpl; [done|]. rewrite Forall_cons, <- IH. destruct (f x); naive_solver.
Qed.

Lemma protocolsDiff_nil running next :
  protocolsDiff running next = [] <-> enabledProtocols running = enabledProtocols next.
Proof.
  unfold protocolsDiff. set (m := enabledProtocols running). set (m' := enabledProtocols next). split.
  - destruct (omap _ _) as [|d l] eqn:Eo.
    2: { intros ->. assert ([] ∈ [] :: l) as Hin by left. rewrite <- Eo in Hin.
         apply list_elem_of_omap in Hin as ([n p] & _ & E). cbn in E. destruct (m !! n) as [old|]; [destruct (decide _)|]; done. }
    apply omap_nil in Eo. rewrite Forall_forall in Eo.
    destruct (List.filter _ _) as [|np l] eqn:Ef; [|by destruct np]. intros _.
    apply map_eq. intros n. destruct (m' !! n) as [p|] eqn:En.
    + pose proof En as Hp. apply elem_of_map_range, Eo in Hp. cbn in Hp. destruct (m !! n) as [old|]; [|done].
      destruct (decide (old = p)); [congruence|done].
    + destruct (m !! n) as [p|] eqn:Em; [|done]. exfalso. apply elem_of_map_range in Em.
      assert ((n, p) ∈ List.filter (fun np => bool_decide (m' !! np.1 = None)) (map_range m)) as Hx.
      { apply list_elem_of_In, filter_In. split; [by apply list_elem_of_In|]. cbn. by rewrite bool_decide_eq_true_2. }
      rewrite Ef in Hx. by inversion Hx.
  - intros E. rewrite E. rewrite (proj2 (omap_nil _ _)).
    2: { apply Forall_forall. intros [n p] Hn%elem_of_map_range. cbn. by rewrite Hn, decide_True. }
    destruct (List.filter _ _) as [|np l] eqn:Ef; [done|]. assert (np ∈ np :: l) as Hin by left. rewrite <- Ef in Hin.
    apply list_elem_of_In, filter_In in Hin as [Hin Hn]. destruct np as [n p].
    apply list_elem_of_In, elem_of_map_range in Hin. cbn in Hn. apply bool_decide_eq_true in Hn. congruence.
Qed.

Lemma protocolsDiff_empty_or running next : protocolsDiff running next = [] \/ exists c s, protocolsDiff running next = c :: s.
Proof. destruct (protocolsDiff running next); eauto. Qed.

Lemma listenDiff_nil running next :
  listenDiff running next = [] <->
  HealthAddr running = HealthAddr next /\ MetricsAddr running = MetricsAddr next /\
  enabledProtocols (Protocols running) = enabledProtocols (Protocols next).
Proof.
  rewrite <- protocolsDiff_nil. unfold listenDiff.
  destruct (decide (HealthAddr running = HealthAddr next)), (decide (MetricsAddr running = MetricsAddr next)),
    (protocolsDiff_empty_or (Protocols running) (Protocols next)) as [->|(c & s & ->)]; cbn; naive_solver.
Qed.

(** Distinct names: a reordering has the same sections. *)
Lemma enabledProtocols_lookup l n p :
  NoDup (enabled_names l) ->
  (enabledProtocols l !! n = Some p <-> p ∈ l /\ IsEnabled p = true /\ norm_name (Name p) = n).
Proof.
  unfold enabledProtocols, enabled_names. revert n p. induction l as [|q l IH] using rev_ind; intros n p Hnd.
  - cbn. rewrite lookup_empty. set_solver.
  - rewrite fold_left_app. cbn [fold_left].
    rewrite List.filter_app, map_app, NoDup_app in Hnd. destruct Hnd as (Hnd & Hdis & _). specialize (IH) with (1 := Hnd).
    destruct (IsEnabled q) eqn:Eq.
    + rewrite lookup_insert_Some, IH, elem_of_app, list_elem_of_singleton. cbn [List.filter] in Hdis. rewrite Eq in Hdis. split.
      * intros [[<- <-]|(Hne & Hin & He & Hn)]; [auto|auto].
      * intros ([Hin| ->] & He & Hn); [|by left]. right. split; [|auto]. intros Hqn.
        apply (Hdis n); [|cbn; rewrite <- Hqn; by left]. apply list_elem_of_In, in_map_iff. exists p. split; [done|].
        apply filter_In. split; [by apply list_elem_of_In|done].
    + rewrite IH, elem_of_app, list_elem_of_singleton. split; [tauto|]. intros ([Hin| ->] & He & Hn); [auto|congruence].
Qed.

Lemma enabledProtocols_perm l l' :
  NoDup (enabled_names l) -> l ≡ₚ l' -> enabledProtocols l = enabledProtocols l'.
Proof.
  intros Hnd Hp. assert (NoDup (enabled_names l')) as Hnd'.
  { unfold enabled_names in *. assert (List.filter IsEnabled l ≡ₚ List.filter IsEnabled l') as <-; [|done].
    clear Hnd. induction Hp as [|p l1 l2 _ IH|p q l1|l1 l2 l3 _ IH1 _ IH2]; cbn; [done| | |by etrans].
    - destruct (IsEnabled p); [by constructor|done].
    - destruct (IsEnabled p), (IsEnabled q); try done. constructor. }
  apply map_eq. intros n. apply option_eq. intros p. rewrite !enabledProtocols_lookup by done. by rewrite Hp.
Qed.

(** ** Theorems *)

(** Reload is all or nothing.  It fails exactly if the new configuration is
    invalid, or switches the rate limiter on or off, or differs in the health or
    metrics address or in an enabled protocol (compared by name, so reordering
    the sections is no difference); and then nothing of the application has
    changed.  When it succeeds, the block list is the one the new entries build,
    the limiter has the new rate and window, the log level and the stored
    configuration are the new ones, and no listener setting has moved. *)
Theorem reload_all_or_nothing cfg a :
  app_blacklist a <> None ->
  let same_listeners :=
    HealthAddr (app_Config a) = HealthAddr cfg /\ MetricsAddr (app_Config a) = MetricsAddr cfg /\
    enabledProtocols (Protocols (app_Config a)) = enabledProtocols (Protocols cfg) in
  let '(err, a') := Reload cfg a in
  (err = None <-> Validate cfg = None /\ (app_rateLimit a = None <-> RateLimit cfg = None) /\ same_listeners) /\
  (err <> None -> a' = a) /\
  (err = None ->
    app_Config a' = cfg /\ app_blacklist a' = Some (Blacklist.NewBlacklist (Blacklist_ cfg)) /\
    ParseLevel (LogLevel cfg) = Ok (app_level a') /\
    (forall r l, RateLimit cfg = Some r -> app_rateLimit a = Some l ->
      exists w, WindowDuration r = Ok w /\ app_rateLimit a' = Some (RateLimit.SetLimit (PerSecond r) w l))).
Proof.
  intros Hbl same. unfold Reload. pose proof (Validate_spec cfg) as Hv.
  destruct (Validate cfg) as [e|]; [split; [by split; [|intros []]|done]|].
  destruct Hv as [Hok _]. specialize (Hok eq_refl). destruct Hok as [_ Hlev Hblk Hrate _ _].
  destruct (ParseLevel (LogLevel cfg)) as [level|e]; [|done].
  assert (exists w, match RateLimit cfg with None => Ok second | Some r => WindowDuration r end = Ok w /\
    forall r, RateLimit cfg = Some r -> WindowDuration r = Ok w) as (w & -> & Hw).
  { destruct (RateLimit cfg) as [r|]; [|by exists second]. destruct (Hrate r eq_refl) as (_ & w & Ew & _).
    exists w. split; [done|]. by intros r' [= <-]. }
  pose proof (proj2 (Blacklist.parseBlacklist_ok (Blacklist_ cfg)) Hblk) as Hp.
  unfold Blacklist.ValidateBlacklist. destruct (Blacklist.parseBlacklist (Blacklist_ cfg)) as [bs|e] eqn:Eb; [|done].
  assert (xorb (bool_decide (app_rateLimit a = None)) (bool_decide (RateLimit cfg = None)) = false <->
    (app_rateLimit a = None <-> RateLimit cfg = None)) as Hx.
  { destruct (app_rateLimit a), (RateLimit cfg); cbn; naive_solver. }
  destruct (xorb _ _); [split; [split; [done|]; intros (_ & H & _); by apply Hx in H|done]|].
  pose proof (listenDiff_nil (app_Config a) cfg) as Hd. fold same in Hd.
  case_bool_decide as Ed; cbn [negb].
  2: { split; [split; [done|]; intros (_ & _ & H); by apply Hd in H|done]. }
  destruct (app_blacklist a) as [p|]; [|done]. unfold Blacklist.Replace. rewrite Eb. cbn [fst snd].
  split; [split; [|done]; intros _; split; [done|split; [by apply Hx|by apply Hd]]|].
  split; [done|]. intros _. cbn [app_Config app_blacklist app_level app_rateLimit].
  split; [done|]. split; [unfold Blacklist.NewBlacklist; by rewrite Eb|]. split; [done|].
  intros r l Er El. exists w. split; [by apply Hw|]. by rewrite Er, El.
Qed.

(** A new application accepts a reload of its own configuration, and of one that
    lists the same sections in another order. *)
Theorem reload_reordered cfg cfg' a :
  New cfg = Ok a -> Validate cfg' = None -> Protocols cfg ≡ₚ Protocols cfg' ->
  HealthAddr cfg = HealthAddr cfg' -> MetricsAddr cfg = MetricsAddr cfg' -> (RateLimit cfg = None <-> RateLimit cfg' = None) ->
  exists a', Reload cfg' a = (None, a') /\ app_Config a' = cfg' /\ app_blacklist a' = Some (Blacklist.NewBlacklist (Blacklist_ cfg')).
Proof.
  unfold New. pose proof (Validate_spec cfg) as Hv0. destruct (Validate cfg); [done|].
  destruct Hv0 as [Hok0 _]. specialize (Hok0 eq_refl). destruct (ParseLevel (LogLevel cfg)) as [level|]; [|done].
  intros Hnew Hv Hperm Hh Hm Hr.
  assert (app_Config a = cfg /\ app_blacklist a = Some (Blacklist.NewBlacklist (Blacklist_ cfg)) /\
    (app_rateLimit a = None <-> RateLimit cfg = None)) as (Ec & Eb & Er).
  { destruct (RateLimit cfg) as [r|]; [destruct (WindowDuration r); [|done]|]; injection Hnew as <-; done. }
  assert (listenDiff (app_Config a) cfg' = []) as Hd.
  { apply listenDiff_nil. rewrite Ec. split; [done|]. split; [done|]. apply enabledProtocols_perm; [apply Hok0|done]. }
  unfold Reload. pose proof (proj1 (Validate_spec cfg') Hv) as [_ Hlev Hblk Hrate _ _]. rewrite Hv.
  destruct (ParseLevel (LogLevel cfg')) as [level'|]; [|done].
  assert (exists w, match RateLimit cfg' with None => Ok second | Some r => WindowDuration r end = Ok w) as (w & ->).
  { destruct (RateLimit cfg') as [r|]; [|by eexists]. destruct (Hrate r eq_refl) as (_ & w & -> & _). by eexists. }
  pose proof (proj2 (Blacklist.parseBlacklist_ok (Blacklist_ cfg')) Hblk) as Hp.
  unfold Blacklist.ValidateBlacklist, Blacklist.NewBlacklist, Blacklist.Replace.
  destruct (Blacklist.parseBlacklist (Blacklist_ cfg')) as [bs|]; [|done].
  assert (xorb (bool_decide (app_rateLimit a = None)) (bool_decide (RateLimit cfg' = None)) = false) as ->.
  { rewrite <- Er in Hr. destruct (app_rateLimit a), (RateLimit cfg'); cbn; naive_solver. }
  rewrite Hd, Eb. cbn. by eexists.
Qed.
End reload.

Definition reload_config : Config :=
  mkConfig (B "5s") (B "127.0.0.1:18081") (B "127.0.0.1:18080") (B "Warn") (B <$> ["10.0.0.0/8"]%string)
    (Some (mkRate 5 (B "2s"))) [bare (B "udp") (B ":1"); bare (B "TCP ") (B ":2")].
Definition reload_next : Config :=
  mkConfig (B "6s") (B "127.0.0.1:18081") (B "127.0.0.1:18080") (B "debug") (B <$> ["192.168.0.1"]%string)
    (Some (mkRate 9 (B "3s"))) [bare (B "TCP ") (B ":2"); bare (B "udp") (B ":1")].

Definition sample_app : App :=
  mkApp reload_config (Some (Blacklist.NewBlacklist (Blacklist_ reload_config))) (Some (RateLimit.NewRateLimit 5 (2 * second))) LevelWarn.

Lemma reload_all_or_nothing_witness :
  let '(err, a') := Reload (MapRange0 := map_range_std) reload_next sample_app in
  err = None /\ app_Config a' = reload_next /\ app_level a' = LevelDebug.
Proof.
  pose proof (reload_all_or_nothing (MapRange0 := map_range_std) reload_next sample_app ltac:(done)) as H.
  assert ((Reload (MapRange0 := map_range_std) reload_next sample_app).1 = None) as E by by vm_compute.
  destruct (Reload reload_next sample_app) as [err a']. cbn in E. subst err. destruct H as (_ & _ & H).
  destruct (H eq_refl) as (H1 & _ & H2 & _). split; [done|]. split; [done|].
  assert (ParseLevel (LogLevel reload_next) = Ok LevelDebug) as E by by vm_compute. rewrite E in H2. by injection H2.
Defined.

Lemma reload_reordered_witness :
  exists a', Reload (MapRange0 := map_range_std) reload_next sample_app = (None, a') /\ app_Config a' = reload_next.
Proof.
  destruct (reload_reordered (MapRange0 := map_range_std) reload_config reload_next sample_app) as (a' & H1 & H2 & _);
    [by vm_compute|by vm_compute|exact (perm_swap (bare (B "TCP ") (B ":2")) (bare (B "udp") (B ":1")) [])|done|done|done|]. exists a'. split; [exact H1|exact H2].
Defined.

(** Writing out [enabled: true], the default, counts as a listener change. *)
Example explicit_enabled_is_a_difference :
  let p := bare (B "tcp") (B ":2") in
  let q := mkProto (B "tcp") (Some true) (B ":2") [] [] 0 [] [] [] [] [] None in
  protocolsDiff (MapRange0 := map_range_std) [p] [q] = B "protocols.tcp".
Proof. by vm_compute. Qed.
