(* ===== verification/Store.v ===== *)
(** * Store: the interface of [internal/infra/store/store.go]

    The durable key-value store behind the message log, the session snapshots
    and the persistence plugin.  The Go interface is the class [Store]; what an
    implementation promises is [StoreLaws], stated over an abstract view (a map
    from buckets to maps).  [MemoryStore] and [BoltStore] are the two
    implementations, each with the instance that discharges it. *)
From S2P Require Import Prelude Bytes Core.
From stdpp Require Import fin_maps gmap.
Local Open Scope Z_scope.
Local Open Scope list_scope.

Abbreviation buckets := (gmap bytes (gmap bytes bytes)).

(** The entries of one bucket; a missing bucket has none. *)
Definition in_bucket (m : buckets) (b : bytes) : gmap bytes bytes := default ∅ (m !! b).

(** [Load] returns a value and whether it was there; [Delete] and [Save] an
    error and the store they leave. [DeleteBatch] is the optional interface a
    caller finds with a type assertion. *)
(* go: internal/infra/store/store.go:5-18 (Store, BulkDeleter) *)
Class Store (S : Type) := {
  Save : bytes -> bytes -> bytes -> S -> option error * S;
  Load : bytes -> bytes -> S -> result error (option bytes);
  Delete : bytes -> bytes -> S -> option error * S;
  List_ : bytes -> S -> result error (list bytes);
  Close : S -> option error * S;
  DeleteBatch : option (bytes -> list bytes -> S -> option error * S)
}.

(** What a client may rely on: an operation that reports no error has had its
    effect on the view, one that reports an error has had none. *)
Definition saves (m m' : bytes -> gmap bytes bytes) (b : bytes) (c : gmap bytes bytes) : Prop :=
  m' b = c /\ forall b', b' <> b -> m' b' = m b'.

Class StoreLaws (S : Type) `{Store S} := {
  view : S -> bytes -> gmap bytes bytes;
  Save_ok s b k v s' : Save b k v s = (None, s') -> saves (view s) (view s') b (<[k := v]> (view s b));
  Save_err s b k v e s' b' : Save b k v s = (Some e, s') -> view s' b' = view s b';
  Load_ok s b k o : Load b k s = Ok o -> o = view s b !! k;
  Delete_ok s b k s' : Delete b k s = (None, s') -> saves (view s) (view s') b (delete k (view s b));
  Delete_err s b k e s' b' : Delete b k s = (Some e, s') -> view s' b' = view s b';
  List_ok s b ks : List_ b s = Ok ks -> ks ≡ₚ (map_to_list (view s b)).*1;
  DeleteBatch_ok f s b ks s' : DeleteBatch = Some f -> f b ks s = (None, s') ->
    saves (view s) (view s') b (filter (fun kv => kv.1 ∉ ks) (view s b));
  DeleteBatch_err f s b ks e s' b' : DeleteBatch = Some f -> f b ks s = (Some e, s') -> view s' b' = view s b';
  Close_view s e s' b' : Close s = (e, s') -> view s' b' = view s b'
}.

Lemma in_bucket_insert (m : buckets) b c : saves (in_bucket m) (in_bucket (<[b := c]> m)) b c.
Proof.
  split; unfold in_bucket; [by rewrite lookup_insert_eq|].
  intros b' Hb. by rewrite lookup_insert_ne.
Qed.

Lemma saves_same m b : saves m m b (m b).
Proof. done. Qed.

Lemma delete_as_filter (c : gmap bytes bytes) k :
  delete k c = filter (fun kv => kv.1 ∉ [k]) c.
Proof.
  apply map_eq. intros k'. rewrite map_lookup_filter.
  destruct (decide (k' = k)) as [->|Hk].
  - rewrite lookup_delete_eq. destruct (c !! k); simpl; [|done].
    rewrite option_guard_False; [done|]. set_solver.
  - rewrite lookup_delete_ne by done. destruct (c !! k'); simpl; [|done].
    rewrite option_guard_True; [done|]. set_solver.
Qed.
