(* ===== verification/MemoryStore.v ===== *)
(** * MemoryStore: the store of [internal/infra/store/store.go] kept in memory *)
From S2P Require Import Prelude Bytes Core Store.
From stdpp Require Import fin_maps gmap.
Local Open Scope Z_scope.
Local Open Scope list_scope.

(* go: internal/infra/store/store.go:20-23 (Memory) *)
Record Memory : Type := mkMemory { buckets_ : buckets }.

(* go: internal/infra/store/store.go:25-27 (NewMemory) *)
Definition NewMemory : Memory := mkMemory ∅.

(* go: internal/infra/store/store.go:29-37 (Save) *)
Definition Save (bucket key value : bytes) (m : Memory) : option error * Memory :=
  let bs := buckets_ m in
  let bs := match bs !! bucket with Some _ => bs | None => <[bucket := ∅]> bs end in
  (None, mkMemory (<[bucket := <[key := value]> (in_bucket bs bucket)]> bs)).

(* go: internal/infra/store/store.go:39-48 (Load) *)
Definition Load (bucket key : bytes) (m : Memory) : result error (option bytes) :=
  match buckets_ m !! bucket with
  | None => Ok None
  | Some values => Ok (values !! key)
  end.

(* go: internal/infra/store/store.go:50-57 (Delete) *)
Definition Delete (bucket key : bytes) (m : Memory) : option error * Memory :=
  (None,
   match buckets_ m !! bucket with
   | Some values => mkMemory (<[bucket := delete key values]> (buckets_ m))
   | None => m
   end).

(** The map is ranged over in an unspecified order. *)
(* go: internal/infra/store/store.go:59-67 (List) *)
Definition List_ `{!MapRange bytes} (bucket : bytes) (m : Memory) : result error (list bytes) :=
  Ok (map_range (in_bucket (buckets_ m) bucket)).*1.

(* go: internal/infra/store/store.go:69-69 (Close) *)
Definition Close (m : Memory) : option error * Memory := (None, m).

#[global] Instance memory_store `{!MapRange bytes} : Store Memory := {|
  Store.Save := Save;
  Store.Load := Load;
  Store.Delete := Delete;
  Store.List_ := List_;
  Store.Close := Close;
  Store.DeleteBatch := None
|}.

Lemma Save_view b k v m :
  saves (in_bucket (buckets_ m)) (in_bucket (buckets_ (Save b k v m).2)) b (<[k := v]> (in_bucket (buckets_ m) b)).
Proof.
  unfold Save. cbn [snd buckets_]. destruct (buckets_ m !! b) as [c|] eqn:E; [apply in_bucket_insert|].
  rewrite insert_insert_eq. unfold in_bucket at 3. rewrite lookup_insert_eq. cbn.
  unfold in_bucket at 3. rewrite E. apply in_bucket_insert.
Qed.

Lemma Delete_view b k m :
  saves (in_bucket (buckets_ m)) (in_bucket (buckets_ (Delete b k m).2)) b (delete k (in_bucket (buckets_ m) b)).
Proof.
  unfold Delete. cbn [snd]. unfold in_bucket at 3. destruct (buckets_ m !! b) as [c|] eqn:E; cbn.
  - apply in_bucket_insert.
  - split; [|done]. unfold in_bucket. rewrite E. cbn. by rewrite delete_empty.
Qed.

#[global] Program Instance memory_laws `{!MapRange bytes} : StoreLaws Memory := {|
  view m := in_bucket (buckets_ m)
|}.
Next Obligation. intros ? m b k v m' E. pose proof (Save_view b k v m) as V. cbn in E. by injection E as <-. Qed.
Next Obligation. done. Qed.
Next Obligation.
  intros ? m b k o. cbn. unfold Load, in_bucket. destruct (buckets_ m !! b); intros [= <-]; done.
Qed.
Next Obligation. intros ? m b k m' E. pose proof (Delete_view b k m) as V. cbn in E. by injection E as <-. Qed.
Next Obligation. done. Qed.
Next Obligation. intros ? m b ks [= <-]. by rewrite map_range_perm. Qed.
Next Obligation. done. Qed.
Next Obligation. done. Qed.
Next Obligation. intros ? m e m' b' [= <- <-]. done. Qed.
