(* ===== verification/BoltStore.v ===== *)
(** * BoltStore: [internal/infra/store/bolt.go]

    The store on bbolt.  The library is a parameter with the documented
    behaviour of its transactions as laws; the closed flag, the transactions
    built for each operation and their errors are the program's. *)
From S2P Require Import Prelude Bytes Core Store.
From stdpp Require Import fin_maps gmap.
Local Open Scope Z_scope.
Local Open Scope list_scope.

(** ** The store on bbolt

    [go.etcd.io/bbolt] is a parameter: the functions of it the source calls,
    and the behaviour its documentation gives them. *)
Class BBolt := {
  DB : Type;
  Tx : Type;
  (** [db.Update(fn)]: commits what [fn] did when it returns no error. *)
  db_Update : (Tx -> option error * Tx) -> DB -> option error * DB;
  (** [db.View(fn)]: the error of opening the transaction, or what [fn] read. *)
  db_View : forall {A}, (Tx -> A) -> DB -> result error A;
  db_Close : DB -> option error * DB;
  tx_CreateBucketIfNotExists : bytes -> Tx -> option error * Tx;
  (** [tx.Bucket(name) != nil] *)
  tx_Bucket : bytes -> Tx -> bool;
  bk_Put : bytes -> bytes -> bytes -> Tx -> option error * Tx;
  bk_Get : bytes -> bytes -> Tx -> option bytes;
  bk_Delete : bytes -> bytes -> Tx -> option error * Tx;
  (** The keys [bk.ForEach] visits. *)
  bk_ForEach : bytes -> Tx -> list bytes
}.

Class BBoltLaws `{BBolt} := {
  content : DB -> buckets;
  tx_content : Tx -> buckets;
  Update_law fn db : exists tx,
    tx_content tx = content db /\
    match db_Update fn db with
    | (None, db') => (fn tx).1 = None /\ content db' = tx_content (fn tx).2
    | (Some e, db') => content db' = content db
    end;
  View_law {A} (fn : Tx -> A) db a : db_View fn db = Ok a ->
    exists tx, tx_content tx = content db /\ a = fn tx;
  db_Close_law db e db' : db_Close db = (e, db') -> content db' = content db;
  CreateBucket_law b tx tx' : tx_CreateBucketIfNotExists b tx = (None, tx') ->
    tx_content tx' = <[b := in_bucket (tx_content tx) b]> (tx_content tx);
  Bucket_law b tx : tx_Bucket b tx = bool_decide (is_Some (tx_content tx !! b));
  Put_law b k v tx tx' : bk_Put b k v tx = (None, tx') ->
    tx_content tx' = <[b := <[k := v]> (in_bucket (tx_content tx) b)]> (tx_content tx);
  Get_law b k tx : bk_Get b k tx = in_bucket (tx_content tx) b !! k;
  bk_Delete_law b k tx tx' : bk_Delete b k tx = (None, tx') ->
    tx_content tx' = <[b := delete k (in_bucket (tx_content tx) b)]> (tx_content tx);
  ForEach_law b tx : bk_ForEach b tx ≡ₚ (map_to_list (in_bucket (tx_content tx) b)).*1
}.

Section bolt.
Context `{BBolt}.

(* go: internal/infra/store/bolt.go:22-27 (BoltStore) *)
Record BoltStore : Type := mkBoltStore { db : DB; closed : bool }.

(** 3 seconds, in nanoseconds. *)
(* go: internal/infra/store/bolt.go:15-20 (defaultBoltOpenTimeout) *)
Definition defaultBoltOpenTimeout : Z := 3000000000.

(** [mkdir_err] is the result of [os.MkdirAll], [open] that of [bolt.Open] for
    a lock timeout, [is_timeout] whether its error is [bolt.ErrTimeout]. *)
(* go: internal/infra/store/bolt.go:35-54 (NewBoltStoreWithTimeout) *)
Definition NewBoltStoreWithTimeout (mkdir_err : option error) (open : Z -> result error DB)
    (is_timeout : error -> bool) (openTimeout : Z) : result error BoltStore :=
  let openTimeout := if openTimeout <=? 0 then defaultBoltOpenTimeout else openTimeout in
  match mkdir_err with
  | Some e => Err (ErrWrap "bolt: mkdir" e)
  | None =>
      match open openTimeout with
      | Err e =>
          if is_timeout e then Err (ErrWrap "bolt: open: database locked by another process" e)
          else Err (ErrWrap "bolt: open" e)
      | Ok d => Ok (mkBoltStore d false)
      end
  end.

(* go: internal/infra/store/bolt.go:29-34 (NewBoltStore) *)
Definition NewBoltStore (mkdir_err : option error) (open : Z -> result error DB)
    (is_timeout : error -> bool) : result error BoltStore :=
  NewBoltStoreWithTimeout mkdir_err open is_timeout defaultBoltOpenTimeout.

(** [withLock] around an update: the closed check and the access are one
    critical section. *)
(* go: internal/infra/store/bolt.go:56-68 (withLock) *)
Definition withLock {A} (fn : DB -> (A * DB)) (on_closed : A) (b : BoltStore) : A * BoltStore :=
  if closed b then (on_closed, b)
  else let '(a, d) := fn (db b) in (a, mkBoltStore d (closed b)).

Definition update (fn : Tx -> option error * Tx) (b : BoltStore) : option error * BoltStore :=
  withLock (db_Update fn) (Some ErrClosed) b.

Definition read {A} (fn : Tx -> A) (b : BoltStore) : result error A :=
  (withLock (fun d => (db_View fn d, d)) (Err ErrClosed) b).1.

(* go: internal/infra/store/bolt.go:70-80 (Save) *)
Definition Save (bucket key value : bytes) (b : BoltStore) : option error * BoltStore :=
  update (fun tx =>
    match tx_CreateBucketIfNotExists bucket tx with
    | (Some e, tx) => (Some (ErrWrap "bolt: save bucket" e), tx)
    | (None, tx) => bk_Put bucket key value tx
    end) b.

(* go: internal/infra/store/bolt.go:82-99 (Load) *)
Definition Load (bucket key : bytes) (b : BoltStore) : result error (option bytes) :=
  read (fun tx => if tx_Bucket bucket tx then bk_Get bucket key tx else None) b.

(* go: internal/infra/store/bolt.go:101-111 (Delete) *)
Definition Delete (bucket key : bytes) (b : BoltStore) : option error * BoltStore :=
  update (fun tx => if tx_Bucket bucket tx then bk_Delete bucket key tx else (None, tx)) b.

(* go: internal/infra/store/bolt.go:113-128 (List) *)
Definition List_ (bucket : bytes) (b : BoltStore) : result error (list bytes) :=
  read (fun tx => if tx_Bucket bucket tx then bk_ForEach bucket tx else []) b.

Fixpoint delete_keys (bucket : bytes) (keys : list bytes) (tx : Tx) : option error * Tx :=
  match keys with
  | [] => (None, tx)
  | key :: keys =>
      match bk_Delete bucket key tx with
      | (Some e, tx) => (Some e, tx)
      | (None, tx) => delete_keys bucket keys tx
      end
  end.

(* go: internal/infra/store/bolt.go:130-146 (DeleteBatch) *)
Definition DeleteBatch (bucket : bytes) (keys : list bytes) (b : BoltStore) : option error * BoltStore :=
  update (fun tx => if tx_Bucket bucket tx then delete_keys bucket keys tx else (None, tx)) b.

(* go: internal/infra/store/bolt.go:148-153 (Close) *)
Definition Close (b : BoltStore) : option error * BoltStore :=
  let '(e, d) := db_Close (db b) in (e, mkBoltStore d true).

#[global] Instance bolt_store : Store BoltStore := {|
  Store.Save := Save;
  Store.Load := Load;
  Store.Delete := Delete;
  Store.List_ := List_;
  Store.Close := Close;
  Store.DeleteBatch := Some DeleteBatch
|}.

Context `{!BBoltLaws}.

(** An update either leaves the content alone or is one run of the transaction. *)
Lemma update_content fn b e b' :
  update fn b = (e, b') ->
  match e with
  | Some _ => content (db b') = content (db b)
  | None => exists tx, tx_content tx = content (db b) /\ (fn tx).1 = None /\
                       content (db b') = tx_content (fn tx).2
  end.
Proof.
  unfold update, withLock. destruct (closed b); [by intros [= <- <-]|].
  destruct (Update_law fn (db b)) as (tx & Htx & Hu).
  destruct (db_Update fn (db b)) as [e1 d1]. intros [= <- <-]. cbn.
  destruct e1; [done|]. exists tx. tauto.
Qed.

Lemma read_content {A} (fn : Tx -> A) b a :
  read fn b = Ok a -> exists tx, tx_content tx = content (db b) /\ a = fn tx.
Proof.
  unfold read, withLock. destruct (closed b); [done|]. cbn. apply View_law.
Qed.

(** Without its bucket a transaction has no entry. *)
Lemma no_bucket b tx : tx_Bucket b tx = false -> in_bucket (tx_content tx) b = ∅.
Proof.
  rewrite Bucket_law. intros E%bool_decide_eq_false. unfold in_bucket.
  destruct (tx_content tx !! b); [|done]. exfalso. apply E. by eexists.
Qed.

Lemma delete_keys_content bucket keys tx tx' :
  delete_keys bucket keys tx = (None, tx') ->
  saves (in_bucket (tx_content tx)) (in_bucket (tx_content tx')) bucket
        (filter (fun kv => kv.1 ∉ keys) (in_bucket (tx_content tx) bucket)).
Proof.
  revert tx. induction keys as [|k keys IH]; intros tx; cbn.
  - intros [= <-]. rewrite map_filter_id; [apply saves_same|]. intros. set_solver.
  - destruct (bk_Delete bucket k tx) as [[e|] tx1] eqn:E; [done|]. intros Ht.
    specialize (IH tx1 Ht) as [IH1 IH2]. apply bk_Delete_law in E.
    destruct (in_bucket_insert (tx_content tx) bucket (delete k (in_bucket (tx_content tx) bucket))) as [E1 E2].
    rewrite <- E in E1, E2. split.
    + rewrite IH1, E1, delete_as_filter. apply map_eq. intros k'. rewrite !map_lookup_filter.
      destruct (in_bucket (tx_content tx) bucket !! k'); cbn; [|done].
      repeat case_guard; cbn; try done; set_solver.
    + intros b' Hb. by rewrite IH2, E2.
Qed.

(** With the store open, an operation and its transaction agree. *)
Lemma Save_saves b k v st st' :
  Save b k v st = (None, st') ->
  saves (in_bucket (content (db st))) (in_bucket (content (db st'))) b (<[k := v]> (in_bucket (content (db st)) b)).
Proof.
  intros (tx & Htx & Hok & Hc)%update_content. rewrite Hc.
  destruct (tx_CreateBucketIfNotExists b tx) as [[e|] tx1] eqn:E; [done|].
  destruct (bk_Put b k v tx1) as [e tx2] eqn:E2. cbn in *. subst e.
  apply CreateBucket_law in E. apply Put_law in E2. rewrite E2, E, Htx, insert_insert_eq.
  unfold in_bucket at 3. rewrite lookup_insert_eq. apply in_bucket_insert.
Qed.

Lemma Delete_saves b k st st' :
  Delete b k st = (None, st') ->
  saves (in_bucket (content (db st))) (in_bucket (content (db st'))) b (delete k (in_bucket (content (db st)) b)).
Proof.
  intros (tx & Htx & Hok & Hc)%update_content. rewrite Hc, <- Htx.
  destruct (tx_Bucket b tx) eqn:Eb.
  - destruct (bk_Delete b k tx) as [e tx2] eqn:E2. cbn in *. subst e.
    apply bk_Delete_law in E2. rewrite E2. apply in_bucket_insert.
  - cbn. rewrite (no_bucket _ _ Eb), delete_empty. by rewrite <- (no_bucket _ _ Eb).
Qed.

Lemma DeleteBatch_saves b ks st st' :
  DeleteBatch b ks st = (None, st') ->
  saves (in_bucket (content (db st))) (in_bucket (content (db st'))) b
        (filter (fun kv => kv.1 ∉ ks) (in_bucket (content (db st)) b)).
Proof.
  intros (tx & Htx & Hok & Hc)%update_content. rewrite Hc, <- Htx.
  destruct (tx_Bucket b tx) eqn:Eb.
  - destruct (delete_keys b ks tx) as [e tx2] eqn:E2. cbn in *. subst e. by apply delete_keys_content.
  - cbn. rewrite (no_bucket _ _ Eb), map_filter_empty. by rewrite <- (no_bucket _ _ Eb).
Qed.

Lemma update_err fn st e st' b : update fn st = (Some e, st') ->
  in_bucket (content (db st')) b = in_bucket (content (db st)) b.
Proof. by intros ->%update_content. Qed.

#[global] Program Instance bolt_laws : StoreLaws BoltStore := {|
  view st := in_bucket (content (db st))
|}.
Next Obligation. intros. by apply Save_saves. Qed.
Next Obligation. intros st *. intros E. exact (update_err _ _ _ _ _ E). Qed.
Next Obligation.
  intros st b k o (tx & <- & ->)%read_content.
  destruct (tx_Bucket b tx) eqn:Eb; [by rewrite Get_law|by rewrite (no_bucket _ _ Eb), lookup_empty].
Qed.
Next Obligation. intros. by apply Delete_saves. Qed.
Next Obligation. intros st *. intros E. exact (update_err _ _ _ _ _ E). Qed.
Next Obligation.
  intros st b ks (tx & <- & ->)%read_content.
  destruct (tx_Bucket b tx) eqn:Eb; [by rewrite ForEach_law|by rewrite (no_bucket _ _ Eb), map_to_list_empty].
Qed.
Next Obligation. intros f st b ks st' [= <-]. apply DeleteBatch_saves. Qed.
Next Obligation. intros f st b ks e st' b' [= <-]. apply update_err. Qed.
Next Obligation.
  intros st e st' b' E. cbn in E. unfold Close in E. destruct (db_Close (db st)) as [e1 d1] eqn:Ec.
  injection E as <- <-. cbn. by rewrite (db_Close_law _ _ _ Ec).
Qed.

End bolt.

(** A database kept in memory, for evaluation: as bbolt, it refuses an empty key. *)
Module BoltInMemory.

Definition put (b k v : bytes) (m : buckets) : option error * buckets :=
  if bool_decide (k = []) then (Some (ErrMsg "key required"), m)
  else (None, <[b := <[k := v]> (in_bucket m b)]> m).

#[export] Instance bbolt : BBolt := {|
  DB := buckets;
  Tx := buckets;
  db_Update fn d := match fn d with (None, d') => (None, d') | (Some e, _) => (Some e, d) end;
  db_View A fn d := Ok (fn d);
  db_Close d := (None, d);
  tx_CreateBucketIfNotExists b d := (None, <[b := in_bucket d b]> d);
  tx_Bucket b d := bool_decide (is_Some (d !! b));
  bk_Put := put;
  bk_Get b k d := in_bucket d b !! k;
  bk_Delete b k d := (None, <[b := delete k (in_bucket d b)]> d);
  bk_ForEach b d := (map_to_list (in_bucket d b)).*1
|}.

#[export] Program Instance bbolt_laws : BBoltLaws := {| content d := d; tx_content d := d |}.
Next Obligation. intros fn db. exists db. split; [done|]. cbn. by destruct (fn db) as [[e|] d]. Qed.
Next Obligation. intros A fn db a [= <-]. by exists db. Qed.
Next Obligation. by intros db e db' [= _ <-]. Qed.
Next Obligation. by intros b tx tx' [= <-]. Qed.
Next Obligation. done. Qed.
Next Obligation. intros b k v tx tx'. cbn. unfold put. case_bool_decide; [done|]. by intros [= <-]. Qed.
Next Obligation. done. Qed.
Next Obligation. by intros b k tx tx' [= <-]. Qed.
Next Obligation. done. Qed.

End BoltInMemory.
