(* ===== verification/MessageLog.v ===== *)
(** * MessageLog: [internal/infra/store/message_log.go]

    An append-only log kept under the eight-byte big-endian sequence numbers of
    its messages.  Over any lawful store it is an ordered list: appending adds
    at the end, a replay delivers every message once and in order, pruning
    removes a prefix.  Reopening resumes after the last message that is there,
    so a log pruned to nothing starts its numbers again. *)
From stdpp Require Import fin_maps gmap.
From S2P Require Import Prelude Bytes Core MemoryStore BoltStore Store.
Local Open Scope Z_scope.
Local Open Scope list_scope.

(** ** Keys *)

(* go: internal/infra/store/message_log.go:146-150 (seqKey) *)
Definition seqKey (seq : Z) : bytes := be_put 8 seq.
Arguments seqKey : simpl never.

(** A key long enough to start with a sequence number. *)
Definition seq_of (key : bytes) : option Z :=
  if 8 <=? len key then Some (be_get (take 8 key)) else None.
Arguments seq_of : simpl never.

(** Go compares strings byte by byte ([sort.Strings]). *)
Fixpoint bytes_leb (a b : bytes) : bool :=
  match a, b with
  | [], _ => true
  | _ :: _, [] => false
  | x :: a', y :: b' => (x <? y) || ((x =? y) && bytes_leb a' b')
  end.
Definition bytes_le (a b : bytes) : Prop := bytes_leb a b = true.

#[export] Instance bytes_le_dec : RelDecision bytes_le.
Proof. intros a b. unfold bytes_le. apply _. Defined.

#[export] Instance bytes_le_total : Total bytes_le.
Proof.
  unfold bytes_le. intros a. induction a as [|x a IH]; intros [|y b]; cbn; auto.
  destruct (IH b) as [E|E]; rewrite E;
    destruct (Z.ltb_spec x y), (Z.ltb_spec y x), (Z.eqb_spec x y), (Z.eqb_spec y x); cbn; auto; lia.
Qed.

#[export] Instance bytes_le_trans : Transitive bytes_le.
Proof.
  unfold bytes_le. intros a. induction a as [|x a IH]; intros [|y b] [|z c]; cbn; try done.
  intros [Hxy%Z.ltb_lt|[->%Z.eqb_eq Hab]%andb_true_iff]%orb_true_iff
         [Hyz%Z.ltb_lt|[->%Z.eqb_eq Hbc]%andb_true_iff]%orb_true_iff;
    apply orb_true_iff; try (left; apply Z.ltb_lt; lia).
  right. rewrite Z.eqb_refl. eauto.
Qed.

(** [sort.Strings] *)
Definition sort_Strings (keys : list bytes) : list bytes := merge_sort bytes_le keys.

(** ** The log *)
Section log.
Context {S : Type} `{Store S}.

(* go: internal/infra/store/message_log.go:10-17 (MessageLog) *)
Record MessageLog : Type := mkLog { bucket : bytes; next : Z }.

Definition maxSeq (keys : list bytes) : Z :=
  fold_left (fun m k => match seq_of k with Some seq => if seq >? m then seq else m | None => m end) keys 0.

(* go: internal/infra/store/message_log.go:19-36 (NewMessageLog) *)
Definition NewMessageLog (st : S) (b : bytes) : result error MessageLog :=
  match List_ b st with
  | Err e => Err (ErrWrap "message_log: list" e)
  | Ok keys => Ok (mkLog b (u64 (maxSeq keys + 1)))
  end.

(* go: internal/infra/store/message_log.go:38-49 (Append) *)
Definition Append (data : bytes) (l : MessageLog) (st : S) : result error Z * MessageLog * S :=
  let seq := next l in
  match Save (bucket l) (seqKey seq) data st with
  | (Some e, st) => (Err (ErrWrap "message_log: append" e), l, st)
  | (None, st) => (Ok seq, mkLog (bucket l) (u64 (next l + 1)), st)
  end.

(** The snapshot a replay takes under the lock. *)
Fixpoint load_messages (l : MessageLog) (st : S) (keys : list bytes) : result error (list (Z * bytes)) :=
  match keys with
  | [] => Ok []
  | key :: keys =>
      match seq_of key with
      | None => load_messages l st keys
      | Some seq =>
          match Load (bucket l) key st with
          | Err e => Err e
          | Ok None => load_messages l st keys
          | Ok (Some val) =>
              match load_messages l st keys with
              | Err e => Err e
              | Ok ms => Ok ((seq, val) :: ms)
              end
          end
      end
  end.

(** The callback, run outside the lock on the snapshot: it may change anything,
    this log included. *)
Fixpoint call_all {W} (fn : Z -> bytes -> W -> option error * W) (ms : list (Z * bytes)) (w : W) :
    option error * W :=
  match ms with
  | [] => (None, w)
  | (seq, data) :: ms =>
      match fn seq data w with
      | (Some e, w) => (Some e, w)
      | (None, w) => call_all fn ms w
      end
  end.

(* go: internal/infra/store/message_log.go:51-94 (Replay) *)
Definition Replay {W} (l : MessageLog) (st : S) (fn : Z -> bytes -> W -> option error * W) (w : W) :
    option error * W :=
  match List_ (bucket l) st with
  | Err e => (Some e, w)
  | Ok keys =>
      match load_messages l st (sort_Strings keys) with
      | Err e => (Some e, w)
      | Ok ms => call_all fn ms w
      end
  end.

Definition prunable (beforeSeq : Z) (key : bytes) : bool :=
  match seq_of key with Some seq => seq <? beforeSeq | None => false end.

Fixpoint delete_each (b : bytes) (keys : list bytes) (st : S) : option error * S :=
  match keys with
  | [] => (None, st)
  | key :: keys =>
      match Delete b key st with
      | (Some e, st) => (Some e, st)
      | (None, st) => delete_each b keys st
      end
  end.

(* go: internal/infra/store/message_log.go:96-128 (Prune) *)
Definition Prune (beforeSeq : Z) (l : MessageLog) (st : S) : option error * S :=
  match List_ (bucket l) st with
  | Err e => (Some e, st)
  | Ok keys =>
      let toDelete := List.filter (prunable beforeSeq) keys in
      if (length toDelete =? 0)%nat then (None, st)
      else
        match DeleteBatch with
        | Some batch => batch (bucket l) toDelete st
        | None => delete_each (bucket l) toDelete st
        end
  end.

(* go: internal/infra/store/message_log.go:130-144 (Len) *)
Definition Len (l : MessageLog) (st : S) : result error Z :=
  match List_ (bucket l) st with
  | Err e => Err e
  | Ok keys => Ok (len (List.filter (fun key => 8 <=? len key) keys))
  end.

End log.

(** ** Key order is number order *)

#[export] Instance bytes_le_antisymm : AntiSymm (=) bytes_le.
Proof.
  unfold bytes_le. intros a. induction a as [|x a IH]; intros [|y b]; cbn; try done.
  intros [Hxy%Z.ltb_lt|[E1%Z.eqb_eq Hab]%andb_true_iff]%orb_true_iff
         [Hyx%Z.ltb_lt|[E2%Z.eqb_eq Hba]%andb_true_iff]%orb_true_iff; try lia.
  subst. f_equal. auto.
Qed.

(** Byte strings of one length compare as the numbers they are. *)
Lemma bytes_leb_be a b :
  bytes_ok a -> bytes_ok b -> length a = length b -> bytes_leb a b = (be_get a <=? be_get b).
Proof.
  revert b. induction a as [|x a IH]; intros [|y b] Ha Hb Hl; try done.
  apply bytes_ok_cons in Ha as [Hx Ha], Hb as [Hy Hb]. injection Hl as Hl.
  cbn [bytes_leb]. rewrite (IH b), !be_get_cons by done.
  pose proof (be_get_bound a Ha) as Ba. pose proof (be_get_bound b Hb) as Bb.
  assert (len a = len b) as El by (unfold len; lia). rewrite El in *.
  set (P := 256 ^ len b) in *. unfold is_byte in *.
  destruct (Z.ltb_spec x y), (Z.eqb_spec x y), (Z.leb_spec (be_get a) (be_get b)),
    (Z.leb_spec (x * P + be_get a) (y * P + be_get b)); cbn; try done; nia.
Qed.

Definition in_seq (q : Z) : Prop := 0 <= q < 2 ^ 64.

Lemma be_get_seqKey q : in_seq q -> be_get (seqKey q) = q.
Proof. unfold in_seq, seqKey. intros. rewrite be_get_put. apply Z.mod_small. lia. Qed.

Lemma seqKey_inj p q : in_seq p -> in_seq q -> seqKey p = seqKey q -> p = q.
Proof. intros Hp Hq E. by rewrite <- (be_get_seqKey p), <- (be_get_seqKey q), E. Qed.

Lemma seqKey_le p q : in_seq p -> in_seq q -> p <= q -> bytes_le (seqKey p) (seqKey q).
Proof.
  intros Hp Hq H. unfold bytes_le. rewrite bytes_leb_be by (try apply be_put_ok; unfold seqKey; by rewrite !length_be_put).
  rewrite !be_get_seqKey by done. by apply Z.leb_le.
Qed.

Lemma seq_of_seqKey q : in_seq q -> seq_of (seqKey q) = Some q.
Proof.
  intros Hq. unfold seq_of. assert (len (seqKey q) = 8) as -> by (unfold seqKey; apply len_be_put).
  rewrite take_ge by (unfold seqKey; by rewrite length_be_put). cbn [Z.leb]. f_equal. by apply be_get_seqKey.
Qed.

#[export] Hint Rewrite seq_of_seqKey be_get_seqKey using done : shark.

(** ** The list a bucket holds *)

Abbreviation messages := (list (Z * bytes)).

Definition entry (m : Z * bytes) : bytes * bytes := (seqKey m.1, m.2).
Definition as_map (ms : messages) : gmap bytes bytes := list_to_map (entry <$> ms).

(** The messages are numbered upwards, below [n]. *)
Record numbered (n : Z) (ms : messages) : Prop := {
  nb_sorted : StronglySorted Z.lt ms.*1;
  nb_range : Forall (fun q => 1 <= q < n) ms.*1;
  nb_next : 1 <= n < 2 ^ 64
}.

Lemma numbered_in_seq n ms q : numbered n ms -> q ∈ ms.*1 -> in_seq q.
Proof.
  intros [_ Hr Hn] Hq. rewrite Forall_forall in Hr. specialize (Hr q Hq). unfold in_seq. lia.
Qed.

Lemma numbered_sublist n ms ms' : numbered n ms -> ms' `sublist_of` ms -> numbered n ms'.
Proof.
  intros [Hs Hr Hn] Hsub. split; [| |done].
  - clear Hr. induction Hsub as [|m ms' ms Hsub IH|m ms' ms Hsub IH]; cbn in *; [done| |].
    + apply StronglySorted_inv in Hs as [Hs Hall]. constructor; [auto|].
      rewrite Forall_forall in *. intros q Hq. apply Hall.
      eapply elem_of_submseteq; [exact Hq|]. by apply sublist_submseteq, fmap_sublist.
    + apply StronglySorted_inv in Hs as [Hs Hall]. auto.
  - rewrite Forall_forall in *. intros q Hq. apply Hr.
    eapply elem_of_submseteq; [exact Hq|]. by apply sublist_submseteq, fmap_sublist.
Qed.

Lemma numbered_snoc n ms d :
  numbered n ms -> n < 2 ^ 64 - 1 -> numbered (n + 1) (ms ++ [(n, d)]).
Proof.
  intros [Hs Hr Hn] Hlt. split; [| |lia].
  - rewrite fmap_app. apply StronglySorted_app_2; [|done|by repeat constructor].
    intros p q Hp Hq. apply list_elem_of_singleton in Hq as ->.
    rewrite Forall_forall in Hr. specialize (Hr p Hp). cbn in *; lia.
  - rewrite fmap_app. apply Forall_app. split; [|repeat constructor; cbn; lia].
    eapply Forall_impl; [exact Hr|]. cbn. lia.
Qed.

Lemma entry_keys ms : (entry <$> ms).*1 = seqKey <$> ms.*1.
Proof. induction ms as [|m ms IH]; [done|]. cbn. by rewrite IH. Qed.

Lemma NoDup_sorted_lt (l : list Z) : StronglySorted Z.lt l -> NoDup l.
Proof.
  induction 1 as [|x l _ IH Hall]; constructor; [|done].
  intros Hx. rewrite Forall_forall in Hall. specialize (Hall x Hx). lia.
Qed.

Lemma NoDup_entry_keys n ms : numbered n ms -> NoDup (entry <$> ms).*1.
Proof.
  intros Hn. rewrite entry_keys. apply NoDup_fmap_2_strong; [|by apply NoDup_sorted_lt, Hn].
  intros p q Hp Hq. apply seqKey_inj; eauto using numbered_in_seq.
Qed.

(** The key-value pairs of the bucket, in the order of the log. *)
Lemma as_map_to_list n ms : numbered n ms -> map_to_list (as_map ms) ≡ₚ entry <$> ms.
Proof. intros. by eapply map_to_list_to_map, NoDup_entry_keys. Qed.

Lemma as_map_keys n ms : numbered n ms -> (map_to_list (as_map ms)).*1 ≡ₚ seqKey <$> ms.*1.
Proof. intros H. by rewrite (as_map_to_list n), entry_keys. Qed.

Lemma as_map_lookup n ms m : numbered n ms -> m ∈ ms -> as_map ms !! seqKey m.1 = Some m.2.
Proof.
  intros H Hm. apply elem_of_list_to_map; [by eapply NoDup_entry_keys|].
  apply list_elem_of_fmap. by exists m.
Qed.

Lemma as_map_fresh n ms : numbered n ms -> as_map ms !! seqKey n = None.
Proof.
  intros H. apply not_elem_of_list_to_map_1. rewrite entry_keys.
  intros (q & E & Hq)%list_elem_of_fmap.
  assert (q < n) by (destruct H as [_ Hr _]; rewrite Forall_forall in Hr; apply Hr in Hq; lia).
  apply seqKey_inj in E; [lia| |by eapply numbered_in_seq].
  destruct H as [_ _ Hn]. unfold in_seq. lia.
Qed.

Lemma as_map_snoc ms n d :
  as_map ms !! seqKey n = None -> as_map (ms ++ [(n, d)]) = <[seqKey n := d]> (as_map ms).
Proof.
  intros Hf. unfold as_map in *. rewrite fmap_app, list_to_map_app.
  change (list_to_map (entry <$> [(n, d)]) : gmap bytes bytes) with (<[seqKey n := d]> (∅ : gmap bytes bytes)).
  by rewrite <- insert_union_r, (right_id_L ∅ (∪)).
Qed.

(** Removing keys from the bucket removes their messages. *)
Lemma as_map_filter n ms (ks : list bytes) :
  numbered n ms ->
  filter (fun kv : bytes * bytes => kv.1 ∉ ks) (as_map ms) = as_map (filter (fun m => seqKey m.1 ∉ ks) ms).
Proof.
  intros H. pose proof (NoDup_entry_keys n ms H) as Hnd. clear H. unfold as_map.
  induction ms as [|[q d] ms IH]; [apply map_filter_empty|].
  change (entry <$> (q, d) :: ms) with ((seqKey q, d) :: (entry <$> ms)) in *.
  inversion Hnd as [|? ? Hm Hnd']; subst. specialize (IH Hnd'). rewrite list_to_map_cons.
  destruct (decide (seqKey q ∉ ks)) as [Hk|Hk].
  - rewrite map_filter_insert_True, filter_cons_True by done. rewrite IH. done.
  - rewrite map_filter_insert_False, filter_cons_False by done. rewrite delete_id; [done|].
    by apply not_elem_of_list_to_map_1.
Qed.

(** ** The log refines an ordered list *)
Section refinement.
Context {S : Type} `{StoreLaws S}.

(** The log [l] over the store [st] stands for the messages [ms]. *)
Definition log_rep (l : MessageLog) (st : S) (ms : messages) : Prop :=
  numbered (next l) ms /\ view st (bucket l) = as_map ms.

(** Whether the store fails an operation the log needs to read its messages. *)
Definition read_fails (l : MessageLog) (st : S) (e : error) : Prop :=
  List_ (bucket l) st = Err e \/ exists k, Load (bucket l) k st = Err e.

Lemma rep_keys l st ms keys :
  log_rep l st ms -> List_ (bucket l) st = Ok keys -> keys ≡ₚ seqKey <$> ms.*1.
Proof. intros [Hn Hv] Hk. rewrite (List_ok _ _ _ Hk), Hv. by apply (as_map_keys (next l)). Qed.

(** Sorting the keys puts them in the order of the log. *)
Lemma rep_sorted_keys l st ms keys :
  log_rep l st ms -> List_ (bucket l) st = Ok keys -> sort_Strings keys = seqKey <$> ms.*1.
Proof.
  intros Hr Hk. eapply (StronglySorted_unique bytes_le).
  - apply StronglySorted_merge_sort; apply _.
  - destruct Hr as [Hn _]. assert (Forall in_seq ms.*1) as Hq
      by (apply Forall_forall; intros q; by eapply numbered_in_seq).
    pose proof (nb_sorted _ _ Hn) as Hs. revert Hq Hs. generalize (ms.*1). intros qs Hq Hs.
    induction Hs as [|q qs Hs IH Hall]; cbn; [constructor|].
    inversion Hq; subst. constructor; [auto|]. apply Forall_fmap, Forall_forall. intros p Hp. cbn.
    rewrite Forall_forall in *. apply seqKey_le; auto. apply Z.lt_le_incl. auto.
  - unfold sort_Strings. rewrite (merge_sort_Permutation bytes_le). by eapply rep_keys.
Qed.

Lemma load_all l st ms ms' :
  log_rep l st ms -> ms' ⊆ ms ->
  load_messages l st (seqKey <$> ms'.*1) = Ok ms' \/
  exists e, read_fails l st e /\ load_messages l st (seqKey <$> ms'.*1) = Err e.
Proof.
  intros [Hn Hv]. induction ms' as [|m ms' IH]; intros Hsub; [by left|].
  rewrite !fmap_cons. assert (m ∈ ms) as Hm by set_solver.
  assert (in_seq m.1) as Hq by (eapply numbered_in_seq; [exact Hn|]; by apply list_elem_of_fmap_2).
  unfold load_messages; fold (load_messages l st).
  rewrite seq_of_seqKey by done. destruct (Load (bucket l) (seqKey m.1) st) as [o|e] eqn:E.
  - apply Load_ok in E. rewrite Hv in E.
    rewrite (as_map_lookup (next l)) in E by done. subst o.
    destruct IH as [->|(e & He & ->)]; [set_solver| |].
    + left. by destruct m.
    + right. eauto.
  - right. exists e. split; [|done]. right. eauto.
Qed.

Lemma Replay_rep l st ms :
  log_rep l st ms ->
  (forall W fn (w : W), Replay l st fn w = call_all fn ms w) \/
  (exists e, read_fails l st e /\ forall W fn (w : W), Replay l st fn w = (Some e, w)).
Proof.
  intros Hr. unfold Replay. destruct (List_ (bucket l) st) as [keys|e] eqn:E.
  - rewrite (rep_sorted_keys l st ms) by done.
    destruct (load_all l st ms ms Hr) as [->|(e & He & ->)]; [done|by left|right; eauto].
  - right. exists e. split; [by left|done].
Qed.

Lemma Append_rep d l st ms :
  log_rep l st ms -> next l < 2 ^ 64 - 1 ->
  match Append d l st with
  | (Ok seq, l', st') => seq = next l /\ l' = mkLog (bucket l) (seq + 1) /\ log_rep l' st' (ms ++ [(seq, d)])
  | (Err e, l', st') => l' = l /\ log_rep l st' ms
  end.
Proof.
  intros [Hn Hv] Hlt. unfold Append. destruct (Save _ _ _ st) as [[e|] st'] eqn:E.
  - split; [done|]. split; [done|]. by rewrite (Save_err _ _ _ _ _ _ _ E).
  - rewrite uwrap_small by (destruct Hn; lia). split; [done|]. split; [done|].
    split; [by apply numbered_snoc|]. cbn [bucket]. destruct (Save_ok _ _ _ _ _ E) as [-> _]. rewrite Hv.
    rewrite as_map_snoc; [done|]. by apply as_map_fresh.
Qed.

Lemma Append_other d l st b :
  b <> bucket l -> view (Append d l st).2 b = view st b.
Proof.
  intros Hb. unfold Append. destruct (Save _ _ _ st) as [[e|] st'] eqn:E; cbn.
  - by rewrite (Save_err _ _ _ _ _ _ _ E).
  - destruct (Save_ok _ _ _ _ _ E) as [_ Ho]. by apply Ho.
Qed.

Lemma rep_filter l st st' ms (ks : list bytes) :
  log_rep l st ms -> view st' (bucket l) = filter (fun kv => kv.1 ∉ ks) (view st (bucket l)) ->
  log_rep l st' (filter (fun m => seqKey m.1 ∉ ks) ms).
Proof.
  intros [Hn Hv] Hv'. split.
  - eapply numbered_sublist; [exact Hn|]. apply sublist_filter.
  - rewrite Hv', Hv. by apply (as_map_filter (next l)).
Qed.

(** Deleting key by key: everything, or what comes before the failure. *)
Lemma delete_each_view b ks st :
  exists done, done ⊆ ks /\
    view (delete_each b ks st).2 b = filter (fun kv => kv.1 ∉ done) (view st b) /\
    ((delete_each b ks st).1 = None -> done = ks).
Proof.
  revert st. induction ks as [|k ks IH]; intros st; cbn.
  - exists []. split; [done|]. split; [|done]. symmetry. apply map_filter_id. intros. set_solver.
  - destruct (Delete b k st) as [[e|] st1] eqn:E.
    + exists []. split; [set_solver|]. split; [|done]. cbn. rewrite (Delete_err _ _ _ _ _ _ E).
      symmetry. apply map_filter_id. intros. set_solver.
    + destruct (IH st1) as (dn & Hd & Hv & Hall). exists (k :: dn).
      split; [set_solver|]. split; [|intros E1; by rewrite Hall].
      rewrite Hv. destruct (Delete_ok _ _ _ _ E) as [-> _]. rewrite delete_as_filter.
      apply map_eq. intros k'. rewrite !map_lookup_filter.
      destruct (view st b !! k'); cbn; [|done]. repeat case_guard; cbn; try done; set_solver.
Qed.
Lemma rep_prunable l st ms keys q k :
  log_rep l st ms -> List_ (bucket l) st = Ok keys ->
  k ∈ List.filter (prunable q) keys <-> exists m, m ∈ ms /\ k = seqKey m.1 /\ m.1 < q.
Proof.
  intros Hr Hk. rewrite list_elem_of_In, filter_In, <- list_elem_of_In.
  rewrite (rep_keys l st ms keys Hr Hk), list_elem_of_fmap. unfold prunable. split.
  - intros [(p & -> & Hp) Hlt]. apply list_elem_of_fmap in Hp as (m & -> & Hm).
    rewrite seq_of_seqKey in Hlt by (eapply numbered_in_seq; [apply Hr|by apply list_elem_of_fmap_2]).
    exists m. apply Z.ltb_lt in Hlt. done.
  - intros (m & Hm & -> & Hlt). split; [by exists m.1; split; [|apply list_elem_of_fmap_2]|].
    rewrite seq_of_seqKey by (eapply numbered_in_seq; [apply Hr|by apply list_elem_of_fmap_2]).
    by apply Z.ltb_lt.
Qed.

(** What is left when [done] of the prunable keys are gone. *)
Lemma rep_pruned l st st' ms keys q dn :
  log_rep l st ms -> List_ (bucket l) st = Ok keys -> dn ⊆ List.filter (prunable q) keys ->
  view st' (bucket l) = filter (fun kv => kv.1 ∉ dn) (view st (bucket l)) ->
  exists ms', log_rep l st' ms' /\ ms' `sublist_of` ms /\
              filter (fun m => q <= m.1) ms' = filter (fun m => q <= m.1) ms /\
              (dn = List.filter (prunable q) keys -> ms' = filter (fun m => q <= m.1) ms).
Proof.
  intros Hr Hk Hdn Hv. exists (filter (fun m => seqKey m.1 ∉ dn) ms).
  assert (forall m, m ∈ ms -> q <= m.1 -> seqKey m.1 ∉ dn) as Hkeep.
  { intros m Hm Hq Hin. apply Hdn in Hin.
    apply (rep_prunable l st ms keys q _ Hr Hk) in Hin as (m' & Hm' & E & Hlt).
    apply seqKey_inj in E; [lia| |]; eapply numbered_in_seq; try apply Hr; by apply list_elem_of_fmap_2. }
  split; [by eapply rep_filter|]. split; [apply sublist_filter|]. split.
  - rewrite list_filter_filter. apply list_filter_iff_elem. intros m Hm. naive_solver.
  - intros ->. apply list_filter_iff_elem. intros m Hm. split; [|by apply Hkeep].
    intros Hn. apply Z.nlt_ge. intros Hlt. apply Hn.
    apply (rep_prunable l st ms keys q _ Hr Hk). eauto.
Qed.
Lemma Prune_rep q l st ms :
  log_rep l st ms ->
  exists ms', log_rep l (Prune q l st).2 ms' /\ ms' `sublist_of` ms /\
              filter (fun m => q <= m.1) ms' = filter (fun m => q <= m.1) ms /\
              ((Prune q l st).1 = None -> ms' = filter (fun m => q <= m.1) ms).
Proof.
  intros Hr. unfold Prune. destruct (List_ (bucket l) st) as [keys|e] eqn:E; [|by exists ms].
  set (ks := List.filter (prunable q) keys).
  assert (forall st', view st' (bucket l) = view st (bucket l) ->
            view st' (bucket l) = filter (fun kv : bytes * bytes => kv.1 ∉ ([] : list bytes)) (view st (bucket l))) as Hnil.
  { intros st' ->. symmetry. apply map_filter_id. intros. set_solver. }
  destruct (length ks =? 0)%nat eqn:El.
  - apply Nat.eqb_eq, length_zero_iff_nil in El.
    destruct (rep_pruned l st st ms keys q [] Hr E) as (ms' & ? & ? & ? & ?); [set_solver|auto|].
    exists ms'. naive_solver.
  - destruct DeleteBatch as [f|] eqn:Ef.
    + destruct (f (bucket l) ks st) as [[e|] st'] eqn:Eb.
      * destruct (rep_pruned l st st' ms keys q [] Hr E) as (ms' & ? & ? & ? & ?); [set_solver| |].
        { apply Hnil. by apply (DeleteBatch_err f _ _ _ _ _ _ Ef Eb). }
        exists ms'. naive_solver.
      * destruct (rep_pruned l st st' ms keys q ks Hr E) as (ms' & ? & ? & ? & ?); [done| |].
        { by destruct (DeleteBatch_ok f _ _ _ _ Ef Eb). }
        exists ms'. naive_solver.
    + destruct (delete_each_view (bucket l) ks st) as (dn & Hdn & Hv & Hall).
      destruct (rep_pruned l st _ ms keys q dn Hr E Hdn Hv) as (ms' & ? & ? & ? & ?).
      exists ms'. naive_solver.
Qed.

Lemma Len_rep l st ms : log_rep l st ms ->
  Len l st = Ok (len ms) \/ exists e, List_ (bucket l) st = Err e /\ Len l st = Err e.
Proof.
  intros Hr. unfold Len. destruct (List_ (bucket l) st) as [keys|e] eqn:E; [left|by right; exists e].
  assert (forall k, k ∈ keys -> 8 <=? len k = true) as Hall.
  { intros k. rewrite (rep_keys l st ms keys Hr E), list_elem_of_fmap.
    intros (q & -> & _). unfold seqKey. by rewrite len_be_put. }
  assert (List.filter (fun key => 8 <=? len key) keys = keys) as ->.
  { clear E. induction keys as [|k keys IH]; [done|]. cbn. rewrite Hall by left.
    f_equal. apply IH. intros k' Hk'. apply Hall. by right. }
  unfold len. rewrite (rep_keys l st ms keys Hr E), !length_fmap. done.
Qed.

Lemma maxSeq_step m k : 
  (match seq_of k with Some seq => if seq >? m then seq else m | None => m end)
  = match seq_of k with Some seq => Z.max m seq | None => m end.
Proof. destruct (seq_of k) as [seq|]; [|done]. rewrite Z.gtb_ltb. destruct (Z.ltb_spec m seq); lia. Qed.

(** The greatest number among the keys, whichever their order. *)
Lemma maxSeq_keys keys qs :
  keys ≡ₚ seqKey <$> qs -> Forall in_seq qs -> maxSeq keys = foldr Z.max 0 qs.
Proof.
  intros Hk Hq. unfold maxSeq.
  assert (forall m, (forall k, k ∈ keys -> exists q, seq_of k = Some q) ->
            fold_left (fun m k => match seq_of k with Some seq => if seq >? m then seq else m | None => m end) keys m
            = Z.max m (foldr Z.max 0 (omap seq_of keys)) \/ m < 0) as Hf.
  { clear Hk. induction keys as [|k keys IH]; intros m Hall; cbn; [lia|].
    rewrite maxSeq_step. destruct (Hall k) as [q E]; [by left|]. rewrite E. cbn.
    destruct (IH (Z.max m q)) as [->|Hneg]; [intros k' Hk'; apply Hall; by right|lia|lia]. }
  destruct (Hf 0) as [->|]; [|clear Hf|lia].
  - intros k. rewrite Hk, list_elem_of_fmap. intros (q & -> & Hin). exists q.
    rewrite Forall_forall in Hq. by apply seq_of_seqKey, Hq.
  - assert (omap seq_of keys ≡ₚ qs) as E.
    { rewrite Hk. clear Hk. induction Hq as [|q qs Hq _ IH]; [done|]. cbn. rewrite seq_of_seqKey by done. by rewrite IH. }
    assert (forall l : list Z, 0 <= foldr Z.max 0 l) as Hpos by (induction l; cbn; lia).
    rewrite Z.max_r by apply Hpos. revert E. generalize (omap seq_of keys). clear.
    induction 1; cbn; lia.
Qed.
Lemma max_sorted qs : StronglySorted Z.lt qs -> Forall (fun q => 1 <= q) qs -> foldr Z.max 0 qs = default 0 (last qs).
Proof.
  induction 1 as [|q qs Hs IH Hall]; intros Hq; [done|]. inversion Hq; subst. cbn. rewrite IH by done.
  destruct qs as [|p qs]; [cbn; lia|].
  change (last (q :: p :: qs)) with (last (p :: qs)).
  destruct (last (p :: qs)) as [x|] eqn:E; [|by apply last_None in E]. cbn.
  rewrite Forall_forall in Hall. assert (x ∈ p :: qs) as Hx by (by apply last_Some_elem_of).
  specialize (Hall x Hx). lia.
Qed.

Lemma NewMessageLog_rep l st ms l' :
  log_rep l st ms -> NewMessageLog st (bucket l) = Ok l' ->
  l' = mkLog (bucket l) (default 0 (last ms.*1) + 1) /\ log_rep l' st ms.
Proof.
  intros Hr. unfold NewMessageLog. destruct (List_ (bucket l) st) as [keys|e] eqn:E; [|done]. intros [= <-].
  pose proof Hr as [Hn Hv]. pose proof Hn as [Hs Hb Hnx].
  assert (Forall in_seq ms.*1) as Hq by (apply Forall_forall; intros q; by eapply numbered_in_seq).
  rewrite (maxSeq_keys keys ms.*1) by (done || by eapply rep_keys).
  rewrite max_sorted; [|done|eapply Forall_impl; [exact Hb|]; cbn; lia].
  assert (forall q, last ms.*1 = Some q -> 1 <= q < next l) as Hlast.
  { intros q Hq1. rewrite Forall_forall in Hb. by apply Hb, last_Some_elem_of. }
  assert (0 <= default 0 (last ms.*1) < 2 ^ 64 - 1) as Hd.
  { destruct (last ms.*1) as [q|]; cbn; [specialize (Hlast q eq_refl); lia|lia]. }
  rewrite uwrap_small by lia. split; [done|]. split; [|done]. split; [done| |cbn; lia].
  apply Forall_forall. intros q Hin. cbn. rewrite Forall_forall in Hb. split; [by apply Hb|].
  destruct (last ms.*1) as [x|] eqn:El; [|apply last_None in El; rewrite El in Hin; inversion Hin].
  cbn. assert (q <= x); [|lia]. clear - Hs El Hin. revert El Hin.
  induction Hs as [|y qs Hs IH Hall]; intros El Hin; [done|].
  rewrite Forall_forall in Hall. destruct qs as [|z qs].
  - injection El as <-. apply list_elem_of_singleton in Hin. lia.
  - change (last (y :: z :: qs)) with (last (z :: qs)) in El.
    apply elem_of_cons in Hin as [->|Hin]; [|by apply IH].
    apply Z.lt_le_incl, Hall. by apply last_Some_elem_of.
Qed.

End refinement.

(** ** The properties *)

(** C13: Over any lawful store the message log is an ordered list. A successful
    append returns the next number and adds the message at the end, a failed one
    changes nothing; a replay calls its function on every message exactly once
    in the order of the log, until the function fails, or not at all when the
    store cannot be read; a successful prune leaves exactly the messages from
    the given number on, a failed one removes only messages below it; the
    length is the number of messages. *)
Theorem message_log_refines {S} `{StoreLaws S} (l : MessageLog) (st : S) ms :
  log_rep l st ms ->
  (forall d, next l < 2 ^ 64 - 1 ->
     match Append d l st with
     | (Ok seq, l', st') => seq = next l /\ l' = mkLog (bucket l) (seq + 1) /\ log_rep l' st' (ms ++ [(seq, d)])
     | (Err e, l', st') => l' = l /\ log_rep l st' ms
     end) /\
  ((forall W fn (w : W), Replay l st fn w = call_all fn ms w) \/
   (exists e, read_fails l st e /\ forall W fn (w : W), Replay l st fn w = (Some e, w))) /\
  (forall q, exists ms', log_rep l (Prune q l st).2 ms' /\ ms' `sublist_of` ms /\
     filter (fun m => q <= m.1) ms' = filter (fun m => q <= m.1) ms /\
     ((Prune q l st).1 = None -> ms' = filter (fun m => q <= m.1) ms)) /\
  (Len l st = Ok (len ms) \/ exists e, List_ (bucket l) st = Err e /\ Len l st = Err e).
Proof.
  intros Hr. split; [intros; by apply Append_rep|].
  split; [by apply Replay_rep|]. split; [intros; by apply Prune_rep|by apply Len_rep].
Qed.

(** Reopening a log keeps every message and resumes after the last one
    present, so no append after it replaces a message; but only what is present
    counts, so a log pruned of all its messages and reopened numbers from one
    again, and hands out numbers it has used. *)
Theorem reopen_resumes {S} `{StoreLaws S} (l l' : MessageLog) (st : S) ms :
  log_rep l st ms -> NewMessageLog st (bucket l) = Ok l' ->
  l' = mkLog (bucket l) (default 0 (last ms.*1) + 1) /\ log_rep l' st ms /\
  (ms = [] -> forall d seq l1 st1, Append d l' st = (Ok seq, l1, st1) -> seq = 1).
Proof.
  intros Hr Hn. destruct (NewMessageLog_rep l st ms l' Hr Hn) as [-> Hr']. split; [done|]. split; [done|].
  intros -> d seq l1 st1. unfold Append. destruct (Save _ _ _ st) as [[e|] st'] eqn:E; [done|]. by intros [= <- _ _].
Qed.


(** ** Runs *)

#[local] Instance std_range : MapRange bytes := map_range_std.

Definition log_name : bytes := [109; 115; 103].

(** Two messages appended to a fresh log in memory. *)
Definition two_appended : MessageLog * MemoryStore.Memory :=
  let '(_, l, st) := Append [7] (mkLog log_name 1) MemoryStore.NewMemory in
  let '(_, l, st) := Append [8; 9] l st in (l, st).

Definition collect (seq : Z) (data : bytes) (w : messages) : option error * messages := (None, w ++ [(seq, data)]).

Example replayed : Replay two_appended.1 two_appended.2 collect [] = (None, [(1, [7]); (2, [8; 9])]).
Proof. vm_compute. reflexivity. Qed.

Lemma two_appended_rep : log_rep two_appended.1 two_appended.2 [(1, [7]); (2, [8; 9])].
Proof. split; [split; [repeat constructor| |]; vm_compute; repeat constructor; done|]. vm_compute. reflexivity. Defined.

Lemma message_log_refines_witness :
  Replay two_appended.1 two_appended.2 collect [] = (None, [(1, [7]); (2, [8; 9])]) /\
  exists ms', log_rep two_appended.1 (Prune 2 two_appended.1 two_appended.2).2 ms' /\ ms' = [(2, [8; 9])].
Proof.
  destruct (message_log_refines _ _ _ two_appended_rep) as (_ & [HR|(e & [He|[k He]] & _)] & HP & _).
  - split; [apply HR|]. destruct (HP 2) as (ms' & Hr & _ & _ & Hall). exists ms'.
    split; [done|]. by apply Hall.
  - done.
  - exfalso. cbn in He. unfold MemoryStore.Load in He. by destruct (_ !! _).
Defined.

(** On bbolt: two messages, pruned, reopened. *)
Import BoltInMemory.

Definition pruned_bolt : MessageLog * BoltStore.BoltStore :=
  let '(_, l, st) := Append [7] (mkLog log_name 1) (BoltStore.mkBoltStore (∅ : buckets) false) in
  let '(_, l, st) := Append [8; 9] l st in
  (l, (Prune 3 l st).2).

Lemma reopen_resumes_witness :
  next pruned_bolt.1 = 3 /\ log_rep pruned_bolt.1 pruned_bolt.2 [] /\
  NewMessageLog pruned_bolt.2 (bucket pruned_bolt.1) = Ok (mkLog log_name 1) /\
  log_rep (mkLog log_name 1) pruned_bolt.2 [].
Proof.
  assert (log_rep pruned_bolt.1 pruned_bolt.2 []) as Hr.
  { split; [split; [constructor|constructor|vm_compute; done]|]. vm_compute. reflexivity. }
  assert (NewMessageLog pruned_bolt.2 (bucket pruned_bolt.1) = Ok (mkLog log_name 1)) as Hn by (vm_compute; reflexivity).
  split; [vm_compute; reflexivity|]. split; [done|]. split; [done|].
  apply (reopen_resumes _ _ _ _ Hr Hn).
Defined.
