(* ===== verification/SessionStore.v ===== *)
(** * SessionStore: [internal/infra/store/session_store.go]

    Session snapshots kept under the decimal text of their number.  The JSON
    codec is a parameter with the law the code relies on; over any lawful store
    and codec the session store is a map from numbers to snapshots. *)
From stdpp Require Import fin_maps gmap.
From S2P Require Import Prelude Bytes Core MemoryStore Store.
Local Open Scope Z_scope.
Local Open Scope list_scope.

(** [fmt.Sprintf("%d", id)] of a 64-bit unsigned number: at most 20 digits. *)
Definition utoa (n : Z) : bytes := decimal 20 n [].
Arguments utoa : simpl never.

(** [strconv.ParseUint(s, 10, 64)] *)
(* go: internal/infra/store/session_store.go:78-84 (parseUint64) *)
Definition parseUint64 (s : bytes) : option Z :=
  match s with
  | [] => None
  | _ =>
      match digits 0 s with
      | Some v => if v <? 2 ^ 64 then Some v else None
      | None => None
      end
  end.

(** The metadata map may be nil. *)
(* go: internal/infra/store/session_store.go:9-17 (SessionSnapshot) *)
Record SessionSnapshot : Type := mkSnapshot {
  ID : Z;
  Protocol_ : bytes;
  Remote : bytes;
  Local_ : bytes;
  State_ : bytes;
  Meta : option (gmap bytes bytes)
}.

(** [encoding/json] on a snapshot. *)
Class SnapshotCodec := {
  Marshal : SessionSnapshot -> result error bytes;
  Unmarshal : bytes -> result error SessionSnapshot
}.

(** Text that JSON carries unchanged: ASCII (invalid UTF-8 would be replaced). *)
Definition ascii (s : bytes) : Prop := Forall (fun c => 0 <= c < 128) s.

Record snapshot_ok (s : SessionSnapshot) : Prop := {
  so_id : 0 <= ID s < 2 ^ 64;
  so_text : ascii (Protocol_ s) /\ ascii (Remote s) /\ ascii (Local_ s) /\ ascii (State_ s);
  so_meta : forall m, Meta s = Some m -> map_Forall (fun k v => ascii k /\ ascii v) m
}.

(** Decoding what encoding a snapshot gave returns it. *)
Class SnapshotCodecLaws `{SnapshotCodec} : Prop :=
  Unmarshal_Marshal s d : snapshot_ok s -> Marshal s = Ok d -> Unmarshal d = Ok s.

Section session_store.
Context `{SnapshotCodec} {S : Type} `{Store S}.

(* go: internal/infra/store/session_store.go:19-23 (SessionStore) *)
Record SessionStore : Type := mkSessionStore { bucket : bytes }.

(* go: internal/infra/store/session_store.go:25-30 (NewSessionStore) *)
Definition NewSessionStore (b : bytes) : SessionStore :=
  mkSessionStore (if bool_decide (b = []) then bytes_of_string "snapshots" else b).

(* go: internal/infra/store/session_store.go:32-38 (SaveSnapshot) *)
Definition SaveSnapshot (snap : SessionSnapshot) (ss : SessionStore) (st : S) : option error * S :=
  match Marshal snap with
  | Err e => (Some (ErrWrap "session_store: marshal" e), st)
  | Ok data => Save (bucket ss) (utoa (ID snap)) data st
  end.

(* go: internal/infra/store/session_store.go:40-50 (LoadSnapshot) *)
Definition LoadSnapshot (id : Z) (ss : SessionStore) (st : S) : result error (option SessionSnapshot) :=
  match Load (bucket ss) (utoa id) st with
  | Err e => Err e
  | Ok None => Ok None
  | Ok (Some data) =>
      match Unmarshal data with
      | Err e => Err (ErrWrap "session_store: unmarshal" e)
      | Ok snap => Ok (Some snap)
      end
  end.

Fixpoint load_snapshots (keys : list bytes) (ss : SessionStore) (st : S) : result error (list SessionSnapshot) :=
  match keys with
  | [] => Ok []
  | key :: keys =>
      match parseUint64 key with
      | None => load_snapshots keys ss st
      | Some id =>
          match LoadSnapshot id ss st with
          | Err e => Err e
          | Ok None => load_snapshots keys ss st
          | Ok (Some snap) =>
              match load_snapshots keys ss st with
              | Err e => Err e
              | Ok snaps => Ok (snap :: snaps)
              end
          end
      end
  end.

(* go: internal/infra/store/session_store.go:52-72 (ListSnapshots) *)
Definition ListSnapshots (ss : SessionStore) (st : S) : result error (list SessionSnapshot) :=
  match List_ (bucket ss) st with
  | Err e => Err e
  | Ok keys => load_snapshots keys ss st
  end.

(* go: internal/infra/store/session_store.go:74-76 (DeleteSnapshot) *)
Definition DeleteSnapshot (id : Z) (ss : SessionStore) (st : S) : option error * S :=
  Delete (bucket ss) (utoa id) st.

End session_store.

(** ** Decimal keys *)

Lemma parseUint64_utoa id : 0 <= id < 2 ^ 64 -> parseUint64 (utoa id) = Some id.
Proof.
  intros Hid. unfold parseUint64. pose proof (decimal_nonempty 20 id []) as Hne. fold (utoa id) in Hne.
  destruct (utoa id) as [|c s] eqn:E; [by destruct Hne; [left; lia|]|]. rewrite <- E.
  unfold utoa. rewrite decimal_digits by lia. cbn [digits]. by rewrite (proj2 (Z.ltb_lt _ _)) by lia.
Qed.

Lemma utoa_inj a b : 0 <= a < 2 ^ 64 -> 0 <= b < 2 ^ 64 -> utoa a = utoa b -> a = b.
Proof. intros Ha Hb E. apply parseUint64_utoa in Ha, Hb. congruence. Qed.

(** ** The session store is a map *)
Section map.
Context `{SnapshotCodecLaws} {S : Type} `{StoreLaws S}.

(** The bucket holds the encodings of [m], and nothing else. *)
Record snaps_rep (ss : SessionStore) (st : S) (m : gmap Z SessionSnapshot) : Prop := {
  sr_in id snap : m !! id = Some snap ->
    ID snap = id /\ snapshot_ok snap /\
    exists d, Marshal snap = Ok d /\ view st (bucket ss) !! utoa id = Some d;
  sr_out k d : view st (bucket ss) !! k = Some d -> exists id, k = utoa id /\ is_Some (m !! id)
}.

Lemma sr_range ss st m id : snaps_rep ss st m -> is_Some (m !! id) -> 0 <= id < 2 ^ 64.
Proof. intros Hr [snap Hs]. by destruct (sr_in _ _ _ Hr _ _ Hs) as (<- & [Hid _ _] & _). Qed.

Lemma SaveSnapshot_rep snap ss st m :
  snaps_rep ss st m -> snapshot_ok snap ->
  match SaveSnapshot snap ss st with
  | (None, st') => snaps_rep ss st' (<[ID snap := snap]> m)
  | (Some e, st') => snaps_rep ss st' m
  end.
Proof.
  intros Hr Hs. unfold SaveSnapshot. destruct (Marshal snap) as [d|e] eqn:Em; [|done].
  destruct (Save _ _ _ st) as [[e|] st'] eqn:E.
  - destruct Hr as [Hin Hout]. split; intros *; rewrite (Save_err _ _ _ _ _ _ _ E); eauto.
  - destruct (Save_ok _ _ _ _ _ E) as [Hv _]. split.
    + intros id snap' [[<- <-]|[Hne Hl]]%lookup_insert_Some.
      * split; [done|]. split; [done|]. exists d. by rewrite Hv, lookup_insert_eq.
      * destruct (sr_in _ _ _ Hr _ _ Hl) as (Hid & Ho & d' & Hd & Hk). split; [done|]. split; [done|].
        exists d'. split; [done|]. rewrite Hv, lookup_insert_ne; [done|].
        intros E'. apply utoa_inj in E'; [done|apply Hs|eapply sr_range; eauto].
    + intros k d'. rewrite Hv. intros [[<- <-]|[Hne Hl]]%lookup_insert_Some.
      * exists (ID snap). by rewrite lookup_insert_eq.
      * destruct (sr_out _ _ _ Hr _ _ Hl) as (id & -> & Hi). exists id. split; [done|].
        rewrite lookup_insert_ne; [done|]. congruence.
Qed.

Lemma DeleteSnapshot_rep id ss st m :
  snaps_rep ss st m -> 0 <= id < 2 ^ 64 ->
  match DeleteSnapshot id ss st with
  | (None, st') => snaps_rep ss st' (delete id m)
  | (Some e, st') => snaps_rep ss st' m
  end.
Proof.
  intros Hr Hid. unfold DeleteSnapshot. destruct (Delete _ _ st) as [[e|] st'] eqn:E.
  - destruct Hr as [Hin Hout]. split; intros *; rewrite (Delete_err _ _ _ _ _ _ E); eauto.
  - destruct (Delete_ok _ _ _ _ E) as [Hv _]. split.
    + intros id' snap' [Hne Hl]%lookup_delete_Some.
      destruct (sr_in _ _ _ Hr _ _ Hl) as (Hid' & Ho & d' & Hd & Hk). split; [done|]. split; [done|].
      exists d'. split; [done|]. rewrite Hv, lookup_delete_ne; [done|].
      intros E'. apply utoa_inj in E'; [done|done|eapply sr_range; eauto].
    + intros k d'. rewrite Hv. intros [Hne Hl]%lookup_delete_Some.
      destruct (sr_out _ _ _ Hr _ _ Hl) as (id' & -> & Hi). exists id'. split; [done|].
      rewrite lookup_delete_ne; [done|]. congruence.
Qed.

Lemma LoadSnapshot_rep id ss st m :
  snaps_rep ss st m -> 0 <= id < 2 ^ 64 ->
  LoadSnapshot id ss st = Ok (m !! id) \/
  exists e, Load (bucket ss) (utoa id) st = Err e /\ LoadSnapshot id ss st = Err e.
Proof.
  intros Hr Hid. unfold LoadSnapshot. destruct (Load _ _ st) as [o|e] eqn:E; [left|right; eauto].
  apply Load_ok in E. destruct (m !! id) as [snap|] eqn:Em.
  - destruct (sr_in _ _ _ Hr _ _ Em) as (_ & Ho & d & Hd & Hk). rewrite Hk in E. subst o.
    by rewrite (Unmarshal_Marshal _ _ Ho Hd).
  - destruct o as [d|]; [|done]. symmetry in E. destruct (sr_out _ _ _ Hr _ _ E) as (id' & Ek & Hi).
    apply utoa_inj in Ek as ->; [by destruct Hi as [? ?]; congruence|done|by eapply sr_range].
Qed.

Lemma load_snapshots_rep ids ss st m :
  snaps_rep ss st m -> (forall id, id ∈ ids -> is_Some (m !! id)) ->
  load_snapshots (utoa <$> ids) ss st = Ok (omap (m !!.) ids) \/
  exists e k, Load (bucket ss) k st = Err e /\ load_snapshots (utoa <$> ids) ss st = Err e.
Proof.
  intros Hr. induction ids as [|id ids IH]; intros Hall; [by left|].
  assert (is_Some (m !! id)) as Hi by (apply Hall; by left).
  pose proof (sr_range _ _ _ _ Hr Hi) as Hid. rewrite fmap_cons.
  unfold load_snapshots; fold (@load_snapshots _ S _). rewrite parseUint64_utoa by done.
  destruct (LoadSnapshot_rep id ss st m Hr Hid) as [->|(e & He & ->)]; [|right; eauto].
  cbn. destruct Hi as [snap ->].
  destruct IH as [->|(e & k & He & ->)]; [intros; apply Hall; by right|by left|right; eauto].
Qed.

Lemma rep_ids ss st m keys :
  snaps_rep ss st m -> List_ (bucket ss) st = Ok keys -> keys ≡ₚ utoa <$> (map_to_list m).*1.
Proof.
  intros Hr Hk. rewrite (List_ok _ _ _ Hk).
  assert (forall id, id ∈ (map_to_list m).*1 <-> is_Some (m !! id)) as Hids.
  { intros id. rewrite list_elem_of_fmap. split.
    - intros ([i s] & -> & Hin%elem_of_map_to_list). by exists s.
    - intros [s Hs]. exists (id, s). by rewrite elem_of_map_to_list. }
  apply NoDup_Permutation.
  - apply NoDup_fst_map_to_list.
  - apply NoDup_fmap_2_strong; [|apply NoDup_fst_map_to_list].
    intros a b Ha%Hids Hb%Hids. apply utoa_inj; by eapply sr_range.
  - intros k. rewrite !list_elem_of_fmap. split.
    + intros ([k' d] & -> & Hin%elem_of_map_to_list).
      destruct (sr_out _ _ _ Hr _ _ Hin) as (id & -> & Hi). exists id. by rewrite Hids.
    + intros (id & -> & [s Hs]%Hids). destruct (sr_in _ _ _ Hr _ _ Hs) as (_ & _ & d & _ & Hd).
      exists (utoa id, d). by rewrite elem_of_map_to_list.
Qed.

Lemma ListSnapshots_rep ss st m :
  snaps_rep ss st m ->
  (exists l, ListSnapshots ss st = Ok l /\ l ≡ₚ (map_to_list m).*2) \/
  exists e, ListSnapshots ss st = Err e /\
    (List_ (bucket ss) st = Err e \/ exists k, Load (bucket ss) k st = Err e).
Proof.
  intros Hr. unfold ListSnapshots. destruct (List_ (bucket ss) st) as [keys|e] eqn:E; [|right; eauto].
  destruct (Permutation_map_inv utoa _ (rep_ids ss st m keys Hr E)) as (ids & -> & Hp%symmetry).
  change (map utoa ids) with (utoa <$> ids).
  destruct (load_snapshots_rep ids ss st m Hr) as [->|(e & k & He & ->)]; [|left|right; eauto].
  - intros id. rewrite Hp, list_elem_of_fmap. intros ([i s] & -> & Hin%elem_of_map_to_list). by exists s.
  - eexists. split; [done|]. rewrite Hp.
    assert (forall l, l ⊆ map_to_list m -> omap (m !!.) l.*1 = l.*2) as Hl; [|by rewrite Hl].
    induction l as [|[i s] l IH]; intros Hsub; [done|]. cbn.
    assert (m !! i = Some s) as -> by (apply elem_of_map_to_list, Hsub; by left).
    f_equal. apply IH. set_solver.
Qed.

End map.

(** Over any lawful store and codec the session store is a map from session
    numbers to snapshots: saving one makes loading its number return exactly
    it and touches no other number, deleting one removes it, a save or delete
    that fails changes nothing, and listing returns each snapshot present
    exactly once, or the error with which the store refused. *)
Theorem session_store_refines `{SnapshotCodecLaws} {S} `{StoreLaws S} (ss : SessionStore) (st : S) m :
  snaps_rep ss st m ->
  (forall snap, snapshot_ok snap ->
     match SaveSnapshot snap ss st with
     | (None, st') => snaps_rep ss st' (<[ID snap := snap]> m)
     | (Some e, st') => snaps_rep ss st' m
     end) /\
  (forall id, 0 <= id < 2 ^ 64 ->
     LoadSnapshot id ss st = Ok (m !! id) \/
     exists e, Load (bucket ss) (utoa id) st = Err e /\ LoadSnapshot id ss st = Err e) /\
  (forall id, 0 <= id < 2 ^ 64 ->
     match DeleteSnapshot id ss st with
     | (None, st') => snaps_rep ss st' (delete id m)
     | (Some e, st') => snaps_rep ss st' m
     end) /\
  ((exists l, ListSnapshots ss st = Ok l /\ l ≡ₚ (map_to_list m).*2) \/
   exists e, ListSnapshots ss st = Err e /\
     (List_ (bucket ss) st = Err e \/ exists k, Load (bucket ss) k st = Err e)).
Proof.
  intros Hr. split; [intros; by apply SaveSnapshot_rep|].
  split; [intros; by apply LoadSnapshot_rep|].
  split; [intros; by apply DeleteSnapshot_rep|by apply ListSnapshots_rep].
Qed.

(** ** A codec and a run *)

Fixpoint bits (p : positive) : bytes :=
  match p with xH => [] | xO p => 0 :: bits p | xI p => 1 :: bits p end.
Fixpoint unbits (b : bytes) : positive :=
  match b with [] => xH | c :: b => if c =? 0 then xO (unbits b) else xI (unbits b) end.

Lemma unbits_bits p : unbits (bits p) = p.
Proof. induction p as [p IH|p IH|]; cbn; by rewrite ?IH. Qed.

Definition to_tuple (s : SessionSnapshot) := (ID s, Protocol_ s, Remote s, Local_ s, State_ s, Meta s).

#[local] Instance bit_codec : SnapshotCodec := {|
  Marshal s := Ok (bits (encode (to_tuple s)));
  Unmarshal b :=
    match decode (unbits b) with
    | Some (id, p, r, l, s, m) => Ok (mkSnapshot id p r l s m)
    | None => Err (ErrMsg "unmarshal")
    end
|}.

#[local] Instance bit_codec_laws : SnapshotCodecLaws.
Proof. intros [id p r l s m] d _ [= <-]. cbn. by rewrite unbits_bits, decode_encode. Qed.

#[local] Instance std_range : MapRange bytes := map_range_std.

Definition a_snapshot : SessionSnapshot := mkSnapshot 7 [116; 99; 112] [97] [98] [99] (Some {[ [107] := [118] ]}).

Lemma a_snapshot_ok : snapshot_ok a_snapshot.
Proof.
  split; [cbn; lia|cbn; split_and!; repeat constructor; lia|].
  intros m [= <-]. apply map_Forall_singleton. split; repeat constructor; lia.
Qed.

Lemma memory_load b k (m : MemoryStore.Memory) e : Load b k m <> Err e.
Proof. cbn. unfold MemoryStore.Load. by destruct (_ !! _). Qed.

Lemma memory_saved snap ss (m : MemoryStore.Memory) : exists m', SaveSnapshot snap ss m = (None, m').
Proof. by eexists. Qed.

Lemma memory_empty ss : snaps_rep ss MemoryStore.NewMemory ∅.
Proof. by split; intros. Qed.

Lemma session_store_refines_witness :
  exists st, SaveSnapshot a_snapshot (NewSessionStore []) MemoryStore.NewMemory = (None, st) /\
             LoadSnapshot 7 (NewSessionStore []) st = Ok (Some a_snapshot).
Proof.
  destruct (session_store_refines (NewSessionStore []) MemoryStore.NewMemory ∅ (memory_empty _)) as (Hs & _).
  specialize (Hs a_snapshot a_snapshot_ok).
  destruct (memory_saved a_snapshot (NewSessionStore []) MemoryStore.NewMemory) as [st E]. rewrite E in Hs.
  exists st. split; [exact E|].
  destruct (session_store_refines (NewSessionStore []) st _ Hs) as (_ & Hl & _).
  destruct (Hl 7 ltac:(lia)) as [E7|(e & He & _)]; [|by apply memory_load in He].
  rewrite E7. exact (f_equal Ok (lookup_insert_eq ∅ 7 a_snapshot)).
Defined.
