(* ===== verification/Persistence.v ===== *)
(** * Persistence: [internal/plugin/persistence.go]

    The plugin that records sessions and messages in a store: the last event
    of each session under its protocol and number, and every message in a
    message log kept in a bucket of its own of the same store.  It never
    refuses a session and never changes a message, whatever the store does. *)
From stdpp Require Import fin_maps gmap.
From S2P Require Import Prelude Bytes Core MemoryStore Store SessionStore MessageLog.
Local Open Scope Z_scope.
Local Open Scope list_scope.

(** What the plugin reads of a session. *)
Record SessionInfo : Type := mkInfo { s_protocol : bytes; s_id : Z; s_remote : bytes }.

Section persistence.
Context {S : Type} `{Store S}.

(** The plugin's store is also the store of its message log. *)
(* go: internal/plugin/persistence.go:12-21 (Persistence) *)
Record Persistence : Type := mkPersistence {
  p_store : option S;
  p_bucket : bytes;
  p_log : option MessageLog;
  p_initErr : option error
}.

Definition with_store (st : S) (p : Persistence) : Persistence :=
  mkPersistence (Some st) (p_bucket p) (p_log p) (p_initErr p).

Definition messages_bucket (b : bytes) : bytes := b ++ bytes_of_string "/messages".

(* go: internal/plugin/persistence.go:23-45 (NewPersistence) *)
Definition NewPersistence (s : option S) (b : bytes) : Persistence :=
  let b := if bool_decide (b = []) then bytes_of_string "sessions" else b in
  match s with
  | None => mkPersistence None b None None
  | Some st =>
      match NewMessageLog st (messages_bucket b) with
      | Ok l => mkPersistence (Some st) b (Some l) None
      | Err e => mkPersistence (Some st) b None (Some (ErrWrap "persistence: init message log" e))
      end
  end.

(* go: internal/plugin/persistence.go:47-48 (Err) *)
Definition Err_ (p : Persistence) : option error := p_initErr p.

(* go: internal/plugin/persistence.go:50-52 (Start) *)
Definition Start (p : Persistence) : option error := p_initErr p.

(* go: internal/plugin/persistence.go:111-113 (key) *)
Definition key (sess : SessionInfo) : bytes := s_protocol sess ++ [47] ++ utoa (s_id sess).

(** ["<event> protocol=%s remote=%s at=%s"]; [at_] is the formatted time. *)
Definition event_text (event : bytes) (sess : SessionInfo) (at_ : bytes) : bytes :=
  event ++ bytes_of_string " protocol=" ++ s_protocol sess ++ bytes_of_string " remote=" ++ s_remote sess
  ++ bytes_of_string " at=" ++ at_.

(* go: internal/plugin/persistence.go:79-88 (OnAccept) *)
Definition OnAccept (sess : SessionInfo) (at_ : bytes) (p : Persistence) : option error * Persistence :=
  match p_store p with
  | None => (None, p)
  | Some st =>
      let value := event_text (bytes_of_string "accepted") sess at_ in
      let '(_, st) := Save (p_bucket p) (key sess) value st in
      (None, with_store st p)
  end.

(* go: internal/plugin/persistence.go:90-98 (OnClose) *)
Definition OnClose (sess : SessionInfo) (at_ : bytes) (p : Persistence) : Persistence :=
  match p_store p with
  | None => p
  | Some st =>
      let value := event_text (bytes_of_string "closed") sess at_ in
      let '(_, st) := Save (p_bucket p) (key sess) value st in
      with_store st p
  end.

(* go: internal/plugin/persistence.go:100-107 (OnMessage) *)
Definition OnMessage (data : bytes) (p : Persistence) : result error bytes * Persistence :=
  match p_log p, p_store p with
  | Some l, Some st =>
      let '(_, l, st) := Append data l st in
      (Ok data, mkPersistence (Some st) (p_bucket p) (Some l) (p_initErr p))
  | _, _ => (Ok data, p)
  end.

(** ** A gateway's calls of the plugin *)

Inductive event : Type :=
| Accepted (sess : SessionInfo) (at_ : bytes)
| Message (data : bytes)
| Closed (sess : SessionInfo) (at_ : bytes).

(** What a hook answers: no error, the message unchanged. *)
Definition passes (e : event) (o : option error + result error bytes) : Prop :=
  match e, o with
  | Accepted _ _, inl err => err = None
  | Message data, inr r => r = Ok data
  | Closed _ _, inl err => err = None
  | _, _ => False
  end.

Definition on_event (e : event) (p : Persistence) : (option error + result error bytes) * Persistence :=
  match e with
  | Accepted sess at_ => let '(err, p) := OnAccept sess at_ p in (inl err, p)
  | Message data => let '(r, p) := OnMessage data p in (inr r, p)
  | Closed sess at_ => (inl None, OnClose sess at_ p)
  end.

Fixpoint on_events (es : list event) (p : Persistence) : list (option error + result error bytes) * Persistence :=
  match es with
  | [] => ([], p)
  | e :: es => let '(o, p) := on_event e p in let '(os, p) := on_events es p in (o :: os, p)
  end.

(** The messages of the events, and the last text per session. *)
Definition message_of (e : event) : option bytes := match e with Message data => Some data | _ => None end.

Definition record_event (m : gmap bytes bytes) (e : event) : gmap bytes bytes :=
  match e with
  | Accepted sess at_ => <[key sess := event_text (bytes_of_string "accepted") sess at_]> m
  | Closed sess at_ => <[key sess := event_text (bytes_of_string "closed") sess at_]> m
  | Message _ => m
  end.

End persistence.

Lemma passes_event {S} `{Store S} e (p : @Persistence S) : passes e (on_event e p).1.
Proof.
  destruct e; cbn; unfold OnAccept, OnMessage; destruct (p_store p), (p_log p); cbn; try done;
    try destruct (Save _ _ _ _); try destruct (Append _ _ _) as [[??]?]; done.
Qed.

Lemma passes_events {S} `{Store S} es (p : @Persistence S) : Forall2 passes es (on_events es p).1.
Proof.
  revert p. induction es as [|e es IH]; intros p; cbn; [constructor|].
  pose proof (passes_event e p) as He. destruct (on_event e p) as [o p1]. cbn in He.
  specialize (IH p1). destruct (on_events es p1) as [os p2]. by constructor.
Qed.

Lemma messages_bucket_ne b : b <> messages_bucket b.
Proof.
  intros E. apply (f_equal length) in E. unfold messages_bucket in E. rewrite length_app in E. cbn in E. lia.
Qed.

Section records.
Context {S : Type} `{StoreLaws S}.

(** The store accepts every write. *)
Definition saves_all : Prop := forall b k v (s : S), exists s', Save b k v s = (None, s').

(** The plugin [p] holds the messages [ms] and the session texts [m]. *)
Definition holds (p : @Persistence S) (ms : messages) (m : gmap bytes bytes) : Prop :=
  exists st l, p_store p = Some st /\ p_log p = Some l /\ bucket l = messages_bucket (p_bucket p) /\
               log_rep l st ms /\ view st (p_bucket p) = m.

Lemma holds_save p ms m k v :
  saves_all -> holds p ms m ->
  exists st st', p_store p = Some st /\ Save (p_bucket p) k v st = (None, st') /\
                 holds (with_store st' p) ms (<[k := v]> m).
Proof.
  intros Hs (st & l & Est & El & Eb & [Hn Hv] & <-). destruct (Hs (p_bucket p) k v st) as [st' E].
  exists st, st'. split; [done|]. split; [done|]. destruct (Save_ok _ _ _ _ _ E) as [Hk Ho].
  exists st', l. split_and!; try done. split; [done|]. rewrite Ho; [done|].
  rewrite Eb. apply not_eq_sym, messages_bucket_ne.
Qed.

Lemma holds_append p ms m data :
  saves_all -> holds p ms m -> (forall l, p_log p = Some l -> next l < 2 ^ 64 - 1) ->
  exists l, p_log p = Some l /\ holds (OnMessage data p).2 (ms ++ [(next l, data)]) m /\
            forall l', p_log (OnMessage data p).2 = Some l' -> next l' = next l + 1.
Proof.
  intros Hs (st & l & Est & El & Eb & Hr & <-) Hnx. exists l. split; [done|].
  unfold OnMessage. rewrite El, Est. specialize (Hnx l El).
  pose proof (Append_rep data l st ms Hr Hnx) as Ha. pose proof (Append_other data l st (p_bucket p)) as Ho.
  unfold Append in *. destruct (Hs (bucket l) (seqKey (next l)) data st) as [st' E]. rewrite E in *.
  cbn in *. destruct Ha as (_ & [= En] & Ha). split; [|intros l' [= <-]; done].
  exists st', (mkLog (bucket l) (u64 (next l + 1))). split_and!; try done.
  apply Ho. rewrite Eb. apply messages_bucket_ne.
Qed.
(** The room left in the log's numbers. *)
Definition room (p : @Persistence S) : Z := match p_log p with Some l => 2 ^ 64 - 1 - next l | None => 0 end.

Lemma holds_event e p ms m :
  saves_all -> holds p ms m -> 0 < room p ->
  exists ms', holds (on_event e p).2 ms' (record_event m e) /\
              ms'.*2 = ms.*2 ++ omap message_of [e] /\ room p - 1 <= room (on_event e p).2.
Proof.
  intros Hs Hh Hroom. destruct e as [sess at_|data|sess at_]; cbn.
  - destruct (holds_save p ms m (key sess) (event_text (bytes_of_string "accepted") sess at_) Hs Hh)
      as (st & st' & Est & E & Hh'). exists ms. unfold OnAccept. rewrite Est, E. cbn. rewrite app_nil_r.
    split; [done|]. split; [done|]. unfold room. cbn. lia.
  - destruct (holds_append p ms m data Hs Hh) as (l & El & Hh' & Hnx).
    { intros l El. unfold room in Hroom. rewrite El in Hroom. lia. }
    destruct (OnMessage data p) as [r p'] eqn:Eo. cbn in *. exists (ms ++ [(next l, data)]).
    split; [done|]. split; [by rewrite fmap_app|]. unfold room in *. rewrite El in *.
    destruct Hh' as (st' & l' & _ & El' & _). rewrite El'. rewrite (Hnx l' El'). lia.
  - destruct (holds_save p ms m (key sess) (event_text (bytes_of_string "closed") sess at_) Hs Hh)
      as (st & st' & Est & E & Hh'). exists ms. unfold OnClose. rewrite Est, E. cbn. rewrite app_nil_r.
    split; [done|]. split; [done|]. unfold room. cbn. lia.
Qed.

Lemma holds_events es p ms m :
  saves_all -> holds p ms m -> len es <= room p ->
  exists ms', holds (on_events es p).2 ms' (fold_left record_event es m) /\
              ms'.*2 = ms.*2 ++ omap message_of es.
Proof.
  intros Hs. revert p ms m. induction es as [|e es IH]; intros p ms m Hh Hroom.
  - exists ms. cbn. by rewrite app_nil_r.
  - rewrite len_cons in Hroom. pose proof (len_nonneg es).
    destruct (holds_event e p ms m Hs Hh) as (ms1 & Hh1 & E1 & Hr1); [lia|].
    cbn. destruct (on_event e p) as [o p1]. cbn in *.
    destruct (IH p1 ms1 (record_event m e) Hh1) as (ms2 & Hh2 & E2); [lia|].
    destruct (on_events es p1) as [os p2]. cbn in *. exists ms2. split; [done|].
    rewrite E2, E1, <- app_assoc. f_equal. by destruct (message_of e).
Qed.
End records.

(** The persistence plugin records and never interferes. Whatever the store
    answers, every accept and close passes and every message goes on unchanged;
    and when the store accepts its writes, the message log holds exactly the
    messages seen, once each and in order, and each session's record is the
    text of its last event - the log and the records never touching each other
    although one store holds both. *)
Theorem persistence_records {S} `{StoreLaws S} (p : @Persistence S) es ms m :
  holds p ms m ->
  Forall2 passes es (on_events es p).1 /\
  (saves_all (S := S) -> len es <= room p ->
   exists ms', holds (on_events es p).2 ms' (fold_left record_event es m) /\
               ms'.*2 = ms.*2 ++ omap message_of es).
Proof. intros Hh. split; [apply passes_events|]. intros. by apply holds_events. Qed.

(** ** A run in memory *)

#[local] Instance std_range : MapRange bytes := map_range_std.

Definition a_session : SessionInfo := mkInfo (bytes_of_string "tcp") 1 (bytes_of_string "10.0.0.1:5").
Definition a_run : list event :=
  [Accepted a_session (bytes_of_string "t0"); Message [1]; Message [2; 3]; Closed a_session (bytes_of_string "t1")].
Definition fresh : @Persistence MemoryStore.Memory := NewPersistence (Some MemoryStore.NewMemory) [].

Lemma fresh_holds : holds fresh [] ∅.
Proof.
  eexists _, _. split; [reflexivity|]. split; [reflexivity|]. split; [reflexivity|]. split; [|reflexivity].
  split; [split; [constructor|constructor|vm_compute; done]|reflexivity].
Qed.

Lemma persistence_records_witness :
  exists ms', holds (on_events a_run fresh).2 ms' (fold_left record_event a_run ∅) /\ ms'.*2 = [[1]; [2; 3]].
Proof.
  destruct (persistence_records fresh a_run [] ∅ fresh_holds) as [_ H].
  apply H; [intros b k v s; by eexists|vm_compute; discriminate].
Defined.

