(* ===== verification/Lifecycle.v ===== *)
(** * Lifecycle: [internal/plugin/lifecycle.go]

    The start and stop of a plugin with a background goroutine (heartbeat,
    cluster, rate limit, auto-ban).  Its three methods run their critical
    sections one at a time, but the release of the wait group in [done] and the
    wait in [shutdown] happen after the lock is given up, so starts, stops and
    exits interleave; the step relation below has every such interleaving. *)
From S2P Require Import Prelude.
Local Open Scope Z_scope.
Local Open Scope list_scope.

(** The channels and wait groups made so far, by number; a panic of the runtime
    (closing a closed channel, a negative wait group) is recorded. *)
Record heap : Type := mkHeap {
  chans : list bool;    (* is it closed *)
  wgs : list Z;         (* the counter *)
  panicked : bool
}.

(* go: internal/plugin/lifecycle.go:15-21 (lifecycle) *)
Record lifecycle : Type := mkLc {
  started : bool;
  closed : bool;
  stopCh : option nat;
  running : option nat
}.

Definition lc_zero : lifecycle := mkLc false false None None.

Definition close_chan (c : option nat) (h : heap) : heap :=
  match c with
  | Some i =>
      match chans h !! i with
      | Some false => mkHeap (<[i := true]> (chans h)) (wgs h) (panicked h)
      | _ => mkHeap (chans h) (wgs h) true
      end
  | None => mkHeap (chans h) (wgs h) true
  end.

Definition wg_Done (w : nat) (h : heap) : heap :=
  match wgs h !! w with
  | Some n =>
      if 0 <? n then mkHeap (chans h) (<[w := n - 1]> (wgs h)) (panicked h)
      else mkHeap (chans h) (wgs h) true
  | None => mkHeap (chans h) (wgs h) true
  end.

(** The stop channel of a new cycle, or none when one is running. *)
(* go: internal/plugin/lifecycle.go:23-40 (begin) *)
Definition begin (l : lifecycle) (h : heap) : option nat * lifecycle * heap :=
  if started l then (None, l, h)
  else
    let ch := length (chans h) in
    let wg := length (wgs h) in
    (Some ch, mkLc true false (Some ch) (Some wg), mkHeap (chans h ++ [false]) (wgs h ++ [1]) (panicked h)).

(** The critical section: the wait group to release after it. *)
(* go: internal/plugin/lifecycle.go:42-54 (done) *)
Definition done_locked (l : lifecycle) : option nat * lifecycle :=
  (running l, mkLc false (closed l) (stopCh l) None).

Definition done_release (wg : option nat) (h : heap) : heap :=
  match wg with Some w => wg_Done w h | None => h end.

(** The critical section: none when it returns at once, else the wait group the
    caller goes on to wait for. *)
(* go: internal/plugin/lifecycle.go:56-73 (shutdown) *)
Definition shutdown_locked (l : lifecycle) (h : heap) : option (option nat) * lifecycle * heap :=
  if negb (started l) then (None, l, h)
  else
    let '(l, h) :=
      if closed l then (l, h)
      else (mkLc (started l) true (stopCh l) (running l), close_chan (stopCh l) h) in
    (Some (running l), l, h).

(** ** The goroutines around it *)

(** The background goroutine of a cycle: at work, between the two halves of
    [done], or gone. *)
Inductive worker : Type := Working | Leaving (wg : option nat) | Gone.

Record world : Type := mkWorld {
  lc : lifecycle;
  hp : heap;
  workers : list worker;            (* one per successful [begin] *)
  waiters : list (option nat)       (* the [shutdown] calls in [wg.Wait] *)
}.

Definition world0 : world := mkWorld lc_zero (mkHeap [] [] false) [] [].

Definition waited (wg : option nat) (h : heap) : Prop :=
  match wg with Some w => wgs h !! w = Some 0 | None => True end.

Inductive step : world -> world -> Prop :=
| step_begin s ch l h :
    begin (lc s) (hp s) = (Some ch, l, h) -> step s (mkWorld l h (workers s ++ [Working]) (waiters s))
| step_begin_no s l h :
    begin (lc s) (hp s) = (None, l, h) -> step s (mkWorld l h (workers s) (waiters s))
| step_done s i wg l :
    workers s !! i = Some Working -> done_locked (lc s) = (wg, l) ->
    step s (mkWorld l (hp s) (<[i := Leaving wg]> (workers s)) (waiters s))
| step_release s i wg :
    workers s !! i = Some (Leaving wg) ->
    step s (mkWorld (lc s) (done_release wg (hp s)) (<[i := Gone]> (workers s)) (waiters s))
| step_shutdown_now s l h :
    shutdown_locked (lc s) (hp s) = (None, l, h) -> step s (mkWorld l h (workers s) (waiters s))
| step_shutdown s wg l h :
    shutdown_locked (lc s) (hp s) = (Some wg, l, h) -> step s (mkWorld l h (workers s) (wg :: waiters s))
| step_waited s wg ws :
    waiters s ≡ₚ wg :: ws -> waited wg (hp s) -> step s (mkWorld (lc s) (hp s) (workers s) ws).

(** ** What holds throughout *)

(** The wait group of a cycle counts its goroutine until it is gone. *)
Definition wg_of (w : worker) : Z := match w with Gone => 0 | _ => 1 end.

(** Cycle [k] is the one the plugin is in. *)
Definition current (s : world) (k : nat) : Prop :=
  started (lc s) = true /\ running (lc s) = Some k /\ stopCh (lc s) = Some k.

Record wf (s : world) : Prop := {
  wf_ok : panicked (hp s) = false;
  wf_len : length (chans (hp s)) = length (workers s);
  wf_wgs : wgs (hp s) = wg_of <$> workers s;
  wf_started : started (lc s) = true -> exists k, current s k /\ workers s !! k = Some Working /\
                                         chans (hp s) !! k = Some (closed (lc s));
  wf_working k : workers s !! k = Some Working -> current s k;
  wf_leaving k w : workers s !! k = Some (Leaving w) -> w = Some k;
  wf_waiters w : w ∈ waiters s -> exists k, w = Some k /\ chans (hp s) !! k = Some true
}.

Lemma lc_wf_world0 : wf world0.
Proof. split; try done; cbn; intros; set_solver. Qed.

Lemma current_unique s j k : current s j -> current s k -> j = k.
Proof. intros (_ & E1 & _) (_ & E2 & _). congruence. Qed.

Lemma wf_begin s ch l h : wf s -> begin (lc s) (hp s) = (Some ch, l, h) ->
  wf (mkWorld l h (workers s ++ [Working]) (waiters s)).
Proof.
  intros [Hok Hlen Hwg Hst Hwk Hlv Hwt]. unfold begin. destruct (started (lc s)) eqn:Es; [done|].
  intros [= <- <- <-].
  assert (length (wgs (hp s)) = length (workers s)) as Hl by (by rewrite Hwg, length_fmap).
  rewrite Hl, Hlen. set (n := length (workers s)).
  assert (current (mkWorld (mkLc true false (Some n) (Some n)) (hp s) [] []) n) as Hc by done.
  split; cbn [hp lc workers waiters panicked chans wgs started closed].
  - done.
  - rewrite !length_app. cbn. lia.
  - by rewrite fmap_app, Hwg.
  - intros _. exists n. split; [exact Hc|]. subst n.
    by rewrite <- Hlen at 2; rewrite !lookup_app_r, !Nat.sub_diag by lia.
  - intros k [Hk|[Hge Hk]]%lookup_app_Some; [by apply Hwk in Hk as [Hs _]; congruence|].
    apply list_lookup_singleton_Some in Hk as [E _]. replace k with n by lia. exact Hc.
  - intros k w [Hk|[_ Hk]]%lookup_app_Some; [by apply Hlv|].
    by apply list_lookup_singleton_Some in Hk as [_ [=]].
  - intros w (k & -> & Hk)%Hwt. exists k. split; [done|]. by apply lookup_app_l_Some.
Qed.

Lemma wf_done s i wg l : wf s -> workers s !! i = Some Working -> done_locked (lc s) = (wg, l) ->
  wf (mkWorld l (hp s) (<[i := Leaving wg]> (workers s)) (waiters s)).
Proof.
  intros [Hok Hlen Hwg Hst Hwk Hlv Hwt] Hi. destruct (Hwk i Hi) as (Hs & Hr & Hc).
  unfold done_locked. rewrite Hr. intros [= <- <-].
  split; cbn [hp lc workers waiters started closed]; try done.
  - by rewrite length_insert.
  - rewrite Hwg, list_fmap_insert. symmetry. apply list_insert_id. by rewrite list_lookup_fmap, Hi.
  - intros k [(-> & [=] & _)|[Hne Hk]]%list_lookup_insert_Some.
    destruct Hne. by apply (current_unique s); apply Hwk.
  - intros k w [(-> & [= <-] & _)|[Hne Hk]]%list_lookup_insert_Some; [done|by apply Hlv].
Qed.

Lemma wf_release s i wg : wf s -> workers s !! i = Some (Leaving wg) ->
  wf (mkWorld (lc s) (done_release wg (hp s)) (<[i := Gone]> (workers s)) (waiters s)).
Proof.
  intros [Hok Hlen Hwg Hst Hwk Hlv Hwt] Hi. pose proof (Hlv i wg Hi) as ->.
  assert (wgs (hp s) !! i = Some 1) as Hw by (by rewrite Hwg, list_lookup_fmap, Hi).
  unfold done_release, wg_Done. rewrite Hw. cbn.
  split; cbn [hp lc workers waiters started closed panicked chans wgs]; try done.
  - by rewrite length_insert.
  - by rewrite Hwg, list_fmap_insert.
  - intros (k & Hk & Hwk' & Hch)%Hst. exists k. split; [done|]. split; [|done].
    rewrite list_lookup_insert_ne; [done|]. intros ->. congruence.
  - intros k [(-> & [=] & _)|[Hne Hk]]%list_lookup_insert_Some. by apply Hwk.
  - intros k w [(-> & [=] & _)|[Hne Hk]]%list_lookup_insert_Some. by apply Hlv.
Qed.

Lemma wf_shutdown s wg l h : wf s -> shutdown_locked (lc s) (hp s) = (Some wg, l, h) ->
  wf (mkWorld l h (workers s) (wg :: waiters s)).
Proof.
  intros [Hok Hlen Hwg Hst Hwk Hlv Hwt]. unfold shutdown_locked.
  destruct (started (lc s)) eqn:Es; [cbn|done].
  destruct (Hst eq_refl) as (k & (Hs & Hr & Hc) & Hk & Hch). rewrite Hr.
  destruct (closed (lc s)) eqn:Ec.
  - intros [= <- <- <-]. split; cbn [hp lc workers waiters]; try done; [intros _; exists k; by rewrite Ec|].
    intros w [->|Hw]%elem_of_cons; [by exists k|by apply Hwt].
  - unfold close_chan. rewrite Hc, Hch. intros [= <- <- <-]. cbn [running].
    split; cbn [hp lc workers waiters panicked chans wgs started closed]; try done.
    + by rewrite length_insert.
    + intros _. exists k. split; [done|]. split; [done|].
      apply list_lookup_insert_eq. by eapply lookup_lt_Some.
    + intros j Hj. destruct (Hwk j Hj) as (_ & Hr' & Hc'). split; [done|]. split; cbn; congruence.
    + intros w [->|(j & -> & Hj)%Hwt]%elem_of_cons.
      * exists k. split; [congruence|]. apply list_lookup_insert_eq. by eapply lookup_lt_Some.
      * exists j. split; [done|]. destruct (decide (j = k)) as [->|Hne].
        -- apply list_lookup_insert_eq. by eapply lookup_lt_Some.
        -- by rewrite list_lookup_insert_ne.
Qed.

Lemma lc_wf_step s s' : wf s -> step s s' -> wf s'.
Proof.
  intros Hw. inversion 1 as [? ch l h Hb|? l h Hb|? i wg l Hi Hd|? i wg Hi|? l h Hsd|? wg l h Hsd|? wg ws Hp Hz]; subst.
  - by eapply wf_begin.
  - unfold begin in Hb. destruct (started (lc s)); [|done]. injection Hb as <- <-. by destruct s.
  - by eapply wf_done.
  - by apply wf_release.
  - unfold shutdown_locked in Hsd. destruct (started (lc s)); cbn in Hsd.
    { by destruct (closed (lc s)). }
    injection Hsd as <- <-. by destruct s.
  - by eapply wf_shutdown.
  - destruct Hw. split; try done. cbn. intros w Hin. apply wf_waiters0. rewrite Hp. by right.
Qed.

Lemma lc_wf_reachable s : star step world0 s -> wf s.
Proof. intros Hs. eapply (star_invariant step wf); [apply lc_wf_step|done|apply lc_wf_world0]. Qed.

(** ** The properties *)

(** C22: However starts, stops and exits of a plugin interleave, no stop channel
    is closed twice and no wait group goes below zero; at most one background
    goroutine is at work, and it is the current cycle's, so a start during a
    stop does nothing; and a stop that returns after waiting returns only once
    the goroutine it stopped is gone. *)
Theorem lifecycle_safe s :
  star step world0 s ->
  panicked (hp s) = false /\
  (forall j k, workers s !! j = Some Working -> workers s !! k = Some Working -> j = k) /\
  (forall k, workers s !! k = Some Working -> forall l h, begin (lc s) (hp s) = (None, l, h) <-> l = lc s /\ h = hp s) /\
  (forall w, w ∈ waiters s -> exists k, w = Some k /\ chans (hp s) !! k = Some true /\
     (waited w (hp s) <-> workers s !! k = Some Gone)).
Proof.
  intros Hw%lc_wf_reachable. pose proof Hw as [Hok Hlen Hwg Hst Hwk Hlv Hwt].
  split; [done|]. split; [intros j k Hj Hk; by apply (current_unique s); apply Hwk|]. split.
  - intros k Hk l h. unfold begin. destruct (Hwk k Hk) as (-> & _). split; [by intros [= <- <-]|by intros [-> ->]].
  - intros w (k & -> & Hk)%Hwt. exists k. split; [done|]. split; [done|]. cbn.
    rewrite Hwg, list_lookup_fmap.
    assert (is_Some (workers s !! k)) as [w Hkw]
      by (apply lookup_lt_is_Some; rewrite <- Hlen; by eapply lookup_lt_Some).
    rewrite Hkw. destruct w; cbn; split; congruence.
Qed.

(** Steps of the goroutine of cycle [k]: out of its loop once its stop channel
    is closed, then through [done]. *)
Inductive exit_step (k : nat) (s : world) : world -> Prop :=
| exit_done wg l :
    workers s !! k = Some Working -> chans (hp s) !! k = Some true -> done_locked (lc s) = (wg, l) ->
    exit_step k s (mkWorld l (hp s) (<[k := Leaving wg]> (workers s)) (waiters s))
| exit_release wg :
    workers s !! k = Some (Leaving wg) ->
    exit_step k s (mkWorld (lc s) (done_release wg (hp s)) (<[k := Gone]> (workers s)) (waiters s)).

Lemma exit_step_step k s s' : exit_step k s s' -> step s s'.
Proof. inversion 1; subst; [by eapply step_done|by apply step_release]. Qed.

(** What a cycle's goroutine still has to do. *)
Definition exit_measure (k : nat) (s : world) : nat :=
  match workers s !! k with Some Working => 2 | Some (Leaving _) => 1 | _ => 0 end.

Lemma exit_step_decreases k s s' : exit_step k s s' -> exit_measure k s = S (exit_measure k s').
Proof.
  inversion 1 as [wg l Hk Hc Hd|wg Hk]; subst; unfold exit_measure; cbn; rewrite Hk, list_lookup_insert_eq;
    try done; by eapply lookup_lt_Some.
Qed.


(** No step of anything else sets a cycle's goroutine back. *)
Lemma step_measure k s s' : (k < length (workers s))%nat -> step s s' -> (exit_measure k s' <= exit_measure k s)%nat.
Proof.
  intros Hk. unfold exit_measure.
  inversion 1 as [? ch l h Hb|? l h Hb|? i wg l Hi Hd|? i wg Hi|? l h Hsd|? wg l h Hsd|? wg ws Hp Hz]; subst; cbn; try lia.
  - by rewrite lookup_app_l.
  - destruct (decide (i = k)) as [->|Hne]; [|by rewrite list_lookup_insert_ne].
    rewrite list_lookup_insert_eq, Hi by done. lia.
  - destruct (decide (i = k)) as [->|Hne]; [|by rewrite list_lookup_insert_ne].
    rewrite list_lookup_insert_eq, Hi by done. lia.
Qed.

(** A stop that waits is bound to return once the goroutine it stopped
    looks at its stop channel: that goroutine is never stuck on its way out, it
    is gone after at most two steps of its own, no start, stop or exit sets it
    back, and once it is gone the wait is over for good. *)
Theorem stop_returns s w :
  star step world0 s -> w ∈ waiters s ->
  exists k, w = Some k /\ (exit_measure k s <= 2)%nat /\
    (exit_measure k s = 0%nat <-> waited w (hp s)) /\
    (exit_measure k s <> 0%nat -> exists s', exit_step k s s') /\
    (forall s', exit_step k s s' -> step s s' /\ exit_measure k s = S (exit_measure k s')) /\
    (forall s', step s s' -> (exit_measure k s' <= exit_measure k s)%nat).
Proof.
  intros Hw%lc_wf_reachable Hin. pose proof Hw as [Hok Hlen Hwg Hst Hwk Hlv Hwt].
  destruct (Hwt w Hin) as (k & -> & Hk). exists k. split; [done|].
  assert (k < length (workers s))%nat as Hlt by (rewrite <- Hlen; by eapply lookup_lt_Some).
  destruct (lookup_lt_is_Some_2 _ _ Hlt) as [x Hx].
  split; [unfold exit_measure; rewrite Hx; destruct x; lia|]. split; [|split; [|split]].
  - cbn. rewrite Hwg, list_lookup_fmap. unfold exit_measure. rewrite Hx. destruct x; cbn; split; congruence.
  - unfold exit_measure. rewrite Hx. destruct x; intros Hne; [| |done].
    + eexists. eapply exit_done; [done|done|reflexivity].
    + eexists. by eapply exit_release.
  - intros s' He. split; [by eapply exit_step_step|by apply exit_step_decreases].
  - intros s'. by apply step_measure.
Qed.

(** ** A run: start, stop, start again while stopping, the goroutine leaves *)

Definition stopping : world :=
  mkWorld (mkLc true true (Some 0%nat) (Some 0%nat)) (mkHeap [true] [1] false) [Working] [Some 0%nat].

Lemma stopping_reachable : star step world0 stopping.
Proof.
  eapply star_step; [eapply step_begin; reflexivity|].
  eapply star_step; [eapply step_shutdown; reflexivity|].
  eapply star_step; [eapply step_begin_no; reflexivity|]. apply star_refl.
Qed.

Lemma lifecycle_safe_witness : panicked (hp stopping) = false /\ ~ waited (Some 0%nat) (hp stopping).
Proof.
  destruct (lifecycle_safe stopping stopping_reachable) as (H & _ & _ & Hw). split; [exact H|].
  destruct (Hw (Some 0%nat) ltac:(left)) as (k & [= <-] & _ & Hiff). rewrite Hiff. discriminate.
Defined.

Lemma stop_returns_witness : exists s', exit_step 0 stopping s' /\ exit_measure 0 stopping = S (exit_measure 0 s').
Proof.
  destruct (stop_returns stopping (Some 0%nat) stopping_reachable ltac:(left)) as (k & [= <-] & _ & _ & Hs & Hd & _).
  destruct Hs as [s' Hs']; [discriminate|]. exists s'. split; [exact Hs'|]. by apply Hd.
Defined.
