(* ===== verification/Heartbeat.v ===== *)
(** * Heartbeat: [internal/plugin/heartbeat.go] and [slow_handler.go]

    The plugin that closes sessions that have been silent too long.  A sweep
    visits a snapshot of the session manager, closes each expired session with
    a bound on how long that may take, and unregisters it whatever the close
    did.  The loop around it is the one of [Lifecycle].

    After it, the handler wrapper that reports slow messages.  It changes
    nothing of what the handler does or answers; it logs exactly the messages
    that took the threshold or longer, and nothing when it is not configured. *)
From stdpp Require Import fin_maps gmap.
From S2P Require Import Prelude Bytes Core SessionManager.
Local Open Scope Z_scope.
Local Open Scope list_scope.

(** [t.Sub(u)] on times in nanoseconds: it saturates at the ends of a Duration. *)
Definition time_Sub (t u : Z) : Z := Z.max min_int64 (Z.min max_int64 (t - u)).

Definition Second : Z := 1000000000.
Definition Minute : Z := 60 * Second.

(* go: internal/plugin/heartbeat.go:93-97 (defaultSweepCloseTimeout) *)
Definition defaultSweepCloseTimeout : Z := 5 * Second.

(* go: internal/plugin/heartbeat.go:99-100 (errSweepCloseTimeout) *)
Definition errSweepCloseTimeout : error := ErrMsg "heartbeat: session close timed out".

(** [h_manager] tells whether a manager was given. *)
(* go: internal/plugin/heartbeat.go:11-19 (Heartbeat) *)
Record Heartbeat : Type := mkHeartbeat {
  h_manager : bool;
  h_timeout : Z;
  h_interval : Z;
  h_closeTimeout : Z
}.

(* go: internal/plugin/heartbeat.go:21-32 (NewHeartbeat) *)
Definition NewHeartbeat (manager : bool) (timeout interval : Z) : Heartbeat :=
  let timeout := if timeout <=? 0 then Minute else timeout in
  let interval := if interval <=? 0 then timeout / 2 else interval in
  let interval := if interval <=? 0 then Second else interval in
  mkHeartbeat manager timeout interval defaultSweepCloseTimeout.

(* go: internal/plugin/heartbeat.go:34-41 (WithSweepCloseTimeout) *)
Definition WithSweepCloseTimeout (d : Z) (p : Heartbeat) : Heartbeat :=
  if 0 <? d then mkHeartbeat (h_manager p) (h_timeout p) (h_interval p) d else p.

(** How a session's Close ends for the goroutine that runs it, and after how
    long: it returns, it panics, or it is still running. *)
Inductive close_end : Type :=
| CloseReturned (after : Z) (err : option error)
| ClosePanicked (after : Z)
| CloseStuck.

(** The wait for it, bounded. A close that ends as the timer fires may go
    either way ([late]). *)
(* go: internal/plugin/heartbeat.go:102-129 (safeSessionClose) *)
Definition safeSessionClose (closeTimeout : Z) (late : bool) (e : close_end) : option error :=
  let timeout := if closeTimeout <=? 0 then defaultSweepCloseTimeout else closeTimeout in
  let in_time after := (after <? timeout) || ((after =? timeout) && negb late) in
  match e with
  | CloseReturned after err => if in_time after then err else Some errSweepCloseTimeout
  | ClosePanicked after => if in_time after then Some ErrHandlerPanic else Some errSweepCloseTimeout
  | CloseStuck => Some errSweepCloseTimeout
  end.

Lemma close_at_once closeTimeout late : safeSessionClose closeTimeout late (CloseReturned 0 None) = None.
Proof.
  unfold safeSessionClose. destruct (closeTimeout <=? 0) eqn:E; [done|]. apply Z.leb_gt in E.
  by rewrite (proj2 (Z.ltb_lt 0 closeTimeout)).
Qed.

(** How long the sweep waits for one session. *)
Definition close_wait (closeTimeout : Z) (e : close_end) : Z :=
  let timeout := if closeTimeout <=? 0 then defaultSweepCloseTimeout else closeTimeout in
  match e with
  | CloseReturned after _ | ClosePanicked after => Z.min after timeout
  | CloseStuck => timeout
  end.

Section sweep.
Context {W : Type} `{!MapRange Z}.
(** The sessions' [LastActiveAt] and [Close], user code that may re-enter the
    manager; the second also says how it ends and how a tie with the timer
    goes. *)
Variable LastActiveAt : Session -> W -> Z.
Variable Close : Session -> SessionManager * W -> close_end * bool * (SessionManager * W).

Definition expired (p : Heartbeat) (now : Z) (w : W) (s : Session) : bool :=
  h_timeout p <? time_Sub now (LastActiveAt s w).

Fixpoint sweep_loop (p : Heartbeat) (now : Z) (l : list Session) (closed : Z) (st : SessionManager * W) :
    Z * (SessionManager * W) :=
  match l with
  | [] => (closed, st)
  | sess :: l =>
      if expired p now st.2 sess then
        let '(e, late, st) := Close sess st in
        let closed := match safeSessionClose (h_closeTimeout p) late e with None => closed + 1 | Some _ => closed end in
        sweep_loop p now l closed ((Unregister (ID sess) st.1).2, st.2)
      else sweep_loop p now l closed st
  end.

(* go: internal/plugin/heartbeat.go:75-91 (Sweep) *)
Definition Sweep (p : Heartbeat) (now : Z) (st : SessionManager * W) : Z * (SessionManager * W) :=
  if negb (h_manager p) then (0, st)
  else sweep_loop p now (Snapshot st.1) 0 st.

(** ** What a sweep leaves *)

(** A session's Close may remove that session from the manager and nothing
    else, and says nothing about other sessions' activity. *)
Definition closes_itself : Prop := forall s m w t,
  refines m t ->
  let '(_, (m', w')) := Close s (m, w) in
  (refines m' t \/ refines m' (mkTable (t_max t) (delete (ID s) (t_sessions t)))) /\
  (forall s', ID s' <> ID s -> LastActiveAt s' w' = LastActiveAt s' w).

Definition small (t : Table) : Prop := Z.of_nat (size (t_sessions t)) <= max_int64.

Lemma small_delete t id : small t -> small (mkTable (t_max t) (delete id (t_sessions t))).
Proof.
  unfold small. cbn. intros H. pose proof (map_size_delete id (t_sessions t)) as E.
  destruct (t_sessions t !! id); cbv [Datatypes.id] in E; lia.
Qed.

(** Closing and unregistering a session removes it. *)
Lemma close_unregister s m w t :
  closes_itself -> refines m t -> small t ->
  let st := (Close s (m, w)).2 in
  refines (Unregister (ID s) st.1).2 (mkTable (t_max t) (delete (ID s) (t_sessions t))) /\
  (forall s', ID s' <> ID s -> LastActiveAt s' st.2 = LastActiveAt s' w).
Proof.
  intros HC R Hs. specialize (HC s m w t R). destruct (Close s (m, w)) as [[e late] [m' w']]. cbn.
  destruct HC as [Hr Ha]. split; [|done].
  assert (forall t', refines m' t' -> small t' -> refines (Unregister (ID s) m').2 (mkTable (t_max t') (delete (ID s) (t_sessions t')))) as HU.
  { intros t' R' Hs'. eapply (Unregister_refines m' t' (ID s) R'). rewrite (ref_count _ _ R'). apply Hs'. }
  destruct Hr as [Hr|Hr]; [by apply HU|].
  pose proof (HU _ Hr (small_delete _ _ Hs)) as H. cbn in H. by rewrite delete_delete_eq in H.
Qed.

(** The sessions of [l] removed from a table. *)
Definition remove_all (l : list Session) (m : gmap Z Session) : gmap Z Session :=
  foldr (fun s m => delete (ID s) m) m l.

Lemma lookup_remove_all l m id :
  remove_all l m !! id = if decide (id ∈ map ID l) then None else m !! id.
Proof.
  induction l as [|s l IH]; [done|]. cbn [remove_all foldr map]. fold (remove_all l m).
  destruct (decide (id = ID s)) as [->|Hne].
  - rewrite lookup_delete_eq, decide_True by (by left). done.
  - rewrite lookup_delete_ne, IH by done.
    destruct (decide (id ∈ map ID l)); [by rewrite decide_True by (by right)|].
    rewrite decide_False; [done|]. by rewrite not_elem_of_cons.
Qed.

Lemma sweep_loop_exact p now l closed m w t :
  closes_itself -> refines m t -> small t -> NoDup (map ID l) ->
  let dead := List.filter (expired p now w) l in
  let r := sweep_loop p now l closed (m, w) in
  refines r.2.1 (mkTable (t_max t) (remove_all dead (t_sessions t))) /\
  closed <= r.1 <= closed + len dead /\
  ((forall s st, (Close s st).1.1 = CloseReturned 0 None) -> r.1 = closed + len dead).
Proof.
  intros HC. revert closed m w t. induction l as [|s l IH]; intros closed m w t R Hs Hnd.
  - cbn. destruct t. split; [done|]. unfold len. cbn. lia.
  - cbn [map] in Hnd. apply NoDup_cons in Hnd as [Hsl Hnd]. cbn [sweep_loop List.filter snd].
    destruct (expired p now w s) eqn:Ee; [|by apply IH].
    destruct (close_unregister s m w t HC R Hs) as [R' Ha].
    destruct (Close s (m, w)) as [[e late] [m' w']] eqn:Ec. cbn [fst snd] in *.
    set (closed' := match safeSessionClose (h_closeTimeout p) late e with Some _ => _ | None => _ end).
    destruct (IH closed' _ w' _ R' (small_delete _ _ Hs) Hnd) as (R'' & Hb & Hall). clear IH.
    assert (List.filter (expired p now w') l = List.filter (expired p now w) l) as E.
    { clear - Hsl Ha. induction l as [|x l IH]; [done|]. cbn in *. apply not_elem_of_cons in Hsl as [Hx Hsl].
      assert (expired p now w' x = expired p now w x) as -> by (unfold expired; by rewrite Ha).
      by rewrite IH. }
    rewrite E in *. cbn [t_max t_sessions] in R''. rewrite len_cons. split; [|split].
    + cbn [remove_all foldr]. fold (remove_all (List.filter (expired p now w) l) (t_sessions t)).
      assert (delete (ID s) (remove_all (List.filter (expired p now w) l) (t_sessions t)) =
              remove_all (List.filter (expired p now w) l) (delete (ID s) (t_sessions t))) as ->; [|done].
      apply map_eq. intros id. rewrite lookup_remove_all. destruct (decide (id = ID s)) as [->|Hne].
      * rewrite !lookup_delete_eq. by destruct (decide _).
      * rewrite !lookup_delete_ne by done. by rewrite lookup_remove_all.
    + subst closed'. destruct (safeSessionClose _ _ _); lia.
    + intros Hok. rewrite (Hall Hok). subst closed'. specialize (Hok s (m, w)). rewrite Ec in Hok. cbn in Hok. subst e.
      rewrite close_at_once. lia.
Qed.

End sweep.

(** ** The properties *)

(** A sweep leaves the session manager exactly with the sessions that were
    not expired: every expired one is unregistered however its close ended -
    with an error, a panic, or not at all - and no other is touched; the result
    counts the closes that ended well, all of them when every close does; and
    the wait for one session is never longer than the close timeout. *)
Theorem sweep_exact {W} `{!MapRange Z} LastActiveAt Close (p : Heartbeat) now (m : SessionManager) (w : W) t :
  refines m t -> small t -> closes_itself LastActiveAt Close -> h_manager p = true ->
  let r := Sweep LastActiveAt Close p now (m, w) in
  let dead := List.filter (expired LastActiveAt p now w) (Snapshot m) in
  refines r.2.1 (mkTable (t_max t)
    (filter (fun kv => expired LastActiveAt p now w kv.2 = false) (t_sessions t))) /\
  0 <= r.1 <= len dead /\
  ((forall s st, (Close s st).1.1 = CloseReturned 0 None) -> r.1 = len dead) /\
  (forall e, close_wait (h_closeTimeout p) e <= Z.max (h_closeTimeout p) defaultSweepCloseTimeout).
Proof.
  intros R Hs HC Hm r dead. unfold r, Sweep. rewrite Hm. cbn [negb fst].
  destruct (sweep_loop_exact LastActiveAt Close p now (Snapshot m) 0 m w t HC R Hs) as (R' & Hb & Hall).
  { by eapply NoDup_Snapshot_IDs. }
  fold dead in R', Hb, Hall. split; [|split; [lia|split; [intros; rewrite Hall; [lia|done]|]]].
  - assert (remove_all dead (t_sessions t) =
            filter (fun kv => expired LastActiveAt p now w kv.2 = false) (t_sessions t)) as <-; [|done].
    apply map_eq. intros id. rewrite lookup_remove_all, map_lookup_filter.
    destruct (t_sessions t !! id) as [s|] eqn:E; cbn; [|by destruct (decide _)].
    pose proof (ref_ids _ _ R id s E) as Hid.
    assert (id ∈ map ID dead <-> expired LastActiveAt p now w s = true) as Hiff.
    { unfold dead. split.
      - intros (s' & E' & [Hin He]%list_elem_of_In%filter_In)%list_elem_of_fmap.
        apply list_elem_of_In in Hin. rewrite (Snapshot_refines _ _ R) in Hin.
        apply list_elem_of_fmap in Hin as ([k s1] & -> & Hin%elem_of_map_to_list). cbn in *.
        pose proof (ref_ids _ _ R k s1 Hin) as Hk. assert (s1 = s) as <- by congruence. done.
      - intros He. apply list_elem_of_fmap. exists s. split; [done|].
        apply list_elem_of_In, filter_In. split; [|done]. apply list_elem_of_In.
        rewrite (Snapshot_refines _ _ R). apply list_elem_of_fmap. exists (id, s). by rewrite elem_of_map_to_list. }
    destruct (expired LastActiveAt p now w s) eqn:Ee.
    + rewrite decide_True by (by apply Hiff). done.
    + rewrite decide_False by (by rewrite Hiff). done.
  - intros e. unfold close_wait. destruct (Z.leb_spec (h_closeTimeout p) 0), e; lia.
Qed.

(** The ticker of the sweep loop never gets a period it would panic on. *)
Lemma NewHeartbeat_positive manager timeout interval d :
  0 < h_timeout (NewHeartbeat manager timeout interval) /\
  0 < h_interval (NewHeartbeat manager timeout interval) /\
  0 < h_closeTimeout (WithSweepCloseTimeout d (NewHeartbeat manager timeout interval)).
Proof.
  unfold NewHeartbeat, WithSweepCloseTimeout, defaultSweepCloseTimeout, Minute, Second.
  repeat split_match; breflect; cbn in *; lia.
Qed.

(** ** A run: two sessions, the first silent for two minutes *)

#[local] Instance std_order : MapRange Z := map_range_std.

Definition two_sessions : SessionManager :=
  (Register (Some (mkSession 2 false)) (Register (Some (mkSession 1 false)) (NewSessionManager [])).2).2.
Definition last_active (s : Session) (_ : unit) : Z := if ID s =? 1 then 0 else 2 * Minute.
Definition stuck_close (s : Session) (st : SessionManager * unit) : close_end * bool * (SessionManager * unit) :=
  (CloseStuck, false, st).

Lemma sweep_exact_witness :
  exists t, refines two_sessions t /\ small t /\
  let r := Sweep last_active stuck_close (NewHeartbeat true 0 0) (2 * Minute) (two_sessions, ()) in
  refines r.2.1 (mkTable (t_max t)
    (filter (fun kv => expired last_active (NewHeartbeat true 0 0) (2 * Minute) () kv.2 = false) (t_sessions t))).
Proof.
  assert (exists t, refines two_sessions t /\ small t) as (t & R & Hs).
  { pose proof (refines_new 1000000) as R0.
    destruct (Register_refines _ _ (Some (mkSession 1 false)) R0) as [_ R1]; [vm_compute; done|].
    destruct (Register_refines _ _ (Some (mkSession 2 false)) R1) as [_ R2]; [vm_compute; done|].
    eexists. split; [exact R2|]. vm_compute. discriminate. }
  exists t. split; [exact R|]. split; [exact Hs|].
  apply (sweep_exact last_active stuck_close (NewHeartbeat true 0 0) (2 * Minute) two_sessions () t R Hs); [|reflexivity].
  intros s m w t' R'. cbn. split; [by left|done].
Defined.

(** * The slow-handler wrapper *)

(** What is logged: the duration in microseconds ([duration_ms] is it over a
    thousand as a float). *)
Record slow_entry : Type := mkEntry {
  se_session : Z;
  se_protocol : Protocol;
  se_duration_us : Z;
  se_payload_bytes : Z;
  se_error : option error
}.

Section slow.
(** The world the handler, the clock and the logger act on; a handler may
    panic, and the panic goes through the wrapper. *)
Context {Sess W : Type}.
Definition Handler : Type := Sess -> Message -> W -> outcome (option error) * W.

(* go: internal/plugin/slow_handler.go:11-13 (slowHandlerOptions) *)
Record slowHandlerOptions : Type := mkOptions { o_now : W -> Z * W }.

(* go: internal/plugin/slow_handler.go:9-9 (SlowHandlerOption) *)
Definition SlowHandlerOption : Type := slowHandlerOptions -> slowHandlerOptions.

(* go: internal/plugin/slow_handler.go:15-21 (WithSlowHandlerClock) *)
Definition WithSlowHandlerClock (now : option (W -> Z * W)) : SlowHandlerOption :=
  fun o => match now with Some now => mkOptions now | None => o end.

Definition nop_handler : Handler := fun _ _ w => (Returned None, w).

(** [logger] is none for a nil logger; [time_Now] is the system clock. *)
(* go: internal/plugin/slow_handler.go:23-59 (NewSlowHandler) *)
Definition NewSlowHandler (time_Now : W -> Z * W) (logger : option (slow_entry -> W -> W)) (threshold : Z)
    (next : option Handler) (opts : list SlowHandlerOption) : Handler :=
  let next := match next with Some h => h | None => nop_handler end in
  if threshold <=? 0 then next
  else
    let cfg := fold_left (fun cfg opt => opt cfg) opts (mkOptions time_Now) in
    fun sess msg w =>
      let '(started, w) := o_now cfg w in
      match next sess msg w with
      | (Panicked, w) => (Panicked, w)
      | (Returned err, w) =>
          let '(ended, w) := o_now cfg w in
          let elapsed := time_Sub ended started in
          match logger with
          | Some log =>
              if threshold <=? elapsed then
                (Returned err,
                 log (mkEntry (msg_SessionID msg) (msg_Protocol msg) (Z.quot elapsed 1000) (len (msg_Payload msg)) err) w)
              else (Returned err, w)
          | None => (Returned err, w)
          end
      end.

(** A clock that only reads the world. *)
Definition reads (now : W -> Z * W) : Prop := forall w, (now w).2 = w.

(** What the wrapper does, around what the handler does. *)
Lemma NewSlowHandler_spec time_Now logger threshold next sess msg w :
  reads time_Now ->
  let '(r, w1) := next sess msg w in
  let elapsed := time_Sub (time_Now w1).1 (time_Now w).1 in
  NewSlowHandler time_Now logger threshold (Some next) [] sess msg w =
    (r,
     match r, logger with
     | Returned err, Some log =>
         if (0 <? threshold) && (threshold <=? elapsed) then
           log (mkEntry (msg_SessionID msg) (msg_Protocol msg) (Z.quot elapsed 1000) (len (msg_Payload msg)) err) w1
         else w1
     | _, _ => w1
     end).
Proof.
  intros Hr. destruct (next sess msg w) as [r w1] eqn:E. unfold NewSlowHandler. cbn [fold_left o_now].
  destruct (Z.leb_spec threshold 0) as [Ht|Ht].
  - rewrite E. rewrite (proj2 (Z.ltb_ge 0 threshold)) by done. cbn. by destruct r, logger.
  - rewrite (proj2 (Z.ltb_lt 0 threshold)) by done. cbn [andb].
    rewrite (surjective_pairing (time_Now w)), Hr, E. destruct r as [err|]; [|done].
    rewrite (surjective_pairing (time_Now w1)), Hr. destruct logger; [|done]. by destruct (_ <=? _).
Qed.
End slow.
