(* ===== verification/PubSub.v ===== *)
(** * PubSub: [internal/infra/pubsub/pubsub.go]

    The in-process bus.  A publication visits the topic's subscribers under the
    read lock and never waits for one; subscribing and cancelling take the
    write lock.  The functions below are the critical sections; the step
    relation interleaves them with receivers and other publishers. *)
From stdpp Require Import fin_maps gmap.
From S2P Require Import Prelude Bytes Core.
Local Open Scope Z_scope.
Local Open Scope list_scope.

(** ** Channels *)

(* go: internal/infra/pubsub/pubsub.go:5-8 (Message) *)
Record Message : Type := mkMsg { Topic : bytes; Data : bytes }.

(** A Go channel: its capacity, what it buffers, the receivers blocked on it,
    whether it is closed, and what receivers have taken so far. *)
Record chan : Type := mkChan {
  c_cap : Z;
  c_buf : list Message;
  c_recvq : nat;
  c_closed : bool;
  c_taken : list Message
}.

(** [select { case c <- msg: ... default: ... }]: sending on a closed channel
    panics; a blocked receiver takes the message, else the buffer if it has
    room, else the default case runs. *)
Inductive sent : Type := Sent (c : chan) | Full | SendPanic.

Definition try_send (msg : Message) (c : chan) : sent :=
  if c_closed c then SendPanic
  else
    match c_recvq c with
    | S n => Sent (mkChan (c_cap c) (c_buf c) n false (c_taken c ++ [msg]))
    | O => if len (c_buf c) <? c_cap c
           then Sent (mkChan (c_cap c) (c_buf c ++ [msg]) O false (c_taken c)) else Full
    end.

(** One attempt to receive: a buffered message, or to block while open. *)
Definition recv (c : chan) : chan :=
  match c_buf c with
  | m :: b => mkChan (c_cap c) b (c_recvq c) (c_closed c) (c_taken c ++ [m])
  | [] => if c_closed c then c else mkChan (c_cap c) [] (S (c_recvq c)) false (c_taken c)
  end.

Definition close_ (c : chan) : chan := mkChan (c_cap c) (c_buf c) O true (c_taken c).

(** ** The bus *)

(** Channels are named by the order they are made in. *)
(* go: internal/infra/pubsub/pubsub.go:10-14 (PubSub) *)
Record PubSub : Type := mkPubSub {
  subs : gmap bytes (list nat);
  dropped : gmap bytes Z
}.

(* go: internal/infra/pubsub/pubsub.go:16-18 (New) *)
Definition New : PubSub := mkPubSub ∅ ∅.

Definition subs_of (p : PubSub) (topic : bytes) : list nat := default [] (subs p !! topic).

(** [make] panics on a negative size. *)
(* go: internal/infra/pubsub/pubsub.go:20-24 (Subscribe) *)
Definition Subscribe (topic : bytes) (buffer : Z) (p : PubSub) (chs : list chan) :
    outcome (nat * PubSub * list chan) :=
  if buffer <? 0 then Panicked
  else
    let ch := length chs in
    Returned (ch, mkPubSub (<[topic := subs_of p topic ++ [ch]]> (subs p)) (dropped p),
              chs ++ [mkChan buffer [] O false []]).

(** The position of a channel among the subscribers. *)
Fixpoint index_of (ch : nat) (l : list nat) : option nat :=
  match l with
  | [] => None
  | c :: l => if (c =? ch)%nat then Some O else S <$> index_of ch l
  end.

(** The function [Subscribe] returns; closing a closed channel panics. *)
(* go: internal/infra/pubsub/pubsub.go:25-48 (cancel) *)
Definition cancel (topic : bytes) (ch : nat) (p : PubSub) (chs : list chan) : outcome (PubSub * list chan) :=
  let l := subs_of p topic in
  match index_of ch l with
  | None => Returned (p, chs)
  | Some i =>
      let p := if (length l =? 1)%nat then mkPubSub (delete topic (subs p)) (delete topic (dropped p))
               else mkPubSub (<[topic := take i l ++ drop (S i) l]> (subs p)) (dropped p) in
      match chs !! ch with
      | Some c => if c_closed c then Panicked else Returned (p, <[ch := close_ c]> chs)
      | None => Panicked
      end
  end.

(** A publication in its loop: the subscribers left to visit, and its counts. *)
Record publishing : Type := mkPub {
  pb_msg : Message;
  pb_todo : list nat;
  pb_delivered : Z;
  pb_dropped : Z
}.

Definition publish_start (topic data : bytes) (p : PubSub) : publishing :=
  mkPub (mkMsg topic data) (subs_of p topic) 0 0.

(** One round of the loop; each subscriber gets its own copy of the data. *)
Definition publish_visit (pb : publishing) (chs : list chan) : outcome (publishing * list chan) :=
  match pb_todo pb with
  | [] => Returned (pb, chs)
  | ch :: todo =>
      match chs !! ch with
      | None => Panicked
      | Some c =>
          match try_send (pb_msg pb) c with
          | SendPanic => Panicked
          | Sent c => Returned (mkPub (pb_msg pb) todo (pb_delivered pb + 1) (pb_dropped pb), <[ch := c]> chs)
          | Full => Returned (mkPub (pb_msg pb) todo (pb_delivered pb) (pb_dropped pb + 1), chs)
          end
      end
  end.

Definition publish_drop (topic : bytes) (n : Z) (p : PubSub) : PubSub :=
  if 0 <? n then mkPubSub (subs p) (<[topic := u64 (default 0 (dropped p !! topic) + n)]> (dropped p)) else p.

Fixpoint publish_loop (todo : list nat) (pb : publishing) (chs : list chan) : outcome (publishing * list chan) :=
  match todo with
  | [] => Returned (pb, chs)
  | _ :: todo =>
      match publish_visit pb chs with
      | Panicked => Panicked
      | Returned (pb, chs) => publish_loop todo pb chs
      end
  end.

(** A publication that nothing interleaves with. *)
(* go: internal/infra/pubsub/pubsub.go:50-78 (Publish) *)
Definition Publish (topic data : bytes) (p : PubSub) (chs : list chan) : outcome (Z * PubSub * list chan) :=
  match publish_loop (subs_of p topic) (publish_start topic data p) chs with
  | Panicked => Panicked
  | Returned (pb, chs) => Returned (pb_delivered pb, publish_drop topic (pb_dropped pb) p, chs)
  end.

(* go: internal/infra/pubsub/pubsub.go:80-87 (Dropped) *)
Definition Dropped (topic : bytes) (p : PubSub) : Z := default 0 (dropped p !! topic).

(** ** Interleaved use *)

(** A publisher: in its loop under the read lock, past it with drops still to
    count, or returned; [total] is how many subscribers it found. *)
Inductive publisher : Type :=
| Looping (total : nat) (pb : publishing)
| Counting (total : nat) (topic : bytes) (delivered dropped : Z)
| Published (total : nat) (topic : bytes) (delivered dropped : Z).

Record world : Type := mkWorld {
  bus : PubSub;
  channels : list chan;
  handles : list (bytes * nat);    (* what [Subscribe] returned, with its topic *)
  pubs : list publisher;
  panicked : bool
}.

Definition world0 : world := mkWorld New [] [] [] false.

(** The write lock needs every reader gone. *)
Definition unlocked (s : world) : Prop := Forall (fun p => match p with Looping _ _ => False | _ => True end) (pubs s).

Inductive step (s : world) : world -> Prop :=
| s_subscribe topic buffer ch p chs :
    unlocked s -> Subscribe topic buffer (bus s) (channels s) = Returned (ch, p, chs) ->
    step s (mkWorld p chs ((topic, ch) :: handles s) (pubs s) (panicked s))
| s_cancel topic ch p chs :
    unlocked s -> (topic, ch) ∈ handles s -> cancel topic ch (bus s) (channels s) = Returned (p, chs) ->
    step s (mkWorld p chs (handles s) (pubs s) (panicked s))
| s_cancel_panic topic ch :
    unlocked s -> (topic, ch) ∈ handles s -> cancel topic ch (bus s) (channels s) = Panicked ->
    step s (mkWorld (bus s) (channels s) (handles s) (pubs s) true)
| s_publish topic data :
    step s (mkWorld (bus s) (channels s) (handles s)
              (pubs s ++ [Looping (length (subs_of (bus s) topic)) (publish_start topic data (bus s))]) (panicked s))
| s_visit i n pb pb' chs :
    pubs s !! i = Some (Looping n pb) -> pb_todo pb <> [] -> publish_visit pb (channels s) = Returned (pb', chs) ->
    step s (mkWorld (bus s) chs (handles s) (<[i := Looping n pb']> (pubs s)) (panicked s))
| s_visit_panic i n pb :
    pubs s !! i = Some (Looping n pb) -> publish_visit pb (channels s) = Panicked ->
    step s (mkWorld (bus s) (channels s) (handles s) (pubs s) true)
| s_unlock i n pb :
    pubs s !! i = Some (Looping n pb) -> pb_todo pb = [] ->
    step s (mkWorld (bus s) (channels s) (handles s)
              (<[i := Counting n (Topic (pb_msg pb)) (pb_delivered pb) (pb_dropped pb)]> (pubs s)) (panicked s))
| s_count i n topic d k :
    pubs s !! i = Some (Counting n topic d k) -> (0 < k -> unlocked s) ->
    step s (mkWorld (publish_drop topic k (bus s)) (channels s) (handles s)
              (<[i := Published n topic d k]> (pubs s)) (panicked s))
| s_recv ch c :
    channels s !! ch = Some c ->
    step s (mkWorld (bus s) (<[ch := recv c]> (channels s)) (handles s) (pubs s) (panicked s)).

(** ** What holds throughout *)

(** A channel never holds more than its capacity nor a message of another topic,
    and receivers block only on an empty one. *)
Definition chan_ok (topic : bytes) (c : chan) : Prop :=
  len (c_buf c) <= c_cap c /\ (c_recvq c <> O -> c_buf c = [] /\ c_closed c = false) /\
  Forall (fun m => Topic m = topic) (c_taken c ++ c_buf c).

(** A publication has visited some of its topic's subscribers, each one counted. *)
Definition publisher_ok (p : PubSub) (x : publisher) : Prop :=
  match x with
  | Looping n pb =>
      let l := subs_of p (Topic (pb_msg pb)) in
      n = length l /\ exists seen, l = seen ++ pb_todo pb /\ 0 <= pb_dropped pb /\
                                   pb_delivered pb + pb_dropped pb = len seen
  | Counting n _ d k | Published n _ d k => d + k = Z.of_nat n
  end.

Record wf (s : world) : Prop := {
  wf_ok : panicked s = false;
  wf_nonempty t : subs (bus s) !! t <> Some [];
  wf_nodup t : NoDup (subs_of (bus s) t);
  (** The subscribers of a topic are the open channels made for it. *)
  wf_subs t ch : ch ∈ subs_of (bus s) t <->
    (t, ch) ∈ handles s /\ exists c, channels s !! ch = Some c /\ c_closed c = false;
  wf_handle t ch : (t, ch) ∈ handles s -> exists c, channels s !! ch = Some c /\ chan_ok t c;
  wf_topic t t' ch : (t, ch) ∈ handles s -> (t', ch) ∈ handles s -> t = t';
  wf_pubs : Forall (publisher_ok (bus s)) (pubs s)
}.

Lemma bus_wf_world0 : wf world0.
Proof. split; try done; cbn; intros; try set_solver. constructor. Qed.

Lemma unlocked_ok p p' l :
  Forall (fun x => match x with Looping _ _ => False | _ => True end) l ->
  Forall (publisher_ok p) l -> Forall (publisher_ok p') l.
Proof. intros Hu. rewrite !Forall_forall in *. intros H x Hx. specialize (Hu x Hx). specialize (H x Hx). by destruct x. Qed.

Lemma subs_of_insert p t l t' d :
  subs_of (mkPubSub (<[t := l]> (subs p)) d) t' = if decide (t' = t) then l else subs_of p t'.
Proof.
  unfold subs_of. cbn. destruct (decide (t' = t)) as [->|Hne]; [by rewrite lookup_insert_eq|].
  by rewrite lookup_insert_ne.
Qed.

Lemma subs_of_delete p t t' d :
  subs_of (mkPubSub (delete t (subs p)) d) t' = if decide (t' = t) then [] else subs_of p t'.
Proof.
  unfold subs_of. cbn. destruct (decide (t' = t)) as [->|Hne]; [by rewrite lookup_delete_eq|].
  by rewrite lookup_delete_ne.
Qed.

Lemma index_of_Some ch l i : index_of ch l = Some i -> l !! i = Some ch.
Proof.
  revert i. induction l as [|c l IH]; intros i; cbn; [done|].
  destruct (Nat.eqb_spec c ch) as [->|Hne]; [by intros [= <-]|].
  destruct (index_of ch l) as [j|]; [|done]. intros [= <-]. by apply IH.
Qed.

Lemma index_of_None ch l : index_of ch l = None -> ch ∉ l.
Proof.
  induction l as [|c l IH]; cbn; [set_solver|]. destruct (Nat.eqb_spec c ch) as [->|Hne]; [done|].
  destruct (index_of ch l); [done|]. set_solver.
Qed.

Lemma removed_at l i (ch : nat) :
  l !! i = Some ch -> l ≡ₚ ch :: (take i l ++ drop (S i) l).
Proof. intros Hi. rewrite <- delete_take_drop. by apply delete_Permutation. Qed.

(** Taking a topic's subscriber out. *)
Definition without (p : PubSub) (topic : bytes) (i : nat) : PubSub :=
  let l := subs_of p topic in
  if (length l =? 1)%nat then mkPubSub (delete topic (subs p)) (delete topic (dropped p))
  else mkPubSub (<[topic := take i l ++ drop (S i) l]> (subs p)) (dropped p).

Lemma without_subs p t i ch : subs_of p t !! i = Some ch ->
  forall t', subs_of (without p t i) t' = if decide (t' = t) then take i (subs_of p t) ++ drop (S i) (subs_of p t) else subs_of p t'.
Proof.
  intros Hi t'. unfold without. destruct (Nat.eqb_spec (length (subs_of p t)) 1) as [Hl|Hl].
  - rewrite subs_of_delete. destruct (decide _); [|done].
    destruct (subs_of p t) as [|x [|y l]]; try done. destruct i; [done|]. by rewrite lookup_cons, lookup_nil in Hi.
  - apply subs_of_insert.
Qed.

Lemma without_nonempty p t i ch : subs_of p t !! i = Some ch ->
  (forall t', subs p !! t' <> Some []) -> forall t', subs (without p t i) !! t' <> Some [].
Proof.
  intros Hi Hne t'. unfold without. destruct (Nat.eqb_spec (length (subs_of p t)) 1) as [Hl|Hl]; cbn.
  - intros [_ H]%lookup_delete_Some. by apply (Hne t').
  - intros [[_ H]|[_ H]]%lookup_insert_Some; [|by apply (Hne t')].
    pose proof (Permutation_length (removed_at _ _ _ Hi)) as E. rewrite H in E. cbn in E. lia.
Qed.

Lemma handle_lt s t ch : wf s -> (t, ch) ∈ handles s -> (ch < length (channels s))%nat.
Proof. intros Hw (c & Hc & _)%(wf_handle s Hw). by eapply lookup_lt_Some. Qed.

Lemma wf_subscribe s topic buffer ch p chs :
  wf s -> unlocked s -> Subscribe topic buffer (bus s) (channels s) = Returned (ch, p, chs) ->
  wf (mkWorld p chs ((topic, ch) :: handles s) (pubs s) (panicked s)).
Proof.
  intros Hw Hu. pose proof (handle_lt s) as Hlt. unfold Subscribe.
  destruct (Z.ltb_spec buffer 0); [done|]. intros [= <- <- <-].
  set (n := length (channels s)). assert (forall t, (t, n) ∉ handles s) as Hfresh.
  { intros t Hin. apply Hlt in Hin; [|done]. unfold n in Hin. lia. }
  destruct Hw as [Hok Hne Hnd Hsub Hh Ht Hp]. split; cbn [bus channels handles pubs panicked].
  - done.
  - intros t. cbn. intros [[_ E]|[_ E]]%lookup_insert_Some; [|by apply (Hne t)]. by destruct (subs_of _ _).
  - intros t. rewrite subs_of_insert. destruct (decide (t = topic)) as [->|]; [|done].
    apply NoDup_app. split; [done|]. split; [|apply NoDup_singleton].
    intros x Hx ->%list_elem_of_singleton. apply Hsub in Hx as [Hx _]. by eapply Hfresh.
  - intros t c. rewrite subs_of_insert, elem_of_cons.
    assert ((exists c0, (channels s ++ [mkChan buffer [] 0 false []]) !! c = Some c0 /\ c_closed c0 = false) <->
            c = n \/ exists c0, channels s !! c = Some c0 /\ c_closed c0 = false) as ->.
    { split.
      - intros (c0 & [Hc|[Hge Hc]]%lookup_app_Some & Hcl); [right; eauto|].
        left. apply list_lookup_singleton_Some in Hc as [E _]. unfold n. lia.
      - intros [->|(c0 & Hc & Hcl)].
        + eexists. split; [apply list_lookup_middle; reflexivity|done].
        + exists c0. split; [by apply lookup_app_l_Some|done]. }
    specialize (Hsub t c). destruct (decide (t = topic)) as [->|Htn].
    + rewrite elem_of_app, list_elem_of_singleton, Hsub. specialize (Hfresh topic). split.
      * intros [[Hin Hc]| ->]; [tauto|]. split; [by left|by left].
      * intros [[[=]|Hin] [->|Hc]]; subst; tauto.
    + rewrite Hsub. specialize (Hfresh t). split; [tauto|].
      intros [[[=]|Hin] [->|Hc]]; subst; tauto.
  - intros t c [[= -> ->]|Hin]%elem_of_cons.
    + eexists. split; [apply list_lookup_middle; reflexivity|]. split; [unfold len; cbn; lia|]. split; [done|constructor].
    + destruct (Hh t c Hin) as (c0 & Hc & Hk). exists c0. split; [by apply lookup_app_l_Some|done].
  - intros t t' c [E|Hin]%elem_of_cons [E'|Hin']%elem_of_cons; simplify_eq; try done.
    + by destruct (Hfresh t').
    + by destruct (Hfresh t).
    + by eapply Ht.
  - by eapply unlocked_ok.
Qed.

(** A subscriber's channel is there and open, so cancelling never panics. *)
Lemma cancel_returns s topic ch :
  wf s -> exists p chs, cancel topic ch (bus s) (channels s) = Returned (p, chs) /\
    (p = bus s /\ chs = channels s \/
     exists i c, subs_of (bus s) topic !! i = Some ch /\ p = without (bus s) topic i /\
                 channels s !! ch = Some c /\ chs = <[ch := close_ c]> (channels s)).
Proof.
  intros Hw. unfold cancel. destruct (index_of ch (subs_of (bus s) topic)) as [i|] eqn:Ei; [|eauto 6].
  apply index_of_Some in Ei. assert (ch ∈ subs_of (bus s) topic) as Hin by (by eapply list_elem_of_lookup_2).
  apply (wf_subs s Hw) in Hin as [_ (c & Hc & Hcl)]. rewrite Hc, Hcl.
  eexists _, _. split; [reflexivity|]. right. exists i, c. done.
Qed.

Lemma wf_cancelled s topic ch i c :
  wf s -> unlocked s -> (topic, ch) ∈ handles s -> subs_of (bus s) topic !! i = Some ch -> channels s !! ch = Some c ->
  wf (mkWorld (without (bus s) topic i) (<[ch := close_ c]> (channels s)) (handles s) (pubs s) (panicked s)).
Proof.
  intros [Hok Hne Hnd Hsub Hh Ht Hp] Hu Hhd Hi Hc. pose proof (removed_at _ _ _ Hi) as Hperm.
  assert (ch < length (channels s))%nat as Hlt by (by eapply lookup_lt_Some).
  split; cbn [bus channels handles pubs panicked].
  - done.
  - by eapply without_nonempty.
  - intros t. rewrite (without_subs _ _ _ _ Hi). destruct (decide (t = topic)) as [->|]; [|done].
    pose proof (Hnd topic) as H. rewrite Hperm in H. by apply NoDup_cons in H as [_ H].
  - intros t x. rewrite (without_subs _ _ _ _ Hi). destruct (decide (x = ch)) as [->|Hx].
    + rewrite list_lookup_insert_eq by done. split.
      * destruct (decide (t = topic)) as [->|Htn].
        -- intros Hin. exfalso. pose proof (Hnd topic) as H. rewrite Hperm in H. by apply NoDup_cons in H as [H _].
        -- intros [Hin _]%Hsub. destruct Htn. by eapply Ht.
      * intros [_ (c0 & [= <-] & Hcl)]. done.
    + rewrite list_lookup_insert_ne by done. rewrite <- Hsub.
      destruct (decide (t = topic)) as [->|Htn]; [|done].
      rewrite Hperm at 3. rewrite elem_of_cons. tauto.
  - intros t x Hin. destruct (Hh t x Hin) as (c0 & Hc0 & Hk). destruct (decide (x = ch)) as [->|Hx].
    + rewrite list_lookup_insert_eq by done. eexists. split; [done|]. rewrite Hc in Hc0. injection Hc0 as <-.
      destruct Hk as (H1 & H2 & H3). split; [done|]. split; [done|done].
    + rewrite list_lookup_insert_ne by done. eauto.
  - done.
  - by eapply unlocked_ok.
Qed.

(** Replacing a channel by one of the same kind. *)
Lemma wf_channel s ch c c' pubs' :
  wf s -> channels s !! ch = Some c -> c_closed c' = c_closed c -> (forall t, (t, ch) ∈ handles s -> chan_ok t c -> chan_ok t c') ->
  Forall (publisher_ok (bus s)) pubs' ->
  wf (mkWorld (bus s) (<[ch := c']> (channels s)) (handles s) pubs' (panicked s)).
Proof.
  intros [Hok Hne Hnd Hsub Hh Ht Hp] Hc Hcl Hk Hp'.
  assert (ch < length (channels s))%nat as Hlt by (by eapply lookup_lt_Some).
  split; cbn [bus channels handles pubs panicked]; try done.
  - intros t x. rewrite Hsub. destruct (decide (x = ch)) as [->|Hx].
    + rewrite list_lookup_insert_eq, Hc by done. split; intros (Hin & c0 & [= <-] & H0); split; eauto; congruence.
    + by rewrite list_lookup_insert_ne.
  - intros t x Hin. destruct (Hh t x Hin) as (c0 & Hc0 & Hk0). destruct (decide (x = ch)) as [->|Hx].
    + rewrite list_lookup_insert_eq by done. eexists. split; [done|]. apply Hk; [done|congruence].
    + rewrite list_lookup_insert_ne by done. eauto.
Qed.

Lemma recv_ok t c : chan_ok t c -> chan_ok t (recv c) /\ c_closed (recv c) = c_closed c.
Proof.
  intros Hc. unfold recv. destruct (c_buf c) as [|m b] eqn:Eb; [destruct (c_closed c) eqn:Ec; [done|]|];
    destruct Hc as (H1 & H2 & H3); unfold chan_ok; cbn; rewrite Eb in *; [done|].
  rewrite len_cons in H1. split; [|done]. split; [lia|].
  split; [intros Hq; by destruct (H2 Hq)|]. by rewrite <- app_assoc.
Qed.

Lemma try_send_ok t msg c :
  c_closed c = false -> chan_ok t c -> Topic msg = t ->
  match try_send msg c with
  | SendPanic => False
  | Full => c_cap c <= len (c_buf c) /\ c_recvq c = O
  | Sent c' => chan_ok t c' /\ c_closed c' = c_closed c /\ c_taken c' ++ c_buf c' = c_taken c ++ c_buf c ++ [msg]
  end.
Proof.
  intros Hcl (H1 & H2 & H3) Hm. unfold try_send, chan_ok. rewrite Hcl. destruct (c_recvq c) as [|n] eqn:Eq.
  - destruct (Z.ltb_spec (len (c_buf c)) (c_cap c)); [cbn|done]. split; [|done].
    split; [unfold len in *; rewrite length_app; cbn; lia|]. split; [done|].
    rewrite app_assoc, Forall_app. split; [done|by repeat constructor].
  - destruct H2 as [E _]; [done|]. rewrite E in *. cbn. split; [|by rewrite app_nil_r].
    split; [cbn in *; lia|]. split; [done|].
    rewrite app_nil_r in *. rewrite Forall_app. split; [done|by repeat constructor].
Qed.

(** A publication under way visits an open channel of its topic. *)
Lemma visit_returns s i n pb :
  wf s -> pubs s !! i = Some (Looping n pb) ->
  publish_visit pb (channels s) <> Panicked /\
  forall pb' chs, pb_todo pb <> [] -> publish_visit pb (channels s) = Returned (pb', chs) ->
    wf (mkWorld (bus s) chs (handles s) (<[i := Looping n pb']> (pubs s)) (panicked s)).
Proof.
  intros Hw Hi. pose proof (Forall_lookup_1 _ _ _ _ (wf_pubs s Hw) Hi) as (En & seen & Hl & Hd & Hcnt).
  unfold publish_visit. destruct (pb_todo pb) as [|ch todo] eqn:Et; [done|].
  assert (ch ∈ subs_of (bus s) (Topic (pb_msg pb))) as Hin by (rewrite Hl; set_solver).
  apply (wf_subs s Hw) in Hin as [Hhd (c & Hc & Hcl)]. rewrite Hc.
  destruct (wf_handle s Hw _ _ Hhd) as (c0 & Hc0 & Hk). rewrite Hc in Hc0. injection Hc0 as <-.
  pose proof (try_send_ok _ (pb_msg pb) c Hcl Hk eq_refl) as Hs.
  assert (len (seen ++ [ch]) = len seen + 1) as Hlen by (rewrite len_app; done).
  destruct (try_send (pb_msg pb) c) as [c'| |]; [|split; [done|]|done].
  - split; [done|]. destruct Hs as (Hk' & Hcl' & _). intros pb' chs _ [= <- <-].
    eapply wf_channel; [done|done|done| |].
    + intros t Ht _. by rewrite (wf_topic s Hw _ _ _ Ht Hhd).
    + apply Forall_insert; [apply Hw|]. cbn. split; [done|]. exists (seen ++ [ch]).
      rewrite <- app_assoc. split; [done|]. lia.
  - intros pb' chs _ [= <- <-]. destruct Hw. split; try done. cbn.
    apply Forall_insert; [done|]. cbn. split; [done|]. exists (seen ++ [ch]).
    rewrite <- app_assoc. split; [done|]. lia.
Qed.

Lemma publish_drop_subs topic k p : subs (publish_drop topic k p) = subs p.
Proof. unfold publish_drop. by destruct (0 <? k). Qed.

Lemma publisher_ok_subs p p' x : subs p = subs p' -> publisher_ok p x -> publisher_ok p' x.
Proof. intros E. unfold publisher_ok, subs_of. by rewrite E. Qed.

Lemma bus_wf_step s s' : wf s -> step s s' -> wf s'.
Proof.
  intros Hw Hst.
  destruct Hst as [topic buffer ch p chs Hu Hs|topic ch p chs Hu Hin Hc|topic ch Hu Hin Hc|topic data
    |i n pb pb' chs Hi Ht Hv|i n pb Hi Hv|i n pb Hi Ht|i n topic d k Hi Hu|ch c Hc].
  - by eapply wf_subscribe.
  - destruct (cancel_returns s topic ch Hw) as (p' & chs' & E & Hor). rewrite E in Hc. injection Hc as <- <-.
    destruct Hor as [[-> ->]|(i & c & Hi & -> & Hc & ->)]; [by destruct s|]. by apply wf_cancelled.
  - destruct (cancel_returns s topic ch Hw) as (p' & chs' & E & _). congruence.
  - destruct Hw. split; try done. cbn. apply Forall_app. split; [done|]. apply Forall_singleton. cbn.
    split; [done|]. exists []. cbn. done.
  - by apply (visit_returns s i n pb Hw Hi).
  - by apply (visit_returns s i n pb Hw Hi) in Hv.
  - pose proof (Forall_lookup_1 _ _ _ _ (wf_pubs s Hw) Hi) as (En & seen & Hl & Hd & Hcnt).
    destruct Hw. split; try done. cbn. apply Forall_insert; [done|]. cbn.
    rewrite Ht, app_nil_r in Hl. rewrite En, Hl. unfold len in Hcnt. lia.
  - pose proof (Forall_lookup_1 _ _ _ _ (wf_pubs s Hw) Hi) as Hk.
    destruct Hw as [Hok Hne Hnd Hsub Hh Htp Hp]. pose proof (publish_drop_subs topic k (bus s)) as E.
    assert (forall t, subs_of (publish_drop topic k (bus s)) t = subs_of (bus s) t) as Es by (intros; unfold subs_of; by rewrite E).
    split; cbn [bus channels handles pubs panicked]; try done.
    + intros t. rewrite E. apply Hne.
    + intros t. rewrite Es. apply Hnd.
    + intros t ch. rewrite Es. apply Hsub.
    + apply Forall_insert; [|done]. eapply Forall_impl; [exact Hp|]. intros x. by apply publisher_ok_subs.
  - apply (wf_channel s ch c); [done|done| | |apply Hw].
    + unfold recv. by destruct (c_buf c), (c_closed c) eqn:E.
    + intros t _ Hk. by apply recv_ok.
Qed.

Lemma bus_wf_reachable s : star step world0 s -> wf s.
Proof. intros Hs. eapply (star_invariant step wf); [apply bus_wf_step|done|apply bus_wf_world0]. Qed.

(** A publication alone: each subscriber is sent to once. *)
Definition room (c : chan) : bool := (0 <? Z.of_nat (c_recvq c)) || (len (c_buf c) <? c_cap c).

Definition given (msg : Message) (c : chan) : chan := match try_send msg c with Sent c' => c' | _ => c end.

Lemma try_send_room msg c : c_closed c = false ->
  try_send msg c = if room c then Sent (given msg c) else Full.
Proof.
  intros Hcl. unfold given, try_send, room. rewrite Hcl. destruct (c_recvq c) as [|n]; [|done].
  cbn. by destruct (len (c_buf c) <? c_cap c).
Qed.

(** The subscribers of [l] that take a message sent now. *)
Definition takers (chs : list chan) (l : list nat) : list nat :=
  List.filter (fun ch => match chs !! ch with Some c => room c | None => false end) l.

Lemma takers_insert chs ch c l : ch ∉ l -> takers (<[ch := c]> chs) l = takers chs l.
Proof.
  unfold takers. intros Hl. induction l as [|x l IH]; [done|]. rewrite not_elem_of_cons in Hl. destruct Hl as [Hx Hl].
  cbn. rewrite list_lookup_insert_ne, IH by done. done.
Qed.

Lemma publish_loop_exact l msg d k chs :
  NoDup l -> (forall ch, ch ∈ l -> exists c, chs !! ch = Some c /\ c_closed c = false) ->
  exists chs', publish_loop l (mkPub msg l d k) chs =
      Returned (mkPub msg [] (d + len (takers chs l)) (k + len l - len (takers chs l)), chs') /\
    forall ch, chs' !! ch = if decide (ch ∈ l) then given msg <$> chs !! ch else chs !! ch.
Proof.
  revert d k chs. induction l as [|x l IH]; intros d k chs Hnd Ho.
  - exists chs. split; [|done]. cbn. do 3 f_equal; unfold len; cbn; lia.
  - apply NoDup_cons in Hnd as [Hx Hnd]. destruct (Ho x) as (c & Hc & Hcl); [by left|].
    cbn [publish_loop]. unfold publish_visit. cbn [pb_todo pb_msg]. rewrite Hc, try_send_room by done.
    unfold takers. cbn [List.filter]. rewrite Hc. fold (takers chs l). destruct (room c) eqn:Er; cbn [pb_delivered pb_dropped].
    + destruct (IH (d + 1) k (<[x := given msg c]> chs) Hnd) as (chs' & -> & Hall).
      { intros ch Hin. rewrite list_lookup_insert_ne by congruence. apply Ho. by right. }
      exists chs'. rewrite takers_insert by done. rewrite !len_cons. split; [do 3 f_equal; lia|].
      intros ch. rewrite Hall. destruct (decide (ch = x)) as [->|Hne].
      * rewrite decide_False, decide_True by (done || by left). rewrite list_lookup_insert_eq, Hc; [done|].
        by eapply lookup_lt_Some.
      * rewrite list_lookup_insert_ne by done. destruct (decide (ch ∈ l)).
        -- by rewrite decide_True by (by right).
        -- rewrite decide_False; [done|]. set_solver.
    + destruct (IH d (k + 1) chs Hnd) as (chs' & -> & Hall); [intros; apply Ho; by right|].
      exists chs'. rewrite !len_cons. split; [do 3 f_equal; lia|].
      intros ch. rewrite Hall. destruct (decide (ch = x)) as [->|Hne].
      * rewrite decide_False, decide_True by (done || by left). rewrite Hc. cbn.
        unfold given. by rewrite try_send_room, Er.
      * destruct (decide (ch ∈ l)).
        -- by rewrite decide_True by (by right).
        -- rewrite decide_False; [done|]. set_solver.
Qed.

Lemma Publish_spec s topic data :
  star step world0 s ->
  let l := subs_of (bus s) topic in
  let n := len (takers (channels s) l) in
  exists p chs, Publish topic data (bus s) (channels s) = Returned (n, p, chs) /\
    (forall ch, chs !! ch =
       if decide (ch ∈ l) then given (mkMsg topic data) <$> channels s !! ch else channels s !! ch) /\
    (forall ch c, channels s !! ch = Some c -> ch ∈ l ->
       let c' := given (mkMsg topic data) c in
       if room c then c_taken c' ++ c_buf c' = c_taken c ++ c_buf c ++ [mkMsg topic data] else c' = c) /\
    subs p = subs (bus s) /\
    (Dropped topic (bus s) + (len l - n) < 2 ^ 64 -> 0 <= Dropped topic (bus s) ->
     Dropped topic p = Dropped topic (bus s) + (len l - n)).
Proof.
  intros Hw%bus_wf_reachable l n. unfold Publish, publish_start. fold l.
  destruct (publish_loop_exact l (mkMsg topic data) 0 0 (channels s)) as (chs & -> & Hall).
  - apply (wf_nodup s Hw).
  - intros ch Hin. by apply (wf_subs s Hw) in Hin as [_ ?].
  - fold n. cbn [pb_delivered pb_dropped]. eexists _, chs. split; [reflexivity|]. split; [done|].
    split; [|split; [apply publish_drop_subs|]].
    + intros ch c Hc Hin. apply (wf_subs s Hw) in Hin as [Hhd (c0 & Hc0 & Hcl)].
      destruct (wf_handle s Hw _ _ Hhd) as (c1 & Hc1 & Hk). simplify_eq.
      pose proof (try_send_ok topic (mkMsg topic data) c Hcl Hk eq_refl) as Hs.
      rewrite try_send_room in Hs by done. cbn zeta. destruct (room c) eqn:Er; [tauto|].
      unfold given. by rewrite try_send_room, Er.
    + intros Hb Hb0. unfold Dropped, publish_drop in *. replace (0 + len l - n) with (len l - n) by lia.
      assert (n <= len l) as Hle.
      { unfold n, len, takers. apply Nat2Z.inj_le, filter_length_le. }
      destruct (Z.ltb_spec 0 (len l - n)); cbn.
      * rewrite lookup_insert_eq. cbn. apply uwrap_small. lia.
      * lia.
Qed.

(** ** The properties *)

(** C29: However subscriptions, cancellations, publications and receptions
    interleave: nothing is ever sent on a closed channel and no channel is
    closed twice; the subscribers of a topic are exactly the open channels made
    for it, each once, and no topic keeps an empty list; a channel never buffers
    more than its capacity and only ever carries messages of its topic; and
    every publication accounts for each subscriber it found, delivered or
    dropped. *)
Theorem pubsub_safe s :
  star step world0 s ->
  panicked s = false /\
  (forall t, subs (bus s) !! t <> Some [] /\ NoDup (subs_of (bus s) t)) /\
  (forall t ch, ch ∈ subs_of (bus s) t <->
     (t, ch) ∈ handles s /\ exists c, channels s !! ch = Some c /\ c_closed c = false) /\
  (forall t ch, (t, ch) ∈ handles s -> exists c, channels s !! ch = Some c /\
     len (c_buf c) <= c_cap c /\ Forall (fun m => Topic m = t) (c_taken c ++ c_buf c)) /\
  (forall i n t d k, pubs s !! i = Some (Published n t d k) -> d + k = Z.of_nat n).
Proof.
  intros Hw%bus_wf_reachable. pose proof Hw as [Hok Hne Hnd Hsub Hh Ht Hp].
  split; [done|]. split; [done|]. split; [done|]. split.
  - intros t ch (c & Hc & H1 & _ & H3)%Hh. eauto.
  - intros i n t d k Hi. exact (Forall_lookup_1 _ _ _ _ Hp Hi).
Qed.

(** A publication reaches each subscriber of its topic at most once and no
    one else: a subscriber with a receiver waiting or room in its buffer gets
    the message at the end of what it was sent, one without is skipped; the
    result is the number reached, the others are added to the topic's counter,
    and the call never blocks or panics. *)
Theorem publish_exact s topic data :
  star step world0 s ->
  let l := subs_of (bus s) topic in
  let n := len (takers (channels s) l) in
  exists p chs, Publish topic data (bus s) (channels s) = Returned (n, p, chs) /\
    (forall ch, chs !! ch =
       if decide (ch ∈ l) then given (mkMsg topic data) <$> channels s !! ch else channels s !! ch) /\
    (forall ch c, channels s !! ch = Some c -> ch ∈ l ->
       let c' := given (mkMsg topic data) c in
       if room c then c_taken c' ++ c_buf c' = c_taken c ++ c_buf c ++ [mkMsg topic data] else c' = c) /\
    subs p = subs (bus s) /\
    (Dropped topic (bus s) + (len l - n) < 2 ^ 64 -> 0 <= Dropped topic (bus s) ->
     Dropped topic p = Dropped topic (bus s) + (len l - n)).
Proof. intros Hs l n. exact (Publish_spec s topic data Hs). Qed.

(** A run: one subscriber with no buffer; a publication visits it, and it
    cancels before the drop is counted. *)
Definition a_topic : bytes := [116].
Definition bus1 : PubSub := mkPubSub {[ a_topic := [0%nat] ]} ∅.
Definition ch1 : chan := mkChan 0 [] 0 false [].
Definition pub1 (todo : list nat) (k : Z) : publishing := mkPub (mkMsg a_topic [1]) todo 0 k.

Definition w1 : world := mkWorld bus1 [ch1] [(a_topic, 0%nat)] [] false.
Definition w2 : world := mkWorld bus1 [ch1] [(a_topic, 0%nat)] [Looping 1 (pub1 [0%nat] 0)] false.
Definition w3 : world := mkWorld bus1 [ch1] [(a_topic, 0%nat)] [Looping 1 (pub1 [] 1)] false.
Definition w4 : world := mkWorld bus1 [ch1] [(a_topic, 0%nat)] [Counting 1 a_topic 0 1] false.
Definition w5 : world := mkWorld (mkPubSub ∅ ∅) [close_ ch1] [(a_topic, 0%nat)] [Counting 1 a_topic 0 1] false.
Definition w6 : world := mkWorld (mkPubSub ∅ {[ a_topic := 1 ]}) [close_ ch1] [(a_topic, 0%nat)] [Published 1 a_topic 0 1] false.

Lemma step_to s s1 s2 : step s s1 -> s1 = s2 -> step s s2.
Proof. by intros ? <-. Qed.

Lemma w1_reachable : star step world0 w1.
Proof.
  apply star_one. eapply step_to; [eapply (s_subscribe _ a_topic 0)|].
  - constructor.
  - reflexivity.
  - vm_compute. reflexivity.
Qed.

Lemma w6_reachable : star step world0 w6.
Proof.
  eapply star_trans; [apply w1_reachable|].
  eapply star_step; [eapply (step_to _ _ w2); [apply (s_publish _ a_topic [1])|vm_compute; reflexivity]|].
  eapply star_step; [eapply (step_to _ _ w3); [eapply (s_visit _ 0); [reflexivity|done|reflexivity]|vm_compute; reflexivity]|].
  eapply star_step; [eapply (step_to _ _ w4); [eapply (s_unlock _ 0); [reflexivity|done]|vm_compute; reflexivity]|].
  eapply star_step; [eapply (step_to _ _ w5)|].
  { eapply (s_cancel _ a_topic 0); [by repeat constructor|by left|vm_compute; reflexivity]. }
  { vm_compute. reflexivity. }
  apply star_one. eapply (step_to _ _ w6); [eapply (s_count _ 0); [reflexivity|intros _; by repeat constructor]|].
  vm_compute. reflexivity.
Qed.

(** The dropped counter of a topic without subscribers can stay: a
    publication counts its drops after giving up the read lock, and when the
    last subscriber cancels in between, the counter the cancellation deleted
    comes back and is there for the topic's next subscriber. *)
Theorem dropped_counter_returns :
  exists s, star step world0 s /\ subs (bus s) = ∅ /\ Dropped [116] (bus s) = 1.
Proof. exists w6. split; [apply w6_reachable|]. split; vm_compute; reflexivity. Qed.

(** ** A run: one subscriber, full *)

Lemma pubsub_safe_witness : panicked w6 = false /\ forall n k, pubs w6 !! 0%nat = Some (Published n a_topic 0 k) -> k = Z.of_nat n.
Proof.
  destruct (pubsub_safe w6 w6_reachable) as (H & _ & _ & _ & Hp). split; [exact H|]. intros n k Hk.
  exact (Hp 0%nat n a_topic 0 k Hk).
Defined.

Lemma publish_exact_witness :
  exists p chs, Publish a_topic [1] (bus w1) (channels w1) = Returned (0, p, chs) /\ Dropped a_topic p = 1.
Proof.
  destruct (publish_exact w1 a_topic [1] w1_reachable) as (p & chs & E & _ & _ & _ & Hd).
  exists p, chs. split; [exact E|]. apply Hd; vm_compute; done.
Defined.
