(* ===== verification/Cluster.v ===== *)
(** * Cluster: [internal/plugin/cluster.go]

    The plugin that passes messages between nodes over the bus: every message
    a node receives goes out in an envelope with the node's name, and a node
    broadcasts to its sessions what the envelopes of the other nodes hold.  The
    JSON codec of the envelope is a parameter. *)
From stdpp Require Import fin_maps gmap.
From S2P Require Import Prelude Bytes Core SessionStore Lifecycle PubSub.
Local Open Scope Z_scope.
Local Open Scope list_scope.

(* go: internal/plugin/cluster.go:29-34 (clusterEnvelope) *)
Record clusterEnvelope : Type := mkEnv {
  env_NodeID : bytes;
  env_Topic : bytes;
  env_Protocol : bytes;
  env_Payload : bytes
}.

(** [encoding/json] on an envelope: text survives when it is ASCII, the payload
    (base64) always. *)
Class EnvelopeCodec := {
  Marshal : clusterEnvelope -> result error bytes;
  Unmarshal : bytes -> result error clusterEnvelope
}.

Definition envelope_ok (env : clusterEnvelope) : Prop :=
  ascii (env_NodeID env) /\ ascii (env_Topic env) /\ ascii (env_Protocol env).

Class EnvelopeCodecLaws `{EnvelopeCodec} : Prop :=
  Unmarshal_Marshal env d : envelope_ok env -> Marshal env = Ok d -> Unmarshal d = Ok env.

(** [has_bus] and [has_manager] tell whether they were given. *)
(* go: internal/plugin/cluster.go:12-27 (Cluster) *)
Record Cluster : Type := mkCluster {
  nodeID : bytes;
  topic : bytes;
  has_bus : bool;
  has_manager : bool;
  buffer : Z
}.

(* go: internal/plugin/cluster.go:36-44 (NewCluster) *)
Definition NewCluster (nodeID : bytes) (bus manager : bool) (buffer : Z) : Cluster :=
  let nodeID := if bool_decide (nodeID = []) then bytes_of_string "local" else nodeID in
  let buffer := if buffer <=? 0 then 16 else buffer in
  mkCluster nodeID (bytes_of_string "shark.cluster.messages") bus manager buffer.

(* go: internal/plugin/cluster.go:49-59 (WithTopic) *)
Definition WithTopic (t : bytes) (p : Cluster) : Cluster :=
  if bool_decide (t = []) then p else mkCluster (nodeID p) t (has_bus p) (has_manager p) (buffer p).

(* go: internal/plugin/cluster.go:61-68 (topicName) *)
Definition topicName (p : Cluster) : bytes := topic p.

Section cluster.
Context `{EnvelopeCodec}.

(** The consumer's channel, when one was started; a plugin without a bus or a
    manager ends its cycle at once. *)
(* go: internal/plugin/cluster.go:70-86 (Start) *)
Definition Start (p : Cluster) (l : lifecycle) (h : heap) (bus : PubSub) (chs : list chan) :
    outcome (option nat * lifecycle * heap * PubSub * list chan) :=
  match begin l h with
  | (None, l, h) => Returned (None, l, h, bus, chs)
  | (Some _, l, h) =>
      if negb (has_bus p) || negb (has_manager p) then
        let '(wg, l) := done_locked l in Returned (None, l, done_release wg h, bus, chs)
      else
        match Subscribe (topicName p) (buffer p) bus chs with
        | Panicked => Panicked
        | Returned (ch, bus, chs) => Returned (Some ch, l, h, bus, chs)
        end
  end.

Definition envelope (p : Cluster) (proto data : bytes) : clusterEnvelope :=
  mkEnv (nodeID p) (topicName p) proto data.

(* go: internal/plugin/cluster.go:93-110 (OnMessage) *)
Definition OnMessage (p : Cluster) (proto data : bytes) (bus : PubSub) (chs : list chan) :
    outcome (result error bytes * PubSub * list chan) :=
  if negb (has_bus p) then Returned (Ok data, bus, chs)
  else
    match Marshal (envelope p proto data) with
    | Err e => Returned (Err e, bus, chs)
    | Ok encoded =>
        match Publish (topicName p) encoded bus chs with
        | Panicked => Panicked
        | Returned (_, bus, chs) => Returned (Ok data, bus, chs)
        end
    end.

(** [broadcast] is the session manager's; its error is only logged. *)
(* go: internal/plugin/cluster.go:136-158 (handleClusterMessage) *)
Definition handleClusterMessage {W} (broadcast : bytes -> W -> option error * W) (p : Cluster) (data : bytes) (w : W) : W :=
  match Unmarshal data with
  | Err _ => w
  | Ok env =>
      if bool_decide (env_NodeID env = nodeID p) || negb (bool_decide (env_Topic env = topicName p))
         || bool_decide (env_Payload env = []) then w
      else (broadcast (env_Payload env) w).2
  end.

(** What a turn of the loop receives: a message, the end of the channel, or the
    stop signal. *)
Inductive received : Type := Got (m : Message) | ChannelClosed | StopSignal.

(* go: internal/plugin/cluster.go:122-134 (consume) *)
Fixpoint consume {W} (broadcast : bytes -> W -> option error * W) (p : Cluster) (rs : list received) (w : W) : W :=
  match rs with
  | Got m :: rs => consume broadcast p rs (handleClusterMessage broadcast p (Data m) w)
  | _ => w
  end.

Context `{!EnvelopeCodecLaws}.

(** What node [b] does with what node [a] sent. *)
Lemma handle_encoded {W} (broadcast : bytes -> W -> option error * W) a b proto data d w :
  envelope_ok (envelope a proto data) -> Marshal (envelope a proto data) = Ok d -> topic a = topic b ->
  handleClusterMessage broadcast b d w =
    if bool_decide (nodeID a = nodeID b) || bool_decide (data = []) then w else (broadcast data w).2.
Proof.
  intros Hok Hm Ht. unfold handleClusterMessage. rewrite (Unmarshal_Marshal _ _ Hok Hm).
  cbn. unfold topicName. rewrite Ht, (bool_decide_eq_true_2 (topic b = topic b)) by done. cbn.
  by rewrite orb_false_r.
Qed.

(** The messages one node consumes from another, in order. *)
Lemma consume_encoded {W} (broadcast : bytes -> W -> option error * W) a b (sent : list (bytes * bytes)) rs tail w :
  topic a = topic b -> nodeID a <> nodeID b -> match tail with Got _ :: _ => False | _ => True end ->
  Forall2 (fun '(proto, data) r => envelope_ok (envelope a proto data) /\ data <> [] /\
             exists d, Marshal (envelope a proto data) = Ok d /\ r = Got (mkMsg (topic a) d)) sent rs ->
  consume broadcast b (rs ++ tail) w = fold_left (fun w '(_, data) => (broadcast data w).2) sent w.
Proof.
  intros Ht Hne Htail HF. revert w. induction HF as [|[proto data] r sent rs (Hok & Hd & d & Hm & ->) _ IH]; intros w.
  - cbn. destruct tail as [|[| |] ?]; done.
  - cbn [app consume Data fold_left]. rewrite IH. f_equal. rewrite (handle_encoded _ a b proto data) by done.
    by rewrite !bool_decide_eq_false_2 by done.
Qed.
End cluster.

(** ** The properties *)

(** A cluster node passes on exactly what it receives: the message goes on
    unchanged to the node's own handler, every subscriber of the topic that can
    take it gets one envelope, and a node that takes the envelope broadcasts
    exactly the message's bytes once - unless it is the node that sent it or
    the message was empty, when it does nothing. Nothing blocks or panics,
    whatever the bus is being used for. *)
Theorem cluster_forwards `{EnvelopeCodecLaws} (a : Cluster) proto data d s :
  star PubSub.step PubSub.world0 s -> has_bus a = true ->
  envelope_ok (envelope a proto data) -> Marshal (envelope a proto data) = Ok d ->
  exists p chs, OnMessage a proto data (bus s) (channels s) = Returned (Ok data, p, chs) /\
    subs p = subs (bus s) /\
    (forall ch c, ch ∈ subs_of (bus s) (topic a) -> channels s !! ch = Some c -> room c = true ->
       exists c', chs !! ch = Some c' /\ c_taken c' ++ c_buf c' = c_taken c ++ c_buf c ++ [mkMsg (topic a) d]) /\
    (forall b W (broadcast : bytes -> W -> option error * W) w, topic b = topic a ->
       handleClusterMessage broadcast b d w =
         if bool_decide (nodeID a = nodeID b) || bool_decide (data = []) then w else (broadcast data w).2).
Proof.
  intros Hs Hb Hok Hm. unfold OnMessage. rewrite Hb, Hm. cbn [negb].
  destruct (Publish_spec s (topicName a) d Hs) as (p & chs & -> & Hall & Htake & Hsubs & _).
  exists p, chs. split; [done|]. split; [done|]. split.
  - intros ch c Hin Hc Hr. exists (given (mkMsg (topic a) d) c).
    rewrite Hall. unfold topicName in *. rewrite decide_True, Hc by done. split; [done|].
    specialize (Htake ch c Hc Hin). by rewrite Hr in Htake.
  - intros b W broadcast w Ht. by apply (handle_encoded broadcast a b proto).
Qed.

(** ** A run: two nodes *)

(** A codec: each field with its length in front (short fields). *)
Definition field (b : bytes) : bytes := len b :: b.
Definition unfield (b : bytes) : option (bytes * bytes) :=
  match b with
  | n :: b => Some (take (Z.to_nat n) b, drop (Z.to_nat n) b)
  | [] => None
  end.

Lemma unfield_field b rest : unfield (field b ++ rest) = Some (b, rest).
Proof. unfold field, unfield, len. cbn. rewrite Nat2Z.id, take_app_length, drop_app_length. done. Qed.

#[local] Instance field_codec : EnvelopeCodec := {|
  Marshal env := Ok (field (env_NodeID env) ++ field (env_Topic env) ++ field (env_Protocol env) ++ env_Payload env);
  Unmarshal b :=
    match unfield b with
    | Some (n, b) =>
        match unfield b with
        | Some (t, b) =>
            match unfield b with Some (p, b) => Ok (mkEnv n t p b) | None => Err (ErrMsg "json") end
        | None => Err (ErrMsg "json")
        end
    | None => Err (ErrMsg "json")
    end
|}.

#[local] Instance field_codec_laws : EnvelopeCodecLaws.
Proof.
  intros [n t p b] d _ E. assert (d = field n ++ field t ++ field p ++ b) as -> by (cbn in *; congruence).
  unfold Unmarshal, field_codec. by rewrite !unfield_field.
Qed.

Definition node (id : Z) : Cluster := WithTopic a_topic (NewCluster [id] true true 0).

Lemma cluster_forwards_witness :
  exists p chs d, OnMessage (node 97) [116] [5] (bus w1) (channels w1) = Returned (Ok [5], p, chs) /\
    handleClusterMessage (fun b w => (None, w ++ [b])) (node 98) d [] = [[5]] /\
    handleClusterMessage (fun b w => (None, w ++ [b])) (node 97) d [] = [].
Proof.
  destruct (cluster_forwards (node 97) [116] [5] [1; 97; 1; 116; 1; 116; 5] w1 w1_reachable eq_refl) as (p & chs & E & _ & _ & Hh).
  - repeat split; repeat constructor; lia.
  - reflexivity.
  - exists p, chs, [1; 97; 1; 116; 1; 116; 5]. split; [exact E|].
    split; [rewrite (Hh (node 98)) by reflexivity; reflexivity|rewrite (Hh (node 97)) by reflexivity; reflexivity].
Defined.
