(* ===== verification/TcpOptions.v ===== *)
(** * TcpOptions: [internal/transport/tcp/options.go]

    The options of the TCP server, and what they make of its worker pool.  Any
    list of options leaves them within the bounds the server relies on. *)
From Stdlib Require Import SpecFloat.
From S2P Require Import Prelude Bytes Core Acceptor Shared Pool Stream TcpFramer ProxyProto.
Local Open Scope Z_scope.
Local Open Scope list_scope.

Definition second : Z := 1000000000.

(* go: internal/transport/shared/listen.go:14-43 (ListenOptions) *)
Record ListenOptions : Type := mkListen {
  ReusePort : bool;
  KeepAliveIdle : Z;
  KeepAliveInterval : Z;
  KeepAliveCount : Z
}.

(** [net.KeepAliveConfig]; a zero period or count is the system's default. *)
Record KeepAliveConfig : Type := mkKeepAlive { Enable : bool; Idle : Z; Interval : Z; Count : Z }.

(* go: internal/transport/shared/listen.go:45-63 (keepAliveConfig) *)
Definition keepAliveConfig (o : ListenOptions) : option KeepAliveConfig :=
  if (KeepAliveIdle o =? 0) && (KeepAliveInterval o =? 0) && (KeepAliveCount o =? 0) then None
  else
    Some (mkKeepAlive (0 <=? KeepAliveIdle o)
            (if 0 <? KeepAliveIdle o then KeepAliveIdle o else 0)
            (if 0 <? KeepAliveInterval o then KeepAliveInterval o else 0)
            (if 0 <? KeepAliveCount o then KeepAliveCount o else 0)).

(** What [net.ListenConfig] does on a connection it accepts: with the config
    not enabled its [KeepAlive] period decides, and only a negative one turns
    probes off. *)
Definition accepted_keepalive (KeepAlive : Z) (cfg : KeepAliveConfig) : KeepAliveConfig :=
  if negb (Enable cfg) && (0 <=? KeepAlive) then mkKeepAlive true KeepAlive 0 0 else cfg.

(** The listener: its [KeepAlive] is left zero. *)
(* go: internal/transport/shared/listen.go:65-72 (Listen) *)
Definition Listen_keepalive (o : ListenOptions) : KeepAliveConfig :=
  accepted_keepalive 0 (match keepAliveConfig o with Some ka => ka | None => mkKeepAlive false 0 0 0 end).

(* go: internal/transport/tcp/options.go:50-62 (ElasticPoolOptions) *)
Record ElasticPoolOptions : Type := mkElastic {
  MinWorker : Z;
  MaxWorker : Z;
  ScaleUpRatio : float64;
  ScaleDownRatio : float64
}.

(** Of the handler and the TLS configuration only the presence matters here; a
    framer is given by its plain and its buffered reader. *)
(* go: internal/transport/tcp/options.go:12-48 (Options) *)
Record Options : Type := mkOptions {
  Addr : bytes;
  HasHandler : bool;
  Framer_ : bool -> Framer;
  WriteQueue : Z;
  WriteTimeout : Z;
  ReadTimeout : Z;
  ReadBufferBytes : Z;
  WriteBufferBytes : Z;
  WriteQueueHighWater : float64;
  WorkerCount : Z;
  TaskQueueSize : Z;
  FullPolicy_ : FullPolicy;
  DrainTimeout : Z;
  MaxFrameBytes : Z;
  TLSConfig : bool;
  TLSHandshakeTimeout : Z;
  MaxConnections : Z;
  MaxConnectionsPerIP : Z;
  AcceptRate : float64;
  Listen_ : ListenOptions;
  ProxyMode : ProxyProtocolMode;
  ProxyTimeout : Z;
  ElasticPool : option ElasticPoolOptions
}.

(** Assignments to one field. *)
Definition set_Addr (x : bytes) (o : Options) : Options :=
  mkOptions x (HasHandler o) (Framer_ o) (WriteQueue o) (WriteTimeout o) (ReadTimeout o) (ReadBufferBytes o) (WriteBufferBytes o) (WriteQueueHighWater o) (WorkerCount o) (TaskQueueSize o) (FullPolicy_ o) (DrainTimeout o) (MaxFrameBytes o) (TLSConfig o) (TLSHandshakeTimeout o) (MaxConnections o) (MaxConnectionsPerIP o) (AcceptRate o) (Listen_ o) (ProxyMode o) (ProxyTimeout o) (ElasticPool o).
Definition set_HasHandler (x : bool) (o : Options) : Options :=
  mkOptions (Addr o) x (Framer_ o) (WriteQueue o) (WriteTimeout o) (ReadTimeout o) (ReadBufferBytes o) (WriteBufferBytes o) (WriteQueueHighWater o) (WorkerCount o) (TaskQueueSize o) (FullPolicy_ o) (DrainTimeout o) (MaxFrameBytes o) (TLSConfig o) (TLSHandshakeTimeout o) (MaxConnections o) (MaxConnectionsPerIP o) (AcceptRate o) (Listen_ o) (ProxyMode o) (ProxyTimeout o) (ElasticPool o).
Definition set_Framer_ (x : bool -> Framer) (o : Options) : Options :=
  mkOptions (Addr o) (HasHandler o) x (WriteQueue o) (WriteTimeout o) (ReadTimeout o) (ReadBufferBytes o) (WriteBufferBytes o) (WriteQueueHighWater o) (WorkerCount o) (TaskQueueSize o) (FullPolicy_ o) (DrainTimeout o) (MaxFrameBytes o) (TLSConfig o) (TLSHandshakeTimeout o) (MaxConnections o) (MaxConnectionsPerIP o) (AcceptRate o) (Listen_ o) (ProxyMode o) (ProxyTimeout o) (ElasticPool o).
Definition set_WriteQueue (x : Z) (o : Options) : Options :=
  mkOptions (Addr o) (HasHandler o) (Framer_ o) x (WriteTimeout o) (ReadTimeout o) (ReadBufferBytes o) (WriteBufferBytes o) (WriteQueueHighWater o) (WorkerCount o) (TaskQueueSize o) (FullPolicy_ o) (DrainTimeout o) (MaxFrameBytes o) (TLSConfig o) (TLSHandshakeTimeout o) (MaxConnections o) (MaxConnectionsPerIP o) (AcceptRate o) (Listen_ o) (ProxyMode o) (ProxyTimeout o) (ElasticPool o).
Definition set_WriteTimeout (x : Z) (o : Options) : Options :=
  mkOptions (Addr o) (HasHandler o) (Framer_ o) (WriteQueue o) x (ReadTimeout o) (ReadBufferBytes o) (WriteBufferBytes o) (WriteQueueHighWater o) (WorkerCount o) (TaskQueueSize o) (FullPolicy_ o) (DrainTimeout o) (MaxFrameBytes o) (TLSConfig o) (TLSHandshakeTimeout o) (MaxConnections o) (MaxConnectionsPerIP o) (AcceptRate o) (Listen_ o) (ProxyMode o) (ProxyTimeout o) (ElasticPool o).
Definition set_ReadTimeout (x : Z) (o : Options) : Options :=
  mkOptions (Addr o) (HasHandler o) (Framer_ o) (WriteQueue o) (WriteTimeout o) x (ReadBufferBytes o) (WriteBufferBytes o) (WriteQueueHighWater o) (WorkerCount o) (TaskQueueSize o) (FullPolicy_ o) (DrainTimeout o) (MaxFrameBytes o) (TLSConfig o) (TLSHandshakeTimeout o) (MaxConnections o) (MaxConnectionsPerIP o) (AcceptRate o) (Listen_ o) (ProxyMode o) (ProxyTimeout o) (ElasticPool o).
Definition set_ReadBufferBytes (x : Z) (o : Options) : Options :=
  mkOptions (Addr o) (HasHandler o) (Framer_ o) (WriteQueue o) (WriteTimeout o) (ReadTimeout o) x (WriteBufferBytes o) (WriteQueueHighWater o) (WorkerCount o) (TaskQueueSize o) (FullPolicy_ o) (DrainTimeout o) (MaxFrameBytes o) (TLSConfig o) (TLSHandshakeTimeout o) (MaxConnections o) (MaxConnectionsPerIP o) (AcceptRate o) (Listen_ o) (ProxyMode o) (ProxyTimeout o) (ElasticPool o).
Definition set_WriteBufferBytes (x : Z) (o : Options) : Options :=
  mkOptions (Addr o) (HasHandler o) (Framer_ o) (WriteQueue o) (WriteTimeout o) (ReadTimeout o) (ReadBufferBytes o) x (WriteQueueHighWater o) (WorkerCount o) (TaskQueueSize o) (FullPolicy_ o) (DrainTimeout o) (MaxFrameBytes o) (TLSConfig o) (TLSHandshakeTimeout o) (MaxConnections o) (MaxConnectionsPerIP o) (AcceptRate o) (Listen_ o) (ProxyMode o) (ProxyTimeout o) (ElasticPool o).
Definition set_WriteQueueHighWater (x : float64) (o : Options) : Options :=
  mkOptions (Addr o) (HasHandler o) (Framer_ o) (WriteQueue o) (WriteTimeout o) (ReadTimeout o) (ReadBufferBytes o) (WriteBufferBytes o) x (WorkerCount o) (TaskQueueSize o) (FullPolicy_ o) (DrainTimeout o) (MaxFrameBytes o) (TLSConfig o) (TLSHandshakeTimeout o) (MaxConnections o) (MaxConnectionsPerIP o) (AcceptRate o) (Listen_ o) (ProxyMode o) (ProxyTimeout o) (ElasticPool o).
Definition set_WorkerCount (x : Z) (o : Options) : Options :=
  mkOptions (Addr o) (HasHandler o) (Framer_ o) (WriteQueue o) (WriteTimeout o) (ReadTimeout o) (ReadBufferBytes o) (WriteBufferBytes o) (WriteQueueHighWater o) x (TaskQueueSize o) (FullPolicy_ o) (DrainTimeout o) (MaxFrameBytes o) (TLSConfig o) (TLSHandshakeTimeout o) (MaxConnections o) (MaxConnectionsPerIP o) (AcceptRate o) (Listen_ o) (ProxyMode o) (ProxyTimeout o) (ElasticPool o).
Definition set_TaskQueueSize (x : Z) (o : Options) : Options :=
  mkOptions (Addr o) (HasHandler o) (Framer_ o) (WriteQueue o) (WriteTimeout o) (ReadTimeout o) (ReadBufferBytes o) (WriteBufferBytes o) (WriteQueueHighWater o) (WorkerCount o) x (FullPolicy_ o) (DrainTimeout o) (MaxFrameBytes o) (TLSConfig o) (TLSHandshakeTimeout o) (MaxConnections o) (MaxConnectionsPerIP o) (AcceptRate o) (Listen_ o) (ProxyMode o) (ProxyTimeout o) (ElasticPool o).
Definition set_FullPolicy_ (x : FullPolicy) (o : Options) : Options :=
  mkOptions (Addr o) (HasHandler o) (Framer_ o) (WriteQueue o) (WriteTimeout o) (ReadTimeout o) (ReadBufferBytes o) (WriteBufferBytes o) (WriteQueueHighWater o) (WorkerCount o) (TaskQueueSize o) x (DrainTimeout o) (MaxFrameBytes o) (TLSConfig o) (TLSHandshakeTimeout o) (MaxConnections o) (MaxConnectionsPerIP o) (AcceptRate o) (Listen_ o) (ProxyMode o) (ProxyTimeout o) (ElasticPool o).
Definition set_DrainTimeout (x : Z) (o : Options) : Options :=
  mkOptions (Addr o) (HasHandler o) (Framer_ o) (WriteQueue o) (WriteTimeout o) (ReadTimeout o) (ReadBufferBytes o) (WriteBufferBytes o) (WriteQueueHighWater o) (WorkerCount o) (TaskQueueSize o) (FullPolicy_ o) x (MaxFrameBytes o) (TLSConfig o) (TLSHandshakeTimeout o) (MaxConnections o) (MaxConnectionsPerIP o) (AcceptRate o) (Listen_ o) (ProxyMode o) (ProxyTimeout o) (ElasticPool o).
Definition set_MaxFrameBytes (x : Z) (o : Options) : Options :=
  mkOptions (Addr o) (HasHandler o) (Framer_ o) (WriteQueue o) (WriteTimeout o) (ReadTimeout o) (ReadBufferBytes o) (WriteBufferBytes o) (WriteQueueHighWater o) (WorkerCount o) (TaskQueueSize o) (FullPolicy_ o) (DrainTimeout o) x (TLSConfig o) (TLSHandshakeTimeout o) (MaxConnections o) (MaxConnectionsPerIP o) (AcceptRate o) (Listen_ o) (ProxyMode o) (ProxyTimeout o) (ElasticPool o).
Definition set_TLSConfig (x : bool) (o : Options) : Options :=
  mkOptions (Addr o) (HasHandler o) (Framer_ o) (WriteQueue o) (WriteTimeout o) (ReadTimeout o) (ReadBufferBytes o) (WriteBufferBytes o) (WriteQueueHighWater o) (WorkerCount o) (TaskQueueSize o) (FullPolicy_ o) (DrainTimeout o) (MaxFrameBytes o) x (TLSHandshakeTimeout o) (MaxConnections o) (MaxConnectionsPerIP o) (AcceptRate o) (Listen_ o) (ProxyMode o) (ProxyTimeout o) (ElasticPool o).
Definition set_TLSHandshakeTimeout (x : Z) (o : Options) : Options :=
  mkOptions (Addr o) (HasHandler o) (Framer_ o) (WriteQueue o) (WriteTimeout o) (ReadTimeout o) (ReadBufferBytes o) (WriteBufferBytes o) (WriteQueueHighWater o) (WorkerCount o) (TaskQueueSize o) (FullPolicy_ o) (DrainTimeout o) (MaxFrameBytes o) (TLSConfig o) x (MaxConnections o) (MaxConnectionsPerIP o) (AcceptRate o) (Listen_ o) (ProxyMode o) (ProxyTimeout o) (ElasticPool o).
Definition set_MaxConnections (x : Z) (o : Options) : Options :=
  mkOptions (Addr o) (HasHandler o) (Framer_ o) (WriteQueue o) (WriteTimeout o) (ReadTimeout o) (ReadBufferBytes o) (WriteBufferBytes o) (WriteQueueHighWater o) (WorkerCount o) (TaskQueueSize o) (FullPolicy_ o) (DrainTimeout o) (MaxFrameBytes o) (TLSConfig o) (TLSHandshakeTimeout o) x (MaxConnectionsPerIP o) (AcceptRate o) (Listen_ o) (ProxyMode o) (ProxyTimeout o) (ElasticPool o).
Definition set_MaxConnectionsPerIP (x : Z) (o : Options) : Options :=
  mkOptions (Addr o) (HasHandler o) (Framer_ o) (WriteQueue o) (WriteTimeout o) (ReadTimeout o) (ReadBufferBytes o) (WriteBufferBytes o) (WriteQueueHighWater o) (WorkerCount o) (TaskQueueSize o) (FullPolicy_ o) (DrainTimeout o) (MaxFrameBytes o) (TLSConfig o) (TLSHandshakeTimeout o) (MaxConnections o) x (AcceptRate o) (Listen_ o) (ProxyMode o) (ProxyTimeout o) (ElasticPool o).
Definition set_AcceptRate (x : float64) (o : Options) : Options :=
  mkOptions (Addr o) (HasHandler o) (Framer_ o) (WriteQueue o) (WriteTimeout o) (ReadTimeout o) (ReadBufferBytes o) (WriteBufferBytes o) (WriteQueueHighWater o) (WorkerCount o) (TaskQueueSize o) (FullPolicy_ o) (DrainTimeout o) (MaxFrameBytes o) (TLSConfig o) (TLSHandshakeTimeout o) (MaxConnections o) (MaxConnectionsPerIP o) x (Listen_ o) (ProxyMode o) (ProxyTimeout o) (ElasticPool o).
Definition set_Listen_ (x : ListenOptions) (o : Options) : Options :=
  mkOptions (Addr o) (HasHandler o) (Framer_ o) (WriteQueue o) (WriteTimeout o) (ReadTimeout o) (ReadBufferBytes o) (WriteBufferBytes o) (WriteQueueHighWater o) (WorkerCount o) (TaskQueueSize o) (FullPolicy_ o) (DrainTimeout o) (MaxFrameBytes o) (TLSConfig o) (TLSHandshakeTimeout o) (MaxConnections o) (MaxConnectionsPerIP o) (AcceptRate o) x (ProxyMode o) (ProxyTimeout o) (ElasticPool o).
Definition set_ProxyMode (x : ProxyProtocolMode) (o : Options) : Options :=
  mkOptions (Addr o) (HasHandler o) (Framer_ o) (WriteQueue o) (WriteTimeout o) (ReadTimeout o) (ReadBufferBytes o) (WriteBufferBytes o) (WriteQueueHighWater o) (WorkerCount o) (TaskQueueSize o) (FullPolicy_ o) (DrainTimeout o) (MaxFrameBytes o) (TLSConfig o) (TLSHandshakeTimeout o) (MaxConnections o) (MaxConnectionsPerIP o) (AcceptRate o) (Listen_ o) x (ProxyTimeout o) (ElasticPool o).
Definition set_ProxyTimeout (x : Z) (o : Options) : Options :=
  mkOptions (Addr o) (HasHandler o) (Framer_ o) (WriteQueue o) (WriteTimeout o) (ReadTimeout o) (ReadBufferBytes o) (WriteBufferBytes o) (WriteQueueHighWater o) (WorkerCount o) (TaskQueueSize o) (FullPolicy_ o) (DrainTimeout o) (MaxFrameBytes o) (TLSConfig o) (TLSHandshakeTimeout o) (MaxConnections o) (MaxConnectionsPerIP o) (AcceptRate o) (Listen_ o) (ProxyMode o) x (ElasticPool o).
Definition set_ElasticPool (x : option ElasticPoolOptions) (o : Options) : Options :=
  mkOptions (Addr o) (HasHandler o) (Framer_ o) (WriteQueue o) (WriteTimeout o) (ReadTimeout o) (ReadBufferBytes o) (WriteBufferBytes o) (WriteQueueHighWater o) (WorkerCount o) (TaskQueueSize o) (FullPolicy_ o) (DrainTimeout o) (MaxFrameBytes o) (TLSConfig o) (TLSHandshakeTimeout o) (MaxConnections o) (MaxConnectionsPerIP o) (AcceptRate o) (Listen_ o) (ProxyMode o) (ProxyTimeout o) x.

(* go: internal/transport/tcp/options.go:66-82 (defaultOptions) *)
Definition defaultOptions : Options :=
  mkOptions (bytes_of_string "127.0.0.1:18000") false (fun b => LengthPrefixFramer b (1024 * 1024)) 128 (30 * second) (5 * 60 * second) 1024 0 (fdiv (float_of_int 4) (float_of_int 5)) 4 512 PolicyDrop (5 * second) (1024 * 1024) false 0 0 0 f0 (mkListen false 0 0 0) ProxyProtocolOff 0 None.

(** [net.JoinHostPort] *)
Definition JoinHostPort (host port : bytes) : bytes :=
  if has_byte 58 host || has_byte 37 host then [91] ++ host ++ [93; 58] ++ port else host ++ [58] ++ port.

(* go: internal/transport/tcp/options.go:64-64 (Option) *)
Definition Option_ : Type := Options -> Options.

(* go: internal/transport/tcp/options.go:84-88 (WithAddr) *)
Definition WithAddr (addr : bytes) : Option_ := set_Addr addr.

(* go: internal/transport/tcp/options.go:90-94 (WithHostPort) *)
Definition WithHostPort (host port : bytes) : Option_ := set_Addr (JoinHostPort host port).

(* go: internal/transport/tcp/options.go:96-100 (WithHandler) *)
Definition WithHandler (handler : bool) : Option_ := set_HasHandler handler.

(* go: internal/transport/tcp/options.go:102-106 (WithTLS) *)
Definition WithTLS (config : bool) : Option_ := set_TLSConfig config.

(* go: internal/transport/tcp/options.go:108-114 (WithFramer) *)
Definition WithFramer (framer : option (bool -> Framer)) : Option_ :=
  fun o => match framer with Some f => set_Framer_ f o | None => o end.

(* go: internal/transport/tcp/options.go:116-124 (WithReadTimeout) *)
Definition WithReadTimeout (timeout : Z) : Option_ := set_ReadTimeout timeout.

(* go: internal/transport/tcp/options.go:126-149 (WithReadBufferBytes) *)
Definition WithReadBufferBytes (n : Z) : Option_ :=
  set_ReadBufferBytes (if n <? 0 then 0 else n).

(* go: internal/transport/tcp/options.go:151-171 (WithWriteBufferBytes) *)
Definition WithWriteBufferBytes (n : Z) : Option_ :=
  set_WriteBufferBytes (if n <? 0 then 0 else n).

(* go: internal/transport/tcp/options.go:173-179 (WithWriteQueue) *)
Definition WithWriteQueue (size : Z) : Option_ :=
  fun o => if 0 <? size then set_WriteQueue size o else o.

(* go: internal/transport/tcp/options.go:181-197 (WithWorkers) *)
Definition WithWorkers (count queueSize : Z) (policy : FullPolicy) : Option_ :=
  fun o =>
    let o := if 0 <? count then set_WorkerCount count o else o in
    let o := if 0 <? queueSize then set_TaskQueueSize queueSize o else o in
    set_FullPolicy_ policy o.

Definition elastic_or_new (o : Options) : ElasticPoolOptions :=
  match ElasticPool o with Some e => e | None => mkElastic 0 0 f0 f0 end.

(* go: internal/transport/tcp/options.go:199-222 (WithElasticPool) *)
Definition WithElasticPool (min max : Z) : Option_ :=
  fun o =>
    let e := elastic_or_new o in
    set_ElasticPool (Some (mkElastic min max (ScaleUpRatio e) (ScaleDownRatio e))) o.

(* go: internal/transport/tcp/options.go:224-244 (WithScaleRatio) *)
Definition WithScaleRatio (up down : float64) : Option_ :=
  fun o =>
    let e := elastic_or_new o in
    let in_range f := fltb f0 f && fleb f f1 in
    let up := if in_range up then up else ScaleUpRatio e in
    let down := if in_range down then down else ScaleDownRatio e in
    set_ElasticPool (Some (mkElastic (MinWorker e) (MaxWorker e) up down)) o.

(* go: internal/transport/tcp/options.go:246-250 (WithMaxConnections) *)
Definition WithMaxConnections (max : Z) : Option_ := set_MaxConnections max.

(* go: internal/transport/tcp/options.go:252-257 (WithAcceptRate) *)
Definition WithAcceptRate (rate : float64) : Option_ := set_AcceptRate rate.

(* go: internal/transport/tcp/options.go:259-268 (WithMaxConnectionsPerIP) *)
Definition WithMaxConnectionsPerIP (max : Z) : Option_ := set_MaxConnectionsPerIP max.

(* go: internal/transport/tcp/options.go:270-280 (WithTLSHandshakeTimeout) *)
Definition WithTLSHandshakeTimeout (timeout : Z) : Option_ := set_TLSHandshakeTimeout timeout.

(* go: internal/transport/tcp/options.go:282-299 (WithReusePort) *)
Definition WithReusePort : Option_ :=
  fun o => let l := Listen_ o in set_Listen_ (mkListen true (KeepAliveIdle l) (KeepAliveInterval l) (KeepAliveCount l)) o.

(* go: internal/transport/tcp/options.go:301-316 (WithKeepAlive) *)
Definition WithKeepAlive (idle interval count : Z) : Option_ :=
  fun o => set_Listen_ (mkListen (ReusePort (Listen_ o)) idle interval count) o.

(* go: internal/transport/tcp/options.go:318-332 (WithProxyProtocol) *)
Definition WithProxyProtocol (mode : ProxyProtocolMode) : Option_ := set_ProxyMode mode.

(* go: internal/transport/tcp/options.go:334-345 (WithProxyHeaderTimeout) *)
Definition WithProxyHeaderTimeout (timeout : Z) : Option_ :=
  fun o => if 0 <? timeout then set_ProxyTimeout timeout o else o.

(* go: internal/transport/tcp/server.go:48-54 (NewServer) *)
Definition NewServer_options (opts : list Option_) : Options := fold_left (fun o opt => opt o) opts defaultOptions.

(** The calls of the options, as they are exported. *)
Inductive option_call : Type :=
| CAddr (a : bytes) | CHostPort (h p : bytes) | CHandler (b : bool) | CTLS (b : bool) | CFramer (f : option (bool -> Framer))
| CReadTimeout (t : Z) | CReadBufferBytes (n : Z) | CWriteBufferBytes (n : Z) | CWriteQueue (n : Z)
| CWorkers (n q : Z) (p : FullPolicy) | CElasticPool (mn mx : Z) | CScaleRatio (up down : float64)
| CMaxConnections (n : Z) | CAcceptRate (r : float64) | CMaxConnectionsPerIP (n : Z) | CTLSHandshakeTimeout (t : Z)
| CReusePort | CKeepAlive (a b c : Z) | CProxyProtocol (m : ProxyProtocolMode) | CProxyHeaderTimeout (t : Z).

Definition run_call (c : option_call) : Option_ :=
  match c with
  | CAddr a => WithAddr a | CHostPort h p => WithHostPort h p | CHandler b => WithHandler b | CTLS b => WithTLS b
  | CFramer f => WithFramer f | CReadTimeout t => WithReadTimeout t | CReadBufferBytes n => WithReadBufferBytes n
  | CWriteBufferBytes n => WithWriteBufferBytes n | CWriteQueue n => WithWriteQueue n
  | CWorkers n q p => WithWorkers n q p | CElasticPool mn mx => WithElasticPool mn mx
  | CScaleRatio u d => WithScaleRatio u d | CMaxConnections n => WithMaxConnections n | CAcceptRate r => WithAcceptRate r
  | CMaxConnectionsPerIP n => WithMaxConnectionsPerIP n | CTLSHandshakeTimeout t => WithTLSHandshakeTimeout t
  | CReusePort => WithReusePort | CKeepAlive a b c => WithKeepAlive a b c | CProxyProtocol m => WithProxyProtocol m
  | CProxyHeaderTimeout t => WithProxyHeaderTimeout t
  end.

(** [x == 0] on floats. *)
Definition feqb : float64 -> float64 -> bool := SFeqb.

(** The pool the server starts: a fixed number of workers and a queue size, or
    an elastic pool's scaling state. *)
(* go: internal/transport/tcp/server.go:118-142 (buildPool) *)
Definition buildPool (procs : Z) (o : Options) : (Z * Z) + scaler :=
  match ElasticPool o with
  | None => inl (WorkerCount o, TaskQueueSize o)
  | Some cfg =>
      let p := NewScalablePool procs (MinWorker cfg) (MaxWorker cfg) (TaskQueueSize o) in
      if negb (feqb (ScaleUpRatio cfg) f0) || negb (feqb (ScaleDownRatio cfg) f0) then
        let up := if feqb (ScaleUpRatio cfg) f0 then DefaultScaleUpRatio else ScaleUpRatio cfg in
        let down := if feqb (ScaleDownRatio cfg) f0 then DefaultScaleDownRatio else ScaleDownRatio cfg in
        inr (SetScaleRatio up down p)
      else inr p
  end.

(** The deadline a TLS handshake gets: its own, else the read timeout; none when
    neither is positive. *)
(* go: internal/transport/tcp/server.go:270-318 (handshakeTLS) *)
Definition handshake_budget (o : Options) : option Z :=
  let timeout := if TLSHandshakeTimeout o <=? 0 then ReadTimeout o else TLSHandshakeTimeout o in
  if 0 <? timeout then Some timeout else None.
(** ** What every list of options keeps *)

(** A threshold is unset or in (0, 1]. *)
Definition ratio_ok (f : float64) : Prop := f = f0 \/ fltb f0 f = true /\ fleb f f1 = true.

Record options_ok (o : Options) : Prop := {
  oo_read : 0 <= ReadBufferBytes o;
  oo_write : 0 <= WriteBufferBytes o;
  oo_queue : 0 < WriteQueue o;
  oo_workers : 0 < WorkerCount o;
  oo_tasks : 0 < TaskQueueSize o;
  oo_elastic : forall e, ElasticPool o = Some e -> ratio_ok (ScaleUpRatio e) /\ ratio_ok (ScaleDownRatio e)
}.

Lemma options_ok_default : options_ok defaultOptions.
Proof. by split. Qed.

Lemma elastic_or_new_ok o : options_ok o ->
  ratio_ok (ScaleUpRatio (elastic_or_new o)) /\ ratio_ok (ScaleDownRatio (elastic_or_new o)).
Proof.
  intros Ho. unfold elastic_or_new. destruct (ElasticPool o) as [e|] eqn:E; [by apply (oo_elastic o)|].
  split; by left.
Qed.

Lemma in_range_ok f g : ratio_ok g -> ratio_ok (if fltb f0 f && fleb f f1 then f else g).
Proof. intros Hg. destruct (fltb f0 f && fleb f f1) eqn:E; [right; by apply andb_true_iff in E|done]. Qed.

Lemma run_call_ok c o : options_ok o -> options_ok (run_call c o).
Proof.
  intros Ho. pose proof (elastic_or_new_ok o Ho) as [Hu Hd]. destruct Ho as [H1 H2 H3 H4 H5 H6].
  destruct c; cbn [run_call]; unfold WithAddr, WithHostPort, WithHandler, WithTLS, WithFramer, WithReadTimeout,
    WithReadBufferBytes, WithWriteBufferBytes, WithWriteQueue, WithWorkers, WithElasticPool, WithScaleRatio,
    WithMaxConnections, WithAcceptRate, WithMaxConnectionsPerIP, WithTLSHandshakeTimeout, WithReusePort,
    WithKeepAlive, WithProxyProtocol, WithProxyHeaderTimeout;
    repeat match goal with |- options_ok (match ?x with _ => _ end) => destruct x eqn:? end;
    breflect; split; cbn; try done; try lia.
  all: try (repeat match goal with |- context [if ?x <? ?y then _ else _] => destruct (Z.ltb_spec x y) end; cbn; done || lia).
  all: intros e [= <-]; cbn; split; try done; by apply in_range_ok.
Qed.

Lemma run_calls_ok cs o : options_ok o -> options_ok (fold_left (fun o opt => opt o) (map run_call cs) o).
Proof. revert o. induction cs as [|c cs IH]; intros o Ho; [done|]. cbn. by apply IH, run_call_ok. Qed.

(** Floats compare both ways round. *)
Lemma SFcompare_swap a b : SFcompare b a = option_map CompOpp (SFcompare a b).
Proof.
  destruct a as [[]|[]| |[] m e], b as [[]|[]| |[] m' e']; try done; cbn;
    rewrite (Z.compare_antisym e e'); destruct (e ?= e'); cbn; try done.
  all: change (Pos.compare_cont Eq) with Pos.compare; rewrite (Pos.compare_antisym m m'); by destruct (m ?= m')%positive.
Qed.

Lemma fltb_not_fleb a b : SFcompare a b <> None -> fleb a b = false -> fltb b a = true.
Proof.
  unfold fleb, fltb, SFleb, SFltb. rewrite (SFcompare_swap a b). by destruct (SFcompare a b) as [[]|].
Qed.

Lemma SFcompare_Some a b : SFcompare a b <> None <-> a <> S754_nan /\ b <> S754_nan.
Proof. destruct a as [[]|[]| |[] m e], b as [[]|[]| |[] m' e']; cbn; try (destruct (e ?= e')); naive_solver. Qed.

Lemma fltb_not_nan a b : fltb a b = true -> a <> S754_nan /\ b <> S754_nan.
Proof. unfold fltb, SFltb. intros H. apply SFcompare_Some. by destruct (SFcompare a b). Qed.

Lemma ratio_not_nan f : ratio_ok f -> f <> S754_nan.
Proof. intros [->|[H _]]; [done|]. by apply fltb_not_nan in H as [_ ?]. Qed.

(** The scaling state a server starts with. *)
Definition scaler_ok (s : scaler) : Prop :=
  0 < minWorker s <= maxWorker s /\ 0 < capacity s /\ fltb (scaleDownRatio s) (scaleUpRatio s) = true.

Lemma SetScaleRatio_ok up down s :
  up <> S754_nan -> down <> S754_nan -> scaler_ok s -> scaler_ok (SetScaleRatio up down s).
Proof.
  intros Hu Hd (H1 & H2 & H3). unfold SetScaleRatio. destruct (_ || _) eqn:E; [done|].
  apply orb_false_iff in E as [_ E]. split; [done|]. split; [done|]. cbn.
  apply fltb_not_fleb; [by apply SFcompare_Some|done].
Qed.

Lemma buildPool_ok procs o : 0 < procs -> options_ok o ->
  match buildPool procs o with
  | inl (workers, queue) => 0 < workers /\ 0 < queue
  | inr s => scaler_ok s
  end.
Proof.
  intros Hp [_ _ _ Hw Ht He]. unfold buildPool. destruct (ElasticPool o) as [e|]; [|done].
  destruct (He e eq_refl) as [Hu%ratio_not_nan Hd%ratio_not_nan].
  assert (scaler_ok (NewScalablePool procs (MinWorker e) (MaxWorker e) (TaskQueueSize o))) as Hs.
  { destruct (NewScalablePool_ok procs (MinWorker e) (MaxWorker e) (TaskQueueSize o) Hp) as [H1 H2]. done. }
  destruct (_ || _); [|done]. apply SetScaleRatio_ok; [..|done]; by destruct (feqb _ _).
Qed.

(** ** The properties *)

(** Whatever options a server is built with, in any order and with any
    arguments: its queues and worker count are positive, its buffer sizes not
    negative, and the pool it starts has a positive number of workers and, when
    elastic, at most the ceiling and a lower threshold strictly below the upper
    one; a TLS handshake is given a bound whenever one was set for it or for
    reading. *)
Theorem options_valid procs cs :
  0 < procs ->
  let o := NewServer_options (map run_call cs) in
  options_ok o /\
  match buildPool procs o with
  | inl (workers, queue) => 0 < workers /\ 0 < queue
  | inr s => scaler_ok s
  end /\
  (0 < TLSHandshakeTimeout o \/ 0 < ReadTimeout o -> exists t, handshake_budget o = Some t /\ 0 < t).
Proof.
  intros Hp o. assert (options_ok o) as Ho by (apply run_calls_ok, options_ok_default).
  split; [done|]. split; [by apply buildPool_ok|]. intros Ht. unfold handshake_budget.
  destruct (Z.leb_spec (TLSHandshakeTimeout o) 0).
  - exists (ReadTimeout o). rewrite (proj2 (Z.ltb_lt 0 _)) by lia. split; [done|lia].
  - exists (TLSHandshakeTimeout o). rewrite (proj2 (Z.ltb_lt 0 _)) by lia. split; [done|lia].
Qed.

Lemma options_valid_witness :
  let o := NewServer_options (map run_call [CWorkers 0 (-1) PolicyBlock; CReadBufferBytes (-5); CScaleRatio S754_nan f0]) in
  options_ok o /\ ReadBufferBytes o = 0.
Proof.
  destruct (options_valid 8 [CWorkers 0 (-1) PolicyBlock; CReadBufferBytes (-5); CScaleRatio S754_nan f0] ltac:(lia)) as [H _].
  split; [exact H|reflexivity].
Defined.

(** A negative idle period is documented to turn keepalive probes off; the
    listener turns the configuration off instead, and a configuration that is
    off leaves the connections with the default probes, exactly as when nothing
    was asked for. A positive period is honoured. *)
Theorem negative_keepalive_still_probes o :
  (KeepAliveIdle o < 0 -> Listen_keepalive o = Listen_keepalive (mkListen (ReusePort o) 0 0 0)) /\
  Enable (Listen_keepalive o) = true /\
  (0 < KeepAliveIdle o -> Idle (Listen_keepalive o) = KeepAliveIdle o).
Proof.
  unfold Listen_keepalive, keepAliveConfig. cbn [KeepAliveIdle KeepAliveInterval KeepAliveCount].
  destruct (Z.eqb_spec (KeepAliveIdle o) 0) as [E|E]; cbn [andb].
  - split; [lia|]. split; [|lia]. rewrite E. by destruct (_ && _).
  - unfold accepted_keepalive. cbn [Enable Idle].
    destruct (Z.leb_spec 0 (KeepAliveIdle o)); cbn [negb andb Z.leb Enable Idle].
    + split; [lia|]. split; [done|]. intros. by rewrite (proj2 (Z.ltb_lt 0 _)).
    + split; [done|]. split; [done|lia].
Qed.

(** A single threshold at or below the other's default is dropped without a
    word: 0.2 to grow, with the default 0.25 to shrink, leaves both defaults. *)
Example low_threshold_alone_is_dropped :
  match buildPool 8 (NewServer_options [WithElasticPool 1 4; WithScaleRatio (fdiv f1 (float_of_int 5)) f0]) with
  | inr s => scaleUpRatio s = DefaultScaleUpRatio /\ scaleDownRatio s = DefaultScaleDownRatio
  | inl _ => False
  end.
Proof. by vm_compute. Qed.
