(* ===== verification/TcpServer.v ===== *)
(** * TcpServer: [internal/transport/tcp/server.go]

    The TCP server's connections: one goroutine each, from admission through
    the handshake, registration and the plugins' acceptance to the read loop,
    and back out through the deferred cleanups; the accept loop, [StopAccept]
    and [CloseSessions] run beside them, and so does everything else that uses
    the session manager.  One step is one synchronisation of the code, and the
    theorems hold for every interleaving. *)
From stdpp Require Import fin_maps gmap.
From S2P Require Import Prelude Bytes Core PeerAddr Quota Acceptor.
From S2P Require SessionManager.
Local Open Scope Z_scope.
Local Open Scope list_scope.

Abbreviation Manager := SessionManager.SessionManager.
Abbreviation mgr_Get := SessionManager.Get.

(** Where a connection's goroutine is: before its handshake is done, with the
    session stored, registered, accepted and reading; then in the deferred
    function before each of its calls, at the release of the slot, and gone. *)
(* go: internal/transport/tcp/server.go:320-381 (handleConn) *)
Inductive stage : Type :=
| Handshake
| Stored
| Registered
| Reading
| AtDelete
| AtUnregister
| AtOnClose
| AtDone
| Gone.

#[export] Instance stage_eq_dec : EqDecision stage.
Proof. solve_decision. Defined.

(** A connection: its peer, the id of its session once it has one, whether the
    plugins accepted it, whether it is closed. *)
Record conn : Type := mkConn {
  c_peer : Addr;
  c_id : option Z;
  c_stage : stage;
  c_accepted : bool;
  c_closed : bool
}.

(** The plugin calls that completed. *)
Inductive event : Type := EvAccept (id : Z) | EvClose (id : Z).

#[export] Instance event_eq_dec : EqDecision event.
Proof. solve_decision. Defined.

(** [CloseSessions]: not called, in its [Range] (with the entries it still has
    to visit), waiting for the connections, returned. *)
Inductive closing : Type := NotClosing | Ranging (must : gset Z) | Waiting | Returned_ (timed_out : bool).

(** [accepting] tells whether the accept loop runs, [in_hand] is the connection
    it has accepted and not yet judged. *)
(* go: internal/transport/tcp/server.go:32-46 (Server) *)
Record Server : Type := mkServer {
  closed : bool;
  accepting : bool;
  in_hand : option Addr;
  acceptor : option Acceptor;
  sessions : gmap Z nat;
  mgr : Manager;
  conns : list conn;
  log : list event;
  rejected : Z;
  phase : closing
}.

Definition set_conn (s : Server) (i : nat) (c : conn) : Server :=
  mkServer (closed s) (accepting s) (in_hand s) (acceptor s) (sessions s) (mgr s) (<[i := c]> (conns s)) (log s) (rejected s) (phase s).
Definition set_sessions (s : Server) x : Server :=
  mkServer (closed s) (accepting s) (in_hand s) (acceptor s) x (mgr s) (conns s) (log s) (rejected s) (phase s).
Definition set_mgr (s : Server) x : Server :=
  mkServer (closed s) (accepting s) (in_hand s) (acceptor s) (sessions s) x (conns s) (log s) (rejected s) (phase s).
Definition set_acceptor (s : Server) x : Server :=
  mkServer (closed s) (accepting s) (in_hand s) x (sessions s) (mgr s) (conns s) (log s) (rejected s) (phase s).
Definition add_log (s : Server) e : Server :=
  mkServer (closed s) (accepting s) (in_hand s) (acceptor s) (sessions s) (mgr s) (conns s) (log s ++ [e]) (rejected s) (phase s).
Definition set_phase (s : Server) x : Server :=
  mkServer (closed s) (accepting s) (in_hand s) (acceptor s) (sessions s) (mgr s) (conns s) (log s) (rejected s) x.
Definition set_loop (s : Server) (cl acc : bool) (h : option Addr) : Server :=
  mkServer cl acc h (acceptor s) (sessions s) (mgr s) (conns s) (log s) (rejected s) (phase s).

Definition with_stage (c : conn) (st : stage) : conn := mkConn (c_peer c) (c_id c) st (c_accepted c) (c_closed c).
Definition close_conn (c : conn) : conn := mkConn (c_peer c) (c_id c) (c_stage c) (c_accepted c) true.

(** The state after [Start]; the manager is shared with the other servers. *)
(* go: internal/transport/tcp/server.go:82-116 (Start) *)
Definition Start (maxConns : Z) (rate : float64) (perIP now : Z) (m : Manager) : Server :=
  mkServer false true None (Some (NewAcceptor maxConns rate perIP now)) ∅ m [] [] 0 NotClosing.

(** The judgement of an accepted connection. *)
(* go: internal/transport/tcp/server.go:247-266 (acceptLoop) *)
Definition admit_conn (peer : Addr) (now : Z) (s : Server) : Server :=
  match TryAccept peer now (acceptor s) with
  | (AcceptOK, a) =>
      mkServer (closed s) (accepting s) None a (sessions s) (mgr s)
        (conns s ++ [mkConn peer None Handshake false false]) (log s) (rejected s) (phase s)
  | (_, a) =>
      mkServer (closed s) (accepting s) None a (sessions s) (mgr s) (conns s) (log s) (rejected s + 1) (phase s)
  end.

(** The id and the entry of a new session. *)
(* go: internal/transport/tcp/server.go:325-338 (handleConn) *)
Definition store (i : nat) (c : conn) (s : Server) : Server :=
  let '(id, m) := SessionManager.NextID (mgr s) in
  set_conn (set_sessions (set_mgr s m) (<[id := i]> (sessions s))) i (mkConn (c_peer c) (Some id) Stored false (c_closed c)).

(** The handle the manager keeps; a TCP session can share frames. *)
Definition handle (id : Z) : SessionManager.Session := SessionManager.mkSession id true.

(* go: internal/transport/tcp/server.go:351-354 (handleConn) *)
Definition register (i : nat) (c : conn) (id : Z) (s : Server) : Server :=
  match SessionManager.Register (Some (handle id)) (mgr s) with
  | (None, m) => set_conn (set_mgr s m) i (with_stage c Registered)
  | (Some _, m) => set_conn (set_mgr s m) i (with_stage (close_conn c) AtDelete)
  end.

(** [err] is the answer of the plugin chain. *)
(* go: internal/transport/tcp/server.go:355-359 (handleConn) *)
Definition accepted (i : nat) (c : conn) (id : Z) (err : option error) (s : Server) : Server :=
  match err with
  | None => set_conn (add_log s (EvAccept id)) i (mkConn (c_peer c) (c_id c) Reading true (c_closed c))
  | Some _ => set_conn s i (with_stage (close_conn c) AtDelete)
  end.

(** The deferred function and the goroutine's own, call by call. *)
(* go: internal/transport/tcp/server.go:260-266 (acceptLoop) *)
Definition finish (i : nat) (c : conn) (s : Server) : Server :=
  set_conn (set_acceptor s (Done (c_peer c) (acceptor s))) i (with_stage c Gone).

(* go: internal/transport/tcp/server.go:343-349 (handleConn) *)
Definition cleanup (i : nat) (c : conn) (id : Z) (s : Server) : Server :=
  match c_stage c with
  | AtDelete => set_conn (set_sessions s (delete id (sessions s))) i (with_stage c AtUnregister)
  | AtUnregister =>
      set_conn (set_mgr s (SessionManager.Unregister id (mgr s)).2) i (with_stage c (if c_accepted c then AtOnClose else AtDone))
  | AtOnClose => set_conn (add_log s (EvClose id)) i (with_stage c AtDone)
  | _ => s
  end.

(** What the rest of the program may do to the manager between two steps: give
    out ids, register sessions of its own, unregister any. *)
Record others (ours : Z -> Prop) (m m' : Manager) : Prop := {
  ot_shards : length (SessionManager.shards m') = length (SessionManager.shards m);
  ot_next : SessionManager.nextID m <= SessionManager.nextID m' < 2 ^ 64;
  ot_get id : is_Some (mgr_Get id m') -> is_Some (mgr_Get id m) \/ ~ ours id /\ id <= SessionManager.nextID m'
}.

(** The ids of the server's own sessions. *)
Definition ours (s : Server) (id : Z) : Prop := exists i c, conns s !! i = Some c /\ c_id c = Some id.

(** Ids are not exhausted and admissions not overflowed. *)
Definition room (s : Server) : Prop :=
  SessionManager.nextID (mgr s) + 1 < 2 ^ 64 /\ Z.of_nat (length (conns s)) < max_int64.

Inductive step (s : Server) : Server -> Prop :=
| t_accept peer :
    accepting s = true -> in_hand s = None -> closed s = false ->
    step s (set_loop s (closed s) true (Some peer))
| t_admit peer now : in_hand s = Some peer -> room s -> step s (admit_conn peer now s)
| t_loop_exit : accepting s = true -> in_hand s = None -> closed s = true -> step s (set_loop s true false None)
| t_handshake_failed i c :
    conns s !! i = Some c -> c_stage c = Handshake -> step s (set_conn s i (with_stage (close_conn c) AtDone))
| t_store i c : conns s !! i = Some c -> c_stage c = Handshake -> room s -> step s (store i c s)
| t_register i c id :
    conns s !! i = Some c -> c_stage c = Stored -> c_id c = Some id -> step s (register i c id s)
| t_onaccept i c id err :
    conns s !! i = Some c -> c_stage c = Registered -> c_id c = Some id -> step s (accepted i c id err s)
| t_close i c : conns s !! i = Some c -> c_id c <> None -> step s (set_conn s i (close_conn c))
| t_read_ends i c :
    conns s !! i = Some c -> c_stage c = Reading -> step s (set_conn s i (with_stage (close_conn c) AtDelete))
| t_cleanup i c id :
    conns s !! i = Some c -> c_stage c ∈ [AtDelete; AtUnregister; AtOnClose] -> c_id c = Some id -> step s (cleanup i c id s)
| t_finish i c : conns s !! i = Some c -> c_stage c = AtDone -> step s (finish i c s)
| t_stop_accept : step s (set_loop s true (accepting s) (in_hand s))
| t_close_sessions : phase s = NotClosing -> step s (set_phase s (Ranging (dom (sessions s))))
| t_range_visit id i c must :
    phase s = Ranging must -> sessions s !! id = Some i -> conns s !! i = Some c ->
    step s (set_phase (set_conn s i (close_conn c)) (Ranging (must ∖ {[id]})))
| t_range_gone must : phase s = Ranging must -> step s (set_phase s (Ranging (must ∩ dom (sessions s))))
| t_range_done : phase s = Ranging ∅ -> step s (set_phase s Waiting)
| t_waited : phase s = Waiting -> Forall (fun c => c_stage c = Gone) (conns s) -> step s (set_phase s (Returned_ false))
| t_wait_timeout : phase s = Waiting -> step s (set_phase s (Returned_ true))
| t_others m : others (ours s) (mgr s) m -> step s (set_mgr s m).

Definition steps (s0 : Server) : Server -> Prop := star step s0.

(** ** What holds throughout *)

(** Between the store and the delete, the register and the unregister, the
    accept and the OnClose. *)
Definition in_table (st : stage) : bool :=
  match st with Stored | Registered | Reading | AtDelete => true | _ => false end.
Definition in_manager (st : stage) : bool :=
  match st with Registered | Reading | AtDelete | AtUnregister => true | _ => false end.
Definition notified (st : stage) : bool := match st with AtDone | Gone => true | _ => false end.

Definition accepted_ok (c : conn) : Prop :=
  match c_stage c with
  | Handshake | Stored | Registered => c_accepted c = false
  | Reading | AtOnClose => c_accepted c = true
  | _ => True
  end.

Definition conn_ok (s : Server) (i : nat) (c : conn) : Prop :=
  accepted_ok c /\
  match c_id c with
  | None => c_stage c ∈ [Handshake; AtDone; Gone] /\ c_accepted c = false
  | Some id =>
      id <= SessionManager.nextID (mgr s) /\ c_stage c <> Handshake /\
      (sessions s !! id = Some i <-> in_table (c_stage c) = true) /\
      (is_Some (mgr_Get id (mgr s)) -> in_manager (c_stage c) = true) /\
      occurs (EvAccept id) (log s) = (if c_accepted c then 1 else 0)%nat /\
      occurs (EvClose id) (log s) = (if c_accepted c && notified (c_stage c) then 1 else 0)%nat
  end.

(** The slots held: those of the connections that are not gone. *)
Definition held (cs : list conn) : list Addr := c_peer <$> filter (fun c => c_stage c <> Gone) cs.

Section limits.
Variable maxConns perIP : Z.

Definition slots_ok (s : Server) : Prop :=
  exists a, acceptor s = Some a /\ acc_holds a (held (conns s)) /\
            maxTotal (quota a) = maxConns /\ maxPeer (quota a) = perIP /\ within maxConns perIP (held (conns s)).

Record wf (s : Server) : Prop := {
  w_shards : length (SessionManager.shards (mgr s)) = Z.to_nat SessionManager.sessionShards;
  w_next : 0 <= SessionManager.nextID (mgr s) < 2 ^ 64;
  w_conns i c : conns s !! i = Some c -> conn_ok s i c;
  w_inj i j ci cj id : conns s !! i = Some ci -> conns s !! j = Some cj ->
    c_id ci = Some id -> c_id cj = Some id -> i = j;
  w_table id i : sessions s !! id = Some i -> exists c, conns s !! i = Some c /\ c_id c = Some id;
  w_mgr id : is_Some (mgr_Get id (mgr s)) -> id <= SessionManager.nextID (mgr s);
  w_log id : SessionManager.nextID (mgr s) < id -> occurs (EvAccept id) (log s) = 0%nat /\ occurs (EvClose id) (log s) = 0%nat;
  w_slots : slots_ok s;
  w_len : Z.of_nat (length (conns s)) <= max_int64
}.

Lemma accounts_insert cs i c c' :
  cs !! i = Some c -> c_peer c' = c_peer c -> c_stage c <> Gone -> c_stage c' <> Gone ->
  held (<[i := c']> cs) = held cs.
Proof.
  unfold held. revert i. induction cs as [|x cs IH]; intros [|i] Hi Hp H1 H2; simplify_eq/=.
  - rewrite !filter_cons_True by done. cbn. by rewrite Hp.
  - destruct (decide (c_stage x <> Gone)).
    + rewrite !filter_cons_True by done. cbn. by rewrite IH.
    + rewrite !filter_cons_False by done. by apply IH.
Qed.

Lemma held_gone cs i c c' :
  cs !! i = Some c -> c_stage c <> Gone -> c_stage c' = Gone -> held cs ≡ₚ c_peer c :: held (<[i := c']> cs).
Proof.
  unfold held. revert i. induction cs as [|x cs IH]; intros [|i] Hi H1 H2; simplify_eq/=.
  - rewrite filter_cons_True, filter_cons_False by (done || naive_solver). done.
  - destruct (decide (c_stage x <> Gone)).
    + rewrite !filter_cons_True by done. cbn. rewrite (IH i) by done. by rewrite Permutation_swap.
    + rewrite !filter_cons_False by done. by apply IH.
Qed.

Lemma accounts_length cs : (length (held cs) <= length cs)%nat.
Proof. unfold held. rewrite length_fmap. apply length_filter. Qed.

(** A step of one connection's goroutine: its own entries change, the table
    only loses, the rest is as it was. *)
Lemma wf_update s i c c' s' :
  wf s -> conns s !! i = Some c -> conns s' = <[i := c']> (conns s) ->
  c_id c' = c_id c ->
  length (SessionManager.shards (mgr s')) = length (SessionManager.shards (mgr s)) ->
  SessionManager.nextID (mgr s') = SessionManager.nextID (mgr s) ->
  (forall id j, sessions s' !! id = Some j -> sessions s !! id = Some j) ->
  (forall id, c_id c <> Some id ->
     sessions s' !! id = sessions s !! id /\ (is_Some (mgr_Get id (mgr s')) -> is_Some (mgr_Get id (mgr s))) /\
     occurs (EvAccept id) (log s') = occurs (EvAccept id) (log s) /\
     occurs (EvClose id) (log s') = occurs (EvClose id) (log s)) ->
  conn_ok s' i c' -> slots_ok s' -> wf s'.
Proof.
  intros [H1 H2 H3 H4 H5 H6 H7 H8 H9] Hi Hc Eid El En Hsub Hfr Hok Hsl.
  assert (i < length (conns s))%nat as Hlt by (by eapply lookup_lt_Some).
  assert (forall id, c_id c = Some id -> id <= SessionManager.nextID (mgr s)) as Hle.
  { intros id E. destruct (H3 i c Hi) as [_ Hx]. rewrite E in Hx. apply Hx. }
  split; rewrite ?En, ?El; try done.
  - intros j x Hj. rewrite Hc in Hj. apply list_lookup_insert_Some in Hj as [(<- & <- & _)|[Hne Hj]]; [done|].
    destruct (H3 j x Hj) as [Ha Hx]. split; [done|]. destruct (c_id x) as [id|] eqn:Ex; [|done].
    assert (c_id c <> Some id) as Hid by (intros E; apply Hne; by eapply H4).
    destruct (Hfr id Hid) as (E1 & E2 & E3 & E4). rewrite En, E1, E3, E4. naive_solver.
  - intros j k cj ck id Hj Hk Ej Ek. rewrite Hc in Hj, Hk.
    assert (forall m cm, <[i:=c']> (conns s) !! m = Some cm -> c_id cm = Some id ->
              exists cm', conns s !! m = Some cm' /\ c_id cm' = Some id) as Hback.
    { intros m cm Hm Em. apply list_lookup_insert_Some in Hm as [(<- & <- & _)|[_ Hm]]; [|eauto]. exists c. by rewrite <- Eid. }
    destruct (Hback j cj Hj Ej) as (? & ? & ?), (Hback k ck Hk Ek) as (? & ? & ?). by eapply H4.
  - intros id j (x & Hx & Ex)%Hsub%H5. rewrite Hc. destruct (decide (i = j)) as [<-|Hne].
    + exists c'. rewrite list_lookup_insert_eq by done. split; [done|]. rewrite Eid. congruence.
    + exists x. by rewrite list_lookup_insert_ne.
  - intros id Hid. destruct (decide (c_id c = Some id)) as [E|E]; [by apply Hle|]. by apply H6, Hfr.
  - intros id Hid. assert (c_id c <> Some id) as E by (intros E; apply Hle in E; lia).
    destruct (Hfr id E) as (_ & _ & -> & ->). by apply H7.
  - by rewrite Hc, length_insert.
Qed.
Lemma slots_same s s' i c c' :
  conns s !! i = Some c -> conns s' = <[i := c']> (conns s) -> acceptor s' = acceptor s ->
  c_peer c' = c_peer c -> c_stage c <> Gone -> c_stage c' <> Gone -> slots_ok s -> slots_ok s'.
Proof.
  intros Hi Hc Ha Hp H1 H2 (a & Ea & Hh). exists a. rewrite Ha, Hc, (accounts_insert _ i c) by done. done.
Qed.

(** A step that changes the connection only. *)
Lemma wf_conn s i c c' :
  wf s -> conns s !! i = Some c -> c_id c' = c_id c -> c_peer c' = c_peer c ->
  c_stage c <> Gone -> c_stage c' <> Gone -> conn_ok (set_conn s i c') i c' -> wf (set_conn s i c').
Proof.
  intros Hw Hi Eid Ep H1 H2 Hok. eapply (wf_update s i c c'); try done.
  eapply slots_same; try done. apply Hw.
Qed.

Lemma wf_close s i c : wf s -> conns s !! i = Some c -> wf (set_conn s i (close_conn c)).
Proof.
  intros Hw Hi. pose proof (w_conns s Hw i c Hi) as Hok.
  destruct (decide (c_stage c = Gone)) as [Hg|Hg].
  - eapply (wf_update s i c (close_conn c)); try done.
    destruct (w_slots s Hw) as (a & Ea & Hh). exists a. split; [done|].
    assert (held (conns (set_conn s i (close_conn c))) = held (conns s)) as ->; [|done].
    cbn. clear - Hi Hg. unfold held. revert i Hi. induction (conns s) as [|x cs IH]; intros [|i] Hi; simplify_eq/=.
    + rewrite !filter_cons_False by (cbn; naive_solver). done.
    + destruct (decide (c_stage x <> Gone)).
      * rewrite !filter_cons_True by done. cbn. by rewrite IH.
      * rewrite !filter_cons_False by done. by apply IH.
  - by apply (wf_conn s i c).
Qed.

(** The id of a connection is told apart from the others'. *)
Lemma conn_id s i c id : wf s -> conns s !! i = Some c -> c_id c = Some id -> conn_ok s i c /\ id <= SessionManager.nextID (mgr s).
Proof. intros Hw Hi Eid. pose proof (w_conns s Hw i c Hi) as Hok. split; [done|]. destruct Hok as [_ Hx]. rewrite Eid in Hx. apply Hx. Qed.

Lemma wf_admit peer now s : wf s -> in_hand s = Some peer -> room s -> wf (admit_conn peer now s).
Proof.
  intros Hw Hh [_ Hroom]. pose proof (w_slots s Hw) as (a & Ea & Ha & Et & Ep & Hwi).
  pose proof (accounts_length (conns s)) as Hlen.
  destruct (TryAccept_holds peer now a _ Ha) as (r & a' & E & H' & Et' & Ep'); [lia|].
  unfold admit_conn. rewrite Ea, E. destruct r.
  - set (c := mkConn peer None Handshake false false).
    assert (held (conns s ++ [c]) = held (conns s) ++ [peer]) as Hheld.
    { unfold held. rewrite filter_app, fmap_app. f_equal. }
    assert (peer :: held (conns s) ≡ₚ held (conns s) ++ [peer]) as Hp by (by rewrite Permutation_app_comm).
    destruct Hw as [H1 H2 H3 H4 H5 H6 H7 _ H9]. split; try done; cbn [conns].
    + intros i x [Hi|[_ Hi]]%lookup_app_Some; [by apply H3|].
      apply list_lookup_singleton_Some in Hi as [_ <-]. split; [done|]. cbn. split; [by left|done].
    + intros i j x y id [Hi|[_ Hi]]%lookup_app_Some [Hj|[_ Hj]]%lookup_app_Some;
        try (apply list_lookup_singleton_Some in Hi as [_ <-]); try (apply list_lookup_singleton_Some in Hj as [_ <-]); try done.
      by apply (H4 i j x y).
    + intros id i (x & Hx & Ex)%H5. exists x. split; [by apply lookup_app_l_Some|done].
    + exists a'. cbn [acceptor conns]. rewrite Hheld. unfold acc_holds in *. rewrite <- Hp.
      split; [done|]. split; [done|]. split; [congruence|]. split; [congruence|].
      pose proof (TryAccept_acquired _ _ _ _ E) as Hacq. destruct (Acquire peer (quota a)) as [k q'] eqn:Eq.
      cbn in Hacq. subst k. rewrite <- Et, <- Ep in Hwi |- *. by eapply within_acquire.
    + rewrite length_app. cbn. lia.
  - destruct Hw as [H1 H2 H3 H4 H5 H6 H7 _ H9]. split; try done. exists a'. split; [done|]. split; [done|]. split; [congruence|]. split; [congruence|done].
  - destruct Hw as [H1 H2 H3 H4 H5 H6 H7 _ H9]. split; try done. exists a'. split; [done|]. split; [done|]. split; [congruence|]. split; [congruence|done].
  - destruct Hw as [H1 H2 H3 H4 H5 H6 H7 _ H9]. split; try done. exists a'. split; [done|]. split; [done|]. split; [congruence|]. split; [congruence|done].
Qed.

Lemma wf_store i c s : wf s -> conns s !! i = Some c -> c_stage c = Handshake -> room s -> wf (store i c s).
Proof.
  intros Hw Hi Hst [Hroom _]. pose proof (w_conns s Hw i c Hi) as [_ Hid].
  assert (c_id c = None /\ c_accepted c = false) as [Enone Eacc].
  { pose proof (w_conns s Hw i c Hi) as [Ha _]. unfold accepted_ok in Ha. rewrite Hst in Ha.
    destruct (c_id c); [|done]. destruct Hid as (_ & Hx & _). done. }
  unfold store, SessionManager.NextID. pose proof (w_next s Hw) as Hn.
  rewrite uwrap_small by lia. set (id := SessionManager.nextID (mgr s) + 1).
  assert (i < length (conns s))%nat as Hlt by (by eapply lookup_lt_Some).
  pose proof (w_slots s Hw) as Hsl.
  destruct Hw as [H1 H2 H3 H4 H5 H6 H7 H8 H9].
  assert (forall k x, conns s !! k = Some x -> c_id x <> Some id) as Hfresh.
  { intros k x Hk E. destruct (H3 k x Hk) as [_ Hx]. rewrite E in Hx. unfold id in Hx. lia. }
  assert (mgr_Get id (mgr s) = None) as Hmg.
  { destruct (mgr_Get id (mgr s)) eqn:E; [|done]. enough (id <= SessionManager.nextID (mgr s)) by (unfold id in *; lia). apply H6. eauto. }
  assert (sessions s !! id = None) as Htab.
  { destruct (sessions s !! id) as [k|] eqn:E; [|done]. apply H5 in E as (x & Hx & Ex). by apply Hfresh in Hx. }
  split; cbn [set_conn set_sessions set_mgr mgr conns sessions log SessionManager.nextID SessionManager.shards]; try done; try lia.
  - intros k x Hk. apply list_lookup_insert_Some in Hk as [(<- & <- & _)|[Hne Hk]].
    + split; [done|]. cbn. split; [lia|]. split; [done|]. rewrite lookup_insert_eq. split; [done|].
      change (mgr_Get id _) with (mgr_Get id (mgr s)). rewrite Hmg. split; [by intros [? ?]|]. apply H7. lia.
    + destruct (H3 k x Hk) as [Ha Hx]. split; [done|]. pose proof (Hfresh k x Hk). destruct (c_id x) as [id'|]; [|done].
      cbn. rewrite lookup_insert_ne by congruence. destruct Hx as (Hle & Hx). split; [lia|exact Hx].
  - intros k j x y id' Hk Hj Ek Ej.
    apply list_lookup_insert_Some in Hk as [(<- & <- & _)|[Hnk Hk]], Hj as [(<- & <- & _)|[Hnj Hj]]; try done.
    + injection Ek as <-. by apply Hfresh in Hj.
    + injection Ej as <-. by apply Hfresh in Hk.
    + by apply (H4 k j x y id').
  - intros id' k [[<- <-]|[Hne Hk]]%lookup_insert_Some.
    + eexists. rewrite list_lookup_insert_eq by done. done.
    + apply H5 in Hk as (x & Hx & Ex). exists x. split; [|done]. rewrite list_lookup_insert_ne; [done|]. intros <-. congruence.
  - intros id' Hid'. change (mgr_Get id' _) with (mgr_Get id' (mgr s)) in Hid'. apply H6 in Hid'. lia.
  - intros id' Hid'. apply H7. lia.
  - eapply (slots_same s); try done; by rewrite Hst.
  - by rewrite length_insert.
Qed.

Lemma wf_register i c id s :
  wf s -> conns s !! i = Some c -> c_stage c = Stored -> c_id c = Some id -> wf (register i c id s).
Proof.
  intros Hw Hi Hst Eid. destruct (conn_id s i c id Hw Hi Eid) as [[Ha Hx] Hle]. unfold accepted_ok in Ha. rewrite Hst in Ha.
  rewrite Eid, Hst, Ha in Hx. destruct Hx as (_ & _ & Htab & Hmg & He1 & He2). cbn in *.
  unfold register. destruct (SessionManager.Register_shape (Some (handle id)) (mgr s)) as (Hl & Hn & Hsame).
  pose proof (SessionManager.Get_Register (mgr s) (handle id)) as Hg.
  destruct (SessionManager.Register (Some (handle id)) (mgr s)) as [[e|] m]; cbn in *.
  - rewrite (Hsame ltac:(done)). eapply (wf_update s i c (with_stage (close_conn c) AtDelete)); try done.
    + split; [done|]. cbn. rewrite Eid, Ha. split; [done|]. split; [done|]. split; [done|]. split; [done|]. done.
    + eapply (slots_same s); try done; [by rewrite Hst|apply Hw].
  - eapply (wf_update s i c (with_stage c Registered)); try done; cbn.
    + intros id' Hne. split; [done|]. split; [|done]. rewrite Hg by (done || apply Hw).
      cbn. rewrite decide_False by congruence. done.
    + split; [done|]. cbn. rewrite Eid, Hn, Ha. split; [done|]. split; [done|]. split; [done|]. split; [done|]. done.
    + eapply (slots_same s); try done; [by rewrite Hst|apply Hw].
Qed.

Lemma wf_accepted i c id err s :
  wf s -> conns s !! i = Some c -> c_stage c = Registered -> c_id c = Some id -> wf (accepted i c id err s).
Proof.
  intros Hw Hi Hst Eid. destruct (conn_id s i c id Hw Hi Eid) as [[Ha Hx] Hle]. unfold accepted_ok in Ha. rewrite Hst in Ha.
  rewrite Eid, Hst, Ha in Hx. destruct Hx as (_ & _ & Htab & Hmg & He1 & He2). cbn in *.
  unfold accepted. destruct err as [e|].
  - apply (wf_conn s i c); try done; [by rewrite Hst|].
    split; [done|]. cbn. rewrite Eid, Ha. done.
  - eapply (wf_update s i c (mkConn (c_peer c) (c_id c) Reading true (c_closed c))); try done; cbn.
    + intros id' Hne. rewrite !occurs_snoc. rewrite !decide_False by congruence. split; [done|]. split; [done|]. lia.
    + split; [done|]. cbn. rewrite Eid, !occurs_snoc, He1, He2. rewrite decide_True, decide_False by done. done.
    + eapply (slots_same s); try done; [by rewrite Hst|apply Hw].
Qed.

Lemma wf_cleanup i c id s :
  wf s -> conns s !! i = Some c -> c_stage c ∈ [AtDelete; AtUnregister; AtOnClose] -> c_id c = Some id -> wf (cleanup i c id s).
Proof.
  intros Hw Hi Hst Eid. destruct (conn_id s i c id Hw Hi Eid) as [[Ha Hx] Hle]. unfold accepted_ok in Ha.
  rewrite Eid in Hx. destruct Hx as (_ & _ & Htab & Hmg & He1 & He2).
  unfold cleanup. apply elem_of_cons in Hst as [Hst|Hst]; [|apply elem_of_cons in Hst as [Hst|Hst%list_elem_of_singleton]];
    rewrite Hst in *; cbn in Ha, Htab, Hmg, He1, He2; cbv iota.
  - eapply (wf_update s i c (with_stage c AtUnregister)); try done; cbn.
    + intros id' j. intros [_ Hj]%lookup_delete_Some. done.
    + intros id' Hne. rewrite lookup_delete_ne by congruence. done.
    + split; [done|]. cbn. rewrite Eid, lookup_delete_eq. split; [done|]. split; [done|]. split; [done|].
      split; [done|]. split; [done|]. exact He2.
    + eapply (slots_same s); try done; [by rewrite Hst|apply Hw].
  - destruct (SessionManager.Unregister_shape id (mgr s)) as [El En].
    pose proof (SessionManager.Get_Unregister (mgr s) id) as Hg.
    eapply (wf_update s i c (with_stage c (if c_accepted c then AtOnClose else AtDone))); try done; cbn [set_conn set_mgr mgr conns sessions log].
    + intros id' Hne. split; [done|]. split; [|done]. rewrite Hg by apply Hw. by destruct (decide _).
    + unfold conn_ok. cbn [with_stage c_id c_stage c_accepted set_conn set_mgr mgr sessions log]. rewrite Eid. rewrite En.
      rewrite Hg, decide_True by (done || apply Hw). unfold accepted_ok. cbn [with_stage c_stage].
      destruct (c_accepted c) eqn:Ea; cbn in Ha, Htab, Hmg, He1, He2 |- *; rewrite ?Ea.
      * split; [done|]. split; [done|]. split; [done|]. split; [done|]. split; [by intros [??]|]. done.
      * split; [done|]. split; [done|]. split; [done|]. split; [done|]. split; [by intros [??]|]. done.
    + eapply (slots_same s); try done; [by rewrite Hst|by destruct (c_accepted c)|apply Hw].
  - eapply (wf_update s i c (with_stage c AtDone)); try done; cbn.
    + intros id' Hne. rewrite !occurs_snoc. rewrite !decide_False by congruence. split; [done|]. split; [done|]. lia.
    + split; [done|]. cbn. rewrite Eid, !occurs_snoc, He1, He2, Ha. rewrite decide_False, decide_True by done. done.
    + eapply (slots_same s); try done; [by rewrite Hst|apply Hw].
Qed.

Lemma wf_finish i c s : wf s -> conns s !! i = Some c -> c_stage c = AtDone -> wf (finish i c s).
Proof.
  intros Hw Hi Hst. pose proof (w_conns s Hw i c Hi) as [Ha Hx].
  eapply (wf_update s i c (with_stage c Gone)); try done.
  - split; [done|]. cbn. destruct (c_id c) as [id|]; rewrite Hst in Hx; [|naive_solver set_solver].
    destruct Hx as (A1 & A2 & A3 & A4 & A5 & A6). cbn in *. split; [done|]. split; [done|]. split; [done|]. split; [done|]. done.
  - destruct (w_slots s Hw) as (a & Ea & Hh & Et & Ep & Hwi).
    pose proof (held_gone (conns s) i c (with_stage c Gone) Hi ltac:(by rewrite Hst) ltac:(done)) as Hp.
    unfold acc_holds in Hh. rewrite Hp in Hh, Hwi.
    destruct (Release_holds (c_peer c) (quota a) _ Hh) as (E1 & E2 & H'); [left|..].
    { rewrite (h_total _ _ Hh). pose proof (accounts_length (conns s)) as Hl. rewrite Hp in Hl.
      pose proof (w_len s Hw). lia. }
    cbn [remove_one] in H'. rewrite decide_True in H' by done.
    unfold finish. rewrite Ea. cbn [Done]. eexists. split; [reflexivity|]. split; [exact H'|].
    cbn [quota]. split; [congruence|]. split; [congruence|].
    pose proof (within_remove maxConns perIP (c_peer c) (c_peer c :: held (<[i:=with_stage c Gone]> (conns s))) ltac:(left) Hwi) as Hr.
    cbn [remove_one] in Hr. rewrite decide_True in Hr by done. exact Hr.
Qed.
(** What does not touch the connections. *)
Lemma wf_frame s s' :
  wf s -> conns s' = conns s -> sessions s' = sessions s -> mgr s' = mgr s -> log s' = log s -> acceptor s' = acceptor s -> wf s'.
Proof.
  intros [H1 H2 H3 H4 H5 H6 H7 H8 H9] Ec Es Em El Ea. split; rewrite ?Ec, ?Es, ?Em, ?El; try done.
  - intros i c Hi. specialize (H3 i c Hi). unfold conn_ok in *. by rewrite Es, Em, El.
  - unfold slots_ok in *. by rewrite Ec, Ea.
Qed.

Lemma wf_others s m : wf s -> others (ours s) (mgr s) m -> wf (set_mgr s m).
Proof.
  intros [H1 H2 H3 H4 H5 H6 H7 H8 H9] [O1 O2 O3]. split; cbn [set_mgr mgr conns sessions log acceptor]; try done; try lia.
  - intros i c Hi. destruct (H3 i c Hi) as [Ha Hx]. split; [done|]. destruct (c_id c) as [id|] eqn:E; [|done].
    cbn [set_mgr mgr sessions log]. destruct Hx as (A1 & A2 & A3 & A4 & A5 & A6). split; [lia|]. split; [done|]. split; [done|].
    split; [|done]. intros [Hm|[Hno _]]%O3; [by apply A4|]. exfalso. apply Hno. by exists i, c.
  - intros id [Hm|[_ Hle]]%O3; [apply H6 in Hm; lia|done].
  - intros id Hid. apply H7. lia.
Qed.

Lemma wf_step s s' : wf s -> step s s' -> wf s'.
Proof.
  intros Hw Hs. destruct Hs as [peer Ha Hh Hc|peer now Hh Hr|Ha Hh Hc|i c Hi Hst|i c Hi Hst Hr|i c id Hi Hst Eid
    |i c id err Hi Hst Eid|i c Hi Hid|i c Hi Hst|i c id Hi Hst Eid|i c Hi Hst| |Hp|id i c must Hp Hs Hi|must Hp|Hp|Hp Hg|Hp|m Ho].
  - by apply (wf_frame s).
  - by apply wf_admit.
  - by apply (wf_frame s).
  - pose proof (w_conns s Hw i c Hi) as [Ha Hx]. apply (wf_conn s i c); try done; [by rewrite Hst|].
    split; [done|]. cbn. destruct (c_id c) as [id|].
    + destruct Hx as (_ & Hx & _). done.
    + destruct Hx as [_ Hx]. split; [right; by left|done].
  - by apply wf_store.
  - by apply wf_register.
  - by apply wf_accepted.
  - by apply wf_close.
  - pose proof (w_conns s Hw i c Hi) as [Ha Hx]. unfold accepted_ok in Ha. rewrite Hst in Ha, Hx.
    apply (wf_conn s i c); try done; [by rewrite Hst|]. split; [done|]. cbn. destruct (c_id c) as [id|].
    + destruct Hx as (A1 & A2 & A3 & A4 & A5 & A6). cbn in A3, A4. rewrite Ha in *. cbn in *. done.
    + destruct Hx as [Hx _]. set_solver.
  - by apply wf_cleanup.
  - by apply wf_finish.
  - by apply (wf_frame s).
  - by apply (wf_frame s).
  - apply (wf_frame (set_conn s i (close_conn c))); try done. by apply wf_close.
  - by apply (wf_frame s).
  - by apply (wf_frame s).
  - by apply (wf_frame s).
  - by apply (wf_frame s).
  - by apply wf_others.
Qed.

(** The manager a server is started over. *)
Record manager_ready (m : Manager) : Prop := {
  mr_shards : length (SessionManager.shards m) = Z.to_nat SessionManager.sessionShards;
  mr_next : 0 <= SessionManager.nextID m < 2 ^ 64;
  mr_get id : is_Some (mgr_Get id m) -> id <= SessionManager.nextID m
}.

Lemma wf_Start rate now m : manager_ready m -> wf (Start maxConns rate perIP now m).
Proof.
  intros [H1 H2 H3]. split; try done.
  eexists. split; [reflexivity|]. split; [apply holds_new|]. split; [done|]. split; [done|].
  split; [cbn; lia|]. intros ip _ Hp. unfold occ, held. simpl. lia.
Qed.
Lemma wf_reachable_server rate now m s : manager_ready m -> steps (Start maxConns rate perIP now m) s -> wf s.
Proof.
  intros Hm Hs. eapply (star_invariant step wf); [apply wf_step|exact Hs|by apply wf_Start].
Qed.
End limits.

(** ** The properties *)

(** C15: However connections come and go, whatever closes them and whatever the
    other users of the session manager do: the slots taken are exactly those of
    the connections not yet gone, within the global and the per-address limit;
    the server's table lists a session exactly from its creation to its
    cleanup, and the manager holds it at most until its cleanup; each session
    the plugins accepted gets its OnClose exactly once, at its end, and one they
    refused gets none; and once every connection is gone nothing is left - no
    slot, no entry, no registration. *)
Theorem connections_exact maxConns rate perIP now m s :
  manager_ready m -> steps (Start maxConns rate perIP now m) s ->
  Active (acceptor s) = Z.of_nat (length (held (conns s))) /\ within maxConns perIP (held (conns s)) /\
  (forall i c id, conns s !! i = Some c -> c_id c = Some id ->
     (sessions s !! id = Some i <-> in_table (c_stage c) = true) /\
     (is_Some (mgr_Get id (mgr s)) -> in_manager (c_stage c) = true) /\
     occurs (EvAccept id) (log s) = (if c_accepted c then 1 else 0)%nat /\
     occurs (EvClose id) (log s) = (if c_accepted c && notified (c_stage c) then 1 else 0)%nat) /\
  (Forall (fun c => c_stage c = Gone) (conns s) ->
     Active (acceptor s) = 0 /\ sessions s = ∅ /\ forall id, ours s id -> mgr_Get id (mgr s) = None).
Proof.
  intros Hm Hs. pose proof (wf_reachable_server maxConns perIP rate now m s Hm Hs) as Hw.
  destruct (w_slots _ _ s Hw) as (a & Ea & Hh & Et & Ep & Hwi).
  assert (Active (acceptor s) = Z.of_nat (length (held (conns s)))) as HA
    by (rewrite Ea; exact (h_total _ _ Hh)).
  assert (forall i c id, conns s !! i = Some c -> c_id c = Some id ->
     (sessions s !! id = Some i <-> in_table (c_stage c) = true) /\
     (is_Some (mgr_Get id (mgr s)) -> in_manager (c_stage c) = true) /\
     occurs (EvAccept id) (log s) = (if c_accepted c then 1 else 0)%nat /\
     occurs (EvClose id) (log s) = (if c_accepted c && notified (c_stage c) then 1 else 0)%nat) as Hc.
  { intros i c id Hi Eid. destruct (w_conns _ _ s Hw i c Hi) as [_ Hx]. rewrite Eid in Hx. tauto. }
  split; [done|]. split; [done|]. split; [done|]. intros Hg. rewrite Forall_forall in Hg.
  assert (held (conns s) = []) as Hnil.
  { unfold held. assert (filter (fun c => c_stage c <> Gone) (conns s) = []) as ->; [|done].
    clear - Hg. induction (conns s) as [|c cs IH]; [done|]. rewrite filter_cons_False by (rewrite (Hg c); [naive_solver|by left]).
    apply IH. intros x Hx. apply Hg. by right. }
  split; [by rewrite HA, Hnil|]. split.
  - apply map_empty. intros id. destruct (sessions s !! id) as [i|] eqn:E; [|done].
    destruct (w_table _ _ s Hw id i E) as (c & Hi & Eid). destruct (Hc i c id Hi Eid) as [Hx _].
    apply Hx in E. rewrite (Hg c) in E; [done|]. by eapply list_elem_of_lookup_2.
  - intros id (i & c & Hi & Eid). destruct (Hc i c id Hi Eid) as (_ & Hx & _).
    destruct (mgr_Get id (mgr s)); [|done]. rewrite (Hg c) in Hx by (by eapply list_elem_of_lookup_2).
    by specialize (Hx ltac:(eauto)).
Qed.

(** ** Runs *)

Definition peer1 : Addr := Addr4 [10; 0; 0; 1].
Definition fresh_manager : Manager := SessionManager.NewSessionManager [].
Definition server0 : Server := Start 2 f0 1 0 fresh_manager.

Lemma fresh_ready : manager_ready fresh_manager.
Proof.
  split; [reflexivity|cbn; lia|]. intros id [x E]. exfalso. revert E.
  rewrite (SessionManager.refines_get _ _ _ (SessionManager.refines_new 1000000)). done.
Qed.

(** One connection, admitted and still in its handshake when the server is told
    to stop and [CloseSessions] ranges over the sessions. *)
Definition late1 : Server := admit_conn peer1 0 (set_loop server0 false true (Some peer1)).
Definition late2 : Server := set_phase (set_loop (set_loop late1 true true None) true false None) (Ranging ∅).
Definition late3 : Server := set_phase late2 Waiting.
Definition late_conn (st : stage) (acc : bool) : conn := mkConn peer1 (Some 1) st acc false.
Definition late4 : Server := store 0 (mkConn peer1 None Handshake false false) late3.
Definition late5 : Server := register 0 (late_conn Stored false) 1 late4.
Definition late6 : Server := accepted 0 (late_conn Registered false) 1 None late5.

Lemma late1_steps : steps server0 late1.
Proof.
  eapply star_step; [apply (t_accept _ peer1); reflexivity|].
  apply star_one. apply (t_admit _ peer1 0); [reflexivity|]. split; vm_compute; reflexivity.
Qed.

Lemma late6_steps : steps server0 late6.
Proof.
  eapply star_trans; [apply late1_steps|].
  eapply star_step; [apply t_stop_accept|].
  eapply star_step; [apply t_loop_exit; reflexivity|].
  eapply star_step; [apply t_close_sessions; reflexivity|].
  eapply star_step; [apply t_range_done; reflexivity|].
  eapply star_step; [eapply (t_store _ 0); [reflexivity|reflexivity|split; vm_compute; reflexivity]|].
  eapply star_step; [apply (t_register late4 0 (late_conn Stored false) 1); reflexivity|].
  apply star_one. apply (t_onaccept late5 0 (late_conn Registered false) 1 None); reflexivity.
Qed.

Lemma connections_exact_witness :
  Active (acceptor late6) = 1 /\ occurs (EvAccept 1) (log late6) = 1%nat.
Proof.
  destruct (connections_exact 2 f0 1 0 fresh_manager late6 fresh_ready late6_steps) as (H1 & _ & H2 & _).
  split; [rewrite H1; reflexivity|].
  destruct (H2 0%nat (late_conn Reading true) 1 eq_refl eq_refl) as (_ & _ & H & _). exact H.
Defined.

(** [CloseSessions] can miss a connection: one that is still in its
    handshake when the sessions are ranged over is not in the table yet; after
    the range it is stored, registered, accepted and read from like any other,
    open, on a server that is stopped and waits for it. *)
Theorem close_sessions_misses_handshake :
  exists s c, steps server0 s /\ closed s = true /\ accepting s = false /\ phase s = Waiting /\
    conns s !! 0%nat = Some c /\ c_stage c = Reading /\ c_closed c = false /\ is_Some (mgr_Get 1 (mgr s)).
Proof.
  exists late6, (late_conn Reading true). split; [apply late6_steps|].
  repeat (split; [reflexivity|]). by eexists.
Qed.
