(* ===== verification/TcpClient.v ===== *)
(** * TcpClient: [internal/transport/tcp/client.go]

    The framed client shared by goroutines: connecting, sending, receiving and
    closing run at once, and only the swap of the connection is under the lock.
    Every connection dialled has one owner at any time - the client, or the
    call that is about to install or to close it - so it is closed once and
    never lost; a sender or receiver only borrows it. *)
From S2P Require Import Prelude Bytes Core Stream TcpFramer.
Local Open Scope Z_scope.
Local Open Scope list_scope.

Definition Second : Z := 1000000000.

(** A TLS configuration and a linger time may be set; the framer is an
    interface value. *)
(* go: internal/transport/tcp/client.go:14-28 (Client) *)
Record ClientConfig : Type := mkConfig {
  framer : Framer;
  tlsConfig : bool;
  dialTimeout : Z;
  linger : option Z;
  readTimeout : Z
}.

(* go: internal/transport/tcp/client.go:30-30 (ClientOption) *)
Definition ClientOption : Type := ClientConfig -> ClientConfig.

(* go: internal/transport/tcp/client.go:44-50 (WithClientFramer) *)
Definition WithClientFramer (f : option Framer) : ClientOption :=
  fun c => match f with Some f => mkConfig f (tlsConfig c) (dialTimeout c) (linger c) (readTimeout c) | None => c end.

(* go: internal/transport/tcp/client.go:52-56 (WithClientTLS) *)
Definition WithClientTLS (tls : bool) : ClientOption :=
  fun c => mkConfig (framer c) tls (dialTimeout c) (linger c) (readTimeout c).

(* go: internal/transport/tcp/client.go:58-66 (WithClientLinger) *)
Definition WithClientLinger (sec : Z) : ClientOption :=
  fun c => mkConfig (framer c) (tlsConfig c) (dialTimeout c) (Some sec) (readTimeout c).

(* go: internal/transport/tcp/client.go:141-146 (WithClientReadTimeout) *)
Definition WithClientReadTimeout (timeout : Z) : ClientOption :=
  fun c => mkConfig (framer c) (tlsConfig c) (dialTimeout c) (linger c) timeout.

(* go: internal/transport/tcp/client.go:32-42 (NewClient) *)
Definition NewClient (opts : list ClientOption) : ClientConfig :=
  fold_left (fun c opt => opt c) opts
    (mkConfig (LengthPrefixFramer false (1024 * 1024)) false (10 * Second) None 0).

(** ** The shared connection *)

(** Connections are named by the order they are dialled in. A call owns a
    connection before it installs it ([Installing], after its handshake;
    [Handshaking] before) and before it closes it; a borrower holds what
    [currentConn] gave it. *)
Inductive call : Type :=
| Handshaking (c : nat)
| Installing (c : nat)
| ClosingOld (c : nat)
| Borrowing (c : nat)
| Finished (err : option error).

Record client : Type := mkClient {
  dialled : nat;
  current : option nat;
  calls : list call;
  closed : list nat
}.

Definition client0 : client := mkClient 0 None [] [].

Definition set_call (s : client) (i : nat) (x : call) : client :=
  mkClient (dialled s) (current s) (<[i := x]> (calls s)) (closed s).

(** The dial of [Connect]. *)
(* go: internal/transport/tcp/client.go:68-86 (Connect) *)
Definition dialled_call (tls : bool) (s : client) : client :=
  let c := dialled s in
  mkClient (S c) (current s) (calls s ++ [if tls then Handshaking c else Installing c]) (closed s).

(** The swap under the lock; the previous connection is closed after it. *)
(* go: internal/transport/tcp/client.go:87-98 (Connect) *)
Definition install (i c : nat) (s : client) : client :=
  mkClient (dialled s) (Some c)
    (<[i := match current s with Some prev => ClosingOld prev | None => Finished None end]> (calls s)) (closed s).

Definition close_old (i c : nat) (err : option error) (s : client) : client :=
  mkClient (dialled s) (current s) (<[i := Finished err]> (calls s)) (closed s ++ [c]).

(* go: internal/transport/tcp/client.go:100-109 (currentConn) *)
Definition currentConn (s : client) : result error nat :=
  match current s with None => Err ErrClosed | Some c => Ok c end.

(** A call of [Send] or [Receive] up to its use of the connection. *)
(* go: internal/transport/tcp/client.go:118-139 (Send, Receive) *)
Definition borrow (s : client) : client :=
  mkClient (dialled s) (current s)
    (calls s ++ [match currentConn s with Ok c => Borrowing c | Err e => Finished (Some e) end]) (closed s).

(* go: internal/transport/tcp/client.go:148-157 (Close) *)
Definition Close (s : client) : client :=
  mkClient (dialled s) None
    (calls s ++ [match current s with Some c => ClosingOld c | None => Finished None end]) (closed s).

Inductive step (s : client) : client -> Prop :=
| k_dial tls : step s (dialled_call tls s)
| k_dial_failed e : step s (mkClient (dialled s) (current s) (calls s ++ [Finished (Some e)]) (closed s))
| k_handshake_ok i c : calls s !! i = Some (Handshaking c) -> step s (set_call s i (Installing c))
| k_handshake_failed i c e : calls s !! i = Some (Handshaking c) -> step s (close_old i c (Some e) s)
| k_install i c : calls s !! i = Some (Installing c) -> step s (install i c s)
| k_close_old i c err : calls s !! i = Some (ClosingOld c) -> step s (close_old i c err s)
| k_borrow : step s (borrow s)
| k_use i c err : calls s !! i = Some (Borrowing c) -> step s (set_call s i (Finished err))
| k_close : step s (Close s).

(** The connection a call owns. *)
Definition owns (x : call) : list nat :=
  match x with Handshaking c | Installing c | ClosingOld c => [c] | _ => [] end.

(** Every connection dialled is closed, or the current one, or some call's. *)
Definition accounted (s : client) : Prop :=
  closed s ++ option_list (current s) ++ (calls s ≫= owns) ≡ₚ seq 0 (dialled s).

Lemma owns_insert cs i x y : cs !! i = Some x -> exists rest,
  cs ≫= owns ≡ₚ owns x ++ rest /\ <[i := y]> cs ≫= owns ≡ₚ owns y ++ rest.
Proof. apply bind_insert. Qed.

Lemma owns_snoc cs x : (cs ++ [x]) ≫= owns = (cs ≫= owns) ++ owns x.
Proof. rewrite bind_app. csimpl. by rewrite app_nil_r. Qed.

Lemma idle_owns l : Forall (fun x => owns x = []) l -> l ≫= owns = [].
Proof. induction 1 as [|x l Hx _ IH]; [done|]. change (owns x ++ (l ≫= owns) = []). by rewrite Hx, IH. Qed.

Lemma accounted_step s s' : accounted s -> step s s' -> accounted s'.
Proof.
  unfold accounted. intros Ha Hs.
  destruct Hs as [tls|e|i c Hi|i c e Hi|i c Hi|i c err Hi| |i c err Hi|];
    cbn [dialled_call set_call install close_old borrow Close dialled current calls closed];
    rewrite ?owns_snoc.
  - rewrite seq_S, <- Ha. assert (owns (if tls then Handshaking (dialled s) else Installing (dialled s)) = [dialled s]) as ->
      by (by destruct tls). by rewrite !app_assoc.
  - cbn. by rewrite app_nil_r.
  - destruct (owns_insert _ i _ (Installing c) Hi) as (r & E1 & E2). rewrite <- Ha, E1, E2. done.
  - destruct (owns_insert _ i _ (Finished (Some e)) Hi) as (r & E1 & E2). rewrite <- Ha, E1, E2. cbn.
    rewrite <- app_assoc. apply Permutation_app_head. cbn. by rewrite Permutation_middle.
  - destruct (owns_insert _ i _ (match current s with Some prev => ClosingOld prev | None => Finished None end) Hi)
      as (r & E1 & E2). rewrite <- Ha, E1, E2. apply Permutation_app_head.
    destruct (current s) as [prev|]; cbn; [apply Permutation_swap|done].
  - destruct (owns_insert _ i _ (Finished err) Hi) as (r & E1 & E2). rewrite <- Ha, E1, E2. cbn.
    rewrite <- app_assoc. apply Permutation_app_head. cbn. by rewrite Permutation_middle.
  - unfold currentConn. by destruct (current s); cbn; rewrite app_nil_r.
  - destruct (owns_insert _ i _ (Finished err) Hi) as (r & E1 & E2). rewrite <- Ha, E1, E2. done.
  - rewrite <- Ha. apply Permutation_app_head. destruct (current s) as [c|]; cbn; [|by rewrite app_nil_r].
    by rewrite <- Permutation_cons_append.
Qed.

(** Whatever calls of a client run at once, every connection it dialled is
    closed at most once and is never lost: while not closed it is the client's
    current one or in the hands of one call that will install or close it; so
    when no call is under way, at most the current connection is open, and
    after a [Close] that nothing overtook, none is. *)
Theorem client_owns_connections s :
  star step client0 s ->
  NoDup (closed s) /\
  (forall c, (c < dialled s)%nat -> c ∉ closed s -> current s = Some c \/ exists i x, calls s !! i = Some x /\ c ∈ owns x) /\
  (forall c, current s = Some c -> c ∉ closed s) /\
  (Forall (fun x => owns x = []) (calls s) -> closed s ++ option_list (current s) ≡ₚ seq 0 (dialled s)).
Proof.
  intros Hs. assert (accounted s) as Ha by (eapply (star_invariant step accounted); [apply accounted_step|exact Hs|constructor]).
  unfold accounted in Ha. assert (NoDup (closed s ++ option_list (current s) ++ (calls s ≫= owns))) as Hnd
    by (rewrite Ha; apply NoDup_seq).
  split; [by apply NoDup_app in Hnd as [? _]|]. split; [|split].
  - intros c Hc Hn. assert (c ∈ seq 0 (dialled s)) as Hin by (apply elem_of_seq; lia). rewrite <- Ha in Hin.
    apply elem_of_app in Hin as [Hin|[Hin|Hin]%elem_of_app]; [done| |].
    + left. destruct (current s); [|by inversion Hin]. by apply list_elem_of_singleton in Hin as ->.
    + right. apply list_elem_of_bind in Hin as (x & Hx & Hin). apply list_elem_of_lookup in Hin as [i Hi]. eauto.
  - intros c Hc Hin. apply NoDup_app in Hnd as (_ & Hnd & _). apply (Hnd c Hin). rewrite Hc. set_solver.
  - intros Hall. rewrite (idle_owns _ Hall), app_nil_r in Ha. done.
Qed.

(** A sender that took the connection before a [Connect] replaced it finds it
    closed: the comment on the swap says it does not. *)
Definition replaced : client := mkClient 2 (Some 1%nat) [Finished None; Borrowing 0; Finished None] [0%nat].

Lemma replaced_reachable : star step client0 replaced.
Proof.
  eapply star_step; [apply (k_dial _ false)|].
  eapply star_step; [apply (k_install _ 0 0); reflexivity|].
  eapply star_step; [apply k_borrow|].
  eapply star_step; [apply (k_dial _ false)|].
  eapply star_step; [apply (k_install _ 2 1); reflexivity|].
  apply star_one.
  exact (k_close_old (install 2 1 (dialled_call false (borrow (install 0 0 (dialled_call false client0))))) 2 0 None eq_refl).
Qed.

Example borrowed_connection_closed : calls replaced !! 1%nat = Some (Borrowing 0) /\ 0%nat ∈ closed replaced.
Proof. split; [reflexivity|by left]. Qed.

Lemma client_owns_connections_witness : NoDup (closed replaced) /\ 1%nat ∉ closed replaced.
Proof.
  destruct (client_owns_connections replaced replaced_reachable) as (H1 & _ & H2 & _).
  split; [exact H1|apply H2; reflexivity].
Defined.
