(* ===== verification/CertWatch.v ===== *)
(** * CertWatch: [internal/infra/tlsutil], [loadServerTLSConfig]

    The certificate cache, the poll of modification times that reloads it, and
    what a handshake takes from it.  The disk is a value that changes between
    the polls; parsing a key pair and a CA file are parameters of the disk. *)
From S2P Require Import Prelude Bytes Core Config.
Local Open Scope Z_scope.
Local Open Scope list_scope.

Section certs.
(** Certificates and CA pools are values of [crypto/x509]. *)
Context {cert pool : Type}.

(** What the code asks of the disk at one moment: [tls.LoadX509KeyPair],
    [os.ReadFile], and [os.Stat]'s modification time. *)
Record disk : Type := mkDisk {
  LoadX509KeyPair : bytes -> bytes -> result error cert;
  ReadFile : bytes -> result error bytes;
  ModTime : bytes -> option Z
}.

(** [x509.NewCertPool] and [AppendCertsFromPEM]: none when the data holds no
    certificate. *)
Variable AppendCertsFromPEM : bytes -> option pool.

(** ** The cache *)

(* go: internal/infra/tlsutil/cert_cache.go:11-20 (CertCache) *)
Record CertCache : Type := mkCache {
  certFile : bytes;
  keyFile : bytes;
  clientCAFile : bytes;
  cache_cert : option cert;
  clientCAPool : option pool
}.

(* go: internal/infra/tlsutil/cert_cache.go:22-25 (NewCertCache) *)
Definition NewCertCache (cf kf : bytes) : CertCache := mkCache cf kf [] None None.

(* go: internal/infra/tlsutil/cert_cache.go:27-32 (SetClientCA) *)
Definition SetClientCA (caFile : bytes) (c : CertCache) : CertCache :=
  mkCache (certFile c) (keyFile c) caFile (cache_cert c) (clientCAPool c).

(** The reads of [Load], for the CA file it found in the cache: what will be
    committed, or the error. *)
(* go: internal/infra/tlsutil/cert_cache.go:42-59 (Load) *)
Definition load_read (d : disk) (caFile : bytes) (c : CertCache) : result error (cert * option pool) :=
  match LoadX509KeyPair d (certFile c) (keyFile c) with
  | Err e => Err (ErrWrap "load cert" e)
  | Ok crt =>
      if empty caFile then Ok (crt, None)
      else match ReadFile d caFile with
           | Err e => Err (ErrWrap "read client CA" e)
           | Ok data =>
               match AppendCertsFromPEM data with
               | None => Err (ErrMsg "parse client CA: no certificates found")
               | Some p => Ok (crt, Some p)
               end
           end
  end.

(** The commit, under the lock: the pool is replaced only when a CA file was
    read. *)
(* go: internal/infra/tlsutil/cert_cache.go:60-65 (Load) *)
Definition load_commit (new : cert * option pool) (c : CertCache) : CertCache :=
  mkCache (certFile c) (keyFile c) (clientCAFile c) (Some new.1)
    (match new.2 with Some p => Some p | None => clientCAPool c end).

(* go: internal/infra/tlsutil/cert_cache.go:34-67 (Load) *)
Definition Load (d : disk) (c : CertCache) : option error * CertCache :=
  match load_read d (clientCAFile c) c with
  | Err e => (Some e, c)
  | Ok new => (None, load_commit new c)
  end.

(* go: internal/infra/tlsutil/cert_cache.go:67-74 (GetCertificate) *)
Definition GetCertificate (c : CertCache) : result error cert :=
  match cache_cert c with None => Err (ErrMsg "certificate not loaded") | Some crt => Ok crt end.

(* go: internal/infra/tlsutil/cert_cache.go:77-81 (GetClientCAPool) *)
Definition GetClientCAPool (c : CertCache) : option pool := clientCAPool c.

(* go: internal/infra/tlsutil/cert_cache.go:86-92 (Files) *)
Definition Files (c : CertCache) : list bytes :=
  [certFile c; keyFile c] ++ (if empty (clientCAFile c) then [] else [clientCAFile c]).

(** ** The server's configuration *)

(** [tls_per_handshake]: the configuration has the hook that resolves the CA
    pool on every handshake. *)
Record TLSConfig : Type := mkTLS {
  tls_NextProtos : list bytes;
  tls_MinVersion : Z;
  tls_ClientAuth : ClientAuthType;
  tls_per_handshake : bool
}.

(* go: internal/app/config.go:376-411 (loadServerTLSConfig) *)
Definition loadServerTLSConfig (d : disk) (proto : ProtocolConfig) (nextProtos : list bytes) :
    result error (TLSConfig * CertCache) :=
  let cache := NewCertCache (TLSCertFile proto) (TLSKeyFile proto) in
  let cache := if empty (TLSClientCAFile proto) then cache else SetClientCA (TLSClientCAFile proto) cache in
  match Load d cache with
  | (Some e, _) => Err (ErrWrap "load tls certificate" e)
  | (None, cache) =>
      match (if empty (TLSClientAuth proto) then Ok NoClientCert else parseTLSClientAuth (TLSClientAuth proto)) with
      | Err e => Err e
      | Ok auth =>
          Ok (mkTLS nextProtos (parseTLSMinVersion (TLSMinVersion proto)) auth
                (if GetClientCAPool cache then true else false), cache)
      end
  end.

(** A handshake reads the cache twice: the hook takes the pool, then
    [GetCertificate] the certificate; a reload may commit in between. *)
(* go: internal/app/config.go:384-409 (loadServerTLSConfig) *)
Definition handshake (cfg : TLSConfig) (at_hook at_cert : CertCache) : result error cert * option pool :=
  (GetCertificate at_cert, if tls_per_handshake cfg then GetClientCAPool at_hook else None).

(** ** The watcher *)

(* go: internal/infra/tlsutil/watcher.go:22-32 (WatchFilesWithWG) *)
Record Watcher : Type := mkWatcher { files : list bytes; modTimes : gmap bytes Z }.

(* go: internal/infra/tlsutil/watcher.go:27-32 (WatchFilesWithWG) *)
Definition WatchFiles (d : disk) (fs : list bytes) : Watcher :=
  mkWatcher fs (fold_left (fun m f => match ModTime d f with Some t => <[f := t]> m | None => m end) fs ∅).

(** [poll interval]: the period of the ticker. *)
(* go: internal/infra/tlsutil/watcher.go:22-25 (WatchFilesWithWG) *)
Definition poll_interval (interval : Z) : Z := if interval <=? 0 then 30 * second else interval.

(** One tick: the first file whose time differs from the recorded one. *)
(* go: internal/infra/tlsutil/watcher.go:46-57 (WatchFilesWithWG) *)
Fixpoint scan (d : disk) (fs : list bytes) (m : gmap bytes Z) : option (gmap bytes Z) :=
  match fs with
  | [] => None
  | f :: fs' =>
      match ModTime d f with
      | None => scan d fs' m
      | Some t => if decide (m !! f = Some t) then scan d fs' m else Some (<[f := t]> m)
      end
  end.

(** A tick of a server's watcher: the change is recorded first, then [Load] runs,
    whatever it returns; the errors are the reloads made. *)
(* go: internal/app/app.go:275-288 (registerProtocols) *)
Definition tick (d : disk) (s : Watcher * CertCache) : list (option error) * (Watcher * CertCache) :=
  match scan d (files s.1) (modTimes s.1) with
  | None => ([], s)
  | Some m => let '(e, c) := Load d s.2 in ([e], (mkWatcher (files s.1) m, c))
  end.

Fixpoint ticks (ds : list disk) (s : Watcher * CertCache) : list (option error) * (Watcher * CertCache) :=
  match ds with
  | [] => ([], s)
  | d :: ds' => let '(l, s) := tick d s in let '(l', s) := ticks ds' s in (l ++ l', s)
  end.

(** ** Loading *)

(** What a successful load leaves in a cache: the pair of the disk, and the pool
    of the disk's CA file if one is configured. *)
Definition holds (d : disk) (c : CertCache) : Prop :=
  (exists crt, LoadX509KeyPair d (certFile c) (keyFile c) = Ok crt /\ cache_cert c = Some crt) /\
  (clientCAFile c <> [] -> exists data p, ReadFile d (clientCAFile c) = Ok data /\
     AppendCertsFromPEM data = Some p /\ clientCAPool c = Some p).

Definition same_paths (c c' : CertCache) : Prop :=
  certFile c' = certFile c /\ keyFile c' = keyFile c /\ clientCAFile c' = clientCAFile c.

Lemma empty_spec s : empty s = true <-> s = [].
Proof. unfold empty. apply bool_decide_eq_true. Qed.

Lemma Load_spec d c :
  match Load d c with
  | (Some _, c') => c' = c
  | (None, c') => same_paths c c' /\ holds d c' /\ (clientCAFile c = [] -> clientCAPool c' = clientCAPool c)
  end.
Proof.
  unfold Load, load_read. destruct (LoadX509KeyPair d _ _) as [crt|e] eqn:Ep; [|done].
  destruct (empty (clientCAFile c)) eqn:Ee.
  - apply empty_spec in Ee. split; [done|]. split; [|done]. split; [by exists crt|]. cbn. by rewrite Ee.
  - destruct (ReadFile d _) as [data|e] eqn:Er; [|done]. destruct (AppendCertsFromPEM data) as [p|] eqn:Ea; [|done].
    split; [done|]. split; [|intros Hn; by rewrite Hn in Ee]. split; [by exists crt|]. intros _. by exists data, p.
Qed.

Definition loadable (d : disk) (c : CertCache) : Prop := (Load d c).1 = None.

Lemma Load_paths d c : same_paths c (Load d c).2.
Proof.
  pose proof (Load_spec d c) as H. destruct (Load d c) as [[e|] c']; cbn.
  - by subst.
  - apply H.
Qed.

Lemma load_read_paths d c c' : same_paths c c' -> load_read d (clientCAFile c') c' = load_read d (clientCAFile c) c.
Proof. intros (E1 & E2 & E3). unfold load_read. by rewrite E1, E2, E3. Qed.

Lemma loadable_paths d c c' : same_paths c c' -> loadable d c -> loadable d c'.
Proof. intros E H. unfold loadable, Load in *. rewrite (load_read_paths d c c' E). by destruct (load_read _ _ _). Qed.

(** ** Watching *)

Definition outdated (d : disk) (m : gmap bytes Z) (f : bytes) : Prop :=
  match ModTime d f with Some t => m !! f <> Some t | None => False end.

#[local] Instance outdated_dec d m f : Decision (outdated d m f).
Proof. unfold outdated. destruct (ModTime d f); apply _. Defined.

(** The files of the list whose time is not the recorded one. *)
Definition stale (d : disk) (m : gmap bytes Z) (fs : list bytes) : list bytes := filter (outdated d m) fs.

Definition quiet (d : disk) (w : Watcher) : Prop := scan d (files w) (modTimes w) = None.

Lemma scan_spec d fs m :
  match scan d fs m with
  | None => stale d m fs = []
  | Some m' => exists f t rest, stale d m fs = f :: rest /\ f ∈ fs /\ ModTime d f = Some t /\ m' = <[f := t]> m
  end.
Proof.
  unfold stale. induction fs as [|f fs IH]; cbn [scan]; [done|].
  assert (~ outdated d m f -> match scan d fs m with
    | None => filter (outdated d m) (f :: fs) = []
    | Some m' => exists f0 t rest, filter (outdated d m) (f :: fs) = f0 :: rest /\ f0 ∈ f :: fs /\ ModTime d f0 = Some t /\ m' = <[f0 := t]> m
    end) as Hskip.
  { intros Hn. rewrite filter_cons_False by done. destruct (scan d fs m); [|done].
    destruct IH as (f0 & t & rest & ? & ? & ? & ?). exists f0, t, rest. split_and!; [done|by right|done|done]. }
  destruct (ModTime d f) as [t|] eqn:Et; [|apply Hskip; unfold outdated; rewrite Et; tauto].
  destruct (decide (m !! f = Some t)) as [Hm|Hm].
  - apply Hskip. unfold outdated. rewrite Et. tauto.
  - exists f, t, (filter (outdated d m) fs). rewrite filter_cons_True by (unfold outdated; by rewrite Et).
    split_and!; [done|by left|done|done].
Qed.

(** Recording a file's time leaves the other files as they were. *)
Lemma outdated_insert d m f t f' : ModTime d f = Some t -> outdated d (<[f := t]> m) f' <-> outdated d m f' /\ f' <> f.
Proof.
  intros Et. unfold outdated. destruct (decide (f' = f)) as [->|Hne].
  - rewrite Et, lookup_insert_eq. naive_solver.
  - rewrite lookup_insert_ne by done. destruct (ModTime d f'); tauto.
Qed.

Lemma stale_insert d m f t fs rest :
  ModTime d f = Some t -> stale d m fs = f :: rest -> (length (stale d (<[f := t]> m) fs) < length (stale d m fs))%nat.
Proof.
  intros Et Es. rewrite Es. cbn. apply Nat.lt_succ_r.
  assert (stale d (<[f := t]> m) fs = filter (fun f' => f' <> f) (stale d m fs)) as ->.
  { unfold stale. rewrite list_filter_filter. apply list_filter_iff. intros f'. rewrite (outdated_insert d m f t f' Et). tauto. }
  rewrite Es, filter_cons_False by tauto. apply length_filter.
Qed.

(** ** Runs of the watcher *)

Lemma tick_files d s : files (tick d s).2.1 = files s.1.
Proof. unfold tick. destruct (scan d _ _); [|done]. by destruct (Load d s.2). Qed.

Lemma tick_paths d s : same_paths s.2 (tick d s).2.2.
Proof.
  unfold tick. destruct (scan d _ _); [|by split_and!]. generalize (Load_paths d s.2). destruct (Load d s.2). exact id.
Qed.

Lemma same_paths_trans c1 c2 c3 : same_paths c1 c2 -> same_paths c2 c3 -> same_paths c1 c3.
Proof. unfold same_paths. intuition congruence. Qed.

Lemma ticks_cons d ds s :
  ticks (d :: ds) s = ((tick d s).1 ++ (ticks ds (tick d s).2).1, (ticks ds (tick d s).2).2).
Proof. cbn [ticks]. destruct (tick d s) as [l s']. cbn. by destruct (ticks ds s'). Qed.

(** A tick either finds nothing, or makes one reload and has fewer stale files. *)
Lemma tick_spec d s :
  (quiet d s.1 /\ tick d s = ([], s)) \/
  (~ quiet d s.1 /\ (tick d s).1 = [(Load d s.2).1] /\ (tick d s).2.2 = (Load d s.2).2 /\
   (length (stale d (modTimes (tick d s).2.1) (files s.1)) < length (stale d (modTimes s.1) (files s.1)))%nat).
Proof.
  unfold tick, quiet. pose proof (scan_spec d (files s.1) (modTimes s.1)) as H.
  destruct (scan d _ _) as [m|]; [right|by left]. split; [done|].
  destruct H as (f & t & rest & Es & _ & Et & ->). destruct (Load d s.2) as [e c]. cbn.
  split_and!; [done|done|]. by eapply stale_insert.
Qed.

Lemma quiet_stale d w : quiet d w <-> stale d (modTimes w) (files w) = [].
Proof.
  unfold quiet. pose proof (scan_spec d (files w) (modTimes w)) as H. destruct (scan d _ _); [|done].
  destruct H as (f & t & rest & -> & _). done.
Qed.

(** On a disk that no longer changes, as many ticks as there are stale files. *)
Lemma ticks_settle d n s :
  (length (stale d (modTimes s.1) (files s.1)) <= n)%nat ->
  quiet d (ticks (replicate n d) s).2.1 /\
  (length (ticks (replicate n d) s).1 <= length (stale d (modTimes s.1) (files s.1)))%nat.
Proof.
  revert s. induction n as [|n IH]; intros s Hn; cbn [replicate].
  - split; [|cbn; lia]. cbn. apply quiet_stale. destruct (stale _ _ _); [done|cbn in Hn; lia].
  - rewrite ticks_cons. cbn. destruct (tick_spec d s) as [[Hq E]|(_ & El & _ & Hlt)].
    + rewrite E. cbn. apply IH. apply quiet_stale in Hq. rewrite Hq. cbn. lia.
    + rewrite El. destruct (IH (tick d s).2) as [H1 H2]; rewrite tick_files in *; [lia|]. split; [done|]. cbn. lia.
Qed.

Lemma quiet_ticks d n s : quiet d s.1 -> ticks (replicate n d) s = ([], s).
Proof.
  intros Hq. induction n as [|n IH]; cbn [replicate]; [done|]. rewrite ticks_cons.
  destruct (tick_spec d s) as [[_ ->]|(Hn & _)]; [|done]. cbn. by rewrite IH.
Qed.

(** Once loaded from a disk, further ticks on it keep its contents. *)
Lemma holds_ticks d n s : loadable d s.2 -> holds d s.2 -> holds d (ticks (replicate n d) s).2.2.
Proof.
  revert s. induction n as [|n IH]; intros s Hl Hh; cbn [replicate]; [done|]. rewrite ticks_cons. cbn.
  apply IH; [by eapply loadable_paths, Hl; apply tick_paths|].
  destruct (tick_spec d s) as [[_ ->]|(_ & _ & -> & _)]; [done|].
  pose proof (Load_spec d s.2) as H. unfold loadable in Hl. destruct (Load d s.2) as [[e|] c]; [done|]. apply H.
Qed.

Lemma ticks_reloads_ok d n s : loadable d s.2 -> Forall (fun e => e = None) (ticks (replicate n d) s).1.
Proof.
  revert s. induction n as [|n IH]; intros s Hl; cbn [replicate]; [constructor|]. rewrite ticks_cons. cbn.
  apply Forall_app. split; [|apply IH; by eapply loadable_paths, Hl; apply tick_paths].
  destruct (tick_spec d s) as [[_ ->]|(_ & -> & _)]; [constructor|]. by repeat constructor.
Qed.

Lemma run_holds ds s d0 :
  holds d0 s.2 -> exists d, d ∈ d0 :: ds /\ holds d (ticks ds s).2.2.
Proof.
  revert s d0. induction ds as [|d ds IH]; intros s d0 Hh; [exists d0; split; [by left|done]|].
  rewrite ticks_cons. cbn [snd].
  assert (holds d0 (tick d s).2.2 \/ holds d (tick d s).2.2) as [H|H].
  { destruct (tick_spec d s) as [[_ ->]|(_ & _ & -> & _)]; [by left|].
    pose proof (Load_spec d s.2) as H. destruct (Load d s.2) as [[e|] c]; [left; by subst|right; apply H]. }
  - destruct (IH _ _ H) as (d' & Hin & H'). exists d'. split; [|done].
    apply elem_of_cons in Hin as [->|Hin]; [by left|by right; right].
  - destruct (IH _ _ H) as (d' & Hin & H'). exists d'. split; [by right|done].
Qed.

Lemma ticks_paths ds s : same_paths s.2 (ticks ds s).2.2.
Proof.
  revert s. induction ds as [|d ds IH]; intros s; [by split_and!|]. rewrite ticks_cons.
  eapply same_paths_trans; [apply (tick_paths d)|apply IH].
Qed.

(** Without a CA file no load sets a pool. *)
Lemma ticks_no_pool ds s : clientCAFile s.2 = [] -> clientCAPool s.2 = None -> clientCAPool (ticks ds s).2.2 = None.
Proof.
  revert s. induction ds as [|d ds IH]; intros s He Hp; [done|]. rewrite ticks_cons. cbn [snd].
  apply IH; [by rewrite (proj2 (proj2 (tick_paths d s)))|].
  destruct (tick_spec d s) as [[_ ->]|(_ & _ & -> & _)]; [done|].
  pose proof (Load_spec d s.2) as H. destruct (Load d s.2) as [[e|] c]; [by subst|].
  destruct H as (_ & _ & H). cbn. by rewrite H.
Qed.

Lemma loadServerTLSConfig_spec d proto np cfg c :
  loadServerTLSConfig d proto np = Ok (cfg, c) ->
  holds d c /\ certFile c = TLSCertFile proto /\ keyFile c = TLSKeyFile proto /\ clientCAFile c = TLSClientCAFile proto /\
  (clientCAFile c = [] -> clientCAPool c = None) /\
  tls_per_handshake cfg = negb (empty (clientCAFile c)).
Proof.
  unfold loadServerTLSConfig. set (c0 := if empty (TLSClientCAFile proto) then _ else _).
  assert (certFile c0 = TLSCertFile proto /\ keyFile c0 = TLSKeyFile proto /\ clientCAFile c0 = TLSClientCAFile proto /\
          clientCAPool c0 = None) as (E1 & E2 & E3 & E4).
  { unfold c0. destruct (empty _) eqn:Ee; [apply empty_spec in Ee|]; cbn; auto. }
  clearbody c0. pose proof (Load_spec d c0) as HL. destruct (Load d c0) as [[e|] c1]; [done|].
  destruct HL as ((P1 & P2 & P3) & Hh & Hp). destruct (if empty _ then _ else _) as [auth|e]; [|done].
  intros [= <- <-]. split_and!; [done|congruence|congruence|congruence| |].
  - intros He. rewrite Hp, E4; [done|congruence].
  - cbn. unfold GetClientCAPool. destruct (empty (clientCAFile c1)) eqn:Ee.
    + apply empty_spec in Ee. by rewrite Hp, E4 by congruence.
    + destruct Hh as [_ Hh]. destruct Hh as (data & p & _ & _ & ->); [|done]. intros Hn. by rewrite Hn in Ee.
Qed.

Lemma loadServerTLSConfig_auth d proto np cfg c :
  loadServerTLSConfig d proto np = Ok (cfg, c) -> parseTLSClientAuth (TLSClientAuth proto) = Ok (tls_ClientAuth cfg).
Proof.
  unfold loadServerTLSConfig. destruct (Load d _) as [[e|] c1]; [done|].
  destruct (empty (TLSClientAuth proto)) eqn:Ee; [apply empty_spec in Ee as ->; by intros [= <- _]|].
  destruct (parseTLSClientAuth _) as [auth|e]; [|done]. by intros [= <- _].
Qed.

(** Whatever happens to the files of a TLS server after it was set up, at
    every moment the certificate and the client CA pool it would use are those
    of one and the same moment: the setup or a poll. A rotation that cannot be
    loaded, or only in part, changes neither of them. *)
Theorem watch_serves_disk d0 dw ds proto np cfg c0 :
  loadServerTLSConfig d0 proto np = Ok (cfg, c0) ->
  let c := (ticks ds (WatchFiles dw (Files c0), c0)).2.2 in
  exists d crt, d ∈ d0 :: ds /\ LoadX509KeyPair d (TLSCertFile proto) (TLSKeyFile proto) = Ok crt /\
    ((TLSClientCAFile proto = [] /\ handshake cfg c c = (Ok crt, None)) \/
     (exists data p, ReadFile d (TLSClientCAFile proto) = Ok data /\ AppendCertsFromPEM data = Some p /\
        handshake cfg c c = (Ok crt, Some p))).
Proof.
  intros Hc. apply loadServerTLSConfig_spec in Hc as (Hh & E1 & E2 & E3 & Hp & Ht). cbn zeta.
  set (s := (WatchFiles dw (Files c0), c0)). destruct (run_holds ds s d0 Hh) as (d & Hd & H).
  destruct (ticks_paths ds s) as (P1 & P2 & P3). pose proof (ticks_no_pool ds s) as Hn. cbn in P1, P2, P3, Hn.
  destruct H as [(crt & Hcrt & Hcc) Hca]. exists d, crt.
  rewrite P1, P2, E1, E2 in Hcrt. split; [done|]. split; [done|]. rewrite P3, E3 in Hca.
  unfold handshake, GetCertificate, GetClientCAPool. rewrite Hcc, Ht, E3.
  destruct (empty (TLSClientCAFile proto)) eqn:Ee; cbn.
  - left. split; [by apply empty_spec|done].
  - right. destruct Hca as (data & p & Hr & Ha & ->); [intros Hx; by rewrite Hx in Ee|]. by exists data, p.
Qed.

(** A rotation reaches the server. Once the files stop changing and can be
    loaded, as many polls as there are files bring the watcher to rest, with at
    most one reload each, all successful; if any file's time had moved, the
    server then uses what is on the disk; and from then on nothing is reloaded. *)
Theorem rotation_converges d n s :
  loadable d s.2 -> (length (files s.1) <= n)%nat ->
  let r := ticks (replicate n d) s in
  quiet d r.2.1 /\ (length r.1 <= length (files s.1))%nat /\ Forall (fun e => e = None) r.1 /\
  (~ quiet d s.1 -> holds d r.2.2) /\ (forall k, ticks (replicate k d) r.2 = ([], r.2)).
Proof.
  intros Hl Hn. cbn zeta.
  assert (length (stale d (modTimes s.1) (files s.1)) <= length (files s.1))%nat as Hs by apply length_filter.
  destruct (ticks_settle d n s) as [Hq Hlen]; [lia|].
  split_and!; [done|lia|by apply ticks_reloads_ok| |intros k; by apply quiet_ticks].
  intros Hnq. destruct n as [|n].
  { destruct (files s.1) eqn:Ef; [|cbn in Hn; lia]. exfalso. apply Hnq, quiet_stale. by rewrite Ef. }
  cbn [replicate]. rewrite ticks_cons. cbn [snd]. apply holds_ticks; [by eapply loadable_paths, Hl; apply tick_paths|].
  destruct (tick_spec d s) as [[? _]|(_ & _ & -> & _)]; [done|].
  pose proof (Load_spec d s.2) as H. unfold loadable in Hl. destruct (Load d s.2) as [[e|] c]; [done|]. apply H.
Qed.

(** A watcher at rest stays so while no time moves, whatever else changes. *)
Lemma quiet_same_times d d' w :
  quiet d w -> (forall f, f ∈ files w -> ModTime d' f = ModTime d f) -> quiet d' w.
Proof.
  rewrite !quiet_stale. unfold stale. intros Hq Ht. rewrite <- Hq. apply list_filter_iff_elem.
  intros f Hf. unfold outdated. by rewrite Ht.
Qed.
End certs.

(** ** Concrete disks *)

Definition disk_at (crt : Z) (ca : bytes) (readable : bool) (t : Z) : disk (cert := Z) := {|
  LoadX509KeyPair := fun _ _ => Ok crt;
  ReadFile := fun _ => if readable then Ok ca else Err (ErrMsg "too many open files");
  ModTime := fun f => if decide (f = B "ca.pem") then Some t else Some 0
|}.

Definition ca_pool (data : bytes) : option Z := head data.

Definition mtls : ProtocolConfig :=
  mkProto (B "tcp") None (B ":1") [] [] 0 (B "c.pem") (B "k.pem") (B "ca.pem") [] [] None.

Definition mtls_setup : TLSConfig * CertCache :=
  match loadServerTLSConfig ca_pool (disk_at 1 [1] true 0) mtls [] with
  | Ok r => r
  | Err _ => (mkTLS [] 0 NoClientCert false, NewCertCache [] [])
  end.

Definition mtls_start := (WatchFiles (disk_at 1 [1] true 0) (Files mtls_setup.2), mtls_setup.2).

(** A handshake that took its CA pool just before a reload and its certificate
    just after it has the old pool and the new certificate. *)
Example handshake_mixes :
  handshake mtls_setup.1 mtls_setup.2 (Load ca_pool (disk_at 2 [2] true 1) mtls_setup.2).2 = (Ok 2, Some 1).
Proof. vm_compute. reflexivity. Qed.

(** A reload that failed is not tried again until a file's time moves: a file
    that could not be read for a moment leaves the old certificate for good. *)
Theorem failed_reload_not_retried n :
  let s := (tick ca_pool (disk_at 2 [2] false 1) mtls_start).2 in
  (tick ca_pool (disk_at 2 [2] false 1) mtls_start).1 = [Some (ErrWrap "read client CA" (ErrMsg "too many open files"))] /\
  loadable ca_pool (disk_at 2 [2] true 1) s.2 /\
  ticks ca_pool (replicate n (disk_at 2 [2] true 1)) s = ([], s) /\ GetCertificate s.2 = Ok 1.
Proof.
  cbn zeta. split; [vm_compute; reflexivity|]. split; [vm_compute; reflexivity|]. split; [|vm_compute; reflexivity].
  apply quiet_ticks. vm_compute. reflexivity.
Qed.

Lemma watch_serves_disk_witness :
  loadServerTLSConfig ca_pool (disk_at 1 [1] true 0) mtls [] = Ok mtls_setup /\
  exists d crt, d ∈ [disk_at 1 [1] true 0; disk_at 2 [2] true 1] /\ LoadX509KeyPair d (B "c.pem") (B "k.pem") = Ok crt.
Proof.
  assert (loadServerTLSConfig ca_pool (disk_at 1 [1] true 0) mtls [] = Ok mtls_setup) as E by (vm_compute; reflexivity).
  split; [exact E|].
  destruct (watch_serves_disk ca_pool (disk_at 1 [1] true 0) (disk_at 1 [1] true 0) [disk_at 2 [2] true 1] mtls [] mtls_setup.1 mtls_setup.2 E)
    as (d & crt & Hd & Hp & _).
  exists d, crt. split; [exact Hd|exact Hp].
Defined.

Lemma rotation_converges_witness :
  holds ca_pool (disk_at 2 [2] true 1) (ticks ca_pool (replicate 3 (disk_at 2 [2] true 1)) mtls_start).2.2.
Proof.
  refine (proj1 (proj2 (proj2 (proj2 (rotation_converges ca_pool (disk_at 2 [2] true 1) 3 mtls_start _ _)))) _).
  - vm_compute. reflexivity.
  - vm_compute. lia.
  - vm_compute. discriminate.
Defined.
