(* ===== verification/App.v ===== *)
(** * App: [internal/app/app.go]

    Putting a gateway together from a configuration: the servers registered for
    the enabled sections, their certificates and watchers, the health and
    metrics endpoints; then starting and stopping the whole. *)
From S2P Require Import Prelude Bytes Core Duration Config CertWatch.
From S2P Require Reload Gateway.
Local Open Scope Z_scope.
Local Open Scope list_scope.

(** What the application asks the constructors of the servers for. *)
Inductive ServerSpec : Type :=
| TCPSpec (addr : bytes) (tls : option TLSConfig)
| UDPSpec (addr : bytes) (dtls : option TLSConfig)
| HTTPSpec (addr : bytes) (cors : option (list bytes))
| WebSocketSpec (addr path : bytes) (origins : option (list bytes))
| CoAPSpec (addr : bytes) (dtls : option TLSConfig) (lwm2m : bool)
| GRPCWebSpec (addr : bytes) (maxMessage : option Z) (wsPath : option bytes) (origins : option (list bytes))
| QUICSpec (addr : bytes) (tls : TLSConfig).

(** The protocol each server reports. *)
Definition spec_protocol (s : ServerSpec) : Protocol :=
  match s with
  | TCPSpec _ _ => ProtocolTCP
  | UDPSpec _ _ => ProtocolUDP
  | HTTPSpec _ _ => ProtocolHTTP
  | WebSocketSpec _ _ _ => ProtocolWS
  | CoAPSpec _ _ _ => ProtocolCoAP
  | GRPCWebSpec _ _ _ _ => ProtocolGRPCWeb
  | QUICSpec _ _ => ProtocolQUIC
  end.

(** The servers' constructors: each gives a server of its protocol. *)
Class ServerFactory (W : Type) := {
  make_server : ServerSpec -> Gateway.Server W;
  make_protocol : forall s, Gateway.srv_Protocol (make_server s) = spec_protocol s
}.

(** A goroutine of an HTTP endpoint. *)
Inductive serving : Type := Starting | Serving | Gone.

#[export] Instance serving_eq_dec : EqDecision serving.
Proof. solve_decision. Defined.

(** An [http.Server]; [inShutdown] is set by [Shutdown] and never cleared. *)
Record Endpoint : Type := mkEndpoint {
  ep_name : string;
  ep_addr : bytes;
  inShutdown : bool;
  goroutines : list serving
}.

Section app.
Context {W cert pool : Type} (now : W -> Z) `{!ServerFactory W}.
Variable AppendCertsFromPEM : bytes -> option pool.

Abbreviation cache := (@CertCache cert pool).
Abbreviation Disk := (@disk cert).

(* go: internal/app/app.go:19-44 (App) *)
Record App : Type := mkApp {
  core : Reload.App;
  gateway : Gateway.Gateway W;
  watchers : list (Watcher * cache);
  watching : bool;
  app_Protocols : list bytes;
  endpoints : list Endpoint;
  serveErrors : list (string * error)
}.

(** ** Registering the servers *)

Definition some_unless_empty {A} (l : option (list A)) : option (list A) :=
  match l with Some (_ :: _) => l | _ => None end.

(** The TLS material of a section that may have it. *)
(* go: internal/app/app.go:194-200 (registerProtocols) *)
Definition optional_tls (d : Disk) (proto : ProtocolConfig) : result error (option TLSConfig * list cache) :=
  if negb (empty (TLSCertFile proto)) || negb (empty (TLSKeyFile proto)) then
    match loadServerTLSConfig AppendCertsFromPEM d proto [] with
    | Err e => Err e
    | Ok (cfg, c) => Ok (Some cfg, [c])
    end
  else Ok (None, []).

(** The server of a section, with the certificate cache it brings. *)
(* go: internal/app/app.go:189-267 (registerProtocols) *)
Definition server_for (d : Disk) (proto : ProtocolConfig) : result error (ServerSpec * list cache) :=
  let name := norm_name (Name proto) in
  if bool_decide (name = B "tcp") then
    match optional_tls d proto with Err e => Err e | Ok (t, c) => Ok (TCPSpec (Addr proto) t, c) end
  else if bool_decide (name = B "udp") then
    match optional_tls d proto with Err e => Err e | Ok (t, c) => Ok (UDPSpec (Addr proto) t, c) end
  else if bool_decide (name = B "http") then
    Ok (HTTPSpec (Addr proto) (some_unless_empty (AllowedOrigins proto)), [])
  else if bool_decide (name = B "websocket") then
    Ok (WebSocketSpec (Addr proto) (if empty (Path proto) then B "/ws" else Path proto)
          (some_unless_empty (AllowedOrigins proto)), [])
  else if bool_decide (name = B "coap") then
    match optional_tls d proto with
    | Err e => Err e
    | Ok (t, c) => Ok (CoAPSpec (Addr proto) t (EqualFold (Mode proto) (B "lwm2m")), c)
    end
  else if bool_decide (name = B "grpc-web") then
    Ok (GRPCWebSpec (Addr proto) (if 0 <? MaxMessageBytes proto then Some (MaxMessageBytes proto) else None)
          (if empty (Path proto) then None else Some (Path proto)) (some_unless_empty (AllowedOrigins proto)), [])
  else if bool_decide (name = B "quic") then
    match loadServerTLSConfig AppendCertsFromPEM d proto [B "shark-socket-quic"] with
    | Err e => Err e
    | Ok (t, c) => Ok (QUICSpec (Addr proto) t, [c])
    end
  else Err (ErrMsg "unsupported protocol").

Record registration : Type := mkRegs {
  r_gateway : Gateway.Gateway W;
  r_caches : list cache;
  r_names : list bytes
}.

(* go: internal/app/app.go:185-272 (registerProtocols) *)
Fixpoint register_loop (d : Disk) (l : list ProtocolConfig) (r : registration) : result error registration :=
  match l with
  | [] => Ok r
  | proto :: l' =>
      if negb (IsEnabled proto) then register_loop d l' r
      else match server_for d proto with
           | Err e => Err e
           | Ok (spec, cs) =>
               match Gateway.Register (Some (make_server spec)) (r_gateway r) with
               | (Some e, _) => Err e
               | (None, g) => register_loop d l' (mkRegs g (r_caches r ++ cs) (r_names r ++ [norm_name (Name proto)]))
               end
           end
  end.

(** The caches are then watched, from the disk of that moment. *)
(* go: internal/app/app.go:183-291 (registerProtocols) *)
Definition registerProtocols (d dw : Disk) (l : list ProtocolConfig) (g : Gateway.Gateway W) :
    result error (registration * list (Watcher * cache)) :=
  match register_loop d l (mkRegs g [] []) with
  | Err e => Err e
  | Ok r => Ok (r, map (fun c => (WatchFiles dw (Files c), c)) (r_caches r))
  end.

Definition endpoint (name : string) (addr : bytes) : list Endpoint :=
  if empty addr then [] else [mkEndpoint name addr false []].

(* go: internal/app/app.go:46-110 (New) *)
Definition New (d dw : Disk) (cfg : Config) (g : Gateway.Gateway W) : result error App :=
  match Reload.New cfg with
  | Err e => Err e
  | Ok base =>
      match registerProtocols d dw (Protocols cfg) g with
      | Err e => Err e
      | Ok (r, ws) =>
          Ok (mkApp base (r_gateway r) ws true (r_names r)
                (endpoint "health" (HealthAddr cfg) ++ endpoint "metrics" (MetricsAddr cfg)) [])
      end
  end.

(** ** Start and stop *)

Definition set_endpoints (a : App) (l : list Endpoint) : App :=
  mkApp (core a) (gateway a) (watchers a) (watching a) (app_Protocols a) l (serveErrors a).

(** [go a.serveHTTP(...)]. *)
Definition spawn (e : Endpoint) : Endpoint :=
  mkEndpoint (ep_name e) (ep_addr e) (inShutdown e) (goroutines e ++ [Starting]).

(* go: internal/app/app.go:112-126 (Start) *)
Definition Start (ctx : Gateway.Ctx) (a : App) (w : W) : option error * App * W :=
  let '(err, g, w) := Gateway.Start now ctx (gateway a) w in
  (err, mkApp (core a) g (watchers a) (watching a) (app_Protocols a) (map spawn (endpoints a)) [], w).

(** [http.Server.Shutdown]: no new connections; its error. *)
Variable shutdown : string -> Gateway.Ctx -> W -> option error * W.

Fixpoint shutdown_all (ctx : Gateway.Ctx) (l : list Endpoint) (firstErr : option error) (w : W) :
    option error * list Endpoint * W :=
  match l with
  | [] => (firstErr, [], w)
  | e :: l' =>
      let '(err, w) := shutdown (ep_name e) ctx w in
      let '(firstErr, l', w) := shutdown_all ctx l' (keep_first firstErr err) w in
      (firstErr, mkEndpoint (ep_name e) (ep_addr e) true (goroutines e) :: l', w)
  end.

(** [Stop] up to its last wait, for the goroutines of the endpoints. *)
(* go: internal/app/app.go:136-165 (Stop) *)
Definition Stop (ctx : Gateway.Ctx) (a : App) (w : W) : option error * App * W :=
  let '(err, g, w) := Gateway.Stop now ctx (gateway a) w in
  let '(firstErr, eps, w) := shutdown_all ctx (endpoints a) err w in
  (firstErr, mkApp (core a) g (watchers a) false (app_Protocols a) eps (serveErrors a), w).

(** [a.serveWG.Wait()] returns. *)
Definition all_gone (a : App) : Prop := Forall (fun e => Forall (fun p => p = Gone) (goroutines e)) (endpoints a).

(** The steps of [serveHTTP]: [ListenAndServe] refuses at once on a server that
    was shut down, fails to bind, or serves until the shutdown or an accept
    error; only the failures are recorded. *)
(* go: internal/app/app.go:340-348 (serveHTTP) *)
Inductive serve_step (a : App) : App -> Prop :=
| s_refused i e j : endpoints a !! i = Some e -> goroutines e !! j = Some Starting -> inShutdown e = true ->
    serve_step a (set_endpoints a (<[i := mkEndpoint (ep_name e) (ep_addr e) true (<[j := Gone]> (goroutines e))]> (endpoints a)))
| s_bound i e j : endpoints a !! i = Some e -> goroutines e !! j = Some Starting -> inShutdown e = false ->
    serve_step a (set_endpoints a (<[i := mkEndpoint (ep_name e) (ep_addr e) false (<[j := Serving]> (goroutines e))]> (endpoints a)))
| s_closed i e j : endpoints a !! i = Some e -> goroutines e !! j = Some Serving -> inShutdown e = true ->
    serve_step a (set_endpoints a (<[i := mkEndpoint (ep_name e) (ep_addr e) true (<[j := Gone]> (goroutines e))]> (endpoints a)))
| s_failed i e j p err : endpoints a !! i = Some e -> goroutines e !! j = Some p -> p <> Gone -> inShutdown e = false ->
    serve_step a
      (let b := set_endpoints a (<[i := mkEndpoint (ep_name e) (ep_addr e) false (<[j := Gone]> (goroutines e))]> (endpoints a)) in
       mkApp (core b) (gateway b) (watchers b) (watching b) (app_Protocols b) (endpoints b) (serveErrors a ++ [(ep_name e, err)])).

(** A text with its newline. *)
Definition ln (s : string) : string := String.append s (String (Ascii.ascii_of_nat 10) EmptyString).

(** The status and body of the two health endpoints. *)
(* go: internal/app/app.go:319-334 (healthHandler) *)
Definition healthHandler (path : string) (a : App) : Z * string :=
  if String.eqb path "/healthz" then (200, ln "ok")
  else if String.eqb path "/readyz" then
    if Gateway.Ready (gateway a) then (200, ln "ready") else (503, ln "not ready")
  else (404, ln "404 page not found").

(** ** What is registered *)

Definition has_tls (p : ProtocolConfig) : bool := negb (empty (TLSCertFile p)) || negb (empty (TLSKeyFile p)).

(** The server asked for has the protocol the section names. *)
Lemma server_for_protocol d p spec cs :
  server_for d p = Ok (spec, cs) -> bytes_of_string (spec_protocol spec) = norm_name (Name p).
Proof.
  unfold server_for. cbv zeta. repeat case_bool_decide.
  all: try (destruct (optional_tls d p) as [[]|]); try (destruct (loadServerTLSConfig AppendCertsFromPEM d p _) as [[]|]).
  all: intros Hx; try discriminate Hx; injection Hx as <- Hc.
  all: match goal with H : norm_name _ = _ |- _ => by rewrite H end.
Qed.

Lemma optional_tls_fails d p e :
  optional_tls d p = Err e -> exists np, loadServerTLSConfig AppendCertsFromPEM d p np = Err e.
Proof.
  unfold optional_tls. destruct (_ || _); [|done].
  destruct (loadServerTLSConfig AppendCertsFromPEM d p []) as [[]|e'] eqn:E; [done|]. intros [= ->]. by exists [].
Qed.

(** For a section that validation accepts only loading its certificate fails. *)
Lemma server_for_fails d p e :
  protocol_ok p -> server_for d p = Err e -> exists np, loadServerTLSConfig AppendCertsFromPEM d p np = Err e.
Proof.
  intros Hok. pose proof (po_name p Hok) as Hn. pose proof (optional_tls_fails d p) as Ho. revert Hn.
  unfold server_for, one_of, protocol_names. cbv zeta. cbn [existsb].
  destruct (optional_tls d p) as [[]|e']; repeat case_bool_decide; try done; intros _;
    try (intros [= ->]; by apply Ho).
  all: destruct (loadServerTLSConfig AppendCertsFromPEM d p _) as [[]|e''] eqn:E; [done|]; intros [= ->]; by eexists.
Qed.

Lemma optional_tls_caches d p t c :
  optional_tls d p = Ok (t, c) -> length c = if has_tls p then 1%nat else 0%nat.
Proof.
  unfold optional_tls, has_tls. destruct (_ || _); [|by intros [= _ <-]].
  destruct (loadServerTLSConfig AppendCertsFromPEM d p []) as [[]|]; [|done]. by intros [= _ <-].
Qed.

Lemma no_tls p : protocol_ok p -> one_of (norm_name (Name p)) tls_names = false -> has_tls p = false.
Proof.
  intros Hok Hf. pose proof (po_tls p Hok) as Ht. pose proof (po_pair p Hok) as Hp. unfold has_tls, empty.
  destruct (decide (TLSCertFile p = [])) as [E|E]; [|rewrite Ht in Hf by auto; done].
  rewrite (bool_decide_eq_true_2 _ E), bool_decide_eq_true_2 by (by apply Hp). done.
Qed.

(** The certificate caches a section brings: one, if it has TLS files. *)
Lemma server_for_caches d p spec cs :
  protocol_ok p -> server_for d p = Ok (spec, cs) -> length cs = if has_tls p then 1%nat else 0%nat.
Proof.
  intros Hok. pose proof (no_tls p Hok) as Hno.
  assert (norm_name (Name p) = B "quic" -> has_tls p = true) as Hq.
  { intros E. apply (po_quic p Hok), empty_false in E. unfold has_tls. by rewrite E. }
  unfold server_for. cbv zeta.
  destruct (optional_tls d p) as [[t c]|] eqn:Eo; [apply optional_tls_caches in Eo; revert Eo|];
    repeat case_bool_decide; try done.
  all: try (destruct (loadServerTLSConfig AppendCertsFromPEM d p _) as [[]|]; try done).
  all: intros; simplify_eq; try done.
  all: try (rewrite Hq; done).
  all: rewrite Hno; [done|]; match goal with H : norm_name _ = _ |- _ => rewrite H end; reflexivity.
Qed.

Lemma snapshot_register srv (g : Gateway.Gateway W) :
  Gateway.gateway_ok g -> Gateway.started g = false -> Gateway.srv_Protocol srv ∉ Gateway.order g ->
  exists g', Gateway.Register (Some srv) g = (None, g') /\ Gateway.gateway_ok g' /\ Gateway.started g' = false /\
    Gateway.order g' = Gateway.order g ++ [Gateway.srv_Protocol srv] /\
    Gateway.snapshot g' = Gateway.snapshot g ++ [srv].
Proof.
  intros Hok Hs Hn. pose proof (Gateway.Register_ok (Some srv) g Hok) as Hok'. revert Hok'.
  destruct Hok as (_ & Hdom & _). cbn. rewrite Hs.
  destruct (Gateway.servers g !! Gateway.srv_Protocol srv) eqn:E; [by destruct Hn; apply Hdom; rewrite E|].
  cbn. intros Hok'. eexists. split; [done|]. cbn. split_and!; [done|done|done|].
  unfold Gateway.snapshot. cbn. rewrite omap_app. f_equal; [|csimpl; by rewrite lookup_insert_eq].
  assert (Forall (fun p => p <> Gateway.srv_Protocol srv) (Gateway.order g)) as HF
    by (apply Forall_forall; intros p Hp ->; done).
  clear -HF. induction HF as [|p l Hp _ IH]; [done|]. csimpl. rewrite lookup_insert_ne by done. by rewrite IH.
Qed.

(** What a registration of the sections [l] adds to [r]. *)
Definition registered (d : Disk) (l : list ProtocolConfig) (r r' : registration) : Prop :=
  r_names r' = r_names r ++ enabled_names l /\
  length (r_caches r') = (length (r_caches r) + length (List.filter has_tls (List.filter IsEnabled l)))%nat /\
  exists specs, Forall2 (fun p s => exists cs, server_for d p = Ok (s, cs)) (List.filter IsEnabled l) specs /\
    Gateway.snapshot (r_gateway r') = Gateway.snapshot (r_gateway r) ++ map make_server specs /\
    Gateway.order (r_gateway r') = Gateway.order (r_gateway r) ++ map spec_protocol specs.

Lemma register_loop_spec d l r :
  Forall (fun p => IsEnabled p = true -> protocol_ok p) l -> NoDup (enabled_names l) ->
  Gateway.gateway_ok (r_gateway r) -> Gateway.started (r_gateway r) = false ->
  (forall q, q ∈ Gateway.order (r_gateway r) -> bytes_of_string q ∉ enabled_names l) ->
  match register_loop d l r with
  | Err e => exists p np, p ∈ l /\ IsEnabled p = true /\ loadServerTLSConfig AppendCertsFromPEM d p np = Err e
  | Ok r' => registered d l r r' /\ Gateway.gateway_ok (r_gateway r') /\ Gateway.started (r_gateway r') = false
  end.
Proof.
  unfold enabled_names. revert r. induction l as [|p l IH]; intros r Hf Hnd Hok Hs Hd; cbn [register_loop List.filter].
  { split; [|done]. split; [by rewrite app_nil_r|]. split; [cbn; lia|]. exists []. cbn. by rewrite !app_nil_r. }
  apply Forall_cons in Hf as [Hp Hf]. destruct (IsEnabled p) eqn:Ep; cbn [negb].
  2: { cbn [List.filter] in Hnd, Hd. rewrite Ep in Hnd, Hd. specialize (IH r Hf Hnd Hok Hs Hd).
       destruct (register_loop d l r) as [r'|e].
       - unfold registered, enabled_names in *. cbn [List.filter]. by rewrite Ep.
       - destruct IH as (q & np & Hq & ?). exists q, np. split; [by right|done]. }
  specialize (Hp eq_refl). cbn [List.filter] in Hnd, Hd. rewrite Ep in Hnd, Hd. cbn [map] in Hnd, Hd.
  apply NoDup_cons in Hnd as [Hni Hnd].
  destruct (server_for d p) as [[spec cs]|e] eqn:Esv.
  2: { destruct (server_for_fails d p e Hp Esv) as [np Hnp]. exists p, np. split; [by left|done]. }
  pose proof (server_for_protocol d p spec cs Esv) as Hsp. pose proof (make_protocol spec) as Hmk.
  destruct (snapshot_register (make_server spec) (r_gateway r) Hok Hs) as (g' & -> & Hok' & Hs' & Ho & Hsn).
  { rewrite Hmk. intros Hin. apply (Hd _ Hin). rewrite Hsp. by left. }
  specialize (IH (mkRegs g' (r_caches r ++ cs) (r_names r ++ [norm_name (Name p)])) Hf Hnd Hok' Hs').
  cbn [r_gateway] in IH. rewrite Ho, Hmk in IH. ospecialize (IH _).
  { intros q [Hq| ->%list_elem_of_singleton]%elem_of_app; [|by rewrite Hsp].
    intros Hin. apply (Hd _ Hq). by right. }
  destruct (register_loop d l _) as [r'|e].
  2: { destruct IH as (q & np & Hq & ?). exists q, np. split; [by right|done]. }
  destruct IH as [(H1 & H2 & specs & H3 & H4 & H5) Hrest]. split; [|done].
  unfold registered, enabled_names in *. cbn [List.filter r_names r_caches r_gateway] in *. rewrite Ep. cbn [map List.filter].
  rewrite H1, H2, H4, H5, Ho, Hsn, Hmk, length_app, (server_for_caches d p spec cs Hp Esv).
  split_and!; [by rewrite <- app_assoc|destruct (has_tls p); cbn; lia|].
  exists (spec :: specs). cbn [map]. rewrite <- !app_assoc. split; [|done]. constructor; [by exists cs|done].
Qed.

Lemma Reload_New_ok cfg : config_ok cfg -> exists b, Reload.New cfg = Ok b /\ Reload.app_Config b = cfg.
Proof.
  intros Hok. unfold Reload.New. assert (Validate cfg = None) as -> by (by apply Validate_spec).
  pose proof (co_level cfg Hok) as Hl. destruct (ParseLevel (LogLevel cfg)); [|done].
  pose proof (co_rate cfg Hok) as Hr. destruct (RateLimit cfg) as [rl|]; [|by eexists].
  destruct (Hr rl eq_refl) as (_ & w & -> & _). by eexists.
Qed.

(** ** The endpoints' goroutines *)

Definition weight (p : serving) : nat := match p with Starting => 2 | Serving => 1 | Gone => 0 end.
Definition ep_weight (e : Endpoint) : nat := list_sum (map weight (goroutines e)).
Definition app_weight (a : App) : nat := list_sum (map ep_weight (endpoints a)).

Lemma ep_weight_insert e b j p q :
  goroutines e !! j = Some p -> (weight q < weight p)%nat ->
  (ep_weight (mkEndpoint (ep_name e) (ep_addr e) b (<[j := q]> (goroutines e))) < ep_weight e)%nat.
Proof. intros Hj Hw. unfold ep_weight. cbn [goroutines]. pose proof (sum_insert weight _ _ _ q Hj). lia. Qed.

Lemma weight_insert (l : list Endpoint) i e e' :
  l !! i = Some e -> (ep_weight e' < ep_weight e)%nat ->
  (list_sum (map ep_weight (<[i := e']> l)) < list_sum (map ep_weight l))%nat.
Proof. intros Hi Hw. pose proof (sum_insert ep_weight _ _ _ e' Hi). lia. Qed.

Lemma serve_step_weight a a' : serve_step a a' -> (app_weight a' < app_weight a)%nat.
Proof.
  intros [i e j Hi Hj _|i e j Hi Hj _|i e j Hi Hj _|i e j p err Hi Hj Hp _]; unfold app_weight; cbn;
    (eapply weight_insert; [done|]; eapply ep_weight_insert; [done|]; cbn; try lia). destruct p; cbn; [lia|lia|done].
Qed.

Lemma serve_step_wf : well_founded (fun a' a => serve_step a a').
Proof.
  apply (Wf_nat.well_founded_lt_compat _ app_weight). intros a' a. apply serve_step_weight.
Qed.

Definition all_shut (a : App) : Prop := Forall (fun e => inShutdown e = true) (endpoints a).

(** After the shutdown of the endpoints: no bind, no new error. *)
Lemma serve_step_shut a a' :
  serve_step a a' -> all_shut a -> all_shut a' /\ serveErrors a' = serveErrors a /\ watching a' = watching a.
Proof.
  unfold all_shut. intros Hs Ha.
  assert (forall i e, endpoints a !! i = Some e -> inShutdown e = true) as He by (intros i e Hi; by eapply Forall_lookup_1 in Ha).
  destruct Hs as [i e j Hi Hj Hb|i e j Hi Hj Hb|i e j Hi Hj Hb|i e j p err Hi Hj Hp Hb];
    try (rewrite (He i e Hi) in Hb; done); cbn; (split; [by apply Forall_insert|done]).
Qed.

Lemma serve_steps_shut a a' :
  star serve_step a a' -> all_shut a -> all_shut a' /\ serveErrors a' = serveErrors a /\ watching a' = watching a.
Proof.
  induction 1 as [|a1 a2 a3 H1 _ IH]; [done|]. intros Ha. apply serve_step_shut in H1 as (H1 & E1 & E2); [|done].
  apply IH in H1 as (? & ? & ?). split_and!; [done|congruence|congruence].
Qed.

Lemma shut_progress a : all_shut a -> (forall a', ~ serve_step a a') -> all_gone a.
Proof.
  intros Ha Hno. apply Forall_lookup. intros i e Hi. apply Forall_lookup. intros j p Hj.
  assert (inShutdown e = true) as Hs by (by eapply Forall_lookup_1 in Ha). destruct p; [| |done]; exfalso.
  - eapply Hno. by eapply s_refused.
  - eapply Hno. by eapply s_closed.
Qed.

Lemma shutdown_all_shut ctx l fe w fe' l' w' :
  shutdown_all ctx l fe w = (fe', l', w') ->
  Forall (fun e => inShutdown e = true) l' /\ map goroutines l' = map goroutines l /\ map ep_name l' = map ep_name l.
Proof.
  revert fe w fe' l' w'. induction l as [|e l IH]; intros fe w fe' l' w'; cbn [shutdown_all]; [by intros [= _ <- _]|].
  destruct (shutdown (ep_name e) ctx w) as [err w1]. destruct (shutdown_all ctx l _ w1) as [[fe2 l2] w2] eqn:E.
  intros [= _ <- _]. apply IH in E as (H1 & H2 & H3). cbn. rewrite H2, H3. split; [by constructor|done].
Qed.

Lemma Stop_shut ctx a w :
  all_shut (Stop ctx a w).1.2 /\ serveErrors (Stop ctx a w).1.2 = serveErrors a /\ watching (Stop ctx a w).1.2 = false.
Proof.
  unfold Stop. destruct (Gateway.Stop now ctx (gateway a) w) as [[e g] w1].
  destruct (shutdown_all ctx (endpoints a) e w1) as [[fe l] w2] eqn:E. apply shutdown_all_shut in E as (H & _). done.
Qed.

(** ** Theorems *)

(** C37: Putting an application together from a valid configuration either fails
    with the error of loading the certificate of one of its enabled sections, or
    registers exactly the servers of the enabled sections, in order and each
    under the protocol its section names, and watches one certificate cache for
    each section that has TLS; no other error of the registration can be met. *)
Theorem app_new_exact d dw cfg g :
  Validate cfg = None -> Gateway.gateway_ok g -> Gateway.started g = false -> Gateway.order g = [] ->
  match New d dw cfg g with
  | Err e => exists p np, p ∈ Protocols cfg /\ IsEnabled p = true /\ loadServerTLSConfig AppendCertsFromPEM d p np = Err e
  | Ok a =>
      app_Protocols a = enabled_names (Protocols cfg) /\
      map bytes_of_string (Gateway.Protocols (gateway a)) = app_Protocols a /\
      Forall2 (fun p srv => exists spec cs, server_for d p = Ok (spec, cs) /\ srv = make_server spec)
        (List.filter IsEnabled (Protocols cfg)) (Gateway.snapshot (gateway a)) /\
      length (watchers a) = length (List.filter has_tls (List.filter IsEnabled (Protocols cfg))) /\
      Forall (fun s => files s.1 = Files s.2) (watchers a) /\
      Reload.app_Config (core a) = cfg /\ healthHandler "/readyz" a = (503, ln "not ready")
  end.
Proof.
  intros HV%Validate_spec Hg Hs Ho. unfold New, registerProtocols. destruct (Reload_New_ok cfg HV) as (b & -> & Hb).
  destruct (co_names cfg HV) as [Hnd _].
  pose proof (register_loop_spec d (Protocols cfg) (mkRegs g [] []) (co_protocols cfg HV) Hnd Hg Hs) as HR.
  cbn [r_gateway] in HR. rewrite Ho in HR. ospecialize (HR _); [intros q Hq; by inversion Hq|].
  destruct (register_loop d _ _) as [r|e]; [|done].
  destruct HR as [(H1 & H2 & specs & H3 & H4 & H5) [_ Hst]]. cbn [r_gateway r_caches r_names length] in *.
  assert (Gateway.snapshot g = []) as Hsn by (unfold Gateway.snapshot; by rewrite Ho).
  rewrite Hsn in H4. rewrite Ho in H5. cbn in H1, H4, H5. cbn [app_Protocols gateway watchers core].
  split_and!; [done| | | | |done|unfold healthHandler, Gateway.Ready; cbn; by rewrite Hst].
  - rewrite H1. unfold Gateway.Protocols, enabled_names. rewrite H5. clear -H3.
    induction H3 as [|p s l ls (cs & E) _ IH]; [done|]. cbn. by rewrite IH, (server_for_protocol d p s cs E).
  - rewrite H4. clear -H3. induction H3 as [|p s l ls (cs & E) _ IH]; cbn; [constructor|]. constructor; eauto.
  - by rewrite length_map.
  - apply Forall_map, Forall_true. done.
Qed.

(** [Stop] ends: once it has shut the endpoints down, the goroutines that
    serve them make finitely many steps whatever they were doing, can only come
    to rest by returning, so its last wait is over, and record no error. *)
Theorem app_stop_returns ctx a w :
  let b := (Stop ctx a w).1.2 in
  Acc (fun y x => serve_step x y) b /\
  (forall b', star serve_step b b' -> (forall b'', ~ serve_step b' b'') -> all_gone b') /\
  (forall b', star serve_step b b' -> serveErrors b' = serveErrors a).
Proof.
  cbn zeta. destruct (Stop_shut ctx a w) as (Hs & He & _). split; [apply serve_step_wf|]. split.
  - intros b' Hb Hno. apply serve_steps_shut in Hb as (Hb & _); [|done]. by apply shut_progress.
  - intros b' Hb. apply serve_steps_shut in Hb as (_ & -> & _); [done|done].
Qed.

(** An application that was stopped cannot be started again whole: the
    gateway serves, but no goroutine ever serves the health or metrics endpoint
    again, [ServeErrors] stays empty, and certificates are no longer watched. *)
Theorem restart_serves_no_endpoint ctx ctx' a w w' a1 :
  star serve_step (Stop ctx a w).1.2 a1 -> all_gone a1 ->
  let b := (Start ctx' a1 w').1.2 in
  watching b = false /\
  forall b', star serve_step b b' -> serveErrors b' = [] /\ Forall (fun e => Serving ∉ goroutines e) (endpoints b').
Proof.
  intros H1 Hg. cbn zeta. destruct (Stop_shut ctx a w) as (Hs & _ & Hw). apply serve_steps_shut in H1 as (Hs1 & _ & Hw1); [|done].
  unfold Start. destruct (Gateway.Start now ctx' (gateway a1) w') as [[err g] w2]. cbn. split; [congruence|].
  set (b := mkApp _ _ _ _ _ _ _).
  assert (all_shut b) as Hb by (apply Forall_map; eapply Forall_impl; [exact Hs1|done]).
  assert (Forall (fun e => Serving ∉ goroutines e) (endpoints b)) as Hn.
  { apply Forall_map. eapply Forall_impl; [exact Hg|]. cbn. intros e He. rewrite not_elem_of_app. split; [|set_solver].
    intros Hin. eapply Forall_forall in He; [|exact Hin]. done. }
  intros b' Hst. destruct (serve_steps_shut b b' Hst Hb) as (_ & He & _). split; [by rewrite He|].
  clearbody b. clear He. induction Hst as [|b1 b2 b3 Hstep _ IH]; [done|].
  destruct (serve_step_shut _ _ Hstep Hb) as (Hb2 & _). apply IH; [done|]. clear IH Hb2.
  destruct Hstep as [i e j Hi Hj _|i e j Hi Hj Hf|i e j Hi Hj _|i e j p er Hi Hj Hp _]; cbn.
  2: { eapply Forall_lookup_1 in Hb; [|exact Hi]. congruence. }
  all: apply Forall_insert; [done|]; cbn; intros [k Hk]%list_elem_of_lookup_1; eapply Forall_lookup_1 in Hn; [|exact Hi];
    apply Hn; destruct (decide (k = j)) as [->|]; [rewrite list_lookup_insert_eq in Hk; [done|by eapply lookup_lt_Some]|];
    rewrite list_lookup_insert_ne in Hk by done; by eapply list_elem_of_lookup_2.
Qed.
End app.

(** ** A concrete application *)

Definition demo_server (s : ServerSpec) : Gateway.Server unit :=
  Gateway.mkServer (spec_protocol s) None (fun _ w => (None, w)) (fun _ w => (None, w)) None.

#[export] Instance demo_factory : ServerFactory unit := {| make_server := demo_server; make_protocol s := eq_refl |}.

Definition no_op : unit -> option error * unit := fun w => (None, w).

Definition demo_gateway : Gateway.Gateway unit :=
  Gateway.mkGateway ∅ [] (Gateway.mkRuntimeOps no_op no_op (fun _ => no_op)) (Gateway.mkTimeouts 0 0 0 0) None None None false.

Definition demo_pool (data : bytes) : option Z := head data.

Definition demo_section (name cert key : string) : ProtocolConfig :=
  mkProto (B name) None (B ":0") [] [] 0 (B cert) (B key) [] [] [] None.

Definition demo_config : Config :=
  mkConfig (B "1s") (B ":8080") [] (B "info") [] None
    [demo_section " TCP " "c.pem" "k.pem"; demo_section "http" "" ""; demo_section "quic" "q.pem" "q.key"].

Definition demo_new : result error (App (W := unit) (cert := Z) (pool := Z)) :=
  New demo_pool (disk_at 1 [1] true 0) (disk_at 1 [1] true 0) demo_config demo_gateway.

(** The application of the demonstration, after [New]. *)
Definition demo_app : App (W := unit) (cert := Z) (pool := Z) :=
  match demo_new with
  | Ok a => a
  | Err _ => mkApp (Reload.mkApp demo_config None None 0) demo_gateway [] false [] [] []
  end.

Example demo_registers :
  (app_Protocols demo_app, length (watchers demo_app), Gateway.Protocols (gateway demo_app)) =
  ([B "tcp"; B "http"; B "quic"], 2%nat, [ProtocolTCP; ProtocolHTTP; ProtocolQUIC]).
Proof. vm_compute. reflexivity. Qed.

Lemma app_new_exact_witness : Validate demo_config = None /\ app_Protocols demo_app = [B "tcp"; B "http"; B "quic"].
Proof.
  assert (Validate demo_config = None) as HV by (vm_compute; reflexivity). split; [exact HV|].
  pose proof (app_new_exact demo_pool (disk_at 1 [1] true 0) (disk_at 1 [1] true 0) demo_config demo_gateway HV) as H.
  assert (Gateway.gateway_ok demo_gateway) as Hg.
  { split; [constructor|]. split; [|done]. intros q. split; [intros Hq; inversion Hq|intros [x Hx]; inversion Hx]. }
  specialize (H Hg eq_refl eq_refl). fold demo_new in H.
  assert (demo_new = Ok demo_app) as E by (vm_compute; reflexivity).
  rewrite E in H. destruct H as [-> _]. vm_compute. reflexivity.
Defined.

Definition no_shutdown_error : string -> Gateway.Ctx -> unit -> option error * unit := fun _ _ w => (None, w).

(** The demonstration started, then stopped before its endpoint had bound. *)
Definition demo_stopped : App := (Stop (fun _ => 0) no_shutdown_error Gateway.Background (Start (fun _ => 0) Gateway.Background demo_app tt).1.2 tt).1.2.

Definition demo_rest : App :=
  set_endpoints demo_stopped [mkEndpoint "health" (B ":8080") true [Gone]].

Lemma restart_serves_no_endpoint_witness :
  let b := (Start (fun _ => 0) Gateway.Background demo_rest tt).1.2 in
  (Start (fun _ => 0) Gateway.Background demo_rest tt).1.1 = None /\ watching b = false /\
  Forall (fun e => Serving ∉ goroutines e) (endpoints b).
Proof.
  cbn zeta. split; [vm_compute; reflexivity|].
  destruct (restart_serves_no_endpoint (fun _ => 0) no_shutdown_error Gateway.Background Gateway.Background
    (Start (fun _ => 0) Gateway.Background demo_app tt).1.2 tt tt demo_rest) as [H1 H2].
  - apply star_one. fold demo_stopped.
    refine (s_refused demo_stopped 0 (mkEndpoint "health" (B ":8080") true [Starting]) 0 _ _ _); vm_compute; reflexivity.
  - repeat constructor.
  - split; [exact H1|]. apply H2, star_refl.
Defined.
