(* ===== verification/Admin.v ===== *)
(** * Admin: [internal/runtime/admin.go]

    The admin listener: when it starts, who may ask it anything, and what it
    reports of the sessions.  Handlers only read the gateway, so an answer is a
    function of the request; encoding it as JSON and the profiles themselves are
    not modelled. *)
From S2P Require Import Prelude Bytes Core NetIP.
From S2P Require SessionManager.
Local Open Scope Z_scope.
Local Open Scope list_scope.

#[local] Abbreviation B := bytes_of_string.

(* go: internal/runtime/admin.go:18-28 (AdminConfig) *)
Record AdminConfig : Type := mkAdmin { Addr : bytes; Token : bytes }.

(** [net.IP.IsLoopback] *)
Definition IPv6loopback : bytes := replicate 15 0 ++ [1].

Definition IsLoopback (ip : bytes) : bool :=
  match To4 ip with
  | Some b => bool_decide (head b = Some 127)
  | None => bool_decide (ip = IPv6loopback)
  end.

(** The address of a listener: the IP of a [*net.TCPAddr], or another kind. *)
(* go: internal/runtime/admin.go:125-131 (isLoopbackAddr) *)
Definition isLoopbackAddr (addr : option bytes) : bool :=
  match addr with None => false | Some ip => IsLoopback ip end.

Inductive method : Type := GET | HEAD | OtherMethod.

Record request : Type := mkRequest {
  req_method : method;
  req_path : bytes;
  req_authorization : bytes
}.

Inductive body : Type :=
| BHealth (started : bool) (protocols : list Protocol)
| BSessions (total : Z) (by_protocol : gmap Protocol Z) (capacity : option Z)
| BPlugins (names : list bytes)
| BProfile (path : bytes)
| BError (what : string)
| BRedirect
| BNotFound.

Record response : Type := mkResponse {
  resp_status : Z;
  resp_challenge : bool;
  resp_allow : bool;
  resp_body : body
}.

(* go: internal/runtime/admin.go:212-219 (writeJSON) *)
Definition writeJSON (status : Z) (b : body) : response := mkResponse status false false b.

(** [None]: the request may go on. *)
(* go: internal/runtime/admin.go:203-210 (allowGet) *)
Definition allowGet (r : request) : option response :=
  match req_method r with
  | GET | HEAD => None
  | OtherMethod => Some (mkResponse 405 false true (BError "method not allowed"))
  end.

Section admin.
Context `{!MapRange Z}.
(** The protocol each session reports. *)
Variable protocol_of : SessionManager.Session -> Protocol.
(** [path.Clean] of [http.ServeMux]: it redirects to the clean path. *)
Variable cleanPath : bytes -> bytes.
(** Whether the undecorated manager can tell its capacity. *)
Variable reports_capacity : bool.

(** What the handlers read of the gateway. *)
Record view : Type := mkView {
  v_started : bool;
  v_protocols : list Protocol;
  v_sessions : SessionManager.SessionManager;
  v_plugins : option (list bytes)
}.

(* go: internal/runtime/admin.go:150-155 (handleHealth) *)
Definition handleHealth (g : view) (r : request) : response :=
  match allowGet r with
  | Some resp => resp
  | None => writeJSON 200 (BHealth (v_started g) (v_protocols g))
  end.

(** [byProtocol[p]++] *)
Definition count_protocol (s : SessionManager.Session) (m : gmap Protocol Z) : bool * gmap Protocol Z :=
  (true, <[protocol_of s := i64 (default 0 (m !! protocol_of s) + 1)]> m).

(* go: internal/runtime/admin.go:161-191 (handleSessions) *)
Definition handleSessions (g : view) (r : request) : response :=
  match allowGet r with
  | Some resp => resp
  | None =>
      let sm := v_sessions g in
      let byProtocol := SessionManager.Range count_protocol sm ∅ in
      let capacity :=
        if reports_capacity && (0 <? SessionManager.Capacity sm) then Some (SessionManager.Capacity sm) else None in
      writeJSON 200 (BSessions (SessionManager.Count sm) byProtocol capacity)
  end.

(* go: internal/runtime/admin.go:192-201 (handlePlugins) *)
Definition handlePlugins (g : view) (r : request) : response :=
  match allowGet r with
  | Some resp => resp
  | None => writeJSON 200 (BPlugins (default [] (v_plugins g)))
  end.

Definition pprof_tree : bytes := B "/debug/pprof/".

(** The mux: three paths and the subtree of the profiles. *)
(* go: internal/runtime/admin.go:66-78 (newAdminServer) *)
Definition mux (g : view) (r : request) : response :=
  let path := req_path r in
  if negb (bool_decide (cleanPath path = path)) || bool_decide (path ++ B "/" = pprof_tree) then
    mkResponse 301 false false BRedirect
  else if bool_decide (path = B "/healthz") then handleHealth g r
  else if bool_decide (path = B "/sessions") then handleSessions g r
  else if bool_decide (path = B "/plugins") then handlePlugins g r
  else if bool_decide (take (length pprof_tree) path = pprof_tree) then mkResponse 200 false false (BProfile path)
  else mkResponse 404 false false BNotFound.

Definition wanted (cfg : AdminConfig) : bytes := B "Bearer " ++ Token cfg.

(** The guard around the mux; [subtle.ConstantTimeCompare] is equality. *)
(* go: internal/runtime/admin.go:133-148 (requireToken) *)
Definition requireToken (cfg : AdminConfig) (next : request -> response) (r : request) : response :=
  if bool_decide (Token cfg = []) then next r
  else if bool_decide (req_authorization r = wanted cfg) then next r
  else mkResponse 401 true false (BError "unauthorized").

(** A listener that serves: the address it is bound to. *)
Record adminServer : Type := mkServer { a_cfg : AdminConfig; a_ln : option bytes }.

(** [net.Listen("tcp", addr)] *)
Variable Listen : bytes -> result error (option bytes).

(** The second component: the listener was closed again. *)
(* go: internal/runtime/admin.go:92-113 (start) *)
Definition start (cfg : AdminConfig) : result error adminServer * bool :=
  match Listen (Addr cfg) with
  | Err e => (Err (ErrWrap "admin listen" e), false)
  | Ok addr =>
      if negb (isLoopbackAddr addr) && bool_decide (Token cfg = []) then
        (Err (ErrMsg "admin listen: refusing to expose profiles on a non-loopback address without a token"), true)
      else (Ok (mkServer cfg addr), false)
  end.

(* go: internal/runtime/admin.go:63-90 (newAdminServer) *)
Definition answer (a : adminServer) (g : view) (r : request) : response := requireToken (a_cfg a) (mux g) r.

(** ** Counting sessions *)

Lemma Range_fold {A} (f : SessionManager.Session -> A -> A) m (w : A) :
  SessionManager.Range (fun s w => (true, f s w)) m w = fold_left (fun w s => f s w) (SessionManager.Snapshot m) w.
Proof.
  unfold SessionManager.Range. generalize (SessionManager.Snapshot m). intros l. revert w.
  induction l as [|s l IH]; intros w; [done|]. apply IH.
Qed.

Definition bump (m : gmap Protocol Z) (s : SessionManager.Session) : gmap Protocol Z :=
  <[protocol_of s := i64 (default 0 (m !! protocol_of s) + 1)]> m.

(** The sessions of a protocol in a list. *)
Definition of_protocol (p : Protocol) (l : list SessionManager.Session) : nat := occurs p (map protocol_of l).

Definition counted (l : list SessionManager.Session) (m : gmap Protocol Z) : Prop :=
  forall p, m !! p = if decide (of_protocol p l = 0%nat) then None else Some (Z.of_nat (of_protocol p l)).

Lemma of_protocol_snoc p l s :
  of_protocol p (l ++ [s]) = (of_protocol p l + if decide (protocol_of s = p) then 1 else 0)%nat.
Proof. unfold of_protocol. rewrite map_app. apply occurs_snoc. Qed.

Lemma of_protocol_le p l : (of_protocol p l <= length l)%nat.
Proof. unfold of_protocol, occurs. etransitivity; [apply length_filter|]. by rewrite length_map. Qed.

Lemma counted_bump l m s :
  Z.of_nat (length l) < max_int64 -> counted l m -> counted (l ++ [s]) (bump m s).
Proof.
  intros Hl Hc p. unfold bump. rewrite of_protocol_snoc. pose proof (of_protocol_le p l).
  destruct (decide (protocol_of s = p)) as [<-|Hne].
  - rewrite lookup_insert_eq, decide_False by lia. f_equal. rewrite (Hc (protocol_of s)).
    unfold max_int64 in Hl. rewrite i64_small.
    + destruct (decide _) as [E|E]; cbn; lia.
    + unfold in_i64, min_int64, max_int64. destruct (decide _) as [E|E]; cbn; lia.
  - by rewrite lookup_insert_ne, Nat.add_0_r, (Hc p) by done.
Qed.

Lemma counted_fold l : Z.of_nat (length l) <= max_int64 -> counted l (fold_left bump l ∅).
Proof.
  induction l as [|s l IH] using rev_ind; [done|]. rewrite length_app, fold_left_app. cbn. intros Hl.
  apply counted_bump; [lia|]. apply IH. lia.
Qed.

Lemma list_sum_cons x (l : list nat) : list_sum (x :: l) = (x + list_sum l)%nat.
Proof. done. Qed.

(** Summed over the protocols met, every session is counted once. *)
Lemma of_protocol_sum (l : list SessionManager.Session) (ps : list Protocol) :
  NoDup ps -> (forall s, s ∈ l -> protocol_of s ∈ ps) -> list_sum (map (fun p => of_protocol p l) ps) = length l.
Proof.
  intros Hnd. induction l as [|s l IH] using rev_ind; intros Hps.
  { clear. induction ps as [|p ps IH]; [done|]. cbn. exact IH. }
  rewrite length_app. cbn. rewrite <- IH by (intros s' Hs'; apply Hps, elem_of_app; by left).
  assert (protocol_of s ∈ ps) as Hs by (apply Hps, elem_of_app; right; by left). clear -Hnd Hs.
  assert (forall qs, protocol_of s ∉ qs ->
            list_sum (map (fun p => of_protocol p (l ++ [s])) qs) = list_sum (map (fun p => of_protocol p l) qs)) as Hno.
  { induction qs as [|q qs IH]; [done|]. rewrite not_elem_of_cons. intros [Hq Hqs]. cbn [map].
    rewrite !list_sum_cons, IH, of_protocol_snoc, decide_False by done. lia. }
  induction Hnd as [|p ps Hp Hnd IH]; [inversion Hs|]. cbn [map]. rewrite !list_sum_cons, of_protocol_snoc.
  destruct (decide (protocol_of s = p)) as [E|E].
  - rewrite Hno by congruence. lia.
  - apply elem_of_cons in Hs as [Hs|Hs]; [congruence|]. rewrite IH by done. lia.
Qed.

Lemma Snapshot_length m t : SessionManager.refines m t -> Z.of_nat (length (SessionManager.Snapshot m)) = SessionManager.Count m.
Proof.
  intros R. rewrite (SessionManager.Snapshot_refines m t R), length_fmap. unfold SessionManager.Count.
  rewrite (SessionManager.ref_count _ _ R). f_equal. apply length_map_to_list.
Qed.

Lemma by_protocol_counted m :
  SessionManager.manager_ok m ->
  counted (SessionManager.Snapshot m) (SessionManager.Range count_protocol m ∅).
Proof.
  intros (t & R & Hc). change count_protocol with (fun s w => (true, bump w s)).
  rewrite (Range_fold (fun s w => bump w s)). apply counted_fold. by rewrite (Snapshot_length m t R).
Qed.

(** ** Theorems *)

(** C21: A running admin listener answers a stranger nothing: unless its address
    is a loopback address, a request that does not carry the configured token
    gets the challenge, whatever it asks for, the profiles included; the same
    holds on loopback once a token is set, and who has the token is answered by
    the handlers alone. A listener that is refused is closed again. *)
Theorem admin_guarded cfg :
  match start cfg with
  | (Ok a, closed) =>
      closed = false /\ Listen (Addr cfg) = Ok (a_ln a) /\
      forall g r,
        (isLoopbackAddr (a_ln a) = false \/ Token cfg <> [] ->
         req_authorization r <> B "Bearer " ++ Token cfg ->
         answer a g r = mkResponse 401 true false (BError "unauthorized")) /\
        (Token cfg = [] \/ req_authorization r = B "Bearer " ++ Token cfg -> answer a g r = mux g r)
  | (Err _, closed) => closed = is_ok (Listen (Addr cfg))
  end.
Proof.
  unfold start. destruct (Listen (Addr cfg)) as [addr|e]; [|done].
  destruct (isLoopbackAddr addr) eqn:El; destruct (decide (Token cfg = [])) as [Et|Et];
    rewrite ?(bool_decide_eq_true_2 _ Et), ?(bool_decide_eq_false_2 _ Et); cbn [negb andb]; try done.
  all: split; [done|]; split; [done|]; intros g r; unfold answer, requireToken, wanted; cbn [a_cfg a_ln].
  all: rewrite ?(bool_decide_eq_true_2 _ Et), ?(bool_decide_eq_false_2 _ Et).
  - split; [|done]. intros [?|?]; [congruence|done].
  - split; [intros _ Hr; by rewrite bool_decide_eq_false_2|]. intros [?|Hr]; [done|]. by rewrite bool_decide_eq_true_2.
  - split; [intros _ Hr; by rewrite bool_decide_eq_false_2|]. intros [?|Hr]; [done|]. by rewrite bool_decide_eq_true_2.
Qed.

(** With no registration in flight the session report is exact: the total
    is the number of registered sessions, each protocol's figure the number of
    its sessions, a protocol is listed exactly if it has one, and the figures add
    up to the total, in whatever order the shards are walked. *)
Theorem sessions_report_exact g r :
  SessionManager.manager_ok (v_sessions g) -> req_method r <> OtherMethod ->
  exists total table capacity,
    handleSessions g r = mkResponse 200 false false (BSessions total table capacity) /\
    total = Z.of_nat (length (SessionManager.Snapshot (v_sessions g))) /\
    (forall p, table !! p = if decide (of_protocol p (SessionManager.Snapshot (v_sessions g)) = 0%nat) then None
                         else Some (Z.of_nat (of_protocol p (SessionManager.Snapshot (v_sessions g))))) /\
    Z.of_nat (list_sum (map (fun p => of_protocol p (SessionManager.Snapshot (v_sessions g))) (elements (dom table)))) = total /\
    (capacity = None \/ capacity = Some (SessionManager.Capacity (v_sessions g))).
Proof.
  intros Hok Hm. pose proof (by_protocol_counted _ Hok) as Hc. destruct Hok as (t & R & Hmax).
  pose proof (Snapshot_length _ _ R) as Hlen. unfold handleSessions, allowGet.
  do 3 eexists. split; [destruct (req_method r); done|]. split; [done|]. split; [exact Hc|]. split.
  - rewrite of_protocol_sum; [done|apply NoDup_elements|]. intros s Hs.
    apply elem_of_elements, elem_of_dom. rewrite (Hc (protocol_of s)). rewrite decide_False; [eauto|].
    intros E. apply list_elem_of_split in Hs as (l1 & l2 & Es). revert E. rewrite Es. unfold of_protocol, occurs.
    rewrite map_app, filter_app. cbn [map]. rewrite filter_cons_True by done. rewrite length_app. cbn. lia.
  - destruct (_ && _); [by right|by left].
Qed.
End admin.

(** ** Concrete gateways *)

Definition demo_manager : SessionManager.SessionManager :=
  SessionManager.reached 10
    [SessionManager.OpRegister (SessionManager.mkSession 1 false); SessionManager.OpRegister (SessionManager.mkSession 2 false);
     SessionManager.OpRegister (SessionManager.mkSession 65 true); SessionManager.OpRegister (SessionManager.mkSession 1 true)].

Definition demo_protocol (s : SessionManager.Session) : Protocol :=
  if SessionManager.isSharedSender s then ProtocolUDP else ProtocolTCP.

Definition demo_view : view := mkView true [ProtocolTCP; ProtocolUDP] demo_manager None.

Lemma demo_manager_ok : SessionManager.manager_ok demo_manager.
Proof.
  destruct (SessionManager.reached_refines 10
    [SessionManager.OpRegister (SessionManager.mkSession 1 false); SessionManager.OpRegister (SessionManager.mkSession 2 false);
     SessionManager.OpRegister (SessionManager.mkSession 65 true); SessionManager.OpRegister (SessionManager.mkSession 1 true)])
    as (t & R & _); [decide_now|]. exists t. split; [exact R|]. unfold max_int64. vm_compute. discriminate.
Qed.

Lemma sessions_report_exact_witness :
  exists total table capacity,
    handleSessions (MapRange0 := map_range_std) demo_protocol true demo_view (mkRequest GET (B "/sessions") []) =
      mkResponse 200 false false (BSessions total table capacity) /\ total = 3.
Proof.
  destruct (sessions_report_exact (MapRange0 := map_range_std) demo_protocol true demo_view (mkRequest GET (B "/sessions") [])
    demo_manager_ok ltac:(discriminate)) as (total & table & capacity & E & Ht & _).
  exists total, table, capacity. split; [exact E|]. rewrite Ht. vm_compute. reflexivity.
Defined.

(** Any address: all interfaces. *)
Definition listen_any (addr : bytes) : result error (option bytes) := Ok (Some (replicate 16 0)).

Example open_admin_refused : start listen_any (mkAdmin (B ":19900") []) =
  (Err (ErrMsg "admin listen: refusing to expose profiles on a non-loopback address without a token"), true).
Proof. vm_compute. reflexivity. Qed.

Lemma admin_guarded_witness :
  answer (MapRange0 := map_range_std) demo_protocol id true (mkServer (mkAdmin (B ":19900") (B "s3cret")) (Some (replicate 16 0)))
    demo_view (mkRequest GET (B "/debug/pprof/heap") (B "Bearer s3cre")) = mkResponse 401 true false (BError "unauthorized").
Proof.
  pose proof (admin_guarded (MapRange0 := map_range_std) demo_protocol id true listen_any (mkAdmin (B ":19900") (B "s3cret"))) as H.
  assert (start listen_any (mkAdmin (B ":19900") (B "s3cret")) =
          (Ok (mkServer (mkAdmin (B ":19900") (B "s3cret")) (Some (replicate 16 0))), false)) as E by (vm_compute; reflexivity).
  rewrite E in H. destruct H as (_ & _ & H). apply H; [left; vm_compute; reflexivity|vm_compute; discriminate].
Defined.
