(* ===== verification/Dtls.v ===== *)
(** * Dtls: [internal/transport/shared/dtls.go]

    What the DTLS transports (UDP and CoAP) make of a TLS configuration: the
    conversion for the DTLS library and the check of the client's certificate
    after the handshake.  Certificates and their verification are parameters. *)
From S2P Require Import Prelude Bytes Core Config CertWatch.
Local Open Scope Z_scope.
Local Open Scope list_scope.

Section dtls.
Context {cert pool x509 : Type}.

(** The fields of a [*tls.Config] the code reads; [GetCertificate] is the
    callback, which may panic. *)
Record tls_Config : Type := mkTlsConfig {
  Certificates : list cert;
  InsecureSkipVerify : bool;
  RootCAs : option pool;
  ClientCAs : option pool;
  ServerName : bytes;
  ClientAuth : ClientAuthType;
  CipherSuites : list Z;
  VerifyPeerCertificate : option (list bytes -> option error);
  GetCertificate_ : option (unit -> outcome (result error cert))
}.

(** The fields of a [*dtls.Config] the code sets. *)
Record dtls_Config : Type := mkDtlsConfig {
  d_Certificates : list cert;
  d_InsecureSkipVerify : bool;
  d_RootCAs : option pool;
  d_ClientCAs : option pool;
  d_ServerName : bytes;
  d_ClientAuth : ClientAuthType;
  d_CipherSuites : list Z;
  d_VerifyPeerCertificate : option (list bytes -> option error);
  d_GetCertificate : option (unit -> result error cert)
}.

(** A panicking callback fails the handshake. *)
(* go: internal/transport/shared/dtls.go:121-130 (DTLSConfig) *)
Definition bridge (f : unit -> outcome (result error cert)) (u : unit) : result error cert :=
  match f u with
  | Returned r => r
  | Panicked => Err (ErrMsg "dtls GetCertificate panic")
  end.

(* go: internal/transport/shared/dtls.go:82-133 (DTLSConfig) *)
Definition DTLSConfig (t : tls_Config) : dtls_Config :=
  mkDtlsConfig (Certificates t) (InsecureSkipVerify t) (RootCAs t) (ClientCAs t) (ServerName t) (ClientAuth t)
    (map u16 (CipherSuites t)) (VerifyPeerCertificate t)
    (match Certificates t, GetCertificate_ t with
     | [], Some f => Some (bridge f)
     | _, _ => None
     end).

Variable ParseCertificate : bytes -> result error x509.
(** [leaf.Verify] with the roots, the intermediates and client use. *)
Variable Verify : x509 -> pool -> list x509 -> option error.

(** [policy < tls.RequireAnyClientCert] *)
Definition not_enforced (p : ClientAuthType) : bool :=
  match p with NoClientCert | RequestClientCert => true | _ => false end.

Definition policy_of (t : option tls_Config) : ClientAuthType :=
  match t with None => NoClientCert | Some t => ClientAuth t end.

(** The certificates that parse, in order. *)
(* go: internal/transport/shared/dtls.go:67-71 (verifyClientAuth) *)
Definition intermediates (ders : list bytes) : list x509 :=
  omap (fun der => match ParseCertificate der with Ok c => Some c | Err _ => None end) ders.

(* go: internal/transport/shared/dtls.go:40-80 (verifyClientAuth) *)
Definition verifyClientAuth (t : option tls_Config) (peerCerts : list bytes) : option error :=
  let policy := policy_of t in
  if not_enforced policy then None
  else match peerCerts with
  | [] => match policy with
          | VerifyClientCertIfGiven => None
          | _ => Some (ErrMsg "dtls: client certificate required")
          end
  | leaf :: rest =>
      match policy with
      | RequireAnyClientCert => None
      | _ =>
          match t ≫= ClientCAs with
          | None => Some (ErrMsg "dtls: client certificate cannot be verified: no client CA pool configured")
          | Some roots =>
              match ParseCertificate leaf with
              | Err e => Some (ErrWrap "dtls: parse client certificate" e)
              | Ok c => match Verify c roots (intermediates rest) with
                        | Some e => Some (ErrWrap "dtls: verify client certificate" e)
                        | None => None
                        end
              end
          end
      end
  end.

(** A connection as [Accept] gave it: not a DTLS one, without a state yet, or
    with the peer's certificates. *)
Inductive accepted : Type := NotDTLS | NoState | Peer (certs : list bytes).

(* go: internal/transport/shared/dtls.go:12-38 (EnforceServerClientAuth) *)
Definition EnforceServerClientAuth (t : option tls_Config) (conn : accepted) : option error :=
  if not_enforced (policy_of t) then None
  else match conn with
  | NotDTLS => Some (ErrMsg "dtls: cannot inspect peer certificate")
  | NoState => Some (ErrMsg "dtls: connection state unavailable")
  | Peer certs => verifyClientAuth t certs
  end.

(** The configuration a section of the application gets: the certificate comes
    from the cache, the client CAs only from the per-handshake hook. *)
(* go: internal/app/config.go:384-411 (loadServerTLSConfig) *)
Definition app_config (t : TLSConfig) (c : CertCache (cert := cert) (pool := pool)) : tls_Config :=
  mkTlsConfig [] false None None [] (tls_ClientAuth t) [] None
    (Some (fun _ => Returned (GetCertificate c))).

(** ** The policies *)

(** What a certificate list has to satisfy under a policy. *)
Definition chain_ok (roots : option pool) (certs : list bytes) : Prop :=
  exists leaf rest p c, certs = leaf :: rest /\ roots = Some p /\ ParseCertificate leaf = Ok c /\
    Verify c p (intermediates rest) = None.

Definition policy_allows (t : tls_Config) (certs : list bytes) : Prop :=
  match ClientAuth t with
  | NoClientCert | RequestClientCert => True
  | RequireAnyClientCert => certs <> []
  | VerifyClientCertIfGiven => certs = [] \/ chain_ok (ClientCAs t) certs
  | RequireAndVerifyClientCert => chain_ok (ClientCAs t) certs
  end.

Lemma chain_ok_cons roots leaf rest :
  chain_ok roots (leaf :: rest) <->
  match roots with
  | None => False
  | Some p => match ParseCertificate leaf with Ok c => Verify c p (intermediates rest) = None | Err _ => False end
  end.
Proof.
  split.
  - intros (l & r & p & c & [= <- <-] & -> & -> & Hv). exact Hv.
  - destruct roots as [p|]; [|done]. destruct (ParseCertificate leaf) as [c|] eqn:E; [|done].
    intros Hv. by exists leaf, rest, p, c.
Qed.

Lemma chain_ok_nil roots : ~ chain_ok roots [].
Proof. by intros (? & ? & ? & ? & ? & _). Qed.

Lemma verifyClientAuth_spec t certs : verifyClientAuth (Some t) certs = None <-> policy_allows t certs.
Proof.
  unfold verifyClientAuth, policy_allows, policy_of. cbn. pose proof (chain_ok_nil (ClientCAs t)).
  destruct certs as [|leaf rest]; [destruct (ClientAuth t); cbn; split; (done || tauto)|].
  destruct (ClientAuth t); cbn; try (split; (done || tauto)); rewrite chain_ok_cons.
  all: destruct (ClientCAs t) as [p|]; [|split; [done|]; intros H'; (done || by destruct H')].
  all: destruct (ParseCertificate leaf) as [c|e]; [destruct (Verify c p (intermediates rest))|].
  all: split; try done; try (intros [|]; done); try (by right); tauto.
Qed.

(** The certificate check of the DTLS transports is the one of crypto/tls: a
    connection passes exactly if its policy asks for nothing, or the peer showed
    a certificate where one is enough, or showed a chain that verifies against
    the client CAs where that is asked, or none where none is needed; a
    connection whose certificates cannot be seen never passes. *)
Theorem client_auth_exact t conn :
  EnforceServerClientAuth (Some t) conn = None <->
  not_enforced (ClientAuth t) = true \/ exists certs, conn = Peer certs /\ policy_allows t certs.
Proof.
  unfold EnforceServerClientAuth, policy_of. destruct (not_enforced (ClientAuth t)) eqn:En; [split; [by left|done]|].
  destruct conn as [| |certs]; try (split; [done|]; intros [?|(? & ? & _)]; done).
  rewrite verifyClientAuth_spec. split; [by right; eexists|]. intros [?|(cs & [= ->] & H)]; done.
Qed.

(** C30: A UDP or CoAP section that asks for verified client certificates refuses
    every client that shows one, however good, and if it requires one refuses
    every client, though the CA file was read and a TLS handshake of the same
    configuration has its pool: that pool is only reachable through the
    per-handshake hook, which the DTLS library does not have. *)
Theorem dtls_client_ca_refuses_all (append : bytes -> option pool) d proto np cfg c policy :
  loadServerTLSConfig append d proto np = Ok (cfg, c) ->
  TLSClientCAFile proto <> [] ->
  parseTLSClientAuth (TLSClientAuth proto) = Ok policy ->
  policy = VerifyClientCertIfGiven \/ policy = RequireAndVerifyClientCert ->
  (exists p, (handshake cfg c c).2 = Some p) /\ d_ClientCAs (DTLSConfig (app_config cfg c)) = None /\
  (forall conn, conn <> Peer [] -> is_Some (EnforceServerClientAuth (Some (app_config cfg c)) conn)) /\
  (policy = RequireAndVerifyClientCert -> forall conn, is_Some (EnforceServerClientAuth (Some (app_config cfg c)) conn)).
Proof.
  intros HL Hca Hpol Hp. pose proof (loadServerTLSConfig_auth append d proto np cfg c HL) as Ha.
  rewrite Ha in Hpol. injection Hpol as Hpol. rewrite <- Hpol in *. clear Ha Hpol policy.
  assert (forall conn, EnforceServerClientAuth (Some (app_config cfg c)) conn = None ->
          tls_ClientAuth cfg = VerifyClientCertIfGiven /\ conn = Peer []) as H.
  { intros conn. unfold EnforceServerClientAuth, verifyClientAuth, policy_of, app_config. cbn.
    destruct Hp as [-> | ->]; cbn; destruct conn as [| |[|leaf rest]]; cbn; naive_solver. }
  split_and!; [|done| |].
  - apply loadServerTLSConfig_spec in HL as ([_ Hh] & _ & _ & E & _ & Ht). rewrite E in *.
    destruct (Hh Hca) as (data & p & _ & _ & Hp'). exists p. unfold handshake. cbn. rewrite Ht.
    apply empty_false in Hca. by rewrite Hca.
  - intros conn Hc. destruct (EnforceServerClientAuth _ conn) eqn:E; [eauto|]. apply H in E as [_ ?]. done.
  - intros Hr conn. destruct (EnforceServerClientAuth _ conn) eqn:E; [eauto|]. apply H in E as [? _]. congruence.
Qed.
End dtls.

(** ** A concrete section *)

Definition mtls_udp : ProtocolConfig :=
  mkProto (B "udp") None (B ":1") [] [] 0 (B "c.pem") (B "k.pem") (B "ca.pem") (B "require_and_verify") [] None.

(** Certificates are their own encoding and verify against the pool they name. *)
Definition demo_parse (der : bytes) : result error Z := match der with [z] => Ok z | _ => Err (ErrMsg "malformed") end.
Definition demo_verify (leaf pool : Z) (between : list Z) : option error :=
  if leaf =? pool then None else Some (ErrMsg "unknown authority").

Definition udp_setup : TLSConfig * CertCache :=
  match loadServerTLSConfig ca_pool (disk_at 1 [7] true 0) mtls_udp [] with
  | Ok r => r
  | Err _ => (mkTLS [] 0 NoClientCert false, NewCertCache [] [])
  end.

(** The client's certificate verifies against the configured CA, and is refused. *)
Lemma dtls_client_ca_refuses_all_witness :
  demo_verify 7 7 [] = None /\ (handshake udp_setup.1 udp_setup.2 udp_setup.2).2 = Some 7 /\
  is_Some (EnforceServerClientAuth demo_parse demo_verify (Some (app_config udp_setup.1 udp_setup.2)) (Peer [[7]])).
Proof.
  split; [reflexivity|]. split; [vm_compute; reflexivity|].
  assert (loadServerTLSConfig ca_pool (disk_at 1 [7] true 0) mtls_udp [] = Ok (udp_setup.1, udp_setup.2)) as E by (vm_compute; reflexivity).
  destruct (dtls_client_ca_refuses_all demo_parse demo_verify ca_pool _ _ _ _ _ RequireAndVerifyClientCert E) as (_ & _ & _ & H).
  - vm_compute. discriminate.
  - vm_compute. reflexivity.
  - by right.
  - by apply H.
Defined.
