(* ===== verification/SessionTable.v ===== *)
(** * SessionTable: the connections of the WebSocket, gRPC-Web and QUIC servers

    These servers keep their sessions in a [sync.Map] of their own beside the
    session manager.  Several goroutines touch one connection: the one that sets
    it up, its reader, its pinger, and [CloseSessions].  Each is written here as
    the script of its effects, one atomic step after another, and a connection
    is run under every interleaving of its scripts.  The scripts are the three
    servers' own; the run and its theorems are shared. *)
From S2P Require Import Prelude.
Local Open Scope list_scope.

(** ** Scripts *)

(** Effects that cannot fail: leaving the session manager, closing the session
    and its connection, telling the plugins, and giving the admission slot back. *)
Inductive act : Type := Unregister | CloseConn | OnClose | Done.

(** [Delete owned] is [if _, loaded := s.sessions.LoadAndDelete(id); loaded]. *)
Inductive instr : Type := Do (a : act) | Delete (owned : list act).

(** The fallible steps of the setup carry what is done before returning when
    they fail; [Spawn] starts a goroutine, by what it does when it ends;
    [SpawnMaybe] one that may also end without doing it. *)
Inductive op : Type :=
| Run (i : instr)
| Store
| Upgrade (refused : list instr)
| Register (refused : list instr)
| OnAccept (refused : list instr)
| Spawn (t : list instr)
| SpawnMaybe (t : list instr).

#[export] Instance act_eq_dec : EqDecision act.
Proof. solve_decision. Defined.

(** A server: how it sets a connection up, from the admission on, and how
    [CloseSessions] closes one. *)
Record server : Type := mkServer { setup : list op; close : list instr }.

(** *** WebSocket *)

(* go: internal/transport/websocket/server.go:259-266 (closeSession) *)
Definition ws_closeSession : list instr := [Delete [Unregister; CloseConn; OnClose]].

(* go: internal/transport/websocket/server.go:174-193 (handleUpgrade) *)
Definition ws_refused : list instr := [Do Done; Delete [Unregister; CloseConn]].

(* go: internal/transport/websocket/server.go:142-206 (handleUpgrade) *)
Definition ws_handleUpgrade : list op :=
  [Upgrade [Do Done]; Store; Register ws_refused; OnAccept ws_refused;
   Spawn (ws_closeSession ++ [Do Done]); SpawnMaybe ws_closeSession].

Definition websocket : server := mkServer ws_handleUpgrade ws_closeSession.

(** *** gRPC-Web over WebSocket *)

(* go: internal/transport/grpcweb/server.go:357-366 (closeWebSocketSession) *)
Definition grpc_closeWebSocketSession : list instr := [Delete [Unregister; CloseConn; OnClose; Done]].

(* go: internal/transport/grpcweb/server.go:273-291 (handleWebSocket) *)
Definition grpc_refused : list instr := [Delete [Unregister; CloseConn]; Do Done].

(* go: internal/transport/grpcweb/server.go:242-305 (handleWebSocket) *)
Definition grpc_handleWebSocket : list op :=
  [Upgrade [Do Done]; Store; Register grpc_refused; OnAccept grpc_refused;
   Spawn grpc_closeWebSocketSession; SpawnMaybe grpc_closeWebSocketSession].

Definition grpcweb : server := mkServer grpc_handleWebSocket grpc_closeWebSocketSession.

(** *** QUIC *)

(* go: internal/transport/quic/server.go:236-242 (closeSession) *)
Definition quic_closeSession : list instr := [Delete [Unregister; CloseConn; OnClose]].

(* go: internal/transport/quic/server.go:245-254 (discardSession) *)
Definition quic_discardSession : list instr := [Delete [Unregister; CloseConn]].

(** The goroutine of a connection, its deferred release included; its accept
    loop has no effect on the tables. *)
(* go: internal/transport/quic/server.go:149-197 (handleConn) *)
Definition quic_handleConn : list op :=
  [Store; Register (quic_discardSession ++ [Do Done]); OnAccept (quic_discardSession ++ [Do Done])]
  ++ map Run (quic_closeSession ++ [Do Done]).

Definition quic : server := mkServer quic_handleConn quic_closeSession.

(** ** Runs *)

(** One admitted connection: in the server's table, in the session manager,
    closed, accepted by the plugins; how often the plugins were told of its end
    and its slot was given back; the scripts under way. *)
Record conn : Type := mkConn {
  table : bool;
  registered : bool;
  sock_closed : bool;
  accepted : bool;
  oncloses : nat;
  dones : nat;
  threads : list (list op)
}.

Definition admitted (srv : server) : conn := mkConn false false false false 0 0 [setup srv].

Definition set_threads (s : conn) (l : list (list op)) : conn :=
  mkConn (table s) (registered s) (sock_closed s) (accepted s) (oncloses s) (dones s) l.
Definition set_thread (s : conn) (i : nat) (t : list op) : conn := set_threads s (<[i := t]> (threads s)).
Definition set_table (s : conn) (b : bool) : conn :=
  mkConn b (registered s) (sock_closed s) (accepted s) (oncloses s) (dones s) (threads s).

Definition perform (a : act) (s : conn) : conn :=
  match a with
  | Unregister => mkConn (table s) false (sock_closed s) (accepted s) (oncloses s) (dones s) (threads s)
  | CloseConn => mkConn (table s) (registered s) true (accepted s) (oncloses s) (dones s) (threads s)
  | OnClose => mkConn (table s) (registered s) (sock_closed s) (accepted s) (S (oncloses s)) (dones s) (threads s)
  | Done => mkConn (table s) (registered s) (sock_closed s) (accepted s) (oncloses s) (S (dones s)) (threads s)
  end.

Definition set_registered (s : conn) : conn :=
  mkConn (table s) true (sock_closed s) (accepted s) (oncloses s) (dones s) (threads s).
Definition set_accepted (s : conn) : conn :=
  mkConn (table s) (registered s) (sock_closed s) true (oncloses s) (dones s) (threads s).

Section runs.
Variable srv : server.
(** Whether [CloseSessions] may meet a connection that is still being set up. *)
Variable early : bool.

Inductive step (s : conn) : conn -> Prop :=
| st_do i a rest : threads s !! i = Some (Run (Do a) :: rest) -> step s (set_thread (perform a s) i rest)
| st_loaded i l rest : threads s !! i = Some (Run (Delete l) :: rest) -> table s = true ->
    step s (set_thread (set_table s false) i (map (fun a => Run (Do a)) l ++ rest))
| st_missed i l rest : threads s !! i = Some (Run (Delete l) :: rest) -> table s = false -> step s (set_thread s i rest)
| st_store i rest : threads s !! i = Some (Store :: rest) -> step s (set_thread (set_table s true) i rest)
| st_upgraded i r rest : threads s !! i = Some (Upgrade r :: rest) -> step s (set_thread s i rest)
| st_not_upgraded i r rest : threads s !! i = Some (Upgrade r :: rest) -> step s (set_thread s i (map Run r))
| st_registered i r rest : threads s !! i = Some (Register r :: rest) -> step s (set_thread (set_registered s) i rest)
| st_not_registered i r rest : threads s !! i = Some (Register r :: rest) -> step s (set_thread s i (map Run r))
| st_accepted i r rest : threads s !! i = Some (OnAccept r :: rest) -> step s (set_thread (set_accepted s) i rest)
| st_not_accepted i r rest : threads s !! i = Some (OnAccept r :: rest) -> step s (set_thread s i (map Run r))
| st_spawn i t rest : threads s !! i = Some (Spawn t :: rest) ->
    step s (set_threads s (<[i := rest]> (threads s) ++ [map Run t]))
| st_maybe i t rest : threads s !! i = Some (SpawnMaybe t :: rest) ->
    step s (set_threads s (<[i := rest]> (threads s) ++ [map Run t]))
| st_maybe_not i t rest : threads s !! i = Some (SpawnMaybe t :: rest) -> step s (set_thread s i rest)
| st_range : table s = true -> early = true \/ accepted s = true -> step s (set_threads s (threads s ++ [map Run (close srv)])).
End runs.

(** Every goroutine of the connection has returned. *)
Definition at_rest (s : conn) : Prop := Forall (fun t => t = []) (threads s).

(** ** What a script will do *)

(** The effects outside a [Delete], here and in the goroutines it starts. *)
Definition instr_acts (i : instr) : list act := match i with Do a => [a] | Delete _ => [] end.
Definition op_acts (o : op) : list act :=
  match o with
  | Run i => instr_acts i
  | Spawn t | SpawnMaybe t => t ≫= instr_acts
  | _ => []
  end.
Definition acts (t : list op) : list act := t ≫= op_acts.
Definition pending (s : conn) : list act := threads s ≫= acts.

(** The effects each [Delete] stands for. *)
Definition instr_owned (i : instr) : list (list act) := match i with Do _ => [] | Delete l => [l] end.
Definition op_owned (o : op) : list (list act) :=
  match o with
  | Run i => instr_owned i
  | Spawn t | SpawnMaybe t => t ≫= instr_owned
  | _ => []
  end.
Definition owned_of (t : list op) : list (list act) := t ≫= op_owned.

(** A [Delete] that will be reached. *)
Definition op_deletes (o : op) : bool :=
  match o with
  | Run (Delete _) => true
  | Spawn t => existsb (fun i => match i with Delete _ => true | Do _ => false end) t
  | _ => false
  end.
Definition deletes (t : list op) : bool := existsb op_deletes t.

(** After the setup: only runs, and goroutines that may not come have no effect
    outside their [Delete]. *)
Definition op_settled (o : op) : bool :=
  match o with
  | Run _ | Spawn _ => true
  | SpawnMaybe t => bool_decide (t ≫= instr_acts = [])
  | _ => false
  end.

(** A script whose deletions stand for [n] notifications and [d] releases. *)
Definition owned_ok (n d : nat) (l : list act) : Prop := occurs OnClose l = n /\ occurs Done l = d /\ Unregister ∈ l.
Record script_ok (n d : nat) (t : list op) : Prop := {
  so_settled : forallb op_settled t = true;
  so_owned : Forall (owned_ok n d) (owned_of t)
}.

(** ** Counting effects *)

Lemma occurs_app {A} `{!EqDecision A} (x : A) l k : occurs x (l ++ k) = (occurs x l + occurs x k)%nat.
Proof. unfold occurs. by rewrite filter_app, length_app. Qed.

Lemma occurs_perm {A} `{!EqDecision A} (x : A) l k : l ≡ₚ k -> occurs x l = occurs x k.
Proof. unfold occurs. intros ->. done. Qed.

Lemma occurs_nil {A} `{!EqDecision A} (x : A) : occurs x [] = 0%nat.
Proof. done. Qed.

Lemma occurs_elem {A} `{!EqDecision A} (x : A) l : x ∈ l -> (0 < occurs x l)%nat.
Proof.
  intros (l1 & l2 & ->)%list_elem_of_split. rewrite occurs_app. change (x :: l2) with ([x] ++ l2). rewrite occurs_app.
  unfold occurs at 2. rewrite filter_cons_True by done. cbn. lia.
Qed.

Lemma acts_cons o t : acts (o :: t) = op_acts o ++ acts t.
Proof. done. Qed.
Lemma acts_app t t' : acts (t ++ t') = acts t ++ acts t'.
Proof. apply bind_app. Qed.
Lemma acts_run t : acts (map Run t) = t ≫= instr_acts.
Proof. induction t as [|i t IH]; [done|]. cbn [map]. rewrite acts_cons, IH. done. Qed.
Lemma acts_do l : acts (map (fun a => Run (Do a)) l) = l.
Proof. induction l as [|a l IH]; [done|]. cbn [map]. rewrite acts_cons, IH. done. Qed.

Lemma owned_cons o t : owned_of (o :: t) = op_owned o ++ owned_of t.
Proof. done. Qed.
Lemma owned_app t t' : owned_of (t ++ t') = owned_of t ++ owned_of t'.
Proof. apply bind_app. Qed.
Lemma owned_run t : owned_of (map Run t) = t ≫= instr_owned.
Proof. induction t as [|i t IH]; [done|]. cbn [map]. rewrite owned_cons, IH. done. Qed.
Lemma owned_do l : owned_of (map (fun a => Run (Do a)) l) = [].
Proof. induction l as [|a l IH]; [done|]. cbn [map]. rewrite owned_cons, IH. done. Qed.

Lemma deletes_run t : deletes (map Run t) = existsb (fun i => match i with Delete _ => true | Do _ => false end) t.
Proof. induction t as [|[a|l] t IH]; [done|exact IH|done]. Qed.

Lemma settled_run t : forallb op_settled (map Run t) = true.
Proof. by induction t. Qed.

(** Replacing a script changes what is pending by the difference. *)
Lemma pending_insert (ts : list (list op)) i t t' a :
  ts !! i = Some t ->
  (occurs a (<[i := t']> ts ≫= acts) + occurs a (acts t) = occurs a (ts ≫= acts) + occurs a (acts t'))%nat.
Proof.
  intros Hi. destruct (bind_insert acts ts i t t' Hi) as (R & E1 & E2).
  rewrite (occurs_perm _ _ _ E1), (occurs_perm _ _ _ E2), !occurs_app. lia.
Qed.

Lemma pending_snoc (ts : list (list op)) t : (ts ++ [t]) ≫= acts = (ts ≫= acts) ++ acts t.
Proof. rewrite bind_app. csimpl. by rewrite app_nil_r. Qed.

Definition some_deletes (ts : list (list op)) : Prop := exists i t, ts !! i = Some t /\ deletes t = true.

Lemma some_deletes_insert ts i t t' :
  ts !! i = Some t -> (deletes t = true -> deletes t' = true) -> some_deletes ts -> some_deletes (<[i := t']> ts).
Proof.
  intros Hi Ht (j & u & Hj & Hu). destruct (decide (i = j)) as [->|Hne].
  - exists j, t'. rewrite list_lookup_insert_eq by (by eapply lookup_lt_Some). split; [done|]. apply Ht. congruence.
  - exists j, u. by rewrite list_lookup_insert_ne.
Qed.

Lemma some_deletes_app ts ts' : some_deletes ts \/ some_deletes ts' -> some_deletes (ts ++ ts').
Proof.
  intros [(i & t & Hi & Ht)|(i & t & Hi & Ht)].
  - exists i, t. split; [|done]. by apply lookup_app_l_Some.
  - exists (length ts + i)%nat, t. split; [|done]. rewrite lookup_app_r by lia. by replace (length ts + i - length ts)%nat with i by lia.
Qed.

(** ** The invariant after the setup *)

(** [n]: notifications of the whole life; [d]: releases tied to the deletion. *)
Record settled (n d : nat) (s : conn) : Prop := {
  st_ok : Forall (script_ok n d) (threads s);
  st_in : table s = true -> oncloses s = 0%nat /\ occurs OnClose (pending s) = 0%nat /\
    (dones s + occurs Done (pending s) + d = 1)%nat /\ some_deletes (threads s);
  st_out : table s = false -> (registered s = true -> (0 < occurs Unregister (pending s))%nat) /\
    (oncloses s + occurs OnClose (pending s) = n)%nat /\ (dones s + occurs Done (pending s) = 1)%nat
}.

Lemma script_ok_tail n d o t : script_ok n d (o :: t) -> script_ok n d t.
Proof.
  intros [H1 H2]. cbn in H1. apply andb_true_iff in H1 as [_ H1]. rewrite owned_cons in H2.
  apply Forall_app in H2 as [_ H2]. by split.
Qed.

Lemma settled_head n d s i o rest :
  settled n d s -> threads s !! i = Some (o :: rest) ->
  op_settled o = true /\ script_ok n d rest /\ Forall (owned_ok n d) (op_owned o).
Proof.
  intros [Hok _ _] Hi. eapply Forall_lookup_1 in Hok; [|exact Hi]. pose proof (script_ok_tail _ _ _ _ Hok) as Ht.
  destruct Hok as [H1 H2]. cbn in H1. apply andb_true_iff in H1 as [H1 _]. rewrite owned_cons in H2.
  apply Forall_app in H2 as [H2 _]. done.
Qed.

Lemma script_ok_app n d t t' : script_ok n d t -> script_ok n d t' -> script_ok n d (t ++ t').
Proof.
  intros [H1 H2] [H3 H4]. split; [by rewrite forallb_app, H1, H3|]. rewrite owned_app. by apply Forall_app.
Qed.

Lemma script_ok_do n d l : script_ok n d (map (fun a => Run (Do a)) l).
Proof. split; [by induction l|]. by rewrite owned_do. Qed.

Lemma script_ok_run n d t : Forall (owned_ok n d) (t ≫= instr_owned) -> script_ok n d (map Run t).
Proof. intros H. split; [apply settled_run|]. by rewrite owned_run. Qed.

(** The counts of single effects. *)
Ltac eval_occurs :=
  repeat match goal with
  | H : context [occurs ?x [?y]] |- _ => let v := eval vm_compute in (occurs x [y]) in change (occurs x [y]) with v in H
  end.

(** One effect: its pending occurrence becomes the count it stands for. *)
Lemma settled_perform n d s i a rest :
  settled n d s -> threads s !! i = Some (Run (Do a) :: rest) -> settled n d (set_thread (perform a s) i rest).
Proof.
  intros Hs Hi. destruct (settled_head _ _ _ _ _ _ Hs Hi) as (_ & Hr & _). destruct Hs as [Hok Hin Hout].
  assert (forall b, (occurs b (<[i := rest]> (threads s) ≫= acts) + occurs b [a] = occurs b (pending s))%nat) as Hp.
  { intros b. pose proof (pending_insert (threads s) i _ rest b Hi) as H. rewrite acts_cons, occurs_app in H. cbn [op_acts instr_acts] in H.
    unfold pending. lia. }
  pose proof (Hp OnClose) as P1. pose proof (Hp Done) as P2. pose proof (Hp Unregister) as P3.
  split.
  - destruct a; cbn; by apply Forall_insert.
  - intros Ht. assert (table s = true) as Ht' by (by destruct a). destruct (Hin Ht') as (H1 & H2 & H3 & H4).
    unfold pending in *. destruct a; eval_occurs; cbn in *; (split_and!; [lia|lia|lia|]);
      (eapply some_deletes_insert; [exact Hi|done|done]).
  - intros Ht. assert (table s = false) as Ht' by (by destruct a). destruct (Hout Ht') as (H1 & H2 & H3).
    unfold pending in *. destruct a; eval_occurs; cbn in *; (split_and!; [|lia|lia]); try done; intros Hreg; specialize (H1 Hreg); lia.
Qed.

Lemma settled_loaded n d s i l rest :
  settled n d s -> threads s !! i = Some (Run (Delete l) :: rest) -> table s = true ->
  settled n d (set_thread (set_table s false) i (map (fun a => Run (Do a)) l ++ rest)).
Proof.
  intros Hs Hi Ht. destruct (settled_head _ _ _ _ _ _ Hs Hi) as (_ & Hr & Hl). destruct Hs as [Hok Hin _].
  cbn in Hl. apply Forall_cons in Hl as [(L1 & L2 & L3) _]. destruct (Hin Ht) as (H1 & H2 & H3 & _).
  assert (forall b, (occurs b (<[i := map (fun a => Run (Do a)) l ++ rest]> (threads s) ≫= acts) = occurs b (pending s) + occurs b l)%nat) as Hp.
  { intros b. pose proof (pending_insert (threads s) i _ (map (fun a => Run (Do a)) l ++ rest) b Hi) as H.
    rewrite acts_app, acts_do, acts_cons, !occurs_app in H. cbn [op_acts instr_acts] in H. change (occurs b []) with 0%nat in H.
    unfold pending. lia. }
  pose proof (Hp OnClose) as P1. pose proof (Hp Done) as P2. pose proof (Hp Unregister) as P3. pose proof (occurs_elem _ _ L3).
  split; cbn; [|done|].
  - apply Forall_insert; [done|]. apply script_ok_app; [apply script_ok_do|done].
  - intros _. unfold pending. cbn. split_and!; [intros _; lia|lia|lia].
Qed.

(** A script moves on without an effect. *)
Lemma settled_skip n d s i o rest :
  settled n d s -> threads s !! i = Some (o :: rest) -> op_acts o = [] -> (table s = true -> op_deletes o = false) ->
  settled n d (set_thread s i rest).
Proof.
  intros Hs Hi Ha Hd. destruct (settled_head _ _ _ _ _ _ Hs Hi) as (_ & Hr & _). destruct Hs as [Hok Hin Hout].
  assert (forall b, occurs b (<[i := rest]> (threads s) ≫= acts) = occurs b (pending s)) as Hp.
  { intros b. pose proof (pending_insert (threads s) i _ rest b Hi) as H. rewrite acts_cons, Ha in H. unfold pending. cbn in H. lia. }
  split; cbn; [by apply Forall_insert|..].
  - intros Ht. unfold pending. cbn. rewrite !Hp. destruct (Hin Ht) as (H1 & H2 & H3 & H4). split_and!; [done|done|done|].
    eapply some_deletes_insert; [exact Hi| |done]. cbn. by rewrite Hd.
  - intros Ht. unfold pending. cbn. rewrite !Hp. by apply Hout.
Qed.

(** A script starts another one. *)
Lemma settled_spawn n d s i o t rest :
  settled n d s -> threads s !! i = Some (o :: rest) -> o = Spawn t \/ o = SpawnMaybe t ->
  settled n d (set_threads s (<[i := rest]> (threads s) ++ [map Run t])).
Proof.
  intros Hs Hi Ho. destruct (settled_head _ _ _ _ _ _ Hs Hi) as (_ & Hr & Hl). destruct Hs as [Hok Hin Hout].
  assert (op_acts o = t ≫= instr_acts /\ op_owned o = t ≫= instr_owned) as [Ea Eo] by (by destruct Ho; subst).
  assert (forall b, occurs b ((<[i := rest]> (threads s) ++ [map Run t]) ≫= acts) = occurs b (pending s)) as Hp.
  { intros b. pose proof (pending_insert (threads s) i _ rest b Hi) as H. rewrite acts_cons, Ea, occurs_app in H.
    rewrite pending_snoc, acts_run, occurs_app. unfold pending. lia. }
  split; cbn.
  - apply Forall_app. split; [by apply Forall_insert|]. constructor; [|done]. apply script_ok_run. by rewrite <- Eo.
  - intros Ht. unfold pending. cbn. rewrite !Hp. destruct (Hin Ht) as (H1 & H2 & H3 & H4). split_and!; [done|done|done|].
    apply some_deletes_app. destruct (deletes (map Run t)) eqn:Ed.
    + right. exists 0%nat, (map Run t). done.
    + left. eapply some_deletes_insert; [exact Hi| |done]. rewrite deletes_run in Ed. cbn.
      destruct Ho; subst o; cbn; [by rewrite Ed|done].
  - intros Ht. unfold pending. cbn. rewrite !Hp. by apply Hout.
Qed.

(** [CloseSessions] joins in. *)
Lemma settled_range n d s (t : list instr) :
  settled n d s -> Forall (owned_ok n d) (t ≫= instr_owned) -> t ≫= instr_acts = [] ->
  settled n d (set_threads s (threads s ++ [map Run t])).
Proof.
  intros [Hok Hin Hout] Hl Ha.
  assert (forall b, occurs b ((threads s ++ [map Run t]) ≫= acts) = occurs b (pending s)) as Hp.
  { intros b. by rewrite pending_snoc, acts_run, Ha, app_nil_r. }
  split; cbn.
  - apply Forall_app. split; [done|]. constructor; [by apply script_ok_run|done].
  - intros Ht. unfold pending. cbn. rewrite !Hp. destruct (Hin Ht) as (H1 & H2 & H3 & H4). split_and!; [done|done|done|].
    apply some_deletes_app. by left.
  - intros Ht. unfold pending. cbn. rewrite !Hp. by apply Hout.
Qed.

(** What the sharing of the scripts asks of a server: [CloseSessions] and the
    goroutines started after the setup only delete; each deletion after the
    setup notifies the plugins once; a refusal never does; every way to return
    gives the slot back once. *)
Definition refusal_ok (r : list instr) : Prop :=
  Forall (owned_ok 0 0) (r ≫= instr_owned) /\ occurs OnClose (r ≫= instr_acts) = 0%nat /\
  occurs Done (r ≫= instr_acts) = 1%nat /\ deletes (map Run r) = true.

Record disciplined (srv : server) (d : nat) (pre : list op) (r1 r2 : list instr) (after : list op) : Prop := {
  dc_setup : setup srv = pre ++ Store :: Register r1 :: OnAccept r2 :: after;
  dc_pre : pre = [] \/ pre = [Upgrade [Do Done]];
  dc_r1 : refusal_ok r1;
  dc_r2 : refusal_ok r2;
  dc_after : script_ok 1 d after;
  dc_after_acts : occurs OnClose (acts after) = 0%nat /\ (occurs Done (acts after) + d = 1)%nat /\ deletes after = true;
  dc_close : Forall (owned_ok 1 d) (close srv ≫= instr_owned) /\ close srv ≫= instr_acts = []
}.

Lemma settled_step srv d n s s' :
  settled n d s -> (accepted s = true -> Forall (owned_ok n d) (close srv ≫= instr_owned) /\ close srv ≫= instr_acts = []) ->
  step srv false s s' -> settled n d s' /\ accepted s' = accepted s.
Proof.
  intros Hs Hc Hstep.
  destruct Hstep as [i a rest Hi|i l rest Hi Ht|i l rest Hi Ht|i rest Hi|i r rest Hi|i r rest Hi|i r rest Hi|i r rest Hi
    |i r rest Hi|i r rest Hi|i t rest Hi|i t rest Hi|i t rest Hi|Ht [He|Ha]];
    try (destruct (settled_head _ _ _ _ _ _ Hs Hi) as (Hb & _); discriminate Hb).
  - split; [by apply settled_perform|by destruct a].
  - split; [by apply settled_loaded|done].
  - split; [|done]. eapply settled_skip; [done|exact Hi|done|]. congruence.
  - split; [|done]. eapply settled_spawn; [done|exact Hi|by left].
  - split; [|done]. eapply settled_spawn; [done|exact Hi|by right].
  - split; [|done]. destruct (settled_head _ _ _ _ _ _ Hs Hi) as (Hb & _). cbn in Hb. apply bool_decide_eq_true in Hb.
    eapply settled_skip; [done|exact Hi|exact Hb|done].
  - discriminate He.
  - split; [|done]. destruct (Hc Ha). by apply settled_range.
Qed.

(** A connection with one script. *)
Lemma settled_single n d s t :
  threads s = [t] -> script_ok n d t ->
  (table s = true -> oncloses s = 0%nat /\ occurs OnClose (acts t) = 0%nat /\ (dones s + occurs Done (acts t) + d = 1)%nat /\ deletes t = true) ->
  (table s = false -> registered s = false /\ (oncloses s + occurs OnClose (acts t) = n)%nat /\ (dones s + occurs Done (acts t) = 1)%nat) ->
  settled n d s.
Proof.
  intros Et Hok Hin Hout. assert (pending s = acts t) as Ep by (unfold pending; rewrite Et; csimpl; apply app_nil_r).
  split; rewrite ?Et, ?Ep.
  - by constructor.
  - intros Ht. destruct (Hin Ht) as (H1 & H2 & H3 & H4). split_and!; [done|done|done|]. by exists 0%nat, t.
  - intros Ht. destruct (Hout Ht) as (H1 & H2 & H3). split_and!; [congruence|done|done].
Qed.

Section calm.
Context (srv : server) (d : nat) (pre : list op) (r1 r2 : list instr) (after : list op).
Hypothesis Hd : disciplined srv d pre r1 r2 after.

(** Before the plugins have accepted, one script runs alone. *)
Definition setting_up (s : conn) : Prop :=
  accepted s = false /\ oncloses s = 0%nat /\ dones s = 0%nat /\
  ((table s = false /\ registered s = false /\
     (threads s = [setup srv] \/ threads s = [Store :: Register r1 :: OnAccept r2 :: after])) \/
   (table s = true /\ threads s = [Register r1 :: OnAccept r2 :: after]) \/
   (table s = true /\ threads s = [OnAccept r2 :: after])).

Definition calm (s : conn) : Prop :=
  setting_up s \/ (accepted s = false /\ settled 0 0 s) \/ (accepted s = true /\ settled 1 d s).

Lemma refused_settled s r :
  refusal_ok r -> threads s = [map Run r] -> oncloses s = 0%nat -> dones s = 0%nat -> table s = true -> settled 0 0 s.
Proof.
  intros (H1 & H2 & H3 & H4) Et Ho Hn Ht. apply (settled_single _ _ _ _ Et).
  - by apply script_ok_run.
  - intros _. rewrite acts_run, H2, H3, Hn. split_and!; [done|done|done|done].
  - congruence.
Qed.

Lemma single_lookup {A} (t : list A) i x rest : [t] !! i = Some (x :: rest) -> i = 0%nat /\ t = x :: rest.
Proof. destruct i as [|i]; cbn; [by intros [= ->]|by destruct i]. Qed.

(** What one script alone can do next. *)
Lemma step_single s s' t :
  threads s = [t] -> accepted s = false -> step srv false s s' ->
  exists o rest, t = o :: rest /\
    match o with
    | Store => s' = set_threads (set_table s true) [rest]
    | Upgrade r => s' = set_threads s [rest] \/ s' = set_threads s [map Run r]
    | Register r => s' = set_threads (set_registered s) [rest] \/ s' = set_threads s [map Run r]
    | OnAccept r => s' = set_threads (set_accepted s) [rest] \/ s' = set_threads s [map Run r]
    | _ => True
    end.
Proof.
  intros Et Ha Hstep.
  destruct Hstep as [i a rest Hi|i l rest Hi Ht|i l rest Hi Ht|i rest Hi|i r rest Hi|i r rest Hi|i r rest Hi|i r rest Hi
    |i r rest Hi|i r rest Hi|i t' rest Hi|i t' rest Hi|i t' rest Hi|Ht [He|Ha']]; try congruence;
    rewrite Et in Hi; apply single_lookup in Hi as [-> ->]; do 2 eexists; (split; [reflexivity|]); cbn; try done;
    unfold set_thread; cbn; rewrite ?Et; cbn; auto.
Qed.

Lemma calm_init : calm (admitted srv).
Proof. left. split_and!; try done. left. split_and!; try done. by left. Qed.

Lemma setting_up_step s s' : setting_up s -> step srv false s s' -> calm s'.
Proof.
  intros (Ha & Ho & Hn & Hph) Hstep. destruct Hd as [Es Hpre Hr1 Hr2 Haf (A1 & A2 & A3) _].
  assert (threads s = [Store :: Register r1 :: OnAccept r2 :: after] -> table s = false -> calm s') as Hstore.
  { intros Et _. destruct (step_single s s' _ Et Ha Hstep) as (o & rest & [= <- <-] & ->).
    left. split_and!; try done. right. left. done. }
  destruct Hph as [(Ht & Hr & [Et|Et])|[(Ht & Et)|(Ht & Et)]]; [|by apply Hstore| |].
  - rewrite Es in Et. destruct Hpre as [-> | ->]; [by apply Hstore|].
    destruct (step_single s s' _ Et Ha Hstep) as (o & rest & [= <- <-] & [-> | ->]).
    + left. split_and!; try done. left. split_and!; try done. by right.
    + right. left. split; [done|]. eapply settled_single; [reflexivity|..]; cbn.
      * by apply (script_ok_run 0 0 [Do Done]).
      * congruence.
      * intros _. rewrite Ho, Hn. by split_and!.
  - destruct (step_single s s' _ Et Ha Hstep) as (o & rest & [= <- <-] & [-> | ->]).
    + left. split_and!; try done. right. right. done.
    + right. left. split; [done|]. by apply (refused_settled _ r1).
  - destruct (step_single s s' _ Et Ha Hstep) as (o & rest & [= <- <-] & [-> | ->]).
    + right. right. split; [done|]. eapply settled_single; [reflexivity|..]; cbn; [done| |congruence].
      intros _. rewrite Ho, Hn. by split_and!.
    + right. left. split; [done|]. by apply (refused_settled _ r2).
Qed.

Lemma calm_step s s' : calm s -> step srv false s s' -> calm s'.
Proof.
  intros [Hs|[[Ha Hs]|[Ha Hs]]] Hstep.
  - by eapply setting_up_step.
  - right. left. apply (settled_step srv 0 0) in Hstep as [? ?]; [by split; congruence|done|congruence].
  - right. right. apply (settled_step srv d 1) in Hstep as [? ?]; [by split; congruence|done|]. intros _. apply (dc_close _ _ _ _ _ _ Hd).
Qed.

Lemma calm_rest s : calm s -> at_rest s ->
  table s = false /\ registered s = false /\ dones s = 1%nat /\ oncloses s = if accepted s then 1%nat else 0%nat.
Proof.
  intros Hc Hr.
  assert (forall n e, settled n e s -> table s = false /\ registered s = false /\ dones s = 1%nat /\ oncloses s = n) as H.
  { intros n e [_ Hin Hout].
    assert (pending s = []) as Ep.
    { unfold pending. clear -Hr. unfold at_rest in Hr. induction Hr as [|t ts -> _ IH]; [done|]. exact IH. }
    rewrite Ep in *. destruct (table s) eqn:Et.
    - destruct (Hin eq_refl) as (_ & _ & _ & i & t & Hi & Ht). eapply Forall_lookup_1 in Hr; [|exact Hi]. by subst t.
    - destruct (Hout eq_refl) as (H1 & H2 & H3). rewrite ?occurs_nil in *. split_and!; [done| |lia|lia].
      destruct (registered s); [|done]. specialize (H1 eq_refl). lia. }
  destruct Hc as [(_ & _ & _ & Hph)|[[-> Hs]|[-> Hs]]]; [|by eapply H|by eapply H].
  exfalso. destruct Hd as [Es _ _ _ _ _ _]. unfold at_rest in Hr.
  destruct Hph as [(_ & _ & [Et|Et])|[(_ & Et)|(_ & Et)]]; rewrite Et in Hr; apply Forall_cons in Hr as [Hr _]; try done.
  rewrite Es in Hr. by destruct pre.
Qed.
End calm.

(** ** Every interleaving, [CloseSessions] at any time *)

(** *** The slot is given back once, where no deletion gives it back *)

(** How many releases a script makes, if that is the same on every path. *)
Definition instr_releases (t : list instr) : option nat :=
  if forallb (fun l => bool_decide (occurs Done l = 0%nat)) (t ≫= instr_owned) then Some (occurs Done (t ≫= instr_acts)) else None.

Fixpoint releases (t : list op) : option nat :=
  match t with
  | [] => Some 0%nat
  | o :: rest =>
      match releases rest with
      | None => None
      | Some k =>
          match o with
          | Run i => (fun n => (n + k)%nat) <$> instr_releases [i]
          | Store => Some k
          | Upgrade r | Register r | OnAccept r => if decide (instr_releases r = Some k) then Some k else None
          | Spawn t => (fun n => (n + k)%nat) <$> instr_releases t
          | SpawnMaybe t => if decide (instr_releases t = Some 0%nat) then Some k else None
          end
      end
  end.

Definition weight (t : list op) : nat := default 0%nat (releases t).

Definition released (s : conn) : Prop :=
  Forall (fun t => is_Some (releases t)) (threads s) /\ (dones s + list_sum (map weight (threads s)) = 1)%nat.

Lemma instr_releases_cons i t :
  instr_releases (i :: t) =
  match instr_releases [i], instr_releases t with Some a, Some b => Some (a + b)%nat | _, _ => None end.
Proof.
  unfold instr_releases. csimpl. rewrite app_nil_r, forallb_app. destruct (forallb _ (instr_owned i)); [|done].
  rewrite app_nil_r. destruct (forallb _ (t ≫= instr_owned)); cbn [andb]; [|done]. by rewrite occurs_app.
Qed.

Lemma releases_run t : releases (map Run t) = instr_releases t.
Proof.
  induction t as [|i t IH]; [done|]. cbn [map releases]. rewrite IH, (instr_releases_cons i t).
  by destruct (instr_releases [i]), (instr_releases t).
Qed.

Lemma releases_do_app l rest k :
  releases rest = Some k -> occurs Done l = 0%nat -> releases (map (fun a => Run (Do a)) l ++ rest) = Some k.
Proof.
  intros Hr. induction l as [|a l IH]; [done|]. change (a :: l) with ([a] ++ l). rewrite occurs_app. intros H0.
  change (map (fun a0 => Run (Do a0)) ([a] ++ l) ++ rest) with (Run (Do a) :: (map (fun a0 => Run (Do a0)) l ++ rest)).
  cbn [releases]. rewrite IH by lia. unfold instr_releases. cbn [forallb mbind list_bind instr_owned instr_acts app].
  cbn. f_equal. lia.
Qed.

(** Replacing a script by one of the same weight, or starting a weightless one. *)
Lemma released_set s i t t' m :
  released s -> threads s !! i = Some t -> releases t' = Some m -> (forall k, releases t = Some k -> k = m) ->
  released (set_thread s i t').
Proof.
  intros [Hf Hn] Hi Ht' Hm. pose proof (Forall_lookup_1 _ _ _ _ Hf Hi) as [k Hk]. split; cbn [dones threads set_thread set_threads].
  - apply Forall_insert; [done|]. by rewrite Ht'.
  - pose proof (sum_insert weight (threads s) i _ t' Hi) as E. specialize (Hm k Hk). subst m.
    assert (weight t = weight t') as Ew by (unfold weight; by rewrite Hk, Ht'). lia.
Qed.

Lemma weight_eq t k : releases t = Some k -> weight t = k.
Proof. unfold weight. by intros ->. Qed.

Lemma released_step srv early s s' :
  instr_releases (close srv) = Some 0%nat -> released s -> step srv early s s' -> released s'.
Proof.
  intros Hc Hs Hstep. pose proof Hs as [Hf Hn].
  destruct Hstep as [i a rest Hi|i l rest Hi Ht|i l rest Hi Ht|i rest Hi|i r rest Hi|i r rest Hi|i r rest Hi|i r rest Hi
    |i r rest Hi|i r rest Hi|i t rest Hi|i t rest Hi|i t rest Hi|Ht _];
    try (pose proof (Forall_lookup_1 _ _ _ _ Hf Hi) as [k Hk]; pose proof Hk as Hk'; cbn [releases] in Hk;
         destruct (releases rest) as [m|] eqn:Em; [|discriminate Hk]).
  - pose proof (sum_insert weight (threads s) i _ rest Hi) as E. rewrite (weight_eq _ _ Hk'), (weight_eq _ _ Em) in E.
    split; [destruct a; cbn; apply Forall_insert; [done|by rewrite Em|done|by rewrite Em|done|by rewrite Em|done|by rewrite Em]|].
    cbn in Hk. injection Hk as Hk.
    assert (dones (perform a s) = (dones s + occurs Done [a])%nat) as Ed
      by (destruct a; (exact (eq_sym (Nat.add_0_r _)) || exact (eq_sym (Nat.add_1_r _)))).
    assert (threads (perform a s) = threads s) as Et by (by destruct a).
    cbn [dones threads set_thread set_threads]. rewrite Ed, Et. lia.
  - destruct (instr_releases [Delete l]) as [n|] eqn:El; [|discriminate Hk]. cbn in Hk.
    assert (n = 0%nat /\ occurs Done l = 0%nat) as [-> Hl].
    { unfold instr_releases in El. cbn in El. case_bool_decide; [|done]. by injection El as <-. }
    eapply (released_set (set_table s false)); [exact Hs|exact Hi|by apply releases_do_app|]. intros k' Hk2. cbn in Hk. congruence.
  - destruct (instr_releases [Delete l]) as [n|] eqn:El; [|discriminate Hk]. cbn in Hk.
    assert (n = 0%nat) as ->.
    { unfold instr_releases in El. cbn in El. case_bool_decide; [|done]. by injection El as <-. }
    eapply released_set; [exact Hs|exact Hi|exact Em|]. intros k' Hk2. cbn in Hk. congruence.
  - eapply (released_set (set_table s true)); [exact Hs|exact Hi|exact Em|congruence].
  - eapply released_set; [exact Hs|exact Hi|exact Em|]. case_decide; congruence.
  - case_decide as E; [|done]. eapply released_set; [exact Hs|exact Hi|by rewrite releases_run|congruence].
  - eapply (released_set (set_registered s)); [exact Hs|exact Hi|exact Em|]. case_decide; congruence.
  - case_decide as E; [|done]. eapply released_set; [exact Hs|exact Hi|by rewrite releases_run|congruence].
  - eapply (released_set (set_accepted s)); [exact Hs|exact Hi|exact Em|]. case_decide; congruence.
  - case_decide as E; [|done]. eapply released_set; [exact Hs|exact Hi|by rewrite releases_run|congruence].
  - destruct (instr_releases t) as [n|] eqn:Et; [|discriminate Hk]. cbn in Hk. injection Hk as Hk.
    pose proof (sum_insert weight (threads s) i _ rest Hi) as E. rewrite (weight_eq _ _ Hk'), (weight_eq _ _ Em) in E.
    split; cbn [dones threads set_thread set_threads].
    + apply Forall_app. split; [apply Forall_insert; [done|by rewrite Em]|]. constructor; [|done]. by rewrite releases_run, Et.
    + rewrite map_app, list_sum_app. cbn [map]. rewrite (weight_eq (map Run t) _ (eq_trans (releases_run t) Et)). cbn. lia.
  - case_decide as Et; [|done]. injection Hk as Hk.
    pose proof (sum_insert weight (threads s) i _ rest Hi) as E. rewrite (weight_eq _ _ Hk'), (weight_eq _ _ Em) in E.
    split; cbn [dones threads set_thread set_threads].
    + apply Forall_app. split; [apply Forall_insert; [done|by rewrite Em]|]. constructor; [|done]. by rewrite releases_run, Et.
    + rewrite map_app, list_sum_app. cbn [map]. rewrite (weight_eq (map Run t) _ (eq_trans (releases_run t) Et)). cbn. lia.
  - case_decide; [|done]. eapply released_set; [exact Hs|exact Hi|exact Em|congruence].
  - split; cbn [dones threads set_threads].
    + apply Forall_app. split; [done|]. constructor; [|done]. by rewrite releases_run, Hc.
    + rewrite map_app, list_sum_app. cbn [map]. rewrite (weight_eq _ _ (eq_trans (releases_run (close srv)) Hc)). cbn. lia.
Qed.

(** *** The plugins are told at most once *)

Definition modest (t : list instr) : bool := forallb (fun l => (occurs OnClose l <=? 1)%nat) (t ≫= instr_owned).
Definition silent (t : list instr) : bool := modest t && (occurs OnClose (t ≫= instr_acts) =? 0)%nat.

Definition op_modest (o : op) : bool :=
  match o with
  | Run i => modest [i]
  | Store => true
  | Upgrade r | Register r | OnAccept r => silent r
  | Spawn t | SpawnMaybe t => modest t
  end.

Definition is_store (o : op) : bool := match o with Store => true | _ => false end.
Definition notices (t : list op) : nat := (occurs OnClose (acts t) + length (List.filter is_store t))%nat.

Definition one_notice (s : conn) : Prop :=
  Forall (fun t => forallb op_modest t = true) (threads s) /\
  (oncloses s + list_sum (map notices (threads s)) + (if table s then 1 else 0) <= 1)%nat.

Lemma notices_cons o t : notices (o :: t) = (notices [o] + notices t)%nat.
Proof.
  unfold notices. rewrite !acts_cons, !occurs_app. change (acts []) with (@nil act). rewrite occurs_nil.
  cbn [List.filter]. destruct (is_store o); cbn [length]; lia.
Qed.

Lemma notices_run t : notices (map Run t) = occurs OnClose (t ≫= instr_acts).
Proof.
  unfold notices. rewrite acts_run. replace (length (List.filter is_store (map Run t))) with 0%nat; [lia|]. by induction t.
Qed.

Lemma notices_do_app l t : notices (map (fun a => Run (Do a)) l ++ t) = (occurs OnClose l + notices t)%nat.
Proof.
  unfold notices. rewrite acts_app, acts_do, occurs_app, List.filter_app, length_app.
  replace (length (List.filter is_store (map (fun a => Run (Do a)) l))) with 0%nat; [lia|]. by induction l.
Qed.

Lemma modest_run t : forallb op_modest (map Run t) = modest t.
Proof.
  unfold modest. induction t as [|i t IH]; [done|]. cbn [map forallb]. rewrite IH. unfold op_modest, modest. csimpl.
  by rewrite app_nil_r, forallb_app.
Qed.

Lemma modest_do l : forallb op_modest (map (fun a => Run (Do a)) l) = true.
Proof. by induction l. Qed.

(** A script is replaced; what it may still notify and the table's entry do not grow together. *)
Lemma one_notice_set s u i t t' :
  one_notice s -> threads s !! i = Some t -> threads u = threads s -> forallb op_modest t' = true ->
  (oncloses u + notices t' + (if table u then 1 else 0) <= oncloses s + notices t + (if table s then 1 else 0))%nat ->
  one_notice (set_thread u i t').
Proof.
  intros [Hf Hn] Hi Eu Ht' Hle. pose proof (sum_insert notices (threads s) i t t' Hi) as E.
  split; cbn [threads set_thread set_threads oncloses table]; rewrite Eu; [by apply Forall_insert|lia].
Qed.

Lemma one_notice_spawn s i o t rest :
  one_notice s -> threads s !! i = Some (o :: rest) -> o = Spawn t \/ o = SpawnMaybe t ->
  one_notice (set_threads s (<[i := rest]> (threads s) ++ [map Run t])).
Proof.
  intros [Hf Hn] Hi Ho. pose proof (Forall_lookup_1 _ _ _ _ Hf Hi) as Hm. cbn [forallb] in Hm.
  apply andb_true_iff in Hm as [Hm1 Hm]. assert (modest t = true) as Ht by (by destruct Ho; subst).
  pose proof (sum_insert notices (threads s) i _ rest Hi) as E. rewrite (notices_cons o) in E.
  assert (notices [o] = occurs OnClose (t ≫= instr_acts)) as Eo.
  { destruct Ho; subst o; unfold notices; rewrite acts_cons; cbn [op_acts acts mbind list_bind List.filter is_store length];
      rewrite app_nil_r; lia. }
  split; cbn [threads set_threads oncloses table].
  - apply Forall_app. split; [by apply Forall_insert|]. constructor; [by rewrite modest_run|done].
  - rewrite map_app, list_sum_app. cbn [map]. rewrite notices_run. cbn. lia.
Qed.

Lemma one_notice_step srv early s s' :
  silent (close srv) = true -> one_notice s -> step srv early s s' -> one_notice s'.
Proof.
  intros Hc Hs Hstep. pose proof Hs as [Hf Hn].
  destruct Hstep as [i a rest Hi|i l rest Hi Ht|i l rest Hi Ht|i rest Hi|i r rest Hi|i r rest Hi|i r rest Hi|i r rest Hi
    |i r rest Hi|i r rest Hi|i t rest Hi|i t rest Hi|i t rest Hi|Ht _];
    try (pose proof (Forall_lookup_1 _ _ _ _ Hf Hi) as Hm; cbn [forallb] in Hm; apply andb_true_iff in Hm as [Ho Hm]).
  - eapply (one_notice_set s); [done|exact Hi|by destruct a|done|]. rewrite (notices_cons (Run (Do a))).
    assert (oncloses (perform a s) = (oncloses s + notices [Run (Do a)])%nat) as ->
      by (destruct a; (exact (eq_sym (Nat.add_0_r _)) || exact (eq_sym (Nat.add_1_r _)))).
    assert (table (perform a s) = table s) as -> by (by destruct a). lia.
  - eapply (one_notice_set s); [done|exact Hi|done|by rewrite forallb_app, modest_do|].
    rewrite notices_do_app, (notices_cons (Run (Delete l))). cbn [oncloses set_table table]. rewrite Ht.
    cbn in Ho. apply andb_true_iff in Ho as [Ho _]. apply Nat.leb_le in Ho. lia.
  - eapply (one_notice_set s); [done|exact Hi|done|done|]. rewrite (notices_cons (Run (Delete l))). lia.
  - eapply (one_notice_set s); [done|exact Hi|done|done|]. rewrite (notices_cons Store). change (notices [Store]) with 1%nat.
    cbn [oncloses set_table table]. destruct (table s); lia.
  - eapply (one_notice_set s); [done|exact Hi|done|done|]. rewrite (notices_cons (Upgrade r)). lia.
  - apply andb_true_iff in Ho as [H1 H2%Nat.eqb_eq]. eapply (one_notice_set s); [done|exact Hi|done|by rewrite modest_run|].
    rewrite notices_run, H2. lia.
  - eapply (one_notice_set s); [done|exact Hi|done|done|]. rewrite (notices_cons (Register r)). cbn [oncloses set_registered table]. lia.
  - apply andb_true_iff in Ho as [H1 H2%Nat.eqb_eq]. eapply (one_notice_set s); [done|exact Hi|done|by rewrite modest_run|].
    rewrite notices_run, H2. lia.
  - eapply (one_notice_set s); [done|exact Hi|done|done|]. rewrite (notices_cons (OnAccept r)). cbn [oncloses set_accepted table]. lia.
  - apply andb_true_iff in Ho as [H1 H2%Nat.eqb_eq]. eapply (one_notice_set s); [done|exact Hi|done|by rewrite modest_run|].
    rewrite notices_run, H2. lia.
  - apply (one_notice_spawn s i (Spawn t) t); [done|done|by left].
  - apply (one_notice_spawn s i (SpawnMaybe t) t); [done|done|by right].
  - eapply (one_notice_set s); [done|exact Hi|done|done|]. rewrite (notices_cons (SpawnMaybe t)). lia.
  - apply andb_true_iff in Hc as [H1 H2%Nat.eqb_eq]. split; cbn [threads set_threads oncloses table].
    + apply Forall_app. split; [done|]. constructor; [by rewrite modest_run|done].
    + rewrite map_app, list_sum_app. cbn [map]. rewrite notices_run, H2. cbn. lia.
Qed.

(** ** Schedules *)

(** A schedule: which script moves and whether its step succeeds, or a
    [CloseSessions] that meets the connection. *)
Inductive choice : Type := Go (i : nat) (ok : bool) | RangeNow.

Definition exec (srv : server) (c : choice) (s : conn) : option conn :=
  match c with
  | RangeNow => if table s then Some (set_threads s (threads s ++ [map Run (close srv)])) else None
  | Go i ok =>
      match threads s !! i with
      | Some (o :: rest) =>
          Some match o with
               | Run (Do a) => set_thread (perform a s) i rest
               | Run (Delete l) =>
                   if table s then set_thread (set_table s false) i (map (fun a => Run (Do a)) l ++ rest) else set_thread s i rest
               | Store => set_thread (set_table s true) i rest
               | Upgrade r => if ok then set_thread s i rest else set_thread s i (map Run r)
               | Register r => if ok then set_thread (set_registered s) i rest else set_thread s i (map Run r)
               | OnAccept r => if ok then set_thread (set_accepted s) i rest else set_thread s i (map Run r)
               | Spawn t => set_threads s (<[i := rest]> (threads s) ++ [map Run t])
               | SpawnMaybe t =>
                   if ok then set_threads s (<[i := rest]> (threads s) ++ [map Run t]) else set_thread s i rest
               end
      | _ => None
      end
  end.

Fixpoint execs (srv : server) (cs : list choice) (s : conn) : option conn :=
  match cs with
  | [] => Some s
  | c :: cs' => exec srv c s ≫= execs srv cs'
  end.

Definition is_range (c : choice) : bool := match c with RangeNow => true | Go _ _ => false end.

Lemma exec_sound srv early c s s' : implb (is_range c) early = true -> exec srv c s = Some s' -> step srv early s s'.
Proof.
  destruct c as [i ok|]; cbn; intros He.
  - destruct (threads s !! i) as [[|o rest]|] eqn:Hi; [done| |done]. intros [= <-].
    destruct o as [[a|l]| |r|r|r|t|t]; try destruct ok; try (econstructor; eassumption).
    all: destruct (table s) eqn:Ht; [by eapply st_loaded|by eapply st_missed].
  - destruct (table s) eqn:Ht; [|done]. intros [= <-]. apply st_range; [done|by left].
Qed.

Lemma execs_sound srv early cs s s' :
  forallb (fun c => implb (is_range c) early) cs = true -> execs srv cs s = Some s' -> star (step srv early) s s'.
Proof.
  revert s. induction cs as [|c cs IH]; intros s; cbn; [intros _ [= ->]; constructor|].
  rewrite andb_true_iff. intros [Hc Hcs].
  destruct (exec srv c s) as [s1|] eqn:E; [|done]. cbn. intros H. econstructor; [by eapply exec_sound|by apply IH].
Qed.

(** ** The three servers *)

Lemma refusal_okb r :
  forallb (fun l => bool_decide (owned_ok 0 0 l)) (r ≫= instr_owned) && (occurs OnClose (r ≫= instr_acts) =? 0)%nat &&
  (occurs Done (r ≫= instr_acts) =? 1)%nat && deletes (map Run r) = true -> refusal_ok r.
Proof.
  rewrite !andb_true_iff, !Nat.eqb_eq. intros [[[H1 H2] H3] H4]. split_and!; try done.
  apply Forall_forall. intros l Hl. rewrite forallb_forall in H1. apply list_elem_of_In, H1, bool_decide_eq_true in Hl. done.
Qed.

Lemma script_okb n d t :
  forallb op_settled t && forallb (fun l => bool_decide (owned_ok n d l)) (owned_of t) = true -> script_ok n d t.
Proof.
  rewrite andb_true_iff. intros [H1 H2]. split; [done|].
  apply Forall_forall. intros l Hl. rewrite forallb_forall in H2. apply list_elem_of_In, H2, bool_decide_eq_true in Hl. done.
Qed.

Lemma websocket_disciplined :
  disciplined websocket 0 [Upgrade [Do Done]] ws_refused ws_refused
    [Spawn (ws_closeSession ++ [Do Done]); SpawnMaybe ws_closeSession].
Proof. split; [reflexivity|by right|by apply refusal_okb|by apply refusal_okb|by apply script_okb|by split_and!|].
  split; [|reflexivity]. apply Forall_singleton. by split_and!; [| |left].
Qed.

Lemma grpcweb_disciplined :
  disciplined grpcweb 1 [Upgrade [Do Done]] grpc_refused grpc_refused
    [Spawn grpc_closeWebSocketSession; SpawnMaybe grpc_closeWebSocketSession].
Proof. split; [reflexivity|by right|by apply refusal_okb|by apply refusal_okb|by apply script_okb|by split_and!|].
  split; [|reflexivity]. apply Forall_singleton. by split_and!; [| |left].
Qed.

Lemma quic_disciplined :
  disciplined quic 0 [] (quic_discardSession ++ [Do Done]) (quic_discardSession ++ [Do Done])
    (map Run (quic_closeSession ++ [Do Done])).
Proof. split; [reflexivity|by left|by apply refusal_okb|by apply refusal_okb|by apply script_okb|by split_and!|].
  split; [|reflexivity]. apply Forall_singleton. by split_and!; [| |left].
Qed.

Inductive stored : server -> Prop :=
| stored_ws : stored websocket
| stored_grpc : stored grpcweb
| stored_quic : stored quic.

Lemma stored_disciplined srv : stored srv -> exists d pre r1 r2 after, disciplined srv d pre r1 r2 after.
Proof.
  intros []; do 5 eexists; [apply websocket_disciplined|apply grpcweb_disciplined|apply quic_disciplined].
Qed.

(** C23: Whatever order the goroutines of a connection run in, and whichever step
    of its setup fails, if [CloseSessions] only meets it once the plugins have
    accepted it then, when all have returned, it is in neither table, its
    admission slot was given back exactly once, and the plugins were told of its
    end exactly once if they had accepted it and never otherwise. *)
Theorem stored_session_settles srv s :
  stored srv -> star (step srv false) (admitted srv) s -> at_rest s ->
  table s = false /\ registered s = false /\ dones s = 1%nat /\ oncloses s = if accepted s then 1%nat else 0%nat.
Proof.
  intros Hsrv Hs. destruct (stored_disciplined srv Hsrv) as (d & pre & r1 & r2 & after & Hd).
  apply (calm_rest srv d pre r1 r2 after Hd).
  eapply (star_invariant (step srv false) (calm srv d r1 r2 after)); [|exact Hs|apply calm_init].
  intros u u' Hu Hstep. by eapply calm_step.
Qed.

(** Even if [CloseSessions] meets a connection in the middle of its setup the
    plugins are never told twice of its end, and the WebSocket and QUIC servers
    give its slot back exactly once. *)
Theorem stored_session_once srv s :
  stored srv -> star (step srv true) (admitted srv) s ->
  (oncloses s <= 1)%nat /\ (srv <> grpcweb -> at_rest s -> dones s = 1%nat).
Proof.
  intros Hsrv Hs. split.
  - assert (one_notice s) as [_ H].
    { eapply (star_invariant (step srv true) one_notice); [|exact Hs|].
      - intros u u' Hu Hstep. eapply one_notice_step; [|exact Hu|exact Hstep]. by destruct Hsrv.
      - destruct Hsrv; (split; [repeat constructor|vm_compute; lia]). }
    destruct (table s); lia.
  - intros Hne Hr. assert (released s) as [_ H].
    { eapply (star_invariant (step srv true) released); [|exact Hs|].
      - intros u u' Hu Hstep. eapply released_step; [|exact Hu|exact Hstep]. by destruct Hsrv.
      - destruct Hsrv; [|done|]; (split; [constructor; [by eexists|constructor]|reflexivity]). }
    assert (list_sum (map weight (threads s)) = 0%nat) as E; [|lia].
    clear -Hr. unfold at_rest in Hr. induction Hr as [|t ts -> _ IH]; [done|]. exact IH.
Qed.

(** The gRPC-Web server can give the slot of a connection back twice: when
    [CloseSessions] closes it before the plugins refuse it, the close releases
    it and so does the refusal, and the plugins are told of the end of a session
    they never accepted. *)
Theorem grpcweb_releases_twice :
  exists s, star (step grpcweb true) (admitted grpcweb) s /\ at_rest s /\ dones s = 2%nat /\
    accepted s = false /\ oncloses s = 1%nat.
Proof.
  destruct (execs grpcweb
    [Go 0 true; Go 0 true; Go 0 true; RangeNow; Go 1 true; Go 1 true; Go 1 true; Go 1 true; Go 1 true; Go 0 false; Go 0 true; Go 0 true]
    (admitted grpcweb)) as [s|] eqn:E; [|vm_compute in E; discriminate E].
  exists s. split; [by eapply execs_sound; [|exact E]|]. vm_compute in E. injection E as <-. split; [by repeat constructor|done].
Qed.

(** A close before the registration leaves a closed session registered, and its
    plugins are told of its end before they accept it. *)
Definition ws_early : list choice :=
  [Go 0 true; Go 0 true; RangeNow; Go 1 true; Go 1 true; Go 1 true; Go 1 true; Go 0 true; Go 0 true; Go 0 true; Go 2 true; Go 2 true; Go 0 false].

Example ws_early_leaves_registered :
  match execs websocket ws_early (admitted websocket) with
  | Some s => (forallb (fun t => match t with [] => true | _ => false end) (threads s), registered s, sock_closed s, accepted s, oncloses s)
  | None => (false, false, false, false, 0%nat)
  end = (true, true, true, true, 1%nat).
Proof. vm_compute. reflexivity. Qed.

(** ** Witnesses *)

(** A QUIC connection that was served and ended. *)
Definition quic_served : conn := mkConn false false true true 1 1 [[]].

Lemma quic_served_reached early : star (step quic early) (admitted quic) quic_served.
Proof.
  apply (execs_sound quic early [Go 0 true; Go 0 true; Go 0 true; Go 0 true; Go 0 true; Go 0 true; Go 0 true; Go 0 true]); reflexivity.
Qed.

Lemma stored_session_settles_witness : table quic_served = false /\ registered quic_served = false /\ dones quic_served = 1%nat.
Proof.
  destruct (stored_session_settles quic quic_served stored_quic (quic_served_reached false) ltac:(by repeat constructor))
    as (H1 & H2 & H3 & _).
  split; [exact H1|]. split; [exact H2|exact H3].
Defined.

Lemma stored_session_once_witness : (oncloses quic_served <= 1)%nat /\ dones quic_served = 1%nat.
Proof.
  destruct (stored_session_once quic quic_served stored_quic (quic_served_reached true)) as [H1 H2].
  split; [exact H1|]. apply H2; [discriminate|by repeat constructor].
Defined.
