(* ===== verification/HttpServer.v ===== *)
(** * HttpServer: [internal/transport/http]

    One request of the HTTP transport: the session made for it, the plugins, the
    handler, and the response with the statuses of every way out; and the CORS
    wrapper.  The user's handler is a program that may send, look at the
    outcome, and end with a result or a panic. *)
From S2P Require Import Prelude Bytes Core Duration Config Shared.
Local Open Scope Z_scope.
Local Open Scope list_scope.

(** ** Responses *)

(** A [net/http] response: the status once written, and the body. *)
Record response : Type := mkResponse { rs_status : option Z; rs_body : bytes }.

Definition fresh : response := mkResponse None [].

(** The first [WriteHeader] counts. *)
Definition WriteHeader (code : Z) (r : response) : response :=
  match rs_status r with None => mkResponse (Some code) (rs_body r) | Some _ => r end.

(** [Write] commits 200 if nothing was written; no body under 204 and 304. *)
Definition Write (data : bytes) (r : response) : option error * response :=
  let r := WriteHeader 200 r in
  if bool_decide (rs_status r = Some 204) || bool_decide (rs_status r = Some 304) then
    (Some (ErrMsg "http: request method or response status code does not allow body"), r)
  else (None, mkResponse (rs_status r) (rs_body r ++ data)).

(** [http.Error] *)
Definition Error_ (msg : bytes) (code : Z) (r : response) : response :=
  (Write (msg ++ [10]) (WriteHeader code r)).2.

(** What the client sees in the end. *)
Definition seen (r : response) : Z * bytes := (default 200 (rs_status r), rs_body r).

Definition StatusText (code : Z) : bytes :=
  if code =? 400 then B "Bad Request" else if code =? 403 then B "Forbidden"
  else if code =? 405 then B "Method Not Allowed" else if code =? 413 then B "Request Entity Too Large"
  else if code =? 500 then B "Internal Server Error" else if code =? 503 then B "Service Unavailable" else [].

(** ** The user's handler *)

(** A handler sends and goes on with the outcome of the send, returns, or panics. *)
Inductive handler_prog : Type :=
| HEnd (o : outcome (option error))
| HSend (payload : bytes) (k : option error -> handler_prog).

(** ** The session *)

(** The response recorder: its own record of the status beside the response. *)
(* go: internal/transport/http/session.go:78-84 (responseRecorder) *)
Record recorder : Type := mkRecorder { rec_status : Z; rec_wrote : bool; rec_inner : response }.

(* go: internal/transport/http/session.go:86-93 (WriteHeader) *)
Definition rec_WriteHeader (code : Z) (r : recorder) : recorder :=
  if rec_wrote r then r else mkRecorder code true (WriteHeader code (rec_inner r)).

(* go: internal/transport/http/session.go:95-100 (Write) *)
Definition rec_Write (data : bytes) (r : recorder) : option error * recorder :=
  let r := rec_WriteHeader 200 r in
  let '(err, inner) := Write data (rec_inner r) in
  (err, mkRecorder (rec_status r) (rec_wrote r) inner).

(* go: internal/transport/http/session.go:14-25 (session) *)
Record session : Type := mkSession { s_id : Z; s_state : Z; s_response : recorder }.

(* go: internal/transport/http/session.go:27-40 (newSession) *)
Definition newSession (id : Z) (w : recorder) : session := mkSession id StateActive w.

(* go: internal/transport/http/session.go:57-63 (Send) *)
Definition Send (payload : bytes) (s : session) : option error * session :=
  if negb (s_state s =? StateActive) then (Some ErrSessionClosed, s)
  else let '(err, w) := rec_Write payload (s_response s) in (err, mkSession (s_id s) (s_state s) w).

(* go: internal/transport/http/session.go:65-71 (Close) *)
Definition Close (s : session) : session := mkSession (s_id s) StateClosed (s_response s).

(** The handler's program against a session. *)
Fixpoint run_handler (p : handler_prog) (s : session) : outcome (option error) * session :=
  match p with
  | HEnd o => (o, s)
  | HSend payload k => let '(err, s) := Send payload s in run_handler (k err) s
  end.

(** ** The request *)

(** The runtime's answers to one request. *)
Record answers : Type := mkAnswers {
  an_id : Z;
  an_register : option error;
  an_accept : option error;
  an_message : bytes -> result error bytes
}.

Inductive event : Type :=
| EvRegister | EvUnregister | EvClose | EvAccept | EvMessage (body : bytes) | EvHandle (body : bytes) | EvOnClose.

#[export] Instance event_eq_dec : EqDecision event.
Proof. solve_decision. Defined.

Section request.
(** The text of an error: [err.Error()]. *)
Variable error_text : error -> bytes.
Variable Handler : bytes -> handler_prog.

(** The deferred cleanup. *)
(* go: internal/transport/http/server.go:206-212 (handleWithSession) *)
Definition cleanup (accepted : bool) : list event :=
  [EvUnregister; EvClose] ++ (if accepted then [EvOnClose] else []).

(** After a successful registration: the response and the calls up to the
    cleanup. *)
(* go: internal/transport/http/server.go:213-239 (handleWithSession) *)
Definition serve_session (a : answers) (body : bytes) (w : response) : response * list event :=
  match an_accept a with
  | Some _ => (Error_ (StatusText 403) 403 w, [EvAccept] ++ cleanup false)
  | None =>
      match an_message a body with
      | Err e =>
          (if errors_Is e ErrPluginDrop then WriteHeader 204 w else Error_ (StatusText 400) 400 w,
           [EvAccept; EvMessage body] ++ cleanup true)
      | Ok payload =>
          let sess := newSession (an_id a) (mkRecorder 200 false w) in
          let '(err, sess) := CallHandler (run_handler (Handler payload)) sess in
          let w := rec_inner (s_response sess) in
          (match err with Some _ => Error_ (StatusText 500) 500 w | None => w end,
           [EvAccept; EvMessage body; EvHandle payload] ++ cleanup true)
      end
  end.

(** [read] is the limited body or the failure of reading it. *)
(* go: internal/transport/http/server.go:187-239 (handleWithSession) *)
Definition handleWithSession (read : option bytes) (a : answers) : response * list event :=
  match read with
  | None => (Error_ (StatusText 413) 413 fresh, [])
  | Some body =>
      match an_register a with
      | Some e => (Error_ (error_text e) 503 fresh, [EvRegister])
      | None => let '(w, tr) := serve_session a body fresh in (w, EvRegister :: tr)
      end
  end.

(** ** CORS *)

Definition add_cors (st : gset bytes * bool) (o : bytes) : gset bytes * bool :=
  let o := TrimSpace o in
  if empty o then st else if bool_decide (o = B "*") then (st.1, true) else ({[o]} ∪ st.1, st.2).

(* go: internal/transport/http/server.go:109-122 (corsHandler) *)
Definition cors_set (origins : list bytes) : gset bytes * bool := fold_left add_cors origins (∅, false).

(** The headers the wrapper sets. *)
Record cors : Type := mkCors { allow_origin : option bytes; vary_origin : bool }.

(* go: internal/transport/http/server.go:124-136 (corsHandler) *)
Definition cors_headers (origins : list bytes) (origin : bytes) : cors :=
  let '(allowed, allowAll) := cors_set origins in
  if empty origin then mkCors None false
  else if allowAll then mkCors (Some (B "*")) false
  else if decide (origin ∈ allowed) then mkCors (Some origin) true
  else mkCors None false.

(** The second component: whether the request goes on to the handler. *)
(* go: internal/transport/http/server.go:123-143 (corsHandler) *)
Definition corsHandler (origins : list bytes) (options : bool) (origin : bytes) : cors * bool :=
  let h := cors_headers origins origin in
  (h, negb (options && match allow_origin h with Some _ => true | None => false end)).

(** ** What a handler's program does to a live session *)

(** The payloads it sends when every send succeeds, and how it then ends. *)
Fixpoint sends (p : handler_prog) : list bytes :=
  match p with HEnd _ => [] | HSend payload k => payload :: sends (k None) end.
Fixpoint ends (p : handler_prog) : outcome (option error) :=
  match p with HEnd o => o | HSend _ k => ends (k None) end.

Definition live (s : session) : Prop :=
  s_state s = StateActive /\
  ((rec_wrote (s_response s) = false /\ rs_status (rec_inner (s_response s)) = None) \/
   (rec_wrote (s_response s) = true /\ rs_status (rec_inner (s_response s)) = Some 200)).

Lemma Send_live payload s :
  live s -> exists s', Send payload s = (None, s') /\ live s' /\
    rs_status (rec_inner (s_response s')) = Some 200 /\
    rs_body (rec_inner (s_response s')) = rs_body (rec_inner (s_response s)) ++ payload.
Proof.
  intros [Ha Hw]. unfold Send. rewrite Ha. cbn [negb]. destruct s as [id st [rst wr [status body]]]. cbn in *.
  destruct Hw as [[-> ->]|[-> ->]]; cbn; (eexists; split; [reflexivity|]); unfold live; cbn; auto.
Qed.

Lemma run_handler_live p s :
  live s -> exists s', run_handler p s = (ends p, s') /\ live s' /\
    rs_status (rec_inner (s_response s')) =
      (match sends p with [] => rs_status (rec_inner (s_response s)) | _ => Some 200 end) /\
    rs_body (rec_inner (s_response s')) = rs_body (rec_inner (s_response s)) ++ concat (sends p).
Proof.
  revert s. induction p as [o|payload k IH]; intros s Hs; cbn [run_handler sends ends].
  - exists s. split; [done|]. split; [done|]. split; [done|]. by rewrite app_nil_r.
  - destruct (Send_live payload s Hs) as (s1 & -> & H1 & E1 & E2). destruct (IH None s1 H1) as (s2 & -> & H2 & E3 & E4).
    exists s2. split; [done|]. split; [done|]. rewrite E3, E4, E1, E2. cbn [concat]. rewrite <- app_assoc.
    by destruct (sends (k None)).
Qed.

(** How the call of the handler came out. *)
Definition failed (o : outcome (option error)) : bool :=
  match o with Returned None => false | _ => true end.

Lemma call_handler_live p id :
  exists s, CallHandler (run_handler p) (newSession id (mkRecorder 200 false fresh)) =
    ((match ends p with Returned e => e | Panicked => Some ErrHandlerPanic end), s) /\
    rec_inner (s_response s) = mkResponse (match sends p with [] => None | _ => Some 200 end) (concat (sends p)).
Proof.
  destruct (run_handler_live p (newSession id (mkRecorder 200 false fresh))) as (s & E & _ & E1 & E2).
  { split; [done|]. by left. }
  exists s. unfold CallHandler. rewrite E. split; [by destruct (ends p)|].
  destruct (rec_inner (s_response s)) as [st bd]. cbn in *. by rewrite E1, E2.
Qed.

(** ** CORS origins *)

Lemma add_cors_spec st x :
  ((add_cors st x).2 = true <-> st.2 = true \/ TrimSpace x = B "*") /\
  (forall o, o ∈ (add_cors st x).1 <-> o ∈ st.1 \/ (o = TrimSpace x /\ o <> [] /\ o <> B "*")).
Proof.
  unfold add_cors. destruct (empty (TrimSpace x)) eqn:Ee; [apply empty_true in Ee|apply empty_false in Ee].
  - rewrite Ee. split; [split; [by left|by intros [?|?]]|]. intros o. split; [by left|]. by intros [?|(-> & ? & _)].
  - case_bool_decide as Es; cbn [fst snd].
    + split; [split; [by right|done]|]. intros o. split; [by left|]. by intros [?|(-> & _ & ?)].
    + split; [split; [by left|by intros [?|?]]|]. intros o. rewrite elem_of_union, elem_of_singleton.
      split; [intros [->|?]; [by right|by left]|intros [?|(-> & _)]; [by right|by left]].
Qed.

Lemma cors_set_spec l :
  ((cors_set l).2 = true <-> B "*" ∈ map TrimSpace l) /\
  (forall o, o ∈ (cors_set l).1 <-> o <> [] /\ o <> B "*" /\ o ∈ map TrimSpace l).
Proof.
  unfold cors_set. induction l as [|x l [IH1 IH2]] using rev_ind; [split; [|intros o]; cbn [map fold_left fst snd]; set_solver|].
  rewrite fold_left_app, map_app. cbn [fold_left map]. destruct (add_cors_spec (fold_left add_cors l (∅, false)) x) as [H1 H2].
  rewrite H1, IH1. split; [|intros o; rewrite H2, IH2]; rewrite elem_of_app, list_elem_of_singleton; [split; intros [?|?]; auto|].
  split; [intros [(?&?&?)|(-> & ? & ?)]; auto|]. intros (?&?&[?| ->]); auto.
Qed.

Lemma goes_on_iff (b : bool) (o : option bytes) :
  negb (b && match o with Some _ => true | None => false end) = false <-> b = true /\ is_Some o.
Proof.
  destruct b, o; cbn; unfold is_Some; naive_solver.
Qed.

(** ** Theorems *)

(** Whatever happens to a request, the bookkeeping balances: a session that
    was registered is unregistered and closed exactly once; the plugins are told
    of its end exactly once if they accepted it and never otherwise, as the last
    thing; the handler runs at most once, on what the plugins made of the body,
    and only for an accepted session; a handler that panics changes none of it. *)
Theorem http_session_balanced read a :
  let tr := (handleWithSession read a).2 in
  occurs EvRegister tr = (if read then 1 else 0)%nat /\
  (tr = [] \/ tr = [EvRegister] /\ is_Some (an_register a) \/
   exists mid, an_register a = None /\ tr = EvRegister :: EvAccept :: mid ++ cleanup (bool_decide (an_accept a = None)) /\
     (mid = [] \/ exists body, mid = [EvMessage body] \/
        exists payload, mid = [EvMessage body; EvHandle payload] /\ an_accept a = None /\ an_message a body = Ok payload)).
Proof.
  unfold handleWithSession. destruct read as [body|]; [|by split; [|left]].
  destruct (an_register a) as [e|]; cbn zeta; [split; [done|right; left; split; [done|by eexists]]|].
  unfold serve_session. destruct (an_accept a) as [e|] eqn:Ea.
  { split; [done|]. right. right. exists []. rewrite bool_decide_eq_false_2 by done. split; [done|]. split; [done|by left]. }
  destruct (an_message a body) as [payload|e] eqn:Em.
  - destruct (CallHandler _ _) as [err s]. cbn. split; [done|]. right. right. exists [EvMessage body; EvHandle payload].
    split; [done|]. split; [done|]. right. exists body. right. by exists payload.
  - cbn. split; [done|]. right. right. exists [EvMessage body]. split; [done|]. split; [done|]. right. exists body. by left.
Qed.

(** What the client of an accepted request sees: 204 for a dropped message,
    400 without details for a refused one, otherwise what the handler sent, in
    order, with status 200; a handler that fails or panics without having sent
    gets the client a 500. But one that fails after it has sent leaves status
    200, with the text of the failure appended to the body it had sent. *)
Theorem http_client_sees body a :
  an_register a = None -> an_accept a = None ->
  seen (handleWithSession (Some body) a).1 =
  match an_message a body with
  | Err e => if errors_Is e ErrPluginDrop then (204, []) else (400, B "Bad Request" ++ [10])
  | Ok payload =>
      let p := Handler payload in
      if failed (ends p) then
        match sends p with
        | [] => (500, B "Internal Server Error" ++ [10])
        | _ => (200, concat (sends p) ++ B "Internal Server Error" ++ [10])
        end
      else (200, concat (sends p))
  end.
Proof.
  intros Hr Ha. unfold handleWithSession, serve_session. rewrite Hr, Ha.
  destruct (an_message a body) as [payload|e]; [|by destruct (errors_Is e ErrPluginDrop)].
  destruct (call_handler_live (Handler payload) (an_id a)) as (s & -> & E). rewrite E. cbn zeta.
  unfold failed. destruct (ends (Handler payload)) as [[e|]|], (sends (Handler payload)) as [|x l]; reflexivity.
Qed.

(** A response allows an origin only if the configuration lists it, literally
    or by a star, and then names it and the variation; a preflight is answered
    here exactly for the origins allowed, and every other request goes on. *)
Theorem cors_exact origins options origin :
  let listed o := o <> [] /\ o ∈ map TrimSpace origins in
  let '(h, goes_on) := corsHandler origins options origin in
  (is_Some (allow_origin h) <-> origin <> [] /\ (listed (B "*") \/ (listed origin /\ origin <> B "*"))) /\
  (forall o, allow_origin h = Some o -> o = B "*" \/ o = origin /\ vary_origin h = true) /\
  (goes_on = false <-> options = true /\ is_Some (allow_origin h)).
Proof.
  cbn zeta. unfold corsHandler. split; [|split; [|apply goes_on_iff]]; unfold cors_headers;
    destruct (cors_set_spec origins) as [H1 H2]; destruct (cors_set origins) as [allowed all]; cbn [fst snd] in H1, H2.
  - destruct (empty origin) eqn:Ee; [apply empty_true in Ee|apply empty_false in Ee]; cbn [allow_origin].
    + split; [by intros [? ?]|]. by intros [? _].
    + destruct all; cbn [allow_origin].
      * split; [intros _; split; [done|left; split; [done|by apply H1]]|by eexists].
      * assert (B "*" ∉ map TrimSpace origins) as Hs by (intros H; apply H1 in H; discriminate H).
        destruct (decide (origin ∈ allowed)) as [Hin|Hni]; cbn [allow_origin].
        -- apply H2 in Hin as (? & ? & ?). split; [intros _; split; [done|by right]|by eexists].
        -- split; [by intros [? ?]|]. intros (_ & [(_ & ?)|((? & ?) & ?)]); [done|]. destruct Hni. by apply H2.
  - intros o. destruct (empty origin); [done|]. destruct all; cbn; [intros [= <-]; by left|].
    destruct (decide _); cbn; [|done]. intros [= <-]. by right.
Qed.
End request.

(** ** A refused connection *)

(** The bytes of the request that are there, read 512 at a time; a read that finds
    none ends with its deadline.  What is left unread when the connection closes
    makes the peer's stack discard the answer. *)
Fixpoint drain_reads (reads : nat) (pending : nat) : nat :=
  match reads with
  | O => pending
  | S reads => match pending with O => 0 | _ => drain_reads reads (pending - 512) end
  end%nat.

Definition unavailable : bytes :=
  B "HTTP/1.1 503 Service Unavailable" ++ [13; 10] ++ B "Connection: close" ++ [13; 10] ++ B "Content-Length: 0" ++ [13; 10; 13; 10].

(** The answer, and what stays unread. *)
(* go: internal/transport/http/server.go:258-272 (rejectWithServiceUnavailable) *)
Definition rejectWithServiceUnavailable (pending : nat) : bytes * nat := (unavailable, drain_reads 8 pending).

Lemma drain_reads_left reads pending : drain_reads reads pending = (pending - reads * 512)%nat.
Proof.
  revert pending. induction reads as [|reads IH]; intros pending; cbn [drain_reads]; [lia|].
  destruct pending as [|n]; [lia|]. rewrite IH. lia.
Qed.

(** A refused peer gets its 503, and nothing of its request stays unread if that
    has at most 4096 bytes - eight reads - so it is not reset. *)
Theorem http_reject_drains pending :
  (rejectWithServiceUnavailable pending).1 = unavailable /\
  ((rejectWithServiceUnavailable pending).2 = 0%nat <-> (pending <= 4096)%nat).
Proof. cbn [rejectWithServiceUnavailable fst snd]. split; [done|]. rewrite drain_reads_left. lia. Qed.

(** ** Concrete requests *)

Definition accepting : answers := mkAnswers 1 None None Ok.

(** A handler that streams a part and then fails. *)
Definition streams_then_fails (body : bytes) : handler_prog :=
  HSend (B "part") (fun _ => HEnd (Returned (Some (ErrMsg "backend")))).

Example failure_after_send_is_200 :
  seen (handleWithSession (fun _ => []) streams_then_fails (Some (B "x")) accepting).1 =
  (200, B "partInternal Server Error" ++ [10]).
Proof. vm_compute. reflexivity. Qed.

Lemma http_client_sees_witness :
  seen (handleWithSession (fun _ => []) (fun b => HEnd Panicked) (Some (B "x")) accepting).1 = (500, B "Internal Server Error" ++ [10]).
Proof. rewrite (http_client_sees (fun _ => []) (fun b => HEnd Panicked) (B "x") accepting eq_refl eq_refl). vm_compute. reflexivity. Defined.
