(* ===== verification/GrpcWebServer.v ===== *)
(** * GrpcWebServer: [internal/transport/grpcweb/server.go] (unary calls)

    One gRPC-Web call over HTTP: admission, framing of the request, the session,
    the plugins and the handler, and the framed response with its trailers. The
    WebSocket mode of this server is in [SessionTable]. *)
From S2P Require Import Prelude Bytes Core Duration Config Shared HttpServer GrpcFraming.
Local Open Scope Z_scope.
Local Open Scope list_scope.

(** ** The response and its content type *)

(** The response with the content type it has, or will have once committed. *)
Record writer : Type := mkWriter { w_resp : response; w_ctype : option string }.

Definition grpc_type : string := "application/grpc-web+proto".

(** [Header().Set("content-type", t)]: without effect once the header is sent. *)
Definition set_ctype (t : string) (w : writer) : writer :=
  match rs_status (w_resp w) with None => mkWriter (w_resp w) (Some t) | Some _ => w end.

Definition g_Write (data : bytes) (w : writer) : option error * writer :=
  let '(e, r) := Write data (w_resp w) in (e, mkWriter r (w_ctype w)).

Definition g_Error (msg : bytes) (code : Z) (w : writer) : writer :=
  let w := set_ctype "text/plain; charset=utf-8" w in mkWriter (Error_ msg code (w_resp w)) (w_ctype w).

(** ** The session *)

(* go: internal/transport/grpcweb/session.go:14-26 (session) *)
Record gsession : Type := mkGSession { g_state : Z; g_framed : bool; g_writer : writer }.

(* go: internal/transport/grpcweb/session.go:28-34 (newSession) *)
Definition newGSession (w : writer) (framed : bool) : gsession := mkGSession StateActive framed w.

Definition set_writer (s : gsession) (w : writer) : gsession := mkGSession (g_state s) (g_framed s) w.

(* go: internal/transport/grpcweb/session.go:48-62 (Send) *)
Definition g_Send (payload : bytes) (s : gsession) : option error * gsession :=
  if negb (g_state s =? StateActive) then (Some ErrSessionClosed, s)
  else
    let '(w, data) :=
      if g_framed s then (set_ctype grpc_type (g_writer s), appendDataFrame [] payload) else (g_writer s, payload) in
    let '(e, w) := g_Write data w in
    (e, set_writer s w).

(* go: internal/transport/grpcweb/session.go:64-74 (SendTrailers) *)
Definition SendTrailers (status : Z) (message : bytes) (s : gsession) : option error * gsession :=
  if negb (g_framed s) then (None, s)
  else
    let '(e, w) := g_Write (appendTrailerFrame [] status message) (set_ctype grpc_type (g_writer s)) in
    (e, set_writer s w).

Fixpoint g_run (p : handler_prog) (s : gsession) : outcome (option error) * gsession :=
  match p with
  | HEnd o => (o, s)
  | HSend payload k => let '(err, s) := g_Send payload s in g_run (k err) s
  end.

(** ** The call *)

Record call : Type := mkCall {
  c_post : bool;
  c_admitted : bool;
  c_body : option bytes;
  c_strict : bool;
  c_content_type : bytes;
  c_answers : answers
}.

Inductive gevent : Type := GAcquire | GDone | GSession (e : event).

#[export] Instance gevent_eq_dec : EqDecision gevent.
Proof. solve_decision. Defined.

(* go: internal/transport/grpcweb/framing.go:18-20 (isGRPCWebRequest) *)
Definition isGRPCWebRequest (content_type : bytes) : bool :=
  bool_decide (take 20 (ToLower content_type) = B "application/grpc-web").

Definition start_writer : writer := mkWriter fresh None.

Section call.
Variable error_text : error -> bytes.
Variable Handler : option (bytes -> handler_prog).

(** The handler and the trailers. *)
(* go: internal/transport/grpcweb/server.go:218-240 (handle) *)
Definition invoke (framed : bool) (payload : bytes) (w : writer) : writer * list event :=
  let sess := newGSession w framed in
  match Handler with
  | None => (g_writer (SendTrailers 0 [] sess).2, [])
  | Some h =>
      let '(err, sess) := CallHandler (g_run (h payload)) sess in
      (g_writer (match err with
                 | Some e => SendTrailers 13 (error_text e) sess
                 | None => SendTrailers 0 [] sess
                 end).2, [EvHandle payload])
  end.

(* go: internal/transport/grpcweb/server.go:185-240 (handle) *)
Definition call_session (a : answers) (framed : bool) (body : bytes) (w : writer) : writer * list event :=
  match an_register a with
  | Some e => (g_Error (error_text e) 503 w, [EvRegister])
  | None =>
      match an_accept a with
      | Some _ => (g_Error (StatusText 403) 403 w, [EvRegister; EvAccept] ++ cleanup false)
      | None =>
          match an_message a body with
          | Err e =>
              (if errors_Is e ErrPluginDrop then mkWriter (WriteHeader 204 (w_resp w)) (w_ctype w)
               else g_Error (StatusText 400) 400 w,
               [EvRegister; EvAccept; EvMessage body] ++ cleanup true)
          | Ok payload =>
              let '(w, tr) := invoke framed payload w in
              (w, [EvRegister; EvAccept; EvMessage body] ++ tr ++ cleanup true)
          end
      end
  end.

(** The payload of the request: [None] for a framing error. *)
(* go: internal/transport/grpcweb/server.go:169-184 (handle) *)
Definition request_payload (c : call) (body : bytes) : option (bytes * bool) :=
  let framed := isGRPCWebRequest (c_content_type c) || c_strict c in
  if framed then
    match parseRequestPayload body (c_strict c) with
    | Some (Ok (body, _)) => Some (body, framed)
    | _ => None
    end
  else Some (body, framed).

(* go: internal/transport/grpcweb/server.go:149-240 (handle) *)
Definition handle (c : call) : writer * list gevent :=
  let w := start_writer in
  if negb (c_post c) then (g_Error (StatusText 405) 405 w, [])
  else if negb (c_admitted c) then (g_Error (B "server busy") 503 w, [])
  else
    let '(w, tr) :=
      match c_body c with
      | None => (g_Error (StatusText 413) 413 w, [])
      | Some body =>
          match request_payload c body with
          | None => (g_Error (StatusText 400) 400 w, [])
          | Some (body, framed) => call_session (c_answers c) framed body w
          end
      end in
    (w, GAcquire :: map GSession tr ++ [GDone]).

(** ** Framed responses *)

(** The text of the trailers. *)
Definition trailer_text (status : Z) (message : bytes) : bytes :=
  bytes_of_string "grpc-status: " ++ bytes_of_string (pretty status) ++ crlf ++
  (match message with [] => [] | _ => bytes_of_string "grpc-message: " ++ encodeGRPCMessage message ++ crlf end).

Lemma appendTrailerFrame_frame status message :
  len (trailer_text status message) < 2 ^ 32 ->
  appendTrailerFrame [] status message = frame_bytes (trailerFrameFlag, trailer_text status message).
Proof.
  intros H. unfold appendTrailerFrame, frame_bytes. fold (trailer_text status message). cbn [fst snd app].
  rewrite uwrap_small; [done|]. split; [apply len_nonneg|done].
Qed.

Lemma appendDataFrame_frame payload :
  len payload < 2 ^ 32 -> appendDataFrame [] payload = frame_bytes (dataFrameFlag, payload).
Proof.
  intros H. unfold appendDataFrame, frame_bytes. cbn [fst snd app]. rewrite uwrap_small; [done|]. split; [apply len_nonneg|done].
Qed.

(** What a send puts on the wire. *)
Definition wire (framed : bool) (payload : bytes) : bytes := if framed then appendDataFrame [] payload else payload.

Lemma wire_frames ps :
  Forall (fun p => len p < 2 ^ 32) ps -> ps ≫= wire true = map (pair dataFrameFlag) ps ≫= frame_bytes.
Proof.
  induction 1 as [|p l Hp _ IH]; [done|].
  change (appendDataFrame [] p ++ (l ≫= wire true) =
          frame_bytes (dataFrameFlag, p) ++ (map (pair dataFrameFlag) l ≫= frame_bytes)).
  by rewrite IH, appendDataFrame_frame.
Qed.

Lemma frames_data_app l k : frames_data (map (pair dataFrameFlag) l ++ k) = concat l ++ frames_data k.
Proof.
  induction l as [|x l IH]; [done|]. unfold frames_data in *. cbn [map app]. csimpl. rewrite IH. cbn.
  by rewrite app_assoc.
Qed.

(** A live framed session: nothing committed, or 200 with the gRPC-Web type. *)
Definition open_call (framed : bool) (s : gsession) : Prop :=
  g_state s = StateActive /\ g_framed s = framed /\
  (rs_status (w_resp (g_writer s)) = None \/
   rs_status (w_resp (g_writer s)) = Some 200 /\ (framed = true -> w_ctype (g_writer s) = Some grpc_type)).

Lemma g_Write_open framed s data :
  open_call framed s ->
  let w := if framed then set_ctype grpc_type (g_writer s) else g_writer s in
  exists w', g_Write data w = (None, w') /\ rs_status (w_resp w') = Some 200 /\
    rs_body (w_resp w') = rs_body (w_resp (g_writer s)) ++ data /\ (framed = true -> w_ctype w' = Some grpc_type) /\
    open_call framed (set_writer s w').
Proof.
  intros (Ha & Hf & Hw). destruct s as [st fr [[status body] ct]]. cbn in *. subst st fr.
  destruct framed, Hw as [-> |[-> Hc]]; cbn; eexists; (split; [reflexivity|]); unfold open_call; cbn;
    split_and!; try done; try exact Hc; right; (split; [done|]); (done || exact Hc).
Qed.

Lemma g_run_open framed p s :
  open_call framed s -> exists s', g_run p s = (ends p, s') /\ open_call framed s' /\
    rs_body (w_resp (g_writer s')) = rs_body (w_resp (g_writer s)) ++ (sends p ≫= wire framed).
Proof.
  revert s. induction p as [o|payload k IH]; intros s Hs; cbn [g_run sends ends].
  - exists s. split; [done|]. split; [done|]. by rewrite app_nil_r.
  - pose proof Hs as (Ha & Hf & _). unfold g_Send. rewrite Ha, Hf. cbn [negb].
    destruct (g_Write_open framed s (wire framed payload) Hs) as (w' & E & _ & Eb & _ & Ho). unfold wire in E.
    change (StateActive =? StateActive) with true. cbn [negb].
    destruct framed; rewrite E; destruct (IH None _ Ho) as (s2 & -> & H2 & E2); exists s2;
      (split; [done|]; split; [done|]); rewrite E2; cbn [set_writer g_writer]; rewrite Eb, <- app_assoc; done.
Qed.

(** ** Theorems *)

Definition status_of (o : outcome (option error)) : Z := if failed o then 13 else 0.
Definition message_of (o : outcome (option error)) : bytes :=
  match o with
  | Returned None => []
  | Returned (Some e) => error_text e
  | Panicked => error_text ErrHandlerPanic
  end.

(** What the handler sends and how it ends, on a payload. *)
Definition answer_of (payload : bytes) : list bytes * outcome (option error) :=
  match Handler with None => ([], Returned None) | Some h => (sends (h payload), ends (h payload)) end.

Lemma invoke_spec framed payload :
  let '(ps, o) := answer_of payload in
  let w := (invoke framed payload start_writer).1 in
  rs_body (w_resp w) = (ps ≫= wire framed) ++ (if framed then appendTrailerFrame [] (status_of o) (message_of o) else []) /\
  default 200 (rs_status (w_resp w)) = 200 /\ (framed = true -> w_ctype w = Some grpc_type).
Proof.
  assert (open_call framed (newGSession start_writer framed)) as H0 by (split; [done|]; split; [done|]; by left).
  assert (forall s st m, open_call framed s ->
    let w := g_writer (SendTrailers st m s).2 in
    rs_body (w_resp w) = rs_body (w_resp (g_writer s)) ++ (if framed then appendTrailerFrame [] st m else []) /\
    default 200 (rs_status (w_resp w)) = 200 /\ (framed = true -> w_ctype w = Some grpc_type)) as Htr.
  { intros s st m Hs. pose proof Hs as (_ & Hf & Hw). unfold SendTrailers. rewrite Hf. destruct framed; cbn [negb].
    - destruct (g_Write_open true s (appendTrailerFrame [] st m) Hs) as (w' & -> & Es & Eb & Ec & _). cbn.
      rewrite Es, Eb. split; [done|]. split; [done|]. exact Ec.
    - cbn. rewrite app_nil_r. split; [done|]. split; [|done]. by destruct Hw as [-> |[-> _]]. }
  unfold answer_of, invoke. destruct Handler as [h|]; [|exact (Htr _ 0 [] H0)].
  unfold CallHandler. destruct (g_run_open framed (h payload) _ H0) as (s & -> & Hs & Eb). cbn in Eb.
  unfold status_of, message_of, failed. rewrite <- Eb. destruct (ends (h payload)) as [[e|]|]; apply Htr; exact Hs.
Qed.

(** C26: A gRPC-Web call that reaches its handler is always answered with a
    well-formed gRPC-Web response: status 200, the gRPC-Web content type, and a
    body that is exactly a data frame for each payload the handler sent, in
    order, and one trailer frame, with status 0 if the handler succeeded and 13
    with its message if it failed or panicked; a client that parses the body
    gets back the payloads. *)
Theorem grpc_call_answered c body payload framed :
  c_post c = true -> c_admitted c = true -> c_body c = Some body ->
  isGRPCWebRequest (c_content_type c) || c_strict c = true ->
  request_payload c body = Some (payload, framed) ->
  an_register (c_answers c) = None -> an_accept (c_answers c) = None ->
  forall msg, an_message (c_answers c) payload = Ok msg ->
  let '(ps, o) := answer_of msg in
  Forall (fun p => len p < 2 ^ 32) ps -> len (trailer_text (status_of o) (message_of o)) < 2 ^ 32 ->
  let w := (handle c).1 in
  let fs := map (pair dataFrameFlag) ps ++ [(trailerFrameFlag, trailer_text (status_of o) (message_of o))] in
  default 200 (rs_status (w_resp w)) = 200 /\ w_ctype w = Some grpc_type /\
  rs_body (w_resp w) = fs ≫= frame_bytes /\
  parseDataFrames (rs_body (w_resp w)) = Some (Ok (concat ps, true)).
Proof.
  intros Hpost Hadm Hbody Hfr Hpay Hreg Hacc msg Hmsg. destruct (answer_of msg) as [ps o] eqn:Ean. intros Hps Htr. cbn zeta.
  assert (framed = true) as -> by (unfold request_payload in Hpay; rewrite Hfr in Hpay; repeat case_match; congruence).
  assert ((handle c).1 = (invoke true msg start_writer).1) as ->.
  { unfold handle. rewrite Hpost, Hadm, Hbody, Hpay. cbn [negb]. unfold call_session. rewrite Hreg, Hacc, Hmsg.
    by destruct (invoke true msg start_writer). }
  pose proof (invoke_spec true msg) as H. rewrite Ean in H. cbn zeta in H. destruct H as (Eb & Es & Ec).
  assert (rs_body (w_resp (invoke true msg start_writer).1) =
          (map (pair dataFrameFlag) ps ++ [(trailerFrameFlag, trailer_text (status_of o) (message_of o))]) ≫= frame_bytes) as Eb'.
  { rewrite Eb, bind_app, appendTrailerFrame_frame by done. f_equal; [|csimpl; by rewrite app_nil_r].
    by apply wire_frames. }
  split; [exact Es|]. split; [by apply Ec|]. split; [exact Eb'|]. rewrite Eb'. unfold parseDataFrames.
  rewrite parse_frames_complete; [| |done].
  - rewrite frames_data_app, app_nil_r. by destruct ps.
  - apply Forall_app. split; [|constructor; [split; [by right|done]|done]]. apply Forall_map. eapply Forall_impl; [exact Hps|].
    intros p Hp. split; [by left|done].
Qed.

(** A call that is let in gives its admission slot back exactly once, as the
    last thing, whatever happens to it; a session it registered is unregistered
    and closed exactly once before that, and the plugins hear of its end exactly
    if they accepted it. A call that is not let in leaves no trace. *)
Theorem grpc_call_balanced c :
  let tr := (handle c).2 in
  if c_post c && c_admitted c then
    exists mid, tr = GAcquire :: map GSession mid ++ [GDone] /\
      (mid = [] \/ mid = [EvRegister] /\ is_Some (an_register (c_answers c)) \/
       exists told, mid = EvRegister :: EvAccept :: told ++ cleanup (bool_decide (an_accept (c_answers c) = None)) /\
         an_register (c_answers c) = None /\
         (an_accept (c_answers c) <> None -> told = []) /\ EvUnregister ∉ told /\ EvClose ∉ told /\ EvOnClose ∉ told)
  else tr = [].
Proof.
  unfold handle. destruct (c_post c), (c_admitted c); try done. cbn [negb andb].
  destruct (c_body c) as [body|]; [|by exists []; split; [|left]].
  destruct (request_payload c body) as [[payload framed]|]; [|by exists []; split; [|left]].
  unfold call_session. destruct (an_register (c_answers c)) as [e|].
  { exists [EvRegister]. split; [done|]. right. left. split; [done|by eexists]. }
  destruct (an_accept (c_answers c)) as [e|] eqn:Ea.
  { eexists ([EvRegister; EvAccept] ++ cleanup false). split; [done|]. right. right. exists [].
    rewrite bool_decide_eq_false_2 by done. split_and!; try done; set_solver. }
  rewrite bool_decide_eq_true_2 by done.
  destruct (an_message (c_answers c) payload) as [msg|e].
  - unfold invoke. destruct Handler as [h|].
    + destruct (CallHandler _ _) as [err s]. eexists. split; [reflexivity|]. right. right. exists [EvMessage payload; EvHandle msg].
      split_and!; try done; set_solver.
    + eexists. split; [reflexivity|]. right. right. exists [EvMessage payload].
      split_and!; try done; set_solver.
  - eexists. split; [reflexivity|]. right. right. exists [EvMessage payload].
    split_and!; try done; set_solver.
Qed.

(** A call that did not declare gRPC-Web gets no trailers, so nothing tells
    its client of a failure: the answer to a handler that fails or panics is
    what it had sent, with status 200, exactly as if it had succeeded. *)
Theorem grpc_plain_failure_is_200 c body :
  c_post c = true -> c_admitted c = true -> c_body c = Some body ->
  isGRPCWebRequest (c_content_type c) || c_strict c = false ->
  an_register (c_answers c) = None -> an_accept (c_answers c) = None ->
  forall msg, an_message (c_answers c) body = Ok msg ->
  seen (w_resp (handle c).1) = (200, concat (answer_of msg).1).
Proof.
  intros Hpost Hadm Hbody Hfr Hreg Hacc msg Hmsg.
  assert ((handle c).1 = (invoke false msg start_writer).1) as ->.
  { unfold handle, request_payload. rewrite Hpost, Hadm, Hbody, Hfr. cbn [negb]. unfold call_session.
    rewrite Hreg, Hacc, Hmsg. by destruct (invoke false msg start_writer). }
  pose proof (invoke_spec false msg) as H. destruct (answer_of msg) as [ps o]. cbn zeta in H. destruct H as (Eb & Es & _).
  unfold seen. by rewrite Es, Eb, app_nil_r.
Qed.
End call.

(** ** Witnesses and examples *)

(** A framed call whose handler echoes and then fails. *)
Definition echo_then_fail : bytes -> handler_prog :=
  fun b => HSend b (fun _ => HEnd (Returned (Some (ErrMsg "no")))).
Definition framed_call (body : bytes) (msg : bytes -> result error bytes) : call :=
  mkCall true true (Some body) false (B "application/grpc-web+proto") (mkAnswers 1 None None msg).

Definition hello_frame : bytes := frame_bytes (dataFrameFlag, B "hi").

Lemma grpc_call_answered_witness :
  parseDataFrames (rs_body (w_resp (handle (fun _ => B "no") (Some echo_then_fail) (framed_call hello_frame Ok)).1)) =
  Some (Ok (B "hi", true)).
Proof.
  refine (proj2 (proj2 (proj2 (grpc_call_answered (fun _ => B "no") (Some echo_then_fail)
    (framed_call hello_frame Ok) hello_frame (B "hi") true _ _ _ _ _ _ _ (B "hi") _ _ _)))); try reflexivity; repeat constructor.
Defined.

Lemma grpc_plain_failure_is_200_witness :
  seen (w_resp (handle (fun _ => []) (Some (fun _ => HEnd Panicked))
    (mkCall true true (Some (B "hi")) false (B "text/plain") (mkAnswers 1 None None Ok))).1) = (200, []).
Proof.
  exact (grpc_plain_failure_is_200 (fun _ => []) (Some (fun _ => HEnd Panicked))
    (mkCall true true (Some (B "hi")) false (B "text/plain") (mkAnswers 1 None None Ok)) (B "hi")
    eq_refl eq_refl eq_refl eq_refl eq_refl eq_refl (B "hi") eq_refl).
Defined.

(** A framed call whose message a plugin drops: 204, and no trailers tell the
    outcome. *)
Example dropped_call_has_no_trailers :
  let w := (handle (fun _ => []) (Some echo_then_fail) (framed_call hello_frame (fun _ => Err ErrPluginDrop))).1 in
  seen (w_resp w) = (204, []).
Proof. reflexivity. Qed.

(** An empty body of a declared call is an empty message. *)
Example empty_framed_call :
  seen (w_resp (handle (fun _ => []) None (framed_call [] Ok)).1) =
  (200, frame_bytes (trailerFrameFlag, B "grpc-status: 0" ++ crlf)).
Proof. reflexivity. Qed.
