(* ===== verification/WsSession.v ===== *)
(** * WsSession: [internal/transport/websocket/session.go], [internal/transport/grpcweb/websocket_session.go]

    The two WebSocket sessions, their writes under the write deadline, and the
    ping loops of their servers ([websocket/server.go], [grpcweb/server.go]).
    The connection (the gorilla package) is an interface with its documented
    laws. *)
From S2P Require Import Prelude Bytes Core.
Local Open Scope Z_scope.
Local Open Scope list_scope.

(** ** The connection *)

Inductive frame : Type := BinaryMessage (payload : bytes) | PingMessage | CloseMessage.

(** A write is told the time and whether the network takes the frame before the
    deadline. [None] is no deadline. [intact]: no write has failed and the
    connection was not closed; [frames]: what went out. *)
Class WsConn (conn : Type) : Type := {
  SetWriteDeadline : option Z -> conn -> conn;
  WriteMessage : Z -> bool -> frame -> conn -> option error * conn;
  CloseConn : conn -> option error * conn;
  deadline : conn -> option Z;
  intact : conn -> bool;
  frames : conn -> list frame
}.

Definition passed (d : option Z) (now : Z) : bool := match d with Some d => d <=? now | None => false end.

(** "SetWriteDeadline sets the write deadline on the underlying network
    connection.  After a write has timed out, the websocket state is corrupt and
    all future writes will return an error." *)
Class WsConnLaws (conn : Type) `{WsConn conn} : Prop := {
  deadline_SetWriteDeadline d c : deadline (SetWriteDeadline d c) = d;
  intact_SetWriteDeadline d c : intact (SetWriteDeadline d c) = intact c;
  frames_SetWriteDeadline d c : frames (SetWriteDeadline d c) = frames c;
  write_goes_out now f c :
    intact c = true -> passed (deadline c) now = false ->
    exists c', WriteMessage now true f c = (None, c') /\ intact c' = true /\ deadline c' = deadline c /\ frames c' = frames c ++ [f];
  write_fails now net f c :
    intact c = false \/ passed (deadline c) now = true \/ net = false ->
    exists e c', WriteMessage now net f c = (Some e, c') /\ intact c' = false /\ frames c' = frames c;
  close_breaks c : intact (CloseConn c).2 = false;
  close_frames c : frames (CloseConn c).2 = frames c
}.

Section sessions.
Context {conn : Type} `{WsConnLaws conn}.

(* go: internal/transport/websocket/session.go:14-26 (session) *)
Record session : Type := mkSession {
  s_conn : conn;
  s_state : Z;
  s_done : bool;
  writeTimeout : Z;
  closeOnce : bool
}.

Definition set_conn (c : conn) (s : session) : session := mkSession c (s_state s) (s_done s) (writeTimeout s) (closeOnce s).

(* go: internal/transport/websocket/session.go:28-41 (newSession) *)
Definition newSession (c : conn) (timeout : Z) : session := mkSession c StateActive false timeout false.

(** The write of [f] under [writeMu]. *)
Definition write (now : Z) (net : bool) (f : frame) (s : session) : option error * session :=
  let '(e, c) := WriteMessage now net f (s_conn s) in (e, set_conn c s).

(* go: internal/transport/grpcweb/websocket_session.go:67-71 (setWriteDeadline) *)
Definition setWriteDeadline (now : Z) (s : session) : session :=
  if 0 <? writeTimeout s then set_conn (SetWriteDeadline (Some (now + writeTimeout s)) (s_conn s)) s else s.

(* go: internal/transport/websocket/session.go:62-72 (Send) *)
Definition ws_Send (now : Z) (net : bool) (payload : bytes) (s : session) : option error * session :=
  if negb (s_state s =? StateActive) then (Some ErrSessionClosed, s)
  else
    let s := if 0 <? writeTimeout s then set_conn (SetWriteDeadline (Some (now + writeTimeout s)) (s_conn s)) s else s in
    write now net (BinaryMessage payload) s.

(* go: internal/transport/websocket/session.go:87-91 (ping) *)
Definition ws_ping (now : Z) (net : bool) (s : session) : option error * session := write now net PingMessage s.

Definition closing (s : session) : session := mkSession (s_conn s) StateClosed true (writeTimeout s) true.
Definition close_conn (s : session) : option error * session :=
  let '(e, c) := CloseConn (s_conn s) in (e, set_conn c s).

(* go: internal/transport/websocket/session.go:74-85 (Close) *)
Definition ws_Close (now : Z) (net : bool) (s : session) : option error * session :=
  if closeOnce s then (None, s)
  else close_conn (write now net CloseMessage (closing s)).2.

(* go: internal/transport/grpcweb/websocket_session.go:73-81 (Send) *)
Definition gw_Send (now : Z) (net : bool) (payload : bytes) (s : session) : option error * session :=
  if negb (s_state s =? StateActive) then (Some ErrSessionClosed, s)
  else write now net (BinaryMessage payload) (setWriteDeadline now s).

(* go: internal/transport/grpcweb/websocket_session.go:83-88 (ping) *)
Definition gw_ping (now : Z) (net : bool) (s : session) : option error * session :=
  write now net PingMessage (setWriteDeadline now s).

(* go: internal/transport/grpcweb/websocket_session.go:90-102 (Close) *)
Definition gw_Close (now : Z) (net : bool) (s : session) : option error * session :=
  if closeOnce s then (None, s)
  else close_conn (write now net CloseMessage (setWriteDeadline now (closing s))).2.

(** ** The server around a session *)

(** What a server does with its session. *)
Record session_ops : Type := mkOps {
  op_Send : Z -> bool -> bytes -> session -> option error * session;
  op_ping : Z -> bool -> session -> option error * session;
  op_Close : Z -> bool -> session -> option error * session
}.

Definition ws_ops : session_ops := mkOps ws_Send ws_ping ws_Close.
Definition gw_ops : session_ops := mkOps gw_Send gw_ping gw_Close.

(** A connection of the server: its session, whether the server's table holds it,
    whether its ping loop runs, and what the sends returned. *)
Record served : Type := mkServed { sv_session : session; sv_stored : bool; sv_pinging : bool; sv_results : list (option error) }.

Definition serve (c : conn) (timeout : Z) : served := mkServed (newSession c timeout) true true [].

(* go: internal/transport/websocket/server.go:259-266 (closeSession) *)
Definition closeSession (ops : session_ops) (now : Z) (net : bool) (v : served) : served :=
  if sv_stored v then mkServed (op_Close ops now net (sv_session v)).2 false (sv_pinging v) (sv_results v) else v.

(** A turn of the ping loop; [seen] is the case the select takes when the tick and
    the end of the session's context are both there. *)
(* go: internal/transport/websocket/server.go:242-257 (pingLoop) *)
Definition pingLoop (ops : session_ops) (now : Z) (net seen : bool) (v : served) : served :=
  if negb (sv_pinging v) then v
  else if s_done (sv_session v) && seen then mkServed (sv_session v) (sv_stored v) false (sv_results v)
  else
    let '(e, s) := op_ping ops now net (sv_session v) in
    let v := mkServed s (sv_stored v) true (sv_results v) in
    match e with
    | None => v
    | Some _ => let v := closeSession ops now net v in mkServed (sv_session v) (sv_stored v) false (sv_results v)
    end.

Inductive happening : Type := UserSend (payload : bytes) | Tick (seen : bool).

(** Something happens at a time; the network takes a frame or not. *)
Record event : Type := mkEvent { at_time : Z; taken : bool; what : happening }.

Definition react (ops : session_ops) (v : served) (e : event) : served :=
  match what e with
  | UserSend payload =>
      let '(r, s) := op_Send ops (at_time e) (taken e) payload (sv_session v) in
      mkServed s (sv_stored v) (sv_pinging v) (sv_results v ++ [r])
  | Tick seen => pingLoop ops (at_time e) (taken e) seen v
  end.

Definition run (ops : session_ops) (evs : list event) (v : served) : served := fold_left (react ops) evs v.

(** The server closed the session. *)
Definition ended (v : served) : bool := negb (sv_stored v).

(** ** Specifications *)

(** Some ping comes [W] or more after the latest send. *)
Fixpoint lapses (W : Z) (last : option Z) (evs : list event) : bool :=
  match evs with
  | [] => false
  | e :: evs =>
      match what e with
      | UserSend _ => lapses W (Some (at_time e)) evs
      | Tick _ => match last with Some t => t + W <=? at_time e | None => false end || lapses W last evs
      end
  end.

(** The frame of an event. *)
Definition frame_of (e : event) : frame :=
  match what e with UserSend payload => BinaryMessage payload | Tick _ => PingMessage end.

(** An open session of a running connection. *)
Definition running (W : Z) (d : option Z) (v : served) : Prop :=
  sv_stored v = true /\ sv_pinging v = true /\ s_state (sv_session v) = StateActive /\
  s_done (sv_session v) = false /\ closeOnce (sv_session v) = false /\ writeTimeout (sv_session v) = W /\
  intact (s_conn (sv_session v)) = true /\ deadline (s_conn (sv_session v)) = d.

Lemma serve_running c W :
  intact c = true -> running W (deadline c) (serve c W).
Proof. intros Hc. by split_and!. Qed.

(** A write that goes out. *)
Lemma write_running now f (s : session) :
  intact (s_conn s) = true -> passed (deadline (s_conn s)) now = false ->
  exists c', write now true f s = (None, set_conn c' s) /\ intact c' = true /\
    deadline c' = deadline (s_conn s) /\ frames c' = frames (s_conn s) ++ [f].
Proof.
  intros Hi Hp. unfold write. destruct (write_goes_out now f _ Hi Hp) as (c' & -> & ? & ? & ?). by exists c'.
Qed.

Lemma not_passed now W : 0 < W -> passed (Some (now + W)) now = false.
Proof. intros HW. cbn. lia. Qed.

(** Setting the deadline. *)
Lemma setWriteDeadline_conn now (s : session) :
  0 < writeTimeout s ->
  exists c', setWriteDeadline now s = set_conn c' s /\ intact c' = intact (s_conn s) /\
    deadline c' = Some (now + writeTimeout s) /\ frames c' = frames (s_conn s).
Proof.
  intros HW. unfold setWriteDeadline. replace (0 <? writeTimeout s) with true by lia. eexists. split; [done|].
  by rewrite intact_SetWriteDeadline, deadline_SetWriteDeadline, frames_SetWriteDeadline.
Qed.

Lemma write_after_deadline now f (s : session) :
  0 < writeTimeout s -> intact (s_conn s) = true ->
  exists c', write now true f (setWriteDeadline now s) = (None, set_conn c' s) /\ intact c' = true /\
    deadline c' = Some (now + writeTimeout s) /\ frames c' = frames (s_conn s) ++ [f].
Proof.
  intros HW Hi. destruct (setWriteDeadline_conn now s HW) as (c & -> & Hi' & Hd & Hf).
  destruct (write_running now f (set_conn c s)) as (c' & -> & Hi2 & Hd2 & Hf2).
  { cbn. by rewrite Hi'. }
  { cbn. rewrite Hd. by apply not_passed. }
  exists c'. cbn in *. split; [by destruct s|]. by rewrite Hd2, Hf2, Hd, Hf.
Qed.

(** One event of a running connection on a network that takes its frame. *)
Lemma react_renews ops W d (v : served) e :
  0 < W -> running W d v -> taken e = true ->
  (ops = gw_ops \/ ops = ws_ops /\ exists payload, what e = UserSend payload) ->
  let v' := react ops v e in
  running W (Some (at_time e + W)) v' /\
  frames (s_conn (sv_session v')) = frames (s_conn (sv_session v)) ++ [frame_of e] /\
  sv_results v' = sv_results v ++ (match what e with UserSend _ => [None] | Tick _ => [] end).
Proof.
  intros HW (Hst & Hp & Ha & Hdn & Hco & Hto & Hi & Hd) Ht Hops. destruct v as [s st pi rs]. cbn in *. subst st pi.
  destruct (write_after_deadline (at_time e) (frame_of e) s) as (c' & E & Hi' & Hd' & Hf'); [by rewrite Hto|done|].
  rewrite Hto in Hd'. unfold react, frame_of in *. rewrite Ht.
  destruct Hops as [-> |[-> [payload Ew]]]; [destruct (what e) as [payload|seen]|rewrite Ew in *]; cbn;
    unfold gw_Send, ws_Send, gw_ping; rewrite ?Ha, ?Hdn; cbn; unfold setWriteDeadline in *; rewrite ?E;
    unfold running; cbn; rewrite ?app_nil_r; by split_and!.
Qed.

Lemma ws_tick W d (v : served) e seen :
  running W d v -> taken e = true -> what e = Tick seen ->
  let v' := react ws_ops v e in
  if passed d (at_time e) then ended v' = true
  else running W d v' /\ frames (s_conn (sv_session v')) = frames (s_conn (sv_session v)) ++ [PingMessage] /\
    sv_results v' = sv_results v.
Proof.
  intros (Hst & Hp & Ha & Hdn & Hco & Hto & Hi & Hd) Ht Ew. destruct v as [s st pi rs]. cbn in *. subst st pi.
  unfold react. rewrite Ew, Ht. cbn. rewrite Hdn. cbn. destruct (passed d (at_time e)) eqn:Ep.
  - unfold ws_ping, write. destruct (write_fails (at_time e) true PingMessage (s_conn s)) as (err & c' & -> & _).
    { right. left. by rewrite Hd. }
    done.
  - unfold ws_ping. destruct (write_running (at_time e) PingMessage s Hi) as (c' & -> & Hi' & Hd' & Hf').
    { by rewrite Hd. }
    unfold running. cbn. rewrite Hd'. by split_and!.
Qed.

(** A session the server closed stays closed. *)
Lemma react_ended ops (v : served) e : ended v = true -> ended (react ops v e) = true.
Proof.
  unfold ended, react, pingLoop, closeSession. intros Hv. apply negb_true_iff in Hv. rewrite Hv.
  destruct (what e).
  - by destruct (op_Send _ _ _ _).
  - destruct (negb (sv_pinging v)); [by rewrite ?Hv|]. destruct (_ && _); [cbn; by rewrite ?Hv|].
    destruct (op_ping _ _ _ _) as [[err|] s]; done.
Qed.

Lemma run_ended ops evs (v : served) : ended v = true -> ended (run ops evs v) = true.
Proof. revert v. induction evs as [|e evs IH]; intros v Hv; [done|]. by apply IH, react_ended. Qed.

(** ** Theorems *)

(** C25: The WebSocket server's pings use whatever write deadline the latest send
    left behind: on a network that takes every frame at once, and for every
    sequence of sends and ticks, the server closes the session exactly if some
    ping comes [WriteTimeout] or more after the latest send. A session that sends
    and then falls silent for a ping interval is closed, though its peer is
    there. *)
Theorem ws_ping_closes c W evs :
  0 < W -> intact c = true -> deadline c = None -> Forall (fun e => taken e = true) evs ->
  ended (run ws_ops evs (serve c W)) = lapses W None evs.
Proof.
  intros HW Hi Hd Ht.
  assert (forall last v, running W ((fun t => t + W) <$> last) v -> ended (run ws_ops evs v) = lapses W last evs) as H1.
  { induction Ht as [|e evs Hte _ IH]; intros last v Hv; [unfold ended; cbn; by rewrite (proj1 Hv)|]. cbn [lapses].
    change (run ws_ops (e :: evs) v) with (run ws_ops evs (react ws_ops v e)). destruct (what e) as [payload|seen] eqn:Ew.
    - apply (IH (Some (at_time e))). refine (proj1 (react_renews _ _ _ _ _ HW Hv Hte (or_intror (conj eq_refl (ex_intro _ payload Ew))))).
    - pose proof (ws_tick _ _ _ _ _ Hv Hte Ew) as Htick. cbn zeta in Htick. destruct last as [t|]; cbn in Htick.
      + destruct (t + W <=? at_time e); [by rewrite (run_ended _ _ _ Htick)|]. exact (IH (Some t) _ (proj1 Htick)).
      + exact (IH None _ (proj1 Htick)). }
  apply (H1 None). cbn. rewrite <- Hd. by apply serve_running.
Qed.

(** The gRPC-Web WebSocket session renews the deadline at every write: on a
    network that takes every frame at once its server never closes it, every
    send succeeds, and the frames that go out are the payloads and the pings, in
    the order in which they were asked for, however long it is silent between
    them. *)
Theorem gw_ping_keeps c W evs :
  0 < W -> intact c = true -> Forall (fun e => taken e = true) evs ->
  let v := run gw_ops evs (serve c W) in
  ended v = false /\ s_state (sv_session v) = StateActive /\
  frames (s_conn (sv_session v)) = frames c ++ map frame_of evs /\
  Forall (fun r => r = None) (sv_results v).
Proof.
  intros HW Hi Ht.
  assert (forall d v, running W d v -> Forall (fun r => r = None) (sv_results v) ->
    let v' := run gw_ops evs v in
    (exists d', running W d' v') /\ frames (s_conn (sv_session v')) = frames (s_conn (sv_session v)) ++ map frame_of evs /\
    Forall (fun r => r = None) (sv_results v')) as H1.
  { induction Ht as [|e evs Hte _ IH]; intros d v Hv Hr; [cbn; rewrite app_nil_r; eauto|].
    change (run gw_ops (e :: evs) v) with (run gw_ops evs (react gw_ops v e)).
    destruct (react_renews gw_ops _ _ _ _ HW Hv Hte (or_introl eq_refl)) as (Hv' & Hf & Hr').
    edestruct (IH _ _ Hv') as (Hd & Hf2 & Hr2).
    { rewrite Hr'. apply Forall_app. split; [done|]. by destruct (what e); repeat constructor. }
    cbn zeta. rewrite Hf2, Hf, <- app_assoc. by split_and!. }
  cbn zeta. destruct (H1 _ _ (serve_running c W Hi) ltac:(by constructor)) as ((d & Hv) & Hf & Hr).
  split; [unfold ended; by rewrite (proj1 Hv)|]. split; [exact (proj1 (proj2 (proj2 Hv)))|]. by split.
Qed.

(** Closing a WebSocket session puts a close frame after what was sent, unless
    the deadline left by the latest send has passed; then the connection is
    dropped without one. A closed session refuses every send, and a second close
    changes nothing. *)
Theorem ws_close_exact now s :
  closeOnce s = false -> intact (s_conn s) = true ->
  let s' := (ws_Close now true s).2 in
  frames (s_conn s') = frames (s_conn s) ++ (if passed (deadline (s_conn s)) now then [] else [CloseMessage]) /\
  intact (s_conn s') = false /\
  (forall t net, ws_Close t net s' = (None, s')) /\
  (forall t net payload, ws_Send t net payload s' = (Some ErrSessionClosed, s')).
Proof.
  intros Hc Hi. unfold ws_Close. rewrite Hc. unfold write, close_conn. cbn.
  destruct (passed (deadline (s_conn s)) now) eqn:Ep.
  - destruct (write_fails now true CloseMessage (s_conn s)) as (e & c & -> & Hi' & Hf); [by auto|].
    destruct (CloseConn _) as [e' c'] eqn:Ec. cbn in *. pose proof (close_frames c) as H1. pose proof (close_breaks c) as H2.
    rewrite Ec in H1, H2. cbn in *. rewrite H1, H2, Hf, app_nil_r. by split_and!.
  - destruct (write_goes_out now CloseMessage (s_conn s) Hi Ep) as (c & -> & Hi' & _ & Hf).
    destruct (CloseConn _) as [e' c'] eqn:Ec. cbn in *. pose proof (close_frames c) as H1. pose proof (close_breaks c) as H2.
    rewrite Ec in H1, H2. cbn in *. rewrite H1, H2, Hf. by split_and!.
Qed.
End sessions.

(** ** A concrete connection *)

Record net_conn : Type := mkNetConn { nc_deadline : option Z; nc_intact : bool; nc_frames : list frame }.

#[export] Instance net_WsConn : WsConn net_conn := {|
  SetWriteDeadline d c := mkNetConn d (nc_intact c) (nc_frames c);
  WriteMessage now net f c :=
    if nc_intact c && negb (passed (nc_deadline c) now) && net then (None, mkNetConn (nc_deadline c) true (nc_frames c ++ [f]))
    else (Some (ErrMsg "i/o timeout"), mkNetConn (nc_deadline c) false (nc_frames c));
  CloseConn c := (None, mkNetConn (nc_deadline c) false (nc_frames c));
  deadline := nc_deadline;
  intact := nc_intact;
  frames := nc_frames
|}.

#[export] Instance net_WsConnLaws : WsConnLaws net_conn.
Proof.
  split; try done.
  - intros now f c Hi Hp. unfold WriteMessage, intact, deadline in *. cbn in *. rewrite Hi, Hp. eexists. by split_and!.
  - intros now net f c Hc. unfold WriteMessage, intact, deadline in *. cbn in *. do 2 eexists.
    replace (nc_intact c && negb (passed (nc_deadline c) now) && net) with false; [by split_and!|].
    destruct Hc as [-> |[-> | ->]]; [done|by rewrite andb_false_r|by rewrite andb_false_r].
Qed.

Definition fresh_conn : net_conn := mkNetConn None true [].
Definition second : Z := 1000000000.

(** The default options: [WriteTimeout] 10s, [PingInterval] 30s. *)
Definition one_send_then_quiet : list event :=
  [mkEvent (5 * second) true (UserSend (bytes_of_string "hi")); mkEvent (30 * second) true (Tick false)].

Lemma ws_ping_closes_witness :
  ended (run ws_ops one_send_then_quiet (serve fresh_conn (10 * second))) = true.
Proof.
  rewrite (ws_ping_closes fresh_conn (10 * second) one_send_then_quiet); [reflexivity|reflexivity|reflexivity|reflexivity|].
  by repeat constructor.
Defined.

Lemma gw_ping_keeps_witness :
  ended (run gw_ops one_send_then_quiet (serve fresh_conn (10 * second))) = false.
Proof.
  apply (gw_ping_keeps fresh_conn (10 * second) one_send_then_quiet); [reflexivity|reflexivity|]. by repeat constructor.
Defined.

Lemma ws_close_exact_witness :
  frames (s_conn (ws_Close 0 true (newSession fresh_conn second)).2) = [CloseMessage].
Proof. exact (proj1 (ws_close_exact 0 (newSession fresh_conn second) eq_refl eq_refl)). Defined.

(** A peer that takes nothing is found out by the next ping of either server. *)
Example dead_peer_closed :
  map (fun ops => ended (run ops [mkEvent (30 * second) false (Tick false)] (serve fresh_conn (10 * second)))) [ws_ops; gw_ops]
  = [true; true].
Proof. reflexivity. Qed.
