(* ===== verification/QuicSession.v ===== *)
(** * QuicSession: [internal/transport/quic/session.go], [internal/transport/quic/server.go]

    The outgoing side of a QUIC session: concurrent senders, the write loop that
    gives every message a stream of its own, and close, one atomic step after
    another; and the incoming side, a message per stream with its size limit.
    The QUIC library is there through the outcomes of its calls: opening a
    stream fails once its context is done, and a write takes at most what it is
    given. *)
From S2P Require Import Prelude Bytes Core Shared.
From stdpp Require Import relations.
Local Open Scope Z_scope.
Local Open Scope list_scope.

(** ** The session and its parties *)

(** How far a call of [Send] is: past the check of the state, past the check of
    the context. *)
Inductive send_pc : Type := SLoaded | SChecked.

(** The write loop: at its select, opening a stream for a payload, writing the
    rest of one, or returned. *)
Inductive writer_pc : Type := WSelect | WOpening (payload : bytes) | WWriting (rest : bytes) | WReturned.

(** [Close]: not called, past the store of the state, past the cancel, done. *)
Inductive close_pc : Type := COpen | CStored | CCancelled | CClosed.

(** [accepted] and [streams] are history: the payloads whose [Send] returned nil,
    and what each stream opened has carried. *)
(* go: internal/transport/quic/session.go:14-26 (session) *)
Record session : Type := mkSession {
  writeCh : list bytes;
  writer : writer_pc;
  closer : close_pc;
  senders : list (bytes * send_pc);
  accepted : list bytes;
  streams : list bytes
}.

Definition state (s : session) : Z := match closer s with COpen => StateActive | _ => StateClosed end.
Definition ctx_done (s : session) : bool := match closer s with CCancelled | CClosed => true | _ => false end.

(* go: internal/transport/quic/session.go:28-42 (newSession) *)
Definition newSession : session := mkSession [] WSelect COpen [] [] [].

Definition set_senders (l : list (bytes * send_pc)) (s : session) : session :=
  mkSession (writeCh s) (writer s) (closer s) l (accepted s) (streams s).
Definition set_writer (w : writer_pc) (s : session) : session :=
  mkSession (writeCh s) w (closer s) (senders s) (accepted s) (streams s).

Section session.
(** The capacity of the write queue. *)
Variable writeQueue : nat.

(** The queue takes a payload. *)
Definition enqueue (p : bytes) (s : session) : session :=
  mkSession (writeCh s ++ [p]) (writer s) (closer s) (senders s) (accepted s ++ [p]) (streams s).

(** [Send], an atomic step at a time, with its result once it returns. The last
    select takes any of its ready cases, and the default if none is. *)
(* go: internal/transport/quic/session.go:63-84 (Send) *)
Inductive send_step : session -> session -> option (option error) -> Prop :=
| send_closed s :
    state s <> StateActive -> send_step s s (Some (Some ErrSessionClosed))
| send_load s p :
    state s = StateActive -> send_step s (set_senders ((p, SLoaded) :: senders s) s) None
| send_done s l r p :
    senders s = l ++ (p, SLoaded) :: r -> ctx_done s = true ->
    send_step s (set_senders (l ++ r) s) (Some (Some ErrSessionClosed))
| send_check s l r p :
    senders s = l ++ (p, SLoaded) :: r -> ctx_done s = false ->
    send_step s (set_senders (l ++ (p, SChecked) :: r) s) None
| send_enqueue s l r p :
    senders s = l ++ (p, SChecked) :: r -> (length (writeCh s) < writeQueue)%nat ->
    send_step s (enqueue p (set_senders (l ++ r) s)) (Some None)
| send_late s l r p :
    senders s = l ++ (p, SChecked) :: r -> ctx_done s = true ->
    send_step s (set_senders (l ++ r) s) (Some (Some ErrSessionClosed))
| send_full s l r p :
    senders s = l ++ (p, SChecked) :: r -> (writeQueue <= length (writeCh s))%nat -> ctx_done s = false ->
    send_step s (set_senders (l ++ r) s) (Some (Some ErrWriteQueueFull)).

(** [n] more bytes of [rest] on the last stream. *)
Definition write_some (n : nat) (rest : bytes) (l : list bytes) : list bytes :=
  match list.last l with Some d => take (length l - 1) l ++ [d ++ take n rest] | None => l end.

(** The write loop. *)
(* go: internal/transport/quic/session.go:99-130 (writeLoop) *)
Inductive writer_step : session -> session -> Prop :=
| writer_take s p q :
    writer s = WSelect -> writeCh s = p :: q ->
    writer_step s (mkSession q (WOpening p) (closer s) (senders s) (accepted s) (streams s))
| writer_done s :
    writer s = WSelect -> ctx_done s = true -> writer_step s (set_writer WReturned s)
| writer_open s p :
    writer s = WOpening p -> ctx_done s = false ->
    writer_step s (mkSession (writeCh s) (WWriting p) (closer s) (senders s) (accepted s) (streams s ++ [[]]))
| writer_open_fails s p :
    writer s = WOpening p -> writer_step s (set_writer WReturned s)
| writer_write s rest n :
    writer s = WWriting rest -> rest <> [] -> (0 < n <= length rest)%nat ->
    writer_step s (mkSession (writeCh s) (WWriting (drop n rest)) (closer s) (senders s) (accepted s) (write_some n rest (streams s)))
| writer_write_fails s rest n :
    writer s = WWriting rest -> rest <> [] -> (n <= length rest)%nat ->
    writer_step s (mkSession (writeCh s) WReturned (closer s) (senders s) (accepted s) (write_some n rest (streams s)))
| writer_written s :
    writer s = WWriting [] -> writer_step s (set_writer WSelect s).

Definition set_closer (c : close_pc) (s : session) : session :=
  mkSession (writeCh s) (writer s) c (senders s) (accepted s) (streams s).

(** [Close], under its once. *)
(* go: internal/transport/quic/session.go:86-97 (Close) *)
Inductive close_step : session -> session -> Prop :=
| close_store s : closer s = COpen -> close_step s (set_closer CStored s)
| close_cancel s : closer s = CStored -> close_step s (set_closer CCancelled s)
| close_conn s : closer s = CCancelled -> close_step s (set_closer CClosed s).

Inductive step : session -> session -> Prop :=
| step_send s s' r : send_step s s' r -> step s s'
| step_writer s s' : writer_step s s' -> step s s'
| step_close s s' : close_step s s' -> step s s'.

Definition reachable (s : session) : Prop := rtc step newSession s.

(** ** What the streams carry *)

(** The payload the writer holds, against the stream it has for it: none; no
    stream yet; or a stream with a part of it. *)
Inductive in_hand : list bytes -> list bytes -> Prop :=
| hand_none : in_hand [] []
| hand_unopened p : in_hand [] [p]
| hand_part d rest : in_hand [d] [d ++ rest].

(** The writer's position agrees with what it holds. *)
Definition holds (w : writer_pc) (carried taken : list bytes) : Prop :=
  match w with
  | WSelect => carried = [] /\ taken = []
  | WOpening p => carried = [] /\ taken = [p]
  | WWriting rest => exists d, carried = [d] /\ taken = [d ++ rest]
  | WReturned => in_hand carried taken
  end.

Definition inv (s : session) : Prop :=
  exists full carried taken, streams s = full ++ carried /\ accepted s = full ++ taken ++ writeCh s /\ holds (writer s) carried taken.

Lemma write_some_app n rest full d : write_some n rest (full ++ [d]) = full ++ [d ++ take n rest].
Proof.
  unfold write_some. rewrite last_snoc, length_app. cbn [length].
  by rewrite Nat.add_sub, take_app_length.
Qed.

Lemma inv_step s s' : step s s' -> inv s -> inv s'.
Proof.
  intros Hs (full & carried & taken & Es & Ea & Hh). destruct Hs as [s s' r Hs|s s' Hs|s s' Hs].
  - destruct Hs; try (by exists full, carried, taken).
    exists full, carried, taken. split; [done|]. split; [|done]. cbn. by rewrite Ea, !app_assoc.
  - destruct Hs as [s p q Ew Eq|s Ew _|s p Ew _|s p Ew|s rest n Ew _ Hn|s rest n Ew _ Hn|s Ew]; rewrite Ew in Hh; cbn in Hh.
    + destruct Hh as [-> ->]. exists full, [], [p]. cbn. rewrite Es, Ea, Eq. by split_and!.
    + destruct Hh as [-> ->]. exists full, [], []. cbn. rewrite Es, Ea. split_and!; [done..|constructor].
    + destruct Hh as [-> ->]. exists full, [[]], [p]. cbn. rewrite Es, Ea, app_nil_r. split_and!; [done..|]. by exists [].
    + destruct Hh as [-> ->]. exists full, [], [p]. cbn. rewrite Es, Ea. split_and!; [done..|constructor].
    + destruct Hh as (d & -> & ->). exists full, [d ++ take n rest], [d ++ rest]. cbn. rewrite Es, Ea, write_some_app.
      split_and!; [done..|]. exists (d ++ take n rest). by rewrite <- app_assoc, take_drop.
    + destruct Hh as (d & -> & ->). exists full, [d ++ take n rest], [d ++ rest]. cbn. rewrite Es, Ea, write_some_app.
      split_and!; [done..|]. rewrite <- (take_drop n rest) at 2. rewrite app_assoc. constructor.
    + destruct Hh as (d & -> & ->). exists (full ++ [d]), [], []. cbn. rewrite Es, Ea, !app_nil_r.
      split_and!; [done| |done..]. by rewrite <- !app_assoc.
  - destruct Hs; by exists full, carried, taken.
Qed.

Lemma inv_reachable s : reachable s -> inv s.
Proof.
  intros Hs. unfold reachable in Hs. assert (inv newSession) as H0 by by exists [], [], [].
  revert H0. induction Hs as [s|s s' s2 H1 _ IH]; [done|]. intros H0. by eapply IH, inv_step.
Qed.

(** ** After the write loop has returned *)

Lemma returned_step s s' :
  step s s' -> writer s = WReturned ->
  writer s' = WReturned /\ streams s' = streams s /\ exists more, accepted s' = accepted s ++ more /\ writeCh s' = writeCh s ++ more.
Proof.
  intros [? ? r Hs|? ? Hs|? ? Hs] Hw; destruct Hs; try congruence; cbn; split_and!; try done;
    first [by eexists|exists []; by rewrite !app_nil_r].
Qed.

Lemma returned_final s s' :
  rtc step s s' -> writer s = WReturned ->
  writer s' = WReturned /\ streams s' = streams s /\ exists more, accepted s' = accepted s ++ more /\ writeCh s' = writeCh s ++ more.
Proof.
  induction 1 as [s|s s1 s2 H1 _ IH]; intros Hw; [split_and!; try done; exists []; by rewrite !app_nil_r|].
  destruct (returned_step _ _ H1 Hw) as (Hw1 & E1 & m1 & Ea & Eq). destruct (IH Hw1) as (Hw2 & E2 & m2 & Ea2 & Eq2).
  split_and!; [done|congruence|]. exists (m1 ++ m2). by rewrite Ea2, Eq2, Ea, Eq, !app_assoc.
Qed.

(** A live session accepts what its queue has room for. *)
Lemma sends_accepted l s :
  state s = StateActive -> senders s = [] -> (length (writeCh s) + length l <= writeQueue)%nat ->
  rtc step s (mkSession (writeCh s ++ l) (writer s) (closer s) [] (accepted s ++ l) (streams s)).
Proof.
  revert s. induction l as [|p l IH]; intros s Ha Hn Hl; cbn in Hl.
  - rewrite !app_nil_r, <- Hn. by destruct s.
  - assert (closer s = COpen) as Hc by by destruct (closer s) eqn:E; unfold state in Ha; rewrite E in Ha.
    assert (ctx_done s = false) as Hd by by unfold ctx_done; rewrite Hc.
    eapply rtc_l; [eapply step_send, (send_load _ p), Ha|].
    eapply rtc_l; [eapply step_send, (send_check _ [] []); [cbn; by rewrite Hn|done]|].
    eapply rtc_l; [eapply step_send, (send_enqueue _ [] [] p); [done|cbn; lia]|].
    cbn. set (s1 := enqueue p _). replace (writeCh s ++ p :: l) with (writeCh s1 ++ l) by (cbn; by rewrite <- app_assoc).
    replace (accepted s ++ p :: l) with (accepted s1 ++ l) by (cbn; by rewrite <- app_assoc).
    apply (IH s1); [done|done|]. cbn. rewrite length_app. cbn. lia.
Qed.

(** ** The write loop after close *)

(** Turns the write loop still has once the context is done. *)
Definition turns (w : writer_pc) : nat :=
  match w with WReturned => 0 | WOpening _ => 1 | WSelect => 2 | WWriting rest => 3 + length rest end.

Lemma writer_turns s s' : writer_step s s' -> ctx_done s = true -> ctx_done s' = true /\ (turns (writer s') < turns (writer s))%nat.
Proof.
  intros Hs Hd. split; [by destruct Hs|].
  destruct Hs as [s p q Ew Eq|s Ew _|s p Ew Hf|s p Ew|s rest n Ew _ Hn|s rest n Ew _ Hn|s Ew]; rewrite Ew; cbn; try lia; [congruence|].
  rewrite length_drop. lia.
Qed.

Lemma other_turns s s' : (exists r, send_step s s' r) \/ close_step s s' -> ctx_done s = true -> ctx_done s' = true /\ writer s' = writer s.
Proof. intros [[r Hs]|Hs]; destruct Hs; auto; unfold ctx_done in *; cbn in *; intros; repeat case_match; congruence. Qed.

(** A run, by the number of turns of the write loop in it. *)
Inductive run : session -> nat -> session -> Prop :=
| run_nil s : run s 0 s
| run_writer s s1 n s2 : writer_step s s1 -> run s1 n s2 -> run s (S n) s2
| run_other s s1 n s2 : (exists r, send_step s s1 r) \/ close_step s s1 -> run s1 n s2 -> run s n s2.

(** ** Theorems *)

(** C24: However senders, the write loop and close interleave, a QUIC session
    delivers in order and whole: each payload accepted by [Send] gets a stream of
    its own that carries exactly it, in the order of acceptance, except that the
    latest one taken from the queue may have no stream yet or a stream with only
    a prefix of it; everything else accepted is still in the queue. *)
Theorem quic_delivery s :
  reachable s ->
  exists full carried taken,
    streams s = full ++ carried /\ accepted s = full ++ taken ++ writeCh s /\ in_hand carried taken /\
    (writer s = WSelect -> carried = [] /\ taken = []).
Proof.
  intros Hs. destruct (inv_reachable s Hs) as (full & carried & taken & Es & Ea & Hh).
  exists full, carried, taken. split_and!; [done..| |by intros Ew; rewrite Ew in Hh].
  destruct (writer s); cbn in Hh; [destruct Hh as [-> ->]; constructor|destruct Hh as [-> ->]; constructor| |done].
  destruct Hh as (d & -> & ->). constructor.
Qed.

(** One failed write of one stream silences a session for good: the write
    loop returns and nothing closes the session. It stays active and accepts as
    many messages as its queue holds, and however the run goes on, none of what
    it accepted then or later is ever put on a stream. *)
Theorem stream_error_silences_session p l :
  p <> [] -> (0 < writeQueue)%nat -> (length l <= writeQueue)%nat ->
  exists s, reachable s /\ state s = StateActive /\ accepted s = p :: l /\
    forall s', rtc step s s' -> streams s' = [[]] /\ exists more, accepted s' = p :: l ++ more /\ writeCh s' = l ++ more.
Proof.
  intros Hp Hq Hl. exists (mkSession l WReturned COpen [] (p :: l) [[]]). split_and!; [|done..|].
  - unfold reachable. etrans; [apply (sends_accepted [p]); [done..|cbn; lia]|]. cbn.
    eapply rtc_l; [by eapply step_writer, writer_take|]. cbn.
    eapply rtc_l; [by eapply step_writer, writer_open|]. cbn.
    eapply rtc_l; [eapply step_writer, (writer_write_fails _ p 0); [done|done|lia]|]. cbn.
    apply (sends_accepted l (mkSession [] WReturned COpen [] [p] [[]])); [done|done|cbn; lia].
  - intros s' Hs. destruct (returned_final _ _ Hs eq_refl) as (_ & -> & more & -> & ->). split; [done|]. by exists more.
Qed.

(** Close ends the write loop: once the session's context is done the loop is
    never stuck, and it returns within a number of turns fixed by what it has in
    hand, whatever senders do meanwhile. *)
Theorem quic_close_ends_writer s n s' :
  ctx_done s = true -> run s n s' ->
  (n <= turns (writer s))%nat /\ (writer s' <> WReturned -> exists s2, writer_step s' s2).
Proof.
  intros Hd Hr. induction Hr as [s|s s1 n s2 H1 _ IH|s s1 n s2 H1 _ IH].
  - split; [lia|]. intros Hw. destruct (writer s) as [|p|rest|] eqn:Ew; [|..|done].
    + eexists. by apply writer_done.
    + eexists. by eapply writer_open_fails.
    + destruct rest as [|b rest]; eexists; [by apply writer_written|]. eapply (writer_write_fails _ _ 0); [done|done|lia].
  - destruct (writer_turns _ _ H1 Hd) as [Hd1 Ht]. destruct (IH Hd1) as [Hn Hw]. split; [lia|done].
  - destruct (other_turns _ _ H1 Hd) as [Hd1 Ht]. destruct (IH Hd1) as [Hn Hw]. rewrite Ht in Hn. by split.
Qed.
End session.

(** ** Incoming streams *)

(** A peer's stream: what it sends, and whether it then ends it (or breaks it, or
    lets the deadline pass). *)
Record incoming : Type := mkIncoming { in_content : bytes; in_ended : bool }.

(** [io.ReadAll(io.LimitReader(stream, n))]: the data and whether it failed. *)
Definition ReadAll_limited (n : Z) (st : incoming) : bytes * bool :=
  if n <=? len (in_content st) then (take (Z.to_nat n) (in_content st), false)
  else (in_content st, negb (in_ended st)).

(** What the runtime is called with for a stream. *)
Inductive stream_event : Type := SMessage (data : bytes) | SHandle (payload : bytes).

Section stream.
Variable MaxMessageSize : Z.
Variable OnMessage : bytes -> result error bytes.
(** Whether a handler is set. *)
Variable Handler : option (bytes -> outcome (option error)).

(** [deadline_set] is the answer of [SetReadDeadline], where it is called; the
    handler's failure is logged only. *)
(* go: internal/transport/quic/server.go:199-234 (handleStream) *)
Definition handleStream (ReadTimeout : Z) (deadline_set : bool) (st : incoming) : list stream_event :=
  if (0 <? ReadTimeout) && negb deadline_set then []
  else
    let '(data, failed) := ReadAll_limited (MaxMessageSize + 1) st in
    if failed || (MaxMessageSize <? len data) then []
    else
      SMessage data ::
      match OnMessage data with
      | Err _ => []
      | Ok payload => match Handler with Some _ => [SHandle payload] | None => [] end
      end.

(** A stream's content reaches the plugins whole or not at all: exactly if the
    peer ended the stream (and the read deadline could be set) and sent no more
    than the limit; an oversized stream is never cut to size and passed on, even
    though the reader underneath truncates silently. The handler gets what the
    plugins made of it, unless they refused it. *)
Theorem quic_stream_message ReadTimeout deadline_set st :
  0 <= MaxMessageSize ->
  handleStream ReadTimeout deadline_set st =
  if ((ReadTimeout <=? 0) || deadline_set) && in_ended st && (len (in_content st) <=? MaxMessageSize) then
    SMessage (in_content st) ::
    match OnMessage (in_content st), Handler with Ok payload, Some _ => [SHandle payload] | _, _ => [] end
  else [].
Proof.
  intros Hm. unfold handleStream, ReadAll_limited. destruct st as [content ended]. cbn [in_content in_ended].
  pose proof (len_nonneg content) as Hl.
  destruct ((0 <? ReadTimeout) && negb deadline_set) eqn:Ed.
  { destruct deadline_set; [by rewrite andb_false_r in Ed|]. replace (ReadTimeout <=? 0) with false by lia. done. }
  replace ((ReadTimeout <=? 0) || deadline_set) with true by (destruct deadline_set; lia).
  destruct (MaxMessageSize + 1 <=? len content) eqn:Eb.
  - replace (len content <=? MaxMessageSize) with false by lia. rewrite andb_false_r. cbn [orb andb].
    replace (MaxMessageSize <? len (take (Z.to_nat (MaxMessageSize + 1)) content)) with true; [done|].
    symmetry. apply Z.ltb_lt. apply Z.leb_le in Eb. unfold len in *. rewrite length_take. lia.
  - apply Z.leb_gt in Eb. replace (MaxMessageSize <? len content) with false by lia. replace (len content <=? MaxMessageSize) with true by lia.
    destruct ended; cbn; [|done]. by destruct (OnMessage content), Handler.
Qed.
End stream.

(** ** The accept loop *)

(** What [listener.Accept] and the admission come back with: a connection, let in
    or not; or an error, with the server stopping or not. *)
Inductive accept_outcome : Type := Accepted (conn : Z) (slot : bool) | AcceptError (stopping : bool).

Inductive accept_action : Type := HandleConn (conn : Z) | CloseBusy (conn : Z).

(* go: internal/transport/quic/server.go:133-155 (acceptLoop) *)
Fixpoint acceptLoop (outs : list accept_outcome) : list accept_action :=
  match outs with
  | [] => []
  | AcceptError true :: _ => []
  | AcceptError false :: outs => acceptLoop outs
  | Accepted c true :: outs => HandleConn c :: acceptLoop outs
  | Accepted c false :: outs => CloseBusy c :: acceptLoop outs
  end.

(* go: internal/transport/quic/server.go:268-273 (quicConfig) *)
Definition quicConfig (MaxIdleTimeout : Z) : option Z := if MaxIdleTimeout <=? 0 then None else Some MaxIdleTimeout.

(** ** Witnesses and examples *)

Lemma quic_delivery_witness : exists full carried taken, accepted newSession = full ++ taken ++ [] /\ in_hand carried taken.
Proof.
  destruct (quic_delivery 128 newSession ltac:(constructor)) as (full & carried & taken & _ & H1 & H2 & _).
  by exists full, carried, taken.
Defined.

Lemma stream_error_silences_session_witness : exists s, reachable 128 s /\ accepted s = [bytes_of_string "a"; bytes_of_string "b"].
Proof.
  destruct (stream_error_silences_session 128 (bytes_of_string "a") [bytes_of_string "b"]) as (s & H1 & _ & H2 & _);
    [discriminate|cbn; lia|cbn; lia|]. by exists s.
Defined.

Definition closed_session : session := mkSession [bytes_of_string "late"] WSelect CClosed [] [bytes_of_string "late"] [].

Lemma quic_close_ends_writer_witness : (1 <= 2)%nat /\ exists s, writer_step closed_session s.
Proof.
  split; [lia|].
  apply (quic_close_ends_writer 128 closed_session 0 closed_session); [reflexivity|constructor|discriminate].
Defined.

Lemma quic_stream_message_witness :
  handleStream 3 (fun b => Ok b) None 0 true (mkIncoming (bytes_of_string "1234") true) = [].
Proof. rewrite (quic_stream_message 3 (fun b => Ok b) None 0 true); [reflexivity|lia]. Defined.

(** An empty message is delivered: a stream opened and closed with nothing on it. *)
Example empty_message_gets_a_stream :
  exists s, reachable 128 s /\ streams s = [[]] /\ accepted s = [[]] /\ writer s = WSelect.
Proof.
  exists (mkSession [] WSelect COpen [] [[]] [[]]). split; [|by split_and!]. unfold reachable.
  etrans; [apply (sends_accepted 128 [[]] newSession); [done|done|cbn; lia]|]. cbn.
  eapply rtc_l; [by eapply step_writer, writer_take|]. cbn.
  eapply rtc_l; [by eapply step_writer, writer_open|]. cbn.
  eapply rtc_l; [by eapply step_writer, writer_written|]. constructor.
Qed.
