(* ===== verification/Metrics.v ===== *)
(** * Metrics: [internal/infra/observability] (prometheus.go, metrics.go)

    The Prometheus registry: series and their identity, counters, gauges and
    histograms, and the text exposition with its escaping; and the in-memory
    registry. Every operation runs under one lock, so a registry is a state and
    its history a sequence of operations. Values are float64, as in [Acceptor]. *)
From S2P Require Import Prelude Bytes Acceptor SessionStore.
From Stdlib Require Import SpecFloat.
Local Open Scope Z_scope.
Local Open Scope list_scope.

Abbreviation B := bytes_of_string.

(** ** Series *)

(* go: internal/infra/observability/prometheus.go:27-32 (seriesKey) *)
Record seriesKey : Type := mkKey { k_name : bytes; label0 : bytes; value0 : bytes; rest : bytes }.

#[export] Instance seriesKey_eq_dec : EqDecision seriesKey.
Proof. solve_decision. Defined.
#[export] Instance seriesKey_countable : Countable seriesKey.
Proof.
  refine (inj_countable' (fun k => (k_name k, label0 k, value0 k, rest k)) (fun '(a, b, c, d) => mkKey a b c d) _).
  by intros [].
Defined.

(* go: internal/infra/observability/prometheus.go:34-46 (newSeriesKey) *)
Definition newSeriesKey (name : bytes) (labels : list bytes) : seriesKey :=
  match labels with
  | [] => mkKey name [] [] []
  | [l; v] => if bool_decide (l <> []) then mkKey name l v [] else mkKey name [] [] (Join [0] labels)
  | _ => mkKey name [] [] (Join [0] labels)
  end.

(** ** The registry *)

(* go: internal/infra/observability/prometheus.go:56-60 (promMetric) *)
Record promMetric : Type := mkMetric { m_name : bytes; m_labels : list bytes; m_value : float64 }.

(* go: internal/infra/observability/prometheus.go:67-74 (promHistogram) *)
Record promHistogram : Type := mkHist {
  h_name : bytes;
  h_labels : list bytes;
  h_buckets : list float64;
  h_counts : list Z;
  h_count : Z;
  h_sum : float64
}.

(** The first bucket whose bound is at least the value. *)
Fixpoint find_bucket (value : float64) (bounds : list float64) : option nat :=
  match bounds with
  | [] => None
  | b :: bounds => if fleb value b then Some 0%nat else S <$> find_bucket value bounds
  end.

(* go: internal/infra/observability/prometheus.go:80-92 (observe) *)
Definition observe (value : float64) (h : promHistogram) : promHistogram :=
  let counts :=
    match find_bucket value (h_buckets h) with
    | Some i => alter (fun n => u64 (n + 1)) i (h_counts h)
    | None => h_counts h
    end in
  mkHist (h_name h) (h_labels h) (h_buckets h) counts (u64 (h_count h + 1)) (fadd (h_sum h) value).

(** [a / b], the float64 nearest to it. *)
Definition fl (a b : Z) : float64 := fdiv (float_of_int a) (float_of_int b).

(* go: internal/infra/observability/prometheus.go:99-107 (DefaultHistogramBuckets) *)
Definition DefaultHistogramBuckets : list float64 :=
  [fl 1 1000000; fl 25 10000000; fl 5 1000000;
   fl 1 100000; fl 25 1000000; fl 5 100000;
   fl 1 10000; fl 25 100000; fl 5 10000;
   fl 1 1000; fl 25 10000; fl 5 1000;
   fl 1 100; fl 25 1000; fl 5 100;
   fl 1 10; fl 25 100; fl 5 10;
   fl 1 1; fl 25 10; fl 5 1; fl 10 1].

(* go: internal/infra/observability/prometheus.go:48-54 (PrometheusMetrics) *)
Record PrometheusMetrics : Type := mkPM {
  counters : gmap seriesKey promMetric;
  gauges : gmap seriesKey promMetric;
  histograms : gmap seriesKey promHistogram;
  buckets : gmap bytes (list float64)
}.

(* go: internal/infra/observability/prometheus.go:109-116 (NewPrometheusMetrics) *)
Definition NewPrometheusMetrics : PrometheusMetrics := mkPM ∅ ∅ ∅ ∅.

(** [sort.Float64s]: NaN before everything. *)
Definition isNaN (f : float64) : bool := negb (fleb f f).
Definition sort_before (a b : float64) : bool := fltb a b || (isNaN a && negb (isNaN b)).
Fixpoint insert_float (x : float64) (l : list float64) : list float64 :=
  match l with
  | [] => [x]
  | y :: l' => if sort_before y x then y :: insert_float x l' else x :: l
  end.
Definition Float64s (l : list float64) : list float64 := foldr insert_float [] l.

Definition feqb : float64 -> float64 -> bool := SFeqb.

(** Some bound equals the one before it. *)
Fixpoint has_duplicate (l : list float64) : bool :=
  match l with
  | a :: (b :: _) as l' => feqb b a || has_duplicate l'
  | _ => false
  end.

Inductive register_error : Type := NameRequired | NoBuckets | DuplicateBucket | AlreadyObserved.

(* go: internal/infra/observability/prometheus.go:129-152 (RegisterHistogram) *)
Definition RegisterHistogram (name : bytes) (bs : list float64) (m : PrometheusMetrics) :
    option register_error * PrometheusMetrics :=
  if bool_decide (name = []) then (Some NameRequired, m)
  else if bool_decide (bs = []) then (Some NoBuckets, m)
  else
    let clean := Float64s bs in
    if has_duplicate clean then (Some DuplicateBucket, m)
    else if bool_decide (Exists (fun k => k_name k = name) (map fst (map_to_list (histograms m)))) then (Some AlreadyObserved, m)
    else (None, mkPM (counters m) (gauges m) (histograms m) (<[name := clean]> (buckets m))).

(* go: internal/infra/observability/prometheus.go:156-161 (bucketsFor) *)
Definition bucketsFor (name : bytes) (m : PrometheusMetrics) : list float64 :=
  default DefaultHistogramBuckets (buckets m !! name).

(* go: internal/infra/observability/prometheus.go:163-173 (IncCounter) *)
Definition IncCounter (name : bytes) (labels : list bytes) (m : PrometheusMetrics) : PrometheusMetrics :=
  let key := newSeriesKey name labels in
  let metric := default (mkMetric name labels f0) (counters m !! key) in
  mkPM (<[key := mkMetric (m_name metric) (m_labels metric) (fadd (m_value metric) f1)]> (counters m))
    (gauges m) (histograms m) (buckets m).

(* go: internal/infra/observability/prometheus.go:175-185 (SetGauge) *)
Definition SetGauge (name : bytes) (value : float64) (labels : list bytes) (m : PrometheusMetrics) : PrometheusMetrics :=
  let key := newSeriesKey name labels in
  let gauge := default (mkMetric name labels f0) (gauges m !! key) in
  mkPM (counters m) (<[key := mkMetric (m_name gauge) (m_labels gauge) value]> (gauges m)) (histograms m) (buckets m).

(* go: internal/infra/observability/prometheus.go:187-203 (ObserveHistogram) *)
Definition ObserveHistogram (name : bytes) (value : float64) (labels : list bytes) (m : PrometheusMetrics) : PrometheusMetrics :=
  let key := newSeriesKey name labels in
  let hist :=
    match histograms m !! key with
    | Some h => h
    | None => let bs := bucketsFor name m in mkHist name labels bs (replicate (length bs) 0) 0 f0
    end in
  mkPM (counters m) (gauges m) (<[key := observe value hist]> (histograms m)) (buckets m).

(** ** The exposition *)

(** The length of the rune a text begins with: one for a byte that begins none. *)
Definition cont (c lo hi : Z) : bool := (lo <=? c) && (c <=? hi).
Definition rune_len (s : bytes) : nat :=
  match s with
  | c :: c1 :: s1 =>
      if cont c 194 223 && cont c1 128 191 then 2
      else
        match s1 with
        | c2 :: s2 =>
            if cont c2 128 191 then
              if ((c =? 224) && cont c1 160 191) || ((cont c 225 236 || cont c 238 239) && cont c1 128 191)
                 || ((c =? 237) && cont c1 128 159) then 3
              else
                match s2 with
                | c3 :: _ =>
                    if cont c3 128 191 &&
                       (((c =? 240) && cont c1 144 191) || (cont c 241 243 && cont c1 128 191) || ((c =? 244) && cont c1 128 143))
                    then 4 else 1
                | [] => 1
                end
            else 1
        | [] => 1
        end
  | _ => 1
  end.

Definition letter (c : Z) : bool := cont c 97 122 || cont c 65 90 || (c =? 95).

(** The runes of a name from here; [skip] bytes still belong to the one before. *)
Fixpoint sanitize_from (skip : nat) (first : bool) (s : bytes) : bytes :=
  match s with
  | [] => []
  | c :: s' =>
      match skip with
      | S k => sanitize_from k false s'
      | O => (if letter c || (negb first && is_digit c) then c else 95) :: sanitize_from (rune_len s - 1) false s'
      end
  end.

(* go: internal/infra/observability/prometheus.go:314-327 (sanitizeLabelName) *)
Definition sanitizeLabelName (name : bytes) : bytes :=
  if bool_decide (name = []) then B "label" else sanitize_from 0 true name.

(** [strings.ReplaceAll] of a single byte. *)
Definition ReplaceByte (c : Z) (by_ s : bytes) : bytes := s ≫= (fun b => if b =? c then by_ else [b]).

(* go: internal/infra/observability/prometheus.go:329-333 (escapeLabelValue) *)
Definition escapeLabelValue (value : bytes) : bytes :=
  let value := ReplaceByte 92 [92; 92] value in
  let value := ReplaceByte 10 [92; 110] value in
  ReplaceByte 34 [92; 34] value.

(** [name="value"] *)
Definition pair_text (name value : bytes) : bytes := name ++ [61; 34] ++ escapeLabelValue value ++ [34].

Fixpoint even_pairs (labels : list bytes) : list bytes :=
  match labels with
  | l :: v :: labels => pair_text (sanitizeLabelName l) v :: even_pairs labels
  | _ => []
  end.

Definition odd_pairs (labels : list bytes) : list bytes :=
  imap (fun i v => pair_text (B "label_" ++ itoa (Z.of_nat i)) v) labels.

(* go: internal/infra/observability/prometheus.go:297-312 (promLabels) *)
Definition promLabels (labels : list bytes) : bytes :=
  match labels with
  | [] => []
  | _ => [123] ++ Join [44] (if Nat.even (length labels) then even_pairs labels else odd_pairs labels) ++ [125]
  end.

(* go: internal/infra/observability/prometheus.go:290-295 (promLabelsWithBucket) *)
Definition promLabelsWithBucket (labels : list bytes) (le : bytes) : bytes := promLabels (labels ++ [B "le"; le]).

(** The order of the series: by name, then by labels as rendered. *)
Fixpoint bytes_less (a b : bytes) : bool :=
  match a, b with
  | [], [] => false
  | [], _ => true
  | _, [] => false
  | x :: a, y :: b => if x =? y then bytes_less a b else x <? y
  end.

Section sorted.
Context {A : Type} (name : A -> bytes) (labels : A -> list bytes).

Definition before (x y : A) : bool :=
  if bool_decide (name x = name y) then bytes_less (promLabels (labels x)) (promLabels (labels y))
  else bytes_less (name x) (name y).

Fixpoint insert_series (x : A) (l : list A) : list A :=
  match l with
  | [] => [x]
  | y :: l' => if before y x then y :: insert_series x l' else x :: l
  end.

(** The series of a type, from the map's order. *)
Definition sorted (l : list A) : list A := foldr insert_series [] l.
End sorted.

(* go: internal/infra/observability/prometheus.go:260-272 (sortedMetrics) *)
Definition sortedMetrics (m : gmap seriesKey promMetric) : list promMetric :=
  sorted m_name m_labels (map snd (map_to_list m)).

(* go: internal/infra/observability/prometheus.go:274-286 (sortedHistograms) *)
Definition sortedHistograms (m : gmap seriesKey promHistogram) : list promHistogram :=
  sorted h_name h_labels (map snd (map_to_list m)).

Section export.
(** [strconv.FormatFloat(f, 'f', -1, 64)] *)
Variable formatFloat : float64 -> bytes.

(** A TYPE line before the first series of a family. *)
Definition type_line (declared : gset bytes) (name typ : bytes) : bytes :=
  if decide (name ∈ declared) then [] else B "# TYPE " ++ name ++ [32] ++ typ ++ [10].

Fixpoint metric_lines (typ : bytes) (declared : gset bytes) (l : list promMetric) : bytes :=
  match l with
  | [] => []
  | m :: l =>
      type_line declared (m_name m) typ ++
      m_name m ++ promLabels (m_labels m) ++ [32] ++ formatFloat (m_value m) ++ [10] ++
      metric_lines typ ({[m_name m]} ∪ declared) l
  end.

(* go: internal/infra/observability/prometheus.go:221-232 (writePromMetrics) *)
Definition writePromMetrics (typ : bytes) (m : gmap seriesKey promMetric) : bytes := metric_lines typ ∅ (sortedMetrics m).

(** The running totals of the buckets. *)
Fixpoint cumulative (acc : Z) (counts : list Z) : list Z :=
  match counts with [] => [] | n :: counts => let acc := u64 (acc + n) in acc :: cumulative acc counts end.

Definition bucket_line (h : promHistogram) (le : bytes) (n : Z) : bytes :=
  h_name h ++ B "_bucket" ++ promLabelsWithBucket (h_labels h) le ++ [32] ++ utoa n ++ [10].

Definition histogram_lines (h : promHistogram) : bytes :=
  concat (zip_with (fun b n => bucket_line h (formatFloat b) n) (h_buckets h) (cumulative 0 (h_counts h))) ++
  bucket_line h (B "+Inf") (h_count h) ++
  h_name h ++ B "_count" ++ promLabels (h_labels h) ++ [32] ++ utoa (h_count h) ++ [10] ++
  h_name h ++ B "_sum" ++ promLabels (h_labels h) ++ [32] ++ formatFloat (h_sum h) ++ [10].

Fixpoint histogram_family (declared : gset bytes) (l : list promHistogram) : bytes :=
  match l with
  | [] => []
  | h :: l => type_line declared (h_name h) (B "histogram") ++ histogram_lines h ++ histogram_family ({[h_name h]} ∪ declared) l
  end.

(* go: internal/infra/observability/prometheus.go:234-256 (writePromHistograms) *)
Definition writePromHistograms (m : gmap seriesKey promHistogram) : bytes := histogram_family ∅ (sortedHistograms m).

(* go: internal/infra/observability/prometheus.go:205-214 (ExportText) *)
Definition ExportText (m : PrometheusMetrics) : bytes :=
  writePromMetrics (B "counter") (counters m) ++ writePromMetrics (B "gauge") (gauges m) ++ writePromHistograms (histograms m).
End export.

(** ** The in-memory registry *)

(* go: internal/infra/observability/metrics.go:76-81 (metricKey) *)
Definition metricKey (name : bytes) (labels : list bytes) : bytes :=
  match labels with [] => name | _ => name ++ [123] ++ Join [44] labels ++ [125] end.

(* go: internal/infra/observability/metrics.go:10-15 (MemoryMetrics) *)
Record MemoryMetrics : Type := mkMM {
  mm_counters : gmap bytes float64;
  mm_gauges : gmap bytes float64;
  mm_histograms : gmap bytes (list float64)
}.

Definition maxMemoryObservations : nat := N.to_nat 65536.

(* go: internal/infra/observability/metrics.go:17-23 (NewMemoryMetrics) *)
Definition NewMemoryMetrics : MemoryMetrics := mkMM ∅ ∅ ∅.

(* go: internal/infra/observability/metrics.go:25-30 (IncCounter) *)
Definition mm_IncCounter (name : bytes) (labels : list bytes) (m : MemoryMetrics) : MemoryMetrics :=
  let key := metricKey name labels in
  mkMM (<[key := fadd (default f0 (mm_counters m !! key)) f1]> (mm_counters m)) (mm_gauges m) (mm_histograms m).

(* go: internal/infra/observability/metrics.go:32-37 (SetGauge) *)
Definition mm_SetGauge (name : bytes) (value : float64) (labels : list bytes) (m : MemoryMetrics) : MemoryMetrics :=
  mkMM (mm_counters m) (<[metricKey name labels := value]> (mm_gauges m)) (mm_histograms m).

(* go: internal/infra/observability/metrics.go:43-53 (ObserveHistogram) *)
Definition mm_ObserveHistogram (name : bytes) (value : float64) (labels : list bytes) (m : MemoryMetrics) : MemoryMetrics :=
  let key := metricKey name labels in
  let hist := default [] (mm_histograms m !! key) ++ [value] in
  let hist := if (maxMemoryObservations <? length hist)%nat then drop (length hist - maxMemoryObservations) hist else hist in
  mkMM (mm_counters m) (mm_gauges m) (<[key := hist]> (mm_histograms m)).

(** ** Series identity *)

Lemma cut_sep (c : Z) (a b x y : bytes) : c ∉ a -> c ∉ b -> a ++ c :: x = b ++ c :: y -> a = b /\ x = y.
Proof.
  revert b. induction a as [|z a IH]; intros [|w b] Ha Hb E; cbn in E.
  - by injection E as ->.
  - injection E as -> ->. set_solver.
  - injection E as -> E. set_solver.
  - injection E as -> E. destruct (IH b) as [-> ->]; [set_solver..|done|done].
Qed.

Lemma sep_not_in (c : Z) (a b : bytes) x : c ∉ a -> a = b ++ c :: x -> False.
Proof. intros Ha ->. set_solver. Qed.

Lemma Join_cons (c : Z) x y l : Join [c] (x :: y :: l) = x ++ c :: Join [c] (y :: l).
Proof. done. Qed.

(** Texts without the separator are told apart by their join, but for none and
    one empty. *)
Lemma Join_inj (c : Z) l1 l2 :
  Forall (fun x => c ∉ x) l1 -> Forall (fun x => c ∉ x) l2 -> l1 <> [] -> l2 <> [] -> Join [c] l1 = Join [c] l2 -> l1 = l2.
Proof.
  intros H1. revert l2. induction H1 as [|x l1 Hx H1 IH]; intros l2 H2 N1 N2 E; [done|].
  destruct H2 as [|y l2 Hy H2]; [done|]. destruct l1 as [|x' l1], l2 as [|y' l2].
  - cbn in E. by subst.
  - rewrite Join_cons in E. cbn [Join] in E. exfalso. by apply (sep_not_in c x y _ Hx E).
  - rewrite Join_cons in E. cbn [Join] in E. exfalso. symmetry in E. by apply (sep_not_in c y x _ Hy E).
  - rewrite !Join_cons in E. destruct (cut_sep _ _ _ _ _ Hx Hy E) as [-> E']. f_equal. by apply IH.
Qed.

Lemma Join_nil (c : Z) l : Join [c] l = [] -> l = [] \/ l = [[]].
Proof. destruct l as [|x [|y l]]; cbn; [auto|intros ->; auto|]. intros E. by destruct x. Qed.

Definition inline (labels : list bytes) : bool := match labels with [l; _] => bool_decide (l <> []) | _ => false end.

Lemma newSeriesKey_rest name labels :
  inline labels = false -> newSeriesKey name labels = mkKey name [] [] (Join [0] labels).
Proof. destruct labels as [|l [|v [|]]]; cbn; try done. by intros ->. Qed.

Lemma newSeriesKey_inline name labels :
  inline labels = true -> exists l v, labels = [l; v] /\ l <> [] /\ newSeriesKey name labels = mkKey name l v [].
Proof. destruct labels as [|l [|v [|]]]; cbn; try done. intros H. rewrite H. apply bool_decide_eq_true in H. by exists l, v. Qed.

(** The identity of a series: two calls report to the same series exactly if
    name and labels agree, except that a single empty label is the same as no
    label; provided that no label holds a NUL byte, which the key uses as its
    separator. *)
Theorem series_identity name name' labels labels' :
  Forall (fun x => 0 ∉ x) labels -> Forall (fun x => 0 ∉ x) labels' ->
  newSeriesKey name labels = newSeriesKey name' labels' <->
  name = name' /\ (labels = labels' \/ labels = [] /\ labels' = [[]] \/ labels = [[]] /\ labels' = []).
Proof.
  intros H H'. destruct (inline labels) eqn:Ei; [destruct (newSeriesKey_inline name _ Ei) as (l & v & -> & Hl & ->)|rewrite (newSeriesKey_rest _ _ Ei)];
    (destruct (inline labels') eqn:Ei'; [destruct (newSeriesKey_inline name' _ Ei') as (l' & v' & -> & Hl' & ->)|rewrite (newSeriesKey_rest _ _ Ei')]).
  - split; [by intros [= -> -> ->]; auto|]. intros (-> & [[= -> ->]|[[? ?]|[? ?]]]); done.
  - split; [by intros [= -> -> ?]|]. intros (-> & [<-|[[? ?]|[? ?]]]); try done. by rewrite Ei in Ei'.
  - split; [by intros [= -> <- ?]|]. intros (-> & [->|[[? ?]|[? ?]]]); try done. by rewrite Ei in Ei'.
  - split.
    + intros [= -> E]. split; [done|]. destruct (decide (labels = [])) as [->|N]; [|destruct (decide (labels' = [])) as [->|N']].
      * symmetry in E. destruct (Join_nil _ _ E); auto.
      * destruct (Join_nil _ _ E); auto.
      * left. by eapply Join_inj.
    + intros (-> & [->|[[-> ->]|[-> ->]]]); done.
Qed.

(** ** The order of float64 *)

(** Where a number stands: its sign and size, then exponent and significand. *)
Definition rank (f : float64) : option (Z * Z * Z) :=
  match f with
  | S754_nan => None
  | S754_infinity s => Some (if s then -2 else 2, 0, 0)
  | S754_zero _ => Some (0, 0, 0)
  | S754_finite s m e => Some (if s then (-1, - e, - Z.pos m) else (1, e, Z.pos m))
  end.

Definition lex (x y : Z * Z * Z) : Prop :=
  let '(a, b, c) := x in let '(a', b', c') := y in a < a' \/ a = a' /\ (b < b' \/ b = b' /\ c <= c').

Lemma fleb_rank a b :
  fleb a b = true <-> exists x y, rank a = Some x /\ rank b = Some y /\ lex x y.
Proof.
  assert (forall x y, rank a = Some x -> rank b = Some y -> (fleb a b = true <-> lex x y)) as H.
  { intros x y Hx Hy. destruct a as [[]|[]| |[] m e], b as [[]|[]| |[] m' e']; cbn in Hx, Hy; simplify_eq;
      unfold fleb, SFleb; cbn; try lia;
      change (PosDef.Pos.compare_cont Eq m m') with (Pos.compare m m');
      destruct (Z.compare_spec e e'), (Pos.compare_spec m m') as [->|?|?]; cbn; lia. }
  split.
  - intros E. destruct (rank a) as [x|] eqn:Ha, (rank b) as [y|] eqn:Hb; [exists x, y; naive_solver|..];
      exfalso; destruct a as [[]|[]| |[] m e], b as [[]|[]| |[] m' e']; done.
  - intros (x & y & Hx & Hy & L). by apply (H x y).
Qed.

Lemma fltb_rank a b x y : rank a = Some x -> rank b = Some y -> (fltb a b = true <-> ~ lex y x).
Proof.
  intros Hx Hy. destruct a as [[]|[]| |[] m e], b as [[]|[]| |[] m' e']; cbn in Hx, Hy; simplify_eq;
    unfold fltb, SFltb; cbn; try lia;
    change (PosDef.Pos.compare_cont Eq m m') with (Pos.compare m m');
    destruct (Z.compare_spec e e'), (Pos.compare_spec m m') as [->|?|?]; cbn; lia.
Qed.

Lemma fleb_trans a b c : fleb a b = true -> fleb b c = true -> fleb a c = true.
Proof.
  rewrite !fleb_rank. intros ([[x x'] x''] & [[y y'] y''] & Ha & Hb & L) ([[z z'] z''] & [[w w'] w''] & Hb' & Hc & L').
  do 2 eexists. split; [done|]. split; [done|]. rewrite Hb in Hb'. injection Hb' as <- <- <-. cbn in *. lia.
Qed.

Lemma isNaN_rank f : isNaN f = true <-> rank f = None.
Proof.
  unfold isNaN. destruct (rank f) as [[[x x'] x'']|] eqn:E.
  - replace (fleb f f) with true; [done|]. symmetry. apply fleb_rank. do 2 eexists. split; [done|]. split; [done|]. cbn. lia.
  - by destruct f as [[]|[]| |[]].
Qed.

(** Bounds in the order of a ladder. *)
Definition rung (a b : float64) : Prop := isNaN a = true \/ fleb a b = true.
Abbreviation ladder := (StronglySorted rung).

Lemma rung_trans a b c : rung a b -> rung b c -> rung a c.
Proof.
  unfold rung. intros [Ha|Ha] Hb; [by left|]. destruct Hb as [Hb|Hb]; [|right; by eapply fleb_trans].
  apply isNaN_rank in Hb. apply fleb_rank in Ha as (x & y & _ & E & _). congruence.
Qed.

Lemma rung_sort_before a b : if sort_before a b then rung a b else rung b a.
Proof.
  unfold sort_before, rung. destruct (isNaN a) eqn:Ea; cbn.
  - destruct (fltb a b || negb (isNaN b)) eqn:E; [by left|]. left. apply orb_false_iff in E as [_ E]. by apply negb_false_iff in E.
  - rewrite orb_false_r. unfold isNaN in Ea. apply negb_false_iff in Ea.
    destruct (fltb a b) eqn:E; [right|].
    + unfold fltb, SFltb in E. unfold fleb, SFleb. by destruct (SFcompare a b) as [[]|].
    + destruct (isNaN b) eqn:Eb; [by left|]. right. unfold isNaN in Eb. apply negb_false_iff in Eb.
      apply fleb_rank in Ea as (x & _ & Hx & _). apply fleb_rank in Eb as (y & _ & Hy & _). apply fleb_rank.
      exists y, x. split; [done|]. split; [done|]. destruct (fltb_rank a b x y Hx Hy) as [_ H].
      destruct x as [[x1 x2] x3], y as [[y1 y2] y3]. cbn in *.
      assert (~ ~ (y1 < x1 \/ y1 = x1 /\ (y2 < x2 \/ y2 = x2 /\ y3 <= x3))) as Hnn by (intros N; by rewrite (H N) in E). lia.
Qed.

Lemma insert_float_ladder x l : ladder l -> ladder (insert_float x l).
Proof.
  induction 1 as [|y l Hl IH Hy]; cbn [insert_float]; [by repeat constructor|].
  pose proof (rung_sort_before y x) as H. destruct (sort_before y x).
  - constructor; [done|]. clear IH Hl. induction Hy as [|z l Hz Hy IH]; cbn; [by apply Forall_singleton|].
    destruct (sort_before z x); [by apply Forall_cons|]. apply Forall_cons. split; [done|by apply Forall_cons].
  - constructor; [by constructor|]. constructor; [done|]. eapply Forall_impl; [exact Hy|]. intros z. by apply rung_trans.
Qed.

Lemma Float64s_ladder l : ladder (Float64s l).
Proof. induction l as [|x l IH]; [constructor|]. by apply insert_float_ladder. Qed.

Lemma default_ladder : ladder DefaultHistogramBuckets.
Proof.
  assert (forall l, forallb (fun p => fleb p.1 p.2) (zip l (drop 1 l)) = true -> ladder l) as H.
  { induction l as [|a l IH]; intros H; [constructor|]. destruct l as [|b l]; [by repeat constructor|].
    cbn in H. apply andb_true_iff in H as [Hab H]. constructor; [by apply IH|].
    constructor; [by right|]. specialize (IH H). inversion IH as [|? ? ? Hb]; subst. eapply Forall_impl; [exact Hb|].
    intros c. apply rung_trans. by right. }
  apply H. by vm_compute.
Qed.

(** ** Histograms *)

(** How many of the values are at most a bound. *)
Definition at_most (b : float64) (vs : list float64) : Z := len (filter (fun v => fleb v b = true) vs).

(** From bucket [i] on, one more. *)
Definition bump (i : nat) (l : list Z) : list Z := take i l ++ map (fun n => u64 (n + 1)) (drop i l).

Lemma u64_add_1 a n : u64 (u64 (a + 1) + n) = u64 (u64 (a + n) + 1).
Proof. unfold uwrap. rewrite !Z.add_mod_idemp_l by done. f_equal. lia. Qed.

Lemma cumulative_shift a l : cumulative (u64 (a + 1)) l = map (fun n => u64 (n + 1)) (cumulative a l).
Proof. revert a. induction l as [|n l IH]; intros a; [done|]. cbn [cumulative map]. by rewrite u64_add_1, IH. Qed.

Lemma cumulative_alter i a l :
  cumulative a (alter (fun n => u64 (n + 1)) i l) = bump i (cumulative a l).
Proof.
  revert i a. induction l as [|n l IH]; intros [|i] a; try done; cbn [alter list_alter cumulative].
  - replace (u64 (a + u64 (n + 1))) with (u64 (u64 (a + n) + 1)).
    + by rewrite cumulative_shift.
    + unfold uwrap. rewrite Z.add_mod_idemp_l, Z.add_mod_idemp_r by done. f_equal. lia.
  - change (alter (fun n0 => u64 (n0 + 1)) (S i) (n :: l)) with (n :: alter (fun n0 => u64 (n0 + 1)) i l).
    cbn [cumulative]. by rewrite IH.
Qed.

Lemma at_most_snoc b vs v : at_most b (vs ++ [v]) = at_most b vs + (if fleb v b then 1 else 0).
Proof.
  unfold at_most, len. rewrite filter_app, length_app, filter_cons, filter_nil.
  destruct (fleb v b); [rewrite decide_True by done|rewrite decide_False by done]; cbn [length]; lia.
Qed.

Lemma at_most_bump bs vs v :
  ladder bs ->
  map (fun b => u64 (at_most b (vs ++ [v]))) bs =
  match find_bucket v bs with
  | Some i => bump i (map (fun b => u64 (at_most b vs)) bs)
  | None => map (fun b => u64 (at_most b vs)) bs
  end.
Proof.
  induction 1 as [|b bs Hbs IH Hb]; [done|]. cbn [find_bucket map]. rewrite at_most_snoc.
  assert (forall n, u64 (n + 1) = u64 (u64 n + 1)) as Hw by (intros n; unfold uwrap; by rewrite Z.add_mod_idemp_l).
  destruct (fleb v b) eqn:E.
  - unfold bump. cbn [take drop app map]. rewrite Hw, map_map. f_equal. apply map_ext_in. intros b' Hin.
    rewrite at_most_snoc. rewrite Forall_forall in Hb. destruct (Hb b') as [Hn|Hr]; [by apply list_elem_of_In| |].
    + apply isNaN_rank in Hn. apply fleb_rank in E as (? & y & _ & Hy & _). congruence.
    + rewrite (fleb_trans _ _ _ E Hr). by rewrite Hw.
  - rewrite Z.add_0_r, IH. by destruct (find_bucket v bs).
Qed.

(** A histogram stands for the values observed. *)
Record stands_for (bs : list float64) (vs : list float64) (h : promHistogram) : Prop := {
  sf_buckets : h_buckets h = bs;
  sf_count : h_count h = u64 (len vs);
  sf_sum : h_sum h = fold_left fadd vs f0;
  sf_cumulative : cumulative 0 (h_counts h) = map (fun b => u64 (at_most b vs)) bs
}.

Lemma cumulative_zeros n : cumulative 0 (replicate n 0) = replicate n 0.
Proof. induction n as [|n IH]; [done|]. change (0 :: cumulative 0 (replicate n 0) = 0 :: replicate n 0). by rewrite IH. Qed.

Lemma histogram_empty name labels bs : stands_for bs [] (mkHist name labels bs (replicate (length bs) 0) 0 f0).
Proof.
  split; try done. cbn [h_counts]. rewrite cumulative_zeros. induction bs as [|b bs IH]; [done|]. cbn [length replicate map]. by rewrite IH.
Qed.

Lemma histogram_observe bs vs v h : ladder bs -> stands_for bs vs h -> stands_for bs (vs ++ [v]) (observe v h).
Proof.
  intros Hl [Hb Hc Hs Hq]. split; cbn [observe h_buckets h_count h_sum h_counts].
  - done.
  - rewrite Hc. unfold len, uwrap. rewrite length_app, Z.add_mod_idemp_l by done. f_equal. cbn. lia.
  - by rewrite fold_left_app, Hs.
  - rewrite at_most_bump, Hb by done. destruct (find_bucket v bs) as [i|]; [|done]. by rewrite cumulative_alter, Hq.
Qed.

(** ** Histories of the registry *)

Inductive op : Type :=
| OpInc (name : bytes) (labels : list bytes)
| OpSet (name : bytes) (value : float64) (labels : list bytes)
| OpObserve (name : bytes) (value : float64) (labels : list bytes)
| OpRegister (name : bytes) (bs : list float64).

Definition apply_op (m : PrometheusMetrics) (o : op) : PrometheusMetrics :=
  match o with
  | OpInc name labels => IncCounter name labels m
  | OpSet name v labels => SetGauge name v labels m
  | OpObserve name v labels => ObserveHistogram name v labels m
  | OpRegister name bs => (RegisterHistogram name bs m).2
  end.

Definition history (ops : list op) : PrometheusMetrics := fold_left apply_op ops NewPrometheusMetrics.

(** What was reported for a series. *)
Definition incs (k : seriesKey) (ops : list op) : nat :=
  length (omap (fun o => match o with OpInc n l => if decide (newSeriesKey n l = k) then Some () else None | _ => None end) ops).
Definition sets (k : seriesKey) (ops : list op) : list float64 :=
  omap (fun o => match o with OpSet n v l => if decide (newSeriesKey n l = k) then Some v else None | _ => None end) ops.
Definition observed (k : seriesKey) (ops : list op) : list float64 :=
  omap (fun o => match o with OpObserve n v l => if decide (newSeriesKey n l = k) then Some v else None | _ => None end) ops.

(** The registry agrees with the history. *)
Record agrees (ops : list op) (m : PrometheusMetrics) : Prop := {
  ag_counters k :
    m_value <$> counters m !! k =
    match incs k ops with O => None | n => Some (Nat.iter n (fun v => fadd v f1) f0) end;
  ag_gauges k : m_value <$> gauges m !! k = last (sets k ops);
  ag_histograms k :
    match histograms m !! k with
    | Some h => observed k ops <> [] /\ stands_for (bucketsFor (k_name k) m) (observed k ops) h
    | None => observed k ops = []
    end;
  ag_ladders name : ladder (bucketsFor name m)
}.

Lemma key_name name labels : k_name (newSeriesKey name labels) = name.
Proof. destruct labels as [|l [|v [|]]]; cbn; try done. by destruct (bool_decide _). Qed.

Lemma agrees_new : agrees [] NewPrometheusMetrics.
Proof. split; try done. intros name. apply default_ladder. Qed.

Lemma incs_snoc k ops o :
  incs k (ops ++ [o]) = (incs k ops + match o with OpInc n l => if decide (newSeriesKey n l = k) then 1 else 0 | _ => 0 end)%nat.
Proof.
  unfold incs. rewrite omap_app, length_app. f_equal. destruct o; try done. cbn. by case_decide.
Qed.

Lemma sets_snoc k ops o :
  sets k (ops ++ [o]) = sets k ops ++ match o with OpSet n v l => if decide (newSeriesKey n l = k) then [v] else [] | _ => [] end.
Proof. unfold sets. rewrite omap_app. f_equal. destruct o; try done. cbn. by case_decide. Qed.

Lemma observed_snoc k ops o :
  observed k (ops ++ [o]) =
  observed k ops ++ match o with OpObserve n v l => if decide (newSeriesKey n l = k) then [v] else [] | _ => [] end.
Proof. unfold observed. rewrite omap_app. f_equal. destruct o; try done. cbn. by case_decide. Qed.

Lemma agrees_inc ops m name labels : agrees ops m -> agrees (ops ++ [OpInc name labels]) (IncCounter name labels m).
Proof.
  intros [Hc Hg Hh Hl]. split; try done; intros k; rewrite ?incs_snoc, ?sets_snoc, ?observed_snoc, ?app_nil_r;
    [|apply Hg|apply Hh].
  unfold IncCounter. cbn [counters]. specialize (Hc k). destruct (decide (newSeriesKey name labels = k)) as [<-|N].
  - rewrite lookup_insert_eq. cbn. rewrite Nat.add_1_r. f_equal.
    destruct (counters m !! newSeriesKey name labels) as [c|]; cbn [fmap option_fmap option_map default] in *;
      destruct (incs (newSeriesKey name labels) ops) as [|n]; try done. injection Hc as Hc.
    change (fadd (m_value c) f1 = fadd (Nat.iter (S n) (fun v => fadd v f1) f0) f1). by rewrite Hc.
  - rewrite lookup_insert_ne by done. by rewrite Nat.add_0_r.
Qed.

Lemma agrees_set ops m name v labels : agrees ops m -> agrees (ops ++ [OpSet name v labels]) (SetGauge name v labels m).
Proof.
  intros [Hc Hg Hh Hl]. split; try done; intros k; rewrite ?incs_snoc, ?sets_snoc, ?observed_snoc, ?app_nil_r, ?Nat.add_0_r;
    [apply Hc| |apply Hh].
  unfold SetGauge. cbn [gauges]. specialize (Hg k). destruct (decide (newSeriesKey name labels = k)) as [<-|N].
  - by rewrite lookup_insert_eq, last_snoc.
  - rewrite lookup_insert_ne by done. by rewrite app_nil_r.
Qed.

Lemma agrees_observe ops m name v labels : agrees ops m -> agrees (ops ++ [OpObserve name v labels]) (ObserveHistogram name v labels m).
Proof.
  intros [Hc Hg Hh Hl]. split; try done; intros k; rewrite ?incs_snoc, ?sets_snoc, ?observed_snoc, ?app_nil_r, ?Nat.add_0_r;
    [apply Hc|apply Hg|].
  unfold ObserveHistogram. cbn [histograms]. change (bucketsFor (k_name k) (mkPM _ _ _ (buckets m))) with (bucketsFor (k_name k) m).
  specialize (Hh k). destruct (decide (newSeriesKey name labels = k)) as [<-|N].
  - rewrite lookup_insert_eq, key_name in *. split; [by destruct (observed _ ops)|].
    apply histogram_observe; [apply Hl|]. destruct (histograms m !! newSeriesKey name labels) as [h|]; [by destruct Hh as [_ Hh]|].
    rewrite Hh. apply histogram_empty.
  - rewrite lookup_insert_ne by done. by rewrite app_nil_r.
Qed.

Lemma agrees_register ops m name bs : agrees ops m -> agrees (ops ++ [OpRegister name bs]) (RegisterHistogram name bs m).2.
Proof.
  intros [Hc Hg Hh Hl]. unfold RegisterHistogram.
  assert (agrees (ops ++ [OpRegister name bs]) m) as Hsame.
  { split; try done; intros k; rewrite ?incs_snoc, ?sets_snoc, ?observed_snoc, ?app_nil_r, ?Nat.add_0_r;
      [apply Hc|apply Hg|apply Hh]. }
  repeat (case_bool_decide; [exact Hsame|]). destruct (has_duplicate _); [exact Hsame|].
  case_bool_decide as Hn; [exact Hsame|]. destruct Hsame as [Hc' Hg' Hh' _]. split; try done.
  - intros k. cbn [histograms snd]. specialize (Hh' k). destruct (histograms m !! k) as [h|] eqn:E; [|done].
    replace (bucketsFor (k_name k) _) with (bucketsFor (k_name k) m); [done|]. unfold bucketsFor. cbn [buckets snd].
    rewrite lookup_insert_ne; [done|]. intros ->. apply Hn. apply Exists_exists. exists k. split; [|done].
    apply list_elem_of_fmap. exists (k, h). split; [done|]. by apply elem_of_map_to_list.
  - intros name'. unfold bucketsFor. cbn [buckets snd]. destruct (decide (name = name')) as [<-|N'].
    + rewrite lookup_insert_eq. apply Float64s_ladder.
    + rewrite lookup_insert_ne by done. apply Hl.
Qed.

Lemma agrees_history ops : agrees ops (history ops).
Proof.
  unfold history. induction ops as [|o ops IH] using rev_ind; [apply agrees_new|]. rewrite fold_left_app. cbn [fold_left].
  destruct o; cbn [apply_op]; [by apply agrees_inc|by apply agrees_set|by apply agrees_observe|by apply agrees_register].
Qed.

(** ** Theorems about the registry *)

(** C27: After any sequence of reports and registrations, the registry holds for
    every series exactly what was reported for it: a counter is one added as
    often as it was incremented; a gauge is its latest value; a histogram has the
    ladder in force for its name, the number of observations and their sum, and
    the count exported for each bucket is the number of observed values at most
    its bound (counts modulo 2^64, sums as float64 additions). A ladder cannot
    change under a histogram. *)
Theorem registry_exact ops k :
  let m := history ops in
  m_value <$> counters m !! k =
    match incs k ops with O => None | n => Some (Nat.iter n (fun v => fadd v f1) f0) end /\
  m_value <$> gauges m !! k = last (sets k ops) /\
  match histograms m !! k with
  | Some h =>
      observed k ops <> [] /\ h_buckets h = bucketsFor (k_name k) m /\
      h_count h = u64 (len (observed k ops)) /\ h_sum h = fold_left fadd (observed k ops) f0 /\
      cumulative 0 (h_counts h) = map (fun b => u64 (at_most b (observed k ops))) (h_buckets h)
  | None => observed k ops = []
  end.
Proof.
  cbn zeta. destruct (agrees_history ops) as [Hc Hg Hh _]. split; [apply Hc|]. split; [apply Hg|].
  specialize (Hh k). destruct (histograms _ !! k) as [h|]; [|done]. destruct Hh as (Hn & [-> Hcount Hs Hq]). by split_and!.
Qed.

(** ** Reading an exposition back *)

(** A reader of the exposition format: a quoted value with its escapes, up to
    the closing quote; no raw line feed may occur in it. *)
Fixpoint read_value (s : bytes) : option (bytes * bytes) :=
  match s with
  | [] => None
  | c :: s1 =>
      if c =? 34 then Some ([], s1)
      else if c =? 10 then None
      else if c =? 92 then
        match s1 with
        | [] => None
        | e :: s2 => '(v, r) ← read_value s2; Some ((if e =? 110 then 10 else e) :: v, r)
        end
      else '(v, r) ← read_value s1; Some (c :: v, r)
  end.

Definition name_char (c : Z) : bool := letter c || is_digit c.

Fixpoint read_name (s : bytes) : option (bytes * bytes) :=
  match s with
  | [] => None
  | c :: s1 => if c =? 61 then Some ([], s1) else if name_char c then '(n, r) ← read_name s1; Some (c :: n, r) else None
  end.

(** At most [fuel] pairs, and the closing brace. *)
Fixpoint read_pairs (fuel : nat) (s : bytes) : option (list (bytes * bytes) * bytes) :=
  match fuel with
  | O => None
  | S fuel =>
      '(n, s) ← read_name s;
      match s with
      | 34 :: s =>
          '(v, s) ← read_value s;
          match s with
          | 125 :: s => Some ([(n, v)], s)
          | 44 :: s => '(l, s) ← read_pairs fuel s; Some ((n, v) :: l, s)
          | _ => None
          end
      | _ => None
      end
  end.

Definition read_labels (s : bytes) : option (list (bytes * bytes) * bytes) :=
  match s with 123 :: s => read_pairs (length s) s | _ => None end.

(** The escape of one byte. *)
Definition escape_byte (c : Z) : bytes :=
  if c =? 92 then [92; 92] else if c =? 10 then [92; 110] else if c =? 34 then [92; 34] else [c].

Lemma escapeLabelValue_bytes v : escapeLabelValue v = v ≫= escape_byte.
Proof.
  unfold escapeLabelValue, ReplaceByte. induction v as [|c v IH]; [done|]. csimpl. rewrite !bind_app, IH. f_equal.
  unfold escape_byte. destruct (Z.eqb_spec c 92); [done|]. cbn. destruct (Z.eqb_spec c 10); [done|]. cbn.
  by destruct (Z.eqb_spec c 34).
Qed.

Lemma read_value_escape v r : read_value (escapeLabelValue v ++ 34 :: r) = Some (v, r).
Proof.
  rewrite escapeLabelValue_bytes. induction v as [|c v IH]; [done|]. csimpl. rewrite <- app_assoc. unfold escape_byte at 1.
  destruct (Z.eqb_spec c 92) as [->|N92]; [cbn; by rewrite IH|].
  destruct (Z.eqb_spec c 10) as [->|N10]; [cbn; by rewrite IH|].
  destruct (Z.eqb_spec c 34) as [->|N34]; [cbn; by rewrite IH|].
  cbn [app read_value]. apply Z.eqb_neq in N92, N10, N34. by rewrite N92, N10, N34, IH.
Qed.

Lemma read_name_ok n r : Forall (fun c => name_char c = true) n -> read_name (n ++ 61 :: r) = Some (n, r).
Proof.
  induction 1 as [|c n Hc _ IH]; [done|]. cbn [app read_name]. destruct (Z.eqb_spec c 61) as [->|_]; [done|].
  by rewrite Hc, IH.
Qed.

(** The pairs a set of labels stands for. *)
Fixpoint even_named (labels : list bytes) : list (bytes * bytes) :=
  match labels with l :: v :: labels => (sanitizeLabelName l, v) :: even_named labels | _ => [] end.
Definition label_pairs (labels : list bytes) : list (bytes * bytes) :=
  if Nat.even (length labels) then even_named labels
  else imap (fun i v => (B "label_" ++ itoa (Z.of_nat i), v)) labels.

Definition texts (l : list (bytes * bytes)) : list bytes := map (fun p => pair_text p.1 p.2) l.

Lemma promLabels_texts labels :
  labels <> [] -> promLabels labels = 123 :: Join [44] (texts (label_pairs labels)) ++ [125].
Proof.
  intros Hn. unfold promLabels, label_pairs. destruct labels as [|x labels]; [done|].
  cbn [app]. do 3 f_equal. destruct (Nat.even _).
  - generalize (x :: labels). fix IH 1. intros [|l [|v ls]]; [done|done|]. cbn [even_pairs even_named texts map]. f_equal. apply IH.
  - unfold odd_pairs. symmetry. exact (fmap_imap (fun i v => (B "label_" ++ itoa (Z.of_nat i), v)) (fun p : bytes * bytes => pair_text p.1 p.2) (x :: labels)).
Qed.

Lemma sanitize_from_chars skip first s : Forall (fun c => name_char c = true) (sanitize_from skip first s).
Proof.
  revert skip first. induction s as [|c s IH]; intros [|k] first; cbn [sanitize_from]; try done.
  constructor; [|apply IH]. unfold name_char. destruct (letter c || (negb first && is_digit c)) eqn:E; [|done].
  destruct (letter c); [done|]. cbn in *. by apply andb_true_iff in E as [_ ->].
Qed.

Lemma sanitize_chars n : Forall (fun c => name_char c = true) (sanitizeLabelName n).
Proof. unfold sanitizeLabelName. case_bool_decide; [by repeat constructor|]. apply sanitize_from_chars. Qed.

Lemma label_pairs_chars labels : Forall (fun p => Forall (fun c => name_char c = true) p.1) (label_pairs labels).
Proof.
  unfold label_pairs. destruct (Nat.even _).
  - revert labels. fix IH 1. intros [|l [|v ls]]; [constructor..|]. constructor; [apply sanitize_chars|apply IH].
  - apply Forall_lookup. intros i p Hp. rewrite list_lookup_imap in Hp. apply fmap_Some in Hp as (v & _ & ->). cbn [fst].
    apply Forall_app. split; [by repeat constructor|]. eapply Forall_impl; [apply itoa_digits|]. intros c Hc.
    unfold name_char. cbn. by rewrite Hc, orb_true_r.
Qed.

Lemma read_pairs_ok l fuel r :
  l <> [] -> (length l <= fuel)%nat -> Forall (fun p => Forall (fun c => name_char c = true) p.1) l ->
  read_pairs fuel (Join [44] (texts l) ++ 125 :: r) = Some (l, r).
Proof.
  intros Hn Hf Hl. revert fuel Hn Hf. induction Hl as [|[n v] l Hp Hl IH]; intros fuel Hn Hf; [done|].
  destruct fuel as [|fuel]; [cbn in Hf; lia|]. cbn [fst] in Hp. destruct l as [|p l].
  - cbn [texts map Join fst snd pair_text]. unfold pair_text. rewrite <- !app_assoc. cbn [app read_pairs].
    rewrite (read_name_ok _ _ Hp). cbn. by rewrite read_value_escape.
  - change (texts ((n, v) :: p :: l)) with (pair_text n v :: pair_text p.1 p.2 :: texts l). rewrite Join_cons.
    change (pair_text p.1 p.2 :: texts l) with (texts (p :: l)).
    specialize (IH fuel ltac:(done) ltac:(cbn in *; lia)). revert IH. generalize (Join [44] (texts (p :: l))). intros J IH.
    unfold pair_text. rewrite <- !app_assoc. cbn [app read_pairs]. rewrite (read_name_ok _ _ Hp). cbn.
    rewrite <- ?app_assoc. cbn [app]. rewrite read_value_escape. cbn. by rewrite IH.
Qed.

(** Whatever the labels hold - quotes, backslashes, line feeds, bytes that are
    no text - a scraper reads back exactly their values, each under the
    sanitised name (or its number, if the labels do not come in pairs), and stops
    at the end of the label set: no value can end its quotes, its line or its
    series early. *)
Theorem labels_read_back labels r :
  labels <> [] -> read_labels (promLabels labels ++ r) = Some (label_pairs labels, r).
Proof.
  intros Hn. rewrite (promLabels_texts _ Hn). cbn [app read_labels]. rewrite <- app_assoc. cbn [app].
  assert (label_pairs labels <> []) as Hp.
  { destruct labels as [|x [|y l]]; [done|done|]. unfold label_pairs. by destruct (Nat.even _). }
  apply read_pairs_ok; [done| |apply label_pairs_chars].
  rewrite length_app. cbn [length].
  assert (forall l : list (bytes * bytes), (length l <= length (Join [44%Z] (texts l)))%nat) as Hl; [|specialize (Hl (label_pairs labels)); lia].
  induction l as [|p [|q l] IH]; [done| |].
  - cbn. unfold pair_text. rewrite !length_app. cbn. lia.
  - change (texts (p :: q :: l)) with (pair_text p.1 p.2 :: texts (q :: l)). destruct (texts (q :: l)) as [|t ts] eqn:E; [done|].
    rewrite Join_cons, length_app. cbn [length]. unfold pair_text at 1. rewrite !length_app. cbn [length] in *. lia.
Qed.

(** A label name always comes out as the exposition format requires: not
    empty, of letters, digits and underscores, and not beginning with a digit. *)
Theorem label_name_valid name :
  exists c s, sanitizeLabelName name = c :: s /\ letter c = true /\ Forall (fun c => name_char c = true) s.
Proof.
  pose proof (sanitize_chars name) as H. unfold sanitizeLabelName in *. case_bool_decide as Hn.
  - exists 108, (B "abel"). split; [done|]. split; [done|]. by repeat constructor.
  - destruct name as [|c s]; [done|]. cbn [sanitize_from] in *. eexists _, _. split; [done|]. inversion H; subst. split; [|done].
    by destruct (letter c) eqn:E; cbn.
Qed.

(** ** Theorems about the in-memory registry *)

Inductive mm_op : Type :=
| MInc (name : bytes) (labels : list bytes)
| MSet (name : bytes) (value : float64) (labels : list bytes)
| MObserve (name : bytes) (value : float64) (labels : list bytes).

Definition mm_apply (m : MemoryMetrics) (o : mm_op) : MemoryMetrics :=
  match o with
  | MInc name labels => mm_IncCounter name labels m
  | MSet name v labels => mm_SetGauge name v labels m
  | MObserve name v labels => mm_ObserveHistogram name v labels m
  end.

Definition mm_observed (key : bytes) (ops : list mm_op) : list float64 :=
  omap (fun o => match o with MObserve n v l => if decide (metricKey n l = key) then Some v else None | _ => None end) ops.

(** The latest [n] of a list. *)
Definition latest {A} (n : nat) (l : list A) : list A := drop (length l - n) l.

Lemma latest_snoc {A} n (l : list A) x :
  (0 < n)%nat ->
  latest n (l ++ [x]) = (let h := latest n l ++ [x] in if (n <? length h)%nat then drop (length h - n) h else h).
Proof.
  intros Hn. unfold latest. cbn zeta. rewrite !length_app, !length_drop. cbn [length].
  destruct (Nat.ltb_spec n (length l - (length l - n) + 1)).
  - replace (length l + 1 - n)%nat with ((length l - n) + 1)%nat by lia.
    rewrite drop_app_le by lia. rewrite <- drop_drop.
    replace (length l - (length l - n) + 1 - n)%nat with 1%nat by lia. rewrite drop_app_le; [done|].
    rewrite length_drop. lia.
  - replace (length l + 1 - n)%nat with 0%nat by lia. replace (length l - n)%nat with 0%nat by lia. done.
Qed.

(** The in-memory registry keeps, for every key, the latest 65536 observations
    in order, so it never grows beyond that; and reports of other kinds or keys
    leave it alone. *)
Theorem memory_histogram_latest ops key :
  let m := fold_left mm_apply ops NewMemoryMetrics in
  default [] (mm_histograms m !! key) = latest maxMemoryObservations (mm_observed key ops).
Proof.
  cbn zeta. induction ops as [|o ops IH] using rev_ind; [done|]. rewrite fold_left_app. cbn [fold_left].
  unfold mm_observed in *. rewrite omap_app.
  destruct o as [n l|n v l|n v l]; cbn [mm_apply mm_IncCounter mm_SetGauge mm_histograms omap list_omap];
    [by rewrite app_nil_r|by rewrite app_nil_r|].
  unfold mm_ObserveHistogram. cbn [mm_histograms]. destruct (decide (metricKey n l = key)) as [<-|N].
  - rewrite lookup_insert_eq. cbn [default]. rewrite IH, latest_snoc; [done|]. unfold maxMemoryObservations. lia.
  - rewrite lookup_insert_ne by done. by rewrite app_nil_r.
Qed.

(** ** Bucket bounds *)

Lemma even_named_app l1 l2 : Nat.even (length l1) = true -> even_named (l1 ++ l2) = even_named l1 ++ even_named l2.
Proof.
  revert l1. fix IH 1. intros [|l [|v ls]] H; [done|done|]. cbn [app even_named]. f_equal. by apply IH.
Qed.

(** A bucket line names its bound only if the labels of the histogram come in
    pairs: then [le] is the last label. With an odd number of labels all of them
    are numbered and no [le] is left, so the buckets of such a histogram are
    lines no scraper takes for buckets. *)
Theorem bucket_bound_named labels le :
  if Nat.even (length labels) then label_pairs (labels ++ [B "le"; le]) = label_pairs labels ++ [(B "le", le)]
  else Forall (fun p => p.1 <> B "le") (label_pairs (labels ++ [B "le"; le])).
Proof.
  unfold label_pairs. rewrite length_app, Nat.even_add. cbn [length Nat.even].
  destruct (Nat.even (length labels)) eqn:E; cbn [eqb].
  - by rewrite even_named_app.
  - apply Forall_lookup. intros i p Hp. rewrite list_lookup_imap in Hp. apply fmap_Some in Hp as (v & _ & ->). done.
Qed.

(** ** Examples *)

(** A short way to write numbers: the float as a decimal, "+Inf" for infinity. *)
Definition show_float (f : float64) : bytes :=
  match f with S754_infinity false => B "+Inf" | _ => itoa (float_to_int f) end.

Definition one_observation : promHistogram :=
  observe f1 (mkHist (B "h") [] [f1; S754_infinity false] [0; 0] 0 f0).

(** A ladder that ends in +Inf is accepted, and its last bucket is then exported
    beside the implicit one of the same name. *)
Example infinite_bound_exported_twice :
  (RegisterHistogram (B "h") [f1; S754_infinity false] NewPrometheusMetrics).1 = None /\
  exists a b, histogram_lines show_float one_observation =
    a ++ bucket_line one_observation (B "+Inf") 1 ++ bucket_line one_observation (B "+Inf") 1 ++ b.
Proof.
  split; [reflexivity|].
  exists (bucket_line one_observation (B "1") 1), (B "h_count 1" ++ [10] ++ B "h_sum 1" ++ [10]). reflexivity.
Qed.

(** Two label names that sanitise alike are two series of one text. *)
Example sanitised_series_collide :
  newSeriesKey (B "m") [B "a-b"; B "x"] <> newSeriesKey (B "m") [B "a_b"; B "x"] /\
  promLabels [B "a-b"; B "x"] = promLabels [B "a_b"; B "x"].
Proof. split; [discriminate|reflexivity]. Qed.

(** A name with a two-byte letter; a leading digit. *)
Example sanitize_examples :
  sanitizeLabelName (B "na" ++ [195; 175] ++ B "ve-1") = B "na_ve_1" /\ sanitizeLabelName (B "1st") = B "_st" /\
  sanitizeLabelName [255; 254] = B "__".
Proof. by vm_compute. Qed.

(** A counter stops counting at 2^53. *)
Example counter_saturates : fadd (float_of_int (2 ^ 53)) f1 = float_of_int (2 ^ 53).
Proof. by vm_compute. Qed.

Example export_example :
  ExportText show_float (history [OpInc (B "c") [B "p"; B "tcp"]; OpInc (B "c") [B "p"; B "tcp"]; OpSet (B "g") f1 []]) =
  B "# TYPE c counter" ++ [10] ++ B "c{p=" ++ [34] ++ B "tcp" ++ [34] ++ B "} 2" ++ [10] ++
  B "# TYPE g gauge" ++ [10] ++ B "g 1" ++ [10].
Proof. by vm_compute. Qed.

(** ** Witnesses *)

Lemma series_identity_witness : newSeriesKey (B "m") [] = newSeriesKey (B "m") [[]].
Proof.
  apply (series_identity (B "m") (B "m") [] [[]]); [constructor|constructor; [apply not_elem_of_nil|constructor]|].
  split; [reflexivity|]. right. left. split; reflexivity.
Defined.

Lemma labels_read_back_witness :
  read_labels (promLabels [B "path"; [97; 34; 10; 92]] ++ [32]) = Some ([(B "path", [97; 34; 10; 92])], [32]).
Proof. exact (labels_read_back [B "path"; [97; 34; 10; 92]] [32] ltac:(discriminate)). Defined.
