(* ===== verification/Mqtt.v ===== *)
(** * Mqtt: [internal/infra/mqtt]

    The adapter around an MQTT client library: its options, and its client under
    concurrent [Start], [Stop] and the network, critical section by critical
    section.  A client of the library is known by whether it is connected and
    whether it was disconnected for good; what its calls come back with is free. *)
From S2P Require Import Prelude Bytes Core.
From stdpp Require Import relations.
Local Open Scope Z_scope.
Local Open Scope list_scope.

(** ** Options *)

(** Of the TLS configuration, the handler and the factory only the presence
    matters here. *)
(* go: internal/infra/mqtt/options.go:10-24 (Options) *)
Record Options : Type := mkOptions {
  BrokerURL : bytes;
  ClientID : bytes;
  Username : bytes;
  Password : bytes;
  TLSConfig : bool;
  Topic : bytes;
  QoS : Z;
  HasHandler : bool;
  ConnectTimeout : Z
}.

Definition second : Z := 1000000000.

(* go: internal/infra/mqtt/options.go:30-37 (defaultOptions) *)
Definition defaultOptions : Options :=
  mkOptions [] (bytes_of_string "shark-socket-mqtt") [] [] false [] 0 false (10 * second).

(* go: internal/infra/mqtt/options.go:67-73 (WithConnectTimeout) *)
Definition WithConnectTimeout (timeout : Z) (o : Options) : Options :=
  if 0 <? timeout then
    mkOptions (BrokerURL o) (ClientID o) (Username o) (Password o) (TLSConfig o) (Topic o) (QoS o) (HasHandler o) timeout
  else o.

(** The library's options, where they are set. *)
Record paho_options : Type := mkPaho {
  po_broker : bytes;
  po_client : bytes;
  po_timeout : Z;
  po_auto_reconnect : bool;
  po_clean_session : bool;
  po_resume_subs : bool;
  po_username : option bytes;
  po_password : option bytes;
  po_tls : bool
}.

Definition given (s : bytes) : option bytes := match s with [] => None | _ => Some s end.

(* go: internal/infra/mqtt/options.go:90-113 (pahoOptions) *)
Definition pahoOptions (o : Options) : paho_options :=
  mkPaho (BrokerURL o) (ClientID o) (ConnectTimeout o) true true true (given (Username o)) (given (Password o)) (TLSConfig o).

(* go: internal/infra/mqtt/adapter.go:32-41 (NewAdapter) *)
Definition NewAdapter (opts : list (Options -> Options)) : result error Options :=
  let cfg := fold_left (fun o opt => opt o) opts defaultOptions in
  match BrokerURL cfg with [] => Err (ErrMsg "mqtt broker URL is required") | _ => Ok cfg end.

(** ** Clients *)

(** A client of the library: connected, and disconnected for good. *)
Record client : Type := mkClient { connected : bool; dropped : bool }.

(** [Disconnect] *)
Definition Disconnect (c : client) : client := mkClient false true.

(** ** The adapter *)

(** A call of [Start]: not begun; dialing, subscribing or about to install, with
    the generation it began in and its client; returned. *)
Inductive start_pc : Type :=
| SBegin
| SDial (gen : Z) (id : nat)
| SSubscribe (gen : Z) (id : nat)
| SInstall (gen : Z) (id : nat)
| SReturned (e : option error).

(** [stops] counts the calls of [Stop], and [began] when each Start began, by
    that count: both are history. *)
(* go: internal/infra/mqtt/adapter.go:22-30 (Adapter) *)
Record Adapter : Type := mkAdapter {
  current : option nat;
  gen : Z;
  clients : list client;
  starts : list start_pc;
  began : list Z;
  stops : Z
}.

Definition set_start (i : nat) (pc : start_pc) (a : Adapter) : Adapter :=
  mkAdapter (current a) (gen a) (clients a) (<[i := pc]> (starts a)) (began a) (stops a).

Definition disconnect (id : nat) (a : Adapter) : Adapter :=
  mkAdapter (current a) (gen a) (alter Disconnect id (clients a)) (starts a) (began a) (stops a).

Definition set_current (c : option nat) (a : Adapter) : Adapter :=
  mkAdapter c (gen a) (clients a) (starts a) (began a) (stops a).

(* go: internal/infra/mqtt/adapter.go:180-184 (Connected) *)
Definition Connected (a : Adapter) : bool :=
  match current a with
  | Some id => match clients a !! id with Some c => connected c | None => false end
  | None => false
  end.

(** The first critical section of [Start], and the client it makes. *)
(* go: internal/infra/mqtt/adapter.go:43-53 (Start) *)
Definition start_begin (i : nat) (a : Adapter) : Adapter :=
  if Connected a then set_start i (SReturned None) a
  else
    mkAdapter (current a) (gen a) (clients a ++ [mkClient false false]) (<[i := SDial (gen a) (length (clients a))]> (starts a))
      (<[i := stops a]> (began a)) (stops a).

(** The outcome of waiting for a connection or a subscription. *)
(* go: internal/infra/mqtt/adapter.go:54-71 (Start) *)
Definition start_waited (subscribes : bool) (i : nat) (err : option error) (a : Adapter) : Adapter :=
  match starts a !! i with
  | Some (SDial g id) =>
      match err with
      | Some e => set_start i (SReturned (Some (ErrWrap "mqtt connect" e))) (disconnect id a)
      | None => set_start i (if subscribes then SSubscribe g id else SInstall g id) a
      end
  | Some (SSubscribe g id) =>
      match err with
      | Some e => set_start i (SReturned (Some (ErrWrap "mqtt subscribe" e))) (disconnect id a)
      | None => set_start i (SInstall g id) a
      end
  | _ => a
  end.

(** The last critical section; [ctx_err] is the error of the call's context. *)
(* go: internal/infra/mqtt/adapter.go:73-101 (Start) *)
Definition start_install (i : nat) (ctx_err : option error) (a : Adapter) : Adapter :=
  match starts a !! i with
  | Some (SInstall g id) =>
      if negb (g =? gen a) then
        set_start i (SReturned (Some (match ctx_err with Some e => e | None => ErrMsg "mqtt adapter stopped during start" end)))
          (disconnect id a)
      else if Connected a then set_start i (SReturned None) (disconnect id a)
      else
        let a := match current a with Some old => disconnect old a | None => a end in
        set_start i (SReturned None) (set_current (Some id) a)
  | _ => a
  end.

(* go: internal/infra/mqtt/adapter.go:103-113 (Stop) *)
Definition Stop (a : Adapter) : Adapter :=
  let a := mkAdapter (current a) (u64 (gen a + 1)) (clients a) (starts a) (began a) (stops a + 1) in
  match current a with
  | None => a
  | Some id => set_current None (disconnect id a)
  end.

(** The network connects and disconnects the clients still in use. *)
Definition net (id : nat) (up : bool) (a : Adapter) : Adapter :=
  mkAdapter (current a) (gen a) (alter (fun c => if dropped c then c else mkClient up false) id (clients a)) (starts a) (began a) (stops a).

Section adapter.
(** Whether a topic and a handler are set. *)
Variable subscribes : bool.

Inductive step : Adapter -> Adapter -> Prop :=
| step_begin a i : starts a !! i = Some SBegin -> step a (start_begin i a)
| step_waited a i err : step a (start_waited subscribes i err a)
| step_install a i ctx_err : step a (start_install i ctx_err a)
| step_stop a : step a (Stop a)
| step_net a id up : step a (net id up a).

(** An adapter with [n] calls of [Start] to come. *)
Definition fresh (n : nat) : Adapter := mkAdapter None 0 [] (replicate n SBegin) (replicate n 0) 0.
End adapter.

(** ** What holds throughout *)

(** The client a call of [Start] has in hand, and the generation it began in. *)
Definition holds (pc : start_pc) : option nat :=
  match pc with SDial _ id | SSubscribe _ id | SInstall _ id => Some id | _ => None end.
Definition gen_of (pc : start_pc) : Z :=
  match pc with SDial g _ | SSubscribe g _ | SInstall g _ => g | _ => 0 end.

Definition in_use (a : Adapter) (id : nat) : Prop := exists c, clients a !! id = Some c /\ dropped c = false.

Record wf (a : Adapter) : Prop := {
  w_began : length (began a) = length (starts a);
  w_gen : gen a = u64 (stops a);
  w_stops : 0 <= stops a;
  w_current id : current a = Some id -> in_use a id;
  w_held i pc id : starts a !! i = Some pc -> holds pc = Some id ->
    in_use a id /\ current a <> Some id /\ exists k, began a !! i = Some k /\ gen_of pc = u64 k /\ 0 <= k <= stops a;
  w_one i j pc pc' id : starts a !! i = Some pc -> starts a !! j = Some pc' -> holds pc = Some id -> holds pc' = Some id -> i = j;
  w_owned id : in_use a id -> current a = Some id \/ exists i pc, starts a !! i = Some pc /\ holds pc = Some id;
  w_down id c : clients a !! id = Some c -> dropped c = true -> connected c = false
}.

Lemma wf_fresh n : wf (fresh n).
Proof.
  split; cbn [fresh starts began clients current gen stops]; try done.
  - by rewrite !length_replicate.
  - intros i pc id H. apply lookup_replicate in H as [-> _]. done.
  - intros i j pc pc' id H. apply lookup_replicate in H as [-> _]. done.
  - intros id (c & H & _). done.
Qed.

Lemma in_use_disconnect a id id' : in_use (disconnect id a) id' <-> in_use a id' /\ id' <> id.
Proof.
  unfold in_use, disconnect. cbn [clients]. destruct (decide (id' = id)) as [->|N].
  - rewrite list_lookup_alter_eq. split; [|by intros [_ ?]]. intros (c & (c0 & _ & ->)%fmap_Some & Hd). done.
  - rewrite list_lookup_alter_ne by done. naive_solver.
Qed.

Lemma down_disconnect a id : (forall i c, clients a !! i = Some c -> dropped c = true -> connected c = false) ->
  forall i c, clients (disconnect id a) !! i = Some c -> dropped c = true -> connected c = false.
Proof.
  intros H i c. unfold disconnect. cbn [clients]. destruct (decide (i = id)) as [->|N].
  - rewrite list_lookup_alter_eq. by intros (c0 & _ & ->)%fmap_Some.
  - rewrite list_lookup_alter_ne by done. apply H.
Qed.

(** A call of [Start] gives up its client and returns. *)
Lemma adapter_release a i pc id e :
  wf a -> starts a !! i = Some pc -> holds pc = Some id -> wf (set_start i (SReturned e) (disconnect id a)).
Proof.
  intros [Hb Hg Hs Hc Hh Ho Hu Hd] Hi Hp. destruct (Hh _ _ _ Hi Hp) as (_ & Hne & _).
  assert (forall j pc', <[i := SReturned e]> (starts a) !! j = Some pc' -> holds pc' <> None -> j <> i /\ starts a !! j = Some pc') as Hj.
  { intros j pc' H Hn. destruct (decide (j = i)) as [->|N].
    - rewrite list_lookup_insert_eq in H by by eapply lookup_lt_Some. by injection H as <-.
    - by rewrite list_lookup_insert_ne in H by done. }
  split; unfold set_start; cbn [starts began clients current gen stops disconnect]; try done.
  - by rewrite length_insert.
  - intros id' E. apply (in_use_disconnect a). split; [by apply Hc|]. congruence.
  - intros j pc' id' Hj' Hp'. destruct (Hj j pc' Hj') as [N Hj2]; [congruence|].
    destruct (Hh _ _ _ Hj2 Hp') as (Hi' & H). split; [|exact H]. apply (in_use_disconnect a). split; [done|]. intros ->.
    by apply N, (Ho j i pc' pc id).
  - intros j j' pc1 pc2 id' H1 H2 E1 E2. destruct (Hj j pc1 H1) as [_ ?]; [congruence|]. destruct (Hj j' pc2 H2) as [_ ?]; [congruence|].
    by eapply Ho.
  - intros id' Hi'. apply (in_use_disconnect a) in Hi' as [Hi' N]. destruct (Hu id' Hi') as [?|(j & pc' & Hj' & Hp')]; [by left|right].
    exists j, pc'. split; [|done]. rewrite list_lookup_insert_ne; [done|]. intros ->. congruence.
  - exact (down_disconnect a id Hd).
Qed.

(** It goes on with its client. *)
Lemma wf_advance a i pc pc' :
  wf a -> starts a !! i = Some pc -> holds pc' = holds pc -> gen_of pc' = gen_of pc -> wf (set_start i pc' a).
Proof.
  intros [Hb Hg Hs Hc Hh Ho Hu Hd] Hi Ep Eg.
  assert (forall j q, <[i := pc']> (starts a) !! j = Some q -> exists q', starts a !! j = Some q' /\ holds q = holds q' /\ gen_of q = gen_of q') as Hj.
  { intros j q H. destruct (decide (j = i)) as [->|N].
    - rewrite list_lookup_insert_eq in H by by eapply lookup_lt_Some. injection H as <-. by exists pc.
    - rewrite list_lookup_insert_ne in H by done. by exists q. }
  split; unfold set_start; cbn [starts began clients current gen stops]; try done.
  - by rewrite length_insert.
  - intros j q id H Hq. destruct (Hj j q H) as (q' & H' & E & Eg'). rewrite E in Hq. destruct (Hh _ _ _ H' Hq) as (? & ? & k & ? & ? & ?).
    split; [done|]. split; [done|]. exists k. by rewrite Eg'.
  - intros j j' q1 q2 id H1 H2 E1 E2. destruct (Hj j q1 H1) as (q1' & H1' & F1 & _). destruct (Hj j' q2 H2) as (q2' & H2' & F2 & _).
    apply (Ho j j' q1' q2' id); congruence.
  - intros id Hid. destruct (Hu id Hid) as [?|(j & q & Hj' & Hq)]; [by left|right]. destruct (decide (j = i)) as [->|N].
    + exists i, pc'. split; [by apply list_lookup_insert_eq; eapply lookup_lt_Some|]. congruence.
    + exists j, q. by rewrite list_lookup_insert_ne.
Qed.

Lemma adapter_begin a i : wf a -> starts a !! i = Some SBegin -> wf (start_begin i a).
Proof.
  intros Hwf Hi. unfold start_begin. destruct (Connected a); [by eapply wf_advance|].
  destruct Hwf as [Hb Hg Hs Hc Hh Ho Hu Hd].
  assert (i < length (starts a))%nat as Hlt by by eapply lookup_lt_Some.
  set (n := length (clients a)). set (cs := clients a ++ [mkClient false false]).
  assert (forall id c, clients a !! id = Some c -> cs !! id = Some c) as Hold by (intros id c E; by apply lookup_app_l_Some).
  assert (cs !! n = Some (mkClient false false)) as Hnew by (by apply list_lookup_middle).
  assert (forall id c, cs !! id = Some c -> clients a !! id = Some c \/ id = n /\ c = mkClient false false) as Hinv.
  { intros id c [?|[? E]]%lookup_app_Some; [by left|right]. destruct (id - length (clients a))%nat as [|k] eqn:Ek; cbn in E.
    - injection E as <-. split; [unfold n; lia|done].
    - done. }
  assert (forall id c, clients a !! id = Some c -> id <> n) as Hn.
  { intros id c E ->. apply lookup_lt_Some in E. unfold n in E. lia. }
  assert (forall j pc, <[i := SDial (gen a) n]> (starts a) !! j = Some pc ->
            j = i /\ pc = SDial (gen a) n \/ j <> i /\ starts a !! j = Some pc) as Hj.
  { intros j pc H. destruct (decide (j = i)) as [->|N].
    - rewrite list_lookup_insert_eq in H by done. injection H as <-. by left.
    - rewrite list_lookup_insert_ne in H by done. by right. }
  split; unfold in_use; cbn [starts began clients current gen stops]; fold n cs; try done.
  - by rewrite !length_insert.
  - intros id E. destruct (Hc id E) as (c & Ec & ?). eauto.
  - intros j pc id Hjj Hp. destruct (Hj j pc Hjj) as [[-> ->]|[N Hj']].
    + cbn in Hp. injection Hp as <-. split; [eauto|]. split.
      * intros E. destruct (Hc n E) as (c & Ec & _). by apply (Hn n c).
      * exists (stops a). cbn. split; [by apply list_lookup_insert_eq; rewrite Hb|]. split; [done|lia].
    + destruct (Hh _ _ _ Hj' Hp) as ((c & Ec & ?) & ? & ?). split; [eauto|]. split; [done|].
      by rewrite list_lookup_insert_ne.
  - intros j j' pc pc' id H1 H2 E1 E2.
    destruct (Hj j pc H1) as [[-> ->]|[N1 H1']], (Hj j' pc' H2) as [[-> ->]|[N2 H2']]; try done.
    + cbn in E1. injection E1 as <-. destruct (Hh _ _ _ H2' E2) as ((c & Ec & _) & _). exfalso. by apply (Hn n c).
    + cbn in E2. injection E2 as <-. destruct (Hh _ _ _ H1' E1) as ((c & Ec & _) & _). exfalso. by apply (Hn n c).
    + by apply (Ho j j' pc pc' id).
  - intros id (c & Ec & Hcd). destruct (Hinv id c Ec) as [Ec'|[-> _]].
    + destruct (Hu id) as [?|(j & pc & Hjj & Hp)]; [by exists c|by left|right]. exists j, pc. split; [|done].
      rewrite list_lookup_insert_ne; [done|]. intros ->. rewrite Hi in Hjj. by injection Hjj as <-.
    + right. exists i, (SDial (gen a) n). split; [by apply list_lookup_insert_eq|done].
  - intros id c Ec. destruct (Hinv id c Ec) as [Ec'|[_ ->]]; [by apply (Hd id)|done].
Qed.

Lemma wf_waited subscribes a i err : wf a -> wf (start_waited subscribes i err a).
Proof.
  intros Hwf. unfold start_waited. destruct (starts a !! i) as [[|g id|g id|g id|e]|] eqn:Hi; try done.
  - destruct err; [by eapply adapter_release|]. destruct subscribes; by eapply wf_advance.
  - destruct err; [by eapply adapter_release|by eapply wf_advance].
Qed.

(** The client that was current is replaced by the one of a call of [Start]. *)
Lemma wf_replace a i g id :
  wf a -> starts a !! i = Some (SInstall g id) ->
  wf (set_start i (SReturned None) (set_current (Some id) (match current a with Some old => disconnect old a | None => a end))).
Proof.
  intros Hwf Hi. set (b := match current a with Some old => disconnect old a | None => a end).
  pose proof Hwf as [Hb Hg Hs Hc Hh Ho Hu Hd].
  destruct (Hh _ _ _ Hi eq_refl) as (Hiu & Hne & _).
  assert (forall id', in_use b id' <-> in_use a id' /\ current a <> Some id') as Hbu.
  { intros id'. unfold b. destruct (current a) as [old|]; [rewrite in_use_disconnect; naive_solver|naive_solver]. }
  assert (began b = began a /\ starts b = starts a /\ gen b = gen a /\ stops b = stops a) as (E1 & E2 & E3 & E4) by (unfold b; by destruct (current a)).
  assert (forall j pc, <[i := SReturned None]> (starts a) !! j = Some pc -> holds pc <> None -> j <> i /\ starts a !! j = Some pc) as Hj.
  { intros j pc H Hn. destruct (decide (j = i)) as [->|N].
    - rewrite list_lookup_insert_eq in H by by eapply lookup_lt_Some. by injection H as <-.
    - by rewrite list_lookup_insert_ne in H by done. }
  split; unfold set_start, set_current; cbn [starts began clients current gen stops]; rewrite ?E1, ?E2, ?E3, ?E4; try done.
  - by rewrite length_insert.
  - intros id' [= <-]. apply (Hbu id). by split.
  - intros j pc id' Hjj Hp. destruct (Hj j pc Hjj) as [N Hj']; [congruence|]. destruct (Hh _ _ _ Hj' Hp) as (Hu' & Hn' & Hk).
    split; [by apply (Hbu id')|]. split; [|exact Hk]. intros [= ->]. by apply N, (Ho j i pc (SInstall g id') id').
  - intros j j' pc pc' id' H1 H2 F1 F2. destruct (Hj j pc H1) as [_ ?]; [congruence|]. destruct (Hj j' pc' H2) as [_ ?]; [congruence|].
    by apply (Ho j j' pc pc' id').
  - intros id' Hid. apply (Hbu id') in Hid as [Hid Hnc]. destruct (Hu id' Hid) as [?|(j & pc & Hjj & Hp)]; [done|].
    destruct (decide (j = i)) as [->|N].
    + rewrite Hi in Hjj. injection Hjj as <-. cbn in Hp. by left.
    + right. exists j, pc. by rewrite list_lookup_insert_ne.
  - unfold b. destruct (current a) as [old|]; [by apply down_disconnect|done].
Qed.

Lemma adapter_install a i ctx_err : wf a -> wf (start_install i ctx_err a).
Proof.
  intros Hwf. unfold start_install. destruct (starts a !! i) as [[|g id|g id|g id|e]|] eqn:Hi; try done.
  destruct (negb (g =? gen a)); [by eapply adapter_release|]. destruct (Connected a); [by eapply adapter_release|].
  by eapply wf_replace.
Qed.

Lemma wf_stop a : wf a -> wf (Stop a).
Proof.
  intros [Hb Hg Hs Hc Hh Ho Hu Hd]. unfold Stop. cbn [current].
  assert (u64 (gen a + 1) = u64 (stops a + 1)) as Hg' by (rewrite Hg; unfold uwrap; by rewrite Z.add_mod_idemp_l).
  destruct (current a) as [old|] eqn:E.
  - split; unfold set_current; cbn [starts began clients current gen stops disconnect]; try done; try lia.
    + intros i pc id Hi Hp. destruct (Hh _ _ _ Hi Hp) as (Hu' & Hn & k & ? & ? & ?).
      split; [apply (in_use_disconnect a); split; [done|congruence]|]. split; [done|]. exists k. split_and!; [done..|lia|lia].
    + intros id Hid. apply (in_use_disconnect a) in Hid as [Hid N]. destruct (Hu id Hid) as [?|?]; [congruence|by right].
    + exact (down_disconnect a old Hd).
  - split; cbn [starts began clients current gen stops]; rewrite ?E; try done; try lia.
    + intros i pc id Hi Hp. destruct (Hh _ _ _ Hi Hp) as (Hu' & Hn & k & ? & ? & ?). split; [done|]. split; [done|].
      exists k. split_and!; [done..|lia|lia].
Qed.

Lemma in_use_net a id up id' : in_use (net id up a) id' <-> in_use a id'.
Proof.
  unfold in_use, net. cbn [clients]. destruct (decide (id' = id)) as [->|N]; [|by rewrite list_lookup_alter_ne].
  rewrite list_lookup_alter_eq. split.
  - intros (c & (c0 & E & ->)%fmap_Some & Hd). exists c0. split; [done|]. destruct (dropped c0) eqn:Ed; [by rewrite <- Hd, <- Ed|done].
  - intros (c & E & Hd). rewrite E. cbn. rewrite Hd. by eexists.
Qed.

Lemma wf_net a id up : wf a -> wf (net id up a).
Proof.
  intros [Hb Hg Hs Hc Hh Ho Hu Hd]. split; try done.
  - intros id' E. by apply in_use_net, Hc.
  - intros i pc id' Hi Hp. destruct (Hh _ _ _ Hi Hp) as (? & ? & ?). split; [by apply in_use_net|done].
  - intros id' Hid%in_use_net. by apply Hu.
  - intros id' c. unfold net. cbn [clients]. destruct (decide (id' = id)) as [->|N].
    + rewrite list_lookup_alter_eq. intros (c0 & E & ->)%fmap_Some. destruct (dropped c0) eqn:Ed; [|done]. intros _. by eapply Hd.
    + rewrite list_lookup_alter_ne by done. apply Hd.
Qed.

Lemma adapter_step subscribes a b : step subscribes a b -> wf a -> wf b.
Proof. intros []; eauto using adapter_begin, wf_waited, adapter_install, wf_stop, wf_net. Qed.

Lemma wf_rtc subscribes a b : rtc (step subscribes) a b -> wf a -> wf b.
Proof. induction 1; eauto using adapter_step. Qed.

(** ** After a stop *)

(** No call of [Start] that had begun can install its client any more. *)
Definition stopped (pending : list nat) (a : Adapter) : Prop :=
  current a = None /\
  forall i, i ∉ pending -> forall pc, starts a !! i = Some pc -> pc <> SBegin /\
    (holds pc <> None -> exists k, began a !! i = Some k /\ k < stops a).

(** A call not yet begun. *)
Definition waiting (a : Adapter) (i : nat) : Prop := starts a !! i = Some SBegin.

Lemma starts_step subscribes a b i : step subscribes a b -> waiting b i -> waiting a i.
Proof.
  unfold waiting. intros [x j Hj|x j err|x j err|x|x id up].
  - unfold start_begin. intros H. destruct (decide (i = j)) as [->|N]; [done|].
    destruct (Connected x); cbn [set_start starts] in H; by rewrite list_lookup_insert_ne in H.
  - unfold start_waited. destruct (starts x !! j) as [[]|] eqn:E; try done; destruct err; cbn [set_start starts disconnect];
      destruct (decide (i = j)) as [->|N];
      rewrite ?list_lookup_insert_ne by done; try done; rewrite list_lookup_insert_eq by (by eapply lookup_lt_Some); try done;
      by destruct subscribes.
  - unfold start_install. destruct (starts x !! j) as [[]|] eqn:E; try done.
    destruct (negb _), (Connected x), (current x); cbn [set_start set_current starts disconnect];
      destruct (decide (i = j)) as [->|N];
      rewrite ?list_lookup_insert_ne by done; try done; by rewrite list_lookup_insert_eq by (by eapply lookup_lt_Some).
  - unfold Stop. cbn [current]. by destruct (current x).
  - done.
Qed.

Lemma uwrap_inj a b : 0 <= a < 2 ^ 64 -> 0 <= b < 2 ^ 64 -> u64 a = u64 b -> a = b.
Proof. intros Ha Hb. by rewrite !uwrap_small. Qed.

(** What a step does to one call and to the client. *)
Lemma stopped_step subscribes pending a b :
  step subscribes a b -> wf a -> stops a < 2 ^ 64 -> stopped pending a ->
  (forall i, i ∈ pending -> waiting b i) -> stopped pending b.
Proof.
  intros Hs Hwf Hlt [Hn Hp] Hw. destruct Hs as [a i Hi|a i err|a i err|a|a id up].
  - (* a call that is not waiting has begun before *)
    exfalso. destruct (decide (i ∈ pending)) as [Hin|Hin].
    + specialize (Hw i Hin). unfold waiting, start_begin in Hw. destruct (Connected a); cbn [set_start starts] in Hw;
        rewrite list_lookup_insert_eq in Hw by (by eapply lookup_lt_Some); done.
    + by destruct (Hp i Hin _ Hi).
  - unfold start_waited. destruct (starts a !! i) as [pc|] eqn:Hi; [|done].
    assert (forall pc', holds pc' = None \/ holds pc' = holds pc -> pc' <> SBegin -> holds pc <> None ->
      forall x, current x = None -> starts x = starts a -> began x = began a -> stops x = stops a ->
      stopped pending (set_start i pc' x)) as H.
    { intros pc' Hh Hb Hpc x E1 E2 E3 E4. split; [done|]. intros j Hj q. cbn [set_start starts began stops]. rewrite E2, E3, E4.
      destruct (decide (j = i)) as [->|N].
      - rewrite list_lookup_insert_eq by (by eapply lookup_lt_Some). intros [= <-]. split; [done|]. intros Hne.
        apply (Hp i Hj pc Hi). done.
      - rewrite list_lookup_insert_ne by done. by apply Hp. }
    destruct pc; try done; destruct err; try (apply H; cbn; auto; done). apply H; destruct subscribes; cbn; auto.
  - unfold start_install. destruct (starts a !! i) as [[|g id|g id|g id|e]|] eqn:Hi; try done.
    assert (i ∉ pending) as Hin.
    { intros Hin. pose proof (starts_step subscribes _ _ i (step_install subscribes a i err) (Hw i Hin)) as H. unfold waiting in H. congruence. }
    destruct (Hp i Hin _ Hi) as [_ Hk]. destruct Hk as (k & Hk & Hks); [done|].
    destruct (w_held a Hwf _ _ _ Hi eq_refl) as (_ & _ & k' & Hk' & Eg & Hkr). cbn in Eg.
    assert (k = k') as <- by congruence.
    assert (g =? gen a = false) as ->.
    { apply Z.eqb_neq. rewrite Eg, (w_gen a Hwf). intros E. apply uwrap_inj in E; lia. }
    cbn [negb]. split; [done|]. intros j Hj q. cbn [set_start starts began stops disconnect].
    destruct (decide (j = i)) as [->|N].
    + rewrite list_lookup_insert_eq by (by eapply lookup_lt_Some). intros [= <-]. by split.
    + rewrite list_lookup_insert_ne by done. by apply Hp.
  - unfold Stop. cbn [current]. rewrite Hn. split; [done|]. intros j Hj q Hq. cbn [starts began stops] in *.
    destruct (Hp j Hj q Hq) as [? H]. split; [done|]. intros Hne. destruct (H Hne) as (k & ? & ?). exists k. split; [done|lia].
  - split; [done|]. exact Hp.
Qed.

Lemma stops_step subscribes a b : step subscribes a b -> stops a <= stops b.
Proof.
  intros [x j Hj|x j err|x j err|x|x id up].
  - unfold start_begin. by destruct (Connected x).
  - unfold start_waited. destruct (starts x !! j) as [[]|]; try done; by destruct err.
  - unfold start_install. destruct (starts x !! j) as [[]|]; try done. destruct (negb _), (Connected x), (current x); done.
  - unfold Stop. cbn [current]. destruct (current x); cbn; lia.
  - done.
Qed.

Lemma stops_rtc subscribes a b : rtc (step subscribes) a b -> stops a <= stops b.
Proof. induction 1 as [|a b c H _ IH]; [done|]. pose proof (stops_step _ _ _ H). lia. Qed.

Lemma waiting_rtc subscribes a b i : rtc (step subscribes) a b -> waiting b i -> waiting a i.
Proof. induction 1 as [|a b c H _ IH]; [done|]. intros Hc. by eapply starts_step, IH. Qed.

Lemma stopped_rtc subscribes pending a b :
  rtc (step subscribes) a b -> wf a -> stops b < 2 ^ 64 -> stopped pending a -> (forall i, i ∈ pending -> waiting b i) -> stopped pending b.
Proof.
  induction 1 as [|a b c H Hr IH]; [done|]. intros Hwf Hlt Hst Hw. apply IH; [by eapply adapter_step|done| |done].
  eapply stopped_step; [done|done| |done|].
  - pose proof (stops_step _ _ _ H). pose proof (stops_rtc _ _ _ Hr). lia.
  - intros i Hi. by eapply waiting_rtc, Hw.
Qed.

(** ** Theorems *)

(** No client is ever leaked: whatever calls of [Start] and [Stop] run, in
    whatever interleaving with each other and the network, every client that was
    made and not disconnected is either the adapter's or in the hands of exactly
    one [Start] still under way; so when all calls have returned, at most the
    adapter's own client is in use. *)
Theorem mqtt_no_leak subscribes n a id :
  rtc (step subscribes) (fresh n) a ->
  in_use a id <->
  (current a = Some id \/ exists i pc, starts a !! i = Some pc /\ holds pc = Some id).
Proof.
  intros Hr. pose proof (wf_rtc _ _ _ Hr (wf_fresh n)) as Hwf. split; [apply (w_owned a Hwf)|].
  intros [E|(i & pc & Hi & Hp)]; [by apply (w_current a Hwf)|]. by destruct (w_held a Hwf _ _ _ Hi Hp).
Qed.

(** A stop wins over every start it overtakes: after [Stop], as long as no
    further call of [Start] begins, the adapter has no client and is not
    connected, however the calls that were dialing, subscribing or about to
    install their client come out; and when they have all returned every client
    is disconnected. (For fewer than 2^64 stops, the range of the generation.) *)
Theorem mqtt_stop_wins subscribes n a b :
  rtc (step subscribes) (fresh n) a -> rtc (step subscribes) (Stop a) b -> stops b < 2 ^ 64 ->
  (forall i, waiting a i -> waiting b i) ->
  current b = None /\ Connected b = false /\
  (Forall (fun pc => holds pc = None) (starts b) -> Forall (fun c => dropped c = true /\ connected c = false) (clients b)).
Proof.
  intros Ha Hb Hlt Hw. pose proof (wf_rtc _ _ _ Ha (wf_fresh n)) as Hwfa.
  assert (wf b) as Hwfb by (eapply wf_rtc; [exact Hb|by apply wf_stop]).
  set (pending := filter (fun i => match starts a !! i with Some SBegin => true | _ => false end = true) (seq 0 (length (starts a)))).
  assert (forall i, i ∈ pending <-> waiting a i) as Hpend.
  { intros i. unfold pending. rewrite list_elem_of_filter, list_elem_of_In, in_seq. unfold waiting. split.
    - intros [E _]. by destruct (starts a !! i) as [[]|].
    - intros E. rewrite E. split; [done|]. apply lookup_lt_Some in E. lia. }
  assert (stopped pending (Stop a)) as Hst.
  { assert (starts (Stop a) = starts a /\ began (Stop a) = began a /\ stops (Stop a) = stops a + 1 /\ current (Stop a) = None) as (E1 & E2 & E3 & E4).
    { unfold Stop. cbn [current]. by destruct (current a) eqn:E. }
    split; [done|]. rewrite E1, E2, E3. intros i Hi pc Hpc. split.
    - intros ->. by apply Hi, Hpend.
    - intros Hne. destruct (holds pc) as [id|] eqn:Eh; [|done]. destruct (w_held a Hwfa _ _ _ Hpc Eh) as (_ & _ & k & Hk & _ & Hkr).
      exists k. split; [done|lia]. }
  destruct (stopped_rtc _ _ _ _ Hb (wf_stop a Hwfa) Hlt Hst) as [Hn _]; [intros i Hi; by apply Hw, Hpend|].
  split; [done|]. split; [unfold Connected; by rewrite Hn|]. intros Hall. apply Forall_lookup. intros id c Ec.
  destruct (dropped c) eqn:Ed; [split; [done|by eapply (w_down b Hwfb)]|]. exfalso.
  destruct (w_owned b Hwfb id) as [?|(i & pc & Hi & Hp)]; [by exists c|congruence|].
  rewrite Forall_lookup in Hall. specialize (Hall _ _ Hi). congruence.
Qed.

(** ** Publishing and subscribing *)

(** What a token comes back with: its error, or no answer in time. *)
Inductive token : Type := Completed (e : option error) | TimedOut.

(** The snapshot of the client a call takes under the lock: connected or not. *)
(* go: internal/infra/mqtt/adapter.go:141-153 (Publish) *)
Definition Publish (up : bool) (t : token) : option error :=
  if negb up then Some (ErrMsg "mqtt not connected")
  else match t with TimedOut => Some (ErrMsg "mqtt publish timeout") | Completed e => e end.

(* go: internal/infra/mqtt/adapter.go:155-178 (Subscribe) *)
Definition Subscribe (up handler : bool) (topic : bytes) (t : token) : option error :=
  if negb handler then Some (ErrMsg "mqtt subscribe: handler is required")
  else if bool_decide (topic = []) then Some (ErrMsg "mqtt subscribe: topic is required")
  else if negb up then Some (ErrMsg "mqtt not connected")
  else match t with TimedOut => Some (ErrMsg "mqtt subscribe timeout") | Completed e => e end.

(** What is ready when a wait is over, of the token, the context and the timer;
    the select takes any of them. *)
Inductive wait_outcome (token_err : option (option error)) (ctx_err : option error) (fired : bool) : option error -> Prop :=
| wait_token e : token_err = Some e -> wait_outcome token_err ctx_err fired e
| wait_ctx e : ctx_err = Some e -> wait_outcome token_err ctx_err fired (Some e)
| wait_timer : fired = true -> wait_outcome token_err ctx_err fired (Some (ErrMsg "operation timed out")).

(** The time a wait may take. *)
(* go: internal/infra/mqtt/adapter.go:118-121 (waitToken) *)
Definition wait_budget (timeout : Z) : Z := if timeout <=? 0 then 10 * second else timeout.

(** [Publish] reports success exactly if the client was connected and the
    library says that the message was handed over in time. *)
Theorem mqtt_publish_exact up t : Publish up t = None <-> up = true /\ t = Completed None.
Proof. destruct up, t as [[e|]|]; cbn; naive_solver. Qed.

(** ** Witnesses and examples *)

(** A start that is overtaken by a stop while it dials. *)
Definition dialing : Adapter := start_begin 0 (fresh 1).
Definition overtaken : Adapter := start_install 0 None (start_waited false 0 None (Stop dialing)).

Lemma dialing_reached : rtc (step false) (fresh 1) dialing.
Proof. eapply rtc_l; [exact (step_begin false (fresh 1) 0 eq_refl)|]. constructor. Qed.

Lemma overtaken_reached : rtc (step false) (Stop dialing) overtaken.
Proof. eapply rtc_l; [apply (step_waited false _ 0 None)|]. eapply rtc_l; [apply (step_install false _ 0 None)|]. constructor. Qed.

Lemma mqtt_no_leak_witness : in_use dialing 0.
Proof.
  apply (mqtt_no_leak false 1 dialing 0 dialing_reached). right. exists 0%nat, (SDial 0 0). split; reflexivity.
Defined.

Lemma mqtt_stop_wins_witness : current overtaken = None /\ Connected overtaken = false.
Proof.
  destruct (mqtt_stop_wins false 1 dialing overtaken dialing_reached overtaken_reached eq_refl) as (H1 & H2 & _).
  - intros i. unfold waiting. destruct i; [discriminate|discriminate].
  - split; [exact H1|exact H2].
Defined.

Example overtaken_start_fails : starts overtaken = [SReturned (Some (ErrMsg "mqtt adapter stopped during start"))] /\ clients overtaken = [mkClient false true].
Proof. by split. Qed.

(** Two starts at once: the second finds the first one's client connected and
    discards its own. *)
Example duplicate_discarded :
  let a := start_begin 1 (start_begin 0 (fresh 2)) in
  let a := net 1 true (net 0 true a) in
  let a := start_install 0 None (start_waited false 0 None a) in
  let a := start_install 1 None (start_waited false 1 None a) in
  current a = Some 0%nat /\ clients a = [mkClient true false; mkClient false true].
Proof. by split. Qed.
