(* ===== verification/DatagramStop.v ===== *)
(** * DatagramStop: how the UDP and CoAP servers stop

    [internal/transport/udp/server.go] and [internal/transport/coap/server.go]
    run one goroutine per loop and one per DTLS connection.  [StopAccept] raises
    the closed flag, cancels the context, closes the connections it finds in
    [dtlsConns] and then the socket, while all of them go on; [Drain] waits for
    them.  Both servers are written as one set of goroutines, one atomic step
    after another; what the loops do with a message is in [UdpServer] and
    [CoapServer].  A step is marked as waiting for [Outside] when it needs a peer,
    the network or a deadline, which may never come - a server without a session
    TTL sets no deadline - and as the goroutine's [Own] otherwise; plugins and
    handlers are taken to return. *)
From S2P Require Import Prelude.
From stdpp Require Import relations.
Local Open Scope list_scope.

(** ** Goroutines *)

(** The DTLS accept loop: in [Accept], with a connection, waiting out an error. *)
Inductive accept_pc : Type := AAccept | AGot (c : nat) | ABackoff.
(** The read loop of the plain socket. *)
Inductive read_pc : Type := RRead | RHandle | RBackoff.
(** A ticker loop; whether a tick is waiting in its channel. *)
Inductive ticker_pc : Type := TSelect (pending : bool) | TWork (pending : bool).
(** The goroutine of a DTLS connection. *)
Inductive conn_pc : Type := CSetup | CRegister | CAccept | CCheck | CRead | CHandle | CExit.

Inductive goroutine : Type :=
| GAccept (pc : accept_pc)
| GRead (pc : read_pc)
| GTicker (pc : ticker_pc)
| GConn (c : nat) (pc : conn_pc)
| GDone.

(** [StopAccept]: not called; past the flag; past the cancel; closing the
    connections it still has to visit; returned. *)
Inductive stop_pc : Type := NotStopped | Closed | Cancelled | Ranging (visit : list nat) | Returned.

(** The connections' list holds whether each is open. *)
Record server : Type := mkServer {
  stopper : stop_pc;
  sock_open : bool;
  conns : list bool;
  dtlsConns : gset nat;
  gs : list goroutine
}.

Definition closed (s : server) : bool := match stopper s with NotStopped => false | _ => true end.
Definition cancelled (s : server) : bool := match stopper s with NotStopped | Closed => false | _ => true end.

(** The goroutines of a start: plain or DTLS, with as many ticker loops. *)
(* go: internal/transport/coap/server.go:110-156 (Start) *)
Definition Start (dtls : bool) (tickers : nat) : server :=
  mkServer NotStopped true [] ∅ ((if dtls then GAccept AAccept else GRead RRead) :: replicate tickers (GTicker (TSelect false))).

Definition set_g (i : nat) (g : goroutine) (s : server) : server :=
  mkServer (stopper s) (sock_open s) (conns s) (dtlsConns s) (<[i := g]> (gs s)).
Definition close_conn (c : nat) (s : server) : server :=
  mkServer (stopper s) (sock_open s) (<[c := false]> (conns s)) (dtlsConns s) (gs s).
Definition set_table (t : gset nat) (s : server) : server := mkServer (stopper s) (sock_open s) (conns s) t (gs s).
Definition set_stopper (p : stop_pc) (s : server) : server := mkServer p (sock_open s) (conns s) (dtlsConns s) (gs s).

(** What a step waits for. *)
Inductive cause : Type := Own | Outside.

(** [Accept] and a read of the socket: while the socket is open, whatever they
    return is the network's doing; once it is closed they return by themselves. *)
Definition socket_cause (s : server) : cause := if sock_open s then Outside else Own.

(** After an error of [Accept] or of a read. [is_closed]: it says that the socket
    is closed, which it does whenever that is so. *)
Definition after_error (s : server) (is_closed : bool) (backoff : goroutine) : goroutine :=
  if closed s || cancelled s || is_closed then GDone else backoff.

(* go: internal/transport/coap/server.go:243-277 (dtlsAcceptLoop) *)
Inductive accept_step (s : server) (i : nat) : cause -> accept_pc -> server -> Prop :=
| accept_conn : sock_open s = true ->
    accept_step s i Outside AAccept (set_g i (GAccept (AGot (length (conns s))))
      (mkServer (stopper s) (sock_open s) (conns s ++ [true]) (dtlsConns s) (gs s)))
| accept_error is_closed : (sock_open s = false -> is_closed = true) ->
    accept_step s i (socket_cause s) AAccept (set_g i (after_error s is_closed (GAccept ABackoff)) s)
| accept_serve c :
    accept_step s i Own (AGot c) (mkServer (stopper s) (sock_open s) (conns s) (dtlsConns s)
      (<[i := GAccept AAccept]> (gs s) ++ [GConn c CSetup]))
| accept_refuse c : accept_step s i Own (AGot c) (set_g i (GAccept AAccept) (close_conn c s))
| accept_waited : accept_step s i Own ABackoff (set_g i (GAccept AAccept) s)
| accept_cancelled : cancelled s = true -> accept_step s i Own ABackoff (set_g i GDone s).

(* go: internal/transport/coap/server.go:353-381 (readLoop) *)
Inductive read_step (s : server) (i : nat) : cause -> read_pc -> server -> Prop :=
| read_datagram : sock_open s = true -> read_step s i Outside RRead (set_g i (GRead RHandle) s)
| read_error is_closed : (sock_open s = false -> is_closed = true) ->
    read_step s i (socket_cause s) RRead (set_g i (after_error s is_closed (GRead RBackoff)) s)
| read_handled : read_step s i Own RHandle (set_g i (GRead RRead) s)
| read_waited : read_step s i Own RBackoff (set_g i (GRead RRead) s)
| read_cancelled : cancelled s = true -> read_step s i Own RBackoff (set_g i GDone s).

(* go: internal/transport/coap/server.go:677-689 (retransmitLoop) *)
Inductive ticker_step (s : server) (i : nat) : cause -> ticker_pc -> server -> Prop :=
| ticker_tick : ticker_step s i Own (TSelect true) (set_g i (GTicker (TWork false)) s)
| ticker_worked p : ticker_step s i Own (TWork p) (set_g i (GTicker (TSelect p)) s)
| ticker_cancelled p : cancelled s = true -> ticker_step s i Own (TSelect p) (set_g i GDone s).

(** A read blocks while the connection is open: it ends with a message, with an
    error that the peer, the network or the deadline causes, or - by itself - when
    the connection has been closed here. *)
(* go: internal/transport/coap/server.go:280-350 (handleDTLSConn) *)
Inductive conn_step (s : server) (i : nat) (c : nat) : cause -> conn_pc -> server -> Prop :=
| conn_stored : conn_step s i c Own CSetup (set_g i (GConn c CRegister) (set_table ({[c]} ∪ dtlsConns s) s))
| conn_registered (ok : bool) :
    conn_step s i c Own CRegister (if ok then set_g i (GConn c CAccept) s else set_g i (GConn c CExit) (close_conn c s))
| conn_accepted (ok : bool) :
    conn_step s i c Own CAccept (if ok then set_g i (GConn c CCheck) s else set_g i (GConn c CExit) (close_conn c s))
| conn_check : conn_step s i c Own CCheck (set_g i (GConn c (if cancelled s then CExit else CRead)) s)
| conn_deadline_fails : cancelled s = false -> conn_step s i c Own CCheck (set_g i (GConn c CExit) s)
| conn_data : conns s !! c = Some true -> conn_step s i c Outside CRead (set_g i (GConn c CHandle) s)
| conn_closed : conns s !! c = Some false -> conn_step s i c Own CRead (set_g i (GConn c CExit) s)
| conn_error : conn_step s i c Outside CRead (set_g i (GConn c CExit) s)
| conn_handled (close : bool) :
    conn_step s i c Own CHandle (set_g i (GConn c CCheck) (if close then close_conn c s else s))
| conn_exit :
    conn_step s i c Own CExit (set_g i GDone (set_table (dtlsConns s ∖ {[c]}) (close_conn c s))).

Inductive own_step (s : server) (i : nat) (why : cause) : server -> Prop :=
| own_accept pc s' : gs s !! i = Some (GAccept pc) -> accept_step s i why pc s' -> own_step s i why s'
| own_read pc s' : gs s !! i = Some (GRead pc) -> read_step s i why pc s' -> own_step s i why s'
| own_ticker pc s' : gs s !! i = Some (GTicker pc) -> ticker_step s i why pc s' -> own_step s i why s'
| own_conn c pc s' : gs s !! i = Some (GConn c pc) -> conn_step s i c why pc s' -> own_step s i why s'.

(** [Range] visits every connection that is in the table throughout; of the rest,
    any: [visit] is what it still visits, and may lose what left the table. *)
(* go: internal/transport/coap/server.go:164-186 (StopAccept) *)
Inductive stop_step (s : server) : server -> Prop :=
| stop_flag : stopper s = NotStopped -> stop_step s (set_stopper Closed s)
| stop_cancel : stopper s = Closed -> stop_step s (set_stopper Cancelled s)
| stop_range : stopper s = Cancelled -> stop_step s (set_stopper (Ranging (elements (dtlsConns s))) s)
| stop_visit c l : stopper s = Ranging (c :: l) -> stop_step s (set_stopper (Ranging l) (close_conn c s))
| stop_skip c l : stopper s = Ranging (c :: l) -> c ∉ dtlsConns s -> stop_step s (set_stopper (Ranging l) s)
| stop_socket : stopper s = Ranging [] ->
    stop_step s (mkServer Returned false (conns s) (dtlsConns s) (gs s)).

(** A tick arrives; what a tick channel already holds is not added to. *)
Definition tick (i : nat) (s : server) : server :=
  match gs s !! i with
  | Some (GTicker (TSelect _)) => set_g i (GTicker (TSelect true)) s
  | Some (GTicker (TWork _)) => set_g i (GTicker (TWork true)) s
  | _ => s
  end.

(** Whoever has a session - a handler, a plugin, a sweep - may close its
    connection. *)
Inductive step (s : server) : server -> Prop :=
| step_own i why s' : own_step s i why s' -> step s s'
| step_stop s' : stop_step s s' -> step s s'
| step_tick i : step s (tick i s)
| step_close c : step s (close_conn c s).

(** [Drain]'s wait group. *)
Definition wg (s : server) : nat := length (filter (fun g => match g with GDone => false | _ => true end = true) (gs s)).

(** ** What holds throughout *)

(** The connection a goroutine has. *)
Definition conn_of (g : goroutine) : option nat :=
  match g with GAccept (AGot c) => Some c | GConn c _ => Some c | _ => None end.

Definition shut (s : server) (c : nat) : Prop := conns s !! c = Some false.

(** A connection being read is still to be visited, or was shut. *)
Definition unblocked (s : server) (c : nat) : Prop :=
  match stopper s with
  | Ranging l => c ∈ l \/ shut s c
  | Returned => shut s c
  | _ => True
  end.

Definition goroutine_ok (s : server) (g : goroutine) : Prop :=
  match g with
  | GAccept (AGot c) => (c < length (conns s))%nat
  | GConn c pc => (c < length (conns s))%nat /\ (pc <> CSetup -> c ∈ dtlsConns s) /\ (pc = CRead -> unblocked s c)
  | _ => True
  end.

Record inv (s : server) : Prop := {
  i_one i j g g' c : gs s !! i = Some g -> gs s !! j = Some g' -> conn_of g = Some c -> conn_of g' = Some c -> i = j;
  i_ok i g : gs s !! i = Some g -> goroutine_ok s g;
  i_sock : stopper s = Returned -> sock_open s = false
}.

Lemma goroutine_lt s g c : goroutine_ok s g -> conn_of g = Some c -> (c < length (conns s))%nat.
Proof. destruct g as [[]| | |c' pc|]; cbn; try done; [by intros ? [= <-]|by intros (? & _) [= <-]]. Qed.

Lemma shut_close s c c' : (c < length (conns s))%nat -> shut s c \/ c = c' -> shut (close_conn c' s) c.
Proof.
  unfold shut, close_conn. cbn [conns]. intros Hc [H| ->].
  - destruct (decide (c = c')) as [->|N]; [by apply list_lookup_insert_eq|by rewrite list_lookup_insert_ne].
  - by apply list_lookup_insert_eq.
Qed.

Lemma lookup_set (l : list goroutine) i j g g' :
  (i < length l)%nat -> <[i := g]> l !! j = Some g' -> j = i /\ g' = g \/ j <> i /\ l !! j = Some g'.
Proof. intros Hi. rewrite list_lookup_insert by done. case_decide; [intros [= <-]; left|right]; naive_solver. Qed.

(** Goroutine [i] moves on to [g]. *)
Lemma inv_set s i g0 g :
  inv s -> gs s !! i = Some g0 -> conn_of g = None \/ conn_of g = conn_of g0 -> goroutine_ok s g -> inv (set_g i g s).
Proof.
  intros [H1 H2 H3] Hi Hc Hg.
  assert (i < length (gs s))%nat as Hlt by by eapply lookup_lt_Some.
  split; cbn [set_g gs].
  - intros j k g1 g2 c. rewrite !list_lookup_insert by done.
    destruct (decide (i = j)) as [<-|Nj], (decide (i = k)) as [<-|Nk]; try done.
    + rewrite decide_True by done. rewrite decide_False by naive_solver. intros [= <-] Hk E1 E2.
      destruct Hc as [Hc|Hc]; [congruence|]. apply (H1 i k g0 g2 c); congruence.
    + rewrite decide_False by naive_solver. rewrite decide_True by done. intros Hj [= <-] E1 E2.
      destruct Hc as [Hc|Hc]; [congruence|]. apply (H1 j i g1 g0 c); congruence.
    + rewrite !decide_False by naive_solver. apply H1.
  - intros j g'. rewrite list_lookup_insert by done. case_decide as Hd; [by intros [= <-]|]. apply H2.
  - exact H3.
Qed.

Lemma ok_close s c g : goroutine_ok s g -> goroutine_ok (close_conn c s) g.
Proof.
  destruct g as [[]| | |c' pc|]; cbn [goroutine_ok]; try done; unfold close_conn at 1; cbn [conns]; rewrite ?length_insert; [done|].
  intros (Hlt & Ht & Hr). split; [done|]. split; [done|]. intros E. specialize (Hr E). unfold unblocked in *. cbn [stopper close_conn].
  destruct (stopper s); try done.
  - destruct Hr as [?|?]; [by left|right]. apply shut_close; auto.
  - apply shut_close; auto.
Qed.

Lemma inv_close s c : inv s -> inv (close_conn c s).
Proof.
  intros [H1 H2 H3]. split; [exact H1| |exact H3]. intros i g Hi. apply ok_close. by eapply H2.
Qed.

Lemma gs_inv_store s c : inv s -> inv (set_table ({[c]} ∪ dtlsConns s) s).
Proof.
  intros [H1 H2 H3]. split; [exact H1| |exact H3]. intros i g Hi. specialize (H2 i g Hi).
  destruct g as [[]| | |c' pc|]; cbn in *; try done. destruct H2 as (? & ? & ?). split; [done|]. split; [|done]. intros. set_solver.
Qed.

(** A goroutine at the end of its connection leaves. *)
Lemma inv_exit s i c : inv s -> gs s !! i = Some (GConn c CExit) ->
  inv (set_g i GDone (set_table (dtlsConns s ∖ {[c]}) (close_conn c s))).
Proof.
  intros Hinv Hi. pose proof (inv_close s c Hinv) as [H1 H2 H3].
  assert (i < length (gs s))%nat as Hlt by by eapply lookup_lt_Some.
  assert (forall j g, <[i := GDone]> (gs s) !! j = Some g -> g = GDone \/ j <> i /\ gs s !! j = Some g) as Hj.
  { intros j g. rewrite list_lookup_insert by done. case_decide as Hd; [by intros [= <-]; left|]. intros H. right. split; [naive_solver|done]. }
  split; cbn [set_g set_table gs].
  - intros j k g1 g2 d Ej Ek E1 E2. destruct (Hj j g1 Ej) as [->|[_ Hj1]]; [done|]. destruct (Hj k g2 Ek) as [->|[_ Hk1]]; [done|].
    by apply (H1 j k g1 g2 d).
  - intros j g Ej. destruct (Hj j g Ej) as [->|[N Hj1]]; [done|]. specialize (H2 j g Hj1).
    destruct g as [[]| | |c' pc|]; cbn in *; try done. destruct H2 as (? & Ht & ?). split; [done|]. split; [|done].
    intros Hpc. specialize (Ht Hpc). assert (c' <> c); [|set_solver]. intros ->. by apply N, (H1 j i _ _ c Hj1 Hi).
  - exact H3.
Qed.

Lemma inv_start dtls n : inv (Start dtls n).
Proof.
  assert (forall i g, gs (Start dtls n) !! i = Some g -> conn_of g = None /\ goroutine_ok (Start dtls n) g) as H.
  { intros i g. unfold Start. cbn [gs]. destruct i as [|i]; cbn.
    - by destruct dtls; intros [= <-].
    - intros [-> _]%lookup_replicate. done. }
  split; [|by intros i g Hi; apply H in Hi as [_ ?]|done].
  intros i j g g' c Hi _ E _. apply H in Hi as [E' _]. congruence.
Qed.

(** A new connection; a goroutine for it. *)
Lemma inv_accept s i : inv s -> gs s !! i = Some (GAccept AAccept) ->
  inv (set_g i (GAccept (AGot (length (conns s)))) (mkServer (stopper s) (sock_open s) (conns s ++ [true]) (dtlsConns s) (gs s))).
Proof.
  intros [H1 H2 H3] Hi. set (n := length (conns s)).
  assert (i < length (gs s))%nat as Hlt by by eapply lookup_lt_Some.
  assert (forall g, goroutine_ok s g -> goroutine_ok (mkServer (stopper s) (sock_open s) (conns s ++ [true]) (dtlsConns s) (gs s)) g) as Hok.
  { intros g. destruct g as [[]| | |c' pc|]; cbn; try done; rewrite length_app; cbn; [lia|].
    intros (? & ? & Hr). split; [lia|]. split; [done|]. intros E. specialize (Hr E). unfold unblocked, shut in *. cbn.
    destruct (stopper s); try done; [destruct Hr as [?|?]; [by left|right]|]; by apply lookup_app_l_Some. }
  split; cbn [set_g gs]; fold n.
  - intros j k g1 g2 c Ej Ek E1 E2.
    destruct (lookup_set _ _ _ _ _ Hlt Ej) as [[-> ->]|[Nj Hj]], (lookup_set _ _ _ _ _ Hlt Ek) as [[-> ->]|[Nk Hk]]; try done.
    + cbn in E1. injection E1 as <-. pose proof (goroutine_lt _ _ _ (H2 _ _ Hk) E2). unfold n in *. lia.
    + cbn in E2. injection E2 as <-. pose proof (goroutine_lt _ _ _ (H2 _ _ Hj) E1). unfold n in *. lia.
    + by apply (H1 j k g1 g2 c).
  - intros j g. rewrite list_lookup_insert by done. case_decide as Hd.
    + intros [= <-]. cbn. rewrite length_app. unfold n. cbn. lia.
    + intros Hj. apply (Hok g). by eapply H2.
  - exact H3.
Qed.

Lemma inv_serve s i c : inv s -> gs s !! i = Some (GAccept (AGot c)) ->
  inv (mkServer (stopper s) (sock_open s) (conns s) (dtlsConns s) (<[i := GAccept AAccept]> (gs s) ++ [GConn c CSetup])).
Proof.
  intros [H1 H2 H3] Hi. assert (i < length (gs s))%nat as Hlt by by eapply lookup_lt_Some.
  pose proof (goroutine_lt _ _ _ (H2 _ _ Hi) eq_refl) as Hc.
  assert (forall j g, (<[i := GAccept AAccept]> (gs s) ++ [GConn c CSetup]) !! j = Some g ->
     g = GAccept AAccept \/ (j = length (gs s) /\ g = GConn c CSetup) \/ (j <> i /\ gs s !! j = Some g)) as Hj.
  { intros j g [H|[Hge H]]%lookup_app_Some.
    - rewrite list_lookup_insert in H by done. case_decide; [injection H as <-; by left|]. right. right. split; [naive_solver|done].
    - rewrite length_insert in *. destruct (j - length (gs s))%nat as [|k] eqn:Ek; [|done]. cbn in H. injection H as <-.
      right. left. split; [lia|done]. }
  split; cbn [gs].
  - intros j k g1 g2 d Ej Ek E1 E2.
    destruct (Hj j g1 Ej) as [->|[[-> ->]|[Nj Hj1]]]; [done| |]; destruct (Hj k g2 Ek) as [->|[[-> ->]|[Nk Hk1]]]; try done.
    + cbn in E1. injection E1 as <-. exfalso. by apply Nk, (H1 k i _ _ c Hk1 Hi).
    + cbn in E2. injection E2 as <-. exfalso. by apply Nj, (H1 j i _ _ c Hj1 Hi).
    + by apply (H1 j k g1 g2 d).
  - intros j g Ej. destruct (Hj j g Ej) as [->|[[_ ->]|[_ Hj1]]]; [done|by split|]. exact (H2 j g Hj1).
  - exact H3.
Qed.

Lemma inv_own s i why s' : own_step s i why s' -> inv s -> inv s'.
Proof.
  intros Hs Hinv. destruct Hs as [pc s' Hi Hs|pc s' Hi Hs|pc s' Hi Hs|c pc s' Hi Hs].
  - destruct Hs as [Ho|ic Hic|c|c| |Hc]; [by apply inv_accept| |by apply inv_serve| | |].
    + eapply inv_set; [done|done|left; unfold after_error; by destruct (_ || _)|unfold after_error; by destruct (_ || _)].
    + eapply inv_set; [by apply inv_close|done|by left|done].
    + eapply inv_set; [done|done|by left|done].
    + eapply inv_set; [done|done|by left|done].
  - destruct Hs as [Ho|ic Hic| | |Hc]; (eapply inv_set; [done|done|left|]; try done); unfold after_error; by destruct (_ || _).
  - destruct Hs; (eapply inv_set; [done|done|by left|done]).
  - pose proof (i_ok s Hinv _ _ Hi) as (Hlt & Ht & Hr).
    destruct Hs as [|ok|ok| |Hc|Hd|Hd| |cl|]; [| | | | | | | | |by apply inv_exit].
    + eapply inv_set; [by apply gs_inv_store|exact Hi|by right|]. cbn. split; [done|]. split; [set_solver|done].
    + destruct ok; [|eapply inv_set; [by apply inv_close|exact Hi|by right|]; apply ok_close; by repeat split; auto].
      eapply inv_set; [done|done|by right|]. cbn. split; [done|]. split; [auto|done].
    + destruct ok; [|eapply inv_set; [by apply inv_close|exact Hi|by right|]; apply ok_close; by repeat split; auto].
      eapply inv_set; [done|done|by right|]. cbn. split; [done|]. split; [auto|done].
    + eapply inv_set; [done|done|by right|]. cbn. split; [done|]. split; [auto|]. unfold unblocked, cancelled.
      by destruct (stopper s).
    + eapply inv_set; [done|done|by right|]. cbn. split; [done|]. split; [auto|done].
    + eapply inv_set; [done|done|by right|]. cbn. split; [done|]. split; [auto|done].
    + eapply inv_set; [done|done|by right|]. cbn. split; [done|]. split; [auto|done].
    + eapply inv_set; [done|done|by right|]. cbn. split; [done|]. split; [auto|done].
    + destruct cl; (eapply inv_set; [by try apply inv_close|exact Hi|by right|]); [apply ok_close|]; cbn; repeat split; auto; done.
Qed.

Lemma ok_stopper s p b g :
  (forall c, c ∈ dtlsConns s -> unblocked s c -> unblocked (mkServer p b (conns s) (dtlsConns s) (gs s)) c) ->
  goroutine_ok s g -> goroutine_ok (mkServer p b (conns s) (dtlsConns s) (gs s)) g.
Proof.
  intros H. destruct g as [[]| | |c' pc|]; cbn; try done. intros (? & Ht & Hr). split; [done|]. split; [done|].
  intros E. apply H; [apply Ht; by rewrite E|by apply Hr].
Qed.

Lemma inv_stop s s' : stop_step s s' -> inv s -> inv s'.
Proof.
  intros Hs Hinv. destruct Hs as [E|E|E|c l E|c l E Hc|E].
  - destruct Hinv as [H1 H2 H3]. split; [done| |done]. intros i g Hi. eapply ok_stopper; [|by eapply H2]. done.
  - destruct Hinv as [H1 H2 H3]. split; [done| |done]. intros i g Hi. eapply ok_stopper; [|by eapply H2]. done.
  - destruct Hinv as [H1 H2 H3]. split; [done| |done]. intros i g Hi. eapply ok_stopper; [|by eapply H2].
    intros c Hc _. left. by apply elem_of_elements.
  - pose proof (inv_close s c Hinv) as [H1 H2 H3]. split; [done| |done]. intros i g Hi.
    pose proof (H2 i g Hi) as Hg. destruct g as [[]| | |c' pc|]; cbn in *; try done. destruct Hg as (Hlt & Ht & Hr).
    split; [done|]. split; [done|]. intros Ep. specialize (Hr Ep). unfold unblocked in *. cbn [stopper set_stopper close_conn] in *.
    rewrite E in Hr. destruct Hr as [[->|?]%elem_of_cons|?]; [|by left|by right]. right. rewrite length_insert in Hlt. apply shut_close; auto.
  - destruct Hinv as [H1 H2 H3]. split; [done| |done]. intros i g Hi. eapply ok_stopper; [|by eapply H2].
    intros c' Hc'. unfold unblocked. rewrite E. cbn. intros [[->|?]%elem_of_cons|?]; [done|by left|by right].
  - destruct Hinv as [H1 H2 H3]. split; [done| |done]. intros i g Hi. eapply ok_stopper; [|by eapply H2].
    intros c' _. unfold unblocked. rewrite E. cbn. intros [?%elem_of_nil|?]; done.
Qed.

Lemma inv_tick s i : inv s -> inv (tick i s).
Proof.
  intros Hinv. unfold tick. destruct (gs s !! i) as [[| |[p|p]| |]|] eqn:E; try done;
    (eapply inv_set; [done|exact E|by left|done]).
Qed.

Lemma gs_inv_step s s' : step s s' -> inv s -> inv s'.
Proof. intros [i why s1 H|s1 H|i|c]; [by eapply inv_own|by apply inv_stop|by apply inv_tick|by apply inv_close]. Qed.

Lemma inv_rtc s s' : rtc step s s' -> inv s -> inv s'.
Proof. induction 1; eauto using gs_inv_step. Qed.

(** ** Once StopAccept has returned *)

(** Turns a goroutine still has. *)
Definition turns (g : goroutine) : nat :=
  match g with
  | GAccept AAccept => 1 | GAccept (AGot _) => 7 | GAccept ABackoff => 2
  | GRead RRead => 1 | GRead RHandle | GRead RBackoff => 2
  | GTicker (TSelect p) => 1 + (if p then 2 else 0) | GTicker (TWork p) => 2 + (if p then 2 else 0)
  | GConn _ CSetup => 5 | GConn _ CRegister => 4 | GConn _ CAccept => 3 | GConn _ CCheck => 2
  | GConn _ CRead => 4 | GConn _ CHandle => 3 | GConn _ CExit => 1
  | GDone => 0
  end.
Fixpoint all_turns (l : list goroutine) : nat := match l with [] => 0 | g :: l => turns g + all_turns l end.

Lemma all_turns_insert l i g g' : l !! i = Some g -> (all_turns (<[i := g']> l) + turns g = all_turns l + turns g')%nat.
Proof.
  revert i. induction l as [|x l IH]; intros [|i] H; try done.
  - injection H as ->. cbn. lia.
  - specialize (IH i H). change (<[S i := g']> (x :: l)) with (x :: <[i := g']> l). cbn [all_turns]. lia.
Qed.

Lemma all_turns_app l1 l2 : all_turns (l1 ++ l2) = (all_turns l1 + all_turns l2)%nat.
Proof. induction l1 as [|x l IH]; cbn; lia. Qed.

Definition stopped (s : server) : Prop := stopper s = Returned /\ sock_open s = false.

(** A turn after the stop: one less. *)
Lemma own_turns s i why s' : own_step s i why s' -> stopped s -> stopped s' /\ (all_turns (gs s') < all_turns (gs s))%nat.
Proof.
  intros Hs [Hst Hso].
  assert (cancelled s = true) as Hc by (unfold cancelled; by rewrite Hst).
  assert (forall b g, after_error s b g = GDone) as Hae by (intros b g; unfold after_error; by rewrite Hc, orb_true_r).
  destruct Hs as [pc s' Hi Hs|pc s' Hi Hs|pc s' Hi Hs|c pc s' Hi Hs];
    destruct Hs; try congruence; rewrite ?Hae, ?Hc in *; repeat match goal with b : bool |- _ => destruct b end;
    (split; [done|]); cbn [set_g set_table close_conn gs] in *; rewrite ?all_turns_app;
    match goal with |- context [<[i := ?g']> (gs s)] => pose proof (all_turns_insert (gs s) i _ g' Hi) as Ht end;
    cbn in *; lia.
Qed.

Lemma tick_turns s i : stopped s -> stopped (tick i s) /\ (all_turns (gs (tick i s)) <= all_turns (gs s) + 2)%nat.
Proof.
  intros Hs. unfold tick. destruct (gs s !! i) as [[| |[p|p]| |]|] eqn:E; (split; [done|]); try lia; cbn [set_g gs];
    match goal with |- context [<[i := ?g']> (gs s)] => pose proof (all_turns_insert (gs s) i _ g' E) as Ht end;
    destruct p; cbn in *; lia.
Qed.

(** A run, by the turns of the goroutines and the ticks in it; connections may be
    closed meanwhile. *)
Inductive run : server -> nat -> nat -> server -> Prop :=
| run_nil s : run s 0 0 s
| run_own s i why s1 k t s2 : own_step s i why s1 -> run s1 k t s2 -> run s (S k) t s2
| run_tick s i k t s2 : run (tick i s) k t s2 -> run s k (S t) s2
| run_close s c k t s2 : run (close_conn c s) k t s2 -> run s k t s2.

Lemma run_rtc s k t s' : run s k t s' -> rtc step s s'.
Proof.
  induction 1 as [s|s i why s1 k t s2 H _ IH|s i k t s2 _ IH|s c k t s2 _ IH]; [done|..]; (eapply rtc_l; [|exact IH]).
  - by eapply step_own.
  - apply step_tick.
  - apply step_close.
Qed.

(** Every goroutine that has not returned can go on by itself, once the
    connection it reads is closed. *)
Lemma own_moves s i g :
  stopped s -> gs s !! i = Some g -> (forall c, g = GConn c CRead -> conns s !! c = Some false) -> g <> GDone ->
  exists s', own_step s i Own s'.
Proof.
  intros [Hst Hso] Hi Hread Hg. assert (cancelled s = true) as Hc by (unfold cancelled; by rewrite Hst).
  assert (socket_cause s = Own) as Hown by (unfold socket_cause; by rewrite Hso).
  destruct g as [[|c|]|[]|[p|p]|c []|]; try done.
  - eexists. eapply own_accept; [done|]. rewrite <- Hown. by apply (accept_error s i true).
  - eexists. eapply own_accept; [done|]. apply accept_serve.
  - eexists. eapply own_accept; [done|]. apply accept_waited.
  - eexists. eapply own_read; [done|]. rewrite <- Hown. by apply (read_error s i true).
  - eexists. eapply own_read; [done|]. apply read_handled.
  - eexists. eapply own_read; [done|]. apply read_waited.
  - eexists. eapply own_ticker; [done|]. by apply ticker_cancelled.
  - eexists. eapply own_ticker; [done|]. apply ticker_worked.
  - eexists. eapply own_conn; [done|]. apply conn_stored.
  - eexists. eapply own_conn; [done|]. apply (conn_registered s i c true).
  - eexists. eapply own_conn; [done|]. apply (conn_accepted s i c true).
  - eexists. eapply own_conn; [done|]. apply conn_check.
  - eexists. eapply own_conn; [done|]. by apply conn_closed, Hread.
  - eexists. eapply own_conn; [done|]. apply (conn_handled s i c false).
  - eexists. eapply own_conn; [done|]. apply conn_exit.
Qed.

Lemma wg_zero s : wg s = 0%nat <-> Forall (fun g => g = GDone) (gs s).
Proof.
  unfold wg. induction (gs s) as [|g l IH]; [done|]. rewrite filter_cons, Forall_cons. destruct g; cbn [length]; rewrite ?decide_True by done;
    cbn [length]; try (split; [done|by intros [? _]]). rewrite decide_False by done. rewrite IH. naive_solver.
Qed.

(** ** Theorems *)

(** No goroutine of a UDP or CoAP server stays blocked on the network once
    [StopAccept] has returned: the socket is closed, and so is every DTLS
    connection a goroutine is reading, however connections were being accepted,
    set up and closed while it ran - also one that entered the table too late
    for it to be found there. *)
Theorem stop_unblocks dtls tickers s :
  rtc step (Start dtls tickers) s -> stopper s = Returned ->
  sock_open s = false /\ forall i c, gs s !! i = Some (GConn c CRead) -> conns s !! c = Some false.
Proof.
  intros Hr Hst. pose proof (inv_rtc _ _ Hr (inv_start dtls tickers)) as [_ H2 H3]. split; [by apply H3|].
  intros i c Hi. destruct (H2 _ _ Hi) as (_ & _ & Hu). specialize (Hu eq_refl). unfold unblocked in Hu. by rewrite Hst in Hu.
Qed.

(** C39: [Drain] returns: after [StopAccept] the goroutines have a bounded number of
    turns left, whatever they were doing (two more for every tick that arrives
    meanwhile); as long as one has not returned it can go on by itself, waiting
    for no peer, network or read deadline - also one that is reading a DTLS
    connection whose peer is silent, because [StopAccept] has closed it; and when
    none can, the wait group is at zero. Plugins and handlers are taken to
    return. *)
Theorem datagram_drains dtls tickers s k t s' :
  rtc step (Start dtls tickers) s -> stopper s = Returned -> run s k t s' ->
  (k <= all_turns (gs s) + 2 * t)%nat /\
  (forall i g, gs s' !! i = Some g -> g <> GDone -> exists s2, own_step s' i Own s2) /\
  ((forall i s2, ~ own_step s' i Own s2) -> wg s' = 0%nat).
Proof.
  intros Hr Hst Hrun. assert (stopped s) as Hs by (split; [done|by eapply stop_unblocks]).
  assert (rtc step (Start dtls tickers) s') as Hr' by (etrans; [exact Hr|by eapply run_rtc]).
  assert (stopped s' /\ (k + all_turns (gs s') <= all_turns (gs s) + 2 * t)%nat) as [Hs' Hk].
  { clear Hr Hst Hr'. induction Hrun as [s|s i why s1 k t s2 H1 _ IH|s i k t s2 _ IH|s c k t s2 _ IH]; [by split; [|lia]|..].
    - destruct (own_turns _ _ _ _ H1 Hs) as [Hs1 Ht]. destruct (IH Hs1). split; [done|lia].
    - destruct (tick_turns s i Hs) as [Hs1 Ht]. destruct (IH Hs1). split; [done|lia].
    - by apply IH. }
  assert (forall i g, gs s' !! i = Some g -> g <> GDone -> exists s2, own_step s' i Own s2) as Hgo.
  { intros i g Hi. apply own_moves; [done|done|]. intros c ->. by eapply (stop_unblocks dtls tickers s' Hr' (proj1 Hs')). }
  split; [lia|]. split; [exact Hgo|]. intros Hn. apply wg_zero, Forall_lookup. intros i g Hi.
  destruct (decide (turns g = 0%nat)) as [E|E]; [by destruct g as [[]|[]|[[]|[]]|? []|]|].
  destruct (Hgo i g Hi) as [s2 H2]; [by intros ->|]. by destruct (Hn i s2).
Qed.

(** ** Witnesses *)

(** A DTLS peer that is being read while the server stops. *)
Definition reading : server :=
  mkServer NotStopped true [true] {[0%nat]} [GAccept AAccept; GConn 0 CRead].
Definition reading_stopped : server :=
  mkServer Returned false [false] {[0%nat]} [GAccept AAccept; GConn 0 CRead].

Lemma reading_reached : rtc step (Start true 0) reading.
Proof.
  eapply rtc_l; [eapply (step_own _ 0 Outside), own_accept; [reflexivity|by apply accept_conn]|].
  eapply rtc_l; [eapply (step_own _ 0 Own), own_accept; [reflexivity|apply accept_serve]|].
  eapply rtc_l; [eapply (step_own _ 1 Own), own_conn; [reflexivity|apply conn_stored]|].
  eapply rtc_l; [eapply (step_own _ 1 Own), own_conn; [reflexivity|apply (conn_registered _ _ _ true)]|].
  eapply rtc_l; [eapply (step_own _ 1 Own), own_conn; [reflexivity|apply (conn_accepted _ _ _ true)]|].
  eapply rtc_l; [eapply (step_own _ 1 Own), own_conn; [reflexivity|apply conn_check]|]. constructor.
Qed.

Lemma reading_stopped_reached : rtc step (Start true 0) reading_stopped.
Proof.
  etrans; [exact reading_reached|].
  eapply rtc_l; [by eapply step_stop, stop_flag|].
  eapply rtc_l; [by eapply step_stop, stop_cancel|].
  eapply rtc_l; [by eapply step_stop, stop_range|].
  eapply rtc_l; [by eapply step_stop, (stop_visit _ 0 [])|].
  eapply rtc_l; [by eapply step_stop, stop_socket|]. constructor.
Qed.

Lemma stop_unblocks_witness : conns reading_stopped !! 0%nat = Some false.
Proof.
  apply (proj2 (stop_unblocks true 0 reading_stopped reading_stopped_reached eq_refl) 1%nat 0%nat). reflexivity.
Defined.

(** The goroutine reading the connection of a silent peer goes on. *)
Lemma datagram_drains_witness : exists s2, own_step reading_stopped 1 Own s2.
Proof.
  apply (proj1 (proj2 (datagram_drains true 0 reading_stopped 0 0 reading_stopped reading_stopped_reached eq_refl (run_nil _)))
    1%nat (GConn 0 CRead)); [reflexivity|discriminate].
Defined.
