(* ===== verification/WebStop.v ===== *)
(** * WebStop: how the WebSocket servers stop

    [internal/transport/websocket/server.go] and the WebSocket mode of
    [internal/transport/grpcweb/server.go]: [StopAccept] shuts the HTTP server
    down, which waits for requests being handled but no longer knows of
    connections that were taken over; [CloseSessions] closes what it finds in the
    server's table and waits for the goroutines.  One atomic step after another,
    with connections at every stage of their setup; what a session does in
    between is in [SessionTable] and [WsSession]. *)
From S2P Require Import Prelude.
From stdpp Require Import relations.
Local Open Scope list_scope.

(** ** Connections *)

(** In the HTTP handler; taken over from the HTTP server; in the server's table;
    with its goroutines; gone. *)
Inductive phase : Type := Handling | Hijacked | Registering | Serving | Gone.

(** [late]: it entered the table after [CloseSessions] had begun (history). *)
Record conn : Type := mkConn { c_phase : phase; c_stored : bool; c_open : bool; c_late : bool }.

(** The calls that stop the server: none yet; waiting in [Shutdown]; between the
    two calls; going through the table; waiting for the goroutines; returned,
    with or without running out of time. *)
Inductive stop_pc : Type :=
| Running | ShuttingDown | Stopped | Ranging (visit : list nat) | Waiting | Finished (timed_out : bool).

(* go: internal/transport/websocket/server.go:21-31 (Server) *)
Record server : Type := mkServer { pc : stop_pc; conns : list conn }.

(* go: internal/transport/websocket/server.go:46-92 (Start) *)
Definition Start : server := mkServer Running [].

Definition set_conn (i : nat) (c : conn) (s : server) : server := mkServer (pc s) (<[i := c]> (conns s)).
Definition set_pc (p : stop_pc) (s : server) : server := mkServer p (conns s).

Definition closing (s : server) : bool :=
  match pc s with Running | ShuttingDown | Stopped => false | _ => true end.

(** One connection goes on. *)
(* go: internal/transport/websocket/server.go:142-208 (handleUpgrade) *)
Inductive conn_step (s : server) (i : nat) : conn -> server -> Prop :=
| refuse_upgrade c : c_phase c = Handling -> conn_step s i c (set_conn i (mkConn Gone false false false) s)
| upgrade c : c_phase c = Handling -> conn_step s i c (set_conn i (mkConn Hijacked false true false) s)
| store c : c_phase c = Hijacked -> conn_step s i c (set_conn i (mkConn Registering true (c_open c) (closing s)) s)
| refuse c : c_phase c = Registering -> conn_step s i c (set_conn i (mkConn Gone false false (c_late c)) s)
| serve c : c_phase c = Registering -> conn_step s i c (set_conn i (mkConn Serving (c_stored c) (c_open c) (c_late c)) s)
| end_ c : c_phase c = Serving -> conn_step s i c (set_conn i (mkConn Gone false false (c_late c)) s).

(** What the table holds. *)
Definition in_table (s : server) : list nat :=
  filter (fun i => match conns s !! i with Some c => c_stored c | None => false end = true) (seq 0 (length (conns s))).

(** The calls of the gateway; the timeouts are those of their contexts. [Range] may
    also come across connections stored after it began; leaving those out is one of
    the orders it allows. *)
(* go: internal/transport/websocket/server.go:94-133 (Stop, StopAccept, Drain, CloseSessions) *)
Inductive stop_step (s : server) : server -> Prop :=
| stop_accept : pc s = Running -> stop_step s (set_pc ShuttingDown s)
| shutdown_done : pc s = ShuttingDown -> Forall (fun c => c_phase c <> Handling) (conns s) -> stop_step s (set_pc Stopped s)
| shutdown_timeout : pc s = ShuttingDown -> stop_step s (set_pc Stopped s)
| close_sessions : pc s = Stopped -> stop_step s (set_pc (Ranging (in_table s)) s)
| visit i l c : pc s = Ranging (i :: l) -> conns s !! i = Some c ->
    stop_step s (set_pc (Ranging l) (if c_stored c then set_conn i (mkConn (c_phase c) false false (c_late c)) s else s))
| visited : pc s = Ranging [] -> stop_step s (set_pc Waiting s)
| waited : pc s = Waiting -> Forall (fun c => c_phase c <> Serving) (conns s) -> stop_step s (set_pc (Finished false) s)
| wait_timeout : pc s = Waiting -> stop_step s (set_pc (Finished true) s).

Inductive step (s : server) : server -> Prop :=
| step_request : pc s = Running -> step s (mkServer (pc s) (conns s ++ [mkConn Handling false true false]))
| step_conn i c s' : conns s !! i = Some c -> conn_step s i c s' -> step s s'
| step_stop s' : stop_step s s' -> step s s'.

(** ** What holds throughout *)

(** A connection in the table is still to be visited, or came late. *)
Definition conn_ok (p : stop_pc) (i : nat) (c : conn) : Prop :=
  (c_stored c = false -> c_phase c = Registering \/ c_phase c = Serving -> c_open c = false) /\
  (c_stored c = true ->
     match p with Ranging l => c_late c = true \/ i ∈ l | Waiting | Finished _ => c_late c = true | _ => True end).

Definition inv (s : server) : Prop := forall i c, conns s !! i = Some c -> conn_ok (pc s) i c.

Lemma inv_set_conn s i c : inv s -> (conns s !! i <> None -> conn_ok (pc s) i c) -> inv (set_conn i c s).
Proof.
  intros H Hc j d. unfold set_conn. cbn [conns pc]. destruct (decide (i = j)) as [<-|N].
  - destruct (conns s !! i) as [c0|] eqn:E.
    + rewrite list_lookup_insert_eq by (by eapply lookup_lt_Some). intros [= <-]. by apply Hc.
    + apply lookup_ge_None in E. rewrite list_insert_ge by done. apply H.
  - rewrite list_lookup_insert_ne by done. apply H.
Qed.

Lemma in_table_spec s i c : conns s !! i = Some c -> c_stored c = true -> i ∈ in_table s.
Proof.
  intros Hi Hc. unfold in_table. apply list_elem_of_filter. rewrite Hi, Hc. split; [done|].
  apply list_elem_of_In, in_seq. apply lookup_lt_Some in Hi. lia.
Qed.

Lemma web_step s s' : step s s' -> inv s -> inv s'.
Proof.
  intros [Hp|i c s1 Hi Hs|s1 Hs] H.
  - intros j d [Hj|[_ Hj]]%lookup_app_Some; [by apply H|]. destruct (j - length (conns s))%nat as [|k]; [|done]. cbn in Hj.
    injection Hj as <-. split; [by intros _ [?|?]|done].
  - pose proof (H _ _ Hi) as [H1 H2].
    destruct Hs as [c Hc|c Hc|c Hc|c Hc|c Hc|c Hc]; apply inv_set_conn; try done; intros _; split; cbn; try done;
      try (by intros _ [?|?]); try (intros Hst _; apply H1; auto).
    intros _. unfold closing. destruct (pc s); try done. by left.
  - destruct Hs as [E|E _|E|E|i l c E Hi|E|E _|E]; try (intros j d Hj; specialize (H j d Hj) as [H1 H2]; rewrite E in H2; by split).
    + intros j d Hj. specialize (H j d Hj) as [H1 H2]. split; [done|]. intros Hst. right. by eapply in_table_spec.
    + intros j d. cbn [set_pc conns pc]. destruct (c_stored c) eqn:Es.
      * unfold set_conn. cbn [conns]. destruct (decide (i = j)) as [<-|N].
        -- rewrite list_lookup_insert_eq by (by eapply lookup_lt_Some). intros [= <-]. by split.
        -- rewrite list_lookup_insert_ne by done. intros Hj. specialize (H j d Hj) as [H1 H2]. rewrite E in H2. split; [done|].
           intros Hst. destruct (H2 Hst) as [?|[->|?]%elem_of_cons]; [by left|done|by right].
      * intros Hj. specialize (H j d Hj) as [H1 H2]. rewrite E in H2. split; [done|].
        intros Hst. destruct (H2 Hst) as [?|[->|?]%elem_of_cons]; [by left|congruence|by right].
    + intros j d Hj. specialize (H j d Hj) as [H1 H2]. rewrite E in H2. split; [done|].
      intros Hst. by destruct (H2 Hst) as [?|?%elem_of_nil].
Qed.

Lemma web_rtc s s' : rtc step s s' -> inv s -> inv s'.
Proof. induction 1; eauto using web_step. Qed.

(** ** Theorems *)

(** [CloseSessions] closes every session that was in the server's table when it
    began: a connection that is still open and set up when it has gone through
    the table, or after it has returned, entered the table later. *)
Theorem close_sessions_closes s i c :
  rtc step Start s -> pc s = Waiting \/ (exists b, pc s = Finished b) ->
  conns s !! i = Some c -> c_phase c = Registering \/ c_phase c = Serving -> c_open c = true -> c_late c = true.
Proof.
  intros Hr Hp Hi Hph Ho. assert (inv s) as H by (eapply web_rtc; [done|]; by intros j d).
  specialize (H i c Hi) as [H1 H2]. destruct (c_stored c); [|by rewrite H1 in Ho]. specialize (H2 eq_refl).
  by destruct Hp as [E|[b E]]; rewrite E in H2.
Qed.

(** But one can: a connection that was taken over from the HTTP server and had
    not yet entered the table when the server stopped is seen neither by the
    shutdown nor by [CloseSessions]. Both return without running out of time, and
    the connection is then stored, registered and served by a server that has
    stopped. *)
Theorem late_upgrade_survives :
  exists s1 s2, rtc step Start s1 /\ pc s1 = Finished false /\ rtc step s1 s2 /\
    conns s2 = [mkConn Serving true true true].
Proof.
  exists (mkServer (Finished false) [mkConn Hijacked false true false]), (mkServer (Finished false) [mkConn Serving true true true]).
  split_and!; [|done| |done].
  - eapply rtc_l; [by apply step_request|].
    eapply rtc_l; [eapply (step_conn _ 0); [reflexivity|by apply upgrade]|].
    eapply rtc_l; [by apply step_stop, stop_accept|].
    eapply rtc_l; [apply step_stop, shutdown_done; [done|by repeat constructor]|].
    eapply rtc_l; [by apply step_stop, close_sessions|].
    eapply rtc_l; [by apply step_stop, visited|].
    eapply rtc_l; [apply step_stop, waited; [done|by repeat constructor]|]. constructor.
  - eapply rtc_l; [eapply (step_conn _ 0); [reflexivity|by apply store]|].
    eapply rtc_l; [eapply (step_conn _ 0); [reflexivity|by apply serve]|]. constructor.
Qed.

(** ** Witness *)

Definition late_server : server := mkServer (Finished true) [mkConn Registering true true true].

Lemma late_server_reached : rtc step Start late_server.
Proof.
  eapply rtc_l; [by apply step_request|].
  eapply rtc_l; [eapply (step_conn _ 0); [reflexivity|by apply upgrade]|].
  eapply rtc_l; [by apply step_stop, stop_accept|].
  eapply rtc_l; [by apply step_stop, shutdown_timeout|].
  eapply rtc_l; [by apply step_stop, close_sessions|].
  eapply rtc_l; [by apply step_stop, visited|].
  eapply rtc_l; [by apply step_stop, wait_timeout|].
  eapply rtc_l; [eapply (step_conn _ 0); [reflexivity|by apply store]|]. constructor.
Qed.

Lemma close_sessions_closes_witness : c_late (mkConn Registering true true true) = true.
Proof.
  apply (close_sessions_closes late_server 0 (mkConn Registering true true true) late_server_reached);
    [right; by exists true|reflexivity|by left|reflexivity].
Defined.
