(* ===== verification/TcpPipeline.v ===== *)
(** * TcpPipeline: from the bytes of a connection to the handler

    The read loop of [internal/transport/tcp/session.go], the function that
    [handleConn] of [server.go] gives it, and the pool behind them: frames are cut
    from the stream by any framer that keeps the promise of [FramerLaw], pass
    through the plugin chain ([PluginChain]) and are submitted to the worker pool
    ([Pool]).  This file puts those three together; each is modelled and proved in
    its own file. *)
From S2P Require Import Prelude Bytes Core Stream TcpFramer PluginChain Shared Pool.
Local Open Scope string_scope.
Local Open Scope Z_scope.
Local Open Scope list_scope.

(** What the read loop changes: the world of the plugins; whether the session is
    open; the tasks the pool accepted and how many were offered; metric calls. *)
Record ingest (W : Type) : Type := mkIngest {
  world : W;
  open : bool;
  submitted : list bytes;
  offered : nat;
  calls : list metric_call
}.
Arguments mkIngest {W}.
Arguments world {W}.
Arguments open {W}.
Arguments submitted {W}.
Arguments offered {W}.
Arguments calls {W}.

(** How the loop ended: out of fuel, because a closed connection takes no read
    deadline, because reading failed. *)
Inductive ended : Type := NoFuel | NoDeadline | ReadFailed.

Section pipeline.
Context {W Sess : Type}.
Implicit Types st : ingest W.

(** The session: its framer, its read timeout, its plugins. *)
Variable f : Framer.
Variable readTimeout : Z.
Variable view : pluginView W Sess.
Variable sess : Sess.

(** The reader: how many of the bytes still to be read it has in its buffer (none
    when it is the connection itself).  Whether the read that fails in the end
    fails by its deadline. *)
Variable ahead : bytes -> nat.
Variable timed_out : bool.

(** The pool, as the [n]-th submission finds it: the queue full, the pool stopped,
    the session's context done. *)
Variable policy : FullPolicy.
Variable pool_at : nat -> bool * bool * bool.

(* go: internal/transport/tcp/server.go:366-380 (handleConn) *)
Definition on_frame (payload : bytes) st : ingest W :=
  match OnMessage view sess payload (world st) with
  | ((_, Some err), w) =>
      if errors_Is err ErrPluginDrop then mkIngest w (open st) (submitted st) (offered st) (calls st)
      else mkIngest w false (submitted st) (offered st) (calls st)
  | ((payload, None), w) =>
      let '(full, poolDone, sessionDone) := pool_at (offered st) in
      match submit_refusal policy full poolDone sessionDone with
      | None => mkIngest w (open st) (submitted st ++ [payload]) (S (offered st)) (calls st)
      | Some (err, closes) =>
          mkIngest w (open st && negb closes) (submitted st) (S (offered st))
            (calls st ++ if errors_Is err ErrWriteQueueFull then [IncCounter "tcp_task_queue_full_total" []] else [])
      end
  end.

(** The deferred [Close], and the metric of a session that its read deadline
    reclaimed. *)
Definition finish (reclaimed : bool) st : ingest W :=
  mkIngest (world st) false (submitted st) (offered st)
    (calls st ++ if reclaimed then IncProtocolCounter true MetricSessionsReclaimed ProtocolTCP else []).

(** Closing the connection leaves what is in the read buffer to be read.  When
    another goroutine closes it, the input [s] is what could still be read. *)
(* go: internal/transport/tcp/session.go:207-228 (readLoop) *)
Fixpoint readLoop (fuel : nat) (s : bytes) st : ended * ingest W :=
  match fuel with
  | O => (NoFuel, st)
  | S fuel =>
      if (0 <? readTimeout) && negb (open st) then (NoDeadline, finish false st)
      else
        match ReadFrame f s with
        | (Err _, _) => (ReadFailed, finish (timed_out && open st) st)
        | (Ok payload, s) =>
            let st' := on_frame payload st in
            readLoop fuel (if open st && negb (open st') then take (ahead s) s else s) st'
        end
  end.

(** ** What it should do *)

(** The messages one after another, until the session is closed. *)
Fixpoint serve (ps : list bytes) st : ingest W :=
  match ps with
  | [] => st
  | p :: ps => if open st then serve ps (on_frame p st) else st
  end.

(** All of them, closed or not. *)
Definition serve_all (ps : list bytes) st : ingest W := foldl (fun st p => on_frame p st) st ps.

Definition unreadable (s : bytes) : Prop := is_ok (ReadFrame f s).1 = false.

(** A session that was closed stays closed. *)
Lemma on_frame_closed p st : open st = false -> open (on_frame p st) = false.
Proof.
  intros H. unfold on_frame. destruct (OnMessage _ _ _ _) as [[out [err|]] w].
  - by destruct (errors_Is err ErrPluginDrop).
  - destruct (pool_at (offered st)) as [[full pd] sd].
    destruct (submit_refusal policy full pd sd) as [[e closes]|]; cbn [open]; [|done]. by rewrite H.
Qed.

Lemma serve_closed ps st : open st = false -> serve ps st = st.
Proof. intros H. destruct ps; cbn [serve]; [done|]. by rewrite H. Qed.

Lemma read_stops fuel s st :
  unreadable s -> readLoop (S fuel) s st =
    (if (0 <? readTimeout) && negb (open st) then NoDeadline else ReadFailed,
     finish (timed_out && open st) st).
Proof.
  unfold unreadable. intros H. cbn [readLoop]. destruct (open st) eqn:E; cbn [negb].
  - rewrite andb_false_r. by destruct (ReadFrame f s) as [[p|e] s'].
  - rewrite andb_true_r, andb_false_r. destruct (0 <? readTimeout); [done|].
    by destruct (ReadFrame f s) as [[p|e] s'].
Qed.

(** One frame: what is left of the stream, cut to the read buffer if the session
    was closed on this frame. *)
Lemma read_one ok `{!FramerLaw f ok} fuel p w rest st :
  ok p -> WriteFrame f p = Ok w -> open st = true \/ readTimeout <= 0 ->
  readLoop (S fuel) (w ++ rest) st =
    let st' := on_frame p st in
    readLoop fuel (if open st && negb (open st') then take (ahead rest) rest else rest) st'.
Proof.
  intros Hp Hw Ho. cbn [readLoop]. rewrite (framer_read_back p w rest Hp Hw).
  assert ((0 <? readTimeout) && negb (open st) = false) as ->.
  { destruct Ho as [->|Ho]; [apply andb_false_r|]. by rewrite (proj2 (Z.ltb_ge 0 readTimeout) Ho). }
  done.
Qed.

Lemma write_frames_cons p ps wire :
  write_frames f (p :: ps) = Some wire ->
  exists w ws, WriteFrame f p = Ok w /\ write_frames f ps = Some ws /\ wire = w ++ ws.
Proof.
  cbn [write_frames]. destruct (WriteFrame f p) as [w|] eqn:E; [|done].
  destruct (write_frames f ps) as [ws|]; [|done]. intros Hw. exists w, ws. split_and!; congruence.
Qed.

Lemma read_serve ok `{!FramerLaw f ok} fuel ps wire rest st :
  0 < readTimeout -> Forall ok ps -> write_frames f ps = Some wire -> unreadable rest ->
  open st = true -> (length ps < fuel)%nat ->
  let st' := serve ps st in
  readLoop fuel (wire ++ rest) st =
    (if open st' then ReadFailed else NoDeadline, finish (timed_out && open st') st').
Proof.
  intros Ht Hok Hw Hr. revert fuel wire Hw st. induction Hok as [|p ps Hp Hps IH]; intros fuel wire Hw st Ho Hf; cbn zeta.
  - injection Hw as <-. destruct fuel as [|fuel]; [cbn in Hf; lia|]. cbn [app serve].
    rewrite read_stops by done. by rewrite (proj2 (Z.ltb_lt 0 readTimeout) Ht), Ho.
  - apply write_frames_cons in Hw as (w & ws & Hw & Hws & ->). destruct fuel as [|fuel]; [cbn in Hf; lia|].
    cbn [length serve] in *. rewrite Ho, <- app_assoc, (read_one ok _ p w) by auto. cbn zeta. rewrite Ho. cbn [andb].
    destruct (open (on_frame p st)) eqn:E; cbn [negb].
    + apply IH; [done|done|lia].
    + rewrite serve_closed by done. rewrite E, andb_false_r. destruct fuel as [|fuel]; [lia|].
      cbn [readLoop]. by rewrite (proj2 (Z.ltb_lt 0 readTimeout) Ht), E.
Qed.

(** ** Without a read timeout *)

Lemma read_serve_all ok `{!FramerLaw f ok} fuel ps wire rest st :
  readTimeout <= 0 -> (forall s, (length s <= ahead s)%nat) -> Forall ok ps ->
  write_frames f ps = Some wire -> unreadable rest -> (length ps < fuel)%nat ->
  let st' := serve_all ps st in
  readLoop fuel (wire ++ rest) st = (ReadFailed, finish (timed_out && open st') st').
Proof.
  intros Ht Ha Hok Hw Hr. revert fuel wire Hw st. induction Hok as [|p ps Hp Hps IH]; intros fuel wire Hw st Hf; cbn zeta.
  - injection Hw as <-. destruct fuel as [|fuel]; [cbn in Hf; lia|]. cbn [app].
    rewrite read_stops by done. by rewrite (proj2 (Z.ltb_ge 0 readTimeout) Ht).
  - apply write_frames_cons in Hw as (w & ws & Hw & Hws & ->). destruct fuel as [|fuel]; [cbn in Hf; lia|].
    cbn [length] in *. rewrite <- app_assoc, (read_one ok _ p w) by auto. cbn zeta.
    assert ((if open st && negb (open (on_frame p st)) then take (ahead (ws ++ rest)) (ws ++ rest) else ws ++ rest)
      = ws ++ rest) as -> by (destruct (_ && _); [by rewrite take_ge by apply Ha|done]).
    apply IH; [done|lia].
Qed.

(** ** Termination *)

(** A framer that returns a frame has consumed some of the input. *)
Class FramerProgress : Prop := framer_progress : forall s p s', ReadFrame f s = (Ok p, s') -> (length s' < length s)%nat.

Lemma read_ends `{!FramerProgress} fuel s st : (length s < fuel)%nat -> (readLoop fuel s st).1 <> NoFuel.
Proof.
  revert s st. induction fuel as [|fuel IH]; intros s st Hf; [lia|]. cbn [readLoop].
  destruct (_ && _); [done|]. destruct (ReadFrame f s) as [[p|e] s'] eqn:E; [|done].
  apply framer_progress in E. cbn zeta. apply IH. destruct (_ && _); [rewrite length_take|]; lia.
Qed.
End pipeline.

Arguments FramerProgress : clear implicits.

Lemma ReadFull_shrinks n s p s' : (0 < n)%nat -> ReadFull n s = (Ok p, s') -> (length s' < length s)%nat.
Proof. intros Hn H. apply ReadFull_ok in H as [-> Hp]. rewrite length_app. lia. Qed.

Lemma ReadFull_shrinks_le n s p s' : ReadFull n s = (Ok p, s') -> (length s' <= length s)%nat.
Proof. intros H. apply ReadFull_ok in H as [-> Hp]. rewrite length_app. lia. Qed.

#[export] Instance LengthPrefix_progress buffered max : FramerProgress (LengthPrefixFramer buffered max).
Proof.
  intros s p s'. cbn [ReadFrame LengthPrefixFramer]. destruct buffered.
  - unfold lp_read_buffered, Peek. destruct (Nat.leb_spec 4 (length s)) as [Hl|]; [|done].
    destruct (_ <? _); [done|]. intros H%ReadFull_shrinks_le. rewrite length_drop in H. lia.
  - unfold lp_read. destruct (ReadFull 4 s) as [[h|e] s1] eqn:E; [|done].
    apply ReadFull_shrinks in E; [|lia]. destruct (_ <? _); [done|]. intros H%ReadFull_shrinks_le. lia.
Qed.

Lemma line_read_shrinks max delim line s p s' :
  line_read max delim line s = (Ok p, s') -> (length s' < length s)%nat.
Proof.
  revert line. induction s as [|b s IH]; intros line; [done|]. cbn [line_read length].
  destruct (_ <? _); [done|]. destruct (b =? delim); [intros [= _ <-]; lia|]. intros H%IH. lia.
Qed.

Lemma line_buffered_shrinks fuel size max delim out s p s' :
  line_read_buffered fuel size max delim out s = (Ok p, s') -> (length s' < length s)%nat.
Proof.
  revert out s. induction fuel as [|fuel IH]; intros out s; [done|]. cbn [line_read_buffered]. unfold ReadSlice.
  destruct (split_at delim (take size s)) as [[frag q]|] eqn:E.
  - apply split_at_some in E as (E & p0 & -> & _). destruct (_ <? _); [done|]. intros [= _ <-].
    assert (length (take size s) <= length s)%nat by (rewrite length_take; lia).
    rewrite E, length_app in *. rewrite length_drop, length_app in *. cbn [length] in *. lia.
  - destruct (Nat.leb_spec size (length s)); [|done]. destruct (_ <? _); [done|]. intros H1%IH.
    rewrite length_drop in H1. lia.
Qed.

#[export] Instance Line_progress buffered max D : FramerProgress (LineFramer buffered max D).
Proof.
  intros s p s'. cbn [ReadFrame LineFramer]. destruct buffered; [apply line_buffered_shrinks|apply line_read_shrinks].
Qed.

#[export] Instance FixedSize_progress Size : FramerProgress (FixedSizeFramer Size).
Proof.
  intros s p s'. cbn [ReadFrame FixedSizeFramer]. destruct (Z.leb_spec Size 0); [done|]. apply ReadFull_shrinks. lia.
Qed.

Lemma Raw_progress max available : available <> 0%nat -> FramerProgress (RawFramer max available).
Proof.
  intros Ha s p s'. cbn [ReadFrame RawFramer]. destruct s as [|b s]; [done|]. cbn zeta. intros [= _ <-].
  assert (0 < raw_max max) by (unfold raw_max; destruct (Z.leb_spec max 0); lia).
  rewrite length_drop. cbn [length]. lia.
Qed.

(** ** One worker *)

Section one_worker.
Context {Task : Type}.
Variable policy : FullPolicy.
Variable cap : nat.
Implicit Types p : pool Task.

(** The only worker is the first; what was accepted is what was handled, then
    what it has in hand, then the queue. *)
Definition in_order p : Prop :=
  (exists w, workers p = [w]) /\ adding p = false /\ accepted p = handled p ++ in_hand (workers p) ++ queue p.

Lemma set_worker_in_order p i w w' q h :
  in_order p -> workers p !! i = Some w ->
  handled p ++ running w ++ queue p = h ++ running w' ++ q -> in_order (set_worker p i w' q h).
Proof.
  intros ([w0 Hw] & Ha & Ho) Hi Hq. rewrite Hw in Hi. destruct i as [|i]; [injection Hi as ->|by destruct i].
  unfold in_order. cbn [set_worker workers adding accepted handled queue]. rewrite Hw in *. cbn [insert list_insert] in *.
  split_and!; [by eexists|done|]. rewrite Ho. unfold in_hand in *. cbn [mbind list_bind] in *. by rewrite !app_nil_r.
Qed.

Lemma pool_step_in_order p p' :
  pool_ok cap false 1 p -> pool_step policy cap false 1 p p' -> in_order p -> in_order p'.
Proof.
  intros Hok Hs H. pose proof H as ([w Hw] & Ha & Ho). destruct Hs as [p' Hs|p' Hs|p' Hs|p' Hs].
  - destruct Hs; (split_and!; [by eexists|done|]); cbn [accepted handled workers queue]; [done| |done].
    by rewrite Ho, <- !app_assoc.
  - destruct Hs as [i t q Hi E|i t Hi|i Hi|i t q Hi E|i t Hi|i Hi|i Hi]; eapply set_worker_in_order;
      (try done); rewrite ?E; cbn [running app]; by rewrite <- ?app_assoc.
  - by destruct Hs; congruence.
  - destruct Hs as [E|E Ha'|E Hl|E Hf|t q E Hq|E Hq]; try (split_and!; [by eexists|done|done]).
    assert (in_hand (workers p) = []) as Hh by (apply in_hand_exited, (po_exited _ _ _ _ Hok); by rewrite E).
    split_and!; [by eexists|done|]. cbn [accepted handled workers queue]. rewrite Ho, Hh, Hq. by rewrite <- app_assoc.
Qed.

Lemma reachable_in_order p : reachable policy cap false 1 1 p -> in_order p.
Proof.
  intros Hr. cut (pool_ok cap false 1 p /\ in_order p); [tauto|].
  eapply (star_invariant (pool_step policy cap false 1) (fun p => pool_ok cap false 1 p /\ in_order p)); [|exact Hr|].
  - intros a b [H1 H2] Hs. split; [by eapply pool_step_ok|by eapply pool_step_in_order].
  - split; [by apply started_ok|]. by split; [eexists|].
Qed.
End one_worker.

(** ** Theorems *)

Section theorems.
Context {W Sess : Type}.
Variable f : Framer.
Variable ok : bytes -> Prop.
Context `{!FramerLaw f ok}.
Variable readTimeout : Z.
Variable view : pluginView W Sess.
Variable sess : Sess.
Variable ahead : bytes -> nat.
Variable timed_out : bool.
Variable policy : FullPolicy.
Variable pool_at : nat -> bool * bool * bool.

Abbreviation handle_frame := (on_frame view sess policy pool_at).
Abbreviation read := (readLoop f readTimeout view sess ahead timed_out policy pool_at).

(** C16: What the client writes is what is processed: over any framer that keeps
    its promise, the read loop on a stream of frames followed by anything that is
    no frame does exactly what taking the client's payloads one by one does - the
    plugin chain, then the pool - until the session is closed; it ends there, or
    where the frames end, and counts the session as reclaimed exactly if it was
    still open and its read timed out. How much the reader buffers, and that the
    loop sees bytes, makes no difference. *)
Theorem read_loop_serves ps wire rest (st : ingest W) :
  0 < readTimeout -> Forall ok ps -> write_frames f ps = Some wire -> unreadable f rest -> open st = true ->
  let st' := serve view sess policy pool_at ps st in
  read (S (length ps)) (wire ++ rest) st =
    (if open st' then ReadFailed else NoDeadline, finish (timed_out && open st') st').
Proof. intros. apply (read_serve f readTimeout view sess ahead timed_out policy pool_at ok); auto. Qed.

(** With the read timeout turned off, closing a session does not stop its read
    loop: every frame that the read buffer holds goes through the plugins and to
    the pool, also after the plugins, or the pool's policy, have closed the
    session. *)
Theorem closed_session_is_served ps wire rest (st : ingest W) :
  readTimeout <= 0 -> (forall s, (length s <= ahead s)%nat) -> Forall ok ps ->
  write_frames f ps = Some wire -> unreadable f rest ->
  let st' := serve_all view sess policy pool_at ps st in
  read (S (length ps)) (wire ++ rest) st = (ReadFailed, finish (timed_out && open st') st').
Proof. intros. apply (read_serve_all f readTimeout view sess ahead timed_out policy pool_at ok); auto. Qed.

(** The read loop ends, for every framer that consumes some of the input with
    each frame, as the length-prefixed, the line and the fixed-size framers do:
    rounds no more than the bytes of the stream are enough. *)
Theorem read_loop_ends s (st : ingest W) : FramerProgress f -> (read (S (length s)) s st).1 <> NoFuel.
Proof. intros H. apply read_ends; [done|lia]. Qed.

(** What plugins that only look at the payload let through. *)
Variable pass : bytes -> option bytes.
Definition passes : Prop := forall p w,
  (OnMessage view sess p w).1 = match pass p with Some o => (o, None) | None => ([], Some ErrPluginDrop) end.
Definition pool_takes : Prop := forall n,
  let '(full, poolDone, sessionDone) := pool_at n in submit_refusal policy full poolDone sessionDone = None.

Lemma serve_passes ps (st : ingest W) :
  passes -> pool_takes -> open st = true ->
  open (serve view sess policy pool_at ps st) = true /\
  submitted (serve view sess policy pool_at ps st) = submitted st ++ omap pass ps.
Proof.
  intros Hp Ht. revert st. induction ps as [|p ps IH]; intros st Ho; cbn [serve omap list_omap].
  - split; [done|by rewrite app_nil_r].
  - rewrite Ho. specialize (Hp p (world st)). specialize (Ht (offered st)).
    assert (open (handle_frame p st) = true /\
            submitted (handle_frame p st) = submitted st ++ match pass p with Some o => [o] | None => [] end) as [H1 H2].
    { unfold on_frame. destruct (OnMessage view sess p (world st)) as [[out err] w]. cbn [fst] in Hp.
      destruct (pass p) as [o|]; injection Hp as -> ->; cbn.
      - destruct (pool_at (offered st)) as [[full pd] sd]. by rewrite Ht.
      - split; [done|by rewrite app_nil_r]. }
    destruct (IH _ H1) as [-> ->]. split; [done|]. rewrite H2, <- app_assoc. f_equal. by destruct (pass p).
Qed.

(** The payloads of session [id] among the pool's tasks. *)
Definition of_session (id : Z) (ts : list (Z * bytes)) : list bytes :=
  omap (fun t => if t.1 =? id then Some t.2 else None) ts.

(** C17: From end to end: with a pool of one worker that refuses none of the
    session's messages, the handler has received, by the time the pool has stopped,
    exactly what the plugins let through of what the client wrote, in the order
    in which the client wrote it, whatever the other sessions submit. *)
Theorem tcp_messages_in_order id cap ps wire rest (st : ingest W) (p : pool (Z * bytes)) :
  0 < readTimeout -> Forall ok ps -> write_frames f ps = Some wire -> unreadable f rest ->
  open st = true -> submitted st = [] -> passes -> pool_takes ->
  reachable policy cap false 1 1 p -> phase p = Stopped ->
  of_session id (accepted p) = submitted (read (S (length ps)) (wire ++ rest) st).2 ->
  of_session id (handled p) = omap pass ps.
Proof.
  intros Ht Hok Hw Hr Ho Hs Hp Hq Hreach Hstop Hacc.
  destruct (serve_passes ps st Hp Hq Ho) as [H1 H2].
  rewrite (read_serve f readTimeout view sess ahead timed_out policy pool_at ok _ ps) in Hacc by auto.
  cbn [snd finish submitted] in Hacc. rewrite H2, Hs in Hacc. cbn [app] in Hacc. rewrite <- Hacc.
  destruct (reachable_in_order policy cap p Hreach) as (_ & _ & E).
  pose proof (reachable_ok policy cap false 1 1 p ltac:(lia) Hreach) as Hk.
  rewrite E, (po_empty _ _ _ _ Hk Hstop), in_hand_exited, !app_nil_r; [done|].
  apply (po_exited _ _ _ _ Hk). by rewrite Hstop.
Qed.
End theorems.

(** With the TCP server's default pool - four workers, 512 tasks - two
    messages accepted one after another can be handled in the other order,
    although they come from one connection. *)
Theorem default_pool_reorders {Task} (a b : Task) :
  exists p, reachable PolicyDrop 512 false 4 4 p /\ accepted p = [a; b] /\ handled p = [b; a].
Proof.
  eexists. split; [|split].
  - eapply star_step; [apply by_submit, (SubmitEnter _ _ _ a); reflexivity|].
    eapply star_step; [apply by_submit, (SubmitEnqueue _ _ _ a [] []); [reflexivity|cbn; lia]|].
    eapply star_step; [apply by_submit, (SubmitEnter _ _ _ b); reflexivity|].
    eapply star_step; [apply by_submit, (SubmitEnqueue _ _ _ b [] []); [reflexivity|cbn; lia]|].
    eapply star_step; [apply by_worker, (WorkerTake _ 0 a [b]); reflexivity|].
    eapply star_step; [apply by_worker, (WorkerTake _ 1 b []); reflexivity|].
    eapply star_step; [apply by_worker, (WorkerDone _ 1 b); reflexivity|].
    eapply star_step; [apply by_worker, (WorkerDone _ 0 a); reflexivity|]. apply star_refl.
  - reflexivity.
  - reflexivity.
Qed.

(** ** Witnesses *)

(** Plugins over a world that is the list of messages seen: one drops empty
    messages, the other refuses a first byte of 255. *)
Definition drop_empty : Plugin (list bytes) unit :=
  mkPlugin "drop-empty" 10 (fun _ w => (Returned None, w))
    (fun _ b w => (Returned (match b with [] => ([], Some ErrPluginDrop) | _ => (b, None) end), w))
    (fun _ w => (Returned tt, w)) None.
Definition guard : Plugin (list bytes) unit :=
  mkPlugin "guard" 20 (fun _ w => (Returned None, w))
    (fun _ b w => (Returned (if match b with 255 :: _ => true | _ => false end then ([], Some (ErrMsg "refused")) else (b, None)), w ++ [b]))
    (fun _ w => (Returned tt, w)) None.

Definition quiet_view (ps : list (Plugin (list bytes) unit)) : pluginView (list bytes) unit := mkView ps (fun _ _ w => w).
Definition fresh : ingest (list bytes) := mkIngest [] true [] 0 [].
Definition lp : Framer := LengthPrefixFramer true 1024.
Definition free_pool : nat -> bool * bool * bool := fun _ => (false, false, false).
Definition three : list bytes := [[1; 2]; []; [3]].
Definition three_wire : bytes := [0; 0; 0; 2; 1; 2; 0; 0; 0; 0; 0; 0; 0; 1; 3].

#[export] Instance lp_law : FramerLaw lp (fun _ => True).
Proof. by apply LengthPrefix_law. Qed.

Lemma read_loop_serves_witness :
  submitted (readLoop lp 1 (quiet_view [drop_empty; guard]) tt (fun _ => 0%nat) false PolicyDrop free_pool 4 (three_wire ++ [9]) fresh).2
  = [[1; 2]; [3]].
Proof.
  pose proof (read_loop_serves lp (fun _ => True) 1 (quiet_view [drop_empty; guard]) tt (fun _ => 0%nat) false PolicyDrop free_pool
    three three_wire [9] fresh) as H. cbn zeta in H. cbn [length three] in H.
  rewrite H; [reflexivity|lia|by repeat constructor|reflexivity|reflexivity|reflexivity].
Defined.

(** The second message is refused; the third goes to the pool all the same. *)
Lemma closed_session_is_served_witness :
  submitted (readLoop lp 0 (quiet_view [guard]) tt length false PolicyDrop free_pool 4
    ([0; 0; 0; 1; 7; 0; 0; 0; 1; 255; 0; 0; 0; 1; 8] ++ []) fresh).2 = [[7]; [8]].
Proof.
  pose proof (closed_session_is_served lp (fun _ => True) 0 (quiet_view [guard]) tt length false PolicyDrop free_pool
    [[7]; [255]; [8]] [0; 0; 0; 1; 7; 0; 0; 0; 1; 255; 0; 0; 0; 1; 8] [] fresh) as H. cbn zeta in H. cbn [length] in H.
  rewrite H; [reflexivity|lia|done|by repeat constructor|reflexivity|reflexivity].
Defined.

Lemma read_loop_ends_witness :
  (readLoop lp 1 (quiet_view []) tt (fun _ => 0%nat) true PolicyDrop free_pool 3 [0; 0] fresh).1 <> NoFuel.
Proof. apply (read_loop_ends lp 1 (quiet_view []) tt (fun _ => 0%nat) true PolicyDrop free_pool [0; 0] fresh). apply _. Defined.

(** Sessions 5 and 6 share the pool. *)
Definition shared_pool : pool (Z * bytes) :=
  mkPool [] [] [Exited] ∅ ∅ false Stopped [(5, [1; 2]); (6, [4]); (5, [3])] [(5, [1; 2]); (6, [4]); (5, [3])].

Ltac pool_does tac :=
  eapply star_step; [tac|];
  cbn [set_worker set_phase queue inflight workers active retired adding phase accepted handled app insert list_insert].

Lemma shared_pool_reached : reachable PolicyDrop 8 false 1 1 shared_pool.
Proof.
  assert (started 1 = mkPool [] [] [Idle] {[0%nat]} ∅ false Running [] [] :> pool (Z * bytes)) as E
    by (unfold started; f_equal; set_solver).
  unfold reachable. rewrite E.
  pool_does ltac:(apply by_submit, (SubmitEnter _ _ _ (5, [1; 2])); reflexivity).
  pool_does ltac:(apply by_submit, (SubmitEnqueue _ _ _ (5, [1; 2]) [] []); [reflexivity|cbn; lia]).
  pool_does ltac:(apply by_submit, (SubmitEnter _ _ _ (6, [4])); reflexivity).
  pool_does ltac:(apply by_submit, (SubmitEnqueue _ _ _ (6, [4]) [] []); [reflexivity|cbn; lia]).
  pool_does ltac:(apply by_submit, (SubmitEnter _ _ _ (5, [3])); reflexivity).
  pool_does ltac:(apply by_submit, (SubmitEnqueue _ _ _ (5, [3]) [] []); [reflexivity|cbn; lia]).
  pool_does ltac:(apply by_stop, StopBegin; reflexivity).
  pool_does ltac:(apply by_worker, (WorkerSeesDone _ 0); reflexivity).
  pool_does ltac:(apply by_worker, (DrainTake _ 0 (5, [1; 2]) [(6, [4]); (5, [3])]); reflexivity).
  pool_does ltac:(apply by_worker, (DrainDone _ 0 (5, [1; 2])); reflexivity).
  pool_does ltac:(apply by_worker, (DrainTake _ 0 (6, [4]) [(5, [3])]); reflexivity).
  pool_does ltac:(apply by_worker, (DrainDone _ 0 (6, [4])); reflexivity).
  pool_does ltac:(apply by_worker, (DrainTake _ 0 (5, [3]) []); reflexivity).
  pool_does ltac:(apply by_worker, (DrainDone _ 0 (5, [3])); reflexivity).
  pool_does ltac:(apply by_stop, StopRetire; reflexivity).
  pool_does ltac:(apply by_stop, StopLock; reflexivity).
  pool_does ltac:(apply by_worker, (DrainExit _ 0); reflexivity).
  pool_does ltac:(apply by_stop, StopWait; [reflexivity|by repeat constructor]).
  pool_does ltac:(apply by_stop, StopReturn; reflexivity).
  unfold shared_pool. match goal with |- star _ ?a ?b => assert (a = b) as ->; [f_equal; set_solver|apply star_refl] end.
Qed.

Lemma tcp_messages_in_order_witness : of_session 5 (handled shared_pool) = [[1; 2]; [3]].
Proof.
  refine (tcp_messages_in_order lp (fun _ => True) 1 (quiet_view [drop_empty]) tt (fun _ => 0%nat) false PolicyDrop free_pool
    (fun b => match b with [] => None | _ => Some b end) 5 8 three three_wire [9] fresh shared_pool _ _ _ _ _ _ _ _ shared_pool_reached _ _).
  - lia.
  - by repeat constructor.
  - reflexivity.
  - reflexivity.
  - reflexivity.
  - reflexivity.
  - intros [|b p] w; reflexivity.
  - intros n; reflexivity.
  - reflexivity.
  - reflexivity.
Defined.
