(* ===== verification/OptionTools.v ===== *)
(** * OptionTools: what the servers' options share

    The WebSocket, gRPC-Web, HTTP, QUIC and CoAP servers are configured alike: each
    option is the function that a [With...] of the package returns, and a server
    takes any list of them over its defaults ([WsOptions], [GrpcWebOptions],
    [HttpOptions], [QuicOptions], [CoapOptions]; the TCP server's are in
    [TcpOptions]).  Here: the listener and PROXY options they have in common, and
    the automation of their validity lemmas.  Of handlers, multiplexers and TLS
    configurations only the presence matters; durations are nanoseconds. *)
From coqutil Require Import Datatypes.RecordSetters.
From S2P Require Import Prelude Bytes Acceptor ProxyProto.
From S2P Require TcpOptions.
Local Open Scope Z_scope.
Local Open Scope list_scope.

Definition second : Z := 1000000000.
Definition minute : Z := 60 * second.

Abbreviation ListenOptions := TcpOptions.ListenOptions.
Abbreviation no_listen := (TcpOptions.mkListen false 0 0 0).

(** [OnReject] is the presence of the caller's hook. *)
(* go: internal/transport/shared/proxyproto.go:105-116 (ProxyConfig) *)
Record ProxyConfig : Type := mkProxy { Mode : ProxyProtocolMode; Timeout : Z; OnReject : bool }.
Definition no_proxy : ProxyConfig := mkProxy ProxyProtocolOff 0 false.

Definition keep_alive (idle interval count : Z) (l : ListenOptions) : ListenOptions :=
  TcpOptions.mkListen (TcpOptions.ReusePort l) idle interval count.
Definition reuse_port (l : ListenOptions) : ListenOptions :=
  TcpOptions.mkListen true (TcpOptions.KeepAliveIdle l) (TcpOptions.KeepAliveInterval l) (TcpOptions.KeepAliveCount l).

(** An option leaves a record whose bounds are those of before, or what its guard
    has tested. *)
Ltac options_case :=
  match goal with |- _ ?t => let h := RecordSetters.head t in unfold h end;
  repeat match goal with
         | |- context [if ?x <? ?y then _ else _] => destruct (Z.ltb_spec x y)
         | |- context [if bool_decide ?P then _ else _] => destruct (bool_decide_reflect P)
         | |- context [match ?x with Some _ => _ | None => _ end] => destruct x
         end;
  split; unfold constant; cbn; done || tauto || lia.

Lemma foldl_keeps {O} (ok : O -> Prop) (exported : (O -> O) -> Prop) :
  (forall opt o, exported opt -> ok o -> ok (opt o)) ->
  forall opts o, Forall exported opts -> ok o -> ok (foldl (fun o opt => opt o) o opts).
Proof. intros H opts o Hopts. revert o. induction Hopts; intros o Ho; cbn; auto. Qed.
