(* ===== verification/WsOptions.v ===== *)
(** * WsOptions: [internal/transport/websocket/options.go]

    The options of the WebSocket server, and what its ping interval and pong
    timeout make of a client that only answers pings. *)
From coqutil Require Import Datatypes.RecordSetters.
From S2P Require Import Prelude Bytes Acceptor ProxyProto OptionTools.
Import DoubleBraceUpdate.
Local Open Scope Z_scope.
Local Open Scope list_scope.

Section ws.
Context {Request : Type}.

(* go: internal/transport/websocket/options.go:12-45 (Options) *)
Record Options : Type := mkOptions {
  Addr : bytes;
  Path : bytes;
  Handler : bool;
  TLSConfig : bool;
  CheckOrigin : Request -> bool;
  PingInterval : Z;
  PongTimeout : Z;
  MaxMessageSize : Z;
  WriteTimeout : Z;
  ReadTimeout : Z;
  IdleTimeout : Z;
  MaxConnections : Z;
  MaxConnectionsPerIP : Z;
  AcceptRate : float64;
  HandshakeTimeout : Z;
  ReadBufferSize : Z;
  WriteBufferSize : Z;
  Listen : ListenOptions;
  Proxy : ProxyConfig
}.

(* go: internal/transport/websocket/options.go:47-64 (defaultOptions) *)
Definition defaultOptions : Options := {|
  Addr := bytes_of_string "127.0.0.1:18700"; Path := bytes_of_string "/ws"; Handler := false; TLSConfig := false;
  CheckOrigin := fun _ => false; PingInterval := 30 * second; PongTimeout := 60 * second;
  MaxMessageSize := 1024 * 1024; WriteTimeout := 10 * second; ReadTimeout := 10 * second; IdleTimeout := 120 * second;
  MaxConnections := 0; MaxConnectionsPerIP := 0; AcceptRate := f0; HandshakeTimeout := 0;
  ReadBufferSize := 0; WriteBufferSize := 0; Listen := no_listen; Proxy := no_proxy |}.

Abbreviation Option_ := (Options -> Options).

(* go: internal/transport/websocket/options.go:64-66 (WithAddr) *)
Definition WithAddr (addr : bytes) : Option_ := fun o => o{{Addr := addr}}.
(* go: internal/transport/websocket/options.go:68-74 (WithPath) *)
Definition WithPath (path : bytes) : Option_ := fun o => if bool_decide (path <> []) then o{{Path := path}} else o.
(* go: internal/transport/websocket/options.go:76-78 (WithHandler) *)
Definition WithHandler (handler : bool) : Option_ := fun o => o{{Handler := handler}}.
(* go: internal/transport/websocket/options.go:80-82 (WithTLSConfig) *)
Definition WithTLSConfig (cfg : bool) : Option_ := fun o => o{{TLSConfig := cfg}}.
(* go: internal/transport/websocket/options.go:84-90 (WithCheckOrigin) *)
Definition WithCheckOrigin (fn : option (Request -> bool)) : Option_ :=
  fun o => match fn with Some fn => o{{CheckOrigin := fn}} | None => o end.
(* go: internal/transport/websocket/options.go:92-98 (WithPingInterval) *)
Definition WithPingInterval (interval : Z) : Option_ := fun o => if 0 <? interval then o{{PingInterval := interval}} else o.
(* go: internal/transport/websocket/options.go:100-106 (WithPongTimeout) *)
Definition WithPongTimeout (timeout : Z) : Option_ := fun o => if 0 <? timeout then o{{PongTimeout := timeout}} else o.
(* go: internal/transport/websocket/options.go:110-114 (WithMaxConnections) *)
Definition WithMaxConnections (max : Z) : Option_ := fun o => o{{MaxConnections := max}}.
(* go: internal/transport/websocket/options.go:116-121 (WithAcceptRate) *)
Definition WithAcceptRate (rate : float64) : Option_ := fun o => o{{AcceptRate := rate}}.
(* go: internal/transport/websocket/options.go:123-128 (WithMaxConnectionsPerIP) *)
Definition WithMaxConnectionsPerIP (max : Z) : Option_ := fun o => o{{MaxConnectionsPerIP := max}}.
(* go: internal/transport/websocket/options.go:130-141 (WithHandshakeTimeout) *)
Definition WithHandshakeTimeout (timeout : Z) : Option_ := fun o => if 0 <? timeout then o{{HandshakeTimeout := timeout}} else o.
(* go: internal/transport/websocket/options.go:143-153 (WithReadTimeout) *)
Definition WithReadTimeout (timeout : Z) : Option_ := fun o => if 0 <? timeout then o{{ReadTimeout := timeout}} else o.
(* go: internal/transport/websocket/options.go:155-167 (WithUpgradeBuffers) *)
Definition WithUpgradeBuffers (read write : Z) : Option_ := fun o =>
  let o := if 0 <? read then o{{ReadBufferSize := read}} else o in
  if 0 <? write then o{{WriteBufferSize := write}} else o.
(* go: internal/transport/websocket/options.go:169-175 (WithReusePort) *)
Definition WithReusePort : Option_ := fun o => o{{Listen := reuse_port (Listen o)}}.
(* go: internal/transport/websocket/options.go:177-185 (WithKeepAlive) *)
Definition WithKeepAlive (idle interval count : Z) : Option_ := fun o => o{{Listen := keep_alive idle interval count (Listen o)}}.
(* go: internal/transport/websocket/options.go:187-193 (WithProxyProtocol) *)
Definition WithProxyProtocol (mode : ProxyProtocolMode) : Option_ :=
  fun o => o{{Proxy := mkProxy mode (Timeout (Proxy o)) (OnReject (Proxy o))}}.
(* go: internal/transport/websocket/options.go:195-201 (WithProxyHeaderTimeout) *)
Definition WithProxyHeaderTimeout (timeout : Z) : Option_ := fun o =>
  if 0 <? timeout then o{{Proxy := mkProxy (Mode (Proxy o)) timeout (OnReject (Proxy o))}} else o.

(** The options the package exports. *)
Inductive exported : Option_ -> Prop :=
| by_addr a : exported (WithAddr a) | by_path p : exported (WithPath p) | by_handler b : exported (WithHandler b)
| by_tls b : exported (WithTLSConfig b) | by_origin f : exported (WithCheckOrigin f)
| by_ping t : exported (WithPingInterval t) | by_pong t : exported (WithPongTimeout t)
| by_max n : exported (WithMaxConnections n) | by_rate r : exported (WithAcceptRate r)
| by_max_ip n : exported (WithMaxConnectionsPerIP n) | by_handshake t : exported (WithHandshakeTimeout t)
| by_read t : exported (WithReadTimeout t) | by_buffers r w : exported (WithUpgradeBuffers r w)
| by_reuse : exported WithReusePort | by_keep_alive i v n : exported (WithKeepAlive i v n)
| by_proxy m : exported (WithProxyProtocol m) | by_proxy_timeout t : exported (WithProxyHeaderTimeout t).

(* go: internal/transport/websocket/server.go:33-39 (NewServer) *)
Definition NewServer (opts : list Option_) : Options := foldl (fun o opt => opt o) defaultOptions opts.

(** What the server relies on: a pattern for its multiplexer, and deadlines on
    everything a peer can hold up. *)
Record ok (o : Options) : Prop := {
  path_set : Path o <> [];
  ping_positive : 0 < PingInterval o;
  pong_positive : 0 < PongTimeout o;
  read_positive : 0 < ReadTimeout o;
  write_bounded : WriteTimeout o = 10 * second /\ IdleTimeout o = 120 * second /\ MaxMessageSize o = 1024 * 1024;
  rest_natural : 0 <= HandshakeTimeout o /\ 0 <= ReadBufferSize o /\ 0 <= WriteBufferSize o /\ 0 <= Timeout (Proxy o)
}.

Lemma ws_exported_ok opt o : exported opt -> ok o -> ok (opt o).
Proof.
  intros Hopt [H1 H2 H3 H4 H5 H6]. destruct o; cbn in *.
  destruct Hopt; options_case.
Qed.
End ws.

(** ** Pings and the read deadline *)

(** The reader's deadline is set when it starts to wait and by every pong; it
    gives up when nothing has come by then.  [arrivals] are the times at which
    something comes from the peer.  The gRPC-Web server's WebSocket mode does the
    same. *)
(* go: internal/transport/websocket/server.go:208-224 (readLoop) *)
Fixpoint gives_up (PongTimeout deadline : Z) (arrivals : list Z) : Z :=
  match arrivals with
  | [] => deadline
  | a :: arrivals => if a <? deadline then gives_up PongTimeout (a + PongTimeout) arrivals else deadline
  end.

(** The answers of a peer that says nothing of its own: the [k]-th ping goes out
    after [k + 1] intervals, its pong comes [delay k] later. *)
(* go: internal/transport/websocket/server.go:242-257 (pingLoop) *)
Definition pongs (start PingInterval : Z) (delay : nat -> Z) (n : nat) : list Z :=
  map (fun k => start + (Z.of_nat k + 1) * PingInterval + delay k) (seq 0 n).

Lemma gives_up_chain P deadline l :
  (forall a, l !! 0%nat = Some a -> a < deadline) ->
  (forall i a b, l !! i = Some a -> l !! S i = Some b -> b < a + P) ->
  gives_up P deadline l = match last l with Some a => a + P | None => deadline end.
Proof.
  revert deadline. induction l as [|a l IH]; intros deadline H0 H1; [done|]. cbn [gives_up].
  rewrite (proj2 (Z.ltb_lt _ _)) by (by apply H0). rewrite IH.
  - rewrite last_cons. by destruct (last l).
  - intros b Hb. by apply (H1 0%nat).
  - intros i b c. apply (H1 (S i)).
Qed.

Lemma lookup_pongs start I delay n i :
  (i < n)%nat -> pongs start I delay n !! i = Some (start + (Z.of_nat i + 1) * I + delay i).
Proof. intros Hi. unfold pongs. by rewrite list_lookup_fmap, lookup_seq_lt. Qed.

Lemma pongs_bound start I delay n i a : pongs start I delay n !! i = Some a -> (i < n)%nat.
Proof. intros H%lookup_lt_Some. unfold pongs in H. by rewrite length_map, length_seq in H. Qed.

(** ** Theorems *)

(** What the ping interval and the pong timeout make of a WebSocket client that
    answers every ping and is otherwise silent. If its answers come within [d] and
    the interval plus [d] is below the timeout, it is kept for as long as it
    answers, and given up exactly one timeout after its last answer. If the
    timeout is not above the interval - which no option prevents - it is given up
    one timeout after it connected, however fast it answers. *)
Theorem silent_peer {Request} (o : Options (Request := Request)) start (delay : nat -> Z) d n :
  ok o -> (forall k, 0 <= delay k <= d) ->
  let interval := PingInterval o in let timeout := PongTimeout o in
  (interval + d < timeout ->
     gives_up timeout (start + timeout) (pongs start interval delay (S n)) =
       start + (Z.of_nat n + 1) * interval + delay n + timeout) /\
  (timeout <= interval ->
     gives_up timeout (start + timeout) (pongs start interval delay n) = start + timeout).
Proof.
  intros Ho Hd interval timeout. pose proof (ping_positive o Ho) as Hi. fold interval in Hi. split; intros Ht.
  - rewrite gives_up_chain.
    + unfold pongs. rewrite seq_S, map_app, last_app. done.
    + intros a Ha. rewrite lookup_pongs in Ha by lia. injection Ha as <-. specialize (Hd 0%nat). lia.
    + intros i a b Ha Hb. pose proof (pongs_bound _ _ _ _ _ _ Hb). rewrite lookup_pongs in Ha, Hb by lia.
      injection Ha as <-. injection Hb as <-. pose proof (Hd i). specialize (Hd (S i)). lia.
  - destruct n as [|n]; [done|]. cbn [pongs seq map gives_up]. specialize (Hd 0%nat).
    by rewrite (proj2 (Z.ltb_ge _ _)) by lia.
Qed.

(** One option is enough for the second case; the defaults are in the first, for
    answers within half a minute. *)
Example slow_pings :
  let o := NewServer (Request := unit) [WithPingInterval (90 * second)] in PongTimeout o <= PingInterval o.
Proof. done. Qed.
Example default_pings :
  let o := NewServer (Request := unit) [] in PingInterval o + 29 * second < PongTimeout o.
Proof. done. Qed.

(** ** Witness *)

Lemma defaults_ok : ok (defaultOptions (Request := unit)).
Proof. by split. Qed.
Lemma slow_pings_ok : ok (NewServer (Request := unit) [WithPingInterval (90 * second)]).
Proof. by split. Qed.

Lemma silent_peer_witness :
  gives_up (60 * second) (0 + 60 * second) (pongs 0 (30 * second) (fun _ => 5) 3) = 0 + (2 + 1) * (30 * second) + 5 + 60 * second /\
  gives_up (60 * second) (0 + 60 * second) (pongs 0 (90 * second) (fun _ => 0) 3) = 0 + 60 * second.
Proof.
  split.
  - apply (silent_peer _ 0 (fun _ => 5) 5 2 defaults_ok); [intros; lia|by vm_compute].
  - apply (silent_peer _ 0 (fun _ => 0) 0 3 slow_pings_ok); [intros; lia|by vm_compute].
Defined.
