(* ===== verification/GrpcWebOptions.v ===== *)
(** * GrpcWebOptions: [internal/transport/grpcweb/options.go]

    The options of the gRPC-Web server and of its WebSocket mode. *)
From coqutil Require Import Datatypes.RecordSetters.
From S2P Require Import Prelude Bytes Acceptor ProxyProto OptionTools.
Import DoubleBraceUpdate.
Local Open Scope Z_scope.
Local Open Scope list_scope.

Section grpc.
Context {Request : Type}.

(* go: internal/transport/grpcweb/options.go:12-40 (Options) *)
Record Options : Type := mkOptions {
  Addr : bytes;
  Path : bytes;
  Handler : bool;
  TLSConfig : bool;
  MaxMessageBytes : Z;
  MaxConnections : Z;
  MaxConnectionsPerIP : Z;
  AcceptRate : float64;
  HandshakeTimeout : Z;
  ReadTimeout : Z;
  WriteTimeout : Z;
  IdleTimeout : Z;
  WebSocket : bool;
  WebSocketPath : bytes;
  PingInterval : Z;
  PongTimeout : Z;
  Listen : ListenOptions;
  CheckOrigin : Request -> bool;
  Proxy : ProxyConfig
}.

(* go: internal/transport/grpcweb/options.go:42-60 (defaultOptions) *)
Definition defaultOptions : Options := {|
  Addr := bytes_of_string "127.0.0.1:18900"; Path := bytes_of_string "/grpc"; Handler := false; TLSConfig := false;
  MaxMessageBytes := 4 * 1024 * 1024; MaxConnections := 0; MaxConnectionsPerIP := 0; AcceptRate := f0;
  HandshakeTimeout := 0; ReadTimeout := 10 * second; WriteTimeout := 10 * second; IdleTimeout := 60 * second;
  WebSocket := false; WebSocketPath := bytes_of_string "/grpc/ws"; PingInterval := 30 * second;
  PongTimeout := 60 * second; Listen := no_listen; CheckOrigin := fun _ => false; Proxy := no_proxy |}.

Abbreviation Option_ := (Options -> Options).

(* go: internal/transport/grpcweb/options.go:60-62 (WithAddr) *)
Definition WithAddr (addr : bytes) : Option_ := fun o => o{{Addr := addr}}.
(* go: internal/transport/grpcweb/options.go:64-70 (WithPath) *)
Definition WithPath (path : bytes) : Option_ := fun o => if bool_decide (path <> []) then o{{Path := path}} else o.
(* go: internal/transport/grpcweb/options.go:72-74 (WithHandler) *)
Definition WithHandler (handler : bool) : Option_ := fun o => o{{Handler := handler}}.
(* go: internal/transport/grpcweb/options.go:76-78 (WithMaxMessageBytes) *)
Definition WithMaxMessageBytes (max : Z) : Option_ := fun o => o{{MaxMessageBytes := max}}.
(* go: internal/transport/grpcweb/options.go:80-87 (WithWebSocketMode) *)
Definition WithWebSocketMode (path : bytes) : Option_ := fun o =>
  let o := o{{WebSocket := true}} in if bool_decide (path <> []) then o{{WebSocketPath := path}} else o.
(* go: internal/transport/grpcweb/options.go:89-95 (WithPingInterval) *)
Definition WithPingInterval (interval : Z) : Option_ := fun o => if 0 <? interval then o{{PingInterval := interval}} else o.
(* go: internal/transport/grpcweb/options.go:97-103 (WithPongTimeout) *)
Definition WithPongTimeout (timeout : Z) : Option_ := fun o => if 0 <? timeout then o{{PongTimeout := timeout}} else o.
(* go: internal/transport/grpcweb/options.go:105-107 (WithTLSConfig) *)
Definition WithTLSConfig (cfg : bool) : Option_ := fun o => o{{TLSConfig := cfg}}.
(* go: internal/transport/grpcweb/options.go:111-120 (WithWriteTimeout) *)
Definition WithWriteTimeout (timeout : Z) : Option_ := fun o => if 0 <? timeout then o{{WriteTimeout := timeout}} else o.
(* go: internal/transport/grpcweb/options.go:120-126 (WithCheckOrigin) *)
Definition WithCheckOrigin (fn : option (Request -> bool)) : Option_ :=
  fun o => match fn with Some fn => o{{CheckOrigin := fn}} | None => o end.
(* go: internal/transport/grpcweb/options.go:130-134 (WithMaxConnections) *)
Definition WithMaxConnections (max : Z) : Option_ := fun o => o{{MaxConnections := max}}.
(* go: internal/transport/grpcweb/options.go:136-140 (WithMaxConnectionsPerIP) *)
Definition WithMaxConnectionsPerIP (max : Z) : Option_ := fun o => o{{MaxConnectionsPerIP := max}}.
(* go: internal/transport/grpcweb/options.go:142-147 (WithHandshakeTimeout) *)
Definition WithHandshakeTimeout (timeout : Z) : Option_ := fun o => o{{HandshakeTimeout := timeout}}.
(* go: internal/transport/grpcweb/options.go:149-154 (WithAcceptRate) *)
Definition WithAcceptRate (rate : float64) : Option_ := fun o => o{{AcceptRate := rate}}.
(* go: internal/transport/grpcweb/options.go:156-162 (WithReusePort) *)
Definition WithReusePort : Option_ := fun o => o{{Listen := reuse_port (Listen o)}}.
(* go: internal/transport/grpcweb/options.go:164-172 (WithKeepAlive) *)
Definition WithKeepAlive (idle interval count : Z) : Option_ := fun o => o{{Listen := keep_alive idle interval count (Listen o)}}.
(* go: internal/transport/grpcweb/options.go:174-180 (WithProxyProtocol) *)
Definition WithProxyProtocol (mode : ProxyProtocolMode) : Option_ :=
  fun o => o{{Proxy := mkProxy mode (Timeout (Proxy o)) (OnReject (Proxy o))}}.
(* go: internal/transport/grpcweb/options.go:182-188 (WithProxyHeaderTimeout) *)
Definition WithProxyHeaderTimeout (timeout : Z) : Option_ := fun o =>
  if 0 <? timeout then o{{Proxy := mkProxy (Mode (Proxy o)) timeout (OnReject (Proxy o))}} else o.

(** The options the package exports. *)
Inductive exported : Option_ -> Prop :=
| by_addr a : exported (WithAddr a) | by_path p : exported (WithPath p) | by_handler b : exported (WithHandler b)
| by_bytes n : exported (WithMaxMessageBytes n) | by_websocket p : exported (WithWebSocketMode p)
| by_ping t : exported (WithPingInterval t) | by_pong t : exported (WithPongTimeout t)
| by_tls b : exported (WithTLSConfig b) | by_write t : exported (WithWriteTimeout t) | by_origin f : exported (WithCheckOrigin f)
| by_max n : exported (WithMaxConnections n) | by_max_ip n : exported (WithMaxConnectionsPerIP n)
| by_handshake t : exported (WithHandshakeTimeout t) | by_rate r : exported (WithAcceptRate r)
| by_reuse : exported WithReusePort | by_keep_alive i v n : exported (WithKeepAlive i v n)
| by_proxy m : exported (WithProxyProtocol m) | by_proxy_timeout t : exported (WithProxyHeaderTimeout t).

(* go: internal/transport/grpcweb/server.go:34-40 (NewServer) *)
Definition NewServer (opts : list Option_) : Options := foldl (fun o opt => opt o) defaultOptions opts.

Record ok (o : Options) : Prop := {
  paths_set : Path o <> [] /\ WebSocketPath o <> [];
  ping_positive : 0 < PingInterval o;
  pong_positive : 0 < PongTimeout o;
  write_positive : 0 < WriteTimeout o;
  rest_bounded : ReadTimeout o = 10 * second /\ IdleTimeout o = 60 * second /\ 0 <= Timeout (Proxy o)
}.

Lemma grpc_exported_ok opt o : exported opt -> ok o -> ok (opt o).
Proof. intros Hopt [H1 H2 H3 H4 H5]. destruct o; cbn in *. destruct Hopt; options_case. Qed.
End grpc.
