(* ===== verification/HttpOptions.v ===== *)
(** * HttpOptions: [internal/transport/http/options.go]

    The options of the HTTP server. *)
From coqutil Require Import Datatypes.RecordSetters.
From S2P Require Import Prelude Bytes Acceptor ProxyProto OptionTools.
Import DoubleBraceUpdate.
Local Open Scope Z_scope.
Local Open Scope list_scope.

(* go: internal/transport/http/options.go:11-36 (Options) *)
Record Options : Type := mkOptions {
  Addr : bytes;
  Handler : bool;
  MaxBodyBytes : Z;
  ReadTimeout : Z;
  WriteTimeout : Z;
  IdleTimeout : Z;
  CORSOrigins : list bytes;
  MaxConnections : Z;
  MaxConnectionsPerIP : Z;
  AcceptRate : float64;
  Listen : ListenOptions;
  Proxy : ProxyConfig
}.

(* go: internal/transport/http/options.go:38-50 (defaultOptions) *)
Definition defaultOptions : Options := {|
  Addr := bytes_of_string "127.0.0.1:18400"; Handler := false; MaxBodyBytes := 8 * 1024 * 1024;
  ReadTimeout := 10 * second; WriteTimeout := 10 * second; IdleTimeout := 60 * second; CORSOrigins := [];
  MaxConnections := 0; MaxConnectionsPerIP := 0; AcceptRate := f0; Listen := no_listen; Proxy := no_proxy |}.

Abbreviation Option_ := (Options -> Options).

(* go: internal/transport/http/options.go:52-56 (WithAddr) *)
Definition WithAddr (addr : bytes) : Option_ := fun o => o{{Addr := addr}}.
(* go: internal/transport/http/options.go:58-62 (WithHandler) *)
Definition WithHandler (handler : bool) : Option_ := fun o => o{{Handler := handler}}.
(* go: internal/transport/http/options.go:64-68 (WithMaxBodyBytes) *)
Definition WithMaxBodyBytes (max : Z) : Option_ := fun o => o{{MaxBodyBytes := max}}.
(** The slice is copied. *)
(* go: internal/transport/http/options.go:70-74 (WithCORSAllowedOrigins) *)
Definition WithCORSAllowedOrigins (origins : list bytes) : Option_ := fun o => o{{CORSOrigins := origins}}.
(* go: internal/transport/http/options.go:76-81 (WithMaxConnections) *)
Definition WithMaxConnections (max : Z) : Option_ := fun o => o{{MaxConnections := max}}.
(* go: internal/transport/http/options.go:83-87 (WithMaxConnectionsPerIP) *)
Definition WithMaxConnectionsPerIP (max : Z) : Option_ := fun o => o{{MaxConnectionsPerIP := max}}.
(* go: internal/transport/http/options.go:89-93 (WithAcceptRate) *)
Definition WithAcceptRate (rate : float64) : Option_ := fun o => o{{AcceptRate := rate}}.
(* go: internal/transport/http/options.go:95-101 (WithReusePort) *)
Definition WithReusePort : Option_ := fun o => o{{Listen := reuse_port (Listen o)}}.
(* go: internal/transport/http/options.go:103-111 (WithKeepAlive) *)
Definition WithKeepAlive (idle interval count : Z) : Option_ := fun o => o{{Listen := keep_alive idle interval count (Listen o)}}.
(* go: internal/transport/http/options.go:113-121 (WithProxyProtocol) *)
Definition WithProxyProtocol (mode : ProxyProtocolMode) : Option_ :=
  fun o => o{{Proxy := mkProxy mode (Timeout (Proxy o)) (OnReject (Proxy o))}}.
(* go: internal/transport/http/options.go:123-131 (WithProxyHeaderTimeout) *)
Definition WithProxyHeaderTimeout (timeout : Z) : Option_ := fun o =>
  if 0 <? timeout then o{{Proxy := mkProxy (Mode (Proxy o)) timeout (OnReject (Proxy o))}} else o.

(** The options the package exports. *)
Inductive exported : Option_ -> Prop :=
| by_addr a : exported (WithAddr a) | by_handler b : exported (WithHandler b) | by_bytes n : exported (WithMaxBodyBytes n)
| by_cors l : exported (WithCORSAllowedOrigins l) | by_max n : exported (WithMaxConnections n)
| by_max_ip n : exported (WithMaxConnectionsPerIP n) | by_rate r : exported (WithAcceptRate r)
| by_reuse : exported WithReusePort | by_keep_alive i v n : exported (WithKeepAlive i v n)
| by_proxy m : exported (WithProxyProtocol m) | by_proxy_timeout t : exported (WithProxyHeaderTimeout t).

(* go: internal/transport/http/server.go:31-37 (NewServer) *)
Definition NewServer (opts : list Option_) : Options := foldl (fun o opt => opt o) defaultOptions opts.

(** Every connection is under the deadlines of the HTTP server. *)
Record ok (o : Options) : Prop := {
  deadlines : ReadTimeout o = 10 * second /\ WriteTimeout o = 10 * second /\ IdleTimeout o = 60 * second;
  proxy_natural : 0 <= Timeout (Proxy o)
}.

Lemma http_exported_ok opt o : exported opt -> ok o -> ok (opt o).
Proof. intros Hopt [H1 H2]. destruct o; cbn in *. destruct Hopt; options_case. Qed.
