(* ===== verification/QuicOptions.v ===== *)
(** * QuicOptions: [internal/transport/quic/options.go]

    The options of the QUIC server. *)
From coqutil Require Import Datatypes.RecordSetters.
From S2P Require Import Prelude Bytes Acceptor ProxyProto OptionTools.
Import DoubleBraceUpdate.
Local Open Scope Z_scope.
Local Open Scope list_scope.

(* go: internal/transport/quic/options.go:10-29 (Options) *)
Record Options : Type := mkOptions {
  Addr : bytes;
  TLSConfig : bool;
  Handler : bool;
  WriteQueueSize : Z;
  WriteTimeout : Z;
  ReadTimeout : Z;
  MaxMessageSize : Z;
  MaxConnections : Z;
  MaxConnectionsPerIP : Z;
  AcceptRate : float64;
  MaxIdleTimeout : Z
}.

(* go: internal/transport/quic/options.go:31-41 (defaultOptions) *)
Definition defaultOptions : Options := {|
  Addr := bytes_of_string "127.0.0.1:18800"; TLSConfig := false; Handler := false; WriteQueueSize := 128;
  WriteTimeout := 30 * second; ReadTimeout := 5 * minute; MaxMessageSize := 1024 * 1024;
  MaxConnections := 0; MaxConnectionsPerIP := 0; AcceptRate := f0; MaxIdleTimeout := 0 |}.

Abbreviation Option_ := (Options -> Options).

(* go: internal/transport/quic/options.go:43-45 (WithAddr) *)
Definition WithAddr (addr : bytes) : Option_ := fun o => o{{Addr := addr}}.
(* go: internal/transport/quic/options.go:47-49 (WithTLS) *)
Definition WithTLS (config : bool) : Option_ := fun o => o{{TLSConfig := config}}.
(* go: internal/transport/quic/options.go:51-53 (WithHandler) *)
Definition WithHandler (handler : bool) : Option_ := fun o => o{{Handler := handler}}.
(* go: internal/transport/quic/options.go:55-59 (WithMaxConnections) *)
Definition WithMaxConnections (max : Z) : Option_ := fun o => o{{MaxConnections := max}}.
(* go: internal/transport/quic/options.go:61-65 (WithMaxConnectionsPerIP) *)
Definition WithMaxConnectionsPerIP (max : Z) : Option_ := fun o => o{{MaxConnectionsPerIP := max}}.
(* go: internal/transport/quic/options.go:67-72 (WithAcceptRate) *)
Definition WithAcceptRate (rate : float64) : Option_ := fun o => o{{AcceptRate := rate}}.
(* go: internal/transport/quic/options.go:74-81 (WithMaxIdleTimeout) *)
Definition WithMaxIdleTimeout (timeout : Z) : Option_ := fun o => if 0 <? timeout then o{{MaxIdleTimeout := timeout}} else o.

Inductive exported : Option_ -> Prop :=
| by_addr a : exported (WithAddr a) | by_tls b : exported (WithTLS b) | by_handler b : exported (WithHandler b)
| by_max n : exported (WithMaxConnections n) | by_max_ip n : exported (WithMaxConnectionsPerIP n)
| by_rate r : exported (WithAcceptRate r) | by_idle t : exported (WithMaxIdleTimeout t).

(* go: internal/transport/quic/server.go:32-38 (NewServer) *)
Definition NewServer (opts : list Option_) : Options := foldl (fun o opt => opt o) defaultOptions opts.

(** The write queue, the deadlines and the message limit are those of the
    defaults: no option changes them. *)
Record ok (o : Options) : Prop := {
  fixed : WriteQueueSize o = 128 /\ WriteTimeout o = 30 * second /\ ReadTimeout o = 5 * minute /\ MaxMessageSize o = 1024 * 1024;
  idle_natural : 0 <= MaxIdleTimeout o
}.

Lemma quic_exported_ok opt o : exported opt -> ok o -> ok (opt o).
Proof. intros Hopt [H1 H2]. destruct o; cbn in *. destruct Hopt; options_case. Qed.
