(* ===== verification/CoapOptions.v ===== *)
(** * CoapOptions: [internal/transport/coap/options.go]

    The options of the CoAP server, and the block size it serves with. *)
From coqutil Require Import Datatypes.RecordSetters.
From S2P Require Import Prelude Bytes Acceptor ProxyProto CoapBlock OptionTools.
Import DoubleBraceUpdate.
Local Open Scope Z_scope.
Local Open Scope list_scope.

(* go: internal/transport/coap/options.go:10-48 (Options) *)
Record Options : Type := mkOptions {
  Addr : bytes;
  Handler : bool;
  Responder : bool;
  SessionTTL : Z;
  SweepInterval : Z;
  MaxDatagram : Z;
  DTLSReadBufferBytes : Z;
  TLSConfig : bool;
  MaxSessions : Z;
  MaxSessionsPerPeer : Z;
  MaxBlockSize : Z
}.

(* go: internal/transport/coap/options.go:49-57 (defaultOptions) *)
Definition defaultOptions : Options := {|
  Addr := bytes_of_string "127.0.0.1:18500"; Handler := false; Responder := false; SessionTTL := 2 * minute;
  SweepInterval := 30 * second; MaxDatagram := 64 * 1024; DTLSReadBufferBytes := 16 * 1024; TLSConfig := false;
  MaxSessions := 0; MaxSessionsPerPeer := 0; MaxBlockSize := 0 |}.

Abbreviation Option_ := (Options -> Options).

(* go: internal/transport/coap/options.go:59-61 (WithAddr) *)
Definition WithAddr (addr : bytes) : Option_ := fun o => o{{Addr := addr}}.
(* go: internal/transport/coap/options.go:63-65 (WithHandler) *)
Definition WithHandler (handler : bool) : Option_ := fun o => o{{Handler := handler}}.
(* go: internal/transport/coap/options.go:67-69 (WithResponder) *)
Definition WithResponder (responder : bool) : Option_ := fun o => o{{Responder := responder}}.
(* go: internal/transport/coap/options.go:73-75 (WithMaxSessions) *)
Definition WithMaxSessions (max : Z) : Option_ := fun o => o{{MaxSessions := max}}.
(* go: internal/transport/coap/options.go:79-81 (WithMaxSessionsPerPeer) *)
Definition WithMaxSessionsPerPeer (max : Z) : Option_ := fun o => o{{MaxSessionsPerPeer := max}}.

(** The loop: [size] goes down to a power of two. It ends at a power of two or
    below 16, so as many rounds as [size] are enough. *)
Fixpoint round_down (fuel : nat) (size : Z) : Z :=
  match fuel with
  | O => size
  | S fuel => if (16 <=? size) && negb (Z.land size (size - 1) =? 0) then round_down fuel (size - 1) else size
  end.

(* go: internal/transport/coap/options.go:86-106 (WithMaxBlockSize) *)
Definition WithMaxBlockSize (size : Z) : Option_ := fun o =>
  if size <=? 0 then o{{MaxBlockSize := 0}}
  else
    let size := if DefaultBlockSize <? size then DefaultBlockSize else size in
    let size := round_down (Z.to_nat size) size in
    o{{MaxBlockSize := if size <? 16 then 16 else size}}.

(* go: internal/transport/coap/options.go:105-111 (WithSessionTTL) *)
Definition WithSessionTTL (ttl : Z) : Option_ := fun o => if 0 <? ttl then o{{SessionTTL := ttl}} else o.
(* go: internal/transport/coap/options.go:113-119 (WithSweepInterval) *)
Definition WithSweepInterval (interval : Z) : Option_ := fun o => if 0 <? interval then o{{SweepInterval := interval}} else o.
(* go: internal/transport/coap/options.go:121-125 (WithDTLS) *)
Definition WithDTLS (cfg : bool) : Option_ := fun o => o{{TLSConfig := cfg}}.
(* go: internal/transport/coap/options.go:130-136 (WithDTLSReadBufferBytes) *)
Definition WithDTLSReadBufferBytes (size : Z) : Option_ := fun o => if 0 <? size then o{{DTLSReadBufferBytes := size}} else o.

Inductive exported : Option_ -> Prop :=
| by_addr a : exported (WithAddr a) | by_handler b : exported (WithHandler b) | by_responder b : exported (WithResponder b)
| by_max n : exported (WithMaxSessions n) | by_max_peer n : exported (WithMaxSessionsPerPeer n)
| by_block n : exported (WithMaxBlockSize n) | by_ttl t : exported (WithSessionTTL t) | by_sweep t : exported (WithSweepInterval t)
| by_dtls b : exported (WithDTLS b) | by_buffer n : exported (WithDTLSReadBufferBytes n).

(* go: internal/transport/coap/server.go:96-102 (NewServer) *)
Definition NewServer (opts : list Option_) : Options := foldl (fun o opt => opt o) defaultOptions opts.

(* go: internal/transport/coap/server.go:229-239 (dtlsReadBufferSize) *)
Definition dtlsReadBufferSize (o : Options) : Z :=
  if 0 <? DTLSReadBufferBytes o then DTLSReadBufferBytes o else MaxDatagram o.

(** *** The block sizes of RFC 7959 *)

(** The largest of them that is at most [size]; the smallest when none is. *)
Definition legal_below (size : Z) : Z :=
  if size <? 32 then 0 else if size <? 64 then 1 else if size <? 128 then 2 else if size <? 256 then 3
  else if size <? 512 then 4 else if size <? 1024 then 5 else 6.

Definition rounds_to_legal (size : Z) : bool :=
  let r := round_down (Z.to_nat size) size in (if r <? 16 then 16 else r) =? block_size (legal_below size).

Lemma all_sizes_round : forallb rounds_to_legal (map Z.of_nat (seq 1 1024)) = true.
Proof. by vm_compute. Qed.

Lemma legal_below_range size : 0 <= legal_below size <= 6.
Proof. unfold legal_below. repeat (destruct (_ <? _); [lia|]). lia. Qed.

Lemma block_size_exact size o :
  0 < size -> MaxBlockSize (WithMaxBlockSize size o) = block_size (legal_below size).
Proof.
  intros Hs. unfold WithMaxBlockSize. rewrite (proj2 (Z.leb_gt _ _)) by done. cbn zeta.
  set (s := if DefaultBlockSize <? size then DefaultBlockSize else size).
  assert (1 <= s <= 1024 /\ legal_below s = legal_below size) as [Hr <-].
  { unfold s, DefaultBlockSize. destruct (Z.ltb_spec 1024 size); (split; [lia|]); [|done].
    unfold legal_below. by rewrite !(proj2 (Z.ltb_ge size _)) by lia. }
  pose proof all_sizes_round as H. rewrite forallb_forall in H. specialize (H s). unfold rounds_to_legal in H.
  rewrite Z.eqb_eq in H. cbn zeta in H. destruct o; cbn. unfold constant. apply H.
  apply in_map_iff. exists (Z.to_nat s). split; [lia|]. apply in_seq. lia.
Qed.

(** The block size is off (zero), or one of the seven. *)
Record ok (o : Options) : Prop := {
  ttl_positive : 0 < SessionTTL o;
  sweep_positive : 0 < SweepInterval o;
  buffer_positive : 0 < DTLSReadBufferBytes o /\ MaxDatagram o = 64 * 1024;
  block_legal : MaxBlockSize o = 0 \/ exists m, 0 <= m <= 6 /\ MaxBlockSize o = block_size m
}.

Lemma WithMaxBlockSize_ok n o : ok o -> ok (WithMaxBlockSize n o).
Proof.
  intros [H1 H2 H3 H4]. destruct (Z.leb_spec n 0) as [Hn|Hn].
  - unfold WithMaxBlockSize. rewrite (proj2 (Z.leb_le _ _)) by done. destruct o; split; try done. by left.
  - pose proof (block_size_exact n o Hn) as E. unfold WithMaxBlockSize in *. rewrite (proj2 (Z.leb_gt _ _)) in * by done.
    destruct o; split; try done. right. exists (legal_below n). split; [apply legal_below_range|exact E].
Qed.

Lemma coap_exported_ok opt o : exported opt -> ok o -> ok (opt o).
Proof.
  intros Hopt Ho. pose proof (fun n => WithMaxBlockSize_ok n o Ho) as Hb. destruct Ho as [H1 H2 H3 H4].
  destruct o; cbn in H1, H2, H3, H4. destruct Hopt; try apply Hb; options_case.
Qed.

(** ** Theorems *)

(** [WithMaxBlockSize] takes the largest block size of the protocol that is not
    larger than the size asked for, and the smallest one for sizes below it. *)
Theorem coap_block_size_exact size o :
  0 < size -> exists m, 0 <= m <= 6 /\ MaxBlockSize (WithMaxBlockSize size o) = block_size m /\
    (size < 16 -> m = 0) /\
    (16 <= size -> block_size m <= size /\ forall k, 0 <= k <= 6 -> block_size k <= size -> block_size k <= block_size m).
Proof.
  intros Hs. exists (legal_below size). split; [apply legal_below_range|]. split; [by apply block_size_exact|].
  assert (block_size 0 = 16 /\ block_size 1 = 32 /\ block_size 2 = 64 /\ block_size 3 = 128 /\ block_size 4 = 256 /\
    block_size 5 = 512 /\ block_size 6 = 1024) as (E0 & E1 & E2 & E3 & E4 & E5 & E6) by done.
  unfold legal_below. split; [intros H; by rewrite (proj2 (Z.ltb_lt _ _)) by lia|intros H].
  repeat (match goal with |- context [if size <? ?y then _ else _] => destruct (Z.ltb_spec size y) end; [split; [lia|]; intros k Hk; pattern k; apply (szx_cases _ k Hk); lia|]).
  split; [lia|]. intros k Hk. pattern k. apply (szx_cases _ k Hk); lia.
Qed.

(** ** Witness *)

Lemma coap_block_size_exact_witness : exists m, MaxBlockSize (WithMaxBlockSize 700 defaultOptions) = block_size m.
Proof. destruct (coap_block_size_exact 700 defaultOptions ltac:(lia)) as (m & _ & H & _). by exists m. Defined.

