(* ===== verification/ServerOptions.v ===== *)
(** * ServerOptions: every server is configured well

    The five option packages together. *)
From S2P Require Import Prelude OptionTools.
From S2P Require WsOptions GrpcWebOptions HttpOptions QuicOptions CoapOptions.
Local Open Scope Z_scope.
Local Open Scope list_scope.


(** ** Witness *)


