(* ===== verification/ProxyListener.v ===== *)
(** * ProxyListener: [internal/transport/shared/proxyproto.go], in time

    The listener that expects a PROXY header: [Accept] takes a connection from the
    inner listener and reads its header, under the header timeout, before it
    returns or goes on to the next.  Parsing the header is [ProxyProto]; here is
    what waiting for it costs. Times are nanoseconds. *)
From S2P Require Import Prelude Bytes Core PeerAddr Stream ProxyProto OptionTools.
Local Open Scope Z_scope.
Local Open Scope list_scope.

(* go: internal/transport/shared/proxyproto.go:86-86 (DefaultProxyHeaderTimeout) *)
Definition DefaultProxyHeaderTimeout : Z := 5 * second.

(** What a rejected connection causes. *)
Inductive effect : Type := Counted | UserHook (peer : NetAddr) | Warned (peer : NetAddr).
Abbreviation hook := (NetAddr -> list effect).
Definition is_counted (e : effect) : bool := match e with Counted => true | _ => false end.

(** The hook of a transport: it counts, and leaves the rest to the caller's hook if
    there is one. *)
(* go: internal/transport/shared/proxyproto.go:126-148 (WithRejectHook) *)
Definition WithRejectHook (mode : ProxyProtocolMode) (logger metrics : bool) (userHook : option hook) : option hook :=
  match mode with
  | ProxyProtocolOff => userHook
  | _ => Some (fun peer =>
           (if metrics then [Counted] else []) ++
           match userHook with
           | Some h => h peer
           | None => if logger then [Warned peer] else []
           end)
  end.

(** The header timeout of the listener; none when it is the inner listener. *)
(* go: internal/transport/shared/proxyproto.go:150-172 (NewProxyListener) *)
Definition NewProxyListener (mode : ProxyProtocolMode) (timeout : Z) : option Z :=
  match mode with
  | ProxyProtocolOff => None
  | _ => Some (if timeout <=? 0 then DefaultProxyHeaderTimeout else timeout)
  end.

(** A connection in the inner listener's backlog: its socket address, when it got
    there, everything it sends, and when the bytes that decide about its header have
    come, if they ever do. *)
Record incoming : Type := mkIncoming {
  socket : NetAddr;
  arrives : Z;
  stream : bytes;
  decided : option Z
}.

Section listener.
Variable ParseIP : bytes -> option bytes.
Variable mode : ProxyProtocolMode.
Variable Timeout : Z.
Variable OnReject : option hook.

(** Begun at [now]: when it ends, and the connection with the bytes the session
    will read. *)
(* go: internal/transport/shared/proxyproto.go:197-217 (handshake) *)
Definition handshake (now : Z) (c : incoming) : Z * option (NetAddr * bytes) :=
  let deadline := now + Timeout in
  match decided c with
  | Some h =>
      if h <? deadline then
        (Z.max now h,
         match readProxyHeader ParseIP mode (stream c) with
         | (Ok hdr, rest) => Some (proxy_remote (socket c) hdr, rest)
         | (Err _, _) => None
         end)
      else (deadline, None)
  | None => (deadline, None)
  end.

(** [Accept], called over and over by the server: what it returns and when, and
    what the rejected connections caused. *)
(* go: internal/transport/shared/proxyproto.go:179-195 (Accept) *)
Fixpoint Accept_all (now : Z) (conns : list incoming) : list (Z * (NetAddr * bytes)) * list effect :=
  match conns with
  | [] => ([], [])
  | c :: conns =>
      let '(t, res) := handshake (Z.max now (arrives c)) c in
      let '(accepted, effects) := Accept_all t conns in
      match res with
      | Some conn => ((t, conn) :: accepted, effects)
      | None => (accepted, match OnReject with Some h => h (socket c) | None => [] end ++ effects)
      end
  end.

(** ** Lemmas *)

Hypothesis timeout_positive : 0 < Timeout.

(** No connection holds the listener longer than the header timeout. *)
Lemma handshake_bound now c : now <= (handshake now c).1 <= now + Timeout.
Proof.
  unfold handshake. destruct (decided c) as [h|]; [|cbn; lia]. destruct (Z.ltb_spec h (now + Timeout)); cbn; lia.
Qed.

Lemma handshake_accepts now c t remote rest :
  handshake now c = (t, Some (remote, rest)) ->
  exists h hdr, decided c = Some h /\ h < now + Timeout /\ t = Z.max now h /\
    readProxyHeader ParseIP mode (stream c) = (Ok hdr, rest) /\ remote = proxy_remote (socket c) hdr.
Proof.
  unfold handshake. destruct (decided c) as [h|]; [|done]. destruct (Z.ltb_spec h (now + Timeout)); [|done].
  destruct (readProxyHeader ParseIP mode (stream c)) as [[hdr|e] r] eqn:E; [|done].
  intros [= <- <- <-]. by exists h, hdr.
Qed.

(** A connection whose header is there. *)
Definition ready (now : Z) (c : incoming) : Prop :=
  arrives c <= now /\ (exists h, decided c = Some h /\ h <= now) /\ is_ok (readProxyHeader ParseIP mode (stream c)).1 = true.
(** One that stays silent. *)
Definition silent (now : Z) (c : incoming) : Prop := arrives c <= now /\ decided c = None.

Lemma Accept_all_cons now c conns :
  Accept_all now (c :: conns) =
    let '(t, res) := handshake (Z.max now (arrives c)) c in
    let '(accepted, effects) := Accept_all t conns in
    match res with
    | Some conn => ((t, conn) :: accepted, effects)
    | None => (accepted, match OnReject with Some h => h (socket c) | None => [] end ++ effects)
    end.
Proof. done. Qed.

Lemma silent_first now c conns :
  silent now c ->
  (Accept_all now (c :: conns)).1 = (Accept_all (now + Timeout) conns).1.
Proof.
  intros [Ha Hd]. rewrite Accept_all_cons. unfold handshake. rewrite Hd, Z.max_l by done.
  by destruct (Accept_all (now + Timeout) conns).
Qed.

Lemma ready_first now c conns hdr rest :
  ready now c -> readProxyHeader ParseIP mode (stream c) = (Ok hdr, rest) ->
  exists accepted, (Accept_all now (c :: conns)).1 = (now, (proxy_remote (socket c) hdr, rest)) :: accepted.
Proof.
  intros (Ha & (h & Hd & Hh) & _) E. rewrite Accept_all_cons. unfold handshake. rewrite Hd, Z.max_l by done.
  rewrite (proj2 (Z.ltb_lt h (now + Timeout))) by lia. rewrite Z.max_l, E by done.
  destruct (Accept_all now conns) as [a e]. by eexists.
Qed.

Lemma ready_later now now' c : now <= now' -> ready now c -> ready now' c.
Proof. intros Hle (Ha & (h & Hd & Hh) & Hok). split; [lia|]. split; [|done]. exists h. split; [done|lia]. Qed.

(** The connections ahead take some time each, none more than the timeout. *)
Lemma Accept_all_ahead now ahead conns :
  Forall (fun c => arrives c <= now) ahead ->
  exists t before, now <= t <= now + len ahead * Timeout /\
    (Accept_all now (ahead ++ conns)).1 = before ++ (Accept_all t conns).1.
Proof.
  revert now. induction ahead as [|c ahead IH]; intros now Ha.
  - exists now, []. change (len (@nil incoming)) with 0. split; [lia|done].
  - apply Forall_cons in Ha as [Hc Ha]. cbn [app]. rewrite Accept_all_cons, Z.max_l by done.
    pose proof (handshake_bound now c) as Hb. destruct (handshake now c) as [t1 res]. cbn [fst] in Hb.
    destruct (IH t1) as (t & before & Ht & E). { eapply Forall_impl; [exact Ha|]. cbn. lia. }
    destruct (Accept_all t1 (ahead ++ conns)) as [accepted effects]. cbn [fst] in E. subst accepted.
    exists t. rewrite len_cons. destruct res as [conn|]; [exists ((t1, conn) :: before)|exists before]; (split; [lia|done]).
Qed.

Lemma accepted_from now conns t remote rest :
  (t, (remote, rest)) ∈ (Accept_all now conns).1 ->
  exists c h hdr, c ∈ conns /\ decided c = Some h /\ h <= t /\ now <= t /\
    readProxyHeader ParseIP mode (stream c) = (Ok hdr, rest) /\ remote = proxy_remote (socket c) hdr.
Proof.
  revert now. induction conns as [|c conns IH]; intros now; [by intros ?%elem_of_nil|].
  rewrite Accept_all_cons. destruct (handshake (Z.max now (arrives c)) c) as [t1 res] eqn:E.
  pose proof (handshake_bound (Z.max now (arrives c)) c) as Hb. rewrite E in Hb. cbn [fst] in Hb.
  specialize (IH t1). destruct (Accept_all t1 conns) as [accepted effects]. cbn [fst] in IH.
  assert ((t, (remote, rest)) ∈ accepted -> exists c0 h hdr, c0 ∈ c :: conns /\ decided c0 = Some h /\ h <= t /\
    now <= t /\ readProxyHeader ParseIP mode (stream c0) = (Ok hdr, rest) /\ remote = proxy_remote (socket c0) hdr) as Hin.
  { intros (c0 & h & hdr & Hc & Hd & Hh & Hn & H1 & H2)%IH. exists c0, h, hdr. split_and!; try done; [by right|lia]. }
  destruct res as [conn|]; [|exact Hin]. cbn [fst]. intros [[= -> <-]|H]%elem_of_cons; [|by apply Hin].
  apply handshake_accepts in E as (h & hdr & Hd & Hh & -> & H1 & H2). exists c, h, hdr. split_and!; try done; [left|lia|lia].
Qed.
End listener.

(** ** Theorems *)

(** The listener hands over only connections that announced their peer: each
    one accepted comes from the backlog, its header was there in time, it reports
    the peer of its header (its socket's if the header names none), and the session
    reads on right behind the header. *)
Theorem proxy_accepts_headed ParseIP mode Timeout OnReject now conns t remote rest :
  0 < Timeout -> (t, (remote, rest)) ∈ (Accept_all ParseIP mode Timeout OnReject now conns).1 ->
  exists c h hdr, c ∈ conns /\ decided c = Some h /\ h <= t /\ now <= t /\
    readProxyHeader ParseIP mode (stream c) = (Ok hdr, rest) /\ remote = proxy_remote (socket c) hdr.
Proof. intros Ht H. by eapply accepted_from. Qed.

(** C18: Headers are waited for one connection after another, each for at most the
    header timeout (five seconds unless configured).  A client whose header is there
    is accepted, as the peer of its header and with its stream right behind it, at
    the latest [n] timeouts after it could have been, when [n] connections are ahead
    of it in the backlog; and exactly [n] timeouts late, with nobody accepted before
    it, when they all stay silent. *)
Theorem proxy_head_of_line ParseIP mode timeout Timeout OnReject now ahead c hdr rest conns :
  NewProxyListener mode timeout = Some Timeout -> Forall (fun d => arrives d <= now) ahead ->
  ready ParseIP mode now c -> readProxyHeader ParseIP mode (stream c) = (Ok hdr, rest) ->
  exists before t after,
    (Accept_all ParseIP mode Timeout OnReject now (ahead ++ c :: conns)).1 =
      before ++ (t, (proxy_remote (socket c) hdr, rest)) :: after /\
    now <= t <= now + len ahead * Timeout /\
    (Forall (silent now) ahead -> before = [] /\ t = now + len ahead * Timeout).
Proof.
  intros Hl Ha Hc E. assert (0 < Timeout) as Ht.
  { unfold NewProxyListener in Hl. destruct mode; [done|..]; injection Hl as <-; destruct (Z.leb_spec timeout 0); done. }
  clear Hl. destruct (decide (Forall (fun d => decided d = None) ahead)) as [Hs|Hs].
  - exists [], (now + len ahead * Timeout).
    assert (0 <= len ahead * Timeout) as Hlen by (apply Z.mul_nonneg_nonneg; [apply len_nonneg|lia]).
    enough (exists after, (Accept_all ParseIP mode Timeout OnReject now (ahead ++ c :: conns)).1 =
      (now + len ahead * Timeout, (proxy_remote (socket c) hdr, rest)) :: after) as [after Hx].
    { exists after. split; [exact Hx|]. split; [lia|done]. }
    clear Hlen. revert now Hc Ha. induction ahead as [|d ahead IH]; intros now Hc Ha.
    + rewrite Z.mul_0_l, Z.add_0_r. by apply ready_first.
    + apply Forall_cons in Hs as [Hd Hs]. apply Forall_cons in Ha as [Hda Ha]. cbn [app]. rewrite silent_first by done.
      destruct (IH Hs (now + Timeout)) as [after ->]; [by eapply (ready_later _ _ now); [lia|]|eapply Forall_impl; [exact Ha|]; cbn; lia|].
      exists after. do 2 f_equal. rewrite len_cons. lia.
  - destruct (Accept_all_ahead ParseIP mode Timeout OnReject Ht now ahead (c :: conns) Ha) as (t & before & Hb & ->).
    destruct (ready_first ParseIP mode Timeout OnReject Ht t c conns hdr rest) as [after ->]; [by eapply (ready_later _ _ now); [lia|]|done|].
    exists before, t, after. split; [done|]. split; [done|]. intros Hsil. destruct Hs. eapply Forall_impl; [exact Hsil|]. by intros d [_ ?].
Qed.

(** Every connection is accounted for: it is accepted, or the transport's hook
    is called for it once and counts it. *)
Theorem proxy_rejections_counted ParseIP mode Timeout logger userHook now conns :
  mode <> ProxyProtocolOff -> (forall h peer, userHook = Some h -> Counted ∉ h peer) ->
  let '(accepted, effects) := Accept_all ParseIP mode Timeout (WithRejectHook mode logger true userHook) now conns in
  (length accepted + length (filter (fun e => is_counted e = true) effects))%nat = length conns.
Proof.
  intros Hm Hu. assert (forall peer, exists h, WithRejectHook mode logger true userHook = Some h /\
    length (filter (fun e => is_counted e = true) (h peer)) = 1%nat) as Hh.
  { intros peer. assert (filter (fun e => is_counted e = true)
      match userHook with Some h => h peer | None => if logger then [Warned peer] else [] end = []) as E.
    { apply elem_of_nil_inv. intros e [He Hin]%list_elem_of_filter. destruct e; [|done..]. destruct userHook as [h|]; [by eapply Hu|].
      destruct logger; [|by apply elem_of_nil in Hin]. by apply list_elem_of_singleton in Hin. }
    destruct mode; [done|..]; (eexists; split; [done|]); cbv beta; by rewrite filter_app, E. }
  revert now. induction conns as [|c conns IH]; intros now; [done|]. rewrite Accept_all_cons.
  destruct (handshake ParseIP mode Timeout (Z.max now (arrives c)) c) as [t res]. specialize (IH t).
  destruct (Accept_all ParseIP mode Timeout _ t conns) as [accepted effects].
  destruct res as [conn|]; cbn [length]; [lia|]. destruct (Hh (socket c)) as (h & -> & E).
  rewrite filter_app, length_app. lia.
Qed.

(** ** Witnesses *)

Definition line_v1 : bytes := Bytes.bytes_of_string "PROXY UNKNOWN" ++ [13; 10; 71].
Definition balancer (port : Z) : NetAddr := TCPAddr [10; 0; 0; 1] port "".
Definition mute (port : Z) : incoming := mkIncoming (balancer port) 0 [] None.
Definition speaking : incoming := mkIncoming (balancer 9) 0 line_v1 (Some 0).

Lemma speaking_ready : ready (fun _ => None) ProxyProtocolV1 0 speaking.
Proof. split_and!; [done|by exists 0|by vm_compute]. Qed.

Lemma proxy_accepts_headed_witness : exists c, c ∈ [mute 1; speaking] /\ socket c = balancer 9.
Proof.
  destruct (proxy_accepts_headed (fun _ => None) ProxyProtocolV1 5 None 0 [mute 1; speaking] 5 (balancer 9) [71]
    ltac:(lia)) as (c & h & hdr & Hc & Hd & _).
  - vm_compute. constructor.
  - exists c. split; [done|]. apply elem_of_cons in Hc as [->|Hc]; [done|]. by apply list_elem_of_singleton in Hc as ->.
Defined.

Lemma proxy_head_of_line_witness :
  exists after, (Accept_all (fun _ => None) ProxyProtocolV1 (5 * second) None 0 ([mute 1; mute 2; mute 3] ++ speaking :: [])).1 =
    (0 + 3 * (5 * second), (balancer 9, [71])) :: after.
Proof.
  destruct (proxy_head_of_line (fun _ => None) ProxyProtocolV1 0 (5 * second) None 0 [mute 1; mute 2; mute 3] speaking
    (mkHeader None None) [71] []) as (before & t & after & H & _ & Hs).
  - reflexivity.
  - by repeat constructor.
  - exact speaking_ready.
  - by vm_compute.
  - destruct Hs as [-> ->]; [by repeat constructor|]. by exists after.
Defined.

Lemma proxy_rejections_counted_witness :
  (length (Accept_all (fun _ => None) ProxyProtocolV1 5 (WithRejectHook ProxyProtocolV1 true true None) 0 [mute 1; speaking]).1 + 1)%nat = 2%nat.
Proof.
  pose proof (proxy_rejections_counted (fun _ => None) ProxyProtocolV1 5 true None 0 [mute 1; speaking] ltac:(done) ltac:(done)) as H.
  exact H.
Defined.
