(* ===== verification/GatewayConfig.v ===== *)
(** * GatewayConfig: [internal/runtime/options.go], [runtime.go], [runtime_options.go]

    How [NewGateway] makes a gateway out of its options: whatever they are, the
    runtime it injects into the servers is complete.  The session manager, logger,
    metrics and tracer are any values; [None] is Go's nil.  Starting and stopping
    the gateway is [Gateway]. *)
From coqutil Require Import Datatypes.RecordSetters.
From S2P Require Import Prelude Core PluginChain Gateway OptionTools.
From S2P Require Admin.
Import DoubleBraceUpdate.
Local Open Scope Z_scope.
Local Open Scope list_scope.

Section config.
Context {W Sess Manager Metrics Tracer : Type}.
Abbreviation Logger := (string -> string -> W -> W).
Abbreviation Chain := (pluginView W Sess).

(** [NewSessionManager()], [NopMetrics()], [NopTracer()]. *)
Variable new_manager : Manager.
Variable nop_metrics : Metrics.
Variable nop_tracer : Tracer.

(** A manager, and the metrics its decorator reports to. *)
Record sessions_ : Type := mkSessions { manager : Manager; decorated : option Metrics }.

(* go: internal/runtime/options.go:9-17 (gatewayConfig) *)
Record gatewayConfig : Type := mkConfig {
  sessions : Manager;
  plugins : Chain;
  logger : option Logger;
  metrics : option Metrics;
  tracer : option Tracer;
  timeouts : StageTimeouts;
  admin : Admin.AdminConfig
}.

Abbreviation GatewayOption := (gatewayConfig -> gatewayConfig).

(* go: internal/runtime/options.go:59-66 (defaultStageTimeouts) *)
Definition defaultStageTimeouts : StageTimeouts := mkTimeouts (5 * second) (5 * second) (10 * second) (2 * second).

(* go: internal/runtime/options.go:68-83 (normalizeTimeouts) *)
Definition normalizeTimeouts (t : StageTimeouts) : StageTimeouts :=
  let d := defaultStageTimeouts in
  mkTimeouts (if to_StopAccept t <=? 0 then to_StopAccept d else to_StopAccept t)
    (if to_Drain t <=? 0 then to_Drain d else to_Drain t)
    (if to_CloseSessions t <=? 0 then to_CloseSessions d else to_CloseSessions t)
    (if to_Finalize t <=? 0 then to_Finalize d else to_Finalize t).

(* go: internal/runtime/options.go:21-27 (WithSessionManager) *)
Definition WithSessionManager (m : option Manager) : GatewayOption :=
  fun cfg => match m with Some m => cfg{{sessions := m}} | None => cfg end.
(* go: internal/runtime/options.go:29-33 (WithPlugins) *)
Definition WithPlugins (ps : list (option (Plugin W Sess))) : GatewayOption := fun cfg => cfg{{plugins := NewPluginChain ps}}.
(* go: internal/runtime/options.go:35-39 (WithLogger) *)
Definition WithLogger (l : option Logger) : GatewayOption := fun cfg => cfg{{logger := l}}.
(* go: internal/runtime/options.go:41-45 (WithMetrics) *)
Definition WithMetrics (m : option Metrics) : GatewayOption := fun cfg => cfg{{metrics := m}}.
(* go: internal/runtime/options.go:47-51 (WithTracer) *)
Definition WithTracer (t : option Tracer) : GatewayOption := fun cfg => cfg{{tracer := t}}.
(* go: internal/runtime/options.go:53-57 (WithStageTimeouts) *)
Definition WithStageTimeouts (t : StageTimeouts) : GatewayOption := fun cfg => cfg{{timeouts := normalizeTimeouts t}}.
(* go: internal/runtime/admin.go:37-45 (WithAdmin) *)
Definition WithAdmin (a : Admin.AdminConfig) : GatewayOption := fun cfg => cfg{{admin := a}}.

(* go: internal/runtime/runtime.go:5-11 (Runtime) *)
Record Runtime : Type := mkRuntime {
  rt_sessions : sessions_;
  rt_plugins : Chain;
  rt_logger : Logger;
  rt_metrics : Metrics;
  rt_tracer : Tracer
}.

(* go: internal/runtime/runtime_options.go:7-13 (withRuntimeLogger) *)
Definition withRuntimeLogger (l : option Logger) (r : Runtime) : Runtime :=
  match l with Some l => r{{rt_logger := l}} | None => r end.
(* go: internal/runtime/runtime_options.go:15-21 (withRuntimeMetrics) *)
Definition withRuntimeMetrics (m : option Metrics) (r : Runtime) : Runtime :=
  match m with Some m => r{{rt_metrics := m}} | None => r end.
(* go: internal/runtime/runtime_options.go:23-29 (withRuntimeTracer) *)
Definition withRuntimeTracer (t : option Tracer) (r : Runtime) : Runtime :=
  match t with Some t => r{{rt_tracer := t}} | None => r end.

(* go: internal/runtime/runtime.go:13-31 (NewRuntime) *)
Definition NewRuntime (s : option sessions_) (ps : option Chain) (opts : list (Runtime -> Runtime)) : Runtime :=
  let s := match s with Some s => s | None => mkSessions new_manager None end in
  let ps := match ps with Some ps => ps | None => NewPluginChain [] end in
  foldl (fun r opt => opt r) (mkRuntime s ps NopLogger nop_metrics nop_tracer) opts.

(** A new gateway has no servers and is not started. *)
Record gateway : Type := mkGw {
  gw_rt : Runtime;
  gw_timeouts : StageTimeouts;
  gw_adminCfg : Admin.AdminConfig;
  gw_rawSessions : Manager
}.

(* go: internal/runtime/gateway.go:30-38 (NewGateway) *)
Definition default_config : gatewayConfig :=
  mkConfig new_manager (NewPluginChain []) (Some NopLogger) (Some nop_metrics) (Some nop_tracer) defaultStageTimeouts
    (Admin.mkAdmin [] []).

(* go: internal/runtime/gateway.go:30-59 (NewGateway) *)
Definition NewGateway (opts : list GatewayOption) : gateway :=
  let cfg := foldl (fun cfg opt => opt cfg) default_config opts in
  let chain := SetLogger (logger cfg) (plugins cfg) in
  let s := mkSessions (sessions cfg) (metrics cfg) in
  mkGw (NewRuntime (Some s) (Some chain)
          [withRuntimeLogger (logger cfg); withRuntimeMetrics (metrics cfg); withRuntimeTracer (tracer cfg)])
    (normalizeTimeouts (timeouts cfg)) (admin cfg) (sessions cfg).

(** ** The options as calls *)

Inductive call : Type :=
| CSessionManager (m : option Manager) | CPlugins (ps : list (option (Plugin W Sess))) | CLogger (l : option Logger)
| CMetrics (m : option Metrics) | CTracer (t : option Tracer) | CStageTimeouts (t : StageTimeouts) | CAdmin (a : Admin.AdminConfig).

Definition run (c : call) : GatewayOption :=
  match c with
  | CSessionManager m => WithSessionManager m | CPlugins ps => WithPlugins ps | CLogger l => WithLogger l
  | CMetrics m => WithMetrics m | CTracer t => WithTracer t | CStageTimeouts t => WithStageTimeouts t | CAdmin a => WithAdmin a
  end.

(** The last call that says something about a field. *)
Definition said {A} (about : call -> option A) (d : A) (calls : list call) : A := default d (last (omap about calls)).

Definition of_manager c := match c with CSessionManager m => m | _ => None end.
Definition of_plugins c := match c with CPlugins ps => Some ps | _ => None end.
Definition of_logger c := match c with CLogger l => Some l | _ => None end.
Definition of_metrics c := match c with CMetrics m => Some m | _ => None end.
Definition of_tracer c := match c with CTracer t => Some t | _ => None end.
Definition of_timeouts c := match c with CStageTimeouts t => Some t | _ => None end.
Definition of_admin c := match c with CAdmin a => Some a | _ => None end.

Lemma said_snoc {A} (about : call -> option A) d calls c :
  said about d (calls ++ [c]) = match about c with Some x => x | None => said about d calls end.
Proof.
  unfold said. rewrite omap_app. cbn [omap list_omap]. destruct (about c) as [x|]; [by rewrite last_snoc|by rewrite app_nil_r].
Qed.

Definition spelled (calls : list call) : gatewayConfig := {|
  sessions := said of_manager new_manager calls;
  plugins := NewPluginChain (said of_plugins [] calls);
  logger := said of_logger (Some NopLogger) calls;
  metrics := said of_metrics (Some nop_metrics) calls;
  tracer := said of_tracer (Some nop_tracer) calls;
  timeouts := normalizeTimeouts (said of_timeouts defaultStageTimeouts calls);
  admin := said of_admin (Admin.mkAdmin [] []) calls |}.

Lemma config_spelled calls : foldl (fun cfg opt => opt cfg) default_config (map run calls) = spelled calls.
Proof.
  induction calls as [|c calls IH] using rev_ind; [done|].
  rewrite map_app, foldl_app, IH. unfold spelled. rewrite !said_snoc. by destruct c as [[]| | | | | |].
Qed.

(** ** Timeouts *)

Record timeouts_positive (t : StageTimeouts) : Prop := {
  tp_accept : 0 < to_StopAccept t;
  tp_drain : 0 < to_Drain t;
  tp_close : 0 < to_CloseSessions t;
  tp_final : 0 < to_Finalize t
}.

Lemma normalize_positive t : timeouts_positive (normalizeTimeouts t).
Proof. split; cbn; repeat case_match; done || lia. Qed.

Lemma normalize_fixed t : timeouts_positive t -> normalizeTimeouts t = t.
Proof.
  intros [H1 H2 H3 H4]. unfold normalizeTimeouts. rewrite !(proj2 (Z.leb_gt _ _)) by done. by destruct t.
Qed.

(** ** Theorem *)

(** The gateway is what its options say, the last word on each field counting:
    its session manager is the last one given that is not nil; its chain holds the
    plugins of the last list given, and logs to the gateway's logger; logger,
    metrics and tracer are the last ones given, and where that is nil, the runtime
    has one that does nothing - so a server never meets a nil; sessions are counted
    unless the metrics are nil; and every stage of the shutdown has a positive
    timeout, the one given where that is positive. *)
Theorem gateway_config_exact calls :
  let g := NewGateway (map run calls) in
  let r := gw_rt g in
  rt_sessions r = mkSessions (said of_manager new_manager calls) (said of_metrics (Some nop_metrics) calls) /\
  PluginChain.plugins (rt_plugins r) = PluginChain.plugins (NewPluginChain (said of_plugins [] calls)) /\
  PluginChain.logger (rt_plugins r) = rt_logger r /\
  rt_logger r = default NopLogger (said of_logger (Some NopLogger) calls) /\
  rt_metrics r = default nop_metrics (said of_metrics (Some nop_metrics) calls) /\
  rt_tracer r = default nop_tracer (said of_tracer (Some nop_tracer) calls) /\
  gw_timeouts g = normalizeTimeouts (said of_timeouts defaultStageTimeouts calls) /\ timeouts_positive (gw_timeouts g) /\
  gw_adminCfg g = said of_admin (Admin.mkAdmin [] []) calls /\ gw_rawSessions g = said of_manager new_manager calls.
Proof.
  cbn zeta. unfold NewGateway. rewrite config_spelled. cbn [gw_rt gw_timeouts gw_adminCfg gw_rawSessions spelled sessions plugins
    logger metrics tracer timeouts admin NewRuntime foldl].
  rewrite normalize_fixed by apply normalize_positive.
  destruct (said of_logger (Some NopLogger) calls) as [l|], (said of_metrics (Some nop_metrics) calls) as [m|],
    (said of_tracer (Some nop_tracer) calls) as [t|]; split_and!; done || apply normalize_positive.
Qed.
End config.
