(* ===== verification/ServerLifecycle.v ===== *)
(** * ServerLifecycle: starting and stopping the seven servers

    [internal/transport/*/server.go].  A server is started and stopped by one
    caller at a time (the gateway's lock); sockets are numbered as they are bound,
    and [live] are those whose loop or HTTP server runs.  First [Start] and
    [StopAccept]: the flags, the sockets and the results of the calls; then [Stop]
    with its stages [Drain] and [CloseSessions].  What the loops do meanwhile is
    modelled with each server, and in [DatagramStop] and [WebStop]. *)
From coqutil Require Import Datatypes.RecordSetters.
From S2P Require Import Prelude Bytes Core OptionTools.
From S2P Require Config CertWatch App GrpcWebOptions.
Import DoubleBraceUpdate.
Local Open Scope list_scope.

(** [socket]: the listener or socket field.  [http]: the [http.Server] field, and
    the socket it serves; [Some None] is one that never served. *)
Record server : Type := mkServer {
  started : bool;
  closed : bool;
  socket : option nat;
  http : option (option nat);
  live : gset nat;
  next : nat
}.

Definition fresh : server := mkServer false false None None ∅ 0.

Definition already_started : error := ErrMsg "already started".
Definition listen_failed : error := ErrMsg "listen".
Definition tls_required : error := ErrMsg "quic tls config required".
Definition net_ErrClosed : error := ErrMsg "use of closed network connection".

(** What [HandleFunc] of a new [http.ServeMux] does with a pattern after those of the
    list: it panics on an empty pattern, on others that are invalid or in conflict,
    and on one that is registered already. *)
Class ServeMux : Type := {
  HandleFunc_panics : list bytes -> bytes -> bool;
  panics_empty l : HandleFunc_panics l [] = true;
  panics_again l p : p ∈ l -> HandleFunc_panics l p = true
}.

Section mux.
Context {smx : ServeMux}.

(** A socket is bound and its loop started. *)
Definition serve (s : server) : server :=
  s{{socket := Some (next s); live := {[next s]} ∪ live s; next := S (next s)}}.

Definition call := (server -> outcome (option error) * server)%type.

(* go: internal/transport/tcp/server.go:82-116 (Start) *)
Definition tcp_Start (listens : bool) : call := fun s =>
  if started s then (Returned (Some already_started), s)
  else
    let s := s{{started := true; closed := false}} in
    if listens then (Returned None, serve s)
    else (Returned (Some listen_failed), s{{started := false}}).

(* go: internal/transport/http/server.go:53-107 (Start) *)
Definition http_Start (listens : bool) : call := fun s =>
  if started s then (Returned (Some already_started), s)
  else
    let s := s{{started := true; closed := false; http := Some None}} in
    if listens then (Returned None, (serve s){{http := Some (Some (next s))}})
    else (Returned (Some listen_failed), s{{started := false}}).

(* go: internal/transport/websocket/server.go:46-92 (Start) *)
Definition ws_Start (path : bytes) (listens : bool) : call := fun s =>
  if started s then (Returned (Some already_started), s)
  else
    let s := s{{started := true; closed := false}} in
    if HandleFunc_panics [] path then (Panicked, s)
    else
      let s := s{{http := Some None}} in
      if listens then (Returned None, (serve s){{http := Some (Some (next s))}})
      else (Returned (Some listen_failed), s{{started := false}}).

(* go: internal/transport/grpcweb/server.go:47-96 (Start) *)
Definition grpc_Start (webSocket : bool) (path webSocketPath : bytes) (listens : bool) : call := fun s =>
  if started s then (Returned (Some already_started), s)
  else
    let s := s{{started := true; closed := false}} in
    if HandleFunc_panics [] path || (webSocket && HandleFunc_panics [path] webSocketPath) then (Panicked, s)
    else
      let s := s{{http := Some None}} in
      if listens then (Returned None, (serve s){{http := Some (Some (next s))}})
      else (Returned (Some listen_failed), s{{started := false}}).

(* go: internal/transport/quic/server.go:46-76 (Start) *)
Definition quic_Start (tlsConfig listens : bool) : call := fun s =>
  if started s then (Returned (Some already_started), s)
  else
    let s := s{{started := true}} in
    if negb tlsConfig then (Returned (Some tls_required), s{{started := false}})
    else
      let s := s{{closed := false}} in
      if listens then (Returned None, serve s)
      else (Returned (Some listen_failed), s{{started := false}}).

(** [resolves]: the address is one; the socket is a DTLS listener or a plain one. *)
(* go: internal/transport/udp/server.go:47-89 (Start) *)
Definition udp_Start (resolves listens : bool) : call := fun s =>
  if started s then (Returned (Some already_started), s)
  else
    let s := s{{started := true; closed := false}} in
    if negb resolves then (Returned (Some listen_failed), s{{started := false}})
    else if listens then (Returned None, serve s)
    else (Returned (Some listen_failed), s{{started := false}}).

(* go: internal/transport/coap/server.go:110-156 (Start) *)
Definition coap_Start (resolves listens : bool) : call := fun s =>
  if started s then (Returned (Some already_started), s)
  else
    let s := s{{started := true; closed := false}} in
    if negb resolves then (Returned (Some listen_failed), s{{started := false}})
    else if listens then (Returned None, serve s)
    else (Returned (Some listen_failed), s{{started := false}}).

(** Closing a socket ends its loop; a second [Close] fails. *)
Definition close_socket (i : nat) (s : server) : option error * server :=
  if bool_decide (i ∈ live s) then (None, s{{live := live s ∖ {[i]}}}) else (Some net_ErrClosed, s).

(* go: internal/transport/tcp/server.go:150-159 (StopAccept) *)
Definition tcp_StopAccept : call := fun s =>
  if closed s then (Returned None, s)
  else
    let s := s{{closed := true; started := false}} in
    match socket s with
    | Some i => let '(err, s) := close_socket i s in (Returned err, s)
    | None => (Returned None, s)
    end.

(* go: internal/transport/udp/server.go:97-119 (StopAccept) *)
Definition udp_StopAccept : call := tcp_StopAccept.

(** [Shutdown] closes what the HTTP server serves; its error is that of its
    context, which is not modelled here. *)
(* go: internal/transport/http/server.go:151-160 (StopAccept) *)
Definition http_StopAccept : call := fun s =>
  if closed s then (Returned None, s)
  else
    let s := s{{closed := true; started := false}} in
    match http s with
    | Some (Some i) => (Returned None, s{{live := live s ∖ {[i]}}})
    | _ => (Returned None, s)
    end.

(** What a QUIC listener's second [Close] returns is the library's. *)
(* go: internal/transport/quic/server.go:84-99 (StopAccept) *)
Definition quic_StopAccept (again : option error) : call := fun s =>
  if closed s then (Returned None, s)
  else
    let s := s{{closed := true; started := false}} in
    match socket s with
    | Some i =>
        if bool_decide (i ∈ live s) then (Returned None, s{{live := live s ∖ {[i]}}}) else (Returned again, s)
    | None => (Returned None, s)
    end.

(** ** The seven servers *)

Inductive kind : Type :=
| TCP | UDP | CoAP | HTTP
| WebSocket (path : bytes)
| GRPCWeb (webSocket : bool) (path webSocketPath : bytes)
| QUIC (tlsConfig : bool) (again : option error).

(** [ok]: the address resolves and can be listened on. *)
Definition Start (k : kind) (ok : bool) : call :=
  match k with
  | TCP => tcp_Start ok | UDP => udp_Start ok ok | CoAP => coap_Start ok ok
  | HTTP => http_Start ok | WebSocket p => ws_Start p ok
  | GRPCWeb w p q => grpc_Start w p q ok | QUIC t _ => quic_Start t ok
  end.

Definition StopAccept (k : kind) : call :=
  match k with
  | TCP => tcp_StopAccept | UDP | CoAP => udp_StopAccept
  | HTTP | WebSocket _ | GRPCWeb _ _ _ => http_StopAccept
  | QUIC _ again => quic_StopAccept again
  end.

(** What a kind needs of its configuration. *)
Definition configured (k : kind) : Prop :=
  match k with
  | WebSocket p => HandleFunc_panics [] p = false
  | GRPCWeb w p q => HandleFunc_panics [] p = false /\ (w = true -> HandleFunc_panics [p] q = false)
  | QUIC t _ => t = true
  | _ => True
  end.

(** Two equal paths, or an empty one, are a configuration that does not start. *)
Lemma configured_paths w p q : configured (GRPCWeb w p q) -> p <> [] /\ (w = true -> q <> [] /\ p <> q).
Proof.
  intros [Hp Hq]. split; [intros ->; by rewrite panics_empty in Hp|]. intros Hw. specialize (Hq Hw).
  split; [intros ->; by rewrite panics_empty in Hq|]. intros ->. by rewrite panics_again in Hq by by left.
Qed.

(** The socket a server knows as its own. *)
Definition own (k : kind) (s : server) : option nat :=
  match k with HTTP | WebSocket _ | GRPCWeb _ _ _ => match http s with Some i => i | None => None end | _ => socket s end.

(** Up with one live socket, its own; or down with none. *)
Definition up_or_down (k : kind) (s : server) : Prop :=
  if started s then closed s = false /\ exists i, own k s = Some i /\ live s = {[i]} else live s = ∅.

Lemma Start_spec k ok s :
  configured k -> up_or_down k s ->
  let '(r, s') := Start k ok s in
  up_or_down k s' /\ started s' = started s || ok /\
  (r = Returned None <-> started s = false /\ ok = true) /\ (started s = true -> s' = s).
Proof.
  intros Hk Hs. unfold up_or_down in *. destruct s as [st cl so ht lv nx]. cbn [started closed live] in Hs.
  destruct st.
  - destruct k; cbn; (split; [exact Hs|split_and!; [done|naive_solver|done]]).
  - subst lv. assert (forall n : nat, {[n]} ∪ ∅ = ({[n]} : gset nat)) as E by set_solver.
    destruct k as [| | | |p|w p q|t again]; try (destruct ok; cbn; rewrite ?E; split_and!; naive_solver).
    + cbn [configured] in Hk. cbn. rewrite Hk. destruct ok; cbn; rewrite ?E; split_and!; naive_solver.
    + cbn [configured] in Hk. destruct Hk as [Hp Hq]. cbn. rewrite Hp. cbn [orb].
      assert (w && HandleFunc_panics [p] q = false) as -> by (destruct w; [by apply Hq|done]).
      destruct ok; cbn; rewrite ?E; split_and!; naive_solver.
    + cbn [configured] in Hk. subst t. destruct ok; cbn; rewrite ?E; split_and!; naive_solver.
Qed.

Lemma StopAccept_spec k s :
  up_or_down k s ->
  let '(r, s') := StopAccept k s in
  up_or_down k s' /\ started s' = false /\ (closed s = true -> r = Returned None /\ s' = s) /\
  (started s = true -> r = Returned None) /\ next s' = next s.
Proof.
  intros Hs. unfold up_or_down in *. destruct s as [st cl so ht lv nx]. cbn [started closed live] in *. destruct st.
  - destruct Hs as (-> & i & Ho & ->).
    assert (({[i]} : gset nat) ∖ {[i]} = ∅) as E by set_solver.
    assert (bool_decide (i ∈ ({[i]} : gset nat)) = true) as Eb by (apply bool_decide_eq_true; set_solver).
    destruct k; cbn in Ho; try subst so; try (destruct ht as [[j|]|]; [injection Ho as ->|done..]);
      cbn; unfold close_socket; cbn [live]; rewrite ?Eb; cbn; rewrite ?E; split_and!; done.
  - subst lv. assert (forall (i : nat) (D : Decision (i ∈ (∅ : gset nat))), @bool_decide _ D = false) as Eb by (intros; apply bool_decide_eq_false, not_elem_of_empty).
    assert (forall i : nat, (∅ : gset nat) ∖ {[i]} = ∅) as E by set_solver.
    destruct k, cl, so as [i|], ht as [[j|]|]; cbn -[bool_decide]; unfold close_socket, constant;
      cbn -[bool_decide]; rewrite ?Eb; cbn; rewrite ?E; split_and!; done.
Qed.

Lemma StopAccept_closes k s : closed (StopAccept k s).2 = true.
Proof.
  destruct s as [st cl so ht lv nx].
  destruct k, cl, so as [i|], ht as [[j|]|]; cbn -[bool_decide]; unfold close_socket; repeat case_match; simplify_eq; done.
Qed.

(** ** Sequences of calls *)

Inductive op : Type := OStart (ok : bool) | OStop.

Definition run_op (k : kind) (s : server) (o : op) : server :=
  match o with OStart ok => (Start k ok s).2 | OStop => (StopAccept k s).2 end.

Definition run (k : kind) (ops : list op) : server := foldl (run_op k) fresh ops.

(** What the calls should leave: up after a start that could listen, down after a
    stop. *)
Definition up (ops : list op) : bool :=
  foldl (fun up o => match o with OStart ok => up || ok | OStop => false end) false ops.

Lemma lifecycle_run_ok k ops : configured k -> up_or_down k (run k ops) /\ started (run k ops) = up ops.
Proof.
  intros Hk. unfold run, up. induction ops as [|o ops [H1 H2]] using rev_ind; [done|].
  rewrite !foldl_app. cbn [foldl]. rewrite <- H2. destruct o as [ok|]; cbn [run_op].
  - pose proof (Start_spec k ok _ Hk H1) as H. destruct (Start k ok _) as [r s']. tauto.
  - pose proof (StopAccept_spec k _ H1) as H. destruct (StopAccept k _) as [r s']. tauto.
Qed.

(** ** Theorems *)

(** Every server can be started and stopped over and over: after any sequence
    of starts, failed starts and stops it is up, with one live socket, its own, or
    down with none; it is up exactly if a start could listen since the last stop; a
    start succeeds exactly if it was down and can listen, and changes nothing if it
    was up; stopping one that is up succeeds, and stopping twice is stopping once. *)
Theorem server_lifecycle k ops :
  configured k ->
  let s := run k ops in
  up_or_down k s /\ started s = up ops /\
  (forall ok, (Start k ok s).1 = Returned None <-> up ops = false /\ ok = true) /\
  (forall ok, up ops = true -> (Start k ok s).2 = s) /\
  (up ops = true -> (StopAccept k s).1 = Returned None) /\
  (StopAccept k (StopAccept k s).2).2 = (StopAccept k s).2.
Proof.
  intros Hk. cbn zeta. destruct (lifecycle_run_ok k ops Hk) as [H1 H2]. rewrite <- H2.
  pose proof (fun ok => Start_spec k ok _ Hk H1) as HS. pose proof (StopAccept_spec k _ H1) as HT.
  split_and!; [done|done| | | |].
  - intros ok. specialize (HS ok). destruct (Start k ok _) as [r s']. tauto.
  - intros ok. specialize (HS ok). destruct (Start k ok _) as [r s']. tauto.
  - destruct (StopAccept k _) as [r s']. tauto.
  - pose proof (StopAccept_closes k (run k ops)) as Hc.
    destruct (StopAccept k (run k ops)) as [r s']. cbn [snd] in *. destruct HT as (Hu & _).
    pose proof (StopAccept_spec k s' Hu) as HT'. destruct (StopAccept k s') as [r2 s2]. cbn [snd]. tauto.
Qed.

(** ** Stopping with the sessions

    [Stop] of a server on its own.  [wait]: whether the goroutines it waits for end
    before the context does; [table]: the sessions in the order of the range;
    [close]: what closing one does. *)
Section stops.
Context {W : Type}.
Variable wait : W -> bool * W.
Variable ctx_Err : W -> option error.
Variable expired : error.
Variable table : W -> list nat.
Variable close : nat -> W -> option error * W.
Variable pool_Stop : W -> W.

Definition wait_or_expire (w : W) : option error * W :=
  let '(done, w) := wait w in (if done then None else Some expired, w).

(* go: internal/transport/tcp/server.go:161-176 (Drain) *)
Definition tcp_Drain : W -> option error * W := wait_or_expire.
(* go: internal/transport/udp/server.go:121-136 (Drain) *)
Definition udp_Drain : W -> option error * W := wait_or_expire.
(* go: internal/transport/coap/server.go:188-203 (Drain) *)
Definition coap_Drain : W -> option error * W := wait_or_expire.
(* go: internal/transport/http/server.go:162-174 (Drain) *)
Definition http_Drain : W -> option error * W := wait_or_expire.
(* go: internal/transport/quic/server.go:101-116 (Drain) *)
Definition quic_Drain : W -> option error * W := wait_or_expire.
(* go: internal/transport/websocket/server.go:111-115 (Drain) *)
Definition ws_Drain (w : W) : option error * W := (None, w).
(* go: internal/transport/grpcweb/server.go:115-122 (Drain) *)
Definition grpc_Drain : W -> option error * W := ws_Drain.

(** Every session of the range, keeping the first error. *)
Fixpoint close_all (l : list nat) (firstErr : option error) (w : W) : option error * W :=
  match l with
  | [] => (firstErr, w)
  | i :: l => let '(err, w) := close i w in close_all l (keep_first firstErr err) w
  end.

(* go: internal/transport/tcp/server.go:178-203 (CloseSessions) *)
Definition tcp_CloseSessions (pool : bool) (w : W) : option error * W :=
  let '(firstErr, w) := close_all (table w) None w in
  let w := (wait w).2 in
  let w := if pool then pool_Stop w else w in
  match ctx_Err w with Some err => (Some err, w) | None => (firstErr, w) end.

(* go: internal/transport/websocket/server.go:117-133 (CloseSessions) *)
Definition ws_CloseSessions (w : W) : option error * W := wait_or_expire (close_all (table w) None w).2.
(* go: internal/transport/grpcweb/server.go:124-140 (CloseSessions) *)
Definition grpc_CloseSessions : W -> option error * W := ws_CloseSessions.

(* go: internal/transport/udp/server.go:138-144 (CloseSessions) *)
Definition udp_CloseSessions (w : W) : option error * W := (None, (close_all (table w) None w).2).
(* go: internal/transport/coap/server.go:205-211 (CloseSessions) *)
Definition coap_CloseSessions : W -> option error * W := udp_CloseSessions.
(* go: internal/transport/quic/server.go:118-124 (CloseSessions) *)
Definition quic_CloseSessions : W -> option error * W := udp_CloseSessions.
(* go: internal/transport/http/server.go:176-178 (CloseSessions) *)
Definition http_CloseSessions (w : W) : option error * W := (None, w).

Definition Drain (k : kind) : W -> option error * W :=
  match k with
  | TCP => tcp_Drain | UDP => udp_Drain | CoAP => coap_Drain | HTTP => http_Drain | WebSocket _ => ws_Drain
  | GRPCWeb _ _ _ => grpc_Drain | QUIC _ _ => quic_Drain
  end.

Definition CloseSessions (k : kind) (pool : bool) : W -> option error * W :=
  match k with
  | TCP => tcp_CloseSessions pool | UDP => udp_CloseSessions | CoAP => coap_CloseSessions | HTTP => http_CloseSessions
  | WebSocket _ => ws_CloseSessions | GRPCWeb _ _ _ => grpc_CloseSessions | QUIC _ _ => quic_CloseSessions
  end.

(** The three stages; the errors of the first two are dropped. *)
Definition stages (k : kind) (pool : bool) (st : server * W) : option error * (server * W) :=
  let '(s, w) := st in
  let s := (StopAccept k s).2 in
  let w := (Drain k w).2 in
  let '(err, w) := CloseSessions k pool w in (err, (s, w)).

(* go: internal/transport/tcp/server.go:144-148 (Stop) *)
Definition tcp_Stop (pool : bool) : server * W -> option error * (server * W) := stages TCP pool.
(* go: internal/transport/udp/server.go:91-95 (Stop) *)
Definition udp_Stop : server * W -> option error * (server * W) := stages UDP false.
(* go: internal/transport/coap/server.go:158-162 (Stop) *)
Definition coap_Stop : server * W -> option error * (server * W) := stages CoAP false.
(* go: internal/transport/http/server.go:145-149 (Stop) *)
Definition http_Stop : server * W -> option error * (server * W) := stages HTTP false.
(* go: internal/transport/websocket/server.go:94-98 (Stop) *)
Definition ws_Stop (path : bytes) : server * W -> option error * (server * W) := stages (WebSocket path) false.
(* go: internal/transport/grpcweb/server.go:98-102 (Stop) *)
Definition grpc_Stop (webSocket : bool) (path webSocketPath : bytes) : server * W -> option error * (server * W) :=
  stages (GRPCWeb webSocket path webSocketPath) false.
(* go: internal/transport/quic/server.go:78-82 (Stop) *)
Definition quic_Stop (tlsConfig : bool) (again : option error) : server * W -> option error * (server * W) :=
  stages (QUIC tlsConfig again) false.
End stops.

(** A world that records the sessions closed, with what the waits will give, what
    closing fails for, and whether the context is over at the end. *)
Record stop_world : Type := mkWorld { open_ : list nat; closes : list nat; waits : list bool; late : bool }.

Definition w_wait (w : stop_world) : bool * stop_world :=
  match waits w with
  | b :: l => (b, mkWorld (open_ w) (closes w) l (late w || negb b))
  | [] => (true, w)
  end.
Definition w_close (fails : nat -> option error) (i : nat) (w : stop_world) : option error * stop_world :=
  (fails i, mkWorld (List.filter (fun j => negb (j =? i)%nat) (open_ w)) (closes w ++ [i]) (waits w) (late w)).
Definition w_err (e : error) (w : stop_world) : option error := if late w then Some e else None.
Definition record_stop (k : kind) (e : error) (fails : nat -> option error) (pool : bool) :=
  stages w_wait (w_err e) e open_ (w_close fails) id k pool.

Lemma close_all_record fails l fe w :
  (close_all (w_close fails) l fe w).1 = foldl keep_first fe (map fails l) /\
  closes (close_all (w_close fails) l fe w).2 = closes w ++ l /\
  open_ (close_all (w_close fails) l fe w).2 = List.filter (fun j => negb (existsb (Nat.eqb j) l)) (open_ w) /\
  waits (close_all (w_close fails) l fe w).2 = waits w /\ late (close_all (w_close fails) l fe w).2 = late w.
Proof.
  revert fe w. induction l as [|i l IH]; intros fe w; cbn [close_all].
  - cbn. rewrite app_nil_r. split_and!; try done. induction (open_ w) as [|j o IHo]; [done|]. cbn. by rewrite <- IHo.
  - unfold w_close at 1 3 5 7 9. destruct (IH (keep_first fe (fails i))
      (mkWorld (List.filter (fun j => negb (j =? i)%nat) (open_ w)) (closes w ++ [i]) (waits w) (late w))) as (-> & -> & -> & -> & ->).
    cbn [closes open_ waits late]. rewrite <- app_assoc. split_and!; try done. clear IH.
    induction (open_ w) as [|j o IHo]; [done|]. cbn [List.filter existsb]. destruct (j =? i)%nat; cbn [negb orb List.filter]; [done|].
    rewrite IHo. done.
Qed.

Lemma first_fails (fails : nat -> option error) fe l : foldl keep_first fe (map fails l) = keep_first fe (head (omap fails l)).
Proof.
  revert fe. induction l as [|i l IH]; intros fe; cbn; [by destruct fe|]. rewrite IH. csimpl. by destruct fe, (fails i).
Qed.

Lemma table_emptied l : List.filter (fun j => negb (existsb (Nat.eqb j) l)) l = [].
Proof.
  assert (forall m, (forall j, j ∈ m -> j ∈ l) -> List.filter (fun j => negb (existsb (Nat.eqb j) l)) m = []) as H; [|by apply H].
  induction m as [|j m IH]; intros Hin; [done|]. cbn [List.filter].
  assert (existsb (Nat.eqb j) l = true) as ->.
  { apply existsb_exists. exists j. split; [apply list_elem_of_In, Hin; by left|apply Nat.eqb_refl]. }
  cbn. apply IH. intros q Hq. apply Hin. by right.
Qed.

Definition has_table (k : kind) : bool := match k with HTTP => false | _ => true end.

(** Stopping a server on its own leaves it down with no live socket, and every
    session of its table closed, once and in the order of the table, however its
    waits end; the HTTP server has no table.  What it reports is less: the errors of
    the first two stages are dropped, so the UDP, CoAP, QUIC and HTTP servers report
    success whatever happened, and the others report the context's end or, for TCP,
    else the first session that failed to close. *)
Theorem stop_exact k e fails pool s w :
  up_or_down k s ->
  let '(err, (s', w')) := record_stop k e fails pool (s, w) in
  up_or_down k s' /\ started s' = false /\ closed s' = true /\
  closes w' = closes w ++ (if has_table k then open_ w else []) /\ open_ w' = (if has_table k then [] else open_ w) /\
  match k with
  | TCP => err = if late w' then Some e else head (omap fails (open_ w))
  | WebSocket _ | GRPCWeb _ _ _ => err = (if default true (head (waits w)) then None else Some e)
  | _ => err = None
  end.
Proof.
  intros Hs. unfold record_stop, stages. pose proof (StopAccept_spec k s Hs) as HS. pose proof (StopAccept_closes k s) as HC.
  destruct (StopAccept k s) as [r s']. cbn [snd] in *. destruct HS as (H1 & H2 & _).
  assert (exists w0, (Drain w_wait e k w).2 = w0 /\ open_ w0 = open_ w /\ closes w0 = closes w /\
    match k with WebSocket _ | GRPCWeb _ _ _ => waits w0 = waits w | _ => True end) as (w0 & -> & Ho & Hc & Hw).
  { eexists. split; [reflexivity|]. destruct w as [o c [|b l] lt], k; cbn; split_and!; done. }
  pose proof (close_all_record fails (open_ w0) None w0) as (F1 & F2 & F3 & F4 & F5). rewrite table_emptied in F3.
  destruct k; cbn [CloseSessions has_table];
    unfold tcp_CloseSessions, grpc_CloseSessions, ws_CloseSessions, coap_CloseSessions, quic_CloseSessions, udp_CloseSessions,
      ws_CloseSessions, udp_CloseSessions, http_CloseSessions, wait_or_expire;
    destruct (close_all (w_close fails) (open_ w0) None w0) as [fe w1]; cbn [fst snd] in F1, F2, F3, F4, F5 |- *.
  all: try (rewrite <- Ho, <- Hc; rewrite ?app_nil_r; split_and!; done).
  - destruct w1 as [o c [|b l] lt]; destruct pool; cbn in *; unfold w_err; cbn.
    all: rewrite <- Ho, <- Hc; rewrite first_fails in F1; cbn in F1; rewrite <- F1.
    all: match goal with |- context [if ?b then _ else _] => destruct b end; cbn; split_and!; done.
  - rewrite <- Hw. destruct w1 as [o c [|b l] lt]; cbn in *; rewrite <- F4; cbn; rewrite <- Ho, <- Hc; split_and!; done.
  - rewrite <- Hw. destruct w1 as [o c [|b l] lt]; cbn in *; rewrite <- F4; cbn; rewrite <- Ho, <- Hc; split_and!; done.
Qed.

(** A restart that cannot listen leaves a TCP, UDP or CoAP server its old, closed
    socket; stopping it reports that as an error, where an HTTP server has none. *)
Example stop_after_failed_restart :
  (StopAccept TCP (run TCP [OStart true; OStop; OStart false])).1 = Returned (Some net_ErrClosed) /\
  (StopAccept HTTP (run HTTP [OStart true; OStop; OStart false])).1 = Returned None.
Proof. by vm_compute. Qed.

(** The two paths of the gRPC-Web server made equal: starting panics, and the server
    takes itself for started. *)
Lemma equal_paths_panic path ok :
  let k := GRPCWeb true path path in
  (Start k ok fresh).1 = Panicked /\ (Start k ok (Start k ok fresh).2).1 = Returned (Some already_started).
Proof. cbn. rewrite (panics_again [path] path) by by left. by rewrite orb_true_r. Qed.

(** The program told by its environment to serve gRPC-Web at an address, and nothing
    else: the configuration is accepted, its section has the path that is also the
    default of the unary handler, and the server made of it panics in its start. *)
Theorem grpc_from_environment_panics read_json ReadFile ParsePEM (d : @CertWatch.disk nat) ok :
  let lookup := Config.env_of [("SHARK_GRPCWEB_ADDR"%string, bytes_of_string ":18900")] in
  exists cfg p spec, Config.LoadConfig read_json ReadFile lookup [] = Ok cfg /\ p ∈ Config.Protocols cfg /\ Config.IsEnabled p = true /\
    App.server_for (pool := nat) ParsePEM d p = Ok (spec, []) /\
    spec = App.GRPCWebSpec (bytes_of_string ":18900") None (Some (bytes_of_string "/grpc")) None /\
    let o := GrpcWebOptions.NewServer (Request := unit)
      [GrpcWebOptions.WithAddr (bytes_of_string ":18900"); GrpcWebOptions.WithHandler true;
       GrpcWebOptions.WithWebSocketMode (bytes_of_string "/grpc")] in
    (grpc_Start (GrpcWebOptions.WebSocket o) (GrpcWebOptions.Path o) (GrpcWebOptions.WebSocketPath o) ok fresh).1 = Panicked.
Proof.
  cbv zeta. eexists _, (Config.mkProto (bytes_of_string "grpc-web") None (bytes_of_string ":18900") (bytes_of_string "/grpc") [] 0 [] [] [] [] [] None), _.
  split; [vm_compute; reflexivity|]. split; [right; left|]. split; [done|]. split; [vm_compute; reflexivity|]. split; [done|].
  apply equal_paths_panic.
Qed.
End mux.

(** A multiplexer that takes any two different paths that are not empty. *)
#[export] Program Instance literal_mux : ServeMux := {| HandleFunc_panics l p := bool_decide (p = []) || bool_decide (p ∈ l) |}.
Next Obligation. done. Qed.
Next Obligation. intros l p Hp. cbn beta. apply orb_true_intro. right. by apply bool_decide_eq_true. Qed.

(** ** Witness *)

Lemma server_lifecycle_witness :
  up_or_down (QUIC true None) (run (QUIC true None) [OStart false; OStart true; OStop; OStop; OStart true]) /\
  up [OStart false; OStart true; OStop; OStop; OStart true] = true.
Proof.
  destruct (server_lifecycle (QUIC true None) [OStart false; OStart true; OStop; OStop; OStart true] eq_refl) as [H _].
  split; [exact H|reflexivity].
Defined.

(** Two sessions, the second of which fails to close, and a drain that runs out. *)
Lemma stop_exact_witness :
  let fails := fun i => if (i =? 2)%nat then Some net_ErrClosed else None in
  let w := mkWorld [1; 2]%nat [] [false; true] false in
  up_or_down UDP (run UDP [OStart true]) /\
  (record_stop UDP listen_failed fails false (run UDP [OStart true], w)).1 = None /\
  closes (record_stop UDP listen_failed fails false (run UDP [OStart true], w)).2.2 = [1; 2]%nat.
Proof.
  cbn zeta. set (fails := fun i => if (i =? 2)%nat then Some net_ErrClosed else None).
  set (w := mkWorld [1; 2]%nat [] [false; true] false).
  assert (up_or_down UDP (run UDP [OStart true])) as Hu.
  { cbn. split; [done|]. exists 0%nat. split; [done|]. set_solver. }
  pose proof (stop_exact UDP listen_failed fails false (run UDP [OStart true]) w Hu) as H.
  destruct (record_stop UDP listen_failed fails false (run UDP [OStart true], w)) as [err [s' w']].
  destruct H as (_ & _ & _ & H1 & _ & H2). split; [exact Hu|]. split; [exact H2|]. exact H1.
Defined.
