(* ===== verification/Lwm2mClient.v ===== *)
(** * Lwm2mClient: [internal/protocol/lwm2m/client.go]

    A client of the registry of [Lwm2mServer], and what keeps it registered: its
    own updates, against sweeps, the reclaim of a full table and whatever the other
    endpoints do. *)
From S2P Require Import Prelude Bytes Core Lwm2mTlv Lwm2mServer.
Local Open Scope Z_scope.
Local Open Scope list_scope.

(* go: internal/protocol/lwm2m/client.go:5-10 (Client) *)
Record Client : Type := mkClient { c_Endpoint : bytes; c_Lifetime : Z; c_Objects : list ObjectPath }.

Abbreviation ClientOption := (Client -> Client).

(* go: internal/protocol/lwm2m/client.go:22-28 (WithLifetime) *)
Definition WithLifetime (lifetime : Z) : ClientOption :=
  fun c => if 0 <? lifetime then mkClient (c_Endpoint c) lifetime (c_Objects c) else c.
(* go: internal/protocol/lwm2m/client.go:30-34 (WithObjects) *)
Definition WithObjects (objects : list ObjectPath) : ClientOption :=
  fun c => mkClient (c_Endpoint c) (c_Lifetime c) objects.
(* go: internal/protocol/lwm2m/client.go:14-20 (NewClient) *)
Definition NewClient (endpoint : bytes) (opts : list ClientOption) : Client :=
  foldl (fun c opt => opt c) (mkClient endpoint (5 * 60 * second) []) opts.

(* go: internal/protocol/lwm2m/client.go:36-38 (Register) *)
Definition c_Register (c : Client) (now now' : Z) (s : Server) : result error Registration * Server :=
  Register (c_Endpoint c) (c_Lifetime c) (c_Objects c) now now' s.
(* go: internal/protocol/lwm2m/client.go:40-45 (Update) *)
Definition c_Update (c : Client) (lifetime now : Z) (s : Server) : result error Registration * Client * Server :=
  let c := if 0 <? lifetime then mkClient (c_Endpoint c) lifetime (c_Objects c) else c in
  let '(r, s) := Update (c_Endpoint c) (c_Lifetime c) now s in (r, c, s).
(* go: internal/protocol/lwm2m/client.go:47-49 (Deregister) *)
Definition c_Deregister (c : Client) (s : Server) : Server := Deregister (c_Endpoint c) s.
(* go: internal/protocol/lwm2m/client.go:51-53 (Write) *)
Definition c_Write (c : Client) (path : ObjectPath) (v : bytes) (now : Z) (s : Server) :
    option error * option (bytes * bytes) * Server := Write_ (c_Endpoint c) path v now s.
(* go: internal/protocol/lwm2m/client.go:55-57 (Read) *)
Definition c_Read (c : Client) (path : ObjectPath) (s : Server) : option Resource := Read (c_Endpoint c) path s.

(** ** The registry in use *)

(** A call of the registry by anybody, with the readings of the clock. *)
Inductive usage : Type :=
| URegister (ep : bytes) (lifetime : Z) (objs : list ObjectPath) (now now' : Z)
| UUpdate (ep : bytes) (lifetime now : Z)
| UDeregister (ep : bytes)
| UWrite (ep : bytes) (path : ObjectPath) (v : bytes) (now : Z)
| USweep (now : Z)
| UObject (def : ObjectDefinition).

Definition use (u : usage) (s : Server) : Server :=
  match u with
  | URegister ep lt objs now now' => (Register ep lt objs now now' s).2
  | UUpdate ep lt now => (Update ep lt now s).2
  | UDeregister ep => Deregister ep s
  | UWrite ep path v now => (Write_ ep path v now s).2
  | USweep now => (SweepExpired now s).2
  | UObject def => RegisterObject def s
  end.

(** What may happen while endpoint [ep] has until [deadline]: calls of the others,
    in time, and writes to its resources. *)
Definition elsewhere (ep : bytes) (deadline : Z) (u : usage) : Prop :=
  match u with
  | URegister ep' _ _ now _ => ep' <> ep /\ now <= deadline
  | UUpdate ep' _ _ => ep' <> ep
  | UDeregister ep' => ep' <> ep
  | UWrite _ _ _ _ => True
  | USweep now => now <= deadline
  | UObject _ => True
  end.

(** When the registration is due: it is kept up to and including that instant. *)
Definition due (r : Registration) : Z := UpdatedAt r + Lifetime r.

Lemma not_expired r now : now <= due r -> Expired r now = false.
Proof. unfold due, Expired. intros H. destruct (Lifetime r <=? 0); [done|]. apply Z.ltb_ge. lia. Qed.

Lemma expired_after r now : 0 < Lifetime r -> due r < now -> Expired r now = true.
Proof. unfold due, Expired. intros Hl H. rewrite (proj2 (Z.leb_gt _ _)) by done. apply Z.ltb_lt. lia. Qed.

Lemma sweep_keeps ep r now s :
  registrations s !! ep = Some r -> now <= due r -> registrations (sweepLocked now s).2 !! ep = Some r.
Proof. intros Hr Hn. cbn. apply map_lookup_filter_Some. split; [done|]. by apply not_expired. Qed.

Lemma reclaim_keeps ep r now now' s :
  registrations s !! ep = Some r -> now <= due r -> registrations (reclaim now now' s) !! ep = Some r.
Proof.
  intros Hr Hn. unfold reclaim. destruct (match lastSweepAt s with None => true | Some t => sweepThrottle <=? now' - t end); [|done].
  by apply sweep_keeps.
Qed.

Lemma use_keeps ep r u s :
  registrations s !! ep = Some r -> elsewhere ep (due r) u -> registrations (use u s) !! ep = Some r.
Proof.
  intros Hr Hu. destruct u as [ep' lt objs now now'|ep' lt now|ep'|ep' path v now|now|def]; cbn [use elsewhere] in *.
  - destruct Hu as [Hne Hn]. unfold Register.
    assert (forall reg s0, registrations s0 !! ep = Some r -> registrations (store ep' reg s0) !! ep = Some r) as Hst
      by (intros reg s0 H0; cbn; by rewrite lookup_insert_ne).
    destruct (registrations s !! ep'); [by apply Hst|].
    destruct (_ <=? _); [|by apply Hst]. pose proof (reclaim_keeps ep r now now' s Hr Hn) as H1.
    destruct (_ <=? _); [exact H1|by apply Hst].
  - unfold Update. destruct (registrations s !! ep'); [|done]. cbn. by rewrite lookup_insert_ne.
  - cbn. by rewrite lookup_delete_ne.
  - unfold Write_. destruct (registrations s !! ep'); [|done]. by destruct (read_only path s).
  - by apply sweep_keeps.
  - done.
Qed.

Lemma uses_keep ep r us s :
  registrations s !! ep = Some r -> Forall (elsewhere ep (due r)) us ->
  registrations (foldl (fun s u => use u s) s us) !! ep = Some r.
Proof.
  intros Hr Hus. revert s Hr. induction Hus as [|u us Hu _ IH]; intros s Hr; [done|].
  cbn [foldl]. by apply IH, use_keeps.
Qed.

(** ** A client that renews in time *)

(** One round: what the others do, then the client's update without a lifetime of
    its own.  The answers of the updates, and the registry after all rounds. *)
Fixpoint renew (c : Client) (rounds : list (list usage * Z)) (s : Server) :
    list (result error Registration) * Server :=
  match rounds with
  | [] => ([], s)
  | (us, now) :: rounds =>
      let '(r, c, s) := c_Update c 0 now (foldl (fun s u => use u s) s us) in
      let '(rs, s) := renew c rounds s in (r :: rs, s)
  end.

(** Nothing but calls in time comes between two updates. *)
Fixpoint in_time (c : Client) (deadline : Z) (rounds : list (list usage * Z)) : Prop :=
  match rounds with
  | [] => True
  | (us, now) :: rounds =>
      Forall (elsewhere (c_Endpoint c) deadline) us /\
      in_time c (now + clamp_lifetime (c_Lifetime c)) rounds
  end.

(** The registration of the client as of an instant. *)
Definition registered (c : Client) (created now : Z) : Registration :=
  mkRegistration (c_Endpoint c) (clamp_lifetime (c_Lifetime c)) (c_Objects c) created now.

Lemma renew_keeps c rounds created t s :
  0 < c_Lifetime c ->
  registrations s !! c_Endpoint c = Some (registered c created t) ->
  in_time c (due (registered c created t)) rounds ->
  let '(rs, s') := renew c rounds s in
  rs = (fun round => Ok (registered c created round.2)) <$> rounds /\
  registrations s' !! c_Endpoint c = Some (registered c created (List.last rounds.*2 t)).
Proof.
  intros Hl. revert t s. induction rounds as [|[us now] rounds IH]; intros t s Hr Hin; [done|].
  destruct Hin as [Hus Hin]. cbn [renew]. pose proof (uses_keep _ _ us s Hr Hus) as Hk.
  unfold c_Update. rewrite Z.ltb_irrefl. unfold Update. rewrite Hk.
  rewrite (proj2 (Z.ltb_lt _ _) Hl). cbn [registered Endpoint Objects CreatedAt].
  set (s1 := set_tables _ _ _ _).
  specialize (IH now s1). destruct (renew c rounds s1) as [rs s'].
  destruct IH as [-> He]; [by cbn; rewrite lookup_insert_eq| |].
  - exact Hin.
  - split; [done|]. rewrite He. cbn [fmap list_fmap snd]. f_equal. f_equal.
    destruct (rounds.*2) as [|z zs] eqn:E; [done|]. clear.
    cbn [List.last]. revert z. induction zs as [|z' zs IH]; intros z; [done|]. apply IH.
Qed.

(** C20: a client that renews in time is never lost.  After a successful
    registration the client may go through any number of rounds; in each of them the
    other endpoints register, update, deregister and write as they like, objects are
    defined, tables that are full are reclaimed and the owner sweeps, all of it no
    later than one lifetime (clamped to thirty days) after the client's last
    contact, and then the client updates.  Every update is answered with the
    registration carrying the time of the update, the lifetime and the objects of
    the registration, and the entry is in the table at the end. *)
Theorem client_kept (c : Client) (rounds : list (list usage * Z)) (now now' : Z) (s s1 : Server) (reg : Registration)
    (Hlife : 0 < c_Lifetime c)
    (Hreg : c_Register c now now' s = (Ok reg, s1))
    (Hin : in_time c (now + clamp_lifetime (c_Lifetime c)) rounds) :
  reg = registered c now now /\
  let '(answers, s2) := renew c rounds s1 in
  answers = (fun round => Ok (registered c now round.2)) <$> rounds /\
  registrations s2 !! c_Endpoint c = Some (registered c now (List.last rounds.*2 now)).
Proof.
  unfold c_Register, Register in Hreg. rewrite (proj2 (Z.leb_gt _ _) Hlife) in Hreg.
  assert (reg = registered c now now /\ registrations s1 !! c_Endpoint c = Some (registered c now now)) as [-> Hr].
  { destruct (registrations s !! c_Endpoint c); [|destruct (_ <=? _); [destruct (_ <=? _)|]];
      simplify_eq; (split; [done|]); cbn; by rewrite lookup_insert_eq. }
  split; [done|]. pose proof (renew_keeps c rounds now now s1 Hlife Hr) as HK.
  destruct (renew c rounds s1) as [answers s2]. by apply HK.
Qed.

Definition sensor : Client := NewClient [115] [WithLifetime (60 * second); WithObjects [mkPath 3 0 0]].
Definition busy : list (list usage * Z) :=
  [([URegister [116] second [] (10 * second) (11 * second); USweep (59 * second)], 60 * second);
   ([UDeregister [116]; UWrite [115] (mkPath 3 0 1) [7] (61 * second); USweep (120 * second)], 121 * second)].

Lemma client_kept_witness :
  exists s1 answers s2, c_Register sensor 0 0 (NewServer 2 0) = (Ok (registered sensor 0 0), s1) /\
    renew sensor busy s1 = (answers, s2) /\ length answers = 2%nat /\
    registrations s2 !! [115] = Some (registered sensor 0 (121 * second)).
Proof.
  destruct (c_Register sensor 0 0 (NewServer 2 0)) as [r s1] eqn:E.
  assert (r = Ok (registered sensor 0 0)) as -> by (by assert (fst (r, s1) = Ok (registered sensor 0 0)) by (rewrite <- E; vm_compute; reflexivity)).
  pose proof (client_kept sensor busy 0 0 _ s1 _ ltac:(done) E) as H.
  destruct (renew sensor busy s1) as [answers s2] eqn:E2. exists s1, answers, s2.
  destruct H as [_ [-> H2]].
  - cbn. unfold second in *. repeat (split || constructor); done || (cbv; congruence).
  - split; [done|]. split; [done|]. split; [done|exact H2].
Defined.

(** ** A client that is late *)

Definition gone (ep : bytes) (s : Server) : Prop := registrations s !! ep = None /\ resources s !! ep = None.

Definition silent (ep : bytes) (u : usage) : Prop :=
  match u with URegister ep' _ _ _ _ => ep' <> ep | _ => True end.

Lemma sweep_gone ep r now s :
  registrations s !! ep = Some r -> 0 < Lifetime r -> due r < now -> gone ep (SweepExpired now s).2.
Proof.
  intros Hr Hl Hd. pose proof (expired_after r now Hl Hd) as He.
  split; cbn; rewrite map_lookup_filter; unfold expired_at; rewrite ?Hr; cbn.
  - by rewrite option_guard_False by (cbn; congruence).
  - destruct (resources s !! ep); [|done]. cbn. by rewrite option_guard_False by (cbn; rewrite Hr; congruence).
Qed.

Lemma sweep_stays_gone ep now s : gone ep s -> gone ep (sweepLocked now s).2.
Proof. intros [H1 H2]. split; cbn; by rewrite map_lookup_filter, ?H1, ?H2. Qed.

Lemma use_gone ep u s : gone ep s -> silent ep u -> gone ep (use u s).
Proof.
  intros Hg Hu. destruct u as [ep' lt objs now now'|ep' lt now|ep'|ep' path v now|now|def]; cbn [use silent] in *.
  - assert (forall reg s0, gone ep s0 -> gone ep (store ep' reg s0)) as Hst.
    { intros reg s0 [H1 H2]. split; cbn; [by rewrite lookup_insert_ne|].
      destruct (resources s0 !! ep'); [done|by rewrite lookup_insert_ne]. }
    assert (gone ep (reclaim now now' s)) as Hrc
      by (unfold reclaim; case_match; [by apply sweep_stays_gone|done]).
    unfold Register. cbv zeta. destruct (registrations s !! ep'); [by apply Hst|].
    destruct (_ <=? _); [destruct (_ <=? _)|]; cbn [snd]; auto.
  - destruct Hg as [H1 H2]. unfold Update. destruct (registrations s !! ep') eqn:E; [|done].
    split; [|done]. cbn. rewrite lookup_insert_ne by congruence. done.
  - destruct Hg as [H1 H2]. split; cbn; destruct (decide (ep' = ep)) as [->|Hne];
      by rewrite ?lookup_delete_eq, ?lookup_delete_ne.
  - destruct Hg as [H1 H2]. unfold Write_. destruct (registrations s !! ep') eqn:E; [|done].
    destruct (read_only path s); [done|]. split; [done|]. cbn. by rewrite lookup_insert_ne by congruence.
  - by apply sweep_stays_gone.
  - done.
Qed.

(** a client that is late is gone, and is told so.  Once a registration is
    swept after it was due, whatever else happens to the registry - the client's own
    updates and writes included - the client's updates and writes are refused with
    the error that asks for a new registration and its resources read as absent,
    until the endpoint registers. *)
Theorem client_gone (c : Client) (r : Registration) (now : Z) (us : list usage) (s : Server)
    (Hlook : registrations s !! c_Endpoint c = Some r) (Hlife : 0 < Lifetime r) (Hlate : due r < now)
    (Hus : Forall (silent (c_Endpoint c)) us) :
  let s' := foldl (fun s u => use u s) (SweepExpired now s).2 us in
  (forall lt t, (c_Update c lt t s').1.1 = Err ErrRegistrationGone) /\
  (forall path v t, c_Write c path v t s' = (Some ErrRegistrationGone, None, s')) /\
  (forall path, c_Read c path s' = None).
Proof.
  intros s'. assert (gone (c_Endpoint c) s') as [H1 H2].
  { unfold s'. pose proof (sweep_gone _ _ _ _ Hlook Hlife Hlate) as Hg. revert Hg.
    generalize (SweepExpired now s).2. clear Hlook s'. induction Hus as [|u us Hu _ IH]; intros s0 Hg; [done|].
    cbn [foldl]. apply IH. by apply use_gone. }
  split; [|split].
  - intros lt t. unfold c_Update. destruct (0 <? lt); cbn [c_Endpoint]; unfold Update; by rewrite H1.
  - intros path v t. unfold c_Write, Write_. by rewrite H1.
  - intros path. unfold c_Read, Read. by rewrite H2.
Qed.

Lemma client_gone_witness :
  let s := (c_Register sensor 0 0 (NewServer 2 0)).2 in
  let s' := foldl (fun s u => use u s) (SweepExpired (61 * second) s).2 [UUpdate [115] 0 (62 * second)] in
  (c_Update sensor 0 (63 * second) s').1.1 = Err ErrRegistrationGone /\
  c_Read sensor (mkPath 3 0 1) s' = None.
Proof.
  intros s s'. pose proof (client_gone sensor (registered sensor 0 0) (61 * second) [UUpdate [115] 0 (62 * second)] s) as H.
  destruct H as (H1 & _ & H3).
  - vm_compute. reflexivity.
  - done.
  - cbv. reflexivity.
  - by repeat constructor.
  - split; [apply H1|apply H3].
Defined.
