(* ===== verification/LoadGen.v ===== *)
(** * LoadGen: [scripts/protocolgen/main.go]

    The load generator that speaks every protocol of the gateway: its pacing, the
    loop of one connection, and what it writes and accepts for each protocol.  The
    wire formats meet the server's own codecs ([TcpFramer], [GrpcFraming],
    [GrpcWebServer], [CoapMessage]); WebSocket frames, which the gateway leaves to a
    library, meet the format of RFC 6455.  A connection is the outcomes of its
    writes and the bytes that arrive before the read deadline. *)
From S2P Require Import Prelude Bytes Core Stream Duration Config Shared HttpServer TcpFramer GrpcFraming GrpcWebServer CoapMessage.
Local Open Scope Z_scope.
Local Open Scope list_scope.

(** ** Pacing *)

Definition second : Z := 1000000000.

Record pace : Type := mkPace { p_batch : Z; p_effective : Z; p_interval : Z }.

(** Dividing by no connections panics. *)
(* go: scripts/protocolgen/main.go:91-103 (main) *)
Definition pacing (rate conns : Z) : outcome pace :=
  if conns =? 0 then Panicked
  else
    let perConn := rate ÷ conns in
    let perConn := if perConn <? 1 then 1 else perConn in
    let batch := perConn ÷ 20 in
    let batch := if batch <? 1 then 1 else batch in
    let effective := perConn ÷ batch in
    let effective := if effective <? 1 then 1 else effective in
    Returned (mkPace batch effective (second ÷ effective)).

(** what the generator offers.  With a rate of at least one message per
    connection and second, a connection ticks at most 39 times a second, and at
    least 20 times if it has that much to send; the messages of a second stay
    within the connection's share and miss less than a twentieth of it, or nothing
    when the share is below forty. *)
Theorem pacing_exact rate conns p (Hc : 0 < conns <= rate) (Hp : pacing rate conns = Returned p) :
  let share := rate / conns in
  let offered := p_effective p * p_batch p in
  1 <= p_effective p <= 39 /\ (20 <= share -> 20 <= p_effective p) /\
  offered <= share /\ 20 * (share - offered) < share /\ (share < 40 -> offered = share) /\
  p_interval p = second / p_effective p.
Proof.
  unfold pacing in Hp. rewrite (proj2 (Z.eqb_neq conns 0)) in Hp by lia.
  cbv zeta in Hp. rewrite (Z.quot_div_nonneg rate conns) in Hp by lia. set (share := rate / conns) in *.
  assert (1 <= share) as Hs by (unfold share; apply Z.div_le_lower_bound; lia).
  clearbody share. clear Hc.
  rewrite (proj2 (Z.ltb_ge share 1)) in Hp by lia.
  rewrite (Z.quot_div_nonneg share 20) in Hp by lia.
  pose proof (Z.div_mod share 20 ltac:(lia)). pose proof (Z.mod_pos_bound share 20 ltac:(lia)).
  set (q := share / 20) in *. clearbody q.
  set (b := if q <? 1 then 1 else q) in Hp.
  assert (1 <= b /\ (b = 1 /\ share < 40 \/ 2 <= b /\ 20 * b <= share < 20 * b + 20)) as [Hb Hb'].
  { unfold b. destruct (Z.ltb_spec q 1); [lia|]. destruct (Z.eq_dec q 1); lia. }
  clearbody b.
  rewrite (Z.quot_div_nonneg share b) in Hp by lia.
  pose proof (Z.div_mod share b ltac:(lia)). pose proof (Z.mod_pos_bound share b ltac:(lia)).
  assert (1 <= share / b) as He by (apply Z.div_le_lower_bound; lia).
  rewrite (proj2 (Z.ltb_ge (share / b) 1)) in Hp by lia.
  rewrite Z.quot_div_nonneg in Hp by (unfold second; lia). injection Hp as <-. cbn.
  assert (share / b <= 39) by (apply Z.lt_succ_r, Z.div_lt_upper_bound; lia).
  split_and!; try lia; try nia.
Qed.

Lemma pacing_exact_witness :
  exists p, pacing 60000 50 = Returned p /\ p_effective p * p_batch p <= 1200 /\ p_batch p = 60.
Proof.
  eexists. split; [vm_compute; reflexivity|]. split; [|done].
  exact (proj1 (proj2 (proj2 (pacing_exact 60000 50 _ ltac:(lia) ltac:(vm_compute; reflexivity))))).
Defined.

(** A rate below the connections is not offered: every connection sends one. *)
Example pacing_floor : pacing 10 50 = Returned (mkPace 1 1 second). Proof. reflexivity. Qed.

(** ** One connection *)

(** The session interface: an exchange returns the echoed byte count, or an
    error. *)
(* go: scripts/protocolgen/main.go:192-198 (session) *)
Class Session (S : Type) : Type := Exchange : bytes -> Z -> S -> (Z * option error) * S.

(* go: scripts/protocolgen/main.go:105-105 (main) *)
Record counters : Type := mkCounters { n_sent : Z; n_recv : Z; n_errs : Z }.

Definition NoteError (c : counters) : counters := mkCounters (n_sent c) (n_recv c) (n_errs c + 1).
Definition NoteEcho (c : counters) : counters := mkCounters (n_sent c + 1) (n_recv c + 1) (n_errs c).

Section worker.
Context {S : Type} `{Session S}.
Variable payload : bytes.

(** The state of a worker: the connection, the last message id, the counters,
    and the ids that went out, latest first. *)
Record wstate : Type := mkW { w_conn : S; w_id : Z; w_count : counters; w_ids : list Z }.

(** The exchanges of a tick; false is the worker's return. *)
(* go: scripts/protocolgen/main.go:139-159 (main) *)
Fixpoint batch_loop (batch : nat) (w : wstate) : wstate * bool :=
  match batch with
  | O => (w, true)
  | Datatypes.S batch =>
      let msgID := u16 (w_id w + 1) in
      let '((n, err), s) := Exchange payload msgID (w_conn w) in
      match err with
      | Some _ => (mkW s msgID (NoteError (w_count w)) (msgID :: w_ids w), false)
      | None =>
          if negb (n =? len payload) then (mkW s msgID (NoteError (w_count w)) (msgID :: w_ids w), false)
          else batch_loop batch (mkW s msgID (NoteEcho (w_count w)) (msgID :: w_ids w))
      end
  end.

(** The ticks: whether the deadline has passed at each. *)
(* go: scripts/protocolgen/main.go:135-160 (main) *)
Fixpoint tick_loop (batch : nat) (late : list bool) (w : wstate) : wstate :=
  match late with
  | [] => w
  | true :: _ => w
  | false :: late =>
      let '(w, goes_on) := batch_loop batch w in
      if goes_on then tick_loop batch late w else w
  end.

(** The worker with the given id, on a connection or with the dial's error. *)
(* go: scripts/protocolgen/main.go:121-161 (main) *)
Definition worker (id : Z) (batch : nat) (late : list bool) (dial : result error S) : counters * list Z :=
  match dial with
  | Err _ => (NoteError (mkCounters 0 0 0), [])
  | Ok s =>
      let w := tick_loop batch late (mkW s (u16 (id + 1)) (mkCounters 0 0 0) []) in
      (w_count w, rev (w_ids w))
  end.

(** The ids from one on. *)
Fixpoint ids_from (n : nat) (id : Z) : list Z :=
  match n with O => [] | Datatypes.S n => u16 (id + 1) :: ids_from n (u16 (id + 1)) end.

Lemma batch_loop_counts batch w :
  let '(w', goes_on) := batch_loop batch w in
  exists k : nat, (k <= batch)%nat /\ (goes_on = true -> k = batch) /\
    w_count w' = mkCounters (n_sent (w_count w) + Z.of_nat k) (n_recv (w_count w) + Z.of_nat k)
                   (n_errs (w_count w) + if goes_on then 0 else 1).
Proof.
  revert w. induction batch as [|batch IH]; intros [s id [a b c] ids]; cbn [batch_loop].
  { exists O. cbn. split; [lia|]. split; [done|]. f_equal; lia. }
  cbn [w_conn w_id w_count w_ids]. destruct (Exchange payload (u16 (id + 1)) s) as [[n [e|]] s'].
  { exists O. cbn. split; [lia|]. split; [done|]. unfold NoteError. cbn. f_equal; lia. }
  destruct (n =? len payload); cbn [negb].
  2: { exists O. cbn. split; [lia|]. split; [done|]. unfold NoteError. cbn. f_equal; lia. }
  specialize (IH (mkW s' (u16 (id + 1)) (NoteEcho (mkCounters a b c)) (u16 (id + 1) :: ids))).
  destruct (batch_loop batch _) as [w' g]. destruct IH as (k & Hk & Hg & ->).
  exists (Datatypes.S k). cbn [w_count NoteEcho n_sent n_recv n_errs]. split; [lia|].
  split; [intros Hgt; by rewrite (Hg Hgt)|]. f_equal; lia.
Qed.

Lemma tick_loop_counts batch late w :
  n_sent (w_count w) = n_recv (w_count w) ->
  let c := w_count (tick_loop batch late w) in
  n_sent c = n_recv c /\ n_errs (w_count w) <= n_errs c <= n_errs (w_count w) + 1 /\
  n_sent (w_count w) <= n_sent c <= n_sent (w_count w) + Z.of_nat (batch * length late).
Proof.
  revert w. induction late as [|[|] late IH]; intros w Hw; cbn [tick_loop length]; [lia|lia|].
  pose proof (batch_loop_counts batch w) as Hb. destruct (batch_loop batch w) as [w' [|]].
  - destruct Hb as (k & Hk & _ & E). specialize (IH w'). rewrite E in IH. cbn in IH.
    destruct IH as (H1 & H2 & H3); [lia|]. split; [done|]. split; [lia|]. lia.
  - destruct Hb as (k & Hk & _ & E). rewrite E. cbn. lia.
Qed.

(** A server that echoes. *)
Definition echoes : Prop := forall msgID s, (Exchange payload msgID s).1 = (len payload, None).

Lemma batch_loop_echo batch w :
  echoes ->
  exists s', batch_loop batch w =
    (mkW s' (List.last (ids_from batch (w_id w)) (w_id w))
       (mkCounters (n_sent (w_count w) + Z.of_nat batch) (n_recv (w_count w) + Z.of_nat batch) (n_errs (w_count w)))
       (rev (ids_from batch (w_id w)) ++ w_ids w), true).
Proof.
  intros He. revert w. induction batch as [|batch IH]; intros [s id [a b c] ids]; cbn [batch_loop ids_from].
  { exists s. cbn. by rewrite !Z.add_0_r. }
  cbn [w_conn w_id w_count w_ids]. pose proof (He (u16 (id + 1)) s) as E.
  destruct (Exchange payload (u16 (id + 1)) s) as [[n err] s']. cbn in E. injection E as -> ->.
  rewrite Z.eqb_refl. cbn [negb].
  destruct (IH (mkW s' (u16 (id + 1)) (NoteEcho (mkCounters a b c)) (u16 (id + 1) :: ids))) as (s2 & ->).
  exists s2. cbn [w_id w_count w_ids NoteEcho n_sent n_recv n_errs]. f_equal. f_equal.
  - destruct (ids_from batch (u16 (id + 1))) as [|z zs] eqn:Ei; [done|]. clear.
    cbn [List.last]. revert z. induction zs as [|z' zs IH]; intros z; [done|]. apply IH.
  - f_equal; lia.
  - cbn [rev]. by rewrite <- app_assoc.
Qed.
End worker.

(** what a worker's counters mean.  Whatever the server answers, every
    message counted as sent is counted as received, a worker reports at most one
    error, and it makes at most one batch of exchanges per tick; with a server that
    echoes and ticks before the deadline it makes every exchange, without an error,
    under consecutive sixteen-bit message ids. *)
Theorem worker_counts {S} `{Session S} payload id batch late (dial : result error S) :
  let '(c, ids) := worker payload id batch late dial in
  n_sent c = n_recv c /\ 0 <= n_errs c <= 1 /\ 0 <= n_sent c <= Z.of_nat (batch * length late) /\
  (forall s, dial = Ok s -> echoes payload -> Forall (fun l => l = false) late ->
    c = mkCounters (Z.of_nat (batch * length late)) (Z.of_nat (batch * length late)) 0 /\
    ids = ids_from (batch * length late) (u16 (id + 1))).
Proof.
  destruct dial as [s|e]; cbn [worker]; [|cbn; split_and!; lia || done].
  set (w0 := mkW s _ _ _). pose proof (tick_loop_counts payload batch late w0 eq_refl) as Hc. cbn in Hc.
  destruct Hc as (H1 & H2 & H3). split; [done|]. split; [lia|]. split; [lia|]. intros s' _ He Hl.
  assert (forall w, let w' := tick_loop payload batch late w in
    w_count w' = mkCounters (n_sent (w_count w) + Z.of_nat (batch * length late))
                   (n_recv (w_count w) + Z.of_nat (batch * length late)) (n_errs (w_count w)) /\
    w_ids w' = rev (ids_from (batch * length late) (w_id w)) ++ w_ids w) as Hw.
  { clear - He Hl. induction Hl as [|l late -> _ IH]; intros w; cbn [tick_loop length].
    - rewrite Nat.mul_0_r. cbn. rewrite !Z.add_0_r. by destruct w as [? ? [? ? ?] ?].
    - destruct (batch_loop_echo payload batch w He) as (s' & ->). cbv zeta in IH |- *.
      destruct (IH (mkW s' (List.last (ids_from batch (w_id w)) (w_id w))
       (mkCounters (n_sent (w_count w) + Z.of_nat batch) (n_recv (w_count w) + Z.of_nat batch) (n_errs (w_count w)))
       (rev (ids_from batch (w_id w)) ++ w_ids w))) as (-> & ->). cbn [w_count w_id w_ids n_sent n_recv n_errs].
      split; [f_equal; lia|]. rewrite app_assoc, <- rev_app_distr. f_equal. f_equal.
      replace (batch * Datatypes.S (length late))%nat with (batch + batch * length late)%nat by lia.
      generalize (w_id w) as i, (batch * length late)%nat as m. clear. induction batch as [|b IH]; intros i m; [done|].
      cbn [ids_from Nat.add app]. f_equal. rewrite <- IH. f_equal. f_equal.
      destruct (ids_from b _) as [|z zs]; [done|]. cbn [List.last]. revert z.
      induction zs as [|z' zs IH']; intros z; [done|]. apply IH'. }
  destruct (Hw w0) as [-> ->]. cbn [w_count w_ids w0 n_sent n_recv n_errs w_id].
  split; [f_equal; lia|]. by rewrite app_nil_r, rev_involutive.
Qed.

Lemma worker_counts_witness :
  worker (S := unit) (H := fun p _ s => ((len p, None), s)) [7] 3 2 [false; false] (Ok tt)
  = (mkCounters 4 4 0, [5; 6; 7; 8]).
Proof.
  pose proof (worker_counts (S := unit) (H := fun p _ s => ((len p, None), s)) [7] 3 2 [false; false] (Ok tt)) as W.
  destruct (worker _ _ _ _ _) as [c ids]. destruct W as (_ & _ & _ & W).
  destruct (W tt eq_refl) as [-> ->]; [done|by repeat constructor|reflexivity].
Defined.

(** ** TCP *)

Definition deadline_error : error := ErrMsg "i/o timeout".

Definition echo_differs (what : string) : error := ErrMsg what.

(* go: scripts/protocolgen/main.go:255-265 (tcpSession.Exchange) *)
Definition tcp_request (payload : bytes) : bytes := be_put 4 (u32 (len payload)) ++ payload.

(** [set], [w1] and [w2] are the errors of setting the deadline and of the two
    writes; [reply] is what arrives. *)
(* go: scripts/protocolgen/main.go:246-282 (tcpSession.Exchange) *)
Definition tcp_Exchange (payload : bytes) (set w1 w2 : option error) (reply : bytes) : Z * option error :=
  match set, w1, w2 with
  | Some e, _, _ | _, Some e, _ | _, _, Some e => (0, Some e)
  | None, None, None =>
      match ReadFull 4 reply with
      | (Err e, _) => (0, Some e)
      | (Ok hdr, rest) =>
          let n := be_get hdr in
          if negb (n =? u32 (len payload)) then (0, Some (echo_differs "echo length"))
          else
            match ReadFull (Z.to_nat n) rest with
            | (Err e, _) => (len rest, Some e)
            | (Ok buf, _) =>
                if bool_decide (buf = payload) then (len buf, None)
                else (len buf, Some (echo_differs "echo payload differs from sent payload"))
            end
      end
  end.

Lemma u32_len (p : bytes) : len p < 2 ^ 32 -> u32 (len p) = len p.
Proof. intros. apply uwrap_small. split; [apply len_nonneg|done]. Qed.

Lemma take4_get_put s : bytes_ok s -> (4 <= length s)%nat -> take 4 s = be_put 4 (be_get (take 4 s)).
Proof.
  intros Hs Hl. rewrite <- (be_put_get (take 4 s)) at 1 by (by apply bytes_ok_take).
  f_equal. rewrite length_take. lia.
Qed.

(** the TCP generator counts an echo exactly when the frame it sent comes
    back whole, byte for byte; and what it sends is what the server's framer takes
    for one message, whose echo it accepts. *)
Theorem tcp_exchange_exact payload set w1 w2 reply (Hl : len payload < 2 ^ 32) (Hr : bytes_ok reply) :
  ((exists n, tcp_Exchange payload set w1 w2 reply = (n, None)) <->
   set = None /\ w1 = None /\ w2 = None /\ exists rest, reply = tcp_request payload ++ rest) /\
  (forall max rest, len payload <= maxBytes max -> maxBytes max < 2 ^ 32 ->
   lp_read max (tcp_request payload ++ rest) = (Ok payload, rest) /\ lp_write max payload = Ok (tcp_request payload)).
Proof.
  unfold tcp_request. rewrite u32_len by done. split; [split|].
  - intros [n Hx]. unfold tcp_Exchange in Hx. destruct set, w1, w2; try congruence. rewrite u32_len in Hx by done.
    split_and!; try done. destruct (ReadFull 4 reply) as [[hdr|e] rest] eqn:E4; [|congruence].
    pose proof (ReadFull_ok _ _ _ _ E4) as [-> Hh].
    destruct (Z.eqb_spec (be_get hdr) (len payload)) as [En|]; [|cbn in Hx; congruence]. cbn [negb] in Hx.
    destruct (ReadFull (Z.to_nat (be_get hdr)) rest) as [[buf|e] rest'] eqn:Ep; [|congruence].
    pose proof (ReadFull_ok _ _ _ _ Ep) as [-> Hb].
    case_bool_decide as Hd; [|congruence]. subst buf. exists rest'.
    apply bytes_ok_app in Hr as [Hh' _]. rewrite <- En, <- Hh, be_put_get by done. by rewrite app_assoc.
  - intros (-> & -> & -> & rest & ->). exists (len payload). unfold tcp_Exchange.
    rewrite <- app_assoc, ReadFull_app by apply length_be_put. rewrite be_get_put_small, u32_len, Z.eqb_refl.
    + cbn [negb]. rewrite ReadFull_app by (unfold len; lia). by rewrite bool_decide_eq_true_2.
    + done.
    + split; [apply len_nonneg|done].
  - intros max rest Hm Hm32. pose proof (len_nonneg payload). unfold lp_read, lp_write. split.
    + rewrite <- app_assoc, ReadFull_app by apply length_be_put.
      rewrite be_get_put_small by (split; [lia|done]). rewrite uwrap_small by (pose proof (maxBytes_pos max); lia).
      rewrite (proj2 (Z.ltb_ge _ _)) by done. apply ReadFull_app. unfold len. lia.
    + rewrite (proj2 (Z.ltb_ge _ _)) by done. unfold framedWrite. by rewrite u32_len.
Qed.

Lemma tcp_exchange_exact_witness :
  exists n, tcp_Exchange [1; 2] None None None [0; 0; 0; 2; 1; 2; 9] = (n, None).
Proof.
  apply (proj1 (tcp_exchange_exact [1; 2] None None None [0; 0; 0; 2; 1; 2; 9] ltac:(done) ltac:(repeat constructor; done))).
  split_and!; try done. by exists [9].
Defined.

(** ** Datagrams and messages: UDP, CoAP, WebSocket *)

(** The reply is the next datagram or message, None when none comes in time. *)
(* go: scripts/protocolgen/main.go:301-311 (udpSession.Exchange) *)
Definition udp_Exchange (payload : bytes) (set w : option error) (reply : option bytes) : Z * option error :=
  match set, w, reply with
  | Some e, _, _ | _, Some e, _ => (0, Some e)
  | None, None, None => (0, Some deadline_error)
  | None, None, Some data => (len data, None)
  end.

(* go: scripts/protocolgen/main.go:339-352 (wsSession.Exchange) *)
Definition ws_Exchange (payload : bytes) (set_w set_r w : option error) (reply : option bytes) : Z * option error :=
  match set_w, set_r, w, reply with
  | Some e, _, _, _ | _, Some e, _, _ | _, _, Some e, _ => (0, Some e)
  | None, None, None, None => (0, Some deadline_error)
  | None, None, None, Some data => (len data, None)
  end.

(** The request and the message id it carries. *)
(* go: scripts/protocolgen/main.go:439-444 (coapSession.Exchange) *)
Definition coap_request (payload : bytes) (msgID : Z) : bytes :=
  0x50 :: 0x01 :: be_put 2 msgID ++ 0xFF :: payload.

(* go: scripts/protocolgen/main.go:438-455 (coapSession.Exchange) *)
Definition coap_Exchange (payload : bytes) (set w : option error) (reply : option bytes) : Z * option error :=
  udp_Exchange payload set w reply.

(** the CoAP server reads the generator's request as the non-confirmable GET
    it is meant to be: the message id of the exchange, no token, no option, and the
    payload, whatever the payload is. *)
Theorem coap_request_parses payload msgID (Hid : 0 <= msgID < 2 ^ 16) :
  Parse (coap_request payload msgID) = Ok (mkCoap TypeNON CodeGet msgID [] ∅ payload).
Proof.
  unfold coap_request. pose proof (length_be_put 2 msgID) as Hlen.
  assert (be_get (be_put 2 msgID) = msgID) as Hg by (apply be_get_put_small; done).
  destruct (be_put 2 msgID) as [|a [|b [|]]]; try done. cbn [app].
  unfold Parse. rewrite (proj2 (Z.ltb_ge _ _)) by (rewrite !len_cons; pose proof (len_nonneg payload); lia).
  change (byte_at (0x50 :: _) 0) with 0x50. change (Z.shiftr 0x50 6 =? Version) with true.
  change (Z.land 0x50 0x0f) with 0. cbn [negb].
  rewrite (proj2 (Z.ltb_ge _ _)) by lia.
  rewrite (proj2 (Z.ltb_ge _ _)) by (rewrite !len_cons; pose proof (len_nonneg payload); lia).
  change (Z.to_nat (4 + 0)) with 4%nat. cbn [drop]. unfold parseOptions. cbn [length parse_option_loop].
  change (255 =? 255) with true. cbv iota. cbn [take Z.to_nat]. by rewrite Hg.
Qed.

Lemma coap_request_parses_witness :
  Parse (coap_request [1; 255; 3] 515) = Ok (mkCoap TypeNON CodeGet 515 [] ∅ [1; 255; 3]).
Proof. apply (coap_request_parses [1; 255; 3] 515). done. Defined.

(** An echo of the right length is an echo for every protocol but TCP: the bytes
    are not compared. *)
Example other_bytes_accepted :
  udp_Exchange [1; 2] None None (Some [3; 4]) = (2, None) /\
  ws_Exchange [1; 2] None None None (Some [3; 4]) = (2, None).
Proof. done. Qed.

(** ** gRPC-Web over HTTP *)

(* go: scripts/protocolgen/main.go:385-387 (httpSession.Exchange) *)
Definition http_request (payload : bytes) : bytes := 0 :: be_put 4 (u32 (len payload)) ++ payload.

(** The response: an error of the call, or the status with the body or the error
    of reading it. *)
(* go: scripts/protocolgen/main.go:384-412 (httpSession.Exchange) *)
Definition http_Exchange (payload : bytes) (resp : result error (Z * result error bytes)) : Z * option error :=
  match resp with
  | Err e => (0, Some e)
  | Ok (_, Err e) => (0, Some e)
  | Ok (status, Ok body) =>
      if negb (status =? 200) then (0, Some (echo_differs "status"))
      else if len body <? 5 then (0, Some io_ErrUnexpectedEOF)
      else
        let n := be_get (take 4 (drop 1 body)) in
        if (len body <? 5 + n) || negb (n =? len payload) then (0, Some io_ErrUnexpectedEOF)
        else (n, None)
  end.

Lemma http_request_frame payload : len payload < 2 ^ 32 -> http_request payload = frame_bytes (dataFrameFlag, payload).
Proof. intros H. unfold http_request, frame_bytes. by rewrite u32_len. Qed.

Lemma http_Exchange_echo payload more :
  len payload < 2 ^ 32 -> http_Exchange payload (Ok (200, Ok (http_request payload ++ more))) = (len payload, None).
Proof.
  intros H. pose proof (len_nonneg payload). pose proof (len_nonneg more).
  unfold http_Exchange, http_request. rewrite u32_len by done. cbn [Z.eqb Pos.eqb negb].
  rewrite (proj2 (Z.ltb_ge _ _)) by (rewrite len_app, len_cons, len_app, len_be_put; lia).
  cbn [app drop]. rewrite <- app_assoc, drop_0, take_be_put, be_get_put_small by (split; [lia|done]).
  rewrite (proj2 (Z.ltb_ge _ _)) by (rewrite !len_cons, !len_app, len_be_put; lia).
  by rewrite Z.eqb_refl.
Qed.

(** The echo handler of the servers under test. *)
Definition echo_handler : bytes -> handler_prog := fun p => HSend p (fun e => HEnd (Returned e)).

(** the HTTP generator against the gRPC-Web server: a call with its request,
    let in and left alone by the plugins, is served by the server's own framing,
    the echo and the trailers, and the generator counts the whole payload back. *)
Theorem grpc_http_echo error_text strict payload
    (Hl : len payload < 2 ^ 32) (a : answers)
    (Ha : an_register a = None /\ an_accept a = None /\ an_message a payload = Ok payload) :
  let c := mkCall true true (Some (http_request payload)) strict (B "application/grpc-web+proto") a in
  let w := (handle error_text (Some echo_handler) c).1 in
  http_Exchange payload (Ok ((seen (w_resp w)).1, Ok (seen (w_resp w)).2)) = (len payload, None).
Proof.
  intros c w. destruct Ha as (Hr & Hc & Hm). subst c w.
  assert (request_payload (mkCall true true (Some (http_request payload)) strict (B "application/grpc-web+proto") a)
            (http_request payload) = Some (payload, true)) as Hq.
  { unfold request_payload. cbn [c_content_type c_strict].
    change (isGRPCWebRequest (B "application/grpc-web+proto")) with true. cbn [orb].
    unfold parseRequestPayload. rewrite http_request_frame by done.
    rewrite (proj2 (Z.ltb_ge _ _))
      by (unfold frameHeaderSize, len; rewrite <- frame_bytes_length; cbn [snd]; lia).
    unfold parseDataFrames. pose proof (parse_frames_complete [(dataFrameFlag, payload)]
      (length (frame_bytes (dataFrameFlag, payload))) [] false) as P.
    cbn [mbind list_bind] in P. rewrite app_nil_r in P. rewrite P; [| |lia].
    - unfold frames_data. csimpl. by rewrite app_nil_r.
    - constructor; [|done]. split; [by left|done]. }
  unfold handle. cbn [c_post c_admitted c_body negb]. rewrite Hq. unfold call_session. cbn [c_answers].
  rewrite Hr, Hc, Hm.
  pose proof (invoke_spec error_text (Some echo_handler) true payload) as I. cbn zeta in I.
  destruct (invoke error_text (Some echo_handler) true payload start_writer) as [w tr].
  unfold answer_of, echo_handler in I. cbn [sends ends] in I. cbn [fst] in I |- *. destruct I as (Eb & Es & _).
  unfold seen. cbn [fst snd]. rewrite Es, Eb. cbn [mbind list_bind]. rewrite app_nil_r. unfold wire.
  rewrite appendDataFrame_frame, <- http_request_frame by done. by apply http_Exchange_echo.
Qed.

Lemma grpc_http_echo_witness :
  let a := mkAnswers 1 None None Ok in
  http_Exchange [7; 8] (Ok ((seen (w_resp (handle (fun _ => []) (Some echo_handler)
    (mkCall true true (Some (http_request [7; 8])) true (B "application/grpc-web+proto") a)).1)).1,
    Ok (seen (w_resp (handle (fun _ => []) (Some echo_handler)
    (mkCall true true (Some (http_request [7; 8])) true (B "application/grpc-web+proto") a)).1)).2)) = (2, None).
Proof. intros a. apply (grpc_http_echo (fun _ => []) true [7; 8] ltac:(done) a). done. Defined.

(** ** WebSocket frames *)

(* go: scripts/protocolgen/main.go:660-660 (maskFrame) *)
Definition mask : bytes := [0x01; 0x02; 0x03; 0x04].

(* go: scripts/protocolgen/main.go:662-665 (maskFrame) *)
Definition masked (payload : bytes) : bytes := imap (fun i b => Z.lxor b (nth (i mod 4) mask 0)) payload.

(* go: scripts/protocolgen/main.go:643-667 (maskFrame) *)
Definition maskFrame (opcode : Z) (payload : bytes) : bytes :=
  let n := len payload in
  Z.lor 0x80 opcode ::
  (if n <=? 125 then [Z.lor 0x80 (u8 n)]
   else if n <=? 0xFFFF then [Z.lor 0x80 126; u8 (Z.shiftr n 8); u8 n]
   else Z.lor 0x80 127 :: be_put 8 (u64 n)) ++ mask ++ masked payload.

(** [alloc] is the largest slice the program can make: [make] panics beyond. *)
(* go: scripts/protocolgen/main.go:546-575 (wsReadFrame) *)
Definition wsReadFrame (alloc : Z) (s : bytes) : outcome (Z * result error bytes) * bytes :=
  match ReadFull 2 s with
  | (Err e, s) => (Returned (0, Err e), s)
  | (Ok hdr, s) =>
      let opcode := Z.land (byte_at hdr 0) 0x0f in
      if negb (Z.land (byte_at hdr 1) 0x80 =? 0) then (Returned (opcode, Err (echo_differs "mask bit")), s)
      else
        let short := Z.land (byte_at hdr 1) 0x7f in
        let '(length, s) :=
          if short =? 126 then let '(r, s) := ReadFull 2 s in (match r with Ok e => Ok (be_get e) | Err e => Err e end, s)
          else if short =? 127 then let '(r, s) := ReadFull 8 s in (match r with Ok e => Ok (be_get e) | Err e => Err e end, s)
          else (Ok short, s) in
        match length with
        | Err e => (Returned (opcode, Err e), s)
        | Ok length =>
            if alloc <? length then (Panicked, s)
            else let '(r, s) := ReadFull (Z.to_nat length) s in (Returned (opcode, r), s)
        end
  end.

(* go: scripts/protocolgen/main.go:508-536 (grpcWSSession.Exchange) *)
Definition grpcws_Exchange (alloc : Z) (payload : bytes) (set_w w set_r : option error) (reply : bytes) :
    outcome (Z * option error) * bytes :=
  match set_w, w, set_r with
  | Some e, _, _ | _, Some e, _ | _, _, Some e => (Returned (0, Some e), reply)
  | None, None, None =>
      match wsReadFrame alloc reply with
      | (Panicked, s) => (Panicked, s)
      | (Returned (_, Err e), s) => (Returned (0, Some e), s)
      | (Returned (_, Ok data), s) =>
          if len data <? 5 then (Panicked, s)
          else
            let got := be_get (take 4 (drop 1 data)) in
            if (len data <? 5 + got) || negb (got =? len payload) then (Returned (0, Some io_ErrUnexpectedEOF), s)
            else (Returned (got, None), s)
      end
  end.

(** *** The format of RFC 6455 *)

(** The length field after the first byte; the mask bit is 128. *)
Definition rfc_length (n : Z) : Z * bytes :=
  if n <=? 125 then (n, []) else if n <=? 0xFFFF then (126, be_put 2 n) else (127, be_put 8 n).

(** A final frame, with the key of a client or without. *)
Definition rfc_frame (opcode : Z) (key : option bytes) (data : bytes) : bytes :=
  let '(l, ext) := rfc_length (len data) in
  128 + opcode ::
  match key with
  | Some key => 128 + l :: ext ++ key ++ imap (fun i b => Z.lxor b (nth (i mod 4) key 0)) data
  | None => l :: ext ++ data
  end.

Lemma byte_lor_high b : 0 <= b < 128 -> Z.lor 0x80 b = 128 + b.
Proof. intros Hb. change (Z.lor 0x80 b) with (Z.lor (Z.shiftl 1 7) b). rewrite lor_shiftl_add by lia. lia. Qed.

(** a frame the generator masks is a frame of RFC 6455 for every length, the
    16-bit and 64-bit forms included, and taking the mask off gives the payload
    back. *)
Theorem mask_frame_exact opcode payload (Ho : 0 <= opcode < 16) (Hl : len payload < 2 ^ 63) :
  maskFrame opcode payload = rfc_frame opcode (Some mask) payload /\ masked (masked payload) = payload.
Proof.
  split.
  - unfold maskFrame, rfc_frame, rfc_length. rewrite byte_lor_high by lia. pose proof (len_nonneg payload) as Hn.
    destruct (Z.leb_spec (len payload) 125) as [H|H].
    { rewrite uwrap_small by (split; [done|lia]). by rewrite byte_lor_high by lia. }
    destruct (Z.leb_spec (len payload) 0xFFFF) as [H'|H']; [done|].
    rewrite uwrap_small by (split; [done|lia]). done.
  - unfold masked. apply list_eq. intros i. rewrite !list_lookup_imap.
    destruct (payload !! i) as [b|]; [|done]. cbn. by rewrite Z.lxor_assoc, Z.lxor_nilpotent, Z.lxor_0_r.
Qed.

Lemma mask_frame_exact_witness :
  maskFrame 2 (replicate 300 7) = rfc_frame 2 (Some mask) (replicate 300 7) /\
  masked (masked (replicate 300 7)) = replicate 300 7.
Proof. apply (mask_frame_exact 2 (replicate 300 7)); done. Defined.

(** Reading the header and the length of a server's frame. *)
Lemma wsReadFrame_frame alloc opcode data rest :
  0 <= opcode < 16 -> len data < 2 ^ 63 -> len data <= alloc ->
  wsReadFrame alloc (rfc_frame opcode None data ++ rest) = (Returned (opcode, Ok data), rest).
Proof.
  intros Ho Hl Ha. pose proof (len_nonneg data) as Hn. unfold wsReadFrame, rfc_frame, rfc_length.
  assert (forall l ext, (128 + opcode :: l :: ext ++ data) ++ rest = [128 + opcode; l] ++ ext ++ data ++ rest) as Eapp
    by (intros; cbn [app]; by rewrite <- app_assoc).
  assert (Z.land (128 + opcode) 15 = opcode) as Eop.
  { change 15 with (2 ^ 4 - 1). rewrite land_ones_mod by lia.
    replace (128 + opcode) with (opcode + 8 * 2 ^ 4) by lia. rewrite Z.mod_add by lia. apply Z.mod_small. lia. }
  assert (forall l, 0 <= l < 128 -> (Z.land l 128 =? 0) = true /\ Z.land l 127 = l) as El.
  { intros l Hb. split.
    - apply Z.eqb_eq. apply (land_shiftl_disjoint 1 l 7) in Hb; [|lia]. by rewrite Z.land_comm.
    - change 127 with (2 ^ 7 - 1). rewrite land_ones_mod by lia. apply Z.mod_small. lia. }
  destruct (Z.leb_spec (len data) 125); [|destruct (Z.leb_spec (len data) 0xFFFF)];
    rewrite Eapp, ReadFull_app by done; unfold byte_at; cbn [nth];
    rewrite Eop; (match goal with |- context [Z.land ?l 128] => destruct (El l) as [-> ->]; [lia|] end); cbn [negb].
  - rewrite !(proj2 (Z.eqb_neq _ _)) by lia. rewrite (proj2 (Z.ltb_ge _ _)) by lia.
    cbn [app]. rewrite ReadFull_app by (unfold len; lia). done.
  - cbn [Z.eqb Pos.eqb]. rewrite ReadFull_app by apply length_be_put.
    rewrite be_get_put_small by (split; [lia|change (256 ^ Z.of_nat 2) with 65536; lia]).
    rewrite (proj2 (Z.ltb_ge _ _)) by lia. rewrite ReadFull_app by (unfold len; lia). done.
  - cbn [Z.eqb Pos.eqb]. rewrite ReadFull_app by apply length_be_put.
    rewrite be_get_put_small by (split; [lia|change (256 ^ Z.of_nat 8) with (2 * 2 ^ 63); lia]).
    rewrite (proj2 (Z.ltb_ge _ _)) by lia. rewrite ReadFull_app by (unfold len; lia). done.
Qed.

(** the gRPC-Web generator on its WebSocket reads whatever frame the server
    sends next as the answer.  The echo of its message is counted in full and the
    connection is left at the next frame; a frame of fewer than five bytes - the
    server's ping, which has none, or its close, which has two - makes the
    generator panic. *)
Theorem grpcws_exchange_exact alloc payload opcode data rest
    (Ho : 0 <= opcode < 16) (Hp : len payload < 2 ^ 32) (Hl : len data < 2 ^ 63) (Ha : len data <= alloc) :
  let '(r, s) := grpcws_Exchange alloc payload None None None (rfc_frame opcode None data ++ rest) in
  s = rest /\ (r = Panicked <-> len data < 5) /\
  (data = http_request payload -> r = Returned (len payload, None)).
Proof.
  unfold grpcws_Exchange. rewrite wsReadFrame_frame by done.
  destruct (Z.ltb_spec (len data) 5) as [H5|H5].
  - split; [done|]. split; [done|]. intros ->. unfold http_request in H5. rewrite len_cons, len_app, len_be_put in H5.
    pose proof (len_nonneg payload). lia.
  - destruct ((len data <? _) || _) eqn:E; (split; [done|]; split; [split; [done|lia]|]); intros ->.
    + exfalso. unfold http_request in E. rewrite u32_len in E by done. cbn [drop] in E.
      rewrite drop_0, take_be_put, be_get_put_small, Z.eqb_refl in E by (split; [apply len_nonneg|done]).
      rewrite len_cons, len_app, len_be_put in E. apply orb_true_iff in E as [E|E]; [apply Z.ltb_lt in E; lia|done].
    + f_equal. f_equal. unfold http_request. rewrite u32_len by done. cbn [drop].
      by rewrite drop_0, take_be_put, be_get_put_small by (split; [apply len_nonneg|done]).
Qed.

Lemma grpcws_exchange_exact_witness :
  (grpcws_Exchange 100 [1; 2] None None None (rfc_frame 9 None [] ++ [])).1 = Panicked /\
  (grpcws_Exchange 100 [1; 2] None None None (rfc_frame 2 None (http_request [1; 2]) ++ [5])).1 = Returned (2, None).
Proof.
  split.
  - pose proof (grpcws_exchange_exact 100 [1; 2] 9 [] [] ltac:(done) ltac:(done) ltac:(done) ltac:(done)) as H.
    destruct (grpcws_Exchange _ _ _ _ _ _) as [r s]. by apply (proj2 (proj1 (proj2 H))).
  - pose proof (grpcws_exchange_exact 100 [1; 2] 2 (http_request [1; 2]) [5] ltac:(done) ltac:(done) ltac:(done) ltac:(done)) as H.
    destruct (grpcws_Exchange _ _ _ _ _ _) as [r s]. by apply (proj2 (proj2 H)).
Defined.

(** ** The dialers *)

Inductive protocol : Type := PTcp | PUdp | PWs | PHttp | PCoap | PGrpcWeb | PQuic.

(* go: scripts/protocolgen/main.go:201-220 (dialerFor) *)
Definition dialerFor (name : bytes) : result error protocol :=
  let is_ w := bool_decide (ToLower name = bytes_of_string w) in
  if is_ "tcp" then Ok PTcp else if is_ "udp" then Ok PUdp else if is_ "ws" then Ok PWs
  else if is_ "http" then Ok PHttp else if is_ "coap" then Ok PCoap else if is_ "grpcweb" then Ok PGrpcWeb
  else if is_ "quic" then Ok PQuic else Err (ErrMsg "unknown protocol").

(** ** QUIC *)

(** The errors of opening the stream, of the write and of the half-close; of the
    server's stream, None when none comes in time, the error of its deadline and
    what arrives. *)
(* go: scripts/protocolgen/main.go:594-624 (quicSession.Exchange) *)
Definition quic_Exchange (payload : bytes) (opened w closed : option error) (accepted : result error (option error * bytes)) :
    Z * option error :=
  match opened, w, closed, accepted with
  | Some e, _, _, _ | _, Some e, _, _ | _, _, Some e, _ => (0, Some e)
  | None, None, None, Err e => (0, Some e)
  | None, None, None, Ok (Some e, _) => (0, Some e)
  | None, None, None, Ok (None, data) =>
      match ReadFull (length payload) data with
      | (Ok buf, _) => (len buf, None)
      | (Err e, _) => (len data, Some e)
      end
  end.

(** A reply longer than the request is counted as an echo: what follows is not
    read. *)
Example quic_longer_reply : quic_Exchange [1] None None None (Ok (None, [2; 3])) = (1, None).
Proof. done. Qed.
