(* ===== verification/LoadMetrics.v ===== *)
(** * LoadMetrics: [scripts/ladmetrics], [scripts/rateclient]

    What the load generators measure: the round trips of a connection, the capped
    sample, the counters second by second and the percentiles.  The methods of a
    [Conn] run under its mutex and the sample counter is atomic, so a run is the
    order of the calls; times are nanoseconds. *)
From Stdlib Require Import SpecFloat.
From S2P Require Import Prelude Bytes Core Stream PeerAddr Quota Acceptor LoadGen.
Local Open Scope Z_scope.
Local Open Scope list_scope.

(** ** Round trips of one connection *)

(* go: scripts/ladmetrics/metrics.go:36-36 (MaxSamples) *)
Definition MaxSamples : Z := 200000.

(* go: scripts/ladmetrics/metrics.go:43-48 (Conn) *)
Record Conn : Type := mkConn { samples : list Z; inflight : Z; hasOne : bool }.

Definition newConn : Conn := mkConn [] 0 false.

(* go: scripts/ladmetrics/metrics.go:62-69 (Conn.MarkSent) *)
Definition MarkSent (now : Z) (c : Conn) : Conn :=
  if hasOne c then c else mkConn (samples c) now true.

(** With the shared count of samples. *)
(* go: scripts/ladmetrics/metrics.go:72-83 (Conn.RecordEcho) *)
Definition RecordEcho (now sampled : Z) (c : Conn) : Conn * Z :=
  if negb (hasOne c) then (c, sampled)
  else
    let sampled := sampled + 1 in
    if MaxSamples <? sampled then (mkConn (samples c) (inflight c) false, sampled)
    else (mkConn (samples c ++ [now - inflight c]) (inflight c) false, sampled).

(** The rate client has its own copy of the two. *)
(* go: scripts/rateclient/main.go:277-284 (markSent) *)
Definition markSent : Z -> Conn -> Conn := MarkSent.
(* go: scripts/rateclient/main.go:287-298 (recordEcho) *)
Definition recordEcho : Z -> Z -> Conn -> Conn * Z := RecordEcho.

(** What happens on a connection: a frame is written, an echo is read. *)
Inductive traffic : Type := Sent (at_ : Z) | Echo (at_ : Z).

Definition observe (ev : traffic) (cs : Conn * Z) : Conn * Z :=
  match ev with
  | Sent t => (markSent t cs.1, cs.2)
  | Echo t => recordEcho t cs.2 cs.1
  end.

Definition measured (evs : list traffic) (cs : Conn * Z) : Conn * Z := foldl (fun cs ev => observe ev cs) cs evs.

(** The round trips there were: echoes come back in the order of the frames.
    [pending] are the times of the frames under way. *)
Fixpoint round_trips (pending : list Z) (evs : list traffic) : list Z :=
  match evs with
  | [] => []
  | Sent t :: evs => round_trips (pending ++ [t]) evs
  | Echo t :: evs =>
      match pending with
      | [] => round_trips [] evs
      | t0 :: pending => (t - t0) :: round_trips pending evs
      end
  end.

(** Events in the order of time, no echo without a frame. *)
Fixpoint possible (now : Z) (waiting : nat) (evs : list traffic) : Prop :=
  match evs with
  | [] => True
  | Sent t :: evs => now <= t /\ possible t (S waiting) evs
  | Echo t :: evs => now <= t /\ (0 < waiting)%nat /\ possible t (pred waiting) evs
  end.

(** [part l k]: each element of [l] is at most one of [k], in order. *)
Inductive under : list Z -> list Z -> Prop :=
| under_nil : under [] []
| under_skip y l k : under l k -> under l (y :: k)
| under_take x y l k : x <= y -> under l k -> under (x :: l) (y :: k).

Lemma under_nil_l k : under [] k.
Proof. induction k; by constructor. Qed.

(** The stamp of the frame being timed is no older than the frame whose echo is
    next. *)
Definition stamp_ok (c : Conn) (pending : list Z) : Prop :=
  hasOne c = true -> match pending with [] => False | t0 :: _ => t0 <= inflight c end.

Lemma measured_under now pending evs c sampled :
  possible now (length pending) evs -> stamp_ok c pending -> Forall (fun t => t <= now) pending ->
  exists l, samples (measured evs (c, sampled)).1 = samples c ++ l /\ under l (round_trips pending evs).
Proof.
  revert now pending c sampled. induction evs as [|[t|t] evs IH]; intros now pending c sampled Hp Hs Hle.
  - exists []. split; [by rewrite app_nil_r|constructor].
  - destruct Hp as [Hnow Hp]. cbn [measured foldl observe fst snd round_trips].
    assert (samples (markSent t c) = samples c) as <- by (unfold markSent, MarkSent; by destruct (hasOne c)).
    apply (IH t); [by rewrite length_app, Nat.add_comm| |].
    + unfold markSent, MarkSent, stamp_ok in *. destruct (hasOne c) eqn:E; cbn.
      * intros _. specialize (Hs eq_refl). by destruct pending as [|t0 pending].
      * intros _. destruct pending as [|t0 pending]; cbn; [lia|]. inversion Hle; subst. lia.
    + apply Forall_app. split; [|by repeat constructor]. eapply Forall_impl; [exact Hle|cbn; lia].
  - destruct Hp as (Hnow & Hw & Hp). destruct pending as [|t0 pending]; [cbn in Hw; lia|].
    assert (Forall (fun t' => t' <= t) pending) as Hle'
      by (apply Forall_inv_tail in Hle; eapply Forall_impl; [exact Hle|cbn; lia]).
    cbn [measured foldl observe fst snd round_trips pred length] in *. unfold recordEcho, RecordEcho.
    assert (forall c' n, samples c' = samples c -> hasOne c' = false ->
      exists l, samples (measured evs (c', n)).1 = samples c ++ l /\ under l (t - t0 :: round_trips pending evs)) as Hskip.
    { intros c' n Es Eh. destruct (IH t pending c' n) as (l & El & Hu); [done|unfold stamp_ok; congruence|done|].
      exists l. rewrite El, Es. split; [done|]. by constructor. }
    destruct (hasOne c) eqn:E; cbn [negb]; [|by apply Hskip].
    destruct (MaxSamples <? sampled + 1); [by apply Hskip|]. specialize (Hs E). cbn in Hs.
    destruct (IH t pending (mkConn (samples c ++ [t - inflight c]) (inflight c) false) (sampled + 1)) as (l & El & Hu);
      [done|unfold stamp_ok; cbn; congruence|done|].
    exists (t - inflight c :: l). unfold measured in El. rewrite El. cbn [samples]. rewrite <- app_assoc.
    split; [done|]. constructor; [lia|done].
Qed.

(** the round trips a load generator reports never exceed those there were.
    Whatever the order in which a connection writes frames and reads their echoes,
    the samples are, in order, at most the round trips of frames that came back:
    the stamp may be of a later frame than the one whose echo is read. *)
Theorem samples_understate evs (H : possible 0 0 evs) :
  under (samples (measured evs (newConn, 0)).1) (round_trips [] evs).
Proof. by destruct (measured_under 0 [] evs newConn 0) as (l & -> & Hl). Qed.

Lemma samples_understate_witness :
  under (samples (measured [Sent 1; Sent 1; Echo 2; Sent 11; Echo 12] (newConn, 0)).1) [1; 11].
Proof. apply (samples_understate [Sent 1; Sent 1; Echo 2; Sent 11; Echo 12]). cbn. lia. Defined.

(** A generator that waits for each echo before the next frame. *)
Fixpoint one_by_one (exchanges : list (Z * Z)) : list traffic :=
  match exchanges with [] => [] | (s, e) :: rest => Sent s :: Echo e :: one_by_one rest end.

Lemma measured_one_by_one exchanges c sampled :
  hasOne c = false -> sampled + len exchanges <= MaxSamples ->
  samples (measured (one_by_one exchanges) (c, sampled)).1 = samples c ++ map (fun x => x.2 - x.1) exchanges.
Proof.
  revert c sampled. induction exchanges as [|[s e] rest IH]; intros c sampled Hc Hn.
  { cbn. by rewrite app_nil_r. }
  rewrite len_cons in Hn. pose proof (len_nonneg rest).
  cbn [one_by_one measured foldl observe fst snd map]. unfold markSent, MarkSent. rewrite Hc.
  unfold recordEcho, RecordEcho. cbn [hasOne inflight samples negb].
  rewrite (proj2 (Z.ltb_ge _ _)) by lia. unfold measured in IH. rewrite IH by (done || lia). cbn [samples].
  by rewrite <- app_assoc.
Qed.

(** the generator of one exchange at a time measures every round trip
    exactly, up to the cap. *)
Theorem closed_loop_exact exchanges (H : len exchanges <= MaxSamples) :
  samples (measured (one_by_one exchanges) (newConn, 0)).1 = map (fun x => x.2 - x.1) exchanges /\
  round_trips [] (one_by_one exchanges) = map (fun x => x.2 - x.1) exchanges.
Proof.
  split; [by apply (measured_one_by_one exchanges newConn 0)|]. clear H.
  induction exchanges as [|[s e] rest IH]; [done|]. cbn [one_by_one round_trips app map fst snd]. by rewrite IH.
Qed.

Lemma closed_loop_exact_witness :
  samples (measured (one_by_one [(1, 4); (5, 7)]) (newConn, 0)).1 = [3; 2].
Proof. apply (closed_loop_exact [(1, 4); (5, 7)]). done. Defined.

(** A server that falls behind: two frames go out every ten units, one echo comes
    back. *)
Fixpoint falling_behind (n : nat) (t : Z) : list traffic :=
  match n with O => [] | S n => Sent t :: Sent t :: Echo (t + 1) :: falling_behind n (t + 10) end.

(** The frames under way after [k] rounds: half as many as went out. *)
Fixpoint backlog (k : nat) : list Z := match k with O => [] | S k => backlog k ++ [10 * Z.of_nat k; 10 * Z.of_nat k] end.

Lemma backlog_nth k i : (i < 2 * k)%nat -> backlog k !! i = Some (10 * Z.of_nat (i / 2)).
Proof.
  induction k as [|k IH]; intros Hi; [lia|]. cbn [backlog].
  assert (length (backlog k) = 2 * k)%nat as El.
  { clear. induction k as [|k IH]; [done|]. cbn [backlog]. rewrite length_app, IH. cbn. lia. }
  destruct (decide (i < 2 * k)%nat) as [H|H]; [rewrite lookup_app_l by lia; by apply IH|].
  rewrite lookup_app_r by lia. rewrite El. assert (i = 2 * k \/ i = 2 * k + 1)%nat as [-> | ->] by lia.
  - rewrite Nat.sub_diag. cbn [lookup list_lookup]. by rewrite Nat.mul_comm, Nat.div_mul.
  - replace (2 * k + 1 - 2 * k)%nat with 1%nat by lia. cbn [lookup list_lookup]. do 2 f_equal.
    rewrite Nat.mul_comm, Nat.div_add_l by lia. cbn. lia.
Qed.

Lemma falling_round_trips n j i :
  (i < n)%nat ->
  round_trips (drop j (backlog j)) (falling_behind n (10 * Z.of_nat j)) !! i =
  Some (10 * Z.of_nat (j + i) + 1 - 10 * Z.of_nat ((j + i) / 2)).
Proof.
  assert (forall k, length (backlog k) = 2 * k)%nat as El.
  { clear. induction k as [|k IH]; [done|]. cbn [backlog]. rewrite length_app, IH. cbn. lia. }
  revert j i. induction n as [|n IH]; intros j i Hi; [lia|].
  cbn [falling_behind round_trips]. rewrite <- app_assoc. cbn [app].
  assert (drop j (backlog j) ++ [10 * Z.of_nat j; 10 * Z.of_nat j] = drop j (backlog (S j))) as ->
    by (cbn [backlog]; by rewrite drop_app_le by (rewrite El; lia)).
  rewrite (drop_S (backlog (S j)) (10 * Z.of_nat (j / 2)) j) by (apply backlog_nth; lia).
  replace (10 * Z.of_nat j + 10) with (10 * Z.of_nat (S j)) by lia.
  destruct i as [|i].
  - cbn [lookup list_lookup]. rewrite Nat.add_0_r. f_equal; lia.
  - cbn [lookup list_lookup]. rewrite IH by lia. f_equal. replace (S j + i)%nat with (j + S i)%nat by lia. done.
Qed.

Lemma falling_samples n t c sampled :
  hasOne c = false -> sampled + Z.of_nat n <= MaxSamples ->
  samples (measured (falling_behind n t) (c, sampled)).1 = samples c ++ replicate n 1.
Proof.
  revert t c sampled. induction n as [|n IH]; intros t c sampled Hc Hn; [by rewrite app_nil_r|].
  cbn [falling_behind measured foldl observe fst snd replicate]. unfold markSent, MarkSent. rewrite Hc.
  cbn [hasOne]. unfold recordEcho, RecordEcho. cbn [hasOne inflight samples negb].
  rewrite (proj2 (Z.ltb_ge _ _)) by lia. unfold measured in IH. rewrite IH by (done || lia). cbn [samples].
  rewrite <- app_assoc. cbn [app]. do 2 f_equal. lia.
Qed.

(** the rate client does not see a server fall behind.  When two frames go out
    for every echo that comes back, the round trips grow by half a round's length
    with every echo, without bound, while every sample the client takes is the one
    unit between the start of a round and its echo, so every percentile stays at
    that. *)
Theorem backlog_not_measured n (H : Z.of_nat n <= MaxSamples) :
  samples (measured (falling_behind n 0) (newConn, 0)).1 = replicate n 1 /\
  (forall k, (k < n)%nat -> exists rt, round_trips [] (falling_behind n 0) !! k = Some rt /\ 5 * Z.of_nat k + 1 <= rt).
Proof.
  split; [by apply (falling_samples n 0 newConn 0)|]. intros k Hk.
  pose proof (falling_round_trips n 0 k Hk) as E. cbn [drop backlog Nat.add] in E. change (10 * Z.of_nat 0) with 0 in E.
  eexists. split; [exact E|]. pose proof (Nat.Div0.div_le_upper_bound k 2 k). 
  assert (2 * (k / 2) <= k)%nat by (apply Nat.Div0.mul_div_le). lia.
Qed.

Lemma backlog_not_measured_witness :
  exists rt, round_trips [] (falling_behind 100 0) !! 99%nat = Some rt /\ 496 <= rt.
Proof. apply (proj2 (backlog_not_measured 100 ltac:(done)) 99%nat). lia. Defined.

(** ** The cap *)

(** Calls of [MarkSent] and [RecordEcho] on any of the connections. *)
Inductive call : Type := CMark (i : nat) (now : Z) | CEcho (i : nat) (now : Z).

(* go: scripts/ladmetrics/metrics.go:112-124 (Collector) *)
Record Collector : Type := mkCollector { c_Sent : Z; c_Recv : Z; c_Errs : Z; c_sample : Z; c_conns : list Conn }.

(* go: scripts/ladmetrics/metrics.go:127-135 (NewCollector) *)
Definition NewCollector (n : nat) : Collector := mkCollector 0 0 0 0 (replicate n newConn).

(** An index out of range panics. *)
(* go: scripts/ladmetrics/metrics.go:141-144 (Collector.RecordEcho) *)
Definition c_RecordEcho (i : nat) (now : Z) (c : Collector) : outcome Collector :=
  match c_conns c !! i with
  | None => Panicked
  | Some conn =>
      let '(conn, n) := RecordEcho now (c_sample c) conn in
      Returned (mkCollector (c_Sent c) (c_Recv c + 1) (c_Errs c) n (<[i := conn]> (c_conns c)))
  end.

Definition c_MarkSent (i : nat) (now : Z) (c : Collector) : outcome Collector :=
  match c_conns c !! i with
  | None => Panicked
  | Some conn => Returned (mkCollector (c_Sent c) (c_Recv c) (c_Errs c) (c_sample c) (<[i := MarkSent now conn]> (c_conns c)))
  end.

(* go: scripts/ladmetrics/metrics.go:147-147 (Collector.NoteSend) *)
Definition c_NoteSend (c : Collector) : Collector := mkCollector (c_Sent c + 1) (c_Recv c) (c_Errs c) (c_sample c) (c_conns c).
(* go: scripts/ladmetrics/metrics.go:150-150 (Collector.NoteError) *)
Definition c_NoteError (c : Collector) : Collector := mkCollector (c_Sent c) (c_Recv c) (c_Errs c + 1) (c_sample c) (c_conns c).

Definition do_call (x : call) (c : Collector) : outcome Collector :=
  match x with CMark i now => c_MarkSent i now c | CEcho i now => c_RecordEcho i now c end.

Fixpoint do_calls (xs : list call) (c : Collector) : outcome Collector :=
  match xs with
  | [] => Returned c
  | x :: xs => match do_call x c with Returned c => do_calls xs c | Panicked => Panicked end
  end.

Definition retained (c : Collector) : Z := len (concat (samples <$> c_conns c)).

Lemma retained_insert conns i conn conn' :
  conns !! i = Some conn ->
  len (concat (samples <$> <[i := conn']> conns)) = len (concat (samples <$> conns)) + len (samples conn') - len (samples conn).
Proof.
  revert i. induction conns as [|c conns IH]; intros [|i] Hi; [done..| |].
  - cbn in Hi. injection Hi as ->. csimpl. rewrite !len_app. lia.
  - cbn in Hi. csimpl. rewrite !len_app, (IH i) by done. lia.
Qed.

Lemma do_calls_retained xs c c' :
  do_calls xs c = Returned c' -> retained c = Z.min (c_sample c) MaxSamples -> 0 <= c_sample c ->
  retained c' = Z.min (c_sample c') MaxSamples /\ 0 <= c_sample c'.
Proof.
  revert c. induction xs as [|x xs IH]; intros c Hc Hr H0; cbn [do_calls] in Hc; [by simplify_eq|].
  destruct (do_call x c) as [c1|] eqn:E; [|done]. apply (IH c1 Hc); destruct x as [i now|i now]; cbn in E.
  - unfold c_MarkSent in E. destruct (c_conns c !! i) as [conn|] eqn:Ei; [|done]. injection E as <-.
    unfold retained in *. cbn [c_conns c_sample]. rewrite (retained_insert _ _ conn) by done.
    unfold MarkSent. destruct (hasOne conn); cbn [samples]; lia.
  - unfold c_RecordEcho in E. destruct (c_conns c !! i) as [conn|] eqn:Ei; [|done].
    unfold retained, RecordEcho in *. destruct (hasOne conn); cbn [negb] in E.
    + destruct (Z.ltb_spec MaxSamples (c_sample c + 1)) as [Hm|Hm]; injection E as <-; cbn [c_conns c_sample];
        rewrite (retained_insert _ _ conn) by done; cbn [samples]; rewrite ?len_app, ?len_cons; change (@len Z []) with 0; lia.
    + injection E as <-. cbn [c_conns c_sample]. rewrite (retained_insert _ _ conn) by done. lia.
  - unfold c_MarkSent in E. destruct (c_conns c !! i); [|done]. by injection E as <-.
  - unfold c_RecordEcho in E. destruct (c_conns c !! i) as [conn|]; [|done]. unfold RecordEcho in E.
    destruct (hasOne conn); cbn [negb] in E; [destruct (_ <? _)|]; injection E as <-; cbn; lia.
Qed.

(** the cap on the samples is exact.  In whatever order the connections of a
    collector mark frames and bank echoes, what they keep together is as many
    samples as were timed, until there are two hundred thousand; no later one is
    kept and the count goes on, so the report's note that the cap was hit appears
    exactly when samples are missing. *)
Theorem sample_cap_exact n xs c (H : do_calls xs (NewCollector n) = Returned c) :
  retained c = Z.min (c_sample c) MaxSamples /\ (MaxSamples < c_sample c <-> retained c < c_sample c).
Proof.
  destruct (do_calls_retained xs (NewCollector n) c H) as [Hr H0].
  - unfold retained, NewCollector. cbn [c_conns c_sample]. rewrite fmap_replicate.
    assert (concat (replicate n (samples newConn)) = []) as -> by (clear; by induction n). done.
  - done.
  - split; [done|]. lia.
Qed.

Lemma sample_cap_exact_witness :
  exists c, do_calls [CMark 1 5; CMark 0 6; CEcho 1 9; CEcho 0 8; CEcho 0 9] (NewCollector 2) = Returned c /\ retained c = 2.
Proof.
  destruct (do_calls _ (NewCollector 2)) as [c|] eqn:E; [|by vm_compute in E]. exists c. split; [done|].
  destruct (sample_cap_exact 2 _ c E) as [-> _]. by vm_compute in E; injection E as <-.
Defined.

(** ** The counters, second by second *)

(* go: scripts/ladmetrics/metrics.go:51-55 (Second) *)
Record Second : Type := mkSecond { s_Second : Z; s_Sent : Z; s_Recv : Z }.

(** The loop over the ticks; [loads] are the counters found at each. *)
(* go: scripts/ladmetrics/metrics.go:172-190 (Collector.Collect) *)
Fixpoint collect (tick prevSent prevRecv : Z) (loads : list (Z * Z)) : list Second :=
  match loads with
  | [] => []
  | (sent, recv) :: loads => mkSecond tick (sent - prevSent) (recv - prevRecv) :: collect (tick + 1) sent recv loads
  end.

Definition Collect (loads : list (Z * Z)) : list Second := collect 1 0 0 loads.

Lemma collect_sums tick ps pr loads :
  foldr (fun s n => s_Sent s + n) ps (collect tick ps pr loads) = (List.last loads (ps, pr)).1 /\
  foldr (fun s n => s_Recv s + n) pr (collect tick ps pr loads) = (List.last loads (ps, pr)).2.
Proof.
  assert (forall (f : Second -> Z) a b l, foldr (fun s n => f s + n) (a + b) l = a + foldr (fun s n => f s + n) b l) as Hf.
  { intros f a b l. induction l as [|x l IH]; cbn; [done|]. rewrite IH. lia. }
  revert tick ps pr. induction loads as [|[s r] loads IH]; intros tick ps pr; [done|].
  cbn [collect foldr s_Sent s_Recv]. destruct (IH (tick + 1) s r) as [E1 E2].
  replace ps with ((ps - s) + s) at 2 by lia. replace pr with ((pr - r) + r) at 3 by lia. rewrite !Hf, E1, E2.
  assert (List.last ((s, r) :: loads) (ps, pr) = List.last loads (s, r)) as ->; [|lia].
  clear. revert s r ps pr. induction loads as [|[s' r'] loads IH]; intros s r ps pr; [done|].
  change (List.last ((s', r') :: loads) (ps, pr) = List.last ((s', r') :: loads) (s, r)).
  by rewrite !IH.
Qed.

(** the series of a run adds up: one entry for each tick, numbered from one,
    and what they say was sent and received together is what the counters showed at
    the last tick. *)
Theorem series_adds_up loads :
  s_Second <$> Collect loads = Z.of_nat <$> seq 1 (length loads) /\
  foldr (fun s n => s_Sent s + n) 0 (Collect loads) = (List.last loads (0, 0)).1 /\
  foldr (fun s n => s_Recv s + n) 0 (Collect loads) = (List.last loads (0, 0)).2.
Proof.
  split; [|by apply collect_sums]. unfold Collect. change 1 with (Z.of_nat 1) at 1.
  enough (forall k a b, s_Second <$> collect (Z.of_nat k) a b loads = Z.of_nat <$> seq k (length loads)) as H by apply H.
  induction loads as [|[s r] loads IH]; intros k a b; [done|]. cbn [collect]. csimpl. f_equal.
  replace (Z.of_nat k + 1) with (Z.of_nat (S k)) by lia. apply IH.
Qed.

(** ** Percentiles *)

(** [math.Ceil] *)
Definition Ceil (f : float64) : float64 :=
  match f with
  | S754_finite s m e =>
      if 0 <=? e then f
      else if s then float_of_int (- (Z.pos m / 2 ^ (- e))) else float_of_int ((Z.pos m + 2 ^ (- e) - 1) / 2 ^ (- e))
  | _ => f
  end.

(** Of a sorted slice. *)
(* go: scripts/ladmetrics/metrics.go:97-109 (Percentile) *)
Definition Percentile (sorted : list Z) (p : float64) : Z :=
  if len sorted =? 0 then 0
  else
    let idx := float_to_int (Ceil (fmul p (float_of_int (len sorted)))) - 1 in
    let idx := if idx <? 0 then 0 else idx in
    let idx := if len sorted <=? idx then len sorted - 1 else idx in
    nth (Z.to_nat idx) sorted 0.

(* go: scripts/rateclient/main.go:312-324 (percentile) *)
Definition percentile : list Z -> float64 -> Z := Percentile.

(** A constant [a/b] of the program. *)
Definition constant (a b : Z) : float64 := fdiv (float_of_int a) (float_of_int b).

(** The rank the program takes: the smallest count of samples that is at least
    the share [a/b]. *)
Definition nearest_rank (a b n : Z) : Z := (a * n + b - 1) / b.

(** The percentiles of the report. *)
Definition reported : list (Z * Z) := [(1, 2); (9, 10); (99, 100); (999, 1000)].

Definition rank_exact (n : Z) : bool :=
  forallb (fun ab => float_to_int (Ceil (fmul (constant ab.1 ab.2) (float_of_int n))) =? nearest_rank ab.1 ab.2 n) reported.

Lemma ranks_exact : forallb (fun k => rank_exact (Z.of_nat k)) (seq 1 1000) = true.
Proof. vm_compute. reflexivity. Qed.

Lemma rank_range a b n : 0 < a <= b -> 0 < n -> 1 <= nearest_rank a b n <= n.
Proof.
  intros Ha Hn. unfold nearest_rank. split.
  - apply Z.div_le_lower_bound; nia.
  - apply Z.lt_succ_r, Z.div_lt_upper_bound; nia.
Qed.

Lemma reported_ok ab : ab ∈ reported -> 0 < ab.1 <= ab.2.
Proof. unfold reported. rewrite !elem_of_cons. intros [->|[->|[->|[->|H]]]]; try (cbn; lia). by apply elem_of_nil in H. Qed.

Lemma Percentile_rank sorted ab :
  ab ∈ reported -> 1 <= len sorted <= 1000 ->
  Percentile sorted (constant ab.1 ab.2) = nth (Z.to_nat (nearest_rank ab.1 ab.2 (len sorted) - 1)) sorted 0.
Proof.
  intros Hin Hl. pose proof (rank_range ab.1 ab.2 (len sorted) (reported_ok ab Hin) ltac:(lia)) as Hr.
  pose proof ranks_exact as Hx. rewrite forallb_forall in Hx. specialize (Hx (length sorted)). unfold rank_exact in Hx.
  rewrite in_seq in Hx. change (Z.of_nat (length sorted)) with (len sorted) in Hx.
  specialize (Hx ltac:(unfold len in Hl; lia)). rewrite forallb_forall in Hx. specialize (Hx ab).
  rewrite <- list_elem_of_In in Hx. specialize (Hx Hin). apply Z.eqb_eq in Hx.
  unfold Percentile. rewrite Hx. rewrite (proj2 (Z.eqb_neq _ _)) by lia.
  rewrite (proj2 (Z.ltb_ge _ 0)) by lia. rewrite (proj2 (Z.leb_gt _ _)) by lia. done.
Qed.

Lemma nearest_rank_spec a b n : 0 < b -> a * n <= b * nearest_rank a b n /\ b * (nearest_rank a b n - 1) < a * n.
Proof.
  intros Hb. unfold nearest_rank. pose proof (Z.div_mod (a * n + b - 1) b ltac:(lia)).
  pose proof (Z.mod_pos_bound (a * n + b - 1) b Hb). lia.
Qed.

(** How many of a sorted list are below, and up to, the element at [i]. *)
Lemma sorted_counts (l : list Z) i v :
  StronglySorted Z.le l -> l !! i = Some v ->
  (length (filter (fun x => (x < v)%Z) l) <= i)%nat /\ (i < length (filter (fun x => (x <= v)%Z) l))%nat.
Proof.
  intros Hs Hi. rewrite <- (take_drop_middle l i v Hi) in Hs |- *.
  assert (length (take i l) = i) as El by (rewrite length_take; apply lookup_lt_Some in Hi; lia).
  assert (Forall (fun x => x <= v) (take i l)) as H1.
  { apply Forall_forall. intros x Hx.
    apply StronglySorted_app in Hs as (H & _ & _).
    apply H; [done|by left]. }
  assert (Forall (fun x => v <= x) (drop (S i) l)) as H2.
  { apply StronglySorted_app in Hs as (_ & _ & H). by apply StronglySorted_inv in H as [_ H]. }
  rewrite !filter_app, !length_app. split.
  - rewrite filter_cons_False by lia.
    assert (filter (fun x => x < v) (drop (S i) l) = []) as ->.
    { clear - H2. induction H2; [done|]. rewrite filter_cons_False by lia. done. }
    pose proof (length_filter (fun x => x < v) (take i l)). cbn. lia.
  - rewrite filter_cons_True by lia. cbn [length].
    assert (filter (fun x => x <= v) (take i l) = take i l) as ->.
    { clear - H1. induction H1; [done|]. rewrite filter_cons_True by done. by f_equal. }
    lia.
Qed.

(** the percentiles are those of the nearest rank.  On up to a thousand sorted
    samples each reported percentile, computed in floating point, is one of the
    samples; its share of the samples or more is no larger, and less than its share
    is smaller.  Without samples it is zero. *)
Theorem percentile_exact sorted ab (Hin : ab ∈ reported) (Hl : len sorted <= 1000) (Hs : StronglySorted Z.le sorted) :
  let v := Percentile sorted (constant ab.1 ab.2) in
  (sorted = [] -> v = 0) /\
  (sorted <> [] -> v ∈ sorted /\
    ab.1 * len sorted <= ab.2 * len (filter (fun x => x <= v) sorted) /\
    ab.2 * len (filter (fun x => x < v) sorted) < ab.1 * len sorted).
Proof.
  intros v. split; [by intros ->|]. intros Hne.
  assert (0 < len sorted) as H0 by (destruct sorted; [done|unfold len; cbn; lia]).
  pose proof (reported_ok ab Hin) as Hab. pose proof (rank_range ab.1 ab.2 (len sorted) Hab H0) as Hr.
  destruct (nearest_rank_spec ab.1 ab.2 (len sorted)) as [R1 R2]; [lia|].
  pose proof (Percentile_rank sorted ab Hin ltac:(lia)) as Ev. fold v in Ev.
  set (r := nearest_rank _ _ _) in *. set (i := Z.to_nat (r - 1)) in *.
  assert (sorted !! i = Some v) as Hi.
  { destruct (lookup_lt_is_Some_2 sorted i) as [x Hx]; [unfold len, i in *; lia|].
    rewrite Hx, Ev. by rewrite (nth_lookup_Some _ _ _ _ Hx). }
  destruct (sorted_counts sorted i v Hs Hi) as [C1 C2].
  split; [by eapply list_elem_of_lookup_2|]. unfold i in *. split.
  - assert (r <= len (filter (fun x => x <= v) sorted)) by (unfold len; lia). nia.
  - assert (len (filter (fun x => x < v) sorted) <= r - 1) by (unfold len; lia). nia.
Qed.

Lemma percentile_exact_witness : Percentile [3; 5; 8; 9] (constant 1 2) ∈ [3; 5; 8; 9].
Proof.
  apply (proj2 (percentile_exact [3; 5; 8; 9] (1, 2) ltac:(by left) ltac:(done) ltac:(by repeat constructor))). done.
Defined.

(** ** The report *)

(* go: scripts/ladmetrics/metrics.go:193-210 (Report) *)
Record Report : Type := mkReport {
  Label : bytes; Protocol : bytes; Conns : Z; Size : Z; Duration : Z;
  r_Sent : Z; r_Recv : Z; r_Errs : Z;
  Achieved : float64; Offered : float64;
  Samples : Z; TotalSampl : Z;
  Percentiles : list Z;
  TailRatio : float64;
  Capped : bool;
  r_Series : list Second
}.

(** [Duration.Seconds] *)
Definition Seconds (d : Z) : float64 :=
  fadd (float_of_int (Z.quot d 1000000000)) (fdiv (float_of_int (Z.rem d 1000000000)) (float_of_int 1000000000)).

(* go: scripts/ladmetrics/metrics.go:216-256 (Collector.Summarize) *)
Definition Summarize (c : Collector) (series : list Second) (label protocol : bytes) (conns size : Z) (offered : float64) (dur : Z) :
    Report :=
  let all := merge_sort Z.le (concat (samples <$> c_conns c)) in
  let ps := if 0 <? len all then ((fun ab => Percentile all (constant ab.1 ab.2)) <$> reported) ++ [List.last all 0]
            else [0; 0; 0; 0; 0] in
  mkReport label protocol conns size dur (c_Sent c) (c_Recv c) (c_Errs c)
    (if 0 <? dur then fdiv (float_of_int (c_Recv c)) (Seconds dur) else f0) offered
    (len all) (c_sample c) ps
    (if (0 <? len all) && (0 <? nth 0 ps 0) then fdiv (float_of_int (nth 2 ps 0)) (float_of_int (nth 0 ps 0)) else f0)
    (MaxSamples <? c_sample c) series.

(* go: scripts/ladmetrics/metrics.go:300-305 (OrDash) *)
Definition OrDash (s : bytes) : bytes := match s with [] => [45] | _ => s end.
(* go: scripts/rateclient/main.go:340-345 (orDash) *)
Definition orDash : bytes -> bytes := OrDash.

Lemma nth_sorted (l : list Z) i j :
  StronglySorted Z.le l -> (i <= j < length l)%nat -> nth i l 0 <= nth j l 0.
Proof.
  intros Hs [Hij Hj]. destruct (decide (i = j)) as [->|Hne]; [done|].
  destruct (lookup_lt_is_Some_2 l i ltac:(lia)) as [x Hx]. destruct (lookup_lt_is_Some_2 l j Hj) as [y Hy].
  rewrite (nth_lookup_Some _ _ _ _ Hx), (nth_lookup_Some _ _ _ _ Hy).
  rewrite <- (take_drop_middle l i x Hx) in Hs. apply StronglySorted_app in Hs as (_ & _ & H).
  apply StronglySorted_inv in H as [_ H]. rewrite Forall_forall in H. apply H.
  apply list_elem_of_lookup. exists (j - S i)%nat. rewrite lookup_drop. by replace (S i + (j - S i))%nat with j by lia.
Qed.

(** the summary of a run tells the truth about its samples.  The report of a
    collector has the counters it was given, the number of samples kept, the mark
    that samples are missing exactly when some are, and, with up to a thousand of
    them, percentiles in order: p50, p90, p99, p999 and the largest sample. *)
Theorem summary_exact n xs c series label protocol conns size offered dur
    (H : do_calls xs (NewCollector n) = Returned c) :
  let rep := Summarize c series label protocol conns size offered dur in
  r_Sent rep = c_Sent c /\ r_Recv rep = c_Recv c /\ r_Errs rep = c_Errs c /\
  Samples rep = Z.min (TotalSampl rep) MaxSamples /\
  (Capped rep = true <-> Samples rep < TotalSampl rep) /\
  (Samples rep <= 1000 -> StronglySorted Z.le (Percentiles rep)).
Proof.
  destruct (do_calls_retained xs (NewCollector n) c H) as [Hr H0].
  { unfold retained, NewCollector. cbn [c_conns c_sample]. rewrite fmap_replicate.
    assert (concat (replicate n (samples newConn)) = []) as -> by (clear; by induction n). done. }
  { done. }
  unfold Summarize. cbn [r_Sent r_Recv r_Errs Samples TotalSampl Capped Percentiles].
  set (all := merge_sort Z.le _).
  assert (len all = retained c) as El.
  { unfold len, retained, all. by rewrite (merge_sort_Permutation Z.le). }
  assert (StronglySorted Z.le all) as Hsort by (apply StronglySorted_merge_sort; apply _).
  rewrite El. do 3 (split; [done|]). split; [done|]. split; [rewrite Z.ltb_lt; lia|]. intros Hk.
  destruct (Z.ltb_spec 0 (retained c)) as [Hpos|Hpos]; [|by repeat constructor].
  assert (forall ab, ab ∈ reported ->
    Percentile all (constant ab.1 ab.2) = nth (Z.to_nat (nearest_rank ab.1 ab.2 (len all) - 1)) all 0) as Hp
    by (intros ab Hab; apply Percentile_rank; [done|lia]).
  pose proof (Hp (1, 2) ltac:(unfold reported; set_solver)) as P1. pose proof (Hp (9, 10) ltac:(unfold reported; set_solver)) as P2.
  pose proof (Hp (99, 100) ltac:(unfold reported; set_solver)) as P3. pose proof (Hp (999, 1000) ltac:(unfold reported; set_solver)) as P4.
  cbn [fst snd] in P1, P2, P3, P4. unfold reported. csimpl. cbn [fst snd]. rewrite P1, P2, P3, P4.
  assert (List.last all 0 = nth (length all - 1) all 0) as ->.
  { clear. induction all as [|x [|y l] IH]; [done|done|]. change (List.last (x :: y :: l) 0) with (List.last (y :: l) 0).
    rewrite IH. cbn [length]. by replace (S (S (length l)) - 1)%nat with (S (S (length l) - 1)) by lia. }
  pose proof (nearest_rank_spec 1 2 (len all) ltac:(lia)). pose proof (nearest_rank_spec 9 10 (len all) ltac:(lia)).
  pose proof (nearest_rank_spec 99 100 (len all) ltac:(lia)). pose proof (nearest_rank_spec 999 1000 (len all) ltac:(lia)).
  assert (forall ab, ab ∈ reported -> 1 <= nearest_rank ab.1 ab.2 (len all) <= len all) as Hrk
    by (intros ab Hab; apply rank_range; [by apply reported_ok|lia]).
  pose proof (Hrk (1, 2) ltac:(unfold reported; set_solver)). pose proof (Hrk (9, 10) ltac:(unfold reported; set_solver)).
  pose proof (Hrk (99, 100) ltac:(unfold reported; set_solver)). pose proof (Hrk (999, 1000) ltac:(unfold reported; set_solver)).
  cbn [fst snd] in *. assert (len all = Z.of_nat (length all)) by done.
  assert (forall i j, 0 <= i <= j /\ j <= Z.of_nat (length all) - 1 -> nth (Z.to_nat i) all 0 <= nth (Z.to_nat j) all 0) as Hmono
    by (intros i j Hij; apply nth_sorted; [done|lia]).
  replace (length all - 1)%nat with (Z.to_nat (Z.of_nat (length all) - 1)) by lia.
  repeat constructor; apply Hmono; lia.
Qed.

Lemma summary_exact_witness :
  exists c, do_calls [CMark 1 5; CMark 0 6; CEcho 1 9; CEcho 0 8] (NewCollector 2) = Returned c /\
    Percentiles (Summarize c [] [] [] 2 1 f0 0) = [2; 4; 4; 4; 4] /\
    StronglySorted Z.le (Percentiles (Summarize c [] [] [] 2 1 f0 0)).
Proof.
  destruct (do_calls _ (NewCollector 2)) as [c|] eqn:E; [|by vm_compute in E]. exists c. split; [done|].
  pose proof (summary_exact 2 _ c [] [] [] 2 1 f0 0 E) as H. cbv zeta in H. destruct H as (_ & _ & _ & _ & _ & H).
  vm_compute in E. injection E as <-. split; [vm_compute; reflexivity|]. apply H. vm_compute. congruence.
Defined.

(** ** The rate client's reader *)

(** What a connection delivers until the reader stops: bytes, and the moments at
    which a read deadline passes with nothing there. *)
Definition input : Type := list (option Z).

(** [None] is the deadline, with the bytes already read thrown away; the end of
    the input is an error that is not a timeout. *)
(* go: scripts/rateclient/main.go:328-338 (readFull) *)
Fixpoint readFull (n : nat) (s : input) : option (result unit bytes) * input :=
  match n, s with
  | O, _ => (Some (Ok []), s)
  | S _, [] => (Some (Err tt), [])
  | S _, None :: s => (None, s)
  | S n, Some b :: s =>
      match readFull n s with
      | (Some (Ok p), s) => (Some (Ok (b :: p)), s)
      | r => r
      end
  end.

(** The messages counted, and the input when the reader ends.  An iteration takes
    a byte or a deadline, or returns. *)
(* go: scripts/rateclient/main.go:117-139 (main) *)
Fixpoint reader (fuel : nat) (s : input) : Z * input :=
  match fuel with
  | O => (0, s)
  | S fuel =>
      match readFull 4 s with
      | (None, s) => reader fuel s
      | (Some (Err _), s) => (0, s)
      | (Some (Ok hdr), s) =>
          let n := be_get hdr in
          if 65536 <? n then (0, s)
          else
            match readFull (Z.to_nat n) s with
            | (None, s) => reader fuel s
            | (Some (Err _), s) => (0, s)
            | (Some (Ok _), s) => let '(k, s) := reader fuel s in (k + 1, s)
            end
      end
  end.

Definition received (s : input) : Z := (reader (S (length s)) s).1.

(** The frame the client sends: zeroes under their length. *)
(* go: scripts/rateclient/main.go:59-60 (main) *)
Definition frame (size : Z) : bytes := be_put 4 (u32 size) ++ replicate (Z.to_nat size) 0.

Lemma readFull_app p s : readFull (length p) (map Some p ++ s) = (Some (Ok p), s).
Proof. induction p as [|b p IH]; [by destruct s|]. cbn [length map app readFull]. by rewrite IH. Qed.

Lemma readFull_shrinks n s : (length (readFull n s).2 <= length s)%nat.
Proof.
  revert s. induction n as [|n IH]; intros [|[b|] s]; cbn; try lia. specialize (IH s).
  destruct (readFull n s) as [[[p|]|] s']; cbn in *; lia.
Qed.

Lemma readFull_takes n s : s <> [] -> (0 < n)%nat -> (length (readFull n s).2 < length s)%nat.
Proof.
  intros Hs Hn. destruct n as [|n], s as [|[b|] s]; try done; try lia; [|cbn; lia]. cbn.
  pose proof (readFull_shrinks n s). destruct (readFull n s) as [[[p|]|] s']; cbn in *; lia.
Qed.

(** More fuel than the input has changes nothing. *)
Lemma reader_fuel f g s : (length s < f)%nat -> (length s < g)%nat -> reader f s = reader g s.
Proof.
  revert g s. induction f as [|f IH]; intros [|g] s Hf Hg; try lia. cbn [reader].
  destruct s as [|x s]; [done|]. pose proof (readFull_takes 4 (x :: s) ltac:(done) ltac:(lia)) as Ht.
  destruct (readFull 4 (x :: s)) as [[[hdr|]|] s1]; [|done|apply IH; cbn in *; lia].
  destruct (65536 <? be_get hdr); [done|]. pose proof (readFull_shrinks (Z.to_nat (be_get hdr)) s1).
  destruct (readFull (Z.to_nat (be_get hdr)) s1) as [[[p|]|] s2]; [|done|apply IH; cbn in *; lia].
  rewrite (IH g s2); [done|cbn in *; lia..].
Qed.

Lemma received_frame size s :
  0 <= size <= 65536 -> received (map Some (frame size) ++ s) = received s + 1.
Proof.
  intros Hs. set (R := received s). unfold received, frame. rewrite map_app, <- app_assoc.
  cbn [reader]. replace 4%nat with (length (be_put 4 (u32 size))) at 1 by apply length_be_put. rewrite readFull_app.
  rewrite uwrap_small by lia. rewrite be_get_put_small by (change (256 ^ Z.of_nat 4) with (2 ^ 32); lia).
  rewrite (proj2 (Z.ltb_ge _ _)) by lia.
  replace (Z.to_nat size) with (length (replicate (Z.to_nat size) 0)) at 1 by apply length_replicate. rewrite readFull_app.
  rewrite (reader_fuel _ (S (length s))); [|rewrite !length_app, !length_map, length_be_put; lia|lia].
  unfold R, received. by destruct (reader (S (length s)) s).
Qed.

Lemma received_deadline s : received (None :: s) = received s.
Proof. reflexivity. Qed.

(** Four zeroes are an empty frame. *)
Lemma received_zeroes m s : received (map Some (replicate (4 * m) 0) ++ s) = received s + Z.of_nat m.
Proof.
  induction m as [|m IH]; [rewrite Z.add_0_r; done|].
  replace (4 * S m)%nat with (4 + 4 * m)%nat by lia.
  change (replicate (4 + 4 * m) 0) with (frame 0 ++ replicate (4 * m) 0).
  rewrite map_app, <- app_assoc, received_frame by lia. rewrite IH. lia.
Qed.

(** the rate client counts frames as long as no deadline falls inside one; a
    deadline inside a frame makes it count wrongly.  Echoes with deadlines only
    between them are counted one each.  When the deadline passes with part of the
    payload read, the rest of the payload is read as frames: as the payload is
    zeroes, one frame is counted as a quarter of what was left of it in bytes. *)
Theorem reader_counts (size : Z) (Hs : 0 <= size <= 65536) :
  (forall gaps : list nat,
     received (gaps ≫= (fun g => replicate g None ++ map Some (frame size))) = len gaps) /\
  (forall m s, (0 < m)%nat -> 4 * Z.of_nat m < size ->
     received (map Some (take (4 + Z.to_nat size - 4 * m) (frame size)) ++ None ::
               map Some (drop (4 + Z.to_nat size - 4 * m) (frame size)) ++ s) = received s + Z.of_nat m).
Proof.
  split.
  - intros gaps. induction gaps as [|g gaps IH]; [done|]. cbn [mbind list_bind]. rewrite len_cons, <- app_assoc.
    assert (forall s, received (replicate g None ++ s) = received s) as ->
      by (intros s; induction g as [|g IHg]; [done|]; cbn [replicate app]; by rewrite received_deadline).
    rewrite received_frame by done. match goal with |- ?l + 1 = _ => change l with (received (gaps ≫= (fun g => replicate g None ++ map Some (frame size)))) end.
    rewrite IH. lia.
  - intros m s Hm0 Hm. unfold frame. set (k := (Z.to_nat size - 4 * m)%nat).
    assert ((4 + Z.to_nat size - 4 * m)%nat = (length (be_put 4 (u32 size)) + k)%nat) as ->
      by (rewrite length_be_put; unfold k; lia).
    rewrite take_app_add, drop_app_add.
    rewrite take_replicate, drop_replicate. replace (Z.to_nat size `min` k)%nat with k by lia.
    replace (Z.to_nat size - k)%nat with (4 * m)%nat by lia.
    assert (forall p n t, (length p < n)%nat -> readFull n (map Some p ++ None :: t) = (None, t)) as Hcut.
    { clear. induction p as [|b p IH]; intros [|n] t Hl; cbn in *; try lia; [done|]. by rewrite IH by lia. }
    set (R := received s). unfold received. cbn [reader]. rewrite map_app, <- app_assoc.
    replace 4%nat with (length (be_put 4 (u32 size))) at 1 by apply length_be_put. rewrite readFull_app.
    rewrite uwrap_small by lia. rewrite be_get_put_small by (change (256 ^ Z.of_nat 4) with (2 ^ 32); lia).
    rewrite (proj2 (Z.ltb_ge _ _)) by lia. rewrite Hcut by (rewrite length_replicate; unfold k; lia).
    rewrite (reader_fuel _ (S (length (map Some (replicate (4 * m) 0) ++ s))));
      [unfold R; by apply (received_zeroes m s)| |lia].
    rewrite !length_app, !length_map, length_be_put. rewrite !length_replicate. cbn [length]. rewrite length_app, length_map, length_replicate. lia.
Qed.

(** A frame of 256 bytes of which 56 had come when the deadline passed counts as
    fifty. *)
Lemma reader_counts_witness :
  received (map Some (take 60 (frame 256)) ++ None :: map Some (drop 60 (frame 256)) ++ []) = 50.
Proof. apply (proj2 (reader_counts 256 ltac:(lia)) 50%nat []); lia. Defined.

(** A deadline inside the header ends the connection: the bytes that follow are
    read as a length no buffer holds. *)
Example cut_header : received (map Some (take 2 (frame 256)) ++ None :: map Some (drop 2 (frame 256)) ++ map Some (frame 256)) = 0.
Proof. vm_compute. reflexivity. Qed.
