(* ===== verification/BenchGate.v ===== *)
(** * BenchGate: [scripts/benchgate] (parse.go, main.go) and [scripts/run_benchmarks.go]

    The benchmark gate: the lines of two benchmark runs, the paired ratios with
    their confidence bound, and the verdict that blocks a merge.  Numbers are
    float64, as in [Acceptor]; reading one from text ([strconv.ParseFloat]) is a
    parameter, and so is running the benchmarks.  The tree of the base: the reference
    it is taken at, and the extraction of its archive, which stays below the
    directory whatever the names in it are ([extract_stays_inside]).

    The benchmark runner: its table of groups, what a profile and a stage select of
    it, the gate on the host's resources, and the order of the runs.  Running
    [go test] is a parameter. *)
From Stdlib Require Import SpecFloat.
From S2P Require Import Prelude Bytes Core PeerAddr Quota Acceptor Duration Metrics LoadGen LoadMetrics.
Local Open Scope string_scope.
Local Open Scope Z_scope.
Local Open Scope list_scope.

(** ** Samples *)

(* go: scripts/benchgate/parse.go:21-25 (sample) *)
Record sample : Type := mkSample { nsPerOp : float64; bytesPerOp : float64; allocsPerOp : float64 }.

Definition zero_sample : sample := mkSample f0 f0 f0.

(* go: scripts/benchgate/parse.go:45-60 (median) *)
Definition median (l : list sample) : sample :=
  match l with
  | [] => zero_sample
  | _ =>
      let mid v := nth (length v / 2) v f0 in
      mkSample (mid (Float64s (map nsPerOp l))) (mid (Float64s (map bytesPerOp l))) (mid (Float64s (map allocsPerOp l)))
  end.

Definition lines (out : bytes) : list bytes := split_on 10 [] out.

Section parse.
(** [strconv.ParseFloat(s, 64)]; None for an error. *)
Variable ParseFloat : bytes -> option float64.

(** A value under a unit; the second component: whether the unit is known. *)
Definition set_metric (unit_ : bytes) (value : float64) (st : sample * bool) : option (sample * bool) :=
  let '(s, seen) := st in
  if bool_decide (unit_ = B "ns/op") then Some (mkSample value (bytesPerOp s) (allocsPerOp s), true)
  else if bool_decide (unit_ = B "B/op") then Some (mkSample (nsPerOp s) value (allocsPerOp s), seen)
  else if bool_decide (unit_ = B "allocs/op") then Some (mkSample (nsPerOp s) (bytesPerOp s) value, seen)
  else None.

(** The columns from here on. *)
Fixpoint parse_columns (fields : list bytes) (st : sample * bool) : sample * bool :=
  match fields with
  | v :: (u :: fields'') as fields' =>
      match ParseFloat v with
      | None => parse_columns fields' st
      | Some value =>
          match set_metric u value st with
          | Some st => parse_columns fields'' st
          | None => parse_columns fields' st
          end
      end
  | _ => st
  end.

(* go: scripts/benchgate/parse.go:90-116 (parseBenchLine) *)
Definition parseBenchLine (fields : list bytes) : option sample :=
  let '(s, seen) := parse_columns (drop 1 fields) (zero_sample, false) in if seen then Some s else None.

(* go: scripts/benchgate/parse.go:118-125 (stripProcs) *)
Definition stripProcs (name : bytes) : bytes :=
  match LastIndexByte 45 name with
  | Some (S i as idx) => match Atoi (drop (S idx) name) with Some _ => take idx name | None => name end
  | _ => name
  end.

(** The measurement of a line, if it is one. *)
Definition line_sample (line : bytes) : option (bytes * sample) :=
  let fields := Fields line in
  match fields with
  | name :: _ =>
      if (length fields <? 4)%nat || negb (has_prefix (B "Benchmark") name) then None
      else s ← parseBenchLine fields; Some (stripProcs name, s)
  | [] => None
  end.

Definition collect (m : gmap bytes (list sample)) (p : bytes * sample) : gmap bytes (list sample) :=
  <[p.1 := default [] (m !! p.1) ++ [p.2]]> m.

(* go: scripts/benchgate/parse.go:62-80 (parseBenchOutput) *)
Definition parseBenchOutput (out : bytes) : gmap bytes (list sample) := fold_left collect (omap line_sample (lines out)) ∅.

(** ** What was measured *)

Definition count_line (st : gmap bytes Z * bytes) (line : bytes) : gmap bytes Z * bytes :=
  let '(counts, pkg) := st in
  if has_prefix (B "pkg: ") line then (counts, TrimSpace (drop 5 line))
  else if negb (bool_decide (pkg = [])) && has_prefix (B "Benchmark") line then
    (<[pkg := default 0 (counts !! pkg) + 1]> counts, pkg)
  else (counts, pkg).

(* go: scripts/benchgate/parse.go:128-141 (benchmarksPerPackage) *)
Definition benchmarksPerPackage (out : bytes) : gmap bytes Z := (fold_left count_line (lines out) (∅, [])).1.

(** The packages of [a] without a benchmark in [b]. *)
Definition lacking (a b : gmap bytes Z) : list (bytes * Z) :=
  filter (fun p => default 0 (b !! p.1) = 0) (map_to_list a).

(* go: scripts/benchgate/parse.go:156-169 (missingMeasurements) *)
Definition missingMeasurements (baseOut headOut : bytes) : list (bytes * Z) :=
  lacking (benchmarksPerPackage baseOut) (benchmarksPerPackage headOut).

(* go: scripts/benchgate/parse.go:174-184 (unmeasuredIsNew) *)
Definition unmeasuredIsNew (baseOut headOut : bytes) : list (bytes * Z) :=
  lacking (benchmarksPerPackage headOut) (benchmarksPerPackage baseOut).

(** ** The paired ratio *)

(* go: scripts/benchgate/parse.go:191-191 (minSamples) *)
Definition minSamples : Z := 3.

(* go: scripts/benchgate/parse.go:195-202 (pairedRatio) *)
Record pairedRatio : Type := mkRatio { mean : float64; half : float64; r_n : Z }.

(* go: scripts/benchgate/parse.go:206-206 (lower) *)
Definition lower (p : pairedRatio) : float64 := fsub (mean p) (half p).

(* go: scripts/benchgate/parse.go:228-230 (fails) *)
Definition fails (threshold : float64) (p : pairedRatio) : bool := (minSamples <=? r_n p) && fltb threshold (lower p).

(* go: scripts/benchgate/parse.go:276-281 (tCriticalTable) *)
Definition tCriticalTable : list float64 :=
  map (fun n => fl n 1000)
    [0; 6314; 2920; 2353; 2132; 2015; 1943; 1895; 1860; 1833;
     1812; 1796; 1782; 1771; 1761; 1753; 1746; 1740; 1734; 1729;
     1725; 1721; 1717; 1714; 1711; 1708; 1706; 1704; 1701; 1699;
     1697].

(* go: scripts/benchgate/parse.go:283-291 (tCritical) *)
Definition tCritical (df : Z) : float64 :=
  if df <? 1 then nth 1 tCriticalTable f0
  else if len tCriticalTable <=? df then fl 1645 1000
  else nth (Z.to_nat df) tCriticalTable f0.

Definition fsqrt : float64 -> float64 := SFsqrt 53 1024.

(** The ratios of the pairs, or None at a base that is not positive. *)
Fixpoint ratios (pairs : list (sample * sample)) : option (list float64) :=
  match pairs with
  | [] => Some []
  | (b, h) :: pairs =>
      if fleb (nsPerOp b) f0 then None
      else r ← ratios pairs; Some (fdiv (nsPerOp h) (nsPerOp b) :: r)
  end.

(* go: scripts/benchgate/parse.go:239-267 (pairedRatioOf) *)
Definition pairedRatioOf (base head_ : list sample) : pairedRatio :=
  let pairs := zip base head_ in
  let n := len pairs in
  if n =? 0 then mkRatio f1 f0 0
  else
    match ratios pairs with
    | None => mkRatio f1 f0 n
    | Some rs =>
        let m := fdiv (fold_left fadd rs f0) (float_of_int n) in
        if n <? 2 then mkRatio m f0 n
        else
          let sq := fold_left (fun acc r => fadd acc (fmul (fsub r m) (fsub r m))) rs f0 in
          let se := fdiv (fsqrt (fdiv sq (float_of_int (n - 1)))) (fsqrt (float_of_int n)) in
          mkRatio m (fmul (tCritical (n - 1)) se) n
    end.
End parse.

(** ** The comparison *)

(* go: scripts/benchgate/parse.go:293-299 (row) *)
Record row : Type := mkRow { rw_name : bytes; rw_base : sample; rw_head : sample; rw_ratio : pairedRatio; rw_exempt : bool }.

(** The order of the report: the highest mean first, then by name. *)
Definition row_before (x y : row) : bool :=
  if feqb (mean (rw_ratio x)) (mean (rw_ratio y)) then bytes_less (rw_name x) (rw_name y)
  else fltb (mean (rw_ratio y)) (mean (rw_ratio x)).

Fixpoint insert_row (x : row) (l : list row) : list row :=
  match l with
  | [] => [x]
  | y :: l' => if row_before y x then y :: insert_row x l' else x :: l
  end.

(* go: scripts/benchgate/parse.go:301-307 (comparison) *)
Record comparison : Type := mkComparison { threshold : float64; rows : list row; onlyHead : list bytes; onlyBase : list bytes }.

Definition compare_row (base : gmap bytes (list sample)) (exempt : gset bytes) (p : bytes * list sample) : option row :=
  b ← base !! p.1;
  Some (mkRow p.1 (median b) (median p.2) (pairedRatioOf b p.2) (bool_decide (p.1 ∈ exempt))).

(* go: scripts/benchgate/parse.go:309-339 (compare) *)
Definition compare (base head_ : gmap bytes (list sample)) (threshold : float64) (exempt : gset bytes) : comparison :=
  mkComparison threshold
    (foldr insert_row [] (omap (compare_row base exempt) (map_to_list head_)))
    (map fst (filter (fun p : bytes * list sample => base !! p.1 = None) (map_to_list head_)))
    (map fst (filter (fun p : bytes * list sample => head_ !! p.1 = None) (map_to_list base))).

Inductive failure : Type := Slower (name : bytes) | Allocates (name : bytes).

Definition more_allocs (r : row) : bool := fltb (allocsPerOp (rw_base r)) (allocsPerOp (rw_head r)).

Definition row_failures (t : float64) (r : row) : list failure :=
  if rw_exempt r then []
  else (if fails t (rw_ratio r) then [Slower (rw_name r)] else []) ++ (if more_allocs r then [Allocates (rw_name r)] else []).

(* go: scripts/benchgate/parse.go:348-364 (failures) *)
Definition failures (c : comparison) : list failure := rows c ≫= row_failures (threshold c).

(* go: scripts/benchgate/parse.go:366-366 (failed) *)
Definition failed (c : comparison) : bool := match failures c with [] => false | _ => true end.

(* go: scripts/benchgate/parse.go:369-377 (inconclusive) *)
Definition inconclusive (c : comparison) : Z :=
  len (List.filter (fun r => negb (rw_exempt r) && (r_n (rw_ratio r) <? minSamples)) (rows c)).

Inductive verdict : Type := VOk | VNotJudged (n : Z) | VExempt | VFail.

(** The verdict column of the report. *)
(* go: scripts/benchgate/parse.go:391-400 (markdown) *)
Definition row_verdict (t : float64) (r : row) : verdict :=
  if r_n (rw_ratio r) <? minSamples then VNotJudged (r_n (rw_ratio r))
  else if rw_exempt r then VExempt
  else if fails t (rw_ratio r) || more_allocs r then VFail
  else VOk.

(** ** The gate *)

Section gate.
Variable ParseFloat : bytes -> option float64.

(** The names of [-allow]. *)
Definition allow_names (allow : bytes) : gset bytes :=
  list_to_set (List.filter (fun n => negb (bool_decide (n = []))) (map TrimSpace (split_on 44 [] allow))).

(** The command line. *)
Record gate_args : Type := mkArgs { g_count : Z; g_threshold : float64; g_allow : bytes }.

(** What the sides printed; None if something around them failed: a directory,
    git, a build, a benchmark run, a file. *)
Definition measured : Type := option (bytes * bytes).

(* go: scripts/benchgate/main.go:173-203 (gate) *)
Definition judge (a : gate_args) (baseOut headOut : bytes) : Z :=
  match missingMeasurements baseOut headOut with
  | _ :: _ => 2
  | [] =>
      let baseRuns := parseBenchOutput ParseFloat baseOut in
      let headRuns := parseBenchOutput ParseFloat headOut in
      if bool_decide (headRuns = ∅) then 2
      else if failed (compare baseRuns headRuns (g_threshold a) (allow_names (g_allow a))) then 1
      else 0
  end.

(** The exit code. *)
(* go: scripts/benchgate/main.go:98-204 (gate) *)
Definition gate (a : gate_args) (m : measured) : Z :=
  if g_count a <? 1 then 2
  else if fleb (g_threshold a) f1 then 2
  else match m with None => 2 | Some (baseOut, headOut) => judge a baseOut headOut end.

(** ** Alternating runs *)

Inductive side : Type := Base | Head.
Definition swap (s : side) : side := match s with Base => Head | Head => Base end.

(** The runs of one package, in order. *)
(* go: scripts/benchgate/main.go:236-254 (runPair) *)
Definition suite_runs (count : nat) : list side :=
  seq 0 count ≫= (fun i => if Nat.odd i then [Head; Base] else [Base; Head]).

(** [runOnce side pkg k] is the output of the [k]-th run of all; the outputs of
    both sides. *)
Fixpoint run_all (runOnce : side -> bytes -> nat -> bytes) (pkg : bytes) (k : nat) (sides : list side) : bytes * bytes :=
  match sides with
  | [] => ([], [])
  | s :: sides =>
      let got := runOnce s pkg k in
      let '(b, h) := run_all runOnce pkg (S k) sides in
      match s with Base => (got ++ b, h) | Head => (b, got ++ h) end
  end.

End gate.

Lemma omap_snoc {A C} (f : A -> option C) l x : omap f (l ++ [x]) = omap f l ++ match f x with Some y => [y] | None => [] end.
Proof. rewrite omap_app. f_equal. Qed.

(** ** What the parser reads *)

Section reading.
Variable ParseFloat : bytes -> option float64.

(** A column: a value as written, its number, and its unit. *)
Definition column : Type := bytes * float64 * bytes.
Definition column_fields (c : column) : list bytes := [c.1.1; c.2].

(** The latest value under a unit. *)
Definition value_of (unit_ : bytes) (cs : list column) : option float64 :=
  last (omap (fun c : column => if decide (c.2 = unit_) then Some c.1.2 else None) cs).

Definition column_ok (c : column) : Prop := ParseFloat c.1.1 = Some c.1.2 /\ ParseFloat c.2 = None.

(** Known units are no numbers. *)
Definition units_ok : Prop := Forall (fun u => ParseFloat u = None) [B "ns/op"; B "B/op"; B "allocs/op"].

Definition read_columns (st : sample * bool) (cs : list column) : sample * bool :=
  fold_left (fun st (c : column) => default st (set_metric c.2 c.1.2 st)) cs st.

Lemma parse_columns_read cs st :
  Forall column_ok cs -> parse_columns ParseFloat (cs ≫= column_fields) st = read_columns st cs.
Proof.
  intros H. revert st. induction H as [|[[v x] u] cs [Hv Hu] _ IH]; intros st; [done|]. cbn [fst snd] in *.
  change ((((v, x, u) :: cs) ≫= column_fields)) with (v :: u :: (cs ≫= column_fields)).
  cbn [parse_columns]. rewrite Hv. unfold read_columns in *. cbn [fold_left fst snd].
  destruct (set_metric u x st) as [st'|] eqn:E; cbn [default]; [apply IH|].
  destruct (cs ≫= column_fields) as [|v' fs] eqn:Ef.
  - specialize (IH st). cbn in IH. by rewrite <- IH.
  - cbn [parse_columns]. rewrite Hu. rewrite <- IH. done.
Qed.

Lemma read_columns_spec cs s seen :
  read_columns (s, seen) cs =
  (mkSample (default (nsPerOp s) (value_of (B "ns/op") cs)) (default (bytesPerOp s) (value_of (B "B/op") cs))
     (default (allocsPerOp s) (value_of (B "allocs/op") cs)),
   seen || bool_decide (is_Some (value_of (B "ns/op") cs))).
Proof.
  unfold read_columns, value_of. induction cs as [|[[v x] u] cs IH] using rev_ind.
  - cbn. rewrite orb_false_r. by destruct s.
  - rewrite fold_left_app, IH. cbn [fold_left fst snd]. rewrite !omap_app. cbn [omap list_omap fst snd]. unfold set_metric.
    destruct (decide (u = B "ns/op")) as [->|N1]; [|rewrite (bool_decide_eq_false_2 _ N1)].
    { cbn. rewrite last_snoc, !app_nil_r. cbn. by rewrite orb_true_r. }
    destruct (decide (u = B "B/op")) as [->|N2]; [|rewrite (bool_decide_eq_false_2 _ N2)].
    { cbn. by rewrite last_snoc, !app_nil_r. }
    destruct (decide (u = B "allocs/op")) as [->|N3]; [|rewrite (bool_decide_eq_false_2 _ N3)].
    { cbn. by rewrite last_snoc, !app_nil_r. }
    cbn. by rewrite !app_nil_r.
Qed.

(** A result line is read column by column: whatever the iteration count is
    and whatever columns it has, in whatever order, each metric is the value
    written before its unit, an unknown column shifts nothing, and the line
    counts if it has an ns/op. *)
Theorem bench_line_exact name iterations cs :
  units_ok -> Forall column_ok cs ->
  parseBenchLine ParseFloat (name :: iterations :: (cs ≫= column_fields)) =
  (fun ns => mkSample ns (default f0 (value_of (B "B/op") cs)) (default f0 (value_of (B "allocs/op") cs)))
    <$> value_of (B "ns/op") cs.
Proof.
  intros Hu Hcs. unfold parseBenchLine. cbn [drop].
  assert (parse_columns ParseFloat (iterations :: (cs ≫= column_fields)) (zero_sample, false) = read_columns (zero_sample, false) cs) as ->.
  { rewrite <- parse_columns_read by done. destruct Hcs as [|[[v x] u] cs [Hv _] _]; [done|]. cbn [fst snd] in *.
    change ((((v, x, u) :: cs) ≫= column_fields)) with (v :: u :: (cs ≫= column_fields)).
    assert (forall value, set_metric v value (zero_sample, false) = None) as Hn.
    { intros value. unfold set_metric. unfold units_ok in Hu. rewrite !Forall_cons in Hu. destruct Hu as (H1 & H2 & H3 & _).
      rewrite !bool_decide_eq_false_2; [done|by intros ->; congruence..]. }
    cbn [parse_columns]. destruct (ParseFloat iterations) as [y|]; [by rewrite Hn|done]. }
  rewrite read_columns_spec. unfold zero_sample. cbn [nsPerOp bytesPerOp allocsPerOp orb].
  destruct (value_of (B "ns/op") cs) as [ns|]; [|done]. by rewrite bool_decide_eq_true_2 by by eexists.
Qed.

(** The samples of a benchmark in an output, in order. *)
Definition samples_of (name : bytes) (out : bytes) : list sample :=
  omap (fun line => p ← line_sample ParseFloat line; if decide (p.1 = name) then Some p.2 else None) (lines out).

(** Every measured line of an output is kept, under its benchmark, in the
    order of measurement, which is what pairs the sides' samples. *)
Theorem bench_output_exact out name :
  parseBenchOutput ParseFloat out !! name = match samples_of name out with [] => None | l => Some l end.
Proof.
  unfold parseBenchOutput, samples_of. generalize (lines out). intros ls. induction ls as [|l ls IH] using rev_ind; [done|].
  rewrite !omap_snoc, fold_left_app. destruct (line_sample ParseFloat l) as [[n s]|]; cbn [fold_left mbind option_bind fst snd].
  - unfold collect at 1. cbn [fst snd]. destruct (decide (n = name)) as [->|N].
    + rewrite lookup_insert_eq, IH. match goal with |- context [omap ?f ls] => by destruct (omap f ls) end.
    + rewrite lookup_insert_ne by done. by rewrite app_nil_r.
  - by rewrite app_nil_r.
Qed.
End reading.

(** ** The median *)

Lemma insert_float_perm x l : insert_float x l ≡ₚ x :: l.
Proof.
  induction l as [|y l IH]; [done|]. cbn [insert_float]. destruct (sort_before y x); [|done].
  rewrite IH. apply perm_swap.
Qed.

Lemma Float64s_perm l : Float64s l ≡ₚ l.
Proof. induction l as [|x l IH]; [done|]. unfold Float64s in *. cbn [foldr]. by rewrite insert_float_perm, IH. Qed.

(** How many of the values are above a bound. *)
Definition above (t : float64) (l : list float64) : nat := length (filter (fun x => fltb t x = true) l).

Lemma fltb_rung t a b : fltb t a = true -> rung a b -> fltb t b = true.
Proof.
  intros Ha [Hn|Hr].
  - apply isNaN_rank in Hn. exfalso. by destruct a as [[]|[]| |[] ? ?], t as [[]|[]| |[] ? ?].
  - apply fleb_rank in Hr as (x & y & Hx & Hy & L).
    destruct (rank t) as [z|] eqn:Hz.
    + apply (fltb_rank t b z y Hz Hy). intros L'. apply (proj1 (fltb_rank t a z x Hz Hx) Ha).
      destruct x as [[x1 x2] x3], y as [[y1 y2] y3], z as [[z1 z2] z3]. cbn in *. lia.
    + exfalso. destruct t as [[]|[]| |[] ? ?]; done.
Qed.

(** In a sorted list, the values above a bound are the last ones. *)
Lemma above_sorted t l i :
  ladder l -> (i < length l)%nat -> fltb t (nth i l f0) = (length l - i <=? above t l)%nat.
Proof.
  intros H. revert i. induction H as [|a l Hl IH Ha]; intros i Hi; [cbn in Hi; lia|].
  unfold above in *. rewrite filter_cons. destruct (decide (fltb t a = true)) as [Et|Et].
  - assert (filter (fun x => fltb t x = true) l = l) as ->.
    { clear IH Hi. induction Ha as [|b l Hb Ha IHl]; [done|]. inversion Hl; subst. rewrite filter_cons, decide_True by by eapply fltb_rung.
      f_equal. by apply IHl. }
    cbn [length]. replace (S (length l) - i <=? S (length l))%nat with true by (symmetry; apply Nat.leb_le; lia).
    destruct i as [|i]; [done|]. cbn [nth]. cbn in Hi. rewrite Forall_forall in Ha. eapply fltb_rung; [exact Et|]. apply Ha.
    apply list_elem_of_In, nth_In. lia.
  - destruct i as [|i]; cbn [nth length].
    + rewrite (not_true_is_false _ Et). symmetry. apply Nat.leb_gt. pose proof (length_filter (fun x => fltb t x = true) l). lia.
    + cbn in Hi. rewrite IH by lia. by replace (S (length l) - S i)%nat with (length l - i)%nat by lia.
Qed.

(** The allocation check compares upper medians, so it does what its comment
    says: a benchmark's median is above a bound exactly if at least half of its
    samples are - an allocation on half of the iterations counts, one on fewer
    does not. *)
Theorem median_allocs t l :
  l <> [] -> fltb t (allocsPerOp (median l)) = (length l - length l / 2 <=? above t (map allocsPerOp l))%nat.
Proof.
  intros Hn. unfold median. destruct l as [|s l]; [done|]. cbn [allocsPerOp]. set (v := map allocsPerOp (s :: l)).
  assert (length (Float64s v) = length (s :: l)) as El by (rewrite Float64s_perm; unfold v; by rewrite length_map).
  rewrite El, above_sorted; [|apply Float64s_ladder|].
  - rewrite El. f_equal. unfold above. by rewrite Float64s_perm.
  - rewrite El. apply Nat.div_lt; cbn; lia.
Qed.

(** ** The verdict *)

Lemma insert_row_perm x l : insert_row x l ≡ₚ x :: l.
Proof.
  induction l as [|y l IH]; [done|]. cbn [insert_row]. destruct (row_before y x); [|done]. rewrite IH. apply perm_swap.
Qed.

Lemma sorted_rows l : foldr insert_row [] l ≡ₚ l.
Proof. induction l as [|x l IH]; [done|]. cbn [foldr]. by rewrite insert_row_perm, IH. Qed.

Lemma compare_rows base head_ t exempt r :
  r ∈ rows (compare base head_ t exempt) <->
  exists name bs hs, base !! name = Some bs /\ head_ !! name = Some hs /\
    r = mkRow name (median bs) (median hs) (pairedRatioOf bs hs) (bool_decide (name ∈ exempt)).
Proof.
  cbn [compare rows]. rewrite sorted_rows, list_elem_of_omap. split.
  - intros ([name hs] & Hin & E). apply elem_of_map_to_list in Hin. unfold compare_row in E. cbn [fst snd] in E.
    destruct (base !! name) as [bs|] eqn:Eb; [|done]. cbn in E. injection E as <-. by exists name, bs, hs.
  - intros (name & bs & hs & Eb & Eh & ->). exists (name, hs). split; [by apply elem_of_map_to_list|].
    unfold compare_row. cbn [fst snd]. by rewrite Eb.
Qed.

(** A row does not block. *)
Definition passes (t : float64) (bs hs : list sample) : Prop :=
  fails t (pairedRatioOf bs hs) = false /\ fltb (allocsPerOp (median bs)) (allocsPerOp (median hs)) = false.

Lemma failed_false base head_ t exempt :
  failed (compare base head_ t exempt) = false <->
  forall name bs hs, base !! name = Some bs -> head_ !! name = Some hs -> name ∈ exempt \/ passes t bs hs.
Proof.
  transitivity (Forall (fun r => row_failures t r = []) (rows (compare base head_ t exempt))).
  - unfold failed, failures. cbn [threshold compare]. generalize (rows (compare base head_ t exempt)). intros l.
    induction l as [|r l IH]; [done|]. rewrite Forall_cons, <- IH. csimpl. destruct (row_failures t r); [|split; [done|by intros [? _]]].
    cbn. split; [by auto|by intros [_ ?]].
  - rewrite Forall_forall. split.
    + intros H name bs hs Eb Eh. specialize (H _ (proj2 (compare_rows base head_ t exempt _) ltac:(by exists name, bs, hs))).
      unfold row_failures, more_allocs in H. cbn in H. case_bool_decide as Hx; [by left|right]. unfold passes.
      destruct (fails _ _); [done|]. by destruct (fltb _ _).
    + intros H r (name & bs & hs & Eb & Eh & ->)%compare_rows. unfold row_failures, more_allocs. cbn.
      destruct (H _ _ _ Eb Eh) as [Hx|[H1 H2]]; [by rewrite bool_decide_eq_true_2|].
      rewrite H1, H2. by case_bool_decide.
Qed.

Lemma missing_nil b h :
  missingMeasurements b h = [] <->
  forall pkg n, benchmarksPerPackage b !! pkg = Some n -> default 0 (benchmarksPerPackage h !! pkg) <> 0.
Proof.
  unfold missingMeasurements, lacking. split.
  - intros E pkg n Hn Hz. eapply (not_elem_of_nil (pkg, n)). rewrite <- E. apply list_elem_of_filter. split; [done|]. by apply elem_of_map_to_list.
  - intros H. apply elem_of_nil_inv. intros [pkg n] [Hz Hin]%list_elem_of_filter. apply elem_of_map_to_list in Hin. by eapply H.
Qed.

(** The gate passes exactly if there is something to judge and nothing to
    block: the arguments make sense and every run worked; every package measured
    at the base was measured at the head, which has results; and every benchmark
    measured on both sides, unless exempt, is neither slower than the limit at
    the pessimistic end of its interval (with three samples or more) nor
    allocates more in the median. *)
Theorem gate_passes_exactly ParseFloat a m :
  gate ParseFloat a m = 0 <->
  1 <= g_count a /\ fleb (g_threshold a) f1 = false /\
  exists baseOut headOut, m = Some (baseOut, headOut) /\
    (forall pkg n, benchmarksPerPackage baseOut !! pkg = Some n -> default 0 (benchmarksPerPackage headOut !! pkg) <> 0) /\
    parseBenchOutput ParseFloat headOut <> ∅ /\
    forall name bs hs, parseBenchOutput ParseFloat baseOut !! name = Some bs -> parseBenchOutput ParseFloat headOut !! name = Some hs ->
      name ∈ allow_names (g_allow a) \/ passes (g_threshold a) bs hs.
Proof.
  unfold gate. destruct (Z.ltb_spec (g_count a) 1); [split; [done|]; intros (? & _); lia|].
  destruct (fleb (g_threshold a) f1); [split; [done|]; by intros (_ & ? & _)|].
  destruct m as [[b h]|]; [|split; [done|]; by intros (_ & _ & ? & ? & ? & _)].
  unfold judge.
  split.
  - intros E. split; [done|]. split; [done|]. exists b, h. split; [done|].
    destruct (missingMeasurements b h) eqn:Em; [|done]. pose proof (proj1 (missing_nil b h) Em). split; [done|].
    case_bool_decide as Hh; [done|]. split; [done|]. apply failed_false. by destruct (failed _).
  - intros (_ & _ & b' & h' & [= <- <-] & Hm & Hh & Hf). rewrite (proj2 (missing_nil b h) Hm).
    rewrite bool_decide_eq_false_2 by done. by rewrite (proj2 (failed_false _ _ _ _) Hf).
Qed.

(** ** The schedule *)

Lemma run_all_app runOnce pkg k l1 l2 :
  run_all runOnce pkg k (l1 ++ l2) =
  ((run_all runOnce pkg k l1).1 ++ (run_all runOnce pkg (k + length l1) l2).1,
   (run_all runOnce pkg k l1).2 ++ (run_all runOnce pkg (k + length l1) l2).2).
Proof.
  revert k. induction l1 as [|s l1 IH]; intros k; cbn [app run_all length].
  - rewrite Nat.add_0_r. by destruct (run_all runOnce pkg k l2).
  - rewrite IH, Nat.add_succ_comm. destruct (run_all runOnce pkg (S k) l1) as [b h]. by destruct s; cbn; rewrite ?app_assoc.
Qed.

Lemma suite_runs_snoc n : suite_runs (S n) = suite_runs n ++ (if Nat.odd n then [Head; Base] else [Base; Head]).
Proof. unfold suite_runs. rewrite seq_S, bind_app. cbn. by rewrite app_nil_r. Qed.

Lemma suite_runs_length n : length (suite_runs n) = (2 * n)%nat.
Proof. induction n as [|n IH]; [done|]. rewrite suite_runs_snoc, length_app, IH. destruct (Nat.odd n); cbn; lia. Qed.

(** The sides are sampled alternately: the output of a package holds for each
    side its runs in order, run [i] of the base and run [i] of the head being
    neighbours among all runs made, and who of the two goes first alternates. *)
Theorem runs_alternate runOnce pkg k count :
  run_all runOnce pkg k (suite_runs count) =
  (seq 0 count ≫= (fun i => runOnce Base pkg (k + 2 * i + (if Nat.odd i then 1 else 0))%nat),
   seq 0 count ≫= (fun i => runOnce Head pkg (k + 2 * i + (if Nat.odd i then 0 else 1))%nat)).
Proof.
  induction count as [|n IH]; [done|]. rewrite suite_runs_snoc, run_all_app, IH, suite_runs_length, seq_S, !bind_app.
  cbn [fst snd]. csimpl. destruct (Nat.odd n); cbn [run_all fst snd]; rewrite !app_nil_r;
    by rewrite ?Nat.add_0_r, ?Nat.add_1_r.
Qed.

(** ** Examples and witnesses *)

(** A reader of plain decimal integers. *)
Definition parse_int (s : bytes) : option float64 := float_of_int <$> Atoi s.

Definition line (name : string) (ns allocs : string) : bytes :=
  B name ++ B "  1000  " ++ B ns ++ B " ns/op  25 MB/s  0 B/op  " ++ B allocs ++ B " allocs/op" ++ [10].

(** Three samples a side; the head twice as slow. *)
Definition three (name ns allocs : string) : bytes :=
  B "pkg: p" ++ [10] ++ line name ns allocs ++ line name ns allocs ++ line name ns allocs.

Definition default_args (allow : string) : gate_args := mkArgs 6 (fl 120 100) (B allow).

Example gate_codes :
  gate parse_int (default_args "") (Some (three "BenchmarkX-8" "100" "0", three "BenchmarkX-8" "200" "0")) = 1 /\
  gate parse_int (default_args "") (Some (three "BenchmarkX-8" "100" "0", three "BenchmarkX-8" "110" "0")) = 0 /\
  gate parse_int (default_args "") (Some (three "BenchmarkX-8" "100" "0", three "BenchmarkX-8" "100" "1")) = 1 /\
  gate parse_int (default_args "") (Some (three "BenchmarkX-8" "100" "0", B "pkg: p" ++ [10])) = 2.
Proof. by vm_compute. Qed.

(** The exemption of [-allow], documented for ns/op, covers allocations too. *)
Example exemption_covers_allocations :
  gate parse_int (default_args "BenchmarkX") (Some (three "BenchmarkX-8" "100" "0", three "BenchmarkX-8" "100" "5")) = 0.
Proof. by vm_compute. Qed.

(** With one processor names have no suffix, and two sub-benchmarks whose names end
    in a number are taken for one. *)
Example subbenchmarks_merge :
  (fun l => map nsPerOp l) <$>
    parseBenchOutput parse_int (line "BenchmarkX/size-8" "10" "0" ++ line "BenchmarkX/size-64" "90" "0") !! B "BenchmarkX/size"
  = Some [float_of_int 10; float_of_int 90].
Proof. by vm_compute. Qed.

(** A benchmark with too few samples that blocks for its allocations is shown as
    not judged. *)
Example verdict_hides_allocation :
  let s n := mkSample f1 f0 (float_of_int n) in
  let r := mkRow (B "X") (s 0) (s 1) (pairedRatioOf [s 0] [s 1]) false in
  row_failures (fl 120 100) r = [Allocates (B "X")] /\ row_verdict (fl 120 100) r = VNotJudged 1.
Proof. by vm_compute. Qed.

(** A base without a time is a pass at any slowdown. *)
Example zero_base_passes :
  fails (fl 120 100) (pairedRatioOf (replicate 3 zero_sample) (replicate 3 (mkSample (float_of_int 1000000) f0 f0))) = false.
Proof. by vm_compute. Qed.

Definition ns_column : column := (B "512", float_of_int 512, B "ns/op").

Lemma bench_line_exact_witness :
  parseBenchLine parse_int [B "BenchmarkX"; B "2000"; B "512"; B "ns/op"] = Some (mkSample (float_of_int 512) f0 f0).
Proof.
  refine (eq_trans (bench_line_exact parse_int (B "BenchmarkX") (B "2000") [ns_column] _ _) _);
    [repeat constructor|repeat constructor|reflexivity].
Defined.

Lemma median_allocs_witness : fltb f0 (allocsPerOp (median [zero_sample; mkSample f1 f1 f1])) = true.
Proof. rewrite (median_allocs f0 [zero_sample; mkSample f1 f1 f1]); [reflexivity|discriminate]. Defined.

(** * The benchmark runner: [scripts/run_benchmarks.go] *)

Definition ms : Z := 1000000.
Definition sec : Z := 1000000000.

(* go: scripts/run_benchmarks.go:26-39 (benchmarkGroup) *)
Record benchmarkGroup : Type := mkGroup {
  g_name : string; g_pattern : string; g_packages : list string; g_benchtime : Z; g_timeout : Z;
  g_cloud : bool; g_medium : bool; g_iterations : string
}.

(* go: scripts/run_benchmarks.go:128-346 (allBenchmarkGroups) *)
Definition allBenchmarkGroups : list benchmarkGroup :=
  [mkGroup "core-smoke" "BenchmarkSessionManager|BenchmarkPluginChain" ["./tests/benchmark"] (100 * ms) (120 * sec) true false "";
   mkGroup "coap-smoke" "BenchmarkMessageParse|BenchmarkMessageMarshal" ["./internal/transport/coap"] (100 * ms) (120 * sec) true false "";
   mkGroup "tcp-udp-light" "BenchmarkTCPEcho$|BenchmarkUDPEcho$" ["./tests/benchmark"] (300 * ms) (180 * sec) true false "";
   mkGroup "http-ws-light" "BenchmarkHTTPEcho$|BenchmarkWSEcho$" ["./tests/benchmark"] (300 * ms) (180 * sec) true false "";
   mkGroup "core-medium" "BenchmarkSessionManager|BenchmarkPluginChain|BenchmarkMessageParse|BenchmarkMessageMarshal" ["./tests/benchmark"; "./internal/transport/coap"] (1000 * ms) (180 * sec) true true "";
   mkGroup "payload-size-light" "BenchmarkTCPEcho_PayloadSize|BenchmarkUDPEcho_PayloadSize|BenchmarkWSEcho_PayloadSize" ["./tests/benchmark"] (200 * ms) (240 * sec) true false "";
   mkGroup "payload-size-http-grpc-light" "BenchmarkHTTPEcho_PayloadSize|BenchmarkGRPCWebEcho_PayloadSize" ["./tests/benchmark"] (200 * ms) (240 * sec) true false "";
   mkGroup "payload-size-medium" "BenchmarkQUICEcho_PayloadSize" ["./tests/benchmark"] (100 * ms) (300 * sec) true true "";
   mkGroup "concurrent-tcp-udp-light" "BenchmarkTCPEcho_Concurrent|BenchmarkUDPEcho_Concurrent" ["./tests/benchmark"] (200 * ms) (240 * sec) true false "";
   mkGroup "concurrent-ws-http-light" "BenchmarkWSEcho_Concurrent|BenchmarkHTTPEcho_Concurrent" ["./tests/benchmark"] (200 * ms) (240 * sec) true false "";
   mkGroup "concurrent-grpc-medium" "BenchmarkGRPCWebEcho_Concurrent" ["./tests/benchmark"] (200 * ms) (240 * sec) true true "";
   mkGroup "plugins-light" "BenchmarkPluginChain_Blacklist$|BenchmarkPluginChain_RateLimit$" ["./tests/benchmark"] (200 * ms) (120 * sec) true false "";
   mkGroup "plugins-medium" "BenchmarkPluginChain_BlacklistRateLimit|BenchmarkPluginChain_FullChain" ["./tests/benchmark"] (1000 * ms) (180 * sec) true true "";
   mkGroup "plugins-udp-ws-medium" "BenchmarkPluginChain_(Blacklist|RateLimit|FullChain)_(UDP|WS)" ["./tests/benchmark"] (1000 * ms) (180 * sec) true true "";
   mkGroup "concurrent-quic-medium" "BenchmarkQUICEcho_Concurrent" ["./tests/benchmark"] (200 * ms) (300 * sec) false true "";
   mkGroup "resource-idle-footprint" "BenchmarkTCPIdleConnectionFootprint" ["./tests/benchmark"] (1) (900 * sec) true true "1x";
   mkGroup "resource-allocation" "BenchmarkReadLoopFrameAllocation|BenchmarkSendCopy|BenchmarkFrameSplitAcrossSegments" ["./tests/benchmark"] (300 * ms) (300 * sec) true true "";
   mkGroup "broadcast" "BenchmarkBroadcastFanOut" ["./tests/benchmark"] (300 * ms) (300 * sec) true true "";
   mkGroup "io-buffer" "BenchmarkTCPFramerReadCost|BenchmarkTCPEchoReadBuffer|BenchmarkTCPEchoWriteBuffer" ["./tests/benchmark"] (300 * ms) (300 * sec) true true "";
   mkGroup "shared-hot-path" "BenchmarkPluginChain_5Plugins_Parallel|BenchmarkPluginChain_ReconfigureDuringMessage|BenchmarkSessionManager_RegisterGetUnregister_Parallel" ["./tests/benchmark"] (300 * ms) (300 * sec) true true "";
   mkGroup "datagram-key" "BenchmarkUDPSessionLookup|BenchmarkUDPAddrStringKey" ["./internal/transport/udp"] (300 * ms) (180 * sec) true true ""].

(** ** Selection *)

(** [strings.Contains] *)
Fixpoint prefix_of (p s : bytes) : bool :=
  match p, s with [], _ => true | _, [] => false | a :: p, b :: s => (a =? b) && prefix_of p s end.
Fixpoint Contains (s sub : bytes) : bool :=
  prefix_of sub s || match s with [] => false | _ :: s => Contains s sub end.

Inductive stage : Type := Smoke | Light | Medium.

(** The first group whose name has the filter in it; [None] ends the program. *)
(* go: scripts/run_benchmarks.go:349-358 (selectGroups) *)
Definition filtered (benchFilter : bytes) : option (list benchmarkGroup) :=
  match List.find (fun g => Contains (ToLower (bytes_of_string (g_name g))) (ToLower benchFilter)) allBenchmarkGroups with
  | Some g => Some [g]
  | None => None
  end.

(* go: scripts/run_benchmarks.go:348-379 (selectGroups) *)
Definition selectGroups (cloud : bool) (st : stage) (benchFilter : bytes) : option (list benchmarkGroup) :=
  match benchFilter with
  | _ :: _ => filtered benchFilter
  | [] =>
      let groups := allBenchmarkGroups in
      let limit := match st with Smoke => 5%nat | Light => 10%nat | Medium => length groups end in
      let selected := take limit groups in
      Some (if cloud then List.filter g_cloud selected else selected)
  end.

(** ** The gate *)

(* go: scripts/run_benchmarks.go:41-45 (resourceState) *)
Record resourceState : Type := mkState { memAvailableMB : Z; load1 : float64; st_ok : bool }.

(* go: scripts/run_benchmarks.go:407-417 (resourceGate) *)
Definition resourceGate (s : resourceState) (medium : bool) : bool :=
  if negb (st_ok s) then true
  else if medium then (1024 <=? memAvailableMB s) && fleb (load1 s) (float_of_int 2)
  else (768 <=? memAvailableMB s) && fleb (load1 s) (constant 5 2).

(* go: scripts/run_benchmarks.go:419-426 (readResourceState) *)
Definition readResourceState (linux : bool) (mem : option Z) (load : option float64) : resourceState :=
  if negb linux then mkState 0 f0 false
  else mkState (default 0 mem) (default f0 load) (bool_decide (is_Some mem) && bool_decide (is_Some load)).

(** ** The runs *)

(** [state] is what the host shows before the n-th group, [fails] whether running a
    group ends in an error, which ends the program.  The groups that ran, and
    whether the program got to its end. *)
(* go: scripts/run_benchmarks.go:98-117 (main) *)
Fixpoint run_groups (cloud : bool) (state : nat -> resourceState) (fails : benchmarkGroup -> bool) (n : nat)
    (groups : list benchmarkGroup) : list benchmarkGroup * bool :=
  match groups with
  | [] => ([], true)
  | group :: groups =>
      if cloud && negb (resourceGate (state n) (g_medium group)) then
        if g_medium group then ([], true) else run_groups cloud state fails (S n) groups
      else if fails group then ([group], false)
      else let '(ran, ok) := run_groups cloud state fails (S n) groups in (group :: ran, ok)
  end.

(* go: scripts/run_benchmarks.go:383-396 (runGroup) *)
Definition group_args (duration_String : Z -> string) (group : benchmarkGroup) : list string :=
  ["test"; "-run=^$"; ("-bench=" ++ g_pattern group)%string; "-benchmem";
   ("-benchtime=" ++ (match g_iterations group with EmptyString => duration_String (g_benchtime group) | it => it end))%string;
   "-count=1"; ("-timeout=" ++ duration_String (g_timeout group))%string] ++ g_packages group.

(** ** Theorems *)

(** Comparing with two floats of the same exponent. *)
Lemma fleb_same_exponent a b e f :
  (a < b)%positive -> fleb f (S754_finite false a e) = true -> fleb f (S754_finite false b e) = true.
Proof.
  intros Hab. unfold fleb, SFleb. destruct f as [s|[|]| |[|] m e']; try done. cbn [SFcompare].
  destruct (e' ?= e); try done. change (Pos.compare_cont Eq m a) with (Pos.compare m a).
  change (Pos.compare_cont Eq m b) with (Pos.compare m b).
  destruct (Pos.compare_spec m a), (Pos.compare_spec m b); try done; lia.
Qed.

Lemma fleb_two_below f : fleb f (float_of_int 2) = true -> fleb f (constant 5 2) = true.
Proof.
  assert (float_of_int 2 = S754_finite false 4503599627370496 (-51)) as -> by (vm_compute; reflexivity).
  assert (constant 5 2 = S754_finite false 5629499534213120 (-51)) as -> by (vm_compute; reflexivity).
  apply fleb_same_exponent. lia.
Qed.

(** A host fit for a medium group is fit for any. *)
Lemma gate_medium_stricter s : resourceGate s true = true -> resourceGate s false = true.
Proof.
  unfold resourceGate. destruct (negb (st_ok s)); [done|]. rewrite !andb_true_iff. intros [H1 H2].
  split; [lia|by apply fleb_two_below].
Qed.

(** The groups before the first medium one. *)
Fixpoint before_medium (groups : list benchmarkGroup) : list benchmarkGroup :=
  match groups with [] => [] | g :: groups => if g_medium g then [] else g :: before_medium groups end.

Lemma run_groups_sublist cloud state fails n groups : sublist (run_groups cloud state fails n groups).1 groups.
Proof.
  revert n. induction groups as [|g groups IH]; intros n; cbn [run_groups]; [constructor|].
  destruct (_ && _); [destruct (g_medium g); [apply sublist_nil_l|constructor; apply IH]|].
  destruct (fails g); [constructor; apply sublist_nil_l|]. specialize (IH (S n)).
  destruct (run_groups cloud state fails (S n) groups). by constructor.
Qed.

(** what a benchmark run measures.  A run goes through its groups in order,
    each at most once, and ends at the first that fails.  On a cloud host whose
    resources stay the same, it runs all of them if the host is fit for medium
    groups, none if it is fit for no group, and, if it is fit for light groups only,
    those before the first medium group: a light group after it is not run. *)
Theorem bench_runs_exact state fails groups s
    (Hs : forall n, state n = s) (Hf : forall g, g ∈ groups -> fails g = false) :
  sublist (run_groups true state fails 0 groups).1 groups /\
  (run_groups false state fails 0 groups) = (groups, true) /\
  run_groups true state fails 0 groups =
    ((if resourceGate s true then groups
      else if resourceGate s false then before_medium groups else []), true).
Proof.
  split; [apply run_groups_sublist|]. generalize 0%nat as n. clear - Hs Hf.
  pose proof (gate_medium_stricter s) as Hst.
  induction groups as [|g groups IH]; intros n.
  { cbn. by destruct (resourceGate s true), (resourceGate s false). }
  destruct (IH ltac:(intros; apply Hf; by right) (S n)) as [IH1 IH2].
  cbn [run_groups andb before_medium]. rewrite Hs, IH1, IH2, (Hf g) by (by left). split; [done|].
  destruct (g_medium g), (resourceGate s true); cbn [negb].
  - done.
  - by destruct (resourceGate s false).
  - by rewrite (Hst eq_refl).
  - by destruct (resourceGate s false).
Qed.

(** A cloud host with 900 MB, at the stage called light. *)
Definition small_host : resourceState := mkState 900 f0 true.
Definition names (groups : list benchmarkGroup) : list string := g_name <$> groups.

(** Four of the ten groups run; of the six others four are light. *)
Lemma bench_runs_exact_witness :
  names (run_groups true (fun _ => small_host) (fun _ => false) 0 (default [] (selectGroups true Light []))).1 =
  ["core-smoke"; "coap-smoke"; "tcp-udp-light"; "http-ws-light"].
Proof.
  pose proof (bench_runs_exact (fun _ => small_host) (fun _ => false) (default [] (selectGroups true Light [])) small_host
    ltac:(done) ltac:(done)) as (_ & _ & H).
  rewrite H. vm_compute. reflexivity.
Defined.

(** The smoke stage has a medium group, and not the footprint group, which the
    table's comment says a smoke run reports. *)
Example smoke_stage :
  names (default [] (selectGroups true Smoke [])) =
    ["core-smoke"; "coap-smoke"; "tcp-udp-light"; "http-ws-light"; "core-medium"] /\
  existsb g_medium (default [] (selectGroups true Smoke [])) = true.
Proof. vm_compute. done. Qed.

(** Every group is run at the medium stage on a local host. *)
Example medium_stage : selectGroups false Medium [] = Some allBenchmarkGroups.
Proof. reflexivity. Qed.

(** * The tree of the base: [scripts/benchgate/main.go] *)

(** ** [filepath.Clean], [filepath.Join] on slashes *)

Definition up_dir : bytes := [46; 46].

(** The elements, the latest first. *)
Fixpoint clean_elements (rooted : bool) (out l : list bytes) : list bytes :=
  match l with
  | [] => rev out
  | c :: l =>
      if bool_decide (c = []) || bool_decide (c = [46]) then clean_elements rooted out l
      else if bool_decide (c = up_dir) then
        match out with
        | [] => clean_elements rooted (if rooted then [] else [up_dir]) l
        | d :: out' => clean_elements rooted (if bool_decide (d = up_dir) then up_dir :: out else out') l
        end
      else clean_elements rooted (c :: out) l
  end.

Definition IsAbs (s : bytes) : bool := bool_decide (head s = Some 47).

Definition Clean (s : bytes) : bytes :=
  let l := clean_elements (IsAbs s) [] (split_on 47 [] s) in
  if IsAbs s then 47 :: Join [47] l else match l with [] => [46] | _ => Join [47] l end.

(* go: scripts/benchgate/main.go:387-393 (safeJoin) *)
Definition safeJoin (dir name : bytes) : option bytes :=
  let clean := Clean name in
  if bool_decide (clean = [46]) || has_prefix up_dir clean || IsAbs clean then None
  else Some (Clean (dir ++ [47] ++ clean)).

(** An entry of the archive: a directory, a file with its content, or another kind
    (a link, a device), which is passed over. *)
Inductive entry_kind : Type := Dir | File (content : bytes) | Other.

#[export] Instance entry_kind_eq_dec : EqDecision entry_kind.
Proof. solve_decision. Defined.

Section extract.
(** Whether the system makes the entry at the path. *)
Variable make : bytes -> entry_kind -> bool.

(** What the system is asked to make, and whether the archive was unpacked; None
    stands for a stream that cannot be read on. *)
(* go: scripts/benchgate/main.go:349-385 (extractTar) *)
Fixpoint extractTar (dir : bytes) (entries : list (option (bytes * entry_kind))) : list (bytes * entry_kind) * bool :=
  match entries with
  | [] => ([], true)
  | None :: _ => ([], false)
  | Some (name, k) :: entries =>
      match safeJoin dir name with
      | None => ([], false)
      | Some target =>
          if bool_decide (k = Other) then extractTar dir entries
          else if make target k then
            let '(made, ok) := extractTar dir entries in ((target, k) :: made, ok)
          else ([(target, k)], false)
      end
  end.
End extract.

(** The first reference that [git rev-parse] knows. *)
(* go: scripts/benchgate/main.go:292-299 (resolveBaseRef) *)
Definition resolveBaseRef (known : string -> bool) : option string :=
  List.find known ["origin/main"; "main"; "HEAD~1"]%string.

(** [strings.TrimRight(s, "\n")] *)
Definition trim_newlines (s : bytes) : bytes := rev (trim_left 10 (rev s)).

(* go: scripts/benchgate/main.go:408-414 (tail) *)
Definition tail (s : bytes) (lines : nat) : bytes :=
  let parts := split_on 10 [] (trim_newlines s) in
  Join [10] (if (lines <? length parts)%nat then drop (length parts - lines) parts else parts).

(** ** Nothing is written outside *)

(** A path element that leads down. *)
Definition element (c : bytes) : Prop := c <> [] /\ c <> [46] /\ c <> up_dir /\ 47 ∉ c.

Lemma element_kept rooted out c l : element c -> clean_elements rooted out (c :: l) = clean_elements rooted (c :: out) l.
Proof. intros (H1 & H2 & H3 & _). cbn [clean_elements]. by rewrite !bool_decide_eq_false_2. Qed.

Lemma empty_dropped rooted out l : clean_elements rooted out ([] :: l) = clean_elements rooted out l.
Proof. reflexivity. Qed.

Lemma clean_kept rooted out cs : Forall element cs -> clean_elements rooted out cs = rev out ++ cs.
Proof.
  intros Hc. revert out. induction Hc as [|c cs Hc _ IH]; intros out; [by rewrite app_nil_r|].
  rewrite element_kept, IH by done. cbn. by rewrite <- app_assoc.
Qed.

Lemma split_slash_free cur s : Forall (fun c => 47 ∉ c) (split_on 47 cur s) \/ 47 ∈ cur.
Proof.
  revert cur. induction s as [|c s IH]; intros cur; cbn [split_on].
  - destruct (decide (47 ∈ cur)); [by right|]. left. by constructor.
  - destruct (decide (47 ∈ cur)); [by right|]. left. destruct (Z.eqb_spec c 47) as [->|N].
    + constructor; [done|]. destruct (IH []) as [H|H]; [done|]. by apply elem_of_nil in H.
    + destruct (IH (cur ++ [c])) as [H|H]; [done|]. apply elem_of_app in H as [H|H]; [done|].
      apply list_elem_of_singleton in H. congruence.
Qed.

(** The elements of a relative path: some that lead up, then some that lead down. *)
Lemma clean_relative l n cs :
  Forall (fun c => 47 ∉ c) l -> Forall element cs ->
  exists n' cs', clean_elements false (rev cs ++ replicate n up_dir) l = replicate n' up_dir ++ cs' /\ Forall element cs'.
Proof.
  intros Hl. revert n cs. induction Hl as [|c l Hc _ IH]; intros n cs Hcs; cbn [clean_elements].
  - exists n, cs. rewrite rev_app_distr, rev_involutive. split; [|done]. f_equal.
    clear. induction n as [|n IH]; [done|]. cbn. rewrite IH. by rewrite <- replicate_S_end.
  - case_bool_decide as H1; cbn [orb]; [by apply IH|]. case_bool_decide as H2; [by apply IH|].
    case_bool_decide as H3.
    + destruct cs as [|d cs _] using rev_ind; cbn [rev app].
      * destruct n as [|n]; cbn [replicate]; [apply (IH 1%nat []); constructor|].
        rewrite bool_decide_eq_true_2 by done. apply (IH (S (S n)) []). constructor.
      * rewrite rev_app_distr. cbn [rev app]. apply Forall_app in Hcs as [Hcs Hd]. apply Forall_cons in Hd as [Hd _].
        rewrite bool_decide_eq_false_2 by apply Hd. by apply IH.
    + replace (c :: rev cs ++ replicate n up_dir) with (rev (cs ++ [c]) ++ replicate n up_dir) by (by rewrite rev_app_distr).
      apply IH. apply Forall_app. split; [done|]. by repeat constructor.
Qed.

Lemma split_Join cs cur : cs <> [] -> Forall (fun c => 47 ∉ c) cs ->
  split_on 47 cur (Join [47] cs) = match cs with [] => [] | c :: cs => (cur ++ c) :: cs end.
Proof.
  intros Hn Hc. revert cur Hn. induction Hc as [|c cs Hc Hcs IH]; intros cur Hn; [done|]. destruct cs as [|d cs].
  - cbn [Join]. by apply split_on_free.
  - change (Join [47] (c :: d :: cs)) with (c ++ 47 :: Join [47] (d :: cs)). rewrite split_on_sep by done. by rewrite IH.
Qed.

Lemma Join_app c l1 l2 : l1 <> [] -> l2 <> [] -> Join [c] (l1 ++ l2) = Join [c] l1 ++ c :: Join [c] l2.
Proof.
  intros H1 H2. induction l1 as [|x l1 IH]; [done|]. destruct l1 as [|y l1].
  - destruct l2; done.
  - change (Join [c] ((x :: y :: l1) ++ l2)) with (x ++ c :: Join [c] ((y :: l1) ++ l2)). rewrite IH by done.
    change (Join [c] (x :: y :: l1)) with (x ++ c :: Join [c] (y :: l1)). by rewrite <- app_assoc.
Qed.

Lemma element_free cs : Forall element cs -> Forall (fun c => 47 ∉ c) cs.
Proof. intros H. eapply Forall_impl; [exact H|]. by intros c (_ & _ & _ & ?). Qed.

Lemma Clean_relative name :
  IsAbs name = false ->
  exists n cs, Forall element cs /\
    Clean name = match replicate n up_dir ++ cs with [] => [46] | _ => Join [47] (replicate n up_dir ++ cs) end.
Proof.
  intros Ha. destruct (split_slash_free [] name) as [Hf|Hf]; [|by apply elem_of_nil in Hf].
  destruct (clean_relative (split_on 47 [] name) 0 [] Hf (Forall_nil_2 _)) as (n & cs & Hc & Hcs).
  cbn [rev app replicate] in Hc. exists n, cs. split; [done|]. unfold Clean. by rewrite Ha, Hc.
Qed.

(** The name itself: below the directory, or refused. *)
Lemma safeJoin_inside ds name t :
  ds <> [] -> Forall element ds -> safeJoin (47 :: Join [47] ds) name = Some t ->
  exists cs, cs <> [] /\ Forall element cs /\ t = 47 :: Join [47] (ds ++ cs).
Proof.
  intros Hn Hds. unfold safeJoin. case_bool_decide as E1; [done|]. cbn [orb].
  destruct (has_prefix up_dir (Clean name)) eqn:E2; [done|]. cbn [orb].
  destruct (IsAbs (Clean name)) eqn:E3; [done|]. intros [= <-].
  assert (IsAbs name = false) as Ha.
  { destruct (IsAbs name) eqn:Ea; [|done]. unfold Clean in E3. by rewrite Ea in E3. }
  destruct (Clean_relative name Ha) as (n & cs & Hcs & Hc). clear E3. destruct n as [|n].
  2: { exfalso. rewrite Hc in E2. cbn [replicate app] in E2. by destruct (replicate n up_dir ++ cs). }
  cbn [replicate app] in Hc. destruct cs as [|c cs]; [done|]. exists (c :: cs). split; [done|]. split; [done|].
  rewrite Hc. unfold Clean. change (IsAbs ((47 :: Join [47] ds) ++ _)) with true.
  change ((47 :: Join [47] ds) ++ [47] ++ Join [47] (c :: cs)) with (47 :: (Join [47] ds ++ 47 :: Join [47] (c :: cs))).
  rewrite <- Join_app by done. cbn [split_on]. rewrite Z.eqb_refl.
  assert (Forall element (ds ++ c :: cs)) as Hall by (by apply Forall_app).
  rewrite split_Join; [|by destruct ds|by apply element_free]. destruct (ds ++ c :: cs) as [|x l] eqn:El; [by destruct ds|].
  change (IsAbs (47 :: _)) with true. cbn [app]. rewrite empty_dropped. by rewrite clean_kept.
Qed.

(** Whatever the names in the archive, everything made is below the directory, at a
    path of elements that lead down; an absolute name and one that leads up end the
    extraction. *)
Theorem extract_stays_inside make ds entries target k :
  ds <> [] -> Forall element ds ->
  let dir := 47 :: Join [47] ds in
  (target, k) ∈ (extractTar make dir entries).1 ->
  k <> Other /\ exists cs, cs <> [] /\ Forall element cs /\ target = 47 :: Join [47] (ds ++ cs).
Proof.
  intros Hn Hds dir. induction entries as [|[[name e]|] entries IH]; cbn [extractTar]; [by intros H%elem_of_nil| |by intros H%elem_of_nil].
  destruct (safeJoin dir name) as [t|] eqn:E; [|by intros H%elem_of_nil].
  pose proof (safeJoin_inside ds name t Hn Hds E) as Ht. case_bool_decide as Hk; [by apply IH|].
  destruct (make t e); [destruct (extractTar make dir entries) as [made ok]; cbn [fst] in *|];
    (intros [[= -> ->]|H]%elem_of_cons; [done|]).
  - by apply IH.
  - by apply elem_of_nil in H.
Qed.

Definition base_dir : bytes := B "/tmp/base".
Definition makes (_ : bytes) (_ : entry_kind) : bool := true.

Example traversal_refused :
  extractTar makes base_dir [Some (B "a/../../x", File []); Some (B "b", Dir)] = ([], false) /\
  extractTar makes base_dir [Some (B "a/./../b//c", Dir); Some (B "l", Other); Some (B "d", File [1]); None]
  = ([(B "/tmp/base/b/c", Dir); (B "/tmp/base/d", File [1])], false).
Proof. vm_compute. done. Qed.

Lemma extract_stays_inside_witness :
  Dir <> Other /\
  exists cs, cs <> [] /\ Forall element cs /\ B "/tmp/base/b/c" = 47 :: Join [47] ([B "tmp"; B "base"] ++ cs).
Proof.
  apply (extract_stays_inside makes [B "tmp"; B "base"] [Some (B "a/./../b//c", Dir)] _ Dir).
  - discriminate.
  - repeat constructor; try discriminate; decide_now.
  - vm_compute. left.
Defined.
