(* ===== verification/WsPipeline.v ===== *)
(** * WsPipeline: the read loops of the WebSocket servers

    [readLoop] of [internal/transport/websocket/server.go] and [readWebSocketLoop]
    of [internal/transport/grpcweb/server.go]: a message of the connection goes
    through the plugin chain ([PluginChain]) and to the handler, which runs in the
    loop itself, panics caught and metered ([Shared]).  Reading messages is the
    WebSocket library's; what the deferred close does is in [SessionTable]. *)
From S2P Require Import Prelude Bytes Core PluginChain Shared.
Local Open Scope string_scope.
Local Open Scope Z_scope.
Local Open Scope list_scope.

(** What the next read gives. *)
Inductive read : Type := Message (payload : bytes) | TimedOut | ReadFailed.

(** How the loop ended; [Reading] while it waits for the next message. *)
Inductive ended : Type := Reading | NoDeadline | GoneSilent | Disconnected | Refused (err : error) | HandlerFailed (err : error).

(** The world of plugins and handler, the payloads the handler was called with,
    and the metric calls. *)
Record served (W : Type) : Type := mkServed { world : W; handled : list bytes; calls : list metric_call }.
Arguments mkServed {W}.
Arguments world {W}.
Arguments handled {W}.
Arguments calls {W}.

Section loop.
Context {W Sess : Type}.
Variable proto : Protocol.
Variable observed : bool.
Variable PongTimeout : Z.
Variable view : pluginView W Sess.
Variable sess : Sess.
Variable Handler : option (Sess -> bytes -> W -> outcome (option error) * W).
Implicit Types st : served W.

(** One message; [None] is the next round. *)
(* go: internal/transport/websocket/server.go:226-238 (readLoop) *)
Definition on_message (payload : bytes) st : option ended * served W :=
  match OnMessage view sess payload (world st) with
  | ((_, Some err), w) =>
      (if errors_Is err ErrPluginDrop then None else Some (Refused err), mkServed w (handled st) (calls st))
  | ((payload, None), w) =>
      match Handler with
      | None => (None, mkServed w (handled st) (calls st))
      | Some h =>
          let '(err, cs, w) := CallHandlerObserved observed proto (h sess payload) w in
          (HandlerFailed <$> err, mkServed w (handled st ++ [payload]) (calls st ++ cs))
      end
  end.

(** The reads, each with the outcome of setting its deadline. *)
(* go: internal/transport/websocket/server.go:208-240 (readLoop) *)
Fixpoint readLoop (reads : list (bool * read)) st : ended * served W :=
  match reads with
  | [] => (Reading, st)
  | (deadline_set, r) :: reads =>
      if (0 <? PongTimeout) && negb deadline_set then (NoDeadline, st)
      else
        match r with
        | TimedOut =>
            (GoneSilent, mkServed (world st) (handled st)
                           (calls st ++ IncProtocolCounter observed MetricSessionsReclaimed proto))
        | ReadFailed => (Disconnected, st)
        | Message payload =>
            match on_message payload st with
            | (Some e, st) => (e, st)
            | (None, st) => readLoop reads st
            end
        end
  end.
End loop.

(** The two servers. *)
(* go: internal/transport/websocket/server.go:208-240 (readLoop) *)
Definition ws_readLoop {W Sess} observed := @readLoop W Sess ProtocolWS observed.
(* go: internal/transport/grpcweb/server.go:307-339 (readWebSocketLoop) *)
Definition grpc_readLoop {W Sess} observed := @readLoop W Sess ProtocolGRPCWeb observed.

(** ** What it should do *)

Section spec.
Context {W Sess : Type}.
Variable proto : Protocol.
Variable observed : bool.
Variable PongTimeout : Z.
Variable view : pluginView W Sess.
Variable sess : Sess.
Variable h : Sess -> bytes -> W -> outcome (option error) * W.

(** Plugins and a handler whose verdicts depend on the payload: what a plugin
    makes of a message, or the error it gives; the error of the handler, if any. *)
Variable pass : bytes -> result error bytes.
Variable fails : bytes -> option error.

Definition plugins_do : Prop := forall p w,
  (OnMessage view sess p w).1 = match pass p with Ok o => (o, None) | Err e => ([], Some e) end.
Definition handler_does : Prop := forall p w,
  (h sess p w).1 = match fails p with
                   | Some e => if errors_Is e ErrHandlerPanic then Panicked else Returned (Some e)
                   | None => Returned None
                   end.

(** The handler's messages, in order, and the error that ends the session. *)
Fixpoint dialogue (ps : list bytes) : list bytes * option ended :=
  match ps with
  | [] => ([], None)
  | p :: ps =>
      match pass p with
      | Err e => if errors_Is e ErrPluginDrop then dialogue ps else ([], Some (Refused e))
      | Ok o =>
          match fails o with
          | Some e => ([o], Some (HandlerFailed (if errors_Is e ErrHandlerPanic then ErrHandlerPanic else e)))
          | None => let '(os, e) := dialogue ps in (o :: os, e)
          end
      end
  end.

(** The metrics of a handled message. *)
Definition message_metrics : list metric_call :=
  if observed then [ObserveHistogram MetricHandlerDuration (ProtocolLabel proto); IncCounter MetricMessagesTotal (ProtocolLabel proto)]
  else [].

Lemma call_handler p w :
  handler_does ->
  exists w', CallHandlerObserved observed proto (h sess p) w =
    ((fun e => if errors_Is e ErrHandlerPanic then ErrHandlerPanic else e) <$> fails p, message_metrics, w').
Proof.
  intros Hh. specialize (Hh p w). unfold CallHandlerObserved, CallHandler, message_metrics.
  destruct (h sess p w) as [[err|] w'] eqn:E; cbn in Hh; exists w'; destruct (fails p) as [e|]; cbn;
    try destruct (errors_Is e ErrHandlerPanic); try done; simplify_eq; by destruct observed.
Qed.

Lemma loop_dialogue ps rest st :
  plugins_do -> handler_does ->
  let '(os, e) := dialogue ps in
  exists w, readLoop proto observed PongTimeout view sess (Some h) (map (fun p => (true, Message p)) ps ++ rest) st =
    match e with
    | Some e => (e, mkServed w (handled st ++ os) (calls st ++ mjoin (replicate (length os) message_metrics)))
    | None => readLoop proto observed PongTimeout view sess (Some h) rest
                (mkServed w (handled st ++ os) (calls st ++ mjoin (replicate (length os) message_metrics)))
    end.
Proof.
  intros Hp Hh. revert st. induction ps as [|p ps IH]; intros [w hs cs]; cbn [dialogue map app].
  { exists w. cbn. by rewrite !app_nil_r. }
  cbn [readLoop]. rewrite andb_false_r. unfold on_message. cbn [world handled calls].
  specialize (Hp p w). destruct (OnMessage view sess p w) as [[out err] w1]. cbn [fst] in Hp.
  destruct (pass p) as [o|e]; injection Hp as -> ->.
  - destruct (call_handler o w1 Hh) as [w2 ->]. destruct (fails o) as [e|]; cbn [fmap option_fmap option_map].
    + exists w2. cbn [length replicate mjoin list_join]. by rewrite app_nil_r.
    + specialize (IH (mkServed w2 (hs ++ [o]) (cs ++ message_metrics))). destruct (dialogue ps) as [os e].
      destruct IH as [w3 IH]. exists w3. rewrite IH. cbn [handled calls length replicate mjoin list_join].
      by rewrite <- !app_assoc.
  - destruct (errors_Is e ErrPluginDrop).
    + specialize (IH (mkServed w1 hs cs)). destruct (dialogue ps) as [os e']. exact IH.
    + exists w1. cbn. by rewrite !app_nil_r.
Qed.
End spec.

(** ** Theorems *)

Section theorems.
Context {W Sess : Type}.
Variable proto : Protocol.
Variable PongTimeout : Z.
Variable view : pluginView W Sess.
Variable sess : Sess.
Variable h : Sess -> bytes -> W -> outcome (option error) * W.
Variable pass : bytes -> result error bytes.
Variable fails : bytes -> option error.

Abbreviation loop := (readLoop proto true PongTimeout view sess (Some h)).

(** A WebSocket connection is a dialogue in order.  Whatever messages a client
    sends, with plugins and a handler that decide by the payload, the handler gets
    what the plugins make of them, one after another in the order they were sent,
    each at most once, until the first that a plugin refuses or the handler fails
    on: nothing reaches it after that.  As many durations and messages are metered
    as the handler was called with; and a client that goes silent after them is
    counted as reclaimed exactly if its session was still being served. *)
Theorem ws_dialogue_exact ps r st :
  plugins_do view sess pass -> handler_does sess h fails -> r = TimedOut \/ r = ReadFailed ->
  let '(os, e) := dialogue pass fails ps in
  let '(how, st') := loop (map (fun p => (true, Message p)) ps ++ [(true, r)]) st in
  handled st' = handled st ++ os /\
  how = match e with Some e => e | None => match r with TimedOut => GoneSilent | _ => Disconnected end end /\
  calls st' = calls st ++ mjoin (replicate (length os) (message_metrics proto true)) ++
    match e, r with None, TimedOut => [IncCounter MetricSessionsReclaimed (ProtocolLabel proto)] | _, _ => [] end.
Proof.
  intros Hp Hh Hr. pose proof (loop_dialogue proto true PongTimeout view sess h pass fails ps [(true, r)] st Hp Hh) as H.
  destruct (dialogue pass fails ps) as [os e]. destruct H as [w ->]. destruct e as [e|].
  - split; [done|]. split; [done|]. cbn [calls]. by rewrite app_nil_r.
  - cbn [readLoop]. rewrite andb_false_r. destruct Hr as [-> | ->]; cbn [handled calls].
    + split; [done|]. split; [done|]. by rewrite <- app_assoc.
    + split; [done|]. split; [done|]. by rewrite app_nil_r.
Qed.
End theorems.

(** ** Witness *)

Definition quiet (ps : list (Plugin (list bytes) unit)) : pluginView (list bytes) unit := mkView ps (fun _ _ w => w).
Definition drop_empty : Plugin (list bytes) unit :=
  mkPlugin "drop-empty" 10 (fun _ w => (Returned None, w))
    (fun _ b w => (Returned (match b with [] => ([], Some ErrPluginDrop) | _ => (b, None) end), w))
    (fun _ w => (Returned tt, w)) None.
Definition fragile : unit -> bytes -> list bytes -> outcome (option error) * list bytes :=
  fun _ b w => (match b with 255 :: _ => Panicked | _ => Returned None end, w ++ [b]).

(** Two messages are handled, the empty one is dropped, the fourth makes the
    handler panic and the fifth is not looked at. *)
Lemma ws_dialogue_exact_witness :
  let r := ws_readLoop true 60 (quiet [drop_empty]) tt (Some fragile)
    [(true, Message [1]); (true, Message []); (true, Message [2]); (true, Message [255]); (true, Message [3]); (true, TimedOut)]
    (mkServed [] [] []) in
  handled r.2 = [[1]; [2]; [255]] /\ r.1 = HandlerFailed ErrHandlerPanic.
Proof.
  intros r.
  pose proof (ws_dialogue_exact ProtocolWS 60 (quiet [drop_empty]) tt fragile
    (fun b => match b with [] => Err ErrPluginDrop | _ => Ok b end)
    (fun b => match b with 255 :: _ => Some ErrHandlerPanic | _ => None end)
    [[1]; []; [2]; [255]; [3]] TimedOut (mkServed [] [] [])) as H.
  unfold r, ws_readLoop. cbn [map app] in H.
  destruct (readLoop _ _ _ _ _ _ _ _) as [how st'].
  destruct H as (H1 & H2 & _).
  - intros [|b p] w; reflexivity.
  - intros p w. unfold fragile. cbn [fst]. destruct p as [|b p]; [done|]. repeat (case_match; try done).
  - by left.
  - split; [exact H1|exact H2].
Defined.
