(* ===== verification/GatewayServers.v ===== *)
(** * GatewayServers: a gateway and the servers it was given

    [Gateway] starts and stops servers it knows by their calls; [ServerLifecycle]
    has those calls for the seven servers.  Here the two are put together: the
    state is the servers' flags and sockets and, beside them, everything else
    (plugins, sessions, the network), which the drains, the closing of sessions,
    the plugins and the administration listener may change in any way. *)
From S2P Require Import Prelude Bytes Core ServerLifecycle Gateway.
Local Open Scope string_scope.
Local Open Scope Z_scope.
Local Open Scope list_scope.

Section servers.
Context {R : Type} {smx : ServeMux}.

(** The servers by protocol, and the rest. *)
Definition world : Type := gmap Protocol server * R.

Definition server_of (p : Protocol) (w : world) : server := default fresh (w.1 !! p).

(** Whether the address of a server can be listened on, as things are. *)
Variable can_listen : Protocol -> R -> bool.
(** What the drain of a server and the closing of its sessions do. *)
Variable drain close_sessions : Protocol -> Ctx -> R -> option error * R.

(** A call on a server; a panic would end the program. *)
Definition on_server (p : Protocol) (c : ServerLifecycle.call) (w : world) : option error * world :=
  match c (server_of p w) with
  | (Returned err, s) => (err, (<[p := s]> w.1, w.2))
  | (Panicked, s) => (Some ErrHandlerPanic, (<[p := s]> w.1, w.2))
  end.

Definition beside (f : R -> option error * R) (w : world) : option error * world :=
  let '(err, r) := f w.2 in (err, (w.1, r)).

(** The three stages, as [Stop] of every server runs them. *)
(* go: internal/transport/tcp/server.go:144-148 (Stop) *)
Definition server_Stop (p : Protocol) (k : kind) (ctx : Ctx) (w : world) : option error * world :=
  let '(_, w) := on_server p (ServerLifecycle.StopAccept k) w in
  let '(_, w) := beside (drain p ctx) w in
  beside (close_sessions p ctx) w.

(** A server as the gateway sees it. *)
Definition as_server (pk : Protocol * kind) : Gateway.Server world :=
  let '(p, k) := pk in
  Gateway.mkServer p (Some (fun w => w))
    (fun _ w => on_server p (ServerLifecycle.Start k (can_listen p w.2)) w)
    (server_Stop p k)
    (Some (fun _ => on_server p (ServerLifecycle.StopAccept k),
           fun ctx => beside (drain p ctx),
           fun ctx => beside (close_sessions p ctx))).

(** ** The servers that are up *)

(** Exactly those of [U] among the given ones, and all of them in order. *)
Definition servers_up (ks : list (Protocol * kind)) (U : gset Protocol) (w : world) : Prop :=
  Forall (fun pk => up_or_down pk.2 (server_of pk.1 w) /\
                    ServerLifecycle.started (server_of pk.1 w) = bool_decide (pk.1 ∈ U)) ks.

Lemma server_of_insert p s w r : server_of p (<[p := s]> w, r) = s.
Proof. unfold server_of. cbn. by rewrite lookup_insert_eq. Qed.
Lemma server_of_insert_ne p q s w r : p <> q -> server_of q (<[p := s]> w.1, r) = server_of q w.
Proof. intros H. unfold server_of. cbn. by rewrite lookup_insert_ne. Qed.

(** Only the server map counts. *)
Lemma servers_up_beside ks U m r r' : servers_up ks U (m, r) -> servers_up ks U (m, r').
Proof. done. Qed.

Lemma servers_up_ext ks U V w : (forall p, p ∈ ks.*1 -> p ∈ U <-> p ∈ V) -> servers_up ks U w -> servers_up ks V w.
Proof.
  intros Hx H. unfold servers_up in *. rewrite Forall_forall in H |- *. intros pk Hpk.
  destruct (H pk Hpk) as [H1 H2]. split; [done|]. rewrite H2. apply bool_decide_ext, Hx.
  apply list_elem_of_fmap. by exists pk.
Qed.

Section fixed.
Variable ks : list (Protocol * kind).
Hypothesis Hnd : NoDup ks.*1.
Hypothesis Hcfg : Forall (fun pk => configured pk.2) ks.

Lemma kind_unique p k k' : (p, k) ∈ ks -> (p, k') ∈ ks -> k = k'.
Proof.
  intros H1%(elem_of_list_to_map_1 (M := gmap Protocol)) H2%(elem_of_list_to_map_1 (M := gmap Protocol)); [congruence|done..].
Qed.

(** Setting one server to a state that is in order. *)
Lemma servers_up_set p k s U w r :
  (p, k) ∈ ks -> servers_up ks U w -> up_or_down k s ->
  servers_up ks (if ServerLifecycle.started s then {[p]} ∪ U else U ∖ {[p]}) (<[p := s]> w.1, r).
Proof.
  intros Hin Hw Hs. unfold servers_up in *. rewrite Forall_forall in Hw |- *. intros [q j] Hq. cbn [fst snd].
  destruct (decide (p = q)) as [<-|Hne].
  - rewrite server_of_insert. rewrite (kind_unique p j k) by done. split; [done|].
    destruct (ServerLifecycle.started s); symmetry; [apply bool_decide_eq_true|apply bool_decide_eq_false]; set_solver.
  - rewrite server_of_insert_ne by done. destruct (Hw (q, j) Hq) as [H1 H2]. cbn [fst snd] in *. split; [done|].
    rewrite H2. apply bool_decide_ext. destruct (ServerLifecycle.started s); set_solver.
Qed.

Lemma start_one p k U w :
  (p, k) ∈ ks -> servers_up ks U w -> p ∉ U ->
  let '(err, w') := on_server p (ServerLifecycle.Start k (can_listen p w.2)) w in
  servers_up ks (match err with None => {[p]} ∪ U | Some _ => U end) w'.
Proof.
  intros Hin Hw HpU. pose proof Hw as Hw'. unfold servers_up in Hw'. rewrite Forall_forall in Hw'.
  pose proof (proj1 (Forall_forall _ _) Hcfg (p, k) Hin) as Hk.
  destruct (Hw' (p, k) Hin) as [Hup Hst]. cbn [fst snd] in *. rewrite bool_decide_eq_false_2 in Hst by done.
  pose proof (ServerLifecycle.Start_spec k (can_listen p w.2) (server_of p w) Hk Hup) as H.
  unfold on_server. destruct (ServerLifecycle.Start k _ (server_of p w)) as [r s].
  destruct H as (Hs & Hst' & Hr & _). rewrite Hst in *. cbn [orb] in Hst'.
  pose proof (servers_up_set p k s U w w.2 Hin Hw Hs) as Hset. rewrite Hst' in Hset.
  assert (servers_up ks (U ∖ {[p]}) (<[p:=s]> w.1, w.2) -> servers_up ks U (<[p:=s]> w.1, w.2)) as Hsame
    by (apply servers_up_ext; set_solver).
  destruct (can_listen p w.2).
  - rewrite (proj2 Hr) by done. exact Hset.
  - destruct r as [[e|]|]; [by apply Hsame| |by apply Hsame]. destruct (proj1 Hr eq_refl). done.
Qed.

Lemma stop_one p k U w :
  (p, k) ∈ ks -> servers_up ks U w ->
  servers_up ks (U ∖ {[p]}) (on_server p (ServerLifecycle.StopAccept k) w).2.
Proof.
  intros Hin Hw. pose proof Hw as Hw'. unfold servers_up in Hw'. rewrite Forall_forall in Hw'.
  destruct (Hw' (p, k) Hin) as [Hup _]. cbn [fst snd] in *.
  pose proof (ServerLifecycle.StopAccept_spec k (server_of p w) Hup) as H.
  unfold on_server. destruct (ServerLifecycle.StopAccept k (server_of p w)) as [r s].
  destruct H as (Hs & Hst & _). pose proof (servers_up_set p k s U w w.2 Hin Hw Hs) as Hset. rewrite Hst in Hset.
  by destruct r.
Qed.

Lemma beside_keeps f U w : servers_up ks U w -> servers_up ks U (beside f w).2.
Proof. intros H. unfold beside. destruct (f w.2) as [e r]. by destruct w. Qed.

Lemma stop_server_one p k ctx U w :
  (p, k) ∈ ks -> servers_up ks U w -> servers_up ks (U ∖ {[p]}) (server_Stop p k ctx w).2.
Proof.
  intros Hin Hw. unfold server_Stop. pose proof (stop_one p k U w Hin Hw) as H.
  destruct (on_server p _ w) as [e w1]. apply (beside_keeps (drain p ctx)) in H.
  cbn [snd] in *. destruct (beside (drain p ctx) w1) as [e2 w2]. by apply beside_keeps.
Qed.

(** ** Lists of servers *)

Abbreviation protocols l := (list_to_set (C := gset Protocol) (l : list (Protocol * kind)).*1).

Lemma start_list ctx l acc U w :
  l ⊆ ks -> NoDup l.*1 -> protocols l ## U -> servers_up ks U w ->
  let '(err, st, w') := start_servers ctx (as_server <$> l) acc w in
  exists l1 l2, l = l1 ++ l2 /\ st = rev (as_server <$> l1) ++ acc /\ servers_up ks (protocols l1 ∪ U) w' /\
    (err = None -> l1 = l).
Proof.
  revert acc U w. induction l as [|[p k] l IH]; intros acc U w Hsub Hl Hd Hw.
  { exists [], []. cbn. by rewrite union_empty_l_L. }
  cbn in Hl, Hd. apply NoDup_cons in Hl as [Hp Hl]. cbn [fmap list_fmap start_servers].
  change (srv_Start (as_server (p, k)) ctx w) with (on_server p (ServerLifecycle.Start k (can_listen p w.2)) w).
  pose proof (start_one p k U w ltac:(set_solver) Hw ltac:(set_solver)) as H1.
  destruct (on_server p _ w) as [[e|] w1].
  - exists [], ((p, k) :: l). cbn. rewrite union_empty_l_L. done.
  - specialize (IH (as_server (p, k) :: acc) ({[p]} ∪ U) w1 ltac:(set_solver) Hl).
    match type of IH with _ -> _ -> ?G => assert G as IH' by (apply IH; [|done]; intros q; rewrite elem_of_list_to_set; set_solver) end.
    destruct (start_servers ctx (as_server <$> l) _ w1) as [[err st] w'].
    destruct IH' as (l1 & l2 & -> & -> & Hup & He). exists ((p, k) :: l1), l2. split; [done|]. split_and!.
    + cbn [fmap list_fmap rev]. by rewrite <- app_assoc.
    + eapply servers_up_ext; [|exact Hup]. cbn. set_solver.
    + intros E. f_equal. by apply He.
Qed.

Lemma stop_list ctx l U w :
  l ⊆ ks -> servers_up ks U w -> servers_up ks (U ∖ protocols l) (stop_servers ctx (as_server <$> l) w).
Proof.
  revert U w. induction l as [|[p k] l IH]; intros U w Hsub Hw.
  { cbn. by rewrite difference_empty_L. }
  cbn [fmap list_fmap stop_servers].
  change (srv_Stop (as_server (p, k)) ctx w) with (server_Stop p k ctx w).
  pose proof (stop_server_one p k ctx U w ltac:(set_solver) Hw) as H1. apply IH in H1; [|set_solver].
  eapply servers_up_ext; [|exact H1]. cbn. set_solver.
Qed.

(** A stage over all servers, with what it does to the set of those that are up. *)
Lemma stage_list (run : Gateway.Server world -> world -> option error * world) (stops : bool) l e U w :
  l ⊆ ks ->
  (forall p k U w, (p, k) ∈ ks -> servers_up ks U w ->
     servers_up ks (if stops then U ∖ {[p]} else U) (run (as_server (p, k)) w).2) ->
  servers_up ks U w ->
  servers_up ks (if stops then U ∖ protocols l else U) (stage_all run (as_server <$> l) e w).2.
Proof.
  intros Hsub Hrun. revert e U w. induction l as [|[p k] l IH]; intros e U w Hw.
  { destruct stops; cbn; by rewrite ?difference_empty_L. }
  cbn [fmap list_fmap stage_all]. pose proof (Hrun p k U w ltac:(set_solver) Hw) as H1.
  destruct (run (as_server (p, k)) w) as [e1 w1]. cbn [snd] in H1.
  apply (IH ltac:(set_solver) (keep_first e e1)) in H1. destruct stops; [|exact H1].
  eapply servers_up_ext; [|exact H1]. cbn. set_solver.
Qed.

(** ** The gateway *)

Variable now : world -> Z.
Variable plugins_start plugins_stop : R -> option error * R.
Variable close_all : Ctx -> R -> option error * R.
Variable adm : option ((R -> option error * R) * (Ctx -> R -> option error * R)).
Variable stage_timeouts : StageTimeouts.

Definition runtime : RuntimeOps world :=
  mkRuntimeOps (beside plugins_start) (beside plugins_stop) (fun ctx => beside (close_all ctx)).
Definition administration : option (AdminOps world) :=
  (fun a => mkAdminOps (beside a.1) (fun ctx => beside (a.2 ctx))) <$> adm.

Definition new_gateway : Gateway.Gateway world :=
  register_all (as_server <$> ks) (mkGateway ∅ [] runtime stage_timeouts administration None None false).

(** What stays of a gateway: its servers, its runtime, its settings. *)
Record of_servers (g : Gateway.Gateway world) : Prop := {
  os_snapshot : snapshot g = as_server <$> ks;
  os_rt : rt g = runtime;
  os_cfg : adminCfg g = administration;
  os_admin : admin g = None \/ admin g = administration
}.

Lemma register_all_snapshot (l : list (Gateway.Server world)) (g : Gateway.Gateway world) :
  gateway_ok g -> Gateway.started g = false -> NoDup (order g ++ map srv_Protocol l) ->
  let g' := register_all l g in
  snapshot g' = snapshot g ++ l /\ rt g' = rt g /\ adminCfg g' = adminCfg g /\ admin g' = admin g /\
  Gateway.started g' = false.
Proof.
  unfold register_all. revert g. induction l as [|s l IH]; intros g Hok Hst Hnd'; cbn [fold_left].
  { by rewrite app_nil_r. }
  assert (servers g !! srv_Protocol s = None) as Hnone.
  { apply eq_None_not_Some. intros Hin%Hok. apply NoDup_app in Hnd' as (_ & H & _). apply (H _ Hin). cbn. set_solver. }
  assert (Register (Some s) g = (None, mkGateway (<[srv_Protocol s := s]> (servers g)) (order g ++ [srv_Protocol s]) (rt g)
            (timeouts g) (adminCfg g) (admin g) (startedAt g) (Gateway.started g))) as E
    by (cbn [Register]; by rewrite Hst, Hnone).
  pose proof (Register_ok (Some s) g Hok) as Hok'. rewrite E in Hok' |- *. cbn [snd] in *.
  specialize (IH _ Hok' Hst). cbn [order rt adminCfg admin] in IH. rewrite <- app_assoc in IH. specialize (IH Hnd').
  destruct IH as (-> & H). split; [|exact H]. unfold snapshot. cbn [order servers].
  rewrite omap_app. cbn [omap list_omap]. rewrite lookup_insert_eq, <- app_assoc. cbn [app]. f_equal.
  apply list_omap_ext, Forall_Forall2_diag, Forall_forall. intros p Hp. rewrite lookup_insert_ne; [done|]. intros <-.
  apply NoDup_app in Hnd' as (_ & Hx & _). apply (Hx _ Hp). cbn. set_solver.
Qed.

Definition all_up : gset Protocol := protocols ks.
Definition in_order (g : Gateway.Gateway world) (w : world) : Prop :=
  of_servers g /\ servers_up ks (if Gateway.started g then all_up else ∅) w.

Lemma new_gateway_ok : of_servers new_gateway /\ Gateway.started new_gateway = false.
Proof.
  unfold new_gateway. set (g0 := mkGateway _ _ _ _ _ _ _ _).
  assert (gateway_ok g0) as Hok.
  { split; [constructor|]. split; [|apply map_Forall_empty]. intros p. cbn. rewrite lookup_empty.
    split; [by intros ?%elem_of_nil|by intros []]. }
  destruct (register_all_snapshot (as_server <$> ks) g0 Hok eq_refl) as (H1 & H2 & H3 & H4 & H5).
  - cbn [order g0 app].
    assert (map srv_Protocol (as_server <$> ks) = ks.*1) as ->; [|done].
    clear. induction ks as [|[p k] l IH]; [done|]. cbn. by f_equal.
  - split; [|done]. split; [exact H1|exact H2|exact H3|by left].
Qed.

Lemma use_runtime_servers l w : use_runtime (as_server <$> l) w = w.
Proof. induction l as [|[p k] l IH]; [done|]. exact IH. Qed.

Lemma rollback_servers g l1 U w :
  of_servers g -> l1 ⊆ ks -> servers_up ks (protocols l1 ∪ U) w -> protocols l1 ## U ->
  servers_up ks U (rollbackStart now g (rev (as_server <$> l1)) w).
Proof.
  intros [_ Hrt _ _] Hsub Hw Hd. unfold rollbackStart. rewrite Hrt. cbn [rt_StopAll runtime]. apply beside_keeps.
  assert (rev (as_server <$> l1) = as_server <$> reverse l1) as -> by (rewrite fmap_reverse; apply rev_alt).
  assert (protocols (reverse l1) = protocols l1) as Er.
  { apply set_eq. intros p. rewrite !elem_of_list_to_set, fmap_reverse, elem_of_reverse. done. }
  eapply servers_up_ext; [|apply stop_list; [|exact Hw]]; [rewrite Er; set_solver|].
  intros x. rewrite elem_of_reverse. apply Hsub.
Qed.

Lemma of_servers_set g b t a :
  of_servers g -> (a = admin g \/ a = administration) ->
  of_servers (set_started b (set_startedAt t (set_admin a g))).
Proof. intros [H1 H2 H3 H4] Ha. split; [exact H1|exact H2|exact H3|]. destruct Ha as [->| ->]; [exact H4|by right]. Qed.

Lemma Start_in_order ctx g w :
  in_order g w ->
  let '(err, g', w') := Gateway.Start now ctx g w in
  in_order g' w' /\ (err = None -> Gateway.started g' = true) /\ (err <> None -> Gateway.started g' = Gateway.started g).
Proof.
  intros Hsame. pose proof Hsame as [Hos Hup]. pose proof Hos as [Hsn Hrt Hcf _]. unfold Gateway.Start.
  destruct (Gateway.started g) eqn:Est; [by split_and!|].
  rewrite Hsn. destruct (as_server <$> ks) as [|s l] eqn:El; [by split_and!|]. rewrite <- El in Hsn |- *. clear s l El.
  rewrite use_runtime_servers, Hrt. cbn [rt_StartAll runtime].
  pose proof (beside_keeps plugins_start ∅ w Hup) as H1. destruct (beside plugins_start w) as [[e1|] w1]; cbn [snd] in H1.
  { split_and!; [|done|done]. split; [done|]. by rewrite Est. }
  pose proof (start_list ctx ks [] ∅ w1 ltac:(done) Hnd ltac:(set_solver) H1) as H2.
  destruct (start_servers ctx (as_server <$> ks) [] w1) as [[err st] w2].
  destruct H2 as (l1 & l2 & Hk & -> & Hup2 & He). rewrite app_nil_r.
  assert (forall w', servers_up ks (protocols l1 ∪ ∅) w' -> in_order g (rollbackStart now g (rev (as_server <$> l1)) w')) as Hroll.
  { intros w' Hw'. split; [done|]. rewrite Est. apply rollback_servers; [done|rewrite Hk; set_solver|done|set_solver]. }
  destruct err as [e|]; [split_and!; [by apply Hroll|done|done]|].
  specialize (He eq_refl). subst l1. rewrite union_empty_r_L in Hup2, Hroll.
  assert (forall a t w', (a = admin g \/ a = administration) -> servers_up ks all_up w' ->
    in_order (set_started true (set_startedAt t (set_admin a g))) w') as Hdone.
  { intros a t w' Ha Hw'. split; [by apply of_servers_set|exact Hw']. }
  rewrite Hcf. destruct administration as [a|] eqn:Ea.
  - assert (forall w', servers_up ks all_up w' -> servers_up ks all_up (admin_start a w').2) as Hadm.
    { unfold administration in Ea. destruct adm as [[f h]|]; [|done]. injection Ea as <-. intros w' Hw'. by apply beside_keeps. }
    specialize (Hadm w2 Hup2). destruct (admin_start a w2) as [[e3|] w3]; cbn [snd] in Hadm.
    + split_and!; [by apply Hroll|done|done].
    + split_and!; [|done|done]. apply Hdone; [by right|exact Hadm].
  - split_and!; [|done|done]. assert (g = set_admin (admin g) g) as Eg by (by destruct g). rewrite Eg at 1.
    apply Hdone; [by left|exact Hup2].
Qed.

Lemma Stop_in_order ctx g w :
  in_order g w ->
  let '(err, g', w') := Gateway.Stop now ctx g w in in_order g' w' /\ Gateway.started g' = false.
Proof.
  intros [Hos Hup]. pose proof Hos as [Hsn Hrt Hcf Had]. unfold Gateway.Stop.
  change (snapshot (set_started false g)) with (snapshot g). rewrite Hsn.
  set (g1 := set_started false g).
  pose proof (stage_list (run_stop_accept now g1 ctx) true ks None (if Gateway.started g then all_up else ∅) w ltac:(done)) as H1.
  destruct (stage_all (run_stop_accept now g1 ctx) _ None w) as [e1 w1].
  assert (servers_up ks ∅ w1) as Hw1.
  { eapply servers_up_ext; [|apply H1; [|exact Hup]].
    - intros p Hp. destruct (Gateway.started g); unfold all_up; rewrite ?elem_of_difference, ?elem_of_list_to_set; set_solver.
    - intros p k U w0 Hin Hw0. unfold run_stop_accept, runStage, as_server. cbn [srv_staged]. by apply stop_one. }
  clear H1.
  pose proof (stage_list (run_drain now g1 ctx) false ks e1 ∅ w1 ltac:(done)) as H2.
  destruct (stage_all (run_drain now g1 ctx) _ e1 w1) as [e2 w2].
  assert (servers_up ks ∅ w2) as Hw2.
  { apply H2; [|done]. intros p k U w0 Hin Hw0. unfold run_drain, runStage, as_server. cbn [srv_staged]. by apply beside_keeps. }
  clear H2.
  pose proof (stage_list (run_close now g1 ctx) false ks e2 ∅ w2 ltac:(done)) as H3.
  destruct (stage_all (run_close now g1 ctx) _ e2 w2) as [e3 w3].
  assert (servers_up ks ∅ w3) as Hw3.
  { apply H3; [|done]. intros p k U w0 Hin Hw0. unfold run_close, runStage, as_server. cbn [srv_staged]. by apply beside_keeps. }
  clear H3. change (rt g1) with (rt g). rewrite Hrt. cbn [rt_CloseAll rt_StopAll runtime]. unfold runStage.
  pose proof (beside_keeps (close_all (if 0 <? to_CloseSessions (timeouts g1)
    then WithTimeout ctx (now w3) (to_CloseSessions (timeouts g1)) else ctx)) ∅ w3 Hw3) as Hw4.
  destruct (beside (close_all _) w3) as [e4 w4]. cbn [snd] in Hw4.
  pose proof (beside_keeps plugins_stop ∅ w4 Hw4) as Hw5. destruct (beside plugins_stop w4) as [e5 w5]. cbn [snd] in Hw5.
  assert (of_servers (set_startedAt None g1)) as Hg1 by (by split).
  change (admin (set_startedAt None g1)) with (admin g).
  destruct (admin g) as [a|] eqn:Ea; [|by split].
  assert (servers_up ks ∅ (admin_stop a ctx w5).2) as Hw6.
  { destruct Had as [Had|Had]; [done|]. unfold administration in Had. destruct adm as [[f h]|]; [|done].
    injection Had as ->. by apply beside_keeps. }
  destruct (admin_stop a ctx w5) as [e6 w6]. by split.
Qed.

(** ** Sequences of calls *)

(** A start or a stop of the gateway, or anything else that happens beside. *)
Inductive gateway_op : Type := GwStart (ctx : Ctx) | GwStop (ctx : Ctx) | GwElse (f : R -> R).

Definition gateway_step (gw : Gateway.Gateway world * world) (o : gateway_op) : Gateway.Gateway world * world :=
  match o with
  | GwStart ctx => let '(_, g, w) := Gateway.Start now ctx gw.1 gw.2 in (g, w)
  | GwStop ctx => let '(_, g, w) := Gateway.Stop now ctx gw.1 gw.2 in (g, w)
  | GwElse f => (gw.1, (gw.2.1, f gw.2.2))
  end.

Definition gateway_run (ops : list gateway_op) (r : R) : Gateway.Gateway world * world :=
  foldl gateway_step (new_gateway, (∅, r)) ops.

Lemma gateway_run_in_order ops r : in_order (gateway_run ops r).1 (gateway_run ops r).2.
Proof.
  unfold gateway_run. induction ops as [|o ops IH] using rev_ind.
  - destruct new_gateway_ok as [H1 H2]. split; [done|]. cbn [foldl fst snd]. rewrite H2.
    apply Forall_forall. intros [p k] _. unfold server_of. cbn. rewrite lookup_empty. cbn.
    split; [done|]. symmetry. by apply bool_decide_eq_false.
  - rewrite foldl_app. cbn [foldl]. destruct (foldl gateway_step (new_gateway, (∅, r)) ops) as [g w]. cbn [fst snd] in IH.
    destruct o as [ctx|ctx|f]; cbn [gateway_step fst snd].
    + pose proof (Start_in_order ctx g w IH) as H. destruct (Gateway.Start now ctx g w) as [[e g'] w']. apply H.
    + pose proof (Stop_in_order ctx g w IH) as H. destruct (Gateway.Stop now ctx g w) as [[e g'] w']. apply H.
    + destruct IH as [H1 H2]. by split.
Qed.
End fixed.

(** Serving: one live socket, the server's own. *)
Definition serving (k : kind) (s : server) : Prop := exists i, own k s = Some i /\ live s = {[i]}.

Lemma in_order_all ks g w (p : Protocol) (k : kind) :
  servers_up ks (if Gateway.started (W := world) g then all_up ks else ∅) w -> (p, k) ∈ ks ->
  if Gateway.started g then serving k (server_of p w) else live (server_of p w) = ∅.
Proof.
  intros Hw Hin. unfold servers_up in Hw. rewrite Forall_forall in Hw. destruct (Hw (p, k) Hin) as [Hup Hst].
  cbn [fst snd] in *. unfold up_or_down in Hup. rewrite Hst in Hup. destruct (Gateway.started g).
  - rewrite bool_decide_eq_true_2 in Hup.
    + apply Hup.
    + unfold all_up. apply elem_of_list_to_set, list_elem_of_fmap. by exists (p, k).
  - by rewrite bool_decide_eq_false_2 in Hup by set_solver.
Qed.
End servers.

(** C6: A gateway and its servers are up together or down together.  Take a gateway
    with any servers of different protocols, each configured as its kind needs, and
    any sequence of starts and stops, with any contexts, while anything else goes
    on: plugins that fail to start, addresses that are taken, drains and closes that
    fail or time out, an administration listener that cannot listen.  After it,
    either the gateway is started and every server listens on one socket, its own;
    or it is not and no server has a socket at all.  A further start that reports
    success leaves the gateway started; one that reports an error leaves it as it
    was, with what it had begun undone; and a stop ends every server whatever
    errors it reports. *)
Theorem gateway_all_or_none {R} {smx : ServeMux} (can_listen : Protocol -> R -> bool) (drain close_sessions : Protocol -> Ctx -> R -> option error * R)
    (ks : list (Protocol * kind)) (Hnd : NoDup ks.*1) (Hcfg : Forall (fun pk => configured pk.2) ks)
    now plugins_start plugins_stop close_all adm stage_timeouts ops ctx r :
  let '(g, w) := gateway_run can_listen drain close_sessions ks now plugins_start plugins_stop close_all adm stage_timeouts ops r in
  let all_serve w := forall p k, (p, k) ∈ ks -> serving k (server_of p w) in
  let none_serves w := forall p k, (p, k) ∈ ks -> live (server_of p w) = ∅ in
  (if Gateway.started g then all_serve w else none_serves w) /\
  (let '(err, g', w') := Gateway.Start now ctx g w in
   (err = None -> Gateway.started g' = true /\ all_serve w') /\
   (err <> None -> Gateway.started g' = Gateway.started g /\ if Gateway.started g then all_serve w' else none_serves w')) /\
  (let '(err, g', w') := Gateway.Stop now ctx g w in Gateway.started g' = false /\ none_serves w').
Proof.
  pose proof (gateway_run_in_order can_listen drain close_sessions ks Hnd Hcfg now plugins_start plugins_stop close_all adm
    stage_timeouts ops r) as Hio.
  destruct (gateway_run _ _ _ _ _ _ _ _ _ _ _ _) as [g w]. cbn [fst snd] in Hio.
  pose proof (Start_in_order can_listen drain close_sessions ks Hnd Hcfg now plugins_start plugins_stop close_all adm ctx g w Hio) as Hs.
  pose proof (Stop_in_order can_listen drain close_sessions ks Hnd Hcfg now plugins_start plugins_stop close_all adm ctx g w Hio) as Ht.
  split; [|split].
  - destruct Hio as [_ Hup]. pose proof (in_order_all ks g w) as H.
    destruct (Gateway.started g); intros p k; by apply H.
  - destruct (Gateway.Start now ctx g w) as [[err g'] w']. destruct Hs as ([_ Hup] & H1 & H2).
    pose proof (in_order_all ks g' w') as H. split; intros He.
    + rewrite (H1 He) in *. split; [done|]. intros p k. by apply H.
    + rewrite (H2 He) in *. split; [done|]. destruct (Gateway.started g); intros p k; by apply H.
  - destruct (Gateway.Stop now ctx g w) as [[err g'] w']. destruct Ht as ([_ Hup] & H1).
    pose proof (in_order_all ks g' w') as H. rewrite H1 in *. split; [done|]. intros p k. by apply H.
Qed.

(** ** Witness *)

(** Three servers; the rest is whether the address of the HTTP server is free. *)
Definition three_servers : list (Protocol * kind) := [(ProtocolTCP, TCP); (ProtocolHTTP, HTTP); (ProtocolQUIC, QUIC true None)].

(** A start that finds the address taken, one that does not, and a stop. *)
Lemma gateway_all_or_none_witness :
  let run ops := gateway_run (fun p (free : bool) => bool_decide (p <> ProtocolHTTP) || free) (fun _ _ b => (None, b)) (fun _ _ b => (None, b))
    three_servers (fun _ => 0) (fun b => (None, b)) (fun b => (None, b)) (fun _ b => (None, b)) None (mkTimeouts 1 1 1 1) ops false in
  Gateway.started (run [GwStart Background; GwElse (fun _ => true); GwStart Background]).1 = true /\
  (forall p k, (p, k) ∈ three_servers ->
    serving k (server_of p (run [GwStart Background; GwElse (fun _ => true); GwStart Background]).2)) /\
  (forall p k, (p, k) ∈ three_servers -> live (server_of p (run [GwStart Background]).2) = ∅).
Proof.
  intros run. split; [by vm_compute|].
  assert (NoDup three_servers.*1) as Hnd by (repeat constructor; set_solver).
  assert (Forall (fun pk => configured pk.2) three_servers) as Hcfg by (by repeat constructor).
  split.
  - pose proof (gateway_all_or_none (fun p (free : bool) => bool_decide (p <> ProtocolHTTP) || free) (fun _ _ b => (None, b)) (fun _ _ b => (None, b))
      three_servers Hnd Hcfg (fun _ => 0) (fun b => (None, b)) (fun b => (None, b)) (fun _ b => (None, b)) None (mkTimeouts 1 1 1 1)
      [GwStart Background; GwElse (fun _ => true); GwStart Background] Background false) as H.
    assert (Gateway.started (run [GwStart Background; GwElse (fun _ => true); GwStart Background]).1 = true) as Hs by (by vm_compute).
    unfold run in *. destruct (gateway_run _ _ _ _ _ _ _ _ _ _ _ _) as [g w]. cbn [fst snd] in *. cbv zeta in H.
    destruct H as [H _]. rewrite Hs in H. exact H.
  - pose proof (gateway_all_or_none (fun p (free : bool) => bool_decide (p <> ProtocolHTTP) || free) (fun _ _ b => (None, b)) (fun _ _ b => (None, b))
      three_servers Hnd Hcfg (fun _ => 0) (fun b => (None, b)) (fun b => (None, b)) (fun _ b => (None, b)) None (mkTimeouts 1 1 1 1)
      [GwStart Background] Background false) as H.
    assert (Gateway.started (run [GwStart Background]).1 = false) as Hs by (by vm_compute).
    unfold run in *. destruct (gateway_run _ _ _ _ _ _ _ _ _ _ _ _) as [g w]. cbn [fst snd] in *. cbv zeta in H.
    destruct H as [H _]. rewrite Hs in H. exact H.
Defined.
