(* ===== verification/TestScripts.v ===== *)
(** * TestScripts: [scripts/run_stress.go], [scripts/parse_test_log.go] and [scripts/run_tests.go]

    The stress runner: what its three scenarios count, and the verdict its exit
    status gives.  A client of a scenario is the outcomes of its calls, as many as
    come before its time is over; the counters are atomic, so the clients of a run
    add up in any order.

    The report of a test run from the events of [go test -json]: the results kept by
    package and test, and the summary.  An event is what [encoding/json] makes of a
    line; lines it refuses are skipped by the caller.  Benchmark lines are matched
    by regular expressions and not modelled; they do not touch the results.

    The test runner: the commands of its modes, and when they succeed. *)
From Stdlib Require Import SpecFloat.
From S2P Require Import Prelude Bytes Core PeerAddr Quota Acceptor Duration LoadGen LoadMetrics.
Local Open Scope string_scope.
Local Open Scope Z_scope.
Local Open Scope list_scope.

(** ** What is counted *)

(* go: scripts/run_stress.go:171-180 (metrics) *)
Record metrics : Type := mkMetrics { sendOK : Z; sendErr : Z; recvOK : Z; recvErr : Z; latencies : list Z }.

Definition no_metrics : metrics := mkMetrics 0 0 0 0 [].
Definition add_metrics (a b : metrics) : metrics :=
  mkMetrics (sendOK a + sendOK b) (sendErr a + sendErr b) (recvOK a + recvOK b) (recvErr a + recvErr b) (latencies a ++ latencies b).

(* go: scripts/run_stress.go:184-185 (metrics) *)
Definition sent_ok : metrics := mkMetrics 1 0 0 0 [].
Definition send_failed : metrics := mkMetrics 0 1 0 0 [].
Definition received (d : Z) : metrics := mkMetrics 0 0 1 0 [d].
Definition recv_failed : metrics := mkMetrics 0 0 0 1 [].

(** The sorted copy of the latencies; the index is [int] of the whole. *)
(* go: scripts/run_stress.go:198-215 (metrics.percentile) *)
Definition m_percentile (m : metrics) (p : float64) : Z :=
  let sorted := merge_sort Z.le (latencies m) in
  if len sorted =? 0 then 0
  else
    let idx := float_to_int (fsub (Ceil (fmul p (float_of_int (len sorted)))) f1) in
    let idx := if idx <? 0 then 0 else idx in
    let idx := if len sorted <=? idx then len sorted - 1 else idx in
    nth (Z.to_nat idx) sorted 0.

(** The counters of a report. *)
(* go: scripts/run_stress.go:217-238 (metrics.report) *)
Record report : Type := mkReport { sent : Z; send_ok : Z; send_fail : Z; recv_ok : Z; recv_fail : Z; p50 : Z; p90 : Z; p99 : Z }.

(* go: scripts/run_stress.go:217-238 (metrics.report) *)
Definition report_of (m : metrics) : report :=
  mkReport (sendOK m + sendErr m) (sendOK m) (sendErr m) (recvOK m) (recvErr m)
    (m_percentile m (constant 1 2)) (m_percentile m (constant 9 10)) (m_percentile m (constant 99 100)).

(** ** The scenarios *)

(** An exchange: the error of the send, or the reply - its length and the time it
    took - or the error of the receive. *)
Inductive exchange : Type := SendError | ReplyOf (length took : Z) | ReceiveError.

(** The exchanges until the duration is over; the client gives up on the first
    that goes wrong. *)
(* go: scripts/run_stress.go:381-406 (runClient) *)
Fixpoint client_loop (size : Z) (xs : list exchange) : metrics :=
  match xs with
  | [] => no_metrics
  | SendError :: _ => send_failed
  | ReceiveError :: _ => sent_ok
  | ReplyOf n d :: xs =>
      if n =? size then add_metrics sent_ok (add_metrics (received d) (client_loop size xs)) else sent_ok
  end.

(** [None] for a client that could not connect. *)
(* go: scripts/run_stress.go:381-406 (runClient) *)
Definition runClient (size : Z) (conn : option (list exchange)) : metrics :=
  match conn with None => no_metrics | Some xs => client_loop size xs end.

(* go: scripts/run_stress.go:315-328 (runBurst) *)
Fixpoint burst_loop (size : Z) (xs : list exchange) : metrics :=
  match xs with
  | [] => no_metrics
  | SendError :: _ => send_failed
  | ReceiveError :: xs => add_metrics sent_ok (add_metrics recv_failed (burst_loop size xs))
  | ReplyOf n d :: xs =>
      add_metrics sent_ok (add_metrics (if n =? size then received d else recv_failed) (burst_loop size xs))
  end.

(** At most ten exchanges. *)
(* go: scripts/run_stress.go:303-329 (runBurst) *)
Definition burst_client (size : Z) (conn : option (list exchange)) : metrics :=
  match conn with None => no_metrics | Some xs => burst_loop size (take 10 xs) end.

(** A connection for every exchange; one that cannot be made is tried again. *)
(* go: scripts/run_stress.go:346-371 (runReconnect) *)
Fixpoint reconnect_client (xs : list (option exchange)) : metrics :=
  match xs with
  | [] => no_metrics
  | None :: xs => reconnect_client xs
  | Some SendError :: xs => add_metrics send_failed (reconnect_client xs)
  | Some (ReplyOf _ d) :: xs => add_metrics sent_ok (add_metrics (received d) (reconnect_client xs))
  | Some ReceiveError :: xs => add_metrics sent_ok (add_metrics recv_failed (reconnect_client xs))
  end.

Definition total {A} (client : A -> metrics) (clients : list A) : metrics :=
  foldr (fun c m => add_metrics (client c) m) no_metrics clients.

(* go: scripts/run_stress.go:266-292 (runTCPConcurrent) *)
Definition runTCPConcurrent (size : Z) (clients : list (option (list exchange))) : report :=
  report_of (total (runClient size) clients).
(* go: scripts/run_stress.go:294-338 (runBurst) *)
Definition runBurst (size : Z) (clients : list (option (list exchange))) : report :=
  report_of (total (burst_client size) clients).
(* go: scripts/run_stress.go:340-379 (runReconnect) *)
Definition runReconnect (clients : list (list (option exchange))) : report :=
  report_of (total reconnect_client clients).

(** ** The verdict *)

(* go: scripts/run_stress.go:112-112 (maxStressErrorRate) *)
Definition maxStressErrorRate : float64 := constant 5 100.

Inductive reason : Type := NothingSent | NoReplies | SendErrorRate | ReceiveErrorRate.

#[export] Instance reason_eq_dec : EqDecision reason.
Proof. solve_decision. Defined.

Definition rate_exceeds (failures total : Z) : bool :=
  fltb maxStressErrorRate (fdiv (float_of_int failures) (float_of_int total)).

(** The reasons of one mode. *)
(* go: scripts/run_stress.go:126-147 (stressFailures) *)
Definition mode_failures (r : report) : list reason :=
  if sent r =? 0 then [NothingSent]
  else if recv_ok r =? 0 then [NoReplies]
  else
    (if rate_exceeds (send_fail r) (sent r) then [SendErrorRate] else []) ++
    (let total := recv_ok r + recv_fail r in
     if (0 <? total) && rate_exceeds (recv_fail r) total then [ReceiveErrorRate] else []).

(** Over the modes in sorted order; the run passes when there is none. *)
(* go: scripts/run_stress.go:117-150 (stressFailures) *)
Definition stressFailures (results : list (bytes * report)) : list (bytes * reason) :=
  results ≫= (fun mr => (pair mr.1) <$> mode_failures mr.2).

(** ** The resources of the host *)

(** The first MemAvailable line, in megabytes. *)
(* go: scripts/run_stress.go:457-473 (readMemAvailableMB) *)
Fixpoint mem_available (lines : list bytes) : option Z :=
  match lines with
  | [] => None
  | line :: lines =>
      match Fields line with
      | label :: kb :: _ =>
          if bool_decide (label = bytes_of_string "MemAvailable:") then
            (fun kb => Z.quot kb 1024) <$> Atoi kb
          else mem_available lines
      | _ => mem_available lines
      end
  end.

(* go: scripts/run_stress.go:442-455 (stressResourceGate) *)
Definition stressResourceGate (linux : bool) (mem : option Z) (load : option float64) : bool :=
  if negb linux then true
  else
    match mem, load with
    | Some mem, Some load => negb ((mem <? 768) || fltb (constant 5 2) load)
    | _, _ => true
    end.

(** ** Theorems *)

Lemma no_failures n : rate_exceeds 0 n = false.
Proof. unfold rate_exceeds, maxStressErrorRate. destruct (float_of_int n) as [s|s| |s m e]; by vm_compute. Qed.

Lemma total_sum {A} (client : A -> metrics) (f : metrics -> Z) clients :
  f no_metrics = 0 -> (forall a b, f (add_metrics a b) = f a + f b) ->
  f (total client clients) = foldr (fun c n => f (client c) + n) 0 clients.
Proof. intros H0 Ha. induction clients as [|c cs IH]; [done|]. cbn [total foldr]. rewrite Ha. by f_equal. Qed.

Lemma client_loop_counts size xs :
  recvErr (client_loop size xs) = 0 /\ 0 <= recvOK (client_loop size xs) <= sendOK (client_loop size xs) /\
  sendOK (client_loop size xs) - recvOK (client_loop size xs) <= 1 /\ 0 <= sendErr (client_loop size xs) <= 1.
Proof.
  induction xs as [|[|n d|] xs IH]; cbn [client_loop]; try (cbn; lia).
  destruct (n =? size); cbn in *; lia.
Qed.

Lemma sum_nonneg {A} (f : A -> Z) l : (forall x, 0 <= f x) -> 0 <= foldr (fun c n => f c + n) 0 l.
Proof. intros H. induction l as [|x l IH]; cbn; [lia|]. specialize (H x). lia. Qed.

(** the stress test over TCP does not judge replies.  Whatever the clients
    meet, none of their receives that fail - a reply that does not come, one of the
    wrong length - is counted, and a connection that cannot be made is not counted
    either; so a run without send errors passes as soon as one reply has come, even
    if every other client was refused, or lost the reply it was waiting for. *)
Theorem tcp_stress_blind size (clients : list (option (list exchange))) :
  let r := runTCPConcurrent size clients in
  recv_fail r = 0 /\ ReceiveErrorRate ∉ mode_failures r /\
  (send_fail r = 0 -> 0 < recv_ok r -> stressFailures [(bytes_of_string "tcp", r)] = []).
Proof.
  intros r. set (m := total (runClient size) clients).
  assert (recvErr m = 0) as Hf.
  { unfold m. rewrite total_sum by done. clear. induction clients as [|[xs|] cs IH]; [done| |exact IH].
    cbn. rewrite IH. destruct (client_loop_counts size xs) as [-> _]. done. }
  assert (0 <= sendErr m /\ recvOK m <= sendOK m) as [Hse Hle].
  { unfold m. split.
    - rewrite total_sum by done. apply sum_nonneg. intros [xs|]; [|done]. cbn. apply client_loop_counts.
    - rewrite !total_sum by done. clear. induction clients as [|[xs|] cs IH]; [done| |exact IH].
      cbn. pose proof (client_loop_counts size xs). lia. }
  assert (mode_failures r = if sent r =? 0 then [NothingSent] else if recv_ok r =? 0 then [NoReplies]
    else (if rate_exceeds (send_fail r) (sent r) then [SendErrorRate] else []) ++ []) as E.
  { unfold mode_failures. change (recv_fail r) with (recvErr m). rewrite Hf, no_failures, andb_false_r. done. }
  split; [exact Hf|]. split.
  - rewrite E. destruct (sent r =? 0); [set_solver|]. destruct (recv_ok r =? 0); [set_solver|].
    destruct (rate_exceeds _ _); set_solver.
  - intros Hs Hr. unfold stressFailures. cbn. rewrite E, Hs, no_failures.
    change (recv_ok r) with (recvOK m) in *. change (sent r) with (sendOK m + sendErr m).
    rewrite !(proj2 (Z.eqb_neq _ _)) by lia. done.
Qed.

(** A hundred clients, of which half are refused and all but one lose their reply. *)
Definition lost_run : list (option (list exchange)) :=
  Some [ReplyOf 256 1] :: replicate 49 (Some [ReceiveError]) ++ replicate 50 None.

Lemma tcp_stress_blind_witness :
  sent (runTCPConcurrent 256 lost_run) = 50 /\ recv_ok (runTCPConcurrent 256 lost_run) = 1 /\
  stressFailures [(bytes_of_string "tcp", runTCPConcurrent 256 lost_run)] = [].
Proof.
  split; [by vm_compute|]. split; [by vm_compute|].
  apply (proj2 (proj2 (tcp_stress_blind 256 lost_run))); by vm_compute.
Defined.

Lemma burst_loop_counts size xs :
  sendOK (burst_loop size xs) = recvOK (burst_loop size xs) + recvErr (burst_loop size xs) /\
  0 <= recvOK (burst_loop size xs) /\ 0 <= recvErr (burst_loop size xs) /\
  sendOK (burst_loop size xs) + sendErr (burst_loop size xs) <= len xs /\ 0 <= sendErr (burst_loop size xs) <= 1.
Proof.
  induction xs as [|[|n d|] xs IH]; cbn [burst_loop]; rewrite ?len_cons.
  - done.
  - cbn. pose proof (len_nonneg xs). lia.
  - destruct (n =? size); cbn in *; lia.
  - cbn in *. lia.
Qed.

(** the burst accounts for every message.  Whatever the clients meet, a message
    that went out is counted as answered or as lost, one or the other; a client
    sends ten at most and reports one send error at most; and a run of which
    everything sent was lost fails. *)
Theorem burst_accounts size (clients : list (option (list exchange))) :
  let r := runBurst size clients in
  send_ok r = recv_ok r + recv_fail r /\ sent r = send_ok r + send_fail r /\
  sent r <= 10 * len clients /\ 0 <= send_fail r <= len clients /\
  (recv_ok r = 0 -> mode_failures r <> []).
Proof.
  intros r. set (m := total (burst_client size) clients).
  assert (sendOK m = recvOK m + recvErr m /\ sendOK m + sendErr m <= 10 * len clients /\ 0 <= sendErr m <= len clients) as (H1 & H2 & H3).
  { unfold m. rewrite !total_sum by done. clear. induction clients as [|c cs IH]; [by cbn|].
    rewrite len_cons. cbn [foldr]. destruct c as [xs|]; [|cbn; lia]. cbn [burst_client].
    pose proof (burst_loop_counts size (take 10 xs)) as (B1 & B2 & B3 & B4 & B5).
    assert (len (take 10 xs) <= 10) by (unfold len; rewrite length_take; lia). lia. }
  split; [exact H1|]. split; [done|]. split; [exact H2|]. split; [exact H3|]. intros Hr. unfold mode_failures.
  destruct (sent r =? 0); [done|]. by rewrite Hr.
Qed.

(** Half of the replies lost is too many. *)
Example burst_half_lost :
  mode_failures (runBurst 1 [Some [ReplyOf 1 5; ReceiveError]]) = [ReceiveErrorRate].
Proof. by vm_compute. Qed.

(** * The report of a test run *)

Definition modulePrefix : bytes := bytes_of_string "github.com/X1aSheng/shark-socket/".

(* go: scripts/parse_test_log.go:16-23 (testEvent) *)
Record testEvent : Type := mkEvent { ev_Action : bytes; ev_Package : bytes; ev_Test : bytes; ev_Output : bytes }.

(* go: scripts/parse_test_log.go:25-29 (testResult) *)
Record testResult : Type := mkResult { action : bytes; outputs : list bytes }.

(** [strings.HasPrefix] and [strings.HasSuffix] *)
Definition HasPrefix (s p : bytes) : bool := bool_decide (take (length p) s = p).
Definition HasSuffix (s p : bytes) : bool := bool_decide (drop (length s - length p) s = p).
Definition TrimPrefix (s p : bytes) : bytes := if HasPrefix s p then drop (length p) s else s.

(* go: scripts/parse_test_log.go:214-216 (stripModule) *)
Definition stripModule (pkg : bytes) : bytes := TrimPrefix pkg modulePrefix.

(** The results under package, slash and test, and the packages as first seen. *)
(* go: scripts/parse_test_log.go:64-70 (parseFile) *)
Record parsed : Type := mkParsed { tests : gmap bytes testResult; packages : list bytes }.

Definition slash : bytes := [47].
Definition key (pkg test : bytes) : bytes := pkg ++ slash ++ test.
Definition verdict (a : bytes) : bool :=
  bool_decide (a = bytes_of_string "pass") || bool_decide (a = bytes_of_string "fail") || bool_decide (a = bytes_of_string "skip").

(* go: scripts/parse_test_log.go:78-117 (parseFile) *)
Definition on_event (ev : testEvent) (p : parsed) : parsed :=
  let pkg := stripModule (ev_Package ev) in
  let pkgs := match pkg with
              | [] => packages p
              | _ => if bool_decide (pkg ∈ packages p) then packages p else packages p ++ [pkg]
              end in
  let k := key pkg (ev_Test ev) in
  let old := default (mkResult [] []) (tests p !! k) in
  let tests' :=
    match ev_Test ev with
    | [] => tests p
    | _ =>
        if bool_decide (ev_Action ev = bytes_of_string "run") then <[k := mkResult (bytes_of_string "run") []]> (tests p)
        else if verdict (ev_Action ev) then <[k := mkResult (ev_Action ev) (outputs old)]> (tests p)
        else if bool_decide (ev_Action ev = bytes_of_string "output") then
          <[k := mkResult (action old) (outputs old ++ [ev_Output ev])]> (tests p)
        else tests p
    end in
  mkParsed tests' pkgs.

Definition parse (evs : list testEvent) : parsed := foldl (fun p ev => on_event ev p) (mkParsed ∅ []) evs.

(** The tests listed under a package. *)
(* go: scripts/parse_test_log.go:134-136 (parseFile) *)
Definition listed (pkg k : bytes) : bool := HasPrefix k (pkg ++ slash) && negb (HasSuffix k slash).

(** How many times a verdict is counted. *)
(* go: scripts/parse_test_log.go:131-156 (parseFile) *)
Definition counted (a : bytes) (p : parsed) : Z :=
  foldr (fun pkg n => Z.of_nat (size (filter (fun kr : bytes * testResult => listed pkg kr.1 = true /\ action kr.2 = a) (tests p))) + n)
    0 (packages p).

(** Passed, failed and skipped. *)
(* go: scripts/parse_test_log.go:130-169 (parseFile) *)
Definition summary (p : parsed) : Z * Z * Z :=
  (counted (bytes_of_string "pass") p, counted (bytes_of_string "fail") p, counted (bytes_of_string "skip") p).

(** ** What it should count *)

(** How many tests have a verdict. *)
Definition with_verdict (a : bytes) (p : parsed) : Z :=
  Z.of_nat (size (filter (fun kr : bytes * testResult => action kr.2 = a) (tests p))).

(** No package is in a directory of another. *)
Definition not_nested (pkgs : list bytes) : Prop :=
  forall p q, p ∈ pkgs -> q ∈ pkgs -> HasPrefix (q ++ slash) (p ++ slash) = true -> p = q.

(** Every event names a package, and no test name ends in a slash. *)
Definition event_ok (ev : testEvent) : Prop :=
  stripModule (ev_Package ev) <> [] /\ HasSuffix (ev_Test ev) slash = false.

(** Every result is under a package that was seen. *)
Definition parsed_ok (p : parsed) : Prop :=
  NoDup (packages p) /\
  forall k, is_Some (tests p !! k) -> exists pkg test, k = key pkg test /\ pkg ∈ packages p /\ HasSuffix k slash = false.

Lemma HasPrefix_spec s p : HasPrefix s p = true <-> exists t, s = p ++ t.
Proof.
  unfold HasPrefix. rewrite bool_decide_eq_true. split.
  - intros H. exists (drop (length p) s). rewrite <- H at 1. by rewrite take_drop.
  - intros [t ->]. by rewrite take_app_length.
Qed.

Lemma HasSuffix_key pkg test : test <> [] -> HasSuffix (key pkg test) slash = HasSuffix test slash.
Proof.
  intros Ht. unfold HasSuffix, key, slash. f_equal. apply bool_decide_ext.
  rewrite !length_app. cbn [length]. rewrite app_assoc, drop_app_ge by (rewrite length_app; destruct test; [done|cbn; lia]).
  rewrite length_app. cbn [length]. replace (length pkg + (1 + length test) - 1 - (length pkg + 1))%nat with (length test - 1)%nat by lia.
  done.
Qed.

Lemma on_event_ok ev p : event_ok ev -> parsed_ok p -> parsed_ok (on_event ev p).
Proof.
  intros [Hp Ht] [Hnd Hk]. unfold on_event. set (pkg := stripModule (ev_Package ev)) in *.
  set (pkgs := match pkg with [] => _ | _ => _ end).
  assert (NoDup pkgs /\ pkg ∈ pkgs /\ packages p ⊆ pkgs) as (H1 & H2 & H3).
  { unfold pkgs. destruct pkg as [|b pk] eqn:E; [done|]. case_bool_decide as Hin; [done|].
    split_and!; [|set_solver..]. apply NoDup_app. split; [done|]. split; [set_solver|apply NoDup_singleton]. }
  split; [exact H1|]. cbn [packages tests]. intros k Hs.
  assert (is_Some (tests p !! k) \/ k = key pkg (ev_Test ev) /\ ev_Test ev <> []) as [Hs'|[-> Hne]].
  { destruct (ev_Test ev) as [|b t]; [by left|].
    repeat match type of Hs with context [if ?c then _ else _] => destruct c end; try (by left);
      (destruct (decide (k = key pkg (b :: t))) as [->|Hne]; [by right|left; by rewrite lookup_insert_ne in Hs by congruence]). }
  - destruct (Hk k Hs') as (pk & t & -> & Hin & Hsuf). exists pk, t. split_and!; [done|by apply H3|done].
  - exists pkg, (ev_Test ev). split_and!; [done|done|]. by rewrite HasSuffix_key.
Qed.

Lemma parse_ok evs : Forall event_ok evs -> parsed_ok (parse evs).
Proof.
  unfold parse. intros H. assert (parsed_ok (mkParsed ∅ [])) as H0.
  { split; [constructor|]. intros k [? Hk]. cbn in Hk. by rewrite lookup_empty in Hk. }
  revert H0. generalize (mkParsed ∅ []). induction H as [|ev evs Hev _ IH]; intros p Hp; [done|].
  cbn [foldl]. by apply IH, on_event_ok.
Qed.

Lemma listed_own p pkg t :
  parsed_ok p -> not_nested (packages p) -> pkg ∈ packages p -> HasSuffix (key pkg t) slash = false ->
  forall q, q ∈ packages p -> listed q (key pkg t) = true <-> q = pkg.
Proof.
  intros Hok Hn Hpkg Hs q Hq. unfold listed. rewrite Hs. cbn [negb]. rewrite andb_true_r, HasPrefix_spec. split.
  - intros [s E]. assert ((q ++ slash) `prefix_of` key pkg t /\ (pkg ++ slash) `prefix_of` key pkg t) as [H1 H2].
    { split; [by exists s|]. exists t. unfold key. by rewrite <- (app_assoc pkg). }
    destruct (prefix_weak_total _ _ _ H1 H2) as [[u Hu]|[u Hu]].
    + apply Hn; [done|done|]. apply HasPrefix_spec. by exists u.
    + symmetry. apply Hn; [done|done|]. apply HasPrefix_spec. by exists u.
  - intros ->. exists t. unfold key. by rewrite <- (app_assoc pkg).
Qed.

Lemma size_filter_insert (P : bytes * testResult -> Prop) `{!forall x, Decision (P x)} (k : bytes) (r : testResult) (m : gmap bytes testResult) :
  m !! k = None ->
  size (filter P (<[k := r]> m)) = ((if decide (P (k, r)) then 1 else 0) + size (filter P m))%nat.
Proof.
  intros Hk. destruct (decide (P (k, r))) as [Hd|Hd].
  - rewrite map_filter_insert_True by done. rewrite map_size_insert_None; [done|].
    apply map_lookup_filter_None. by left.
  - by rewrite map_filter_insert_not' by naive_solver.
Qed.

(** One test in a sum over the packages. *)
Lemma sum_one (L : bytes -> bool) (own : bytes) pkgs (f : bytes -> Z) :
  NoDup pkgs -> own ∈ pkgs -> (forall q, q ∈ pkgs -> L q = true <-> q = own) ->
  foldr (fun q n => (if L q then 1 else 0) + f q + n) 0 pkgs = 1 + foldr (fun q n => f q + n) 0 pkgs.
Proof.
  assert (forall l, (forall q, q ∈ l -> L q = false) ->
    foldr (fun q n => (if L q then 1 else 0) + f q + n) 0 l = foldr (fun q n => f q + n) 0 l) as H0.
  { induction l as [|q l IH]; intros H; [done|]. cbn. rewrite H, IH by set_solver. done. }
  induction 1 as [|q l Hq Hl IH]; intros Hin HL; [by apply elem_of_nil in Hin|]. cbn.
  destruct (decide (q = own)) as [->|Hne].
  - rewrite (proj2 (HL own ltac:(by left)) eq_refl). rewrite H0; [lia|]. intros x Hx.
    destruct (L x) eqn:E; [|done]. apply HL in E; [|by right]. by subst.
  - destruct (L q) eqn:E; [by apply HL in E; [|by left]|]. rewrite IH; [lia| |].
    + apply elem_of_cons in Hin as [->|?]; done.
    + intros x Hx. apply HL. by right.
Qed.

Lemma counted_once a p :
  parsed_ok p -> not_nested (packages p) -> counted a p = with_verdict a p.
Proof.
  intros Hok Hn. pose proof Hok as [Hnd Hk]. unfold counted, with_verdict.
  assert (forall k, is_Some (tests p !! k) -> exists own, own ∈ packages p /\
    forall q, q ∈ packages p -> listed q k = true <-> q = own) as Hown.
  { intros k Hs. destruct (Hk k Hs) as (pkg & t & -> & Hin & Hsuf). exists pkg. split; [done|].
    intros q Hq. by apply (listed_own p). }
  revert Hown. generalize (packages p) Hnd. clear. intros pkgs Hnd.
  induction (tests p) as [|k r m Hkm IH] using map_ind; intros Hown.
  { rewrite map_filter_empty, map_size_empty. clear. induction pkgs as [|q l IH]; [done|]. cbn.
    by rewrite map_filter_empty, map_size_empty, IH. }
  rewrite size_filter_insert, Nat2Z.inj_add by done. rewrite <- IH.
  2: { intros k' Hs. apply Hown. destruct (decide (k' = k)) as [->|Hne]; [by rewrite lookup_insert_eq|by rewrite lookup_insert_ne]. }
  destruct (Hown k) as (own & Hin & HL); [by rewrite lookup_insert_eq|].
  assert (forall pk, Z.of_nat (size (filter (fun kr : bytes * testResult => listed pk kr.1 = true /\ action kr.2 = a) (<[k:=r]> m)))
    = (if listed pk k then if decide (action r = a) then 1 else 0 else 0) +
      Z.of_nat (size (filter (fun kr : bytes * testResult => listed pk kr.1 = true /\ action kr.2 = a) m))) as Es.
  { intros pk. rewrite size_filter_insert, Nat2Z.inj_add by done. f_equal. cbn [fst snd].
    destruct (listed pk k), (decide (action r = a)); case_decide; naive_solver. }
  erewrite (foldr_ext _ (fun pk n => (if listed pk k then if decide (action r = a) then 1 else 0 else 0) +
      Z.of_nat (size (filter (fun kr : bytes * testResult => listed pk kr.1 = true /\ action kr.2 = a) m)) + n) _ _ pkgs pkgs);
    [|by intros; rewrite Es|done|done]. cbn [fst snd].
  destruct (decide (action r = a)).
  - by apply (sum_one (fun q => listed q k) own).
  - cbn. f_equal. clear. induction pkgs as [|q l IH]; [done|]. cbn. rewrite IH. by destruct (listed q k).
Qed.

(** The last event of a kind decides a test. *)
Lemma tests_after evs ev pkg test :
  stripModule (ev_Package ev) = pkg -> ev_Test ev = test -> test <> [] -> verdict (ev_Action ev) = true ->
  action <$> tests (parse (evs ++ [ev])) !! key pkg test = Some (ev_Action ev).
Proof.
  intros <- <- Ht Hv. unfold parse. rewrite foldl_app. cbn [foldl]. unfold on_event. cbn [tests].
  destruct (ev_Test ev) as [|b t]; [done|]. rewrite bool_decide_eq_false_2, Hv, lookup_insert_eq; [done|].
  intros E. rewrite E in Hv. by vm_compute in Hv.
Qed.

(** the summary counts each test once, unless packages nest.  Whatever events a
    run has, if none of its packages lies in the directory of another, the passed,
    failed and skipped of the summary are the numbers of tests that ended so, and a
    verdict that comes last is the one a test is counted under. *)
Theorem summary_counts_once evs (Hev : Forall event_ok evs) (Hn : not_nested (packages (parse evs))) :
  summary (parse evs) =
    (with_verdict (bytes_of_string "pass") (parse evs), with_verdict (bytes_of_string "fail") (parse evs),
     with_verdict (bytes_of_string "skip") (parse evs)) /\
  (forall evs' ev, evs = evs' ++ [ev] -> ev_Test ev <> [] -> verdict (ev_Action ev) = true ->
     action <$> tests (parse evs) !! key (stripModule (ev_Package ev)) (ev_Test ev) = Some (ev_Action ev)).
Proof.
  split.
  - unfold summary. by rewrite !counted_once by (done || by apply parse_ok).
  - intros evs' ev -> Ht Hv. by apply tests_after.
Qed.

Definition event (a pkg test : string) : testEvent :=
  mkEvent (bytes_of_string a) (modulePrefix ++ bytes_of_string pkg) (bytes_of_string test) [].

Definition flat_run : list testEvent :=
  [event "run" "internal/core" "TestA"; event "pass" "internal/core" "TestA"; event "run" "internal/app" "TestB"; event "fail" "internal/app" "TestB"].

Lemma summary_counts_once_witness : summary (parse flat_run) = (1, 1, 0).
Proof.
  assert (not_nested (packages (parse flat_run))) as Hn.
  { assert (packages (parse flat_run) = [bytes_of_string "internal/core"; bytes_of_string "internal/app"]) as -> by reflexivity.
    intros p q Hp Hq. rewrite !elem_of_cons in Hp, Hq.
    destruct Hp as [->|[->|Hp]], Hq as [->|[->|Hq]]; try (by apply elem_of_nil in Hp); try (by apply elem_of_nil in Hq); by vm_compute. }
  rewrite (proj1 (summary_counts_once flat_run ltac:(repeat constructor; done) Hn)). vm_compute. reflexivity.
Defined.

(** A package under another: its tests are listed and counted under both. *)
Example nested_counted_twice :
  summary (parse [event "pass" "tests" "TestA"; event "pass" "tests/stress" "TestB"; event "fail" "tests/stress" "TestC"]) = (3, 2, 0).
Proof. vm_compute. reflexivity. Qed.

(** * The test runner: [scripts/run_tests.go]

    Which commands a mode runs, and when it succeeds; what [go] does is a parameter. *)

(** ** Commands *)

(** [go] with an environment, none for that of the process. *)
Record command : Type := mkCommand { cmd_env : option (list bytes); cmd_args : list bytes }.

Abbreviation S_ := bytes_of_string.

(* go: scripts/run_tests.go:74-82 (runGoTest) *)
Definition test_args (json : bool) (timeout : bytes) (serial : bool) (packages : list bytes) : list bytes :=
  [S_ "test"] ++ (if json then [S_ "-json"] else []) ++ [S_ "-v"; S_ "-count=1"; S_ "-timeout=" ++ timeout] ++
  (if serial then [S_ "-p"; S_ "1"] else []) ++ packages.

Definition bench_packages : list bytes := [S_ "./internal/transport/tcp"; S_ "./internal/transport/coap"; S_ "./tests/benchmark"].

(* go: scripts/run_tests.go:112-131 (runBenchmark) *)
Definition benchmark_args (json : bool) (timeout : bytes) : list bytes :=
  [S_ "test"; (if json then S_ "-json" else S_ "-v"); S_ "-run=^$"; S_ "-bench=."; S_ "-benchmem"; S_ "-count=1";
   S_ "-timeout=" ++ timeout] ++ bench_packages.

(* go: scripts/run_tests.go:133-154 (runRace) *)
Definition race_args (json : bool) (timeout : bytes) : list bytes :=
  [S_ "test"] ++ (if json then [S_ "-json"] else []) ++ [S_ "-race"; S_ "-v"; S_ "-count=1"; S_ "-timeout=" ++ timeout; S_ "./..."].

(** The directories of a compiler that exist, on Windows; [path] is [PATH] there,
    the list separator between. *)
(* go: scripts/run_tests.go:156-182 (raceEnv) *)
Definition raceEnv (environ : list bytes) (windows : bool) (present : list bytes) (path : bytes) : list bytes :=
  let env := List.filter (fun kv => negb (HasPrefix kv (S_ "CGO_ENABLED="))) environ ++ [S_ "CGO_ENABLED=1"] in
  if windows then
    match present with
    | [] => env
    | _ => env ++ [S_ "PATH=" ++ Join [59] (present ++ [path])]
    end
  else env.

(** ** Packages and coverage *)

Definition Contains (s sub : bytes) : bool := existsb (fun i => HasPrefix (drop i s) sub) (seq 0 (S (length s))).

(* go: scripts/run_tests.go:248-267 (productionPackages) *)
Definition productionPackages (listed : option bytes) : option (list bytes) :=
  out ← listed;
  match List.filter (fun line => negb (bool_decide (line = [])) && negb (HasSuffix line (S_ "/tests") || Contains line (S_ "/tests/")))
          (split_on 10 [] (TrimSpace out)) with
  | [] => None
  | pkgs => Some pkgs
  end.

Section coverage.
(** [strconv.ParseFloat], whose error is ignored. *)
Variable ParseFloat : bytes -> float64.

(* go: scripts/run_tests.go:221-236 (parseCoverageTotal) *)
Definition parseCoverageTotal (output : bytes) : float64 :=
  let lastLine := List.last (split_on 10 [] (TrimSpace output)) [] in
  match List.find (fun f => HasSuffix f [37]) (Fields lastLine) with
  | Some f => ParseFloat (take (length f - 1) f)
  | None => f0
  end.

Definition minCoverage : float64 := float_of_int 70.

(** What a command prints, and whether it succeeded. *)
Variable go : command -> bytes * bool.

Definition run_plain (args : list bytes) : bool := (go (mkCommand None args)).2.

(* go: scripts/run_tests.go:184-219 (runCover) *)
Definition runCover (timeout coverFile : bytes) : bool :=
  let '(list_, ok) := go (mkCommand None [S_ "list"; S_ "./..."]) in
  match productionPackages (if ok then Some list_ else None) with
  | None => false
  | Some pkgs =>
      if negb (run_plain ([S_ "test"] ++ pkgs ++ [S_ "-count=1"; S_ "-coverprofile=" ++ coverFile; S_ "-timeout=" ++ timeout])) then false
      else
        let '(totals, ok) := go (mkCommand None [S_ "tool"; S_ "cover"; S_ "-func=" ++ coverFile]) in
        if negb ok then false else negb (fltb (parseCoverageTotal totals) minCoverage)
  end.

(** ** The modes *)

Definition unit_packages : list bytes := [S_ "./api"; S_ "./cmd/..."; S_ "./internal/..."].

(** The exit status; a step that fails ends the run. *)
(* go: scripts/run_tests.go:41-70 (main) *)
Definition run_mode (mode timeout coverFile : bytes) (json : bool) (race_env : list bytes) : Z :=
  let must (ok : bool) (rest : Z) := if ok then rest else 1 in
  let unit_ := run_plain (test_args json timeout false unit_packages) in
  let integration := run_plain (test_args json timeout true [S_ "./tests/..."]) in
  let benchmark := run_plain (benchmark_args json timeout) in
  if bool_decide (mode = S_ "unit") then must unit_ 0
  else if bool_decide (mode = S_ "integration") then must integration 0
  else if bool_decide (mode = S_ "deploy") then must (run_plain (test_args json timeout false [S_ "./tests/deploy"])) 0
  else if bool_decide (mode = S_ "vet") then must (run_plain [S_ "vet"; S_ "./..."]) 0
  else if bool_decide (mode = S_ "benchmark") then must benchmark 0
  else if bool_decide (mode = S_ "race") then must (go (mkCommand (Some race_env) (race_args json timeout))).2 0
  else if bool_decide (mode = S_ "cover") then must (runCover timeout coverFile) 0
  else if bool_decide (mode = S_ "all") then must unit_ (must integration (must benchmark 0))
  else 2.
End coverage.

(** The directory of the module: the nearest one above that holds a [go.mod]; the
    path is given from its last element. *)
(* go: scripts/run_tests.go:269-284 (projectRoot) *)
Fixpoint projectRoot (has_mod : list bytes -> bool) (wd : list bytes) : option (list bytes) :=
  if has_mod wd then Some wd else match wd with [] => None | _ :: up => projectRoot has_mod up end.

(** ** Theorems about the runner *)

Lemma HasPrefix_app s k : HasPrefix (s ++ k) s = true.
Proof. unfold HasPrefix. by rewrite take_app_length, bool_decide_eq_true_2. Qed.

Definition is_cgo (kv : bytes) : bool := HasPrefix kv (S_ "CGO_ENABLED=").

(** The race detector is run with cgo on, whatever the environment says: the one
    setting of [CGO_ENABLED] is 1, and on other systems than Windows everything
    else is as it was. *)
Theorem race_env_exact environ windows present path :
  List.filter is_cgo (raceEnv environ windows present path) = [S_ "CGO_ENABLED=1"] /\
  (windows = false \/ present = [] ->
    List.filter (fun kv => negb (is_cgo kv)) (raceEnv environ windows present path) = List.filter (fun kv => negb (is_cgo kv)) environ).
Proof.
  set (kept := List.filter (fun kv => negb (is_cgo kv)) environ).
  assert (List.filter is_cgo kept = []) as H1.
  { subst kept. clear. induction environ as [|kv l IH]; [done|]. cbn [List.filter]. destruct (is_cgo kv) eqn:E; cbn [negb List.filter]; [exact IH|]. by rewrite E. }
  assert (List.filter (fun kv => negb (is_cgo kv)) kept = kept) as H2.
  { subst kept. clear. induction environ as [|kv l IH]; [done|]. cbn [List.filter]. destruct (is_cgo kv) eqn:E; cbn [negb List.filter]; [exact IH|].
    rewrite E. cbn [negb]. by rewrite IH. }
  unfold raceEnv. change (List.filter (fun kv => negb (HasPrefix kv (S_ "CGO_ENABLED="))) environ) with kept.
  assert (forall x, is_cgo (S_ "PATH=" ++ x) = false) as Hp by reflexivity.
  destruct windows, present as [|d ds]; rewrite ?List.filter_app, ?H1, ?H2; cbn [List.filter app].
  all: rewrite ?Hp; change (is_cgo (S_ "CGO_ENABLED=1")) with true; cbn [negb]; rewrite ?app_nil_r.
  all: split; [done|]; try done. by intros [?|?].
Qed.

(** The packages whose coverage counts are those listed, without the tests. *)
Theorem production_packages_exact out pkgs p :
  productionPackages (Some out) = Some pkgs ->
  (p ∈ pkgs <-> p ∈ split_on 10 [] (TrimSpace out) /\ p <> [] /\ HasSuffix p (S_ "/tests") = false /\ Contains p (S_ "/tests/") = false).
Proof.
  unfold productionPackages. cbn [mbind option_bind].
  destruct (List.filter _ _) as [|q l] eqn:E; [done|]. intros [= <-]. rewrite <- E.
  rewrite list_elem_of_In, filter_In, <- list_elem_of_In, andb_true_iff, !negb_true_iff, orb_false_iff, bool_decide_eq_false. tauto.
Qed.

(** The mode that runs everything succeeds exactly if the unit tests, the tests of
    the servers and the benchmarks do; they are run in this order up to the first
    that fails, and the status is 1 then. *)
Theorem all_mode_exact ParseFloat go timeout coverFile json env :
  let passed := fun args => (go (mkCommand None args)).2 in
  let commands := [test_args json timeout false unit_packages; test_args json timeout true [S_ "./tests/..."]; benchmark_args json timeout] in
  run_mode ParseFloat go (S_ "all") timeout coverFile json env = (if forallb passed commands then 0 else 1).
Proof. cbn zeta. unfold run_mode, run_plain. cbn [forallb]. cbn -[test_args benchmark_args]. by repeat case_match. Qed.

(** The coverage run fails under the minimum, and without any package or total. *)
Theorem cover_mode_exact ParseFloat go timeout coverFile :
  runCover ParseFloat go timeout coverFile = true <->
  exists out pkgs totals,
    go (mkCommand None [S_ "list"; S_ "./..."]) = (out, true) /\ productionPackages (Some out) = Some pkgs /\
    run_plain go ([S_ "test"] ++ pkgs ++ [S_ "-count=1"; S_ "-coverprofile=" ++ coverFile; S_ "-timeout=" ++ timeout]) = true /\
    go (mkCommand None [S_ "tool"; S_ "cover"; S_ "-func=" ++ coverFile]) = (totals, true) /\
    fltb (parseCoverageTotal ParseFloat totals) minCoverage = false.
Proof.
  unfold runCover. destruct (go (mkCommand None [S_ "list"; S_ "./..."])) as [out ok].
  destruct ok; [|change (productionPackages None) with (@None (list bytes)); split; [done|by intros (?&?&?&?&_)]].
  destruct (productionPackages (Some out)) as [pkgs|] eqn:Ep; [|split; [done|by intros (o & pkgs & totals & [= <-] & E & _); rewrite Ep in E]].
  split.
  - destruct (run_plain _ _) eqn:Er; [|done]. cbn [negb].
    destruct (go (mkCommand None [S_ "tool"; _; _])) as [totals ok] eqn:Et. destruct ok; [|done]. cbn [negb]. intros H%negb_true_iff.
    exists out, pkgs, totals. split_and!; done.
  - intros (o & pkgs' & totals & [= <-] & E & Er & Et & Hl). rewrite Ep in E. injection E as <-. rewrite Er. cbn [negb].
    rewrite Et. cbn [negb]. by rewrite Hl.
Qed.

(** The root found is a directory on the path with a [go.mod], and the nearest. *)
Theorem project_root_nearest has_mod wd :
  match projectRoot has_mod wd with
  | Some root => has_mod root = true /\ exists below, wd = below ++ root /\
      forall i, (i < length below)%nat -> has_mod (drop i wd) = false
  | None => forall i, has_mod (drop i wd) = false
  end.
Proof.
  induction wd as [|d wd IH]; cbn [projectRoot].
  - destruct (has_mod []) eqn:E; [|by intros [|i]]. split; [done|]. exists []. split; [done|]. cbn. lia.
  - destruct (has_mod (d :: wd)) eqn:E; [split; [done|]; exists []; split; [done|]; cbn; lia|].
    destruct (projectRoot has_mod wd) as [root|].
    + destruct IH as (H1 & below & -> & H2). split; [done|]. exists (d :: below). split; [done|].
      intros i Hi. destruct i as [|i]; [exact E|]. apply H2. cbn in Hi. lia.
    + intros i. destruct i as [|i]; [exact E|apply IH].
Qed.

(** The last line of what [go tool cover -func] prints. *)
Example total_line :
  parseCoverageTotal (fun s => if bool_decide (s = S_ "71.2") then float_of_int 71 else f0)
    (S_ "a.go:1:" ++ [9] ++ S_ "f" ++ [9] ++ S_ "50.0%" ++ [10] ++ S_ "total:" ++ [9] ++ S_ "(statements)" ++ [9] ++ S_ "71.2%" ++ [10]) =
  float_of_int 71.
Proof. vm_compute. reflexivity. Qed.

Definition listing : bytes :=
  S_ "m/internal/core" ++ [10] ++ S_ "m/tests" ++ [10] ++ S_ "m/tests/stress" ++ [10] ++ S_ "m/testsuite" ++ [10].

Lemma production_packages_exact_witness : S_ "m/internal/core" ∈ [S_ "m/internal/core"; S_ "m/testsuite"].
Proof.
  apply (production_packages_exact listing); [vm_compute; reflexivity|]. split; [decide_now|].
  split; [discriminate|]. split; vm_compute; reflexivity.
Defined.

Lemma race_env_exact_witness :
  List.filter (fun kv => negb (is_cgo kv)) (raceEnv [S_ "A=1"; S_ "CGO_ENABLED=0"] false [] []) = [S_ "A=1"].
Proof. rewrite (proj2 (race_env_exact [S_ "A=1"; S_ "CGO_ENABLED=0"] false [] [])) by (by left). reflexivity. Defined.
