(* ===== verification/Command.v ===== *)
(** * Command: the program [cmd/shark-socket/main.go], and its log

    The loggers of [internal/core/observability.go] and
    [internal/infra/observability/logger.go]: levels, the memory logger's window,
    attributes.

    The program: the configuration loaded, the application put together and
    started, reloads on SIGHUP by a goroutine of their own, and the stop on SIGINT
    or SIGTERM.  The configuration files and the signals come from outside, in any
    order; a reload reads the file at one moment and applies it at a later one.  The
    watchers of the certificates tick beside it, at any states of the disk, and the
    goroutines of the health and metrics endpoints take their steps.  Of the lines
    handed to the logger the model keeps those of the configuration's reloads. *)
From S2P Require Blacklist RateLimit Gateway Reload.
From S2P Require Import Prelude Bytes Core PeerAddr Quota Acceptor Duration Config CertWatch App Metrics.
Local Open Scope string_scope.
Local Open Scope Z_scope.
Local Open Scope list_scope.

(** ** The levelled logger *)

(** The levels of [slog]. *)
Definition LevelDebug : Z := -4.
Definition LevelInfo : Z := 0.
Definition LevelWarn : Z := 4.
Definition LevelError : Z := 8.

(** The level variable and the records written; [None] below is the nil logger. *)
(* go: internal/core/observability.go:53-56 (LeveledLogger) *)
Record LeveledLogger : Type := mkLogger { level : Z; written : list (Z * bytes) }.

(* go: internal/core/observability.go:59-64 (NewLeveledLogger) *)
Definition NewLeveledLogger (lv : Z) : LeveledLogger := mkLogger lv [].

(* go: internal/core/observability.go:67-72 (SetLevel) *)
Definition SetLevel (lv : Z) (l : option LeveledLogger) : option LeveledLogger :=
  (fun l => mkLogger lv (written l)) <$> l.

(* go: internal/core/observability.go:75-80 (Level) *)
Definition Level (l : option LeveledLogger) : Z :=
  match l with None => LevelInfo | Some l => level l end.

(** A record of the given level; [slog] asks the variable for every record. *)
Definition log (lv : Z) (msg : bytes) (l : option LeveledLogger) : option LeveledLogger :=
  (fun l => if level l <=? lv then mkLogger (level l) (written l ++ [(lv, msg)]) else l) <$> l.

(* go: internal/core/observability.go:82-87 (Debug) *)
Definition Debug := log LevelDebug.
(* go: internal/core/observability.go:89-94 (Info) *)
Definition Info := log LevelInfo.
(* go: internal/core/observability.go:96-101 (Warn) *)
Definition Warn := log LevelWarn.
(* go: internal/core/observability.go:103-108 (Error) *)
Definition Error := log LevelError.

Inductive logcall : Type := CSetLevel (lv : Z) | CLog (lv : Z) (msg : bytes).

Definition logcalls (cs : list logcall) (l : option LeveledLogger) : option LeveledLogger :=
  foldl (fun l c => match c with CSetLevel lv => SetLevel lv l | CLog lv msg => log lv msg l end) l cs.

(** The level in force before the n-th call. *)
Definition level_before (lv : Z) (cs : list logcall) : Z :=
  foldl (fun lv c => match c with CSetLevel lv => lv | CLog _ _ => lv end) lv cs.

(** What should be written: the messages at or above the level last set. *)
Fixpoint loud (lv : Z) (cs : list logcall) : list (Z * bytes) :=
  match cs with
  | [] => []
  | CSetLevel lv :: cs => loud lv cs
  | CLog l msg :: cs => (if lv <=? l then [(l, msg)] else []) ++ loud lv cs
  end.

Lemma logcalls_spec cs l :
  logcalls cs (Some l) = Some (mkLogger (level_before (level l) cs) (written l ++ loud (level l) cs)).
Proof.
  unfold logcalls, level_before. revert l. induction cs as [|[lv|lv msg] cs IH]; intros [l ws]; cbn [foldl loud level written].
  - by rewrite app_nil_r.
  - cbn [SetLevel fmap option_fmap option_map]. by rewrite IH.
  - cbn [log fmap option_fmap option_map level written]. destruct (l <=? lv); rewrite IH; cbn [level written]; [|done].
    by rewrite <- app_assoc.
Qed.

(** A changed level holds for the very next record, and a nil logger is silent: of
    any calls, in any order, exactly the messages at or above the level last set
    before them are written. *)
Theorem level_takes_effect lv cs :
  written <$> logcalls cs (Some (NewLeveledLogger lv)) = Some (loud lv cs) /\
  Level (logcalls cs (Some (NewLeveledLogger lv))) = level_before lv cs /\ logcalls cs None = None.
Proof.
  split; [by rewrite logcalls_spec|]. split; [by rewrite logcalls_spec|].
  unfold logcalls. induction cs as [|[l|l msg] cs IH]; done.
Qed.

(** ** The logger that remembers *)

Section attributes.
(** Values of any type. *)
Context {any : Type}.

(* go: internal/infra/observability/logger.go:9-13 (LogEntry) *)
Record LogEntry : Type := mkEntry { e_Level : string; e_Msg : bytes; e_Attrs : list any }.

(* go: internal/infra/observability/logger.go:36-46 (append) *)
Definition append (lv : string) (msg : bytes) (attrs : list any) (entries : list LogEntry) : list LogEntry :=
  let entries := entries ++ [mkEntry lv msg attrs] in
  if (maxMemoryObservations <? length entries)%nat then drop (length entries - maxMemoryObservations) entries else entries.

Definition appends (es : list LogEntry) : list LogEntry :=
  foldl (fun l e => append (e_Level e) (e_Msg e) (e_Attrs e) l) [] es.

(** The memory logger holds the latest entries, in order, and all of them until
    there are too many. *)
Theorem memory_logger_window es : appends es = latest maxMemoryObservations es.
Proof.
  unfold appends. induction es as [|e es IH] using rev_ind; [done|].
  rewrite foldl_app. cbn [foldl]. rewrite IH. unfold append.
  assert (mkEntry (e_Level e) (e_Msg e) (e_Attrs e) = e) as -> by (by destruct e).
  symmetry. apply latest_snoc. unfold maxMemoryObservations. lia.
Qed.

(** ** Attributes of spans *)

(** The attribute values that keep their type, and [fmt.Sprint]. *)
Inductive value : Type := VString (s : bytes) | VBool (b : bool) | VInt (n : Z) | VFloat (f : float64).
Variable Sprint : any -> bytes.
Variable typed : any -> option value.

(* go: internal/infra/observability/otel.go:64-79 (otelAttribute) *)
Definition otelAttribute (k : bytes) (v : any) : bytes * value :=
  (k, match typed v with Some v => v | None => VString (Sprint v) end).

(* go: internal/infra/observability/otel.go:45-62 (otelAttributes) *)
Fixpoint otelAttributes (attrs : list any) : list (bytes * value) :=
  match attrs with
  | [] => []
  | k :: attrs =>
      let key := match Sprint k with [] => bytes_of_string "attr" | s => s end in
      match attrs with
      | [] => [(key, VString [])]
      | v :: attrs => otelAttribute key v :: otelAttributes attrs
      end
  end.

(** Every pair of arguments is one attribute, in order, none with an empty key; an
    argument left over is a key with an empty string. *)
Theorem attributes_paired (kvs : list (any * any)) (odd : option any) :
  otelAttributes ((kvs ≫= fun kv => [kv.1; kv.2]) ++ match odd with Some k => [k] | None => [] end) =
    map (fun kv => otelAttribute (match Sprint kv.1 with [] => bytes_of_string "attr" | s => s end) kv.2) kvs ++
    match odd with Some k => [(match Sprint k with [] => bytes_of_string "attr" | s => s end, VString [])] | None => [] end /\
  Forall (fun a => a.1 <> []) (otelAttributes ((kvs ≫= fun kv => [kv.1; kv.2]) ++ match odd with Some k => [k] | None => [] end)).
Proof.
  assert (forall k : any, match Sprint k with [] => bytes_of_string "attr" | s => s end <> []) as Hne
    by (intros k; by destruct (Sprint k)).
  assert (forall l, otelAttributes ((l ≫= fun kv : any * any => [kv.1; kv.2]) ++ match odd with Some k => [k] | None => [] end) =
    map (fun kv => otelAttribute (match Sprint kv.1 with [] => bytes_of_string "attr" | s => s end) kv.2) l ++
    match odd with Some k => [(match Sprint k with [] => bytes_of_string "attr" | s => s end, VString [])] | None => [] end) as E.
  { induction l as [|[k v] l IH]; [by destruct odd|]. cbn [mbind list_bind map app otelAttributes fst snd].
    f_equal. exact IH. }
  split; [apply E|]. rewrite E. apply Forall_app. split.
  - apply Forall_map, Forall_forall. intros [k v] _. apply Hne.
  - destruct odd as [k|]; [|done]. repeat constructor. apply Hne.
Qed.
End attributes.

(** * The program: [cmd/shark-socket/main.go] *)

Section command.
Context {W cert pool : Type} (now : W -> Z) `{!ServerFactory W} `{!MapRange bytes}.
Variable AppendCertsFromPEM : bytes -> option pool.
Variable shutdown : string -> Gateway.Ctx -> W -> option error * W.
(** Reading JSON, the environment, and the [-config] flag. *)
Variable read_json : bytes -> result error ConfigDoc.
Variable lookup : string -> option bytes.
Variable configPath : bytes.

Abbreviation App := (@App.App W cert pool).

(** What [os.ReadFile] returns at a time. *)
Definition files := bytes -> result error bytes.

Definition load (fs : files) : result error Config := LoadConfig read_json fs lookup configPath.

(** The lines a reload logs; the limit is the pair of the rate and the window. *)
Inductive entry : Type :=
| Rejected (e : error)
| Reloaded (log_level : bytes) (blacklist_entries : nat) (rate_limit : option (Z * Z)).

(* go: cmd/shark-socket/main.go:84-93 (rateLimitSummary) *)
Definition rateLimitSummary (cfg : Config) : option (Z * Z) :=
  match RateLimit cfg with
  | None => None
  | Some r => Some (PerSecond r, match WindowDuration r with Ok window => window | Err _ => second end)
  end.

(** [reload], from the configuration that [LoadConfig] returned. *)
Definition apply (loaded : result error Config) (a : Reload.App) : entry * Reload.App :=
  match loaded with
  | Err e => (Rejected e, a)
  | Ok cfg =>
      match Reload.Reload cfg a with
      | (Some e, a) => (Rejected e, a)
      | (None, a) =>
          let current := Reload.CurrentConfig a in
          (Reloaded (LogLevel current) (length (Blacklist_ current)) (rateLimitSummary current), a)
      end
  end.

(* go: cmd/shark-socket/main.go:71-82 (reload) *)
Definition reload (fs : files) (a : Reload.App) : entry * Reload.App :=
  match Reload.ReloadFile read_json fs lookup configPath a with
  | (Some e, a) => (Rejected e, a)
  | (None, a) =>
      let current := Reload.CurrentConfig a in
      (Reloaded (LogLevel current) (length (Blacklist_ current)) (rateLimitSummary current), a)
  end.

Lemma reload_apply fs a : reload fs a = apply (load fs) a.
Proof. unfold reload, Reload.ReloadFile, load, apply. by destruct (LoadConfig _ _ _ _). Qed.

(** The goroutine of the reloads: waiting; about to read the file; about to apply
    what it read; returned. *)
Inductive reloader : Type :=
| Idle
| Reading
| Applying (loaded : result error Config)
| Returned_.

(** [main] after the start: waiting for the signal; or stopped, under a grace
    period. *)
Inductive waiting : Type := Serving_ | Stopped (grace : Z) (err : option error).

(** [hup]: a signal is in the channel, whose capacity is one; [ctx_done]: SIGINT
    or SIGTERM came. *)
Record proc : Type := mkProc {
  fs : files;
  app : App;
  world : W;
  hup : bool;
  ctx_done : bool;
  loop : reloader;
  main_ : waiting;
  logged : list entry
}.

Definition set_core (a : App) (c : Reload.App) : App :=
  mkApp c (gateway a) (watchers a) (watching a) (app_Protocols a) (endpoints a) (serveErrors a).
Definition set_watchers (a : App) ws : App :=
  mkApp (core a) (gateway a) ws (watching a) (app_Protocols a) (endpoints a) (serveErrors a).

(** ** The start *)

(** [log.Fatal] before anything is started; and once the start has failed. *)
Inductive started : Type :=
| Fatal (e : error)
| FatalStart (e : error) (a : App)
| Running (p : proc).

(* go: cmd/shark-socket/main.go:16-55 (main) *)
Definition main_start (f : files) (d dw : @disk cert) (g : Gateway.Gateway W) (w : W) : started :=
  match load f with
  | Err e => Fatal e
  | Ok cfg =>
      match New AppendCertsFromPEM d dw cfg g with
      | Err e => Fatal e
      | Ok a =>
          match Start now Gateway.Background a w with
          | (Some e, a, _) => FatalStart e a
          | (None, a, w) => Running (mkProc f a w false false Idle Serving_ [])
          end
      end
  end.

(** ** The run *)

(** What comes from outside: an edit of the configuration file, the signals, a tick
    of the watcher of the i-th certificate at a state of the disk, and what befalls
    the health and metrics endpoints. *)
Inductive event : Type := Edit (f : files) | SIGHUP | SIGTERM | Tick (i : nat) (d : @disk cert) | Http | Tau.

(** The notification of a signal does not wait: one that finds the channel full is
    dropped.  When the signal and the end are both there, [select] takes either.
    The goroutines of the application run beside it: the watchers of [App.New] until
    [App.Stop] cancels them, and those of the endpoints. *)
(* go: cmd/shark-socket/main.go:47-69 (main) *)
Inductive step (p : proc) : event -> proc -> Prop :=
| s_edit f : step p (Edit f) (mkProc f (app p) (world p) (hup p) (ctx_done p) (loop p) (main_ p) (logged p))
| s_hup : step p SIGHUP (mkProc (fs p) (app p) (world p) true (ctx_done p) (loop p) (main_ p) (logged p))
| s_term : step p SIGTERM (mkProc (fs p) (app p) (world p) (hup p) true (loop p) (main_ p) (logged p))
| s_tick i d s : watching (app p) = true -> watchers (app p) !! i = Some s ->
    step p (Tick i d)
      (mkProc (fs p) (set_watchers (app p) (<[i := (tick AppendCertsFromPEM d s).2]> (watchers (app p)))) (world p)
         (hup p) (ctx_done p) (loop p) (main_ p) (logged p))
| s_http a : serve_step (app p) a ->
    step p Http (mkProc (fs p) a (world p) (hup p) (ctx_done p) (loop p) (main_ p) (logged p))
| s_take : loop p = Idle -> hup p = true ->
    step p Tau (mkProc (fs p) (app p) (world p) false (ctx_done p) Reading (main_ p) (logged p))
| s_read : loop p = Reading ->
    step p Tau (mkProc (fs p) (app p) (world p) (hup p) (ctx_done p) (Applying (load (fs p))) (main_ p) (logged p))
| s_apply c : loop p = Applying c ->
    step p Tau
      (let '(line, r) := apply c (core (app p)) in
       mkProc (fs p) (set_core (app p) r) (world p) (hup p) (ctx_done p) Idle (main_ p) (logged p ++ [line]))
| s_return : loop p = Idle -> ctx_done p = true ->
    step p Tau (mkProc (fs p) (app p) (world p) (hup p) (ctx_done p) Returned_ (main_ p) (logged p))
| s_stop : main_ p = Serving_ -> ctx_done p = true ->
    step p Tau
      (let grace := Reload.app_ShutdownDuration (core (app p)) in
       let '(err, a, w) := Stop now shutdown (Gateway.WithTimeout Gateway.Background (now (world p)) grace) (app p) (world p) in
       mkProc (fs p) a w (hup p) (ctx_done p) (loop p) (Stopped grace err) (logged p)).

Inductive run : list event -> proc -> proc -> Prop :=
| run_nil p : run [] p p
| run_cons e tr p1 p2 p3 : step p1 e p2 -> run tr p2 p3 -> run (e :: tr) p1 p3.

(** ** The configuration in force *)

(** The parts of the application stand for one valid configuration, which has the
    listeners and the limiter that [cfg0] has. *)
Record in_force (cfg0 : Config) (r : Reload.App) : Prop := {
  if_valid : Validate (Reload.app_Config r) = None;
  if_health : HealthAddr (Reload.app_Config r) = HealthAddr cfg0;
  if_metrics : MetricsAddr (Reload.app_Config r) = MetricsAddr cfg0;
  if_protocols : Reload.enabledProtocols (Protocols (Reload.app_Config r)) = Reload.enabledProtocols (Protocols cfg0);
  if_limiter : RateLimit (Reload.app_Config r) = None <-> RateLimit cfg0 = None;
  if_blacklist : Reload.app_blacklist r = Some (Blacklist.NewBlacklist (Blacklist_ (Reload.app_Config r)));
  if_level : ParseLevel (LogLevel (Reload.app_Config r)) = Ok (Reload.app_level r);
  if_rate :
    match Reload.app_rateLimit r, RateLimit (Reload.app_Config r) with
    | None, None => True
    | Some l, Some c => RateLimit.rate l = PerSecond c /\ WindowDuration c = Ok (RateLimit.window l)
    | _, _ => False
    end
}.

Lemma SetLimit_valid cfg c l :
  Validate cfg = None -> RateLimit cfg = Some c ->
  exists w, WindowDuration c = Ok w /\ RateLimit.rate (RateLimit.SetLimit (PerSecond c) w l) = PerSecond c /\
    RateLimit.window (RateLimit.SetLimit (PerSecond c) w l) = w.
Proof.
  intros HV%Validate_spec Hc. destruct (co_rate cfg HV c Hc) as (Hp & w & Hw & Hw0 & _).
  exists w. split; [done|]. unfold RateLimit.SetLimit. cbn [RateLimit.rate RateLimit.window].
  destruct (PerSecond c <=? 0) eqn:E1; [breflect; lia|]. destruct (w <=? 0) eqn:E2; [breflect; lia|done].
Qed.

Lemma New_in_force cfg r : Reload.New cfg = Ok r -> Reload.app_Config r = cfg /\ in_force cfg r.
Proof.
  unfold Reload.New. destruct (Validate cfg) eqn:HV; [done|]. destruct (ParseLevel (LogLevel cfg)) as [level|] eqn:El; [|done].
  destruct (RateLimit cfg) as [c|] eqn:Er.
  - destruct (SetLimit_valid cfg c (RateLimit.mkRateLimit (replicate RateLimit.rateLimitShardCount ∅) 0 0) HV Er) as (w & Ew & H1 & H2).
    rewrite Ew. intros [= <-]. split; [done|].
    split; cbn [Reload.app_Config Reload.app_blacklist Reload.app_rateLimit Reload.app_level]; try done.
    rewrite Er. unfold RateLimit.NewRateLimit. by rewrite H2.
  - intros [= <-]. split; [done|]. split; cbn; try done. by rewrite Er.
Qed.

(** A reload that is refused changes nothing; one that is accepted puts its
    configuration in force, and stays within the listeners. *)
Lemma Reload_in_force cfg0 cfg r :
  in_force cfg0 r ->
  let '(err, r') := Reload.Reload cfg r in
  in_force cfg0 r' /\ (err <> None -> r' = r) /\ (err = None -> Reload.app_Config r' = cfg).
Proof.
  intros Hr. pose proof (Reload.reload_all_or_nothing cfg r) as H. ospecialize (H _); [by rewrite (if_blacklist _ _ Hr)|].
  cbv zeta in H. destruct (Reload.Reload cfg r) as [err r'] eqn:ER. destruct H as (Hiff & Hno & Hyes).
  destruct err as [e|]; [rewrite Hno by done; done|]. split; [|split; [done|by intros _; apply Hyes]].
  destruct (proj1 Hiff eq_refl) as (HV & Hl & (Hh & Hm & Hp)). destruct (Hyes eq_refl) as (Hc & Hb & Hlev & Hrl).
  assert (Reload.app_rateLimit r' = None <-> Reload.app_rateLimit r = None) as Hn.
  { revert ER. unfold Reload.Reload. repeat (case_match; try discriminate). all: intros [= <-]; cbn; congruence || naive_solver. }
  split; rewrite ?Hc; try done.
  - rewrite <- Hh. apply Hr.
  - rewrite <- Hm. apply Hr.
  - rewrite <- Hp. apply Hr.
  - rewrite <- Hl. pose proof (if_rate _ _ Hr) as Hx. rewrite <- (if_limiter _ _ Hr).
    destruct (Reload.app_rateLimit r), (RateLimit (Reload.app_Config r)); naive_solver.
  - destruct (Reload.app_rateLimit r) as [l|] eqn:E1.
    + destruct (RateLimit cfg) as [c|] eqn:E2; [|by discriminate (proj2 Hl eq_refl)].
      destruct (Hrl c l eq_refl eq_refl) as (w & Ew & ->). destruct (SetLimit_valid cfg c l HV E2) as (w' & Ew' & H1 & H2).
      rewrite Ew in Ew'. injection Ew' as <-. split; [done|]. by rewrite Ew, H2.
    + rewrite (proj2 Hn eq_refl). by rewrite (proj1 Hl eq_refl).
Qed.

Lemma apply_in_force cfg0 loaded r :
  in_force cfg0 r ->
  let '(line, r') := apply loaded r in
  in_force cfg0 r' /\
  match line with
  | Rejected _ => r' = r
  | Reloaded level n limit => exists cfg, loaded = Ok cfg /\ Reload.app_Config r' = cfg /\
      level = LogLevel cfg /\ n = length (Blacklist_ cfg) /\ limit = rateLimitSummary cfg
  end.
Proof.
  intros Hr. unfold apply. destruct loaded as [cfg|e]; [|done].
  pose proof (Reload_in_force cfg0 cfg r Hr) as H. destruct (Reload.Reload cfg r) as [[e|] r']; destruct H as (H1 & H2 & H3).
  - split; [done|]. by apply H2.
  - split; [done|]. unfold Reload.CurrentConfig. rewrite (H3 eq_refl). by exists cfg.
Qed.

Lemma run_invariant (I : proc -> Prop) :
  (forall p e p', I p -> step p e p' -> I p') -> forall tr p p', run tr p p' -> I p -> I p'.
Proof. intros Hs tr p p' Hr. induction Hr; eauto. Qed.

Lemma core_set_core (a : App) c : core (set_core a c) = c.
Proof. done. Qed.

Lemma core_Stop ctx (a : App) w : core (Stop now shutdown ctx a w).1.2 = core a.
Proof.
  unfold Stop. destruct (Gateway.Stop now ctx (gateway a) w) as [[e g] w1].
  by destruct (shutdown_all shutdown ctx (endpoints a) e w1) as [[? ?] ?].
Qed.

(** What a run leaves of an application: its gateway and its protocols; its endpoints,
    whatever became of their goroutines; and its certificates but for what ticks of
    their watchers put there. *)
Record unchanged (a0 a : App) : Prop := {
  un_gateway : gateway a = gateway a0;
  un_protocols : app_Protocols a = app_Protocols a0;
  un_watching : watching a = watching a0;
  un_endpoints :
    map (fun e => (ep_name e, ep_addr e, inShutdown e)) (endpoints a) =
    map (fun e => (ep_name e, ep_addr e, inShutdown e)) (endpoints a0);
  un_watchers : Forall2 (fun s0 s => exists ds, s = (ticks AppendCertsFromPEM ds s0).2) (watchers a0) (watchers a)
}.

Lemma unchanged_refl a : unchanged a a.
Proof. split; try done. apply Forall_Forall2_diag, Forall_true. intros s. by exists []. Qed.

Lemma unchanged_core a0 a c : unchanged a0 a -> unchanged a0 (set_core a c).
Proof. by intros [? ? ? ? ?]. Qed.

Lemma ticks_snoc (ds : list (@disk cert)) d (s : Watcher * @CertCache cert pool) : (ticks AppendCertsFromPEM (ds ++ [d]) s).2 = (tick AppendCertsFromPEM d (ticks AppendCertsFromPEM ds s).2).2.
Proof.
  revert s. induction ds as [|d' ds IH]; intros s; cbn [List.app]; rewrite !ticks_cons; cbn [snd]; [done|]. apply IH.
Qed.

Lemma unchanged_tick a0 a i d s :
  unchanged a0 a -> watchers a !! i = Some s ->
  unchanged a0 (set_watchers a (<[i := (tick AppendCertsFromPEM d s).2]> (watchers a))).
Proof.
  intros [H1 H2 H3 H4 H5] Hi. split; try done. cbn. apply Forall2_same_length_lookup_2.
  { rewrite length_insert. eapply Forall2_length, H5. }
  intros j s0 s' Hj Hs'. destruct (decide (j = i)) as [->|Hne].
  - rewrite list_lookup_insert_eq in Hs' by (eapply lookup_lt_Some; exact Hi). injection Hs' as <-.
    destruct (Forall2_lookup_lr _ _ _ _ _ _ H5 Hj Hi) as [ds ->]. exists (ds ++ [d]). by rewrite ticks_snoc.
  - rewrite list_lookup_insert_ne in Hs' by done. exact (Forall2_lookup_lr _ _ _ _ _ _ H5 Hj Hs').
Qed.

Lemma map_insert_same {A B} (f : A -> B) (l : list A) i x y : l !! i = Some x -> f y = f x -> map f (<[i := y]> l) = map f l.
Proof.
  intros Hi E. change (map f) with (fmap (M := list) f). rewrite list_fmap_insert, E. apply list_insert_id. by rewrite list_lookup_fmap, Hi.
Qed.

Lemma serve_step_same a a' : serve_step a a' ->
  core a' = core a /\ (forall a0, unchanged a0 a -> unchanged a0 a').
Proof.
  intros Hs. split; [by destruct Hs|]. intros a0 [H1 H2 H3 H4 H5].
  destruct Hs as [i e j Hi Hj Hd|i e j Hi Hj Hd|i e j Hi Hj Hd|i e j q err Hi Hj Hq Hd]; split; try done; cbn;
    rewrite <- H4; (eapply map_insert_same; [exact Hi|]); cbn; by rewrite Hd.
Qed.

(** What holds of the process at every moment: [a0] is the application as it was
    started. *)
Record serves (cfg0 : Config) (a0 : App) (p : proc) : Prop := {
  sv_force : in_force cfg0 (core (app p));
  sv_main :
    match main_ p with
    | Serving_ => unchanged a0 (app p)
    | Stopped grace _ => ctx_done p = true /\ 0 < grace <= max_int64
    end
}.

Lemma grace_positive cfg0 r : in_force cfg0 r -> 0 < Reload.app_ShutdownDuration r <= max_int64.
Proof.
  intros Hr. pose proof (proj1 (Validate_spec _) (if_valid _ _ Hr)) as HV. destruct (co_shutdown _ HV) as (t & Ht & Hb).
  unfold Reload.app_ShutdownDuration, Reload.CurrentConfig. by rewrite Ht.
Qed.

Lemma step_serves cfg0 a0 p e p' : serves cfg0 a0 p -> step p e p' -> serves cfg0 a0 p'.
Proof.
  intros [Hf Hm] Hs.
  destruct Hs as [f| | |i d s Hw Hi|a Ha|Hl Hh|Hl|c Hl|Hl Hd|Hw Hd]; try (split; [exact Hf|cbn; destruct (main_ p); naive_solver]).
  - split; [exact Hf|]. cbn [main_ app]. destruct (main_ p); [|exact Hm]. exact (unchanged_tick _ _ _ d _ Hm Hi).
  - destruct (serve_step_same _ _ Ha) as [Hc Hu]. split; [cbn; by rewrite Hc|]. cbn. destruct (main_ p); [by apply Hu|done].
  - pose proof (apply_in_force cfg0 c _ Hf) as H. destruct (apply c (core (app p))) as [line r]. destruct H as [H _].
    split; [exact H|]. cbn. destruct (main_ p); [|done]. by apply unchanged_core.
  - pose proof (core_Stop (Gateway.WithTimeout Gateway.Background (now (world p)) (Reload.app_ShutdownDuration (core (app p)))) (app p) (world p)) as Hc.
    cbv zeta. destruct (Stop now shutdown _ (app p) (world p)) as [[err a] w]. cbn [fst snd] in Hc.
    split; [rewrite <- Hc in Hf; exact Hf|]. cbn [main_ ctx_done]. split; [done|]. by eapply grace_positive.
Qed.

Lemma main_start_serves f d dw g w p :
  main_start f d dw g w = Running p ->
  exists cfg, load f = Ok cfg /\ serves cfg (app p) p /\ Reload.app_Config (core (app p)) = cfg /\
    main_ p = Serving_ /\ ctx_done p = false /\ Gateway.Ready (gateway (app p)) = true /\
    Forall (fun e => Starting ∈ goroutines e) (endpoints (app p)).
Proof.
  unfold main_start. destruct (load f) as [cfg|]; [|done]. unfold New.
  destruct (Reload.New cfg) as [r|] eqn:En; [|done]. destruct (New_in_force cfg r En) as [Hc Hf].
  destruct (registerProtocols _ _ _ _ _) as [[rg ws]|]; [|done]. unfold Start. cbn [gateway core].
  destruct (Gateway.Start now Gateway.Background (r_gateway rg) w) as [[[e|] g'] w'] eqn:Es; [done|].
  intros [= <-]. exists cfg. cbn. split_and!; try done.
  - split; [exact Hf|apply unchanged_refl].
  - revert Es. unfold Gateway.Start. repeat (case_match; try discriminate). all: by intros [= <- _].
  - apply Forall_map, Forall_true. intros e. unfold spawn. cbn. apply elem_of_app. right. by left.
Qed.

Definition rejected (l : entry) : Prop := match l with Rejected _ => True | Reloaded _ _ _ => False end.

Lemma step_logged cfg0 a0 p e p' :
  serves cfg0 a0 p -> step p e p' ->
  exists l, logged p' = logged p ++ l /\ (Forall rejected l -> core (app p') = core (app p)).
Proof.
  intros [Hf _] Hs. destruct Hs as [f| | |i d s Hw Hi|a Ha|Hl Hh|Hl|c Hl|Hl Hd|Hw Hd]; try (by exists []; rewrite app_nil_r).
  - exists []. rewrite app_nil_r. split; [done|]. intros _. apply serve_step_same, Ha.
  - pose proof (apply_in_force cfg0 c _ Hf) as H. destruct (apply c (core (app p))) as [line r]. destruct H as [_ H].
    exists [line]. split; [done|]. intros [Hr _]%Forall_cons. destruct line; [exact H|by cbn in Hr].
  - exists []. cbv zeta. rewrite app_nil_r. pose proof (core_Stop (Gateway.WithTimeout Gateway.Background (now (world p)) (Reload.app_ShutdownDuration (core (app p)))) (app p) (world p)) as Hc.
    destruct (Stop now shutdown _ (app p) (world p)) as [[err a] w]. done.
Qed.

Lemma run_serves cfg0 a0 tr p p' : run tr p p' -> serves cfg0 a0 p -> serves cfg0 a0 p'.
Proof. intros Hr. eapply run_invariant; [|exact Hr]. eauto using step_serves. Qed.

Lemma run_logged cfg0 a0 tr p p' :
  run tr p p' -> serves cfg0 a0 p ->
  exists l, logged p' = logged p ++ l /\ (Forall rejected l -> core (app p') = core (app p)).
Proof.
  induction 1 as [p|e tr p1 p2 p3 Hs _ IH]; intros Hp; [exists []; by rewrite app_nil_r|].
  destruct (step_logged _ _ _ _ _ Hp Hs) as (l1 & E1 & H1). destruct (IH (step_serves _ _ _ _ _ Hp Hs)) as (l2 & E2 & H2).
  exists (l1 ++ l2). rewrite E2, E1, app_assoc. split; [done|]. rewrite Forall_app. intros [? ?]. rewrite H2, H1 by done. done.
Qed.

Lemma run_ctx_done tr p p' : run tr p p' -> ctx_done p' = ctx_done p || existsb (fun e => match e with SIGTERM => true | _ => false end) tr.
Proof.
  induction 1 as [p|e tr p1 p2 p3 Hs _ IH]; [by rewrite orb_false_r|]. rewrite IH. cbn [existsb].
  destruct Hs; cbn; rewrite ?orb_false_r, ?orb_true_r; try done.
  - by destruct (apply c (core (app p1))).
  - by destruct (Stop now shutdown _ (app p1) (world p1)) as [[? ?] ?].
Qed.

Lemma proc_run_app tr tr' p1 p2 p3 : run tr p1 p2 -> run tr' p2 p3 -> run (tr ++ tr') p1 p3.
Proof. induction 1 as [p|e tr p1 p2 p3' Hs _ IH]; [done|]. intros H. eapply run_cons; [exact Hs|by apply IH]. Qed.

(** C28: The process that has started keeps serving: whatever is written to the
    configuration file and the certificate files, and however many reloads are asked
    for, the application has at each moment one valid configuration in force - block
    list, limits and level are all of that one -, with the listeners and the limiter
    of the start, and reloads that are refused leave the one in force as it was;
    until SIGINT or SIGTERM comes the readiness endpoint answers that it serves, the
    gateway and the addresses of its endpoints are those of the start, and so are the
    certificates, but for what the ticks of their watchers loaded; and the stop has a
    positive grace period. *)
Theorem command_keeps_serving f d dw g w p0 tr p tr' p' :
  main_start f d dw g w = Running p0 -> run tr p0 p -> run tr' p p' ->
  exists cfg0, load f = Ok cfg0 /\ Reload.CurrentConfig (core (app p0)) = cfg0 /\ in_force cfg0 (core (app p')) /\
    (exists lines, logged p' = logged p ++ lines /\ (Forall rejected lines -> core (app p') = core (app p))) /\
    match main_ p' with
    | Serving_ => healthHandler "/readyz" (app p') = (200, ln "ready") /\ unchanged (app p0) (app p')
    | Stopped grace _ => SIGTERM ∈ tr ++ tr' /\ 0 < grace <= max_int64
    end.
Proof.
  intros H0 Hr Hr'. destruct (main_start_serves f d dw g w p0 H0) as (cfg & Hl & Hs & Hc & Hm & Hd & Hrd & _).
  pose proof (run_serves _ _ _ _ _ Hr Hs) as Hs1. destruct (run_serves _ _ _ _ _ Hr' Hs1) as [Hf Hmain].
  exists cfg. split_and!; [done|done|done|by apply (run_logged _ _ _ _ _ Hr' Hs1)|].
  destruct (main_ p') as [|grace err].
  - split; [|exact Hmain]. unfold healthHandler. by rewrite (un_gateway _ _ Hmain), Hrd.
  - destruct Hmain as [Hdone Hg]. split; [|exact Hg]. rewrite (run_ctx_done _ _ _ (proc_run_app _ _ _ _ _ Hr Hr')), Hd in Hdone. cbn in Hdone.
    apply existsb_exists in Hdone as (e & He & Ht). destruct e; try done. by apply list_elem_of_In.
Qed.

(** ** Reloads *)

(** What the outside does while a reload is under way: anything but an edit of the
    configuration file and the end. *)
Definition quiet (e : event) : Prop := match e with Edit _ | SIGTERM => False | _ => True end.

(** The latest reload of a run from [p0] to [p]: it was made in a state [q], of a file
    that held [loaded], and reported [line]. *)
Definition latest_reload (loaded : result error Config) (p0 q : proc) (line : entry) (p : proc) : Prop :=
  exists tr q' tr', run tr p0 q /\ step q Tau q' /\ run tr' q' p /\
    apply loaded (core (app q)) = (line, core (app q')) /\
    logged p = logged q ++ [line] /\ core (app p) = core (app q').

(** A reload of the file as it is now was asked for and is still to come, or is
    the latest one. *)
Definition current (p0 p : proc) : Prop :=
  hup p = true \/ loop p = Reading \/ loop p = Applying (load (fs p)) \/
  loop p = Idle /\ exists q line, latest_reload (load (fs p)) p0 q line p.

Lemma run_snoc tr p1 p2 e p3 : run tr p1 p2 -> step p2 e p3 -> run (tr ++ [e]) p1 p3.
Proof. intros H1 H2. eapply proc_run_app; [exact H1|]. eapply run_cons; [exact H2|apply run_nil]. Qed.

Lemma latest_same loaded p0 q line p e p' :
  latest_reload loaded p0 q line p -> step p e p' -> logged p' = logged p -> core (app p') = core (app p) ->
  latest_reload loaded p0 q line p'.
Proof.
  intros (tr & q' & tr' & H1 & H2 & H3 & H4 & H5 & H6) Hs El Ec. exists tr, q', (tr' ++ [e]).
  split_and!; [done|done|by eapply run_snoc|done|congruence|congruence].
Qed.

Lemma step_current p0 tr p e p' :
  quiet e -> run tr p0 p -> step p e p' -> ctx_done p = false -> current p0 p ->
  current p0 p' /\ fs p' = fs p /\ ctx_done p' = false.
Proof.
  intros Hq Hr Hs Hd Hc. pose proof Hs as Hs'. unfold current in *.
  destruct Hs as [f'| | |i d s Hw Hi|a Ha|Hl Hh|Hl|c Hl|Hl Hd'|Hw Hd']; try done; try congruence.
  - split; [by left|done].
  - split; [|done]. destruct Hc as [?|[?|[?|[Hl (q & line & H)]]]]; [by left|by right; left|by right; right; left|].
    do 3 right. split; [done|]. exists q, line. by eapply latest_same.
  - split; [|done]. destruct Hc as [?|[?|[?|[Hl (q & line & H)]]]]; [by left|by right; left|by right; right; left|].
    do 3 right. split; [done|]. exists q, line. eapply latest_same; [done..|]. by apply serve_step_same.
  - split; [by right; left|done].
  - split; [by right; right; left|done].
  - destruct (apply c (core (app p))) as [line r] eqn:E. split; [|done]. cbn.
    destruct Hc as [Hh|[Hc|[Hc|[Hc _]]]]; [by left|congruence| |congruence].
    do 3 right. split; [done|]. rewrite Hc in Hl. injection Hl as <-. exists p, line, tr. eexists. exists [].
    split_and!; [exact Hr|exact Hs'|apply run_nil|exact E|done|done].
Qed.

Lemma run_current p0 tr tr' p p' :
  Forall quiet tr' -> run tr p0 p -> run tr' p p' -> ctx_done p = false -> current p0 p ->
  current p0 p' /\ fs p' = fs p /\ ctx_done p' = false.
Proof.
  intros Hq Hr Hr'. revert tr Hr. induction Hr' as [p|e l q1 q2 q3 Hs _ IH]; [done|]. intros tr Hr Hd Hc.
  apply Forall_cons in Hq as [Hq1 Hq]. destruct (step_current _ _ _ _ _ Hq1 Hr Hs Hd Hc) as (H1 & H2 & H3).
  rewrite <- H2. eapply IH; [done| |done..]. by eapply run_snoc.
Qed.

(** The steps of the process itself are finitely many. *)
Definition weight (p : proc) : nat :=
  (if hup p then 4 else 0) + (match loop p with Reading => 3 | Applying _ => 2 | Idle => 1 | Returned_ => 0 end) +
  (match main_ p with Serving_ => 1 | Stopped _ _ => 0 end).

Lemma tau_weight p p' : step p Tau p' -> (weight p' < weight p)%nat.
Proof.
  intros Hs. inversion Hs as [| | | | |Hl Hh|Hl|c Hl|Hl Hd|Hw Hd]; subst; unfold weight.
  1-2: cbn; rewrite Hl, ?Hh; lia.
  - destruct (apply c (core (app p))) as [line r]. cbn. rewrite Hl. lia.
  - cbn. rewrite Hl. lia.
  - cbv zeta. destruct (Stop now shutdown _ (app p) (world p)) as [[err a] w]. cbn. rewrite Hw. lia.
Qed.

Lemma rest_idle p : (forall p', ~ step p Tau p') -> loop p <> Returned_ -> loop p = Idle /\ hup p = false.
Proof.
  intros Hno Hr. destruct (loop p) as [| |c|] eqn:El; [|exfalso..|done].
  - split; [done|]. destruct (hup p) eqn:Eh; [|done]. exfalso. eapply Hno. by apply s_take.
  - eapply Hno. by apply s_read.
  - eapply Hno. by eapply s_apply.
Qed.

Lemma run_returned tr p p' : run tr p p' -> (loop p = Returned_ -> ctx_done p = true) -> loop p' = Returned_ -> ctx_done p' = true.
Proof.
  induction 1 as [p|e tr p1 p2 p3 Hs _ IH]; [done|]. intros H1. apply IH. clear IH.
  destruct Hs as [f| | |i d s Hw Hi|a Ha|Hl Hh|Hl|c Hl|Hl Hd|Hw Hd]; try done.
  - by destruct (apply c (core (app p1))).
  - cbv zeta. by destruct (Stop now shutdown _ (app p1) (world p1)) as [[err a] w].
Qed.

(** C14: No SIGHUP is lost.  Once the configuration file is no longer edited, a SIGHUP
    leaves it in force, whatever reloads it met under way, whatever further signals
    come and whatever the watchers and the endpoints do: the process takes finitely
    many steps of its own and can only rest after a reload, made since, of the file as
    it is, which reported the latest line; if that reload accepted, the file's
    configuration is in force, and if it refused, what was in force before it still is. *)
Theorem sighup_takes_effect f d dw g w p0 tr p1 p2 tr' p3 :
  main_start f d dw g w = Running p0 -> run tr p0 p1 -> ctx_done p1 = false ->
  step p1 SIGHUP p2 -> Forall quiet tr' -> run tr' p2 p3 ->
  Acc (fun y x => step x Tau y) p3 /\
  ((forall p, ~ step p3 Tau p) ->
    exists q line, latest_reload (load (fs p1)) p2 q line p3 /\
    match line, load (fs p1) with
    | Reloaded level n limit, Ok cfg => Reload.CurrentConfig (core (app p3)) = cfg /\
        level = LogLevel cfg /\ n = length (Blacklist_ cfg) /\ limit = rateLimitSummary cfg
    | Rejected e, Ok cfg => (Reload.Reload cfg (core (app q))).1 = Some e /\ core (app p3) = core (app q)
    | Rejected e, Err e' => e = e' /\ core (app p3) = core (app q)
    | _, _ => False
    end).
Proof.
  intros H0 Hr Hd Hh Hq Hr'. split; [apply (Wf_nat.well_founded_lt_compat _ weight); intros y x; apply tau_weight|].
  intros Hno. destruct (main_start_serves f d dw g w p0 H0) as (cfg0 & _ & Hsv & _ & _).
  assert (loop p0 = Idle) as Hi by (revert H0; unfold main_start; repeat (case_match; try discriminate); by intros [= <-]).
  assert (current p2 p2 /\ fs p2 = fs p1 /\ ctx_done p2 = false) as (Hc & Hf & Hd2) by (inversion Hh; subst; split_and!; [by left|done|done]).
  pose proof (step_serves _ _ _ _ _ (run_serves _ _ _ _ _ Hr Hsv) Hh) as Hsv2.
  assert (current p2 p3 /\ fs p3 = fs p1 /\ ctx_done p3 = false) as (Hc3 & Hf3 & Hd3).
  { rewrite <- Hf. by eapply (run_current p2 []); [exact Hq|apply run_nil|..]. }
  assert (loop p3 <> Returned_) as Hl.
  { intros Hl. pose proof (run_returned _ _ _ (proc_run_app _ _ _ _ _ (run_snoc _ _ _ _ _ Hr Hh) Hr')) as Hx.
    rewrite Hi, Hd3 in Hx. discriminate Hx; [done|exact Hl]. }
  apply rest_idle in Hno as [Hidle Hhup]; [|exact Hl].
  destruct Hc3 as [Hx|[Hx|[Hx|(_ & q & line & Hq')]]]; [congruence..|]. rewrite Hf3 in Hq'. exists q, line. split; [exact Hq'|].
  destruct Hq' as (tr1 & q' & tr2 & H1 & _ & _ & E & _ & ->). pose proof (run_serves _ _ _ _ _ H1 Hsv2) as [Hfq _].
  revert E. unfold apply. destruct (load (fs p1)) as [cfg|e]; [|by intros [= <- <-]].
  pose proof (Reload_in_force cfg0 cfg _ Hfq) as H. destruct (Reload.Reload cfg (core (app q))) as [[e|] r']; destruct H as (_ & H1' & H2).
  - specialize (H1' ltac:(done)). intros [= <- <-]. done.
  - intros [= <- <-]. unfold Reload.CurrentConfig. by rewrite (H2 eq_refl).
Qed.
End command.

(** ** A run *)

(** Two configuration files: the defaults, and one with another level. *)
Definition no_doc : ConfigDoc := mkDoc None None None None None None None.
Definition debug_doc : ConfigDoc := mkDoc None None None (Some (B "debug")) (Some [B "10.0.0.0/8"]) None None.
Definition demo_json (data : bytes) : result error ConfigDoc :=
  match data with [1] => Ok no_doc | [2] => Ok debug_doc | _ => Err (ErrMsg "invalid character") end.
Definition no_env : string -> option bytes := fun _ => None.
Definition demo_file (data : bytes) : files := fun _ => Ok data.
Definition demo_start : started (W := unit) (cert := Z) (pool := Z) :=
  main_start (fun _ => 0) demo_pool demo_json no_env (B "c.json") (demo_file [1]) (disk_at 1 [1] true 0) (disk_at 1 [1] true 0)
    demo_gateway tt.
Definition demo_proc : proc (W := unit) (cert := Z) (pool := Z) :=
  match demo_start with
  | Running p => p
  | _ => mkProc (demo_file []) demo_app tt false false Idle Serving_ []
  end.

Abbreviation demo_step := (step (MapRange0 := map_range_std) (fun _ => 0) demo_pool no_shutdown_error demo_json no_env (B "c.json")).
Abbreviation demo_run := (run (MapRange0 := map_range_std) (fun _ => 0) demo_pool no_shutdown_error demo_json no_env (B "c.json")).

(** The process after an edit, the signal, and the reload. *)
Definition demo_edited : proc := mkProc (demo_file [2]) (app demo_proc) tt false false Idle Serving_ [].
Definition demo_signalled : proc := mkProc (demo_file [2]) (app demo_proc) tt true false Idle Serving_ [].
Definition demo_loaded : result error Config := load demo_json no_env (B "c.json") (demo_file [2]).
Definition demo_applied : entry * Reload.App := apply (MapRange0 := map_range_std) demo_loaded (core (app demo_proc)).
Definition demo_reloaded : proc :=
  mkProc (demo_file [2]) (set_core (app demo_proc) demo_applied.2) tt false false Idle Serving_ [demo_applied.1].

Lemma demo_run_edit : demo_run [Edit (demo_file [2])] demo_proc demo_edited.
Proof. eapply run_cons; [|apply run_nil]. exact (s_edit _ _ _ _ _ _ demo_proc (demo_file [2])). Qed.

Lemma demo_run_reload : demo_run [Tau; Tau; Tau] demo_signalled demo_reloaded.
Proof.
  eapply run_cons; [by apply s_take|]. eapply run_cons; [by apply s_read|]. eapply run_cons; [|apply run_nil].
  pose proof (s_apply (MapRange0 := map_range_std) (fun _ => 0) demo_pool no_shutdown_error demo_json no_env (B "c.json")
    (mkProc (demo_file [2]) (app demo_proc) tt false false (Applying demo_loaded) Serving_ []) demo_loaded eq_refl) as H.
  cbn [fs app world hup ctx_done loop main_ logged] in H. fold demo_applied in H.
  rewrite (surjective_pairing demo_applied) in H. exact H.
Qed.

Lemma sighup_takes_effect_witness :
  LogLevel (Reload.CurrentConfig (core (app demo_reloaded))) = B "debug" /\ Acc (fun y x => demo_step x Tau y) demo_reloaded.
Proof.
  destruct (sighup_takes_effect (MapRange0 := map_range_std) (fun _ => 0) demo_pool no_shutdown_error demo_json no_env (B "c.json")
    (demo_file [1]) (disk_at 1 [1] true 0) (disk_at 1 [1] true 0) demo_gateway tt demo_proc
    [Edit (demo_file [2])] demo_edited demo_signalled [Tau; Tau; Tau] demo_reloaded) as [Ha H].
  - vm_compute. reflexivity.
  - exact demo_run_edit.
  - reflexivity.
  - exact (s_hup _ _ _ _ _ _ demo_edited).
  - repeat constructor.
  - exact demo_run_reload.
  - split; [|exact Ha]. ospecialize (H _).
    { intros p Hs. inversion Hs; subst; discriminate. }
    destruct H as (q & line & (_ & _ & _ & _ & _ & _ & _ & Hl & _) & H).
    assert (last (logged demo_reloaded) = Some (Reloaded (B "debug") 1 None)) as E by (vm_compute; reflexivity).
    rewrite Hl, last_snoc in E. injection E as ->. destruct (load demo_json no_env (B "c.json") (fs demo_edited)) as [cfg|e]; [|destruct H].
    destruct H as (-> & <- & _). reflexivity.
Defined.

Lemma command_keeps_serving_witness :
  healthHandler "/readyz" (app demo_reloaded) = (200, ln "ready") /\
  Reload.CurrentConfig (core (app demo_proc)) = DefaultConfig /\ unchanged demo_pool (app demo_proc) (app demo_reloaded).
Proof.
  destruct (command_keeps_serving (MapRange0 := map_range_std) (fun _ => 0) demo_pool no_shutdown_error demo_json no_env (B "c.json")
    (demo_file [1]) (disk_at 1 [1] true 0) (disk_at 1 [1] true 0) demo_gateway tt demo_proc
    [Edit (demo_file [2]); SIGHUP] demo_signalled [Tau; Tau; Tau] demo_reloaded) as (cfg & H1 & H2 & _ & _ & H3 & H4).
  - vm_compute. reflexivity.
  - eapply (proc_run_app _ _ _ _ _ _ [_] [_]); [exact demo_run_edit|]. eapply run_cons; [exact (s_hup _ _ _ _ _ _ demo_edited)|apply run_nil].
  - exact demo_run_reload.
  - split; [exact H3|]. split; [|exact H4]. rewrite H2.
    assert (load demo_json no_env (B "c.json") (demo_file [1]) = Ok DefaultConfig) as E by (vm_compute; reflexivity).
    rewrite E in H1. by injection H1.
Defined.

(** A file that does not parse is refused, and the level stays. *)
Example refused_reload :
  (apply (MapRange0 := map_range_std) (load demo_json no_env (B "c.json") (demo_file [3])) (core (app demo_proc))).1 =
  Rejected (ErrWrap "parse config" (ErrMsg "invalid character")).
Proof. vm_compute. reflexivity. Qed.
