(* ===== verification/PoolBaseline.v ===== *)
(** * PoolBaseline: [scripts/workerpool_baseline.go]

    The tool that measures how many messages a full worker pool drops.  It reads the
    server's counter back out of the text that [Metrics] exports; its clients count
    what they send and what comes back.  Reading a float from text
    ([strconv.ParseFloat]) and printing one are parameters. *)
From Stdlib Require Import SpecFloat.
From S2P Require Import Prelude Bytes Core Duration PeerAddr Quota Acceptor Metrics.
From S2P Require SessionStore LoadMetrics.
Local Open Scope string_scope.
Local Open Scope Z_scope.
Local Open Scope list_scope.

(** ** The scrape *)

Section scrape.
Variable ParseFloat : bytes -> option float64.

(** The value a line gives for a metric, if it does. *)
Definition line_value (name line : bytes) : option float64 :=
  let line := TrimSpace line in
  if negb (has_prefix name line) then None
  else
    let fields := Fields line in
    if (length fields <? 2)%nat then None else ParseFloat (List.last fields []).

Fixpoint first_value (name : bytes) (lines : list bytes) : float64 :=
  match lines with
  | [] => f0
  | line :: lines => match line_value name line with Some v => v | None => first_value name lines end
  end.

(* go: scripts/workerpool_baseline.go:71-87 (promDropCounter) *)
Definition promDropCounter (text name : bytes) : float64 := first_value name (split_on 10 [] text).

(** The body of the metrics page, or an error. *)
(* go: scripts/workerpool_baseline.go:306-333 (scrapeRemote) *)
Definition scrapeRemote (body : option bytes) (name : bytes) : float64 :=
  match body with None => float_of_int (-1) | Some text => promDropCounter text name end.
End scrape.

Definition queue_full : bytes := B "tcp_task_queue_full_total".

(** ** What a run reports *)

(* go: scripts/workerpool_baseline.go:105-121 (result) *)
Record result_ : Type := mkResult {
  conns : Z; sent : Z; received : Z; sendErr : Z; readErr : Z; queueFull : float64; elapsed : Z
}.

Definition f100 : float64 := float_of_int 100.

(* go: scripts/workerpool_baseline.go:123-133 (dropRate) *)
Definition dropRate (r : result_) : float64 :=
  if sent r =? 0 then f0 else fmul (fdiv (queueFull r) (float_of_int (sent r))) f100.

(* go: scripts/workerpool_baseline.go:135-141 (lossRate) *)
Definition lossRate (r : result_) : float64 :=
  if sent r =? 0 then f0 else fmul (fdiv (float_of_int (i64 (sent r - received r))) (float_of_int (sent r))) f100.

(* go: scripts/workerpool_baseline.go:143-148 (msgPerSec) *)
Definition msgPerSec (r : result_) : float64 :=
  if elapsed r <=? 0 then f0 else fdiv (float_of_int (received r)) (LoadMetrics.Seconds (elapsed r)).

(** A row of the sweep against a remote server: the counter as a difference; the
    server may have restarted in between. *)
(* go: scripts/workerpool_baseline.go:161-171 (runSweep) *)
Definition sweep_row (remote : bool) (base : float64) (r : result_) : result_ :=
  if remote && fleb f0 (queueFull r) then
    let delta := fsub (queueFull r) base in
    mkResult (conns r) (sent r) (received r) (sendErr r) (readErr r) (if fltb delta f0 then queueFull r else delta) (elapsed r)
  else r.

(** ** The clients *)

(* go: scripts/workerpool_baseline.go:62-67 (counters) *)
Record counters_ : Type := mkCounters { c_sent : Z; c_received : Z; c_sendErr : Z; c_readErr : Z }.

Definition add_counters (a b : counters_) : counters_ :=
  mkCounters (c_sent a + c_sent b) (c_received a + c_received b) (c_sendErr a + c_sendErr b) (c_readErr a + c_readErr b).
Definition none_ : counters_ := mkCounters 0 0 0 0.

(** One turn of the echo mode: the write fails, the read fails, or the echo comes. *)
Inductive turn : Type := WriteFails | ReadFails | Echoed.

(* go: scripts/workerpool_baseline.go:380-397 (runClient) *)
Fixpoint echo_client (turns : list turn) : counters_ :=
  match turns with
  | [] => none_
  | WriteFails :: _ => mkCounters 0 0 1 0
  | ReadFails :: _ => mkCounters 1 0 0 1
  | Echoed :: turns => add_counters (mkCounters 1 1 0 0) (echo_client turns)
  end.

(** The read deadline is set once, before the first write. *)
(* go: scripts/workerpool_baseline.go:343-351 (runClient) *)
Definition read_deadline (start timeout handlerDelay : Z) : option Z :=
  if 0 <? handlerDelay then Some (start + timeout + 4 * handlerDelay)
  else if 0 <? timeout then Some (start + timeout) else None.

(** The pipeline mode: the writer takes the moments at which a write was over, and
    whether it succeeded; the reader those at which the next echo had come.  Either
    looks at the clock before each round; the writer closes the connection as it
    returns, which ends the reader. *)
(* go: scripts/workerpool_baseline.go:370-377 (runClient) *)
Fixpoint writer (end_ now : Z) (writes : list (Z * bool)) : counters_ * Z :=
  if now <? end_ then
    match writes with
    | [] => (none_, now)
    | (t, ok) :: writes =>
        if ok then let '(c, closed) := writer end_ t writes in (add_counters (mkCounters 1 0 0 0) c, closed)
        else (mkCounters 0 0 1 0, t)
    end
  else (none_, now).

Definition in_time (closed : Z) (deadline : option Z) (t : Z) : bool :=
  (t <? closed) && match deadline with None => true | Some d => t <=? d end.

(* go: scripts/workerpool_baseline.go:362-369 (runClient) *)
Fixpoint reader (end_ closed : Z) (deadline : option Z) (now : Z) (echoes : list Z) : Z :=
  match echoes with
  | [] => 0
  | t :: echoes => if (now <? end_) && in_time closed deadline t then 1 + reader end_ closed deadline t echoes else 0
  end.

(** [dialed]: the connection could be made. *)
(* go: scripts/workerpool_baseline.go:335-398 (runClient) *)
Definition runClient (pipeline dialed : bool) (start duration timeout handlerDelay : Z) (turns : list turn)
    (writes : list (Z * bool)) (echoes : list Z) : counters_ :=
  let end_ := start + duration in
  if negb dialed then mkCounters 0 0 1 0
  else if pipeline then
    let '(c, closed) := writer end_ start writes in
    add_counters c (mkCounters 0 (reader end_ closed (read_deadline start timeout handlerDelay) start echoes) 0 0)
  else echo_client turns.

(** ** The counter is read back *)

Lemma trim_with_stop spaces fuel s : spaces s = 0%nat -> trim_with spaces fuel s = s.
Proof. destruct fuel; [done|]. cbn. by intros ->. Qed.

Lemma trim_with_drop spaces fuel s : exists n, trim_with spaces fuel s = drop n s.
Proof.
  revert s. induction fuel as [|fuel IH]; intros s; cbn; [by exists 0%nat|].
  destruct (spaces s) as [|n]; [by exists 0%nat|]. destruct (IH (drop (S n) s)) as [m ->]. exists (S n + m)%nat. by rewrite drop_drop.
Qed.

(** What a trimmed line begins with, the line begins with. *)
Lemma TrimSpace_prefix c s : 33 <= c <= 126 -> exists n, TrimSpace (c :: s) = take n (c :: s).
Proof.
  intros Hc. unfold TrimSpace. rewrite (trim_with_stop space_len) by (by apply space_len_printable).
  destruct (trim_with_drop space_len_rev (length (c :: s)) (rev (c :: s))) as [n ->].
  exists (length (c :: s) - n)%nat. by rewrite skipn_rev, rev_involutive.
Qed.

Lemma space_len_rev_printable c r : 33 <= c <= 126 -> space_len_rev (c :: r) = 0%nat.
Proof.
  intros Hc. unfold space_len_rev. rewrite (proj2 (Z.eqb_neq c 32)), (proj2 (Z.leb_gt c 13)) by lia. rewrite andb_false_r. cbn [orb].
  destruct r as [|b r]; [done|]. rewrite (proj2 (Z.eqb_neq c 133)), (proj2 (Z.eqb_neq c 160)) by lia. cbn [orb]. rewrite andb_false_r.
  destruct r as [|a r]; [done|]. assert (space_len [a; b; c] <> 3%nat) as Hn.
  { unfold space_len. repeat case_match; try done; breflect; try lia; simplify_eq; lia. }
  by rewrite (proj2 (Nat.eqb_neq _ _) Hn).
Qed.

Lemma TrimSpace_words a b : word a -> word b -> TrimSpace (a ++ 32 :: b) = a ++ 32 :: b.
Proof.
  intros [Ha Ha'] [Hb Hb']. unfold TrimSpace. destruct a as [|x a]; [done|]. apply Forall_cons in Ha' as [Hx _].
  cbn [app]. rewrite (trim_with_stop space_len) by (by apply space_len_printable).
  destruct b as [|y b _] using rev_ind; [done|]. apply Forall_app in Hb' as [_ Hy]. apply Forall_cons in Hy as [Hy _].
  rewrite trim_with_stop; [by rewrite rev_involutive|].
  replace (x :: a ++ 32 :: b ++ [y]) with ((x :: a ++ 32 :: b) ++ [y]) by (cbn; by rewrite <- app_assoc).
  rewrite rev_app_distr. cbn [rev app]. by apply space_len_rev_printable.
Qed.

Lemma has_prefix_true p s : has_prefix p s = true <-> exists k, s = p ++ k.
Proof.
  unfold has_prefix. rewrite bool_decide_eq_true. split.
  - intros H. exists (drop (length p) s). rewrite <- H at 1. by rewrite take_drop.
  - intros [k ->]. by rewrite take_app_length.
Qed.

(** Neither of two names begins with the other. *)
Definition apart (q n : bytes) : Prop := word n /\ has_prefix q n = false /\ has_prefix n q = false.

Lemma apart_line q n r : apart q n -> has_prefix q (n ++ r) = false.
Proof.
  intros (_ & H1 & H2). apply not_true_iff_false. intros [k E]%has_prefix_true.
  apply app_eq_inv in E as [(l & -> & _)|(l & -> & _)].
  - apply not_true_iff_false in H1. apply H1, has_prefix_true. by exists l.
  - apply not_true_iff_false in H2. apply H2, has_prefix_true. by exists l.
Qed.

Lemma label_name_no_newline n : Forall (fun c => name_char c = true) n -> 10 ∉ n.
Proof. intros Hn Hin. rewrite Forall_forall in Hn. by apply Hn in Hin. Qed.

Lemma pair_no_newline n v : 10 ∉ n -> 10 ∉ pair_text n v.
Proof.
  intros Hn. unfold pair_text. rewrite escapeLabelValue_bytes, !not_elem_of_app. split_and!; [done|set_solver| |set_solver].
  intros (c & Hc & _)%list_elem_of_bind. revert Hc. unfold escape_byte. repeat case_match; breflect; set_solver.
Qed.

Lemma join_no_newline (sep : bytes) l : 10 ∉ sep -> Forall (fun x => 10 ∉ x) l -> 10 ∉ Join sep l.
Proof.
  intros Hs. induction 1 as [|x l Hx Hl IH]; [by apply not_elem_of_nil|]. destruct l as [|y l]; [done|].
  change (Join sep (x :: y :: l)) with (x ++ sep ++ Join sep (y :: l)). rewrite !not_elem_of_app. done.
Qed.

Lemma promLabels_no_newline labels : 10 ∉ promLabels labels.
Proof.
  destruct (decide (labels = [])) as [->|Hn]; [by apply not_elem_of_nil|]. rewrite promLabels_texts by done.
  rewrite not_elem_of_cons, not_elem_of_app. split; [done|]. split; [|set_solver].
  apply join_no_newline; [set_solver|]. apply Forall_map. eapply Forall_impl; [apply label_pairs_chars|].
  intros p Hp. by apply pair_no_newline, label_name_no_newline.
Qed.

Lemma word_no_newline w : word w -> 10 ∉ w.
Proof. intros [_ Hw] Hin. rewrite Forall_forall in Hw. specialize (Hw _ Hin). lia. Qed.

Lemma utoa_no_newline n : 10 ∉ SessionStore.utoa n.
Proof. intros Hin. pose proof (decimal_all 20 n [] (Forall_nil_2 _)) as H. rewrite Forall_forall in H. by apply H in Hin. Qed.

Section readback.
Variable ParseFloat : bytes -> option float64.
Variable formatFloat : float64 -> bytes.
(** [strconv.FormatFloat(v, 'f', -1, 64)] is digits, a sign, a point, [NaN] or
    [+Inf]. *)
Hypothesis formatFloat_word : forall v, word (formatFloat v).
Variable q : bytes.
Hypothesis q_word : word q.
Hypothesis q_no_hash : has_prefix q (B "#") = false /\ head q <> Some 35.

Abbreviation read := (fun text => first_value ParseFloat q (split_on 10 [] text)).

Lemma read_other n r rest : apart q n -> 10 ∉ r -> read (n ++ r ++ 10 :: rest) = read rest.
Proof.
  intros Hn Hr. rewrite app_assoc, split_on_sep by (rewrite not_elem_of_app; split; [by apply word_no_newline, Hn|done]).
  cbn [first_value app]. unfold line_value. pose proof (apart_line q n r Hn) as Hp. destruct Hn as [[Hne Hw] _].
  destruct n as [|c n]; [done|]. apply Forall_cons in Hw as [Hc _]. cbn [app] in *.
  destruct (TrimSpace_prefix c (n ++ r) Hc) as [k Hk]. rewrite Hk.
  assert (has_prefix q (take k (c :: n ++ r)) = false) as ->; [|done].
  apply not_true_iff_false. intros [x Ex]%has_prefix_true. apply not_true_iff_false in Hp. apply Hp, has_prefix_true.
  exists (x ++ drop k (c :: n ++ r)). by rewrite app_assoc, <- Ex, take_drop.
Qed.

Lemma read_value_line v rest : ParseFloat (formatFloat v) = Some v -> read (q ++ 32 :: formatFloat v ++ 10 :: rest) = v.
Proof.
  intros Hv. pose proof (word_no_newline _ q_word) as H1. pose proof (word_no_newline _ (formatFloat_word v)) as H2.
  replace (q ++ 32 :: formatFloat v ++ 10 :: rest) with ((q ++ 32 :: formatFloat v) ++ 10 :: rest) by (by rewrite <- app_assoc).
  rewrite split_on_sep by (rewrite not_elem_of_app, not_elem_of_cons; done).
  cbn [first_value app]. unfold line_value. rewrite TrimSpace_words by done.
  rewrite (proj2 (has_prefix_true _ _)) by (by eexists). cbn [negb].
  change (q ++ 32 :: formatFloat v) with (Join [32] [q; formatFloat v]). rewrite Fields_Join by (by repeat apply Forall_cons_2).
  cbn. by rewrite Hv.
Qed.

Lemma read_type declared n typ rest : 10 ∉ n -> 10 ∉ typ -> read (type_line declared n typ ++ rest) = read rest.
Proof.
  intros Hn Ht. unfold type_line. case_decide; [done|].
  replace ((B "# TYPE " ++ n ++ [32] ++ typ ++ [10]) ++ rest) with (B "#" ++ (B " TYPE " ++ n ++ [32] ++ typ) ++ 10 :: rest)
    by (rewrite <- !app_assoc; done).
  apply read_other.
  - split; [by split; [done|repeat constructor]|]. split; [apply q_no_hash|]. apply not_true_iff_false. intros [k E]%has_prefix_true.
    apply q_no_hash. by rewrite E.
  - rewrite !not_elem_of_app. split_and!; [by vm_compute; set_solver|done|set_solver|done].
Qed.

(** A series of another name, or the one without labels under [q]. *)
Definition series_fine (m : promMetric) : Prop := apart q (m_name m) \/ m_name m = q /\ m_labels m = [].

Lemma read_metrics typ declared l rest :
  10 ∉ typ -> Forall series_fine l ->
  Forall (fun m => m_name m = q -> ParseFloat (formatFloat (m_value m)) = Some (m_value m)) l ->
  read (metric_lines formatFloat typ declared l ++ rest) =
  match List.find (fun m => bool_decide (m_name m = q)) l with Some m => m_value m | None => read rest end.
Proof.
  intros Ht Hf Hp. revert declared. induction Hf as [|m l Hm _ IH]; intros declared; [done|].
  apply Forall_cons in Hp as [Hv Hp]. specialize (IH Hp). cbn [metric_lines List.find]. rewrite <- !app_assoc.
  assert (10 ∉ m_name m) as Hn by (destruct Hm as [[Hw _]|[-> _]]; by apply word_no_newline).
  rewrite read_type by done. destruct Hm as [Ha|[E El]].
  - rewrite bool_decide_eq_false_2.
    2: { intros E. destruct Ha as (_ & H & _). rewrite E in H. apply not_true_iff_false in H. apply H, has_prefix_true.
         exists []. by rewrite app_nil_r. }
    replace (m_name m ++ promLabels (m_labels m) ++ [32] ++ formatFloat (m_value m) ++ [10] ++ metric_lines formatFloat typ ({[m_name m]} ∪ declared) l ++ rest)
      with (m_name m ++ (promLabels (m_labels m) ++ [32] ++ formatFloat (m_value m)) ++ 10 :: (metric_lines formatFloat typ ({[m_name m]} ∪ declared) l ++ rest))
      by (rewrite <- !app_assoc; done).
    rewrite read_other; [apply IH|done|]. rewrite !not_elem_of_app.
    split_and!; [apply promLabels_no_newline|set_solver|by apply word_no_newline].
  - rewrite bool_decide_eq_true_2 by done. rewrite E, El. cbn [promLabels app]. apply read_value_line. by apply Hv.
Qed.

Lemma read_bucket h le n rest : apart q (h_name h) -> read (bucket_line h le n ++ rest) = read rest.
Proof.
  intros Ha. unfold bucket_line.
  replace ((h_name h ++ B "_bucket" ++ promLabelsWithBucket (h_labels h) le ++ [32] ++ SessionStore.utoa n ++ [10]) ++ rest)
    with (h_name h ++ (B "_bucket" ++ promLabelsWithBucket (h_labels h) le ++ [32] ++ SessionStore.utoa n) ++ 10 :: rest)
    by (rewrite <- !app_assoc; done).
  apply read_other; [done|]. rewrite !not_elem_of_app.
  split_and!; [by vm_compute; set_solver|apply promLabels_no_newline|set_solver|apply utoa_no_newline].
Qed.

Lemma read_histogram h rest : apart q (h_name h) -> read (histogram_lines formatFloat h ++ rest) = read rest.
Proof.
  intros Ha. unfold histogram_lines. rewrite <- app_assoc.
  set (tail := _ ++ rest). assert (read tail = read rest) as <-.
  { subst tail. rewrite <- app_assoc, read_bucket by done.
    replace ((h_name h ++ B "_count" ++ promLabels (h_labels h) ++ [32] ++ SessionStore.utoa (h_count h) ++ [10] ++
        h_name h ++ B "_sum" ++ promLabels (h_labels h) ++ [32] ++ formatFloat (h_sum h) ++ [10]) ++ rest)
      with (h_name h ++ (B "_count" ++ promLabels (h_labels h) ++ [32] ++ SessionStore.utoa (h_count h)) ++ 10 ::
        (h_name h ++ (B "_sum" ++ promLabels (h_labels h) ++ [32] ++ formatFloat (h_sum h)) ++ 10 :: rest))
      by (rewrite <- !app_assoc; done).
    rewrite !read_other; [done|done| |done|]; rewrite !not_elem_of_app;
      (split_and!; [by vm_compute; set_solver|apply promLabels_no_newline|set_solver|]); [by apply word_no_newline|apply utoa_no_newline]. }
  revert tail. generalize (cumulative 0 (h_counts h)). generalize (h_buckets h).
  intros bs cs tail. revert cs. induction bs as [|b bs IH]; intros [|c cs]; try done. cbn [zip_with concat].
  rewrite <- app_assoc, read_bucket by done. apply IH.
Qed.

Lemma read_histograms declared l rest :
  Forall (fun h => apart q (h_name h)) l -> read (histogram_family formatFloat declared l ++ rest) = read rest.
Proof.
  intros Hl. revert declared. induction Hl as [|h l Hh _ IH]; intros declared; [done|]. cbn [histogram_family]. rewrite <- !app_assoc.
  rewrite read_type; [|by apply word_no_newline, Hh|by vm_compute; set_solver]. rewrite read_histogram by done. apply IH.
Qed.

Lemma elem_of_sorted {A} (name : A -> bytes) (labels : A -> list bytes) x l : x ∈ sorted name labels l <-> x ∈ l.
Proof.
  unfold sorted. induction l as [|y l IH]; [done|]. cbn [foldr]. rewrite elem_of_cons, <- IH.
  generalize (foldr (insert_series name labels) [] l) as k. clear. induction k as [|z k IH]; cbn [insert_series].
  - rewrite list_elem_of_singleton. set_solver.
  - destruct (before name labels z y); set_solver.
Qed.

Lemma elem_of_series {A} (m : gmap seriesKey A) x : x ∈ map snd (map_to_list m) <-> exists k, m !! k = Some x.
Proof.
  rewrite list_elem_of_fmap. split.
  - intros ((k & y) & -> & H%elem_of_map_to_list). by exists k.
  - intros [k H%elem_of_map_to_list]. by exists (k, x).
Qed.

(** The registry of a program that uses [q] for one counter without labels. *)
Record fine (m : PrometheusMetrics) : Prop := {
  fn_counters k c : counters m !! k = Some c -> newSeriesKey (m_name c) (m_labels c) = k /\ series_fine c;
  fn_gauges k c : gauges m !! k = Some c -> apart q (m_name c);
  fn_histograms k h : histograms m !! k = Some h -> apart q (h_name h)
}.

Definition op_fine (o : op) : Prop :=
  match o with
  | OpInc n labels => apart q n \/ n = q /\ labels = []
  | OpSet n _ _ | OpObserve n _ _ => apart q n
  | OpRegister _ _ => True
  end.

Lemma fine_history ops : Forall op_fine ops -> fine (history ops).
Proof.
  unfold history. induction ops as [|o ops IH] using rev_ind; intros Hf; [by split; intros k c; cbn; rewrite lookup_empty|].
  apply Forall_app in Hf as [Hf Ho]. apply Forall_cons in Ho as [Ho _]. specialize (IH Hf). rewrite fold_left_app. cbn [fold_left].
  revert IH. generalize (fold_left apply_op ops NewPrometheusMetrics). intros m [Hc Hg Hh]. destruct o as [n l|n v l|n v l|n bs]; cbn in Ho |- *.
  - split; try done. intros k c. cbn. rewrite lookup_insert_Some. intros [[<- <-]|[_ H]]; [|by apply Hc].
    destruct (counters m !! newSeriesKey n l) as [c|] eqn:E; cbn; [by apply Hc in E|done].
  - split; try done. intros k c. cbn. rewrite lookup_insert_Some. intros [[<- <-]|[_ H]]; [|by eapply Hg].
    destruct (gauges m !! newSeriesKey n l) as [c|] eqn:E; cbn; [by eapply Hg|done].
  - split; try done. intros k c. cbn. rewrite lookup_insert_Some. intros [[<- <-]|[_ H]]; [|by eapply Hh].
    unfold observe. destruct (histograms m !! newSeriesKey n l) as [h|] eqn:E; cbn; [by eapply Hh|done].
  - unfold RegisterHistogram. repeat case_match; split; done.
Qed.
End readback.

(** ** Theorems *)

(** The drop count the tool reports is the server's: whatever a server has counted
    and measured under other names, with whatever labels, the tool reads from the
    exported text the value of the counter of full queues, one added as often as a
    submission was refused, and zero if none was. *)
Theorem baseline_reads_counter ParseFloat formatFloat ops :
  (forall v, word (formatFloat v)) -> Forall (op_fine queue_full) ops ->
  let n := incs (newSeriesKey queue_full []) ops in
  let count := Nat.iter n (fun v => fadd v f1) f0 in
  ParseFloat (formatFloat count) = Some count ->
  promDropCounter ParseFloat (ExportText formatFloat (history ops)) queue_full = count.
Proof.
  intros Hw Hops n count Hp. assert (word queue_full) as Hq by (split; [done|decide_now]).
  assert (has_prefix queue_full (B "#") = false /\ head queue_full <> Some 35) as Hh by done.
  destruct (fine_history queue_full ops Hops) as [Hc Hg Hhist]. pose proof (ag_counters _ _ (agrees_history ops)) as Hag.
  assert (Forall (fun m => m_name m = queue_full -> m_value m = count) (sortedMetrics (counters (history ops)))) as Hcount.
  { apply Forall_forall. intros m Hm En. apply elem_of_sorted, elem_of_series in Hm as [k Hk]. destruct (Hc k m Hk) as [Ek Hf].
    destruct Hf as [Hf|[_ El]].
    { destruct Hf as (_ & H & _). rewrite En in H. by vm_compute in H. }
    rewrite En, El in Ek. subst k. specialize (Hag (newSeriesKey queue_full [])). rewrite Hk in Hag. fold n in Hag. unfold count.
    cbn [fmap option_fmap option_map] in Hag. destruct n as [|n']; [done|]. by injection Hag. }
  unfold promDropCounter, ExportText, writePromMetrics, writePromHistograms.
  rewrite read_metrics; [|done|done|done|by vm_compute; set_solver| |].
  2: { apply Forall_forall. intros m Hm. apply elem_of_sorted, elem_of_series in Hm as [k Hk]. by eapply Hc. }
  2: { eapply Forall_impl; [exact Hcount|]. intros m Hm En. rewrite (Hm En). exact Hp. }
  destruct (List.find _ (sortedMetrics (counters (history ops)))) as [m|] eqn:E.
  { apply List.find_some in E as [Hin En]. apply bool_decide_eq_true in En. rewrite Forall_forall in Hcount.
    apply Hcount; [by apply list_elem_of_In|done]. }
  assert (n = 0%nat) as Hn.
  { specialize (Hag (newSeriesKey queue_full [])). fold n in Hag. destruct n as [|n']; [done|exfalso].
    destruct (counters (history ops) !! newSeriesKey queue_full []) as [c|] eqn:Ec; [|done]. destruct (Hc _ _ Ec) as [Ek Hf].
    assert (c ∈ sortedMetrics (counters (history ops))) as Hin by (apply elem_of_sorted, elem_of_series; by eexists).
    apply list_elem_of_In in Hin. pose proof (List.find_none _ _ E c Hin) as Hx. apply bool_decide_eq_false in Hx. apply Hx.
    apply (f_equal k_name) in Ek. by rewrite !key_name in Ek. }
  unfold count. rewrite Hn. rewrite read_metrics; [|done|done|done|by vm_compute; set_solver| |].
  2: { apply Forall_forall. intros m Hm. apply elem_of_sorted, elem_of_series in Hm as [k Hk]. left. by eapply Hg. }
  2: { apply Forall_forall. intros m Hm En. apply elem_of_sorted, elem_of_series in Hm as [k Hk].
       apply Hg in Hk as (_ & H & _). rewrite En in H. by vm_compute in H. }
  destruct (List.find _ (sortedMetrics (gauges (history ops)))) as [m|] eqn:E'.
  { apply List.find_some in E' as [Hin En]. apply bool_decide_eq_true in En. apply list_elem_of_In, elem_of_sorted, elem_of_series in Hin as [k Hk].
    apply Hg in Hk as (_ & H & _). rewrite En in H. by vm_compute in H. }
  rewrite <- (app_nil_r (histogram_family _ _ _)). rewrite read_histograms; [done|done|done|done|].
  apply Forall_forall. intros h Hin. apply elem_of_sorted, elem_of_series in Hin as [k Hk]. by eapply Hhist.
Qed.

Lemma reader_in_time end_ closed d now es :
  now < end_ -> d < end_ -> end_ <= closed -> StronglySorted Z.le (now :: es) ->
  reader end_ closed (Some d) now es = Z.of_nat (length (List.filter (fun e => e <=? d) es)).
Proof.
  intros Hn Hd Hc Hs. revert now Hn Hs. induction es as [|e es IH]; intros now Hn Hs; [done|]. cbn [reader List.filter].
  rewrite (proj2 (Z.ltb_lt now end_) Hn). cbn [andb]. unfold in_time. apply StronglySorted_inv in Hs as [Hs _].
  destruct (Z.leb_spec e d) as [He|He].
  - rewrite (proj2 (Z.ltb_lt e closed)) by lia. cbn [andb length]. rewrite IH by (lia || done). lia.
  - rewrite andb_false_r. apply StronglySorted_inv in Hs as [_ Hall].
    assert (List.filter (fun x => x <=? d) es = []) as ->; [|done].
    clear IH. induction Hall as [|x es Hx _ IHx]; [done|]. cbn [List.filter]. rewrite (proj2 (Z.leb_gt x d)) by lia. exact IHx.
Qed.

Lemma writer_counts end_ now ts fin :
  now < end_ -> Forall (fun t => t < end_) ts -> end_ <= fin ->
  writer end_ now (map (fun t => (t, true)) (ts ++ [fin])) = (mkCounters (Z.of_nat (S (length ts))) 0 0 0, fin).
Proof.
  intros Hn Ht Hf. revert now Hn. induction Ht as [|t ts Ht _ IH]; intros now Hn; cbn [app map writer].
  - rewrite (proj2 (Z.ltb_lt now end_) Hn), (proj2 (Z.ltb_ge fin end_)) by lia. done.
  - rewrite (proj2 (Z.ltb_lt now end_) Hn), (IH t Ht). cbn [length]. unfold add_counters. cbn. do 2 f_equal. lia.
Qed.

(** In the pipeline mode the time limit of a read is one for the whole connection:
    in a run longer than it, a client whose writes all succeed and to which every
    message may come back, counts the echoes that came before the limit and no
    other.  The rest of the run is reported as loss. *)
Theorem late_echoes_are_lost start duration timeout turns ts fin es :
  0 < timeout < duration -> Forall (fun t => t < start + duration) ts -> start + duration <= fin ->
  StronglySorted Z.le (start :: es) ->
  runClient true true start duration timeout 0 turns (map (fun t => (t, true)) (ts ++ [fin])) es =
  mkCounters (Z.of_nat (S (length ts))) (Z.of_nat (length (List.filter (fun e => e <=? start + timeout) es))) 0 0.
Proof.
  intros Ht Hw Hf Hs. unfold runClient. cbn [negb]. rewrite writer_counts by (lia || done).
  unfold read_deadline. cbn [Z.ltb Z.compare]. rewrite (proj2 (Z.ltb_lt 0 timeout)) by lia.
  rewrite reader_in_time by (lia || done). unfold add_counters. cbn. f_equal; lia.
Qed.

(** In the echo mode nothing is in flight: what was sent and not received is the
    read that failed, so at most one message for each connection. *)
Theorem echo_client_accounts turns :
  let c := echo_client turns in
  c_sent c = c_received c + c_readErr c /\ 0 <= c_readErr c /\ 0 <= c_sendErr c /\ c_readErr c + c_sendErr c <= 1.
Proof.
  cbn zeta. induction turns as [|[| |] turns IH]; cbn; lia.
Qed.

(** ** Examples and witnesses *)

(** The defaults - 20 s, 10 s for a read -, a message every second, each echoed at
    once: half of them are lost. *)
Definition seconds (l : list Z) : list Z := map (fun n => n * second) l.
Definition default_run : counters_ :=
  runClient true true 0 (20 * second) (10 * second) 0 [] (map (fun t => (t, true)) (seconds (seqZ 1 20))) (seconds (seqZ 1 20)).
Example default_run_loses_half : default_run = mkCounters 20 10 0 0.
Proof. vm_compute. reflexivity. Qed.

Lemma late_echoes_are_lost_witness : default_run = mkCounters 20 10 0 0.
Proof.
  assert (seconds (seqZ 1 20) = seconds (seqZ 1 19) ++ [20 * second]) as E by reflexivity.
  unfold default_run. rewrite E at 1. rewrite late_echoes_are_lost.
  - vm_compute. reflexivity.
  - unfold second. lia.
  - decide_now.
  - lia.
  - apply Sorted_StronglySorted; [exact Z.le_trans|].
    let l := eval vm_compute in (0 :: seconds (seqZ 1 20)) in change (Sorted Z.le l). repeat constructor; lia.
Defined.

(** A page that could not be read counts as minus one: before a run, it adds one
    to the difference; after a run, it makes the rate negative. *)
Example failed_scrape :
  let r := mkResult 1 100 100 0 0 (float_of_int 5) second in
  queueFull (sweep_row true (scrapeRemote (fun _ => None) None queue_full) r) = float_of_int 6 /\
  fltb (dropRate (mkResult 1 100 100 0 0 (scrapeRemote (fun _ => None) None queue_full) second)) f0 = true.
Proof. vm_compute. done. Qed.

(** Reading and printing of small whole numbers. *)
Definition digits_float (f : float64) : bytes := itoa (Z.abs (float_to_int f)).
Definition float_digits (s : bytes) : option float64 := float_of_int <$> Atoi s.

Definition sample_ops : list op :=
  [OpInc (B "sessions_total") [B "protocol"; B "a b"]; OpInc queue_full []; OpSet (B "heap") f1 []; OpInc queue_full [];
   OpObserve (B "handler_seconds") f1 [B "x"]].

Lemma baseline_reads_counter_witness :
  promDropCounter float_digits (ExportText digits_float (history sample_ops)) queue_full = float_of_int 2.
Proof.
  rewrite (baseline_reads_counter float_digits digits_float sample_ops).
  - reflexivity.
  - intros v. split; [apply itoa_nonempty|]. eapply Forall_impl; [apply itoa_digits|]. intros c Hc. unfold is_digit in Hc. breflect. lia.
  - assert (forall s, bool_decide (s = queue_full) = false -> has_prefix queue_full s = false -> has_prefix s queue_full = false -> word s -> apart queue_full s) as Hap by (unfold apart; tauto).
    unfold sample_ops. repeat apply Forall_cons_2; try done; cbn;
      try (by right); try left; (apply Hap; [reflexivity..|split; [done|repeat constructor; done]]).
  - reflexivity.
Defined.
